(* ===== verification/_CoqProject ===== *)
-Q . S2P
Prelude.v
MathUtil.v
Abi.v
AbiCodec.v
AbiTyped.v
Blake2b.v
VmBase.v
VmEnv.v
VmGas.v
VmInstr.v
VmTable.v
VmInterp.v
VmAnalysis.v
World.v
VmInv.v
VmMemory.v
VmGasSpec.v
VmStep.v
VmOps.v
VmOpsMem.v
VmOpsCall.v
VmTableOk.v
VmSafe.v
VmFuel.v
VmMain.v
Precompiles.v
VmArith.v
VmFacts.v
VmExample.v
Rlp.v
RlpEncode.v
RlpStream.v
RlpDecode.v
RlpCodec.v
RlpRaw.v
StateDB.v
StateView.v
StateJournal.v
StateSnap.v
StateRefine.v
StateFinal.v
VmOnState.v
StateExample.v
Solidity.v
Stamina.v
Transition.v
TransitionExample.v
TrieBase.v
Trie.v
TrieSpec.v
TrieOps.v
TrieHash.v
TrieDecode.v
TrieCommit.v
TriePatricia.v
TrieSession.v
TrieProof.v
TrieExample.v
RecordUpdate.v
BinaryMerkle.v
PlasmaTx.v
RootChainData.v
RootChain.v
RootChainLayout.v
RootChainCalls.v
RootChainInv.v
RootChainClaims.v
RootChainProgress.v
RootChainNode.v
RootChainExample.v
Heap.v
TxList.v
TxSorted.v
TxPool.v
TxByPrice.v
Clique.v
CliqueSafe.v
CliqueSeal.v
CliqueEngine.v
CliqueNode.v
