(* ===== verification/Prelude.v ===== *)
(** * Plasma EVM: a verification development

    Plasma EVM is a Go client of an Ethereum-like child chain whose blocks are
    submitted to a contract on a root chain.  This library models the parts of
    it that decide what the state of the child chain is and what the root chain
    makes of it, and proves them correct: the virtual machine, the state
    database under it, the tries and encodings that state and messages are kept
    in, the transition a transaction makes, the stamina contract that pays for
    gas, and the root chain contract with the operator's node that feeds it; and
    of the client around them the lists that its transactions wait in and the
    proof of authority that its blocks may be sealed by.

    ** Conventions

    Definitions are translated from the Go and Solidity sources (under src/) and
    keep their names.  Integers are [Z]; a fixed width is written out by [u64],
    [u128], [u256] and by the bounds in the invariants, where the source
    converts or overflows.  Bytes are lists of [Byte.byte].  A Go run-time
    panic, and a loop that does not end within its fuel, are outcomes
    ([outcome]: [Done], [Panic], [OutOfFuel], with [let!] for sequencing); a Go
    error is a value of a sum or an option; a Solidity revert is [None].  Hash
    functions and elliptic curves are parameters, with the documented lengths
    of their results; injectivity of Keccak-256 is assumed only where a
    statement says so, or replaced by the collision that would contradict it.
    Each file with an Example module applies the theorems to concrete inputs.

    ** The files

    - Prelude.v, MathUtil.v: notations, tactics, the hint database, byte strings,
      slices, outcomes; common/math and the conversions of common/types.go and
      common/bytes.go.
    - VmBase.v (core/vm/stack.go, memory.go, common.go, memory_table.go,
      analysis.go), VmEnv.v (interface.go, contract.go, params/), VmGas.v
      (gas.go, gas_table.go), VmInstr.v (instructions.go, eips.go), VmTable.v
      (jump_table.go, stack_table.go, opcodes.go), VmInterp.v (interpreter.go,
      evm.go), Precompiles.v (contracts.go), Blake2b.v (crypto/blake2b): the
      virtual machine.  The state is the class [vmStateDB]; the recursion of
      calls is tied in VmInterp.v.
    - World.v: the contract of that class, a refinement of a [World] with
      snapshots.  VmAnalysis.v, VmInv.v, VmMemory.v, VmGasSpec.v, VmStep.v,
      VmOps.v, VmOpsMem.v, VmOpsCall.v, VmTableOk.v, VmSafe.v, VmFuel.v: the
      invariant of a frame and that every operation of every fork keeps it.
      VmMain.v, VmArith.v, VmFacts.v: what callers rely on.  VmExample.v.
    - StateDB.v (core/state/statedb.go, state_object.go, journal.go, database.go):
      live objects, journal, snapshots, Finalise, IntermediateRoot, Commit, Copy.
      StateView.v, StateJournal.v, StateSnap.v, StateRefine.v, StateFinal.v:
      getters, undoing, snapshots, the refinement, the end of a transaction.
      VmOnState.v puts the virtual machine on it.  StateExample.v.
    - Solidity.v, Stamina.v (contracts/stamina/contract/Stamina.sol,
      core/genesis.go), Transition.v (core/state_transition.go, stamina.go,
      gaspool.go), TransitionExample.v.
    - Rlp.v, RlpEncode.v, RlpStream.v, RlpDecode.v, RlpCodec.v, RlpRaw.v: the
      package rlp, its encoder, its decoder, and that they are inverse.
    - Abi.v, AbiCodec.v, AbiTyped.v: the package accounts/abi, packing and
      unpacking.
    - TrieBase.v, Trie.v (trie/encoding.go, node.go, trie.go, hasher.go,
      database.go), TrieProof.v (proof.go), and TrieSpec.v, TrieOps.v,
      TrieHash.v, TrieDecode.v, TrieCommit.v, TriePatricia.v, TrieSession.v,
      TrieExample.v: the Merkle Patricia trie against finite maps.
    - BinaryMerkle.v (core/types/derive_sha.go, lib/BMT.sol), PlasmaTx.v
      (lib/RLPEncode.sol, lib/Data.sol, core/types/transaction.go): the roots and
      transactions on which node and contract have to agree.
    - RecordUpdate.v, RootChainData.v (lib/Data.sol, lib/RLP.sol, lib/Roles.sol,
      RootChainStorage.sol), RootChain.v (RootChain.sol, handlers/): the root
      chain contract; [call] and [exec] are its interface, [reachable] the
      states of any sequence of calls.  RootChainLayout.v, RootChainCalls.v,
      RootChainInv.v: the invariant.  RootChainClaims.v, RootChainProgress.v:
      safety and progress.  RootChainNode.v: the operator's node
      (pls/rootchain_manager.go).  RootChainExample.v.  The Solidity files are
      under src/contracts/plasma/plasma-evm-cotracts/contracts/.
    - Heap.v (Go's container/heap), TxList.v (core/tx_list.go), TxSorted.v,
      TxPool.v: the lists of the transaction pool.  TxByPrice.v
      (core/types/transaction.go): the order in which the miner takes them.
    - Clique.v (consensus/clique/snapshot.go, clique.go), CliqueSafe.v,
      CliqueSeal.v: votes, turns and seals of the proof of authority.
      CliqueEngine.v (clique.go, api.go, consensus/misc/forks.go), CliqueNode.v:
      the engine with its caches, the verification of headers and the headers it
      makes.  The class [SnapshotCache] is what it relies on of the ARC cache.

    ** What the theorems show

    - Execution: a call or creation returns without a panic within its gas; one
      that fails leaves the world as it was; from Byzantium on a static call
      changes nothing;
      every frame keeps its bounds; gas, jumps, memory, storage prices, native
      contracts and arithmetic are what they should be.
    - State: any sequence of calls on the journaled state database behaves as on
      a world with whole copies as snapshots; reverting restores; Finalise
      settles every account.  A transaction costs what it used, and one that is
      refused before its gas is bought changes nothing.  The stamina contract
      stays solvent and pays every withdrawal.
    - Data: RLP decoding ends and accepts exactly the encodings, for types
      without one-byte arrays, and decoding inverts encoding but for ambiguous
      nils; ABI packing round-trips but for the types and values on which the
      code is wrong, and unpacking never leaves the declared types; a trie with
      its database behaves as a finite map whose root hash is that of the Yellow
      Paper, and proofs prove exactly what the map has.
    - Root chain: epochs, blocks and requests have one layout in every reachable
      state; requests are finalised once and in order; submission and
      finalisation do not get stuck as long as the contracts they call accept;
      the root of a request block commits to the transactions of its requests;
      node and contract make the same transaction of a request, and the contract
      accepts what the node submits, for values of Ether that fit 128 bits;
      membership proofs are complete and sound.
    - Pool and sealing: an account's list behaves as its transactions by nonce,
      pending ones have no gap, a full pool gives up the cheapest ones, and the
      miner takes the dearest next one of all accounts; signers take turns and
      change only by a majority, cached snapshots equal replayed ones, and a
      header that one engine seals is accepted by the others.
    - Where the code does something else than it means to, a theorem states what
      it does: the identity contract's aliased result, an RLP type whose
      decoding does not end, a balance that comes back, the operator's lost
      stamina, an exit that blocks the queue, inner nodes taken for items, early
      headers whose seal is accepted and that cannot be built on.

    ** Bounds and fuel

    The interpreter takes fuel above the gas of the call: each step and each call
    costs gas, so it never runs out, and VmFuel.v shows that the result does not
    depend on it.  Decoders take the length of the input, Merkle trees the number
    of items, tries the length of the key: measures that go down in each
    iteration, and the theorems prove that the result is reached.  The root chain
    theorems hold for less than 2^28 calls and epochs of less than 2^32 blocks,
    so that 64-bit block and request numbers cannot overflow; its loops take the
    gas of the call as fuel, and two iterations are shown to be enough.  Heap
    operations take the size of the heap, and the lookup of a snapshot the
    number of the block; its theorems are about chains of at most
    ImmutabilityThreshold (90,000) headers, beyond which the engine may trust a
    checkpoint in place of the headers before it.

    ** Not modelled

    - Concurrency, files and networks: the transaction pool around its lists,
      block import and reorganisation, mining (the delay before a sealed block is
      handed over included), proof of work, peer-to-peer protocols, light clients, RPC, the
      database layers, the sending and resending of the operator's transactions
      (tx/), commands.  They are code over channels, locks, timers and sockets.
    - Cryptography: hash functions, curves and signatures, in part C and
      assembly, are parameters.
    - Contracts that the root chain calls (tokens, staking) are parameters of a
      call and are taken not to call back; Ether values and fees of calls and
      events are left out.  User-activated forks cannot be started in this
      version, and only the code of them that submitORB can reach is modelled.
    - Of the state database: proofs, timers and the reference counts of Commit;
      of the trie database: caching, garbage collection and writing to disk; of
      rlp and abi: custom encoders, readers other than byte slices, reflection
      on struct tags, the parsing of JSON descriptions; of the interpreter:
      tracing and cancellation.
    - Generated bindings and vendored packages. *)

From stdpp Require Export base gmap list strings sets fin_maps.
From Stdlib Require Export ZArith Lia.
From Stdlib Require Import Strings.Byte.

#[global] Open Scope Z_scope.

(** ** Automation *)

#[export] Set Warnings "-clear-no-such-hyp".

Create HintDb plasma.

(** Split every boolean test that blocks the goal or a hypothesis, then let
    [lia] use the resulting comparisons (it reads [<?], [<=?], [=?] as atoms). *)
Ltac zcase :=
  repeat match goal with
  | |- context [if ?b then _ else _] => destruct b eqn:?
  | H : context [if ?b then _ else _] |- _ => destruct b eqn:?
  end; simplify_eq/=; try lia.

(** Case analysis on the scrutinee of every [match] in a hypothesis. *)
Ltac inv_match H :=
  repeat match type of H with
  | context [match ?x with _ => _ end] => destruct x eqn:?; simplify_eq/=
  end.

(** ** Bytes *)

Abbreviation byte := Init.Byte.byte.
Abbreviation bytes := (list Init.Byte.byte).

Definition Z_of_byte (b : byte) : Z := Z.of_N (Byte.to_N b).

(** Go's conversion [byte(x)]: keep the low eight bits. *)
Definition byte_of_Z (z : Z) : byte :=
  match Byte.of_N (Z.to_N (z mod 256)) with
  | Some b => b
  | None => Byte.x00
  end.

Lemma Z_of_byte_range b : 0 <= Z_of_byte b < 256.
Proof.
  unfold Z_of_byte. pose proof (Byte.to_N_bounded b). lia.
Qed.

Lemma Z_of_byte_of_Z z : Z_of_byte (byte_of_Z z) = z mod 256.
Proof.
  unfold byte_of_Z, Z_of_byte.
  pose proof (Z.mod_pos_bound z 256 ltac:(lia)) as Hr.
  destruct (Byte.of_N (Z.to_N (z mod 256))) as [b|] eqn:E.
  - apply Byte.to_of_N in E. rewrite E. lia.
  - apply Byte.of_N_None_iff in E. lia.
Qed.

Lemma byte_of_Z_of_byte b : byte_of_Z (Z_of_byte b) = b.
Proof.
  unfold byte_of_Z, Z_of_byte. pose proof (Byte.to_N_bounded b).
  rewrite Z.mod_small by lia. rewrite N2Z.id, Byte.of_to_N. done.
Qed.

#[export] Instance byte_eq_dec : EqDecision byte := Byte.byte_eq_dec.

Lemma Z_of_byte_inj b1 b2 : Z_of_byte b1 = Z_of_byte b2 -> b1 = b2.
Proof.
  intros H. rewrite <-(byte_of_Z_of_byte b1), <-(byte_of_Z_of_byte b2). by rewrite H.
Qed.

Lemma Z_of_byte_0 b : Z_of_byte b = 0 <-> b = Byte.x00.
Proof.
  split; [|by intros ->]. intros H. apply Z_of_byte_inj. by rewrite H.
Qed.

(** ** Big-endian byte strings *)

(** [big.Int.SetBytes]: the unsigned big-endian value of a byte slice. *)
Definition be_step (acc : Z) (b : byte) : Z := acc * 256 + Z_of_byte b.
Definition SetBytes (l : bytes) : Z := foldl be_step 0 l.

(** The [n] low bytes of [z], most significant first. *)
Fixpoint be_bytes (n : nat) (z : Z) : bytes :=
  match n with
  | O => []
  | S n => be_bytes n (z / 256) ++ [byte_of_Z z]
  end.

Lemma foldl_be_step acc l :
  foldl be_step acc l = acc * 256 ^ Z.of_nat (length l) + SetBytes l.
Proof.
  revert acc. induction l as [|b l IH]; intros acc.
  - unfold SetBytes; simpl. lia.
  - unfold SetBytes; simpl. rewrite !(IH (be_step _ _)). unfold be_step.
    rewrite Nat2Z.inj_succ, Z.pow_succ_r by lia. lia.
Qed.

Lemma SetBytes_cons b l :
  SetBytes (b :: l) = Z_of_byte b * 256 ^ Z.of_nat (length l) + SetBytes l.
Proof. unfold SetBytes at 1. simpl. rewrite foldl_be_step. unfold be_step. lia. Qed.

Lemma SetBytes_app l1 l2 :
  SetBytes (l1 ++ l2) = SetBytes l1 * 256 ^ Z.of_nat (length l2) + SetBytes l2.
Proof. unfold SetBytes at 1. rewrite foldl_app, foldl_be_step. done. Qed.

Lemma SetBytes_snoc l b : SetBytes (l ++ [b]) = SetBytes l * 256 + Z_of_byte b.
Proof. unfold SetBytes. rewrite foldl_app. done. Qed.

Lemma SetBytes_range l : 0 <= SetBytes l < 256 ^ Z.of_nat (length l).
Proof.
  induction l as [|b l IH] using rev_ind; [unfold SetBytes; simpl; lia|].
  rewrite SetBytes_snoc, length_app. simpl.
  replace (Z.of_nat (length l + 1)) with (Z.succ (Z.of_nat (length l))) by lia.
  rewrite Z.pow_succ_r by lia. pose proof (Z_of_byte_range b). lia.
Qed.

Lemma length_be_bytes n z : length (be_bytes n z) = n.
Proof.
  revert z; induction n as [|n IH]; intros z; simpl; [done|].
  rewrite length_app, IH. simpl. lia.
Qed.

Lemma SetBytes_be_bytes n z : SetBytes (be_bytes n z) = z mod 256 ^ Z.of_nat n.
Proof.
  revert z; induction n as [|n IH]; intros z.
  - simpl. rewrite Z.mod_1_r. done.
  - cbn [be_bytes]. rewrite SetBytes_snoc, IH, Z_of_byte_of_Z, Nat2Z.inj_succ, Z.pow_succ_r by lia.
    rewrite (Z.rem_mul_r z 256) by lia. lia.
Qed.

Lemma be_bytes_SetBytes l : be_bytes (length l) (SetBytes l) = l.
Proof.
  induction l as [|b l IH] using rev_ind; [done|].
  rewrite length_app, Nat.add_comm. cbn [be_bytes Nat.add length].
  rewrite SetBytes_snoc. pose proof (Z_of_byte_range b).
  rewrite Z.div_add_l, Z.div_small, Z.add_0_r, IH by lia. f_equal. f_equal.
  apply Z_of_byte_inj. rewrite Z_of_byte_of_Z.
  rewrite Z.add_comm, Z_mod_plus_full. by rewrite Z.mod_small.
Qed.

Lemma SetBytes_inj l1 l2 :
  length l1 = length l2 -> SetBytes l1 = SetBytes l2 -> l1 = l2.
Proof.
  intros Hl Hs. rewrite <-(be_bytes_SetBytes l1), <-(be_bytes_SetBytes l2). congruence.
Qed.

Lemma SetBytes_zeros n : SetBytes (replicate n Byte.x00) = 0.
Proof.
  induction n as [|n IH]; [done|]. simpl. rewrite SetBytes_cons, IH. done.
Qed.

(** ** Machine integers: [uint64], [int64] and the conversions of [math/big] *)

Abbreviation two63 := 9223372036854775808.
Abbreviation two64 := 18446744073709551616.
Abbreviation MaxUint64 := 18446744073709551615.
Abbreviation two160 := 1461501637330902918203684832716283019655932542976.
Abbreviation two255 := 57896044618658097711785492504343953926634992332820282019728792003956564819968.
Abbreviation two256 := 115792089237316195423570985008687907853269984665640564039457584007913129639936.

Definition u64 (z : Z) : Z := z mod two64.
Definition is_u64 (z : Z) : Prop := 0 <= z < two64.
Definition is_u256 (z : Z) : Prop := 0 <= z < two256.
Definition is_addr (z : Z) : Prop := 0 <= z < two160.

(** [big.Int.IsUint64]. *)
Definition IsUint64 (z : Z) : bool := (0 <=? z) && (z <? two64).

(** [big.Int.Uint64] on the non-negative values it is used on: low 64 bits. *)
Definition Uint64 (z : Z) : Z := u64 z.

(** [int64(x)] and [big.Int.Int64]: low 64 bits, read in two's complement. *)
Definition Int64 (z : Z) : Z :=
  if u64 z <? two63 then u64 z else u64 z - two64.

(** [big.Int.BitLen]. *)
Definition BitLen (z : Z) : Z := if z =? 0 then 0 else Z.log2 (Z.abs z) + 1.

(** [len] of a slice, as an integer. *)
Abbreviation zlen l := (Z.of_nat (length l)).

Lemma u64_range z : is_u64 (u64 z).
Proof. unfold is_u64, u64. apply Z.mod_pos_bound. lia. Qed.

Lemma u64_small z : is_u64 z -> u64 z = z.
Proof. unfold is_u64, u64. intros. by apply Z.mod_small. Qed.

Lemma IsUint64_true z : IsUint64 z = true <-> is_u64 z.
Proof. unfold IsUint64, is_u64. rewrite andb_true_iff. lia. Qed.

Lemma Int64_small z : 0 <= z < two63 -> Int64 z = z.
Proof.
  intros H. unfold Int64. rewrite u64_small by (unfold is_u64; lia).
  destruct (Z.ltb_spec z two63); lia.
Qed.

#[export] Hint Resolve u64_range : plasma.

(** ** Slices *)

(** Go's [s[lo:hi]] panics unless [lo <= hi <= len s] (for the slices of this
    program the capacity bound coincides with it); the model returns [None]. *)
Definition slice {A} (l : list A) (lo hi : Z) : option (list A) :=
  if (0 <=? lo) && (lo <=? hi) && (hi <=? zlen l)
  then Some (take (Z.to_nat (hi - lo)) (drop (Z.to_nat lo) l))
  else None.

(** [copy(dst[off:], src)] restricted to a window of [n] elements. *)
Definition blit {A} (off : nat) (src dst : list A) : list A :=
  take off dst ++ take (length dst - off) src ++ drop (off + length src) dst.

(** [common.RightPadBytes] and [common.LeftPadBytes] (common/bytes.go). *)
Definition RightPadBytes (l : bytes) (n : Z) : bytes :=
  if n <=? zlen l then l else l ++ replicate (Z.to_nat n - length l) Byte.x00.

Definition LeftPadBytes (l : bytes) (n : Z) : bytes :=
  if n <=? zlen l then l else replicate (Z.to_nat n - length l) Byte.x00 ++ l.

Lemma slice_some {A} (l : list A) lo hi :
  0 <= lo <= hi -> hi <= zlen l ->
  slice l lo hi = Some (take (Z.to_nat (hi - lo)) (drop (Z.to_nat lo) l)).
Proof. intros. unfold slice. rewrite !(proj2 (Z.leb_le _ _)) by lia. done. Qed.

Lemma slice_length {A} (l l' : list A) lo hi :
  slice l lo hi = Some l' -> zlen l' = hi - lo.
Proof.
  unfold slice. intros H. zcase. rewrite length_take, length_drop.
  apply andb_prop in Heqb as [[??]%andb_prop ?]. lia.
Qed.

Lemma blit_length {A} off (src dst : list A) :
  (off + length src <= length dst)%nat -> length (blit off src dst) = length dst.
Proof.
  intros. unfold blit. rewrite !length_app, !length_take, length_drop. lia.
Qed.

Lemma RightPadBytes_length l n : zlen (RightPadBytes l n) = Z.max (zlen l) n.
Proof.
  unfold RightPadBytes. destruct (Z.leb_spec n (zlen l)); [lia|].
  rewrite length_app, length_replicate. lia.
Qed.

Lemma LeftPadBytes_length l n : zlen (LeftPadBytes l n) = Z.max (zlen l) n.
Proof.
  unfold LeftPadBytes. destruct (Z.leb_spec n (zlen l)); [lia|].
  rewrite length_app, length_replicate. lia.
Qed.

Lemma SetBytes_LeftPad l n : SetBytes (LeftPadBytes l n) = SetBytes l.
Proof.
  unfold LeftPadBytes. destruct (_ <=? _); [done|].
  rewrite SetBytes_app, SetBytes_zeros. lia.
Qed.

(** ** Outcomes of a Go computation *)

Inductive panic :=
  | IndexOutOfRange       (** slice or array access outside its bounds *)
  | InvalidMemory         (** "invalid memory: store empty" *)
  | BadTypeAssertion      (** a failed [x.(T)] *)
  | RefundBelowZero       (** "Refund counter below zero" *)
  | InvalidRevision       (** "revision id cannot be reverted" *)
  | GasPoolOverflow       (** "gas pool pushed above uint64" *)
  | NilPointer            (** a nil pointer dereference *)
  | CannotEncode          (** "can't encode object" *)
  | DivideByZero          (** an integer division by zero *)
  | OddHexKey             (** "can't convert hex key of odd length" *)
  | MustDecode            (** "node ...: ..." of mustDecodeNode *)
  | InvalidNode           (** "invalid node" *)
  | MakeSlice.            (** "makeslice: cap out of range" *)

(** [OutOfFuel] is not a behaviour of the program: it marks a run of the model
    that was cut short. *)
Inductive outcome (A : Type) :=
  | Done (a : A)
  | Panic (p : panic)
  | OutOfFuel.
Arguments Done {A} _.
Arguments Panic {A} _.
Arguments OutOfFuel {A}.

Definition obind {A B} (m : outcome A) (f : A -> outcome B) : outcome B :=
  match m with
  | Done a => f a
  | Panic p => Panic p
  | OutOfFuel => OutOfFuel
  end.

Declare Scope outcome_scope.
Delimit Scope outcome_scope with outcome.
#[global] Open Scope outcome_scope.
Notation "'let!' x := c 'in' k" := (obind c (fun x => k))
  (at level 10, x name, c at level 100, k at level 200,
   format "'[v' 'let!'  x  :=  c  'in' '/' k ']'") : outcome_scope.
Notation "'let!' ' pat := c 'in' k" := (obind c (fun x => match x with pat => k end))
  (at level 10, pat pattern, c at level 100, k at level 200, only parsing) : outcome_scope.

(** An index or slice expression: [None] is the out-of-range panic. *)
Definition or_panic {A} (p : panic) (o : option A) : outcome A :=
  match o with Some a => Done a | None => Panic p end.

(** A property of the value of a computation that does not panic. *)
Definition safe {A} (m : outcome A) (Q : A -> Prop) : Prop :=
  match m with Done a => Q a | _ => False end.

Lemma safe_bind {A B} (m : outcome A) (f : A -> outcome B) (P : A -> Prop) (Q : B -> Prop) :
  safe m P -> (forall a, P a -> safe (f a) Q) -> safe (obind m f) Q.
Proof. destruct m; simpl; auto. Qed.

Lemma safe_mono {A} (m : outcome A) (P Q : A -> Prop) :
  safe m P -> (forall a, P a -> Q a) -> safe m Q.
Proof. destruct m; simpl; auto. Qed.

Lemma safe_done {A} (m : outcome A) (Q : A -> Prop) :
  safe m Q <-> exists a, m = Done a /\ Q a.
Proof.
  destruct m; simpl; split; intros; [eauto|destruct H as (? & [= ->] & ?); done|done| |done|];
    destruct H as (? & ? & ?); done.
Qed.

Lemma bind_Done {A B} (m : outcome A) (f : A -> outcome B) b :
  obind m f = Done b -> exists a, m = Done a /\ f a = Done b.
Proof. destruct m; simpl; try discriminate. eauto. Qed.

(** ** Binary search (Go's [sort.Search]) *)

Fixpoint search_loop (fuel : nat) (f : Z -> bool) (i j : Z) : Z :=
  match fuel with
  | O => i
  | S fuel =>
      if i <? j then
        let h := (i + j) / 2 in
        if f h then search_loop fuel f i h else search_loop fuel f (h + 1) j
      else i
  end.

(** The distance between the bounds shrinks at every step, so [n] steps are
    enough. *)
Definition sort_Search (n : Z) (f : Z -> bool) : Z := search_loop (Z.to_nat n) f 0 n.

Lemma search_loop_spec fuel f i j n m :
  0 <= i <= m -> m <= j <= n -> j - i <= Z.of_nat fuel ->
  (forall k, 0 <= k < n -> f k = (m <=? k)) -> search_loop fuel f i j = m.
Proof.
  revert i j. induction fuel as [|fuel IH]; intros i j Hi Hj Hf Hm; simpl; [lia|].
  destruct (Z.ltb_spec i j); [|lia].
  pose proof (Z.div_mod (i + j) 2 ltac:(lia)). pose proof (Z.mod_pos_bound (i + j) 2 ltac:(lia)).
  rewrite (Hm ((i + j) / 2)) by lia. destruct (Z.leb_spec m ((i + j) / 2)); apply IH; auto; lia.
Qed.

(** On a predicate that turns true at [m] and stays so, the search finds [m]. *)
Lemma sort_Search_spec n f m :
  0 <= m <= n -> (forall k, 0 <= k < n -> f k = (m <=? k)) -> sort_Search n f = m.
Proof. intros Hm Hf. apply (search_loop_spec _ _ _ _ n); auto; lia. Qed.
