(* ===== verification/MathUtil.v ===== *)
(** * common/math: 256-bit and 64-bit integer helpers
    Models common/math/big.go and common/math/integer.go, and the conversions
    between integers, hashes and addresses of common/types.go.  A [common.Hash]
    or [common.Address] is represented by its big-endian unsigned value. *)

From S2P Require Import Prelude.
From Stdlib Require Import Zpow_facts.

Abbreviation Hash := Z (only parsing).
Abbreviation Address := Z (only parsing).

Definition tt255 : Z := two255.
Definition tt256 : Z := two256.
Definition tt256m1 : Z := tt256 - 1.

(** ** 256-bit views *)

Definition U256 (x : Z) : Z := Z.land x tt256m1.

Definition S256 (x : Z) : Z := if x <? tt255 then x else x - tt256.

Definition BigMax (x y : Z) : Z := if x <? y then y else x.
Definition BigMin (x y : Z) : Z := if y <? x then y else x.

(** [big.Int.Bytes]: the shortest big-endian encoding of the absolute value. *)
Definition BigBytes (x : Z) : bytes := be_bytes (Z.to_nat ((BitLen x + 7) / 8)) (Z.abs x).

Definition HashLength : nat := 32.
Definition AddressLength : nat := 20.

Definition BytesToHash (b : bytes) : Hash := SetBytes (drop (length b - HashLength) b).
Definition BigToHash (x : Z) : Hash := BytesToHash (BigBytes x).
Definition BytesToAddress (b : bytes) : Address := SetBytes (drop (length b - AddressLength) b).
Definition BigToAddress (x : Z) : Address := BytesToAddress (BigBytes x).

(** ** The words of a [big.Int] *)

Definition wordBits : nat := 64.
Definition wordBytes : Z := 8.

Fixpoint limbs (n : nat) (z : Z) : list Z :=
  match n with
  | O => []
  | S n => z mod two64 :: limbs n (z / two64)
  end.

(** [big.Int.Bits]: the normalised little-endian words of the absolute value. *)
Definition Bits (z : Z) : list Z := limbs (Z.to_nat ((BitLen z + 63) / 64)) (Z.abs z).

(** ** Exponentiation by squaring *)

Fixpoint Exp_word (n : nat) (word base result : Z) : Z * Z :=
  match n with
  | O => (base, result)
  | S n =>
      let result := if Z.land word 1 =? 1 then U256 (result * base) else result in
      let base := U256 (base * base) in
      Exp_word n (Z.shiftr word 1) base result
  end.

Fixpoint Exp_words (ws : list Z) (base result : Z) : Z :=
  match ws with
  | [] => result
  | w :: ws =>
      let '(base, result) := Exp_word wordBits w base result in
      Exp_words ws base result
  end.

Definition Exp (base exponent : Z) : Z := Exp_words (Bits exponent) base 1.

(** ** Bytes of a word *)

Definition bigEndianByteAt (bigint n : Z) : byte :=
  match Bits bigint !! Z.to_nat (n / wordBytes) with
  | None => Byte.x00
  | Some word => byte_of_Z (Z.shiftr word (8 * (n mod wordBytes)))
  end.

Definition Byte (bigint padlength n : Z) : byte :=
  if padlength <=? n then Byte.x00 else bigEndianByteAt bigint (padlength - 1 - n).

(** [ReadBits]: the inner loop stores the bytes of one word, the outer loop
    runs over the words; [i] is the number of free places left in [buf]. *)
Fixpoint ReadBits_word (j : nat) (d : Z) (i : nat) (buf : bytes) : nat * bytes :=
  match j, i with
  | S j, S i => ReadBits_word j (Z.shiftr d 8) i (<[i := byte_of_Z d]> buf)
  | _, _ => (i, buf)
  end.

Fixpoint ReadBits_words (ws : list Z) (i : nat) (buf : bytes) : bytes :=
  match ws with
  | [] => buf
  | d :: ws =>
      let '(i, buf) := ReadBits_word (Z.to_nat wordBytes) d i buf in
      ReadBits_words ws i buf
  end.

Definition ReadBits (bigint : Z) (buf : bytes) : bytes :=
  ReadBits_words (Bits bigint) (length buf) buf.

Definition PaddedBigBytes (bigint : Z) (n : Z) : bytes :=
  if n <=? BitLen bigint / 8
  then BigBytes bigint
  else ReadBits bigint (replicate (Z.to_nat n) Byte.x00).

(** ** Overflow-checked 64-bit arithmetic *)

Definition SafeSub (x y : Z) : Z * bool := (u64 (x - y), x <? y).
Definition SafeAdd (x y : Z) : Z * bool := (u64 (x + y), MaxUint64 - x <? y).
Definition SafeMul (x y : Z) : Z * bool :=
  if (x =? 0) || (y =? 0) then (0, false) else (u64 (x * y), MaxUint64 / x <? y).

(** ** Lemmas *)

(** A bit field put below a shifted number. *)
Lemma lor_shiftl_small a b n : 0 <= n -> 0 <= b < 2 ^ n -> Z.lor (Z.shiftl a n) b = a * 2 ^ n + b.
Proof.
  intros Hn Hb. rewrite Z.shiftl_mul_pow2 by lia. symmetry. apply Z.add_nocarry_lor.
  apply Z.bits_inj'. intros i Hi. rewrite Z.land_spec, Z.bits_0. destruct (Z_lt_dec i n).
  - by rewrite Z.mul_pow2_bits_low by lia.
  - rewrite andb_comm. assert (Z.testbit b i = false) as ->; [|done].
    destruct (Z.eq_dec b 0) as [->|]; [apply Z.bits_0|]. apply Z.bits_above_log2; [lia|].
    assert (Z.log2 b < n) by (apply Z.log2_lt_pow2; lia). lia.
Qed.

Lemma U256_mod x : U256 x = x mod two256.
Proof. unfold U256. exact (Z.land_ones x 256 ltac:(lia)). Qed.

Lemma U256_range x : is_u256 (U256 x).
Proof. rewrite U256_mod. apply Z.mod_pos_bound. lia. Qed.

Lemma U256_small x : is_u256 x -> U256 x = x.
Proof. intros. rewrite U256_mod. by apply Z.mod_small. Qed.

Lemma S256_range x : is_u256 x -> - two255 <= S256 x < two255.
Proof.
  unfold is_u256, S256, tt255, tt256. intros. destruct (Z.ltb_spec x two255); lia.
Qed.

Lemma U256_S256 x : is_u256 x -> U256 (S256 x) = x.
Proof.
  unfold is_u256, S256, tt255, tt256. intros. rewrite U256_mod.
  destruct (Z.ltb_spec x two255).
  - apply Z.mod_small. lia.
  - rewrite <-(Z_mod_plus_full (x - two256) 1), Z.mod_small; lia.
Qed.

Lemma BitLen_bound z : 0 <= BitLen z /\ Z.abs z < 2 ^ BitLen z.
Proof.
  unfold BitLen. destruct (Z.eqb_spec z 0) as [->|]; [done|].
  pose proof (Z.log2_nonneg (Z.abs z)). split; [lia|].
  pose proof (Z.log2_spec (Z.abs z) ltac:(lia)). rewrite <-Z.add_1_r in *. lia.
Qed.

Lemma BitLen_le z n : 0 <= n -> Z.abs z < 2 ^ n -> BitLen z <= n.
Proof.
  intros Hn H. unfold BitLen. destruct (Z.eqb_spec z 0) as [->|]; [done|].
  pose proof (proj1 (Z.log2_lt_pow2 (Z.abs z) n ltac:(lia)) H). lia.
Qed.

Lemma pow256 n : 0 <= n -> 256 ^ n = 2 ^ (8 * n).
Proof. intros. rewrite Z.pow_mul_r by lia. done. Qed.

Lemma SetBytes_BigBytes z : SetBytes (BigBytes z) = Z.abs z.
Proof.
  unfold BigBytes. rewrite SetBytes_be_bytes. pose proof (BitLen_bound z) as [? ?].
  pose proof (Z.div_pos (BitLen z + 7) 8 ltac:(lia) ltac:(lia)).
  rewrite Z2Nat.id, pow256 by lia. apply Z.mod_small. split; [lia|].
  eapply Z.lt_le_trans; [eassumption|]. apply Z.pow_le_mono_r; [lia|].
  pose proof (Z.div_mod (BitLen z + 7) 8 ltac:(lia)).
  pose proof (Z.mod_pos_bound (BitLen z + 7) 8 ltac:(lia)). lia.
Qed.

Lemma SetBytes_crop n b :
  SetBytes (drop (length b - n) b) = SetBytes b mod 256 ^ Z.of_nat n.
Proof.
  rewrite <-(take_drop (length b - n) b) at 3. rewrite SetBytes_app, length_drop.
  pose proof (SetBytes_range (drop (length b - n) b)) as Hr. rewrite length_drop in Hr.
  destruct (decide (length b <= n)%nat).
  - replace (length b - n)%nat with O in * by lia. rewrite take_0, drop_0 in *.
    replace (length b - 0)%nat with (length b) in * by lia. unfold SetBytes at 2. simpl.
    symmetry. apply Z.mod_small. split; [lia|]. eapply Z.lt_le_trans; [apply Hr|].
    apply Z.pow_le_mono_r; lia.
  - replace (length b - (length b - n))%nat with n in * by lia.
    rewrite Z.add_comm, Z_mod_plus_full. symmetry. by apply Z.mod_small.
Qed.

Lemma BigToHash_mod z : BigToHash z = Z.abs z mod two256.
Proof. unfold BigToHash, BytesToHash. rewrite SetBytes_crop, SetBytes_BigBytes. done. Qed.

Lemma BigToAddress_mod z : BigToAddress z = Z.abs z mod two160.
Proof. unfold BigToAddress, BytesToAddress. rewrite SetBytes_crop, SetBytes_BigBytes. done. Qed.

(** The value of a little-endian word list. *)
Fixpoint of_limbs (ws : list Z) : Z :=
  match ws with
  | [] => 0
  | w :: ws => w + two64 * of_limbs ws
  end.

Lemma of_limbs_limbs n z : of_limbs (limbs n z) = z mod two64 ^ Z.of_nat n.
Proof.
  revert z. induction n as [|n IH]; intros z.
  - simpl. rewrite Z.mod_1_r. done.
  - cbn [limbs of_limbs]. rewrite IH, Nat2Z.inj_succ, Z.pow_succ_r by lia.
    rewrite (Z.rem_mul_r z two64) by lia. done.
Qed.

Lemma limbs_range n z : Forall is_u64 (limbs n z).
Proof.
  revert z. induction n as [|n IH]; intros z; simpl; constructor; [|done].
  apply Z.mod_pos_bound. lia.
Qed.

Lemma Bits_range z : Forall is_u64 (Bits z).
Proof. apply limbs_range. Qed.

Lemma of_limbs_Bits z : of_limbs (Bits z) = Z.abs z.
Proof.
  unfold Bits. rewrite of_limbs_limbs. pose proof (BitLen_bound z) as [? ?].
  pose proof (Z.div_pos (BitLen z + 63) 64 ltac:(lia) ltac:(lia)).
  rewrite Z2Nat.id by lia. change two64 with (2 ^ 64). rewrite <-Z.pow_mul_r by lia.
  apply Z.mod_small. split; [lia|]. eapply Z.lt_le_trans; [eassumption|].
  apply Z.pow_le_mono_r; [lia|].
  pose proof (Z.div_mod (BitLen z + 63) 64 ltac:(lia)).
  pose proof (Z.mod_pos_bound (BitLen z + 63) 64 ltac:(lia)). lia.
Qed.

(** *** Exponentiation *)

Lemma U256_eqm_mul a b c : U256 (U256 (a * b) * c) = U256 (a * b * c).
Proof. rewrite !U256_mod. apply Z.mul_mod_idemp_l. lia. Qed.

Lemma U256_mul_pow r b b' k :
  U256 b = U256 b' -> U256 (r * b ^ k) = U256 (r * b' ^ k).
Proof.
  rewrite !U256_mod. intros H.
  rewrite (Z.mul_mod r (b ^ k)), (Z.mul_mod r (b' ^ k)) by lia.
  by rewrite (Zpower_mod b), (Zpower_mod b'), H by lia.
Qed.

Lemma Exp_word_spec n w b r :
  0 <= w < 2 ^ Z.of_nat n ->
  exists b' r', Exp_word n w b r = (b', r') /\
    U256 b' = U256 (b ^ (2 ^ Z.of_nat n)) /\ U256 r' = U256 (r * b ^ w).
Proof.
  revert w b r. induction n as [|n IH]; intros w b r Hw.
  - exists b, r. simpl in *. replace w with 0 by lia. by rewrite Z.pow_1_r, Z.pow_0_r, Z.mul_1_r.
  - cbn [Exp_word]. rewrite Nat2Z.inj_succ, Z.pow_succ_r in * by lia.
    change (Z.land w 1) with (Z.land w (Z.ones 1)). rewrite Z.land_ones by lia.
    rewrite Z.shiftr_div_pow2 by lia. change (2 ^ 1) with 2.
    pose proof (Z.div_mod w 2 ltac:(lia)) as Hdm.
    pose proof (Z.mod_pos_bound w 2 ltac:(lia)).
    pose proof (Z.div_pos w 2 ltac:(lia) ltac:(lia)).
    destruct (IH (w / 2) (U256 (b * b)) (if w mod 2 =? 1 then U256 (r * b) else r))
      as (b' & r' & -> & Hb & Hr); [lia|].
    exists b', r'. split; [done|].
    assert (Hbb : U256 (U256 (b * b)) = U256 (b * b))
      by (apply U256_small, U256_range).
    split.
    + rewrite Hb, <-(Z.mul_1_l (U256 (b * b) ^ _)), (U256_mul_pow _ _ _ _ Hbb), Z.mul_1_l.
      f_equal. rewrite Z.pow_mul_r by lia. f_equal. lia.
    + rewrite Hr, (U256_mul_pow _ _ _ _ Hbb).
      assert (He : b ^ w = (b * b) ^ (w / 2) * b ^ (w mod 2)).
      { rewrite <-(Z.pow_2_r b), <-Z.pow_mul_r, <-Z.pow_add_r by lia. f_equal. lia. }
      rewrite He. destruct (Z.eqb_spec (w mod 2) 1) as [->|].
      * rewrite U256_eqm_mul, Z.pow_1_r. f_equal. lia.
      * replace (w mod 2) with 0 by lia. rewrite Z.pow_0_r. f_equal. lia.
Qed.

Lemma Exp_words_spec ws b r :
  Forall is_u64 ws -> U256 (Exp_words ws b r) = U256 (r * b ^ of_limbs ws).
Proof.
  revert b r. induction ws as [|w ws IH]; intros b r Hws; cbn [Exp_words of_limbs].
  - by rewrite Z.pow_0_r, Z.mul_1_r.
  - apply Forall_cons_1 in Hws as [Hw Hws].
    assert (0 <= of_limbs ws).
    { clear -Hws. induction Hws as [|x l Hx ? ?]; simpl; [done|]. destruct Hx. lia. }
    destruct (Exp_word_spec wordBits w b r Hw) as (b' & r' & -> & Hb & Hr).
    destruct Hw. rewrite (IH _ _ Hws), (U256_mul_pow _ _ _ _ Hb).
    rewrite Z.mul_comm, !U256_mod, Z.mul_mod, <-(U256_mod r'), Hr, U256_mod by lia.
    rewrite <-Z.mul_mod by lia. f_equal. change (2 ^ Z.of_nat wordBits) with two64.
    rewrite <-Z.pow_mul_r, Z.pow_add_r by lia. lia.
Qed.

Lemma Exp_words_range ws b r : is_u256 r -> is_u256 (Exp_words ws b r).
Proof.
  assert (Hw : forall n w b r, is_u256 r -> is_u256 (Exp_word n w b r).2).
  { induction n as [|n IH]; intros; cbn [Exp_word]; [done|]. apply IH.
    destruct (_ =? _); [apply U256_range|done]. }
  revert b r. induction ws as [|w ws IH]; intros b r Hr; cbn [Exp_words]; [done|].
  specialize (Hw wordBits w b r Hr). destruct (Exp_word wordBits w b r). by apply IH.
Qed.

Lemma Exp_pow b e : 0 <= e -> Exp b e = b ^ e mod two256.
Proof.
  intros He. unfold Exp. rewrite <-(U256_small (Exp_words _ _ _)).
  - rewrite Exp_words_spec, of_limbs_Bits, U256_mod by apply Bits_range.
    f_equal. rewrite Z.abs_eq by lia. lia.
  - apply Exp_words_range. unfold is_u256. lia.
Qed.

(** *** Byte views *)

Lemma be_bytes_add a b z :
  be_bytes (a + b) z = be_bytes a (z / 256 ^ Z.of_nat b) ++ be_bytes b z.
Proof.
  revert z. induction b as [|b IH]; intros z.
  - rewrite Nat.add_0_r. simpl. by rewrite Z.div_1_r, app_nil_r.
  - rewrite Nat.add_succ_r. cbn [be_bytes]. rewrite IH, <-app_assoc.
    rewrite Nat2Z.inj_succ, Z.pow_succ_r, Z.div_div by lia. done.
Qed.

Lemma be_bytes_mod n z : be_bytes n (z mod 256 ^ Z.of_nat n) = be_bytes n z.
Proof.
  apply SetBytes_inj; [by rewrite !length_be_bytes|].
  rewrite !SetBytes_be_bytes. apply Z.mod_mod. lia.
Qed.

Lemma be_bytes_zero n : be_bytes n 0 = replicate n Byte.x00.
Proof.
  induction n as [|n IH]; [done|]. cbn [be_bytes]. rewrite Z.div_0_l, IH by lia.
  by rewrite <-replicate_S_end.
Qed.

Lemma ReadBits_word_spec j d i tail :
  ReadBits_word j d i (replicate i Byte.x00 ++ tail) =
  ((i - j)%nat, replicate (i - j) Byte.x00 ++ be_bytes (min i j) d ++ tail).
Proof.
  revert d i tail. induction j as [|j IH]; intros d i tail.
  - cbn [ReadBits_word]. rewrite Nat.sub_0_r, Nat.min_0_r. destruct i; done.
  - destruct i as [|i]; [done|]. cbn [ReadBits_word].
    replace (<[i:=byte_of_Z d]> (replicate (S i) Byte.x00 ++ tail))
      with (replicate i Byte.x00 ++ byte_of_Z d :: tail).
    + rewrite IH. cbn [Nat.sub Nat.min be_bytes]. rewrite Z.shiftr_div_pow2 by lia.
      by rewrite <-app_assoc.
    + rewrite replicate_S_end, <-app_assoc. simpl.
      rewrite insert_app_r_alt by (rewrite length_replicate; lia).
      by rewrite length_replicate, Nat.sub_diag.
Qed.

Lemma ReadBits_words_spec ws i tail :
  Forall is_u64 ws ->
  ReadBits_words ws i (replicate i Byte.x00 ++ tail) = be_bytes i (of_limbs ws) ++ tail.
Proof.
  intros Hws. revert i tail. induction Hws as [|w ws Hw Hws IH]; intros i tail.
  - cbn [ReadBits_words of_limbs]. by rewrite be_bytes_zero.
  - cbn [ReadBits_words of_limbs]. rewrite ReadBits_word_spec. cbn [fst snd].
    change (Z.to_nat wordBytes) with 8%nat. rewrite IH, app_assoc. f_equal.
    destruct (decide (8 <= i)%nat).
    + replace (be_bytes i (w + two64 * of_limbs ws))
        with (be_bytes ((i - 8) + 8) (w + two64 * of_limbs ws)) by (f_equal; lia).
      rewrite be_bytes_add. change (256 ^ Z.of_nat 8) with two64.
      destruct Hw. rewrite (Z.mul_comm two64), Z.div_add, Z.div_small by lia.
      f_equal. rewrite Nat.min_r by lia.
      rewrite <-(be_bytes_mod 8 (w + _)). change (256 ^ Z.of_nat 8) with two64.
      by rewrite Z_mod_plus_full, Z.mod_small.
    + rewrite Nat.min_l by lia. replace (i - 8)%nat with O by lia. cbn [be_bytes app].
      rewrite <-(be_bytes_mod i (w + _)), <-(be_bytes_mod i w). f_equal.
      change two64 with (256 ^ 8). replace 8 with (Z.of_nat i + (8 - Z.of_nat i)) at 1 by lia.
      rewrite Z.pow_add_r, <-Z.mul_assoc, (Z.mul_comm (256 ^ Z.of_nat i)) by lia.
      by rewrite Z_mod_plus_full.
Qed.

Lemma ReadBits_zeros n z : ReadBits z (replicate n Byte.x00) = be_bytes n (Z.abs z).
Proof.
  unfold ReadBits. rewrite length_replicate, <-(app_nil_r (replicate n _)).
  rewrite ReadBits_words_spec, of_limbs_Bits, app_nil_r; [done|apply Bits_range].
Qed.

Lemma limbs_lookup n z i :
  limbs n z !! i = if decide (i < n)%nat then Some (z / two64 ^ Z.of_nat i mod two64) else None.
Proof.
  revert z i. induction n as [|n IH]; intros z i; [by case_decide; [lia|]|].
  destruct i as [|i]; cbn [limbs].
  - rewrite decide_True by lia. simpl. by rewrite Z.div_1_r.
  - simpl. rewrite IH. do 2 case_decide; try lia; [|done]. f_equal. f_equal.
    rewrite Z.div_div by lia. f_equal.
    replace (Z.of_nat (S i)) with (1 + Z.of_nat i) by lia. rewrite Z.pow_add_r by lia. done.
Qed.

Lemma bigEndianByteAt_spec z n :
  0 <= z -> 0 <= n -> bigEndianByteAt z n = byte_of_Z (z / 256 ^ n).
Proof.
  intros Hz Hn. unfold bigEndianByteAt, Bits, wordBytes. rewrite limbs_lookup.
  pose proof (Z.div_mod n 8 ltac:(lia)). pose proof (Z.mod_pos_bound n 8 ltac:(lia)).
  pose proof (Z.div_pos n 8 ltac:(lia) ltac:(lia)).
  rewrite Z2Nat.id, Z.abs_eq by lia. apply Z_of_byte_inj.
  replace (256 ^ n) with (two64 ^ (n / 8) * 256 ^ (n mod 8)).
  2:{ change two64 with (256 ^ 8). rewrite <-Z.pow_mul_r, <-Z.pow_add_r by lia. f_equal. lia. }
  rewrite <-Z.div_div by (try apply Z.pow_pos_nonneg; lia). set (q := z / two64 ^ (n / 8)).
  case_decide as Hd.
  - rewrite !Z_of_byte_of_Z, Z.shiftr_div_pow2, <-pow256 by lia.
    set (k := n mod 8) in *. replace two64 with (256 ^ k * (256 * 256 ^ (7 - k))).
    2:{ change two64 with (256 ^ 8). rewrite <-Z.pow_succ_r, <-Z.pow_add_r by lia. f_equal. lia. }
    rewrite Z.rem_mul_r, (Z.mul_comm (256 ^ k)), Z.div_add, Z.div_small, Z.add_0_l
      by (try apply Z.mod_pos_bound; lia).
    rewrite Z.rem_mul_r, (Z.mul_comm 256), Z_mod_plus_full, Z.mod_mod by lia. done.
  - rewrite Z_of_byte_of_Z. replace q with 0; [rewrite Z.div_0_l by lia; done|].
    unfold q. symmetry. apply Z.div_small. split; [lia|].
    pose proof (BitLen_bound z) as [? Hb]. rewrite Z.abs_eq in Hb by lia.
    eapply Z.lt_le_trans; [exact Hb|]. change two64 with (2 ^ 64). rewrite <-Z.pow_mul_r by lia.
    apply Z.pow_le_mono_r; [lia|].
    pose proof (Z.div_mod (BitLen z + 63) 64 ltac:(lia)).
    pose proof (Z.mod_pos_bound (BitLen z + 63) 64 ltac:(lia)). lia.
Qed.

(** *** Overflow checks *)

Lemma SafeAdd_spec x y :
  is_u64 x -> is_u64 y ->
  SafeAdd x y = if x + y <? two64 then (x + y, false) else (x + y - two64, true).
Proof.
  unfold is_u64, SafeAdd. intros.
  destruct (Z.ltb_spec (x + y) two64), (Z.ltb_spec (MaxUint64 - x) y); try lia.
  - rewrite u64_small by (unfold is_u64; lia). done.
  - f_equal. unfold u64. rewrite <-(Z_mod_plus_full _ (-1)), Z.mod_small; lia.
Qed.

Lemma SafeMul_spec x y :
  is_u64 x -> is_u64 y ->
  (SafeMul x y).2 = negb (x * y <? two64) /\ (x * y < two64 -> (SafeMul x y).1 = x * y).
Proof.
  unfold is_u64, SafeMul. intros [??] [??].
  destruct (Z.eqb_spec x 0) as [->|], (Z.eqb_spec y 0) as [->|]; simpl;
    rewrite ?Z.mul_0_l, ?Z.mul_0_r; [done..|].
  assert (Heq : (MaxUint64 / x <? y) = negb (x * y <? two64)).
  { pose proof (Z.div_mod MaxUint64 x ltac:(lia)).
    pose proof (Z.mod_pos_bound MaxUint64 x ltac:(lia)).
    destruct (Z.ltb_spec (MaxUint64 / x) y), (Z.ltb_spec (x * y) two64); simpl; nia. }
  split; [done|]. intros. apply u64_small. unfold is_u64. nia.
Qed.

Lemma SafeAdd_false x y z :
  is_u64 x -> is_u64 y -> SafeAdd x y = (z, false) -> z = x + y /\ is_u64 z.
Proof.
  intros Hx Hy. rewrite SafeAdd_spec by done. unfold is_u64 in *.
  destruct (Z.ltb_spec (x + y) two64); intros [=]; lia.
Qed.

Lemma SafeMul_false x y z :
  is_u64 x -> is_u64 y -> SafeMul x y = (z, false) -> z = x * y /\ is_u64 z.
Proof.
  intros Hx Hy He. pose proof (SafeMul_spec x y Hx Hy) as [H1 H2].
  rewrite He in H1, H2. simpl in *. unfold is_u64 in *.
  destruct (Z.ltb_spec (x * y) two64); [|done]. rewrite H2 by lia. nia.
Qed.

(** ** Minimal big-endian representations *)

Definition no_leading_zero (l : bytes) : Prop := match l with [] => True | b :: _ => b <> Byte.x00 end.

Lemma BigBytes_size n z :
  (0 < n)%nat -> 256 ^ (Z.of_nat n - 1) <= z < 256 ^ Z.of_nat n -> BigBytes z = be_bytes n z.
Proof.
  intros Hn [Hlo Hhi]. rewrite pow256 in Hlo, Hhi by lia.
  assert (0 < z) as Hz by (pose proof (Z.pow_pos_nonneg 2 (8 * (Z.of_nat n - 1))); lia).
  unfold BigBytes. rewrite Z.abs_eq by lia. f_equal.
  assert (BitLen z <= 8 * Z.of_nat n) as H1 by (apply BitLen_le; [lia|]; rewrite Z.abs_eq; lia).
  assert (8 * (Z.of_nat n - 1) < BitLen z) as H2.
  { unfold BitLen. destruct (Z.eqb_spec z 0); [lia|]. rewrite Z.abs_eq by lia.
    assert (8 * (Z.of_nat n - 1) <= Z.log2 z) by (apply Z.log2_le_pow2; lia). lia. }
  assert ((BitLen z + 7) / 8 = Z.of_nat n) as ->; [|lia].
  symmetry. apply (Z.div_unique _ _ _ (BitLen z + 7 - 8 * Z.of_nat n)); lia.
Qed.

Lemma BigBytes_0 : BigBytes 0 = [].
Proof. done. Qed.

Lemma BigBytes_SetBytes l : no_leading_zero l -> BigBytes (SetBytes l) = l.
Proof.
  destruct l as [|b l]; [done|]. intros Hb. rewrite (BigBytes_size (length (b :: l))).
  - apply be_bytes_SetBytes.
  - simpl. lia.
  - pose proof (SetBytes_range (b :: l)) as [_ Hr]. split; [|done].
    rewrite SetBytes_cons. pose proof (Z_of_byte_range b). pose proof (SetBytes_range l).
    assert (Z_of_byte b <> 0) by (by rewrite Z_of_byte_0). cbn [length].
    replace (Z.of_nat (S (length l)) - 1) with (zlen l) by lia. nia.
Qed.

Lemma BigBytes_no_leading_zero z : no_leading_zero (BigBytes z).
Proof.
  destruct (Z.eq_dec z 0) as [->|Hz]; [done|]. destruct (BigBytes z) as [|b l] eqn:E; [done|].
  intros ->. pose proof (SetBytes_BigBytes z) as Hs. rewrite E, SetBytes_cons in Hs.
  change (Z_of_byte Byte.x00) with 0 in Hs. rewrite Z.mul_0_l, Z.add_0_l in Hs.
  pose proof (SetBytes_range l) as [_ Hr]. assert (length (BigBytes z) = length (Byte.x00 :: l)) as Hl by by rewrite E.
  unfold BigBytes in Hl. rewrite length_be_bytes in Hl. cbn [length] in Hl.
  rewrite pow256 in Hr by lia. pose proof (BitLen_le z (8 * zlen l) ltac:(lia) ltac:(lia)).
  assert ((BitLen z + 7) / 8 <= zlen l); [|lia].
  transitivity ((8 * zlen l + 7) / 8); [apply Z.div_le_mono; lia|].
  rewrite Z.mul_comm, Z.div_add_l by lia. change (7 / 8) with 0. lia.
Qed.

Lemma BigBytes_inj x y : 0 <= x -> 0 <= y -> BigBytes x = BigBytes y -> x = y.
Proof. intros Hx Hy He. pose proof (SetBytes_BigBytes x). rewrite He, SetBytes_BigBytes in H. lia. Qed.
