(* ===== verification/Abi.v ===== *)
(** * accounts/abi: calls and results of contracts (pack.go, unpack.go, type.go)
    Types of the contract ABI, the packing of Go values into 32-byte words and
    the unpacking of what a contract returns.  A Go value of the Go type that
    NewType builds for an ABI type is a [val]: integers of any width are
    [VInt], byte arrays, byte slices and strings [VBytes], slices, arrays and
    structs [VList].  An error is [inl]; an index or slice expression out of
    bounds is a panic. *)

From S2P Require Import Prelude MathUtil.

#[export] Set Warnings "-register-all".

Module Abi.

(** ** Types and values *)

Inductive Type_ :=
  | IntTy (size : Z)
  | UintTy (size : Z)
  | BoolTy
  | StringTy
  | SliceTy (elem : Type_)
  | ArrayTy (size : nat) (elem : Type_)
  | TupleTy (elems : list Type_)
  | AddressTy
  | FixedBytesTy (size : nat)
  | BytesTy
  | FunctionTy.

Inductive val :=
  | VInt (i : Z)
  | VBool (b : bool)
  | VBytes (b : bytes)
  | VList (l : list val).

Inductive abiErr :=
  | TypeErr
  | ArgumentCount
  | LengthInsufficient
  | OverSliceBoundary
  | LargerThanInt64
  | BadBool
  | BadFunctionType.

(** An error ends the function; a panic ends the program. *)
Definition ebind {A B} (m : outcome (abiErr + A)) (f : A -> outcome (abiErr + B)) : outcome (abiErr + B) :=
  let! r := m in match r with inl e => Done (inl e) | inr a => f a end.
Notation "'let?' x := c 'in' k" := (ebind c (fun x => k))
  (at level 10, x name, c at level 100, k at level 200, format "'[v' 'let?'  x  :=  c  'in' '/' k ']'") : outcome_scope.
Notation "'let?' ' pat := c 'in' k" := (ebind c (fun x => match x with pat => k end))
  (at level 10, pat pattern, c at level 100, k at level 200, only parsing) : outcome_scope.

Fixpoint isDynamicType (t : Type_) : bool :=
  match t with
  | TupleTy elems => existsb isDynamicType elems
  | StringTy | BytesTy | SliceTy _ => true
  | ArrayTy _ elem => isDynamicType elem
  | _ => false
  end.

Definition requiresLengthPrefix (t : Type_) : bool :=
  match t with StringTy | BytesTy | SliceTy _ => true | _ => false end.

(** The words a value takes in place; a dynamic one takes one, its position. *)
Fixpoint getTypeSize (t : Type_) : Z :=
  match t with
  | ArrayTy n elem =>
      if isDynamicType elem then 32
      else match elem with
           | ArrayTy _ _ => Z.of_nat n * getTypeSize elem
           | _ => Z.of_nat n * 32
           end
  | TupleTy elems =>
      if existsb isDynamicType elems then 32 else foldr (fun elem total => getTypeSize elem + total) 0 elems
  | _ => 32
  end.

(** ** Packing *)

(** The tests on lengths and on the kinds of values; a slice or array of
    arrays is checked through its first element, whether there is one or not. *)
Fixpoint sliceTypeCheck (t : Type_) (v : val) : outcome (abiErr + unit) :=
  match t, v with
  | SliceTy elem, VList l | ArrayTy _ elem, VList l =>
      if match t with ArrayTy n _ => negb (length l =? n)%nat | _ => false end then Done (inl TypeErr)
      else
        match elem with
        | SliceTy _ => match l with x :: _ => sliceTypeCheck elem x | [] => Done (inr tt) end
        | ArrayTy _ _ => let! x := or_panic IndexOutOfRange (head l) in sliceTypeCheck elem x
        | _ => Done (inr tt)
        end
  | _, _ => Done (inl TypeErr)
  end.

Definition typeCheck (t : Type_) (v : val) : outcome (abiErr + unit) :=
  match t, v with
  | SliceTy _, _ | ArrayTy _ _, _ => sliceTypeCheck t v
  | IntTy _, VInt _ | UintTy _, VInt _ | BoolTy, VBool _ | StringTy, VBytes _ | AddressTy, VBytes _ | BytesTy, VBytes _
  | FunctionTy, VBytes _ | TupleTy _, VList _ => Done (inr tt)
  | FixedBytesTy n, VBytes b => if negb (n =? length b)%nat then Done (inl TypeErr) else Done (inr tt)
  | _, _ => Done (inl TypeErr)
  end.

(** [U256] of numbers.go. *)
Definition packNum (value : Z) : bytes := PaddedBigBytes (U256 value) 32.

Definition packBytesSlice (b : bytes) (l : Z) : bytes := packNum l ++ RightPadBytes b ((l + 31) / 32 * 32).

Definition packElement (t : Type_) (v : val) : bytes :=
  match t, v with
  | IntTy _, VInt i | UintTy _, VInt i => packNum i
  | StringTy, VBytes b | BytesTy, VBytes b => packBytesSlice b (zlen b)
  | AddressTy, VBytes b => LeftPadBytes b 32
  | BoolTy, VBool b => if b then PaddedBigBytes 1 32 else PaddedBigBytes 0 32
  | FixedBytesTy _, VBytes b | FunctionTy, VBytes b => RightPadBytes b 32
  | _, _ => []
  end.

(** The loop over the elements of an array, the fields of a tuple and the
    arguments of a method: [ret] has the values in place and the positions of
    the others, which go to [tail]. *)
Fixpoint pack_seq (items : list (bool * outcome (abiErr + bytes))) (offset : Z) (ret tail : bytes) : outcome (abiErr + bytes) :=
  match items with
  | [] => Done (inr (ret ++ tail))
  | (dynamic, packed) :: items =>
      let? val := packed in
      if dynamic then pack_seq items (offset + zlen val) (ret ++ packNum offset) (tail ++ val)
      else pack_seq items offset (ret ++ val) tail
  end.

Fixpoint pack (t : Type_) (v : val) : outcome (abiErr + bytes) :=
  let? _ := typeCheck t v in
  match t, v with
  | SliceTy elem, VList l =>
      pack_seq (map (fun x => (isDynamicType elem, pack elem x)) l) (getTypeSize elem * zlen l) (packNum (zlen l)) []
  | ArrayTy _ elem, VList l =>
      pack_seq (map (fun x => (isDynamicType elem, pack elem x)) l) (getTypeSize elem * zlen l) [] []
  | TupleTy elems, VList l =>
      pack_seq (zip_with (fun elem x => (isDynamicType elem, pack elem x)) elems l)
        (foldr (fun elem offset => getTypeSize elem + offset) 0 elems) [] []
  | _, _ => Done (inr (packElement t v))
  end.

(** [Arguments.Pack]; [arguments] are the types of the arguments. *)
Definition Pack (arguments : list Type_) (args : list val) : outcome (abiErr + bytes) :=
  if negb (length args =? length arguments)%nat then Done (inl ArgumentCount)
  else
    pack_seq (zip_with (fun abiArg a => (isDynamicType abiArg, pack abiArg a)) arguments args)
      (foldr (fun abiArg inputOffset => getTypeSize abiArg + inputOffset) 0 arguments) [] [].

(** ** Unpacking *)

(** [binary.BigEndian.Uint64(b[len(b)-8:])] and the like. *)
Definition low_bytes (n : nat) (b : bytes) : Z := SetBytes (drop (length b - n) b).

(** The Go integer of [bits] bits with these low bits. *)
Definition signed (bits : Z) (x : Z) : Z := if x <? 2 ^ (bits - 1) then x else x - 2 ^ bits.

Definition ReadInteger (t : Type_) (b : bytes) : Z :=
  match t with
  | UintTy size =>
      if size =? 8 then low_bytes 1 b
      else if size =? 16 then low_bytes 2 b
      else if size =? 32 then low_bytes 4 b
      else if size =? 64 then low_bytes 8 b
      else SetBytes b
  | IntTy size =>
      if size =? 8 then signed 8 (low_bytes 1 b)
      else if size =? 16 then signed 16 (low_bytes 2 b)
      else if size =? 32 then signed 32 (low_bytes 4 b)
      else if size =? 64 then signed 64 (low_bytes 8 b)
      else
        let ret := SetBytes b in
        if ret >? two255 - 1 then - ((two256 - 1) - ret + 1) else ret
  | _ => 0
  end.

Definition readBool (word : bytes) : outcome (abiErr + bool) :=
  let! front := or_panic IndexOutOfRange (slice word 0 31) in
  let! last := or_panic IndexOutOfRange (word !! 31%nat) in
  if negb (forallb (fun b => Z_of_byte b =? 0) front) then Done (inl BadBool)
  else if Z_of_byte last =? 0 then Done (inr false)
  else if Z_of_byte last =? 1 then Done (inr true)
  else Done (inl BadBool).

Definition readFunctionType (word : bytes) : outcome (abiErr + bytes) :=
  let! garbage := or_panic IndexOutOfRange (slice word 24 32) in
  if negb (SetBytes garbage =? 0) then Done (inl BadFunctionType)
  else let! w := or_panic IndexOutOfRange (slice word 0 24) in Done (inr w).

(** The copy into the fixed array stops at the end of the word. *)
(** [word[0:t.Size]] may reach into [past], what follows the word in the output,
    if the size is above 32. *)
Definition ReadFixedBytes (n : nat) (word past : bytes) : outcome (abiErr + bytes) :=
  let! w := or_panic IndexOutOfRange (slice (word ++ past) 0 (Z.of_nat n)) in Done (inr w).

(** [common.BytesToAddress]: the last twenty bytes. *)
Definition BytesToAddress (b : bytes) : bytes := drop (length b - 20) b.

Definition lengthPrefixPointsTo (index : Z) (output : bytes) : outcome (abiErr + Z * Z) :=
  let! word := or_panic IndexOutOfRange (slice output index (index + 32)) in
  let bigOffsetEnd := SetBytes word + 32 in
  let outputLength := zlen output in
  if bigOffsetEnd >? outputLength then Done (inl OverSliceBoundary)
  else if BitLen bigOffsetEnd >? 63 then Done (inl LargerThanInt64)
  else
    let offsetEnd := Int64 (Uint64 bigOffsetEnd) in
    let! word := or_panic IndexOutOfRange (slice output (offsetEnd - 32) offsetEnd) in
    let lengthBig := SetBytes word in
    let totalSize := bigOffsetEnd + lengthBig in
    if BitLen totalSize >? 63 then Done (inl LargerThanInt64)
    else if totalSize >? outputLength then Done (inl LengthInsufficient)
    else Done (inr (Int64 (Uint64 bigOffsetEnd), Int64 (Uint64 lengthBig))).

Definition tuplePointsTo (index : Z) (output : bytes) : outcome (abiErr + Z) :=
  let! word := or_panic IndexOutOfRange (slice output index (index + 32)) in
  let offset := SetBytes word in
  if offset >? zlen output then Done (inl OverSliceBoundary)
  else if BitLen offset >? 63 then Done (inl LargerThanInt64)
  else Done (inr (Int64 (Uint64 offset))).

(** The loop of forEachUnpack, [size] elements from [i] on. *)
Fixpoint forEachUnpack_loop (toGoType : Z -> bytes -> outcome (abiErr + val)) (elemSize : Z) (size : nat) (i : Z)
    (output : bytes) : outcome (abiErr + list val) :=
  match size with
  | O => Done (inr [])
  | S size =>
      let? x := toGoType i output in
      let? l := forEachUnpack_loop toGoType elemSize size (i + elemSize) output in
      Done (inr (x :: l))
  end.

Definition forEachUnpack (toGoType : Z -> bytes -> outcome (abiErr + val)) (elemSize : Z) (output : bytes) (start size : Z)
    : outcome (abiErr + val) :=
  if size <? 0 then Done (inl LengthInsufficient)
  else if Int64 (start + 32 * size) >? zlen output then Done (inl OverSliceBoundary)
  else let? l := forEachUnpack_loop toGoType elemSize (Z.to_nat size) start output in Done (inr (VList l)).

(** A static array or tuple takes more than one of the places that the index
    of an argument counts. *)
Definition virtual_args (t : Type_) : Z :=
  match t with
  | ArrayTy _ _ | TupleTy _ => if isDynamicType t then 0 else getTypeSize t / 32 - 1
  | _ => 0
  end.

(** The loop of forTupleUnpack and of UnpackValues. *)
Fixpoint unpack_seq (fields : list (Z * (Z -> bytes -> outcome (abiErr + val)))) (index virtualArgs : Z) (output : bytes)
    : outcome (abiErr + list val) :=
  match fields with
  | [] => Done (inr [])
  | (virtual, toGoType) :: fields =>
      let? x := toGoType ((index + virtualArgs) * 32) output in
      let? l := unpack_seq fields (index + 1) (virtualArgs + virtual) output in
      Done (inr (x :: l))
  end.

Definition slice_from (output : bytes) (from : Z) : outcome bytes := or_panic IndexOutOfRange (slice output from (zlen output)).

Fixpoint toGoType (t : Type_) (index : Z) (output : bytes) : outcome (abiErr + val) :=
  if index + 32 >? zlen output then Done (inl LengthInsufficient)
  else
    let? '(begin, length) := if requiresLengthPrefix t then lengthPrefixPointsTo index output else Done (inr (0, 0)) in
    let! returnOutput := or_panic IndexOutOfRange (slice output index (index + 32)) in
    match t with
    | TupleTy elems =>
        let fields := map (fun elem => (virtual_args elem, toGoType elem)) elems in
        let? begin := if isDynamicType t then tuplePointsTo index output else Done (inr index) in
        let! output := slice_from output begin in
        let? l := unpack_seq fields 0 0 output in
        Done (inr (VList l))
    | SliceTy elem =>
        let! output := slice_from output begin in
        forEachUnpack (toGoType elem) (getTypeSize elem) output 0 length
    | ArrayTy n elem =>
        let! output := slice_from output (if isDynamicType elem then Int64 (low_bytes 8 returnOutput) else index) in
        forEachUnpack (toGoType elem) (getTypeSize elem) output 0 (Z.of_nat n)
    | StringTy | BytesTy =>
        let! b := or_panic IndexOutOfRange (slice output begin (begin + length)) in
        Done (inr (VBytes b))
    | IntTy _ | UintTy _ => Done (inr (VInt (ReadInteger t returnOutput)))
    | BoolTy => let? b := readBool returnOutput in Done (inr (VBool b))
    | AddressTy => Done (inr (VBytes (BytesToAddress returnOutput)))
    | FixedBytesTy n => let? b := ReadFixedBytes n returnOutput (drop (Z.to_nat (index + 32)) output) in Done (inr (VBytes b))
    | FunctionTy => let? b := readFunctionType returnOutput in Done (inr (VBytes b))
    end.

(** [Arguments.UnpackValues], without indexed arguments. *)
Definition UnpackValues (arguments : list Type_) (data : bytes) : outcome (abiErr + list val) :=
  unpack_seq (map (fun t => (virtual_args t, toGoType t)) arguments) 0 0 data.

(** ** Words *)

(** A number is packed as its 32 bytes, negative ones in two's complement. *)
Lemma packNum_bytes x : packNum x = be_bytes 32 (x mod two256).
Proof.
  unfold packNum, PaddedBigBytes. rewrite ReadBits_zeros, <-U256_mod. pose proof (U256_range x) as Hr. unfold is_u256 in Hr.
  rewrite Z.abs_eq by lia. destruct (Z.leb_spec 32 (BitLen (U256 x) / 8)) as [Hl|Hl]; [|done].
  pose proof (BitLen_le (U256 x) 256 ltac:(lia) ltac:(lia)). unfold BigBytes. rewrite Z.abs_eq by lia.
  pose proof (Z.mul_div_le (BitLen (U256 x)) 8). replace (BitLen (U256 x)) with 256 by lia. done.
Qed.

Lemma packNum_length x : length (packNum x) = 32%nat.
Proof. rewrite packNum_bytes. apply length_be_bytes. Qed.
End Abi.
