(* ===== verification/AbiCodec.v ===== *)
(** * accounts/abi: packing and unpacking are inverse
    Which types and values the packer handles, the layout it produces, and
    that the unpacker reads the values back from it; that the unpacker does not
    panic on malformed data; and the types on which one or the other fails. *)

From S2P Require Import Prelude MathUtil Abi.
Import Abi.

(** ** Types and values *)

(** Types that Solidity has, without arrays of static tuples, of which
    getTypeSize takes the size of one word each. *)
Fixpoint wf_type (t : Type_) : bool :=
  match t with
  | FixedBytesTy n => (n <=? 32)%nat
  | SliceTy elem => wf_type elem
  | ArrayTy n elem =>
      (0 <? n)%nat && wf_type elem && match elem with TupleTy elems => existsb isDynamicType elems | _ => true end
  | TupleTy elems => (0 <? length elems)%nat && forallb wf_type elems
  | _ => true
  end.

(** The width of the Go type of an integer; [*big.Int] stands for 256 bits. *)
Definition go_bits (size : Z) : Z :=
  if (size =? 8) || (size =? 16) || (size =? 32) || (size =? 64) then size else 256.

(** Values of the Go type for an ABI type.  The empty slice of arrays is left
    out: sliceTypeCheck looks at its first element. *)
Fixpoint typed (t : Type_) (v : val) : bool :=
  match t, v with
  | UintTy size, VInt i => (0 <=? i) && (i <? 2 ^ go_bits size)
  | IntTy size, VInt i => (- 2 ^ (go_bits size - 1) <=? i) && (i <? 2 ^ (go_bits size - 1))
  | BoolTy, VBool _ | StringTy, VBytes _ | BytesTy, VBytes _ => true
  | AddressTy, VBytes b => (length b =? 20)%nat
  | FixedBytesTy n, VBytes b => (length b =? n)%nat
  | FunctionTy, VBytes b => (length b =? 24)%nat
  | SliceTy elem, VList l =>
      match elem with ArrayTy _ _ => (0 <? length l)%nat | _ => true end && forallb (typed elem) l
  | ArrayTy n elem, VList l => (length l =? n)%nat && forallb (typed elem) l
  | TupleTy elems, VList l => (length l =? length elems)%nat && forallb id (zip_with typed elems l)
  | _, _ => false
  end.

Section Induction.
Variable P : Type_ -> Prop.
Hypothesis P_base : forall t, match t with SliceTy _ | ArrayTy _ _ | TupleTy _ => False | _ => True end -> P t.
Hypothesis P_slice : forall t, P t -> P (SliceTy t).
Hypothesis P_array : forall n t, P t -> P (ArrayTy n t).
Hypothesis P_tuple : forall ts, Forall P ts -> P (TupleTy ts).

Fixpoint Type_nested_ind (t : Type_) : P t :=
  match t with
  | SliceTy elem => P_slice elem (Type_nested_ind elem)
  | ArrayTy n elem => P_array n elem (Type_nested_ind elem)
  | TupleTy elems =>
      P_tuple elems ((fix go ts : Forall P ts :=
        match ts with
        | [] => Forall_nil_2 P
        | t :: ts => Forall_cons_2 P t ts (Type_nested_ind t) (go ts)
        end) elems)
  | t => P_base t I
  end.
End Induction.

Lemma ebind_inr {A B} (a : A) (f : A -> outcome (abiErr + B)) : ebind (Done (inr a)) f = f a.
Proof. done. Qed.

(** Sizes are positive multiples of a word. *)
Lemma getTypeSize_words t : wf_type t = true -> exists k, 1 <= k /\ getTypeSize t = 32 * k.
Proof.
  induction t as [t Ht|t IH|n t IH|ts IH] using Type_nested_ind; intros Hw.
  - exists 1. by destruct t.
  - by exists 1.
  - simpl in Hw. apply andb_true_iff in Hw as [[Hn Hw]%andb_true_iff Ht]. apply Nat.ltb_lt in Hn.
    destruct (IH Hw) as (k & Hk & Hs). cbn [getTypeSize]. destruct (isDynamicType t); [by exists 1|].
    destruct t; try (exists (Z.of_nat n); split; lia). rewrite Hs. exists (Z.of_nat n * k). split; nia.
  - simpl in Hw. apply andb_true_iff in Hw as [Hl Hw]. apply Nat.ltb_lt in Hl. cbn [getTypeSize].
    destruct (existsb isDynamicType ts); [by exists 1|].
    assert (forall ts, Forall (fun t => wf_type t = true -> exists k, 1 <= k /\ getTypeSize t = 32 * k) ts -> forallb wf_type ts = true ->
      exists k, zlen ts <= k /\ foldr (fun elem total => getTypeSize elem + total) 0 ts = 32 * k) as Hsum.
    { clear. induction 1 as [|t ts Ht _ IH]; intros Hw; [by exists 0|]. simpl in Hw. apply andb_true_iff in Hw as [Ht' Hw].
      destruct (Ht Ht') as (k & Hk & Hs), (IH Hw) as (k' & Hk' & Hs'). exists (k + k'). cbn [foldr length]. lia. }
    destruct (Hsum ts IH Hw) as (k & Hk & Hs). exists k. lia.
Qed.

(** ** Packing succeeds *)

Lemma sliceTypeCheck_ok t : wf_type t = true -> forall v, typed t v = true ->
  match t with SliceTy _ | ArrayTy _ _ => sliceTypeCheck t v = Done (inr tt) | _ => True end.
Proof.
  induction t as [t Ht|t IH|n t IH|ts _] using Type_nested_ind; intros Hw v Hv; [by destruct t| | |done].
  - destruct v as [| | |l]; try done. simpl in Hw, Hv. apply andb_true_iff in Hv as [Hl Hv]. cbn [sliceTypeCheck].
    destruct l as [|x l]; [destruct t; done|]. simpl in Hv. apply andb_true_iff in Hv as [Hx _]. specialize (IH Hw x Hx).
    destruct t; try done; exact IH.
  - destruct v as [| | |l]; try done. simpl in Hw, Hv. apply andb_true_iff in Hw as [[Hn Hw]%andb_true_iff _].
    apply andb_true_iff in Hv as [Hl Hv]. cbn [sliceTypeCheck]. rewrite Hl. cbn [negb]. apply Nat.ltb_lt in Hn. apply Nat.eqb_eq in Hl.
    destruct l as [|x l]; [simpl in Hl; lia|]. simpl in Hv. apply andb_true_iff in Hv as [Hx _]. specialize (IH Hw x Hx).
    destruct t; try done; exact IH.
Qed.

Lemma typeCheck_ok t v : wf_type t = true -> typed t v = true -> typeCheck t v = Done (inr tt).
Proof.
  intros Hw Hv. pose proof (sliceTypeCheck_ok t Hw v Hv) as Hs.
  destruct t as [| | | |t|m t|ts| |m| |], v as [| |b|]; try done. simpl in *. rewrite Nat.eqb_sym, Hv. done.
Qed.

Definition packed (i : bool * bytes) : bool * outcome (abiErr + bytes) := (i.1, Done (inr i.2)).

(** The values in place with the positions of the others, and the others. *)
Fixpoint layout (items : list (bool * bytes)) (offset : Z) : bytes * bytes :=
  match items with
  | [] => ([], [])
  | (true, b) :: items => let ht := layout items (offset + zlen b) in (packNum offset ++ ht.1, b ++ ht.2)
  | (false, b) :: items => let ht := layout items offset in (b ++ ht.1, ht.2)
  end.

Lemma pack_seq_layout items : forall offset ret tail,
  pack_seq (map packed items) offset ret tail = Done (inr (ret ++ (layout items offset).1 ++ tail ++ (layout items offset).2)).
Proof.
  induction items as [|[[] b] items IH]; intros offset ret tail; cbn [map packed pack_seq layout fst snd ebind obind].
  - by rewrite app_nil_r.
  - rewrite IH. by rewrite <-!app_assoc.
  - rewrite IH. by rewrite <-!app_assoc.
Qed.

Lemma packed_elems d (f : val -> outcome (abiErr + bytes)) l bs :
  Forall2 (fun x b => f x = Done (inr b)) l bs -> map (fun x => (d, f x)) l = map packed (map (pair d) bs).
Proof. induction 1 as [|x b l bs Hx _ IH]; [done|]. cbn [map]. unfold packed at 1. cbn [fst snd]. by rewrite Hx, IH. Qed.

Lemma packed_fields (d : Type_ -> bool) (f : Type_ -> val -> outcome (abiErr + bytes)) ts l bs :
  Forall3 (fun t x b => f t x = Done (inr b)) ts l bs ->
  zip_with (fun t x => (d t, f t x)) ts l = map packed (zip (map d ts) bs).
Proof. induction 1 as [|t x b ts l bs Hx _ IH]; [done|]. simpl. unfold packed at 1. cbn [fst snd]. by rewrite Hx, IH. Qed.

(** What a value is packed to. *)
Definition packs (t : Type_) (v : val) (b : bytes) : Prop :=
  pack t v = Done (inr b) /\ (isDynamicType t = false -> zlen b = getTypeSize t).

Lemma layout_static d bs offset : d = false -> layout (map (pair d) bs) offset = (concat bs, []).
Proof. intros ->. induction bs as [|b bs IH]; [done|]. cbn [map layout]. by rewrite IH. Qed.

Lemma concat_length_const {A} (bs : list (list A)) n : Forall (fun b => zlen b = n) bs -> zlen (concat bs) = n * zlen bs.
Proof. induction 1 as [|b bs Hb _ IH]; [simpl; lia|]. cbn [concat length]. rewrite length_app. lia. Qed.

Lemma layout_fields ts : forall bs, existsb isDynamicType ts = false -> Forall2 (fun t b => isDynamicType t = false -> zlen b = getTypeSize t) ts bs ->
  forall offset, layout (zip (map isDynamicType ts) bs) offset = (concat bs, []) /\
  zlen (concat bs) = foldr (fun elem total => getTypeSize elem + total) 0 ts.
Proof.
  induction ts as [|t ts IH]; intros bs Hd Hs offset; inversion Hs as [|? b ? bs' Hb Hbs]; subst; [done|].
  simpl in Hd. apply orb_false_iff in Hd as [Ht Hd]. destruct (IH bs' Hd Hbs offset) as [Hl Hc]. cbn [map zip zip_with].
  rewrite Ht. cbn [layout foldr]. rewrite Hl. cbn [concat fst snd]. split; [done|]. rewrite length_app, Nat2Z.inj_add, Hc, Hb by done. done.
Qed.

Lemma forallb_Forall' {A} (f : A -> bool) l : forallb f l = true -> Forall (fun x => f x = true) l.
Proof. rewrite forallb_forall. intros H. apply Forall_forall. intros x Hx%list_elem_of_In. auto. Qed.

Lemma Forall_exists_Forall2 {A B} (R : A -> B -> Prop) l : Forall (fun x => exists y, R x y) l -> exists l', Forall2 R l l'.
Proof. induction 1 as [|x l (y & Hy) _ (l' & IH)]; [by exists []|]. exists (y :: l'). by constructor. Qed.

Lemma typed_fields ts : forall l, length l = length ts -> forallb id (zip_with typed ts l) = true ->
  Forall (fun t => wf_type t = true -> forall v, typed t v = true -> exists b, packs t v b) ts -> forallb wf_type ts = true ->
  exists bs, Forall3 packs ts l bs.
Proof.
  induction ts as [|t ts IH]; intros [|v l] Hl Hv HP Hw; try done; [by exists []; constructor|].
  simpl in Hv, Hw. apply andb_true_iff in Hv as [Hx Hv]. apply andb_true_iff in Hw as [Ht Hw]. apply Forall_cons in HP as [HPt HP].
  destruct (HPt Ht v Hx) as [b Hb], (IH l) as [bs Hbs]; auto. exists (b :: bs). by constructor.
Qed.

Lemma pack_elementary t v : typeCheck t v = Done (inr tt) -> match t with SliceTy _ | ArrayTy _ _ | TupleTy _ => False | _ => True end ->
  pack t v = Done (inr (packElement t v)).
Proof. intros Hc Ht. destruct t; try done; cbn [pack]; rewrite Hc; cbn [ebind obind]; by destruct v. Qed.

Lemma PaddedBigBytes_word x : 0 <= x < two256 -> PaddedBigBytes x 32 = be_bytes 32 x.
Proof. intros Hx. transitivity (packNum x); [unfold packNum; by rewrite U256_mod, Z.mod_small|]. by rewrite packNum_bytes, Z.mod_small. Qed.

Lemma packElement_size t v : typed t v = true -> wf_type t = true ->
  match t with SliceTy _ | ArrayTy _ _ | TupleTy _ | StringTy | BytesTy => True | _ => length (packElement t v) = 32%nat end.
Proof.
  intros Hv Hw. destruct t as [| | | |t|m t|ts| |m| |], v as [i|[]|b|l]; try done; cbn [packElement]; try apply packNum_length.
  - simpl in Hv. apply Nat.eqb_eq in Hv. pose proof (LeftPadBytes_length b 32). lia.
  - simpl in Hv, Hw. apply Nat.eqb_eq in Hv. apply Nat.leb_le in Hw. pose proof (RightPadBytes_length b 32). lia.
  - simpl in Hv. apply Nat.eqb_eq in Hv. pose proof (RightPadBytes_length b 32). lia.
Qed.

Lemma pack_array_size n t (bs : list bytes) :
  isDynamicType t = false -> match t with TupleTy elems => existsb isDynamicType elems | _ => true end = true ->
  Forall (fun b => zlen b = getTypeSize t) bs -> length bs = n -> zlen (concat bs) = getTypeSize (ArrayTy n t).
Proof.
  intros Hd Ht Hs Hn. rewrite (concat_length_const bs (getTypeSize t)) by done. subst n. cbn [getTypeSize]. rewrite Hd.
  destruct t; simpl in *; try lia. congruence.
Qed.

Lemma pack_elems t l :
  (forall v, typed t v = true -> exists b, packs t v b) -> forallb (typed t) l = true ->
  exists bs, Forall2 (packs t) l bs /\ map (fun x => (isDynamicType t, pack t x)) l = map packed (map (pair (isDynamicType t)) bs).
Proof.
  intros IH Hv%forallb_Forall'. destruct (Forall_exists_Forall2 (packs t) l) as [bs Hbs].
  { eapply Forall_impl; [exact Hv|]. simpl. auto. }
  exists bs. split; [done|]. apply packed_elems. eapply Forall2_impl; [exact Hbs|]. by intros ?? [H _].
Qed.

Lemma pack_ok t : wf_type t = true -> forall v, typed t v = true -> exists b, packs t v b.
Proof.
  induction t as [t Ht|t IH|n t IH|ts IH] using Type_nested_ind; intros Hw v Hv; pose proof (typeCheck_ok _ v Hw Hv) as Hc.
  - exists (packElement t v). split; [by apply pack_elementary|]. intros Hd. pose proof (packElement_size t v Hv Hw) as Hs.
    destruct t; try done; cbn [getTypeSize]; lia.
  - destruct v as [| | |l]; try done. simpl in Hw, Hv. apply andb_true_iff in Hv as [_ Hv].
    destruct (pack_elems t l (IH Hw) Hv) as (bs & Hbs & Hm). eexists. split; [|done]. cbn [pack]. rewrite Hc, Hm. cbn [ebind obind].
    by rewrite pack_seq_layout.
  - destruct v as [| | |l]; try done. simpl in Hw, Hv. apply andb_true_iff in Hw as [[_ Hw]%andb_true_iff Ht].
    apply andb_true_iff in Hv as [Hl Hv]. apply Nat.eqb_eq in Hl. destruct (pack_elems t l (IH Hw) Hv) as (bs & Hbs & Hm).
    eexists. split; [cbn [pack]; rewrite Hc, Hm; cbn [ebind obind]; by rewrite pack_seq_layout|].
    intros Hd. simpl in Hd. rewrite layout_static by done. cbn [fst snd app]. rewrite app_nil_r. apply (pack_array_size n t); [done..| |].
    + eapply Forall2_Forall_r; [exact Hbs|]. apply Forall_true. intros x y [_ Hs]. auto.
    + rewrite <-(Forall2_length _ _ _ Hbs). done.
  - destruct v as [| | |l]; try done. simpl in Hw, Hv. apply andb_true_iff in Hw as [_ Hw]. apply andb_true_iff in Hv as [Hl Hv].
    apply Nat.eqb_eq in Hl. destruct (typed_fields ts l Hl Hv IH Hw) as [bs Hbs].
    eexists. split.
    + cbn [pack]. rewrite Hc. cbn [ebind obind]. rewrite (packed_fields isDynamicType pack ts l bs), pack_seq_layout; [done|].
      eapply Forall3_impl; [exact Hbs|]. by intros ??? [H _].
    + intros Hd. simpl in Hd. cbn [getTypeSize]. rewrite Hd. destruct (layout_fields ts bs Hd) with (offset := foldr (fun elem offset => getTypeSize elem + offset) 0 ts) as [-> Hs].
      { clear -Hbs. induction Hbs as [|t v b ts l bs [_ H] _ IHs]; constructor; auto. }
      cbn [fst snd app]. by rewrite app_nil_r.
Qed.

(** ** Reading *)

(** [b] stands at position [i] of [O]. *)
Definition sub (O : bytes) (i : Z) (b : bytes) : Prop := exists pre post, O = pre ++ b ++ post /\ zlen pre = i.

Lemma sub_bound O i b : sub O i b -> 0 <= i /\ i + zlen b <= zlen O.
Proof. intros (pre & post & -> & <-). rewrite !length_app. lia. Qed.

Lemma sub_slice O i b n : sub O i b -> n = zlen b -> slice O i (i + n) = Some b.
Proof.
  intros Hs ->. pose proof (sub_bound O i b Hs). destruct Hs as (pre & post & -> & <-). rewrite slice_some by lia. f_equal.
  replace (zlen pre + zlen b - zlen pre) with (zlen b) by lia. by rewrite !Nat2Z.id, drop_app_length, take_app_length.
Qed.

Lemma sub_app O i b1 b2 : sub O i (b1 ++ b2) -> sub O i b1 /\ sub O (i + zlen b1) b2.
Proof.
  intros (pre & post & -> & <-). split.
  - exists pre, (b2 ++ post). split; [|done]. by rewrite <-!app_assoc.
  - exists (pre ++ b1), post. rewrite length_app, <-!app_assoc. split; [done|lia].
Qed.

Lemma slice_from_sub O i b : sub O i b -> exists post, slice_from O i = Done (b ++ post) /\ zlen (b ++ post) <= zlen O.
Proof.
  intros Hs. pose proof (sub_bound O i b Hs). destruct Hs as (pre & post & -> & <-). exists post. unfold slice_from.
  rewrite slice_some by lia. cbn [or_panic]. rewrite Nat2Z.id, drop_app_length, take_ge by (rewrite !length_app; lia).
  split; [done|]. rewrite !length_app. lia.
Qed.

Lemma SetBytes_packNum x : 0 <= x < two256 -> SetBytes (packNum x) = x.
Proof. intros Hx. rewrite packNum_bytes, SetBytes_be_bytes, !Z.mod_small; [done|done|]. by rewrite Z.mod_small. Qed.

Lemma low_bytes_packNum k x : (k <= 32)%nat -> low_bytes k (packNum x) = x mod 256 ^ Z.of_nat k.
Proof.
  intros Hk. unfold low_bytes. rewrite packNum_length, packNum_bytes.
  assert (forall n z, (k <= n)%nat -> drop (n - k) (be_bytes n z) = be_bytes k z) as Hd.
  { clear. induction k as [|k IH]; intros n z Hk; [by rewrite Nat.sub_0_r, drop_ge by (by rewrite length_be_bytes)|].
    destruct n as [|n]; [lia|]. cbn [be_bytes Nat.sub]. rewrite drop_app_le by (rewrite length_be_bytes; lia). by rewrite IH by lia. }
  rewrite Hd, SetBytes_be_bytes by done. apply Z.mod_mod_divide. exists (256 ^ (32 - Z.of_nat k)).
  rewrite <-Z.pow_add_r by lia. by replace (32 - Z.of_nat k + Z.of_nat k) with 32 by lia.
Qed.

Lemma Int64_Uint64 x : 0 <= x < 2 ^ 62 -> Int64 (Uint64 x) = x.
Proof. intros Hx. unfold Uint64. rewrite u64_small by (unfold is_u64; lia). apply Int64_small. lia. Qed.

Lemma BitLen_63 x : 0 <= x < 2 ^ 62 -> (BitLen x >? 63) = false.
Proof. intros Hx. pose proof (BitLen_le x 62 ltac:(lia) ltac:(lia)). lia. Qed.

Lemma lengthPrefix_ok O i off n body :
  sub O i (packNum off) -> sub O off (packNum n ++ body) -> 0 <= n <= zlen body -> zlen O < 2 ^ 62 ->
  lengthPrefixPointsTo i O = Done (inr (off + 32, n)).
Proof.
  intros Hi Ho Hn HO. apply sub_app in Ho as [Ho Hb]. rewrite packNum_length in Hb.
  pose proof (sub_bound _ _ _ Hb). pose proof (sub_bound _ _ _ Ho) as Hob. rewrite packNum_length in Hob.
  unfold lengthPrefixPointsTo. rewrite (sub_slice O i (packNum off) 32 Hi) by (by rewrite packNum_length). cbn [or_panic obind].
  rewrite SetBytes_packNum by lia.
  destruct (Z.gtb_spec (off + 32) (zlen O)); [lia|]. rewrite BitLen_63, Int64_Uint64 by lia.
  replace (slice O (off + 32 - 32) (off + 32)) with (Some (packNum n))
    by (symmetry; replace (off + 32 - 32) with off by lia; apply sub_slice; [done|by rewrite packNum_length]).
  cbn [or_panic obind]. rewrite SetBytes_packNum by lia. rewrite BitLen_63 by lia. destruct (Z.gtb_spec (off + 32 + n) (zlen O)); [lia|].
  by rewrite Int64_Uint64 by lia.
Qed.

Lemma signed_mod bits x : 1 <= bits -> - 2 ^ (bits - 1) <= x < 2 ^ (bits - 1) -> signed bits (x mod 2 ^ bits) = x.
Proof.
  intros Hb Hx. unfold signed. pose proof (Z.pow_pos_nonneg 2 (bits - 1)) as Hp.
  assert (2 ^ bits = 2 * 2 ^ (bits - 1)) as H2 by (rewrite <-Z.pow_succ_r by lia; f_equal; lia).
  destruct (Z.leb_spec 0 x).
  - rewrite Z.mod_small by lia. destruct (Z.ltb_spec x (2 ^ (bits - 1))); lia.
  - rewrite <-(Z_mod_plus_full x 1), Z.mod_small by lia. destruct (Z.ltb_spec (x + 1 * 2 ^ bits) (2 ^ (bits - 1))); lia.
Qed.

Lemma ReadInteger_uint size i : typed (UintTy size) (VInt i) = true -> ReadInteger (UintTy size) (packNum i) = i.
Proof.
  intros Hv. cbn [typed] in Hv. unfold go_bits in Hv. cbn [ReadInteger]. rewrite !low_bytes_packNum by lia.
  destruct (Z.eqb_spec size 8); [subst; apply Z.mod_small; simpl in Hv; lia|].
  destruct (Z.eqb_spec size 16); [subst; apply Z.mod_small; simpl in Hv; lia|].
  destruct (Z.eqb_spec size 32); [subst; apply Z.mod_small; simpl in Hv; lia|].
  destruct (Z.eqb_spec size 64); [subst; apply Z.mod_small; simpl in Hv; lia|].
  apply SetBytes_packNum. simpl in Hv. lia.
Qed.

Lemma ReadInteger_int size i : typed (IntTy size) (VInt i) = true -> ReadInteger (IntTy size) (packNum i) = i.
Proof.
  intros Hv. cbn [typed] in Hv. unfold go_bits in Hv. cbn [ReadInteger]. rewrite !low_bytes_packNum by lia.
  destruct (Z.eqb_spec size 8); [subst; apply (signed_mod 8); simpl in *; lia|].
  destruct (Z.eqb_spec size 16); [subst; apply (signed_mod 16); simpl in *; lia|].
  destruct (Z.eqb_spec size 32); [subst; apply (signed_mod 32); simpl in *; lia|].
  destruct (Z.eqb_spec size 64); [subst; apply (signed_mod 64); simpl in *; lia|].
  cbn [orb] in Hv. rewrite packNum_bytes, SetBytes_be_bytes. change (256 ^ Z.of_nat 32) with two256. rewrite Z.mod_mod by lia.
  assert (signed 256 (i mod two256) = i) as Hs by (apply (signed_mod 256); change (2 ^ (256 - 1)) with two255 in *; lia).
  unfold signed in Hs. change (2 ^ 256) with two256 in Hs. change (2 ^ (256 - 1)) with two255 in Hs.
  destruct (Z.gtb_spec (i mod two256) (two255 - 1)), (Z.ltb_spec (i mod two256) two255); lia.
Qed.

Lemma readBool_packed b : readBool (packElement BoolTy (VBool b)) = Done (inr b).
Proof. destruct b; reflexivity. Qed.

Lemma BytesToAddress_padded b : length b = 20%nat -> BytesToAddress (LeftPadBytes b 32) = b.
Proof.
  intros Hb. unfold BytesToAddress, LeftPadBytes. destruct (Z.leb_spec 32 (zlen b)); [lia|]. rewrite length_app, length_replicate.
  by rewrite drop_app_length' by (rewrite length_replicate; lia).
Qed.

Lemma RightPad_slice b n : zlen b = n -> n <= 32 -> slice (RightPadBytes b 32) 0 n = Some b.
Proof.
  intros Hb Hn. pose proof (RightPadBytes_length b 32). rewrite slice_some by lia. f_equal. rewrite Z.sub_0_r, drop_0.
  unfold RightPadBytes. subst n. rewrite Nat2Z.id. destruct (_ <=? _); [by rewrite take_ge|]. by rewrite take_app_length.
Qed.

Lemma slice_app_l {A} (l l' : list A) hi : 0 <= hi <= zlen l -> slice (l ++ l') 0 hi = slice l 0 hi.
Proof. intros Hh. rewrite !slice_some by (rewrite ?length_app; lia). by rewrite !drop_0, take_app_le by lia. Qed.

Lemma ReadFixedBytes_packed b n : length b = n -> (n <= 32)%nat -> forall past, ReadFixedBytes n (RightPadBytes b 32) past = Done (inr b).
Proof. intros Hb Hn past. unfold ReadFixedBytes. pose proof (RightPadBytes_length b 32). by rewrite slice_app_l, RightPad_slice by lia. Qed.

Lemma readFunctionType_packed b : length b = 24%nat -> readFunctionType (RightPadBytes b 32) = Done (inr b).
Proof.
  intros Hb. unfold readFunctionType. pose proof (RightPadBytes_length b 32).
  assert (slice (RightPadBytes b 32) 24 32 = Some (replicate 8 Byte.x00)) as ->.
  { rewrite slice_some by lia. f_equal. unfold RightPadBytes. destruct (Z.leb_spec 32 (zlen b)); [lia|].
    rewrite drop_app_length' by lia. by rewrite Hb. }
  cbn [or_panic obind]. rewrite SetBytes_zeros. cbn [Z.eqb negb]. by rewrite RightPad_slice by lia.
Qed.

(** ** Layouts are read back *)

(** A value stands at [i], or its position does. *)
Definition located (dynamic : bool) (O : bytes) (i : Z) (b : bytes) : Prop :=
  if dynamic then exists off, sub O i (packNum off) /\ sub O off b else sub O i b.

(** [O] has the packed sequence [items] from [i] on. *)
Definition laid (O : bytes) (i : Z) (items : list (bool * bytes)) : Prop :=
  exists H T R off, zlen H = i /\ O = H ++ (layout items off).1 ++ T ++ (layout items off).2 ++ R /\
    off = zlen (H ++ (layout items off).1 ++ T).

Definition head_size (i : bool * bytes) : Z := if i.1 then 32 else zlen i.2.

Lemma laid_cons O i d b items : laid O i ((d, b) :: items) -> located d O i b /\ laid O (i + head_size (d, b)) items.
Proof.
  intros (H & T & R & off & <- & HO & Hoff). unfold head_size. cbn [fst snd]. destruct d; cbn [layout fst snd located] in *.
  - set (ht := layout items (off + zlen b)) in *. split.
    + exists off. split.
      * exists H, (ht.1 ++ T ++ (b ++ ht.2) ++ R). split; [|done]. by rewrite HO, <-!app_assoc.
      * exists (H ++ (packNum off ++ ht.1) ++ T), (ht.2 ++ R). split; [|done]. by rewrite HO, <-!app_assoc.
    + exists (H ++ packNum off), (T ++ b), R, (off + zlen b). fold ht. split_and!.
      * rewrite length_app, packNum_length. lia.
      * by rewrite HO, <-!app_assoc.
      * rewrite Hoff at 1. rewrite !length_app. lia.
  - split.
    + exists H, ((layout items off).1 ++ T ++ (layout items off).2 ++ R). split; [|done]. by rewrite HO, <-!app_assoc.
    + exists (H ++ b), T, R, off. split_and!.
      * rewrite length_app. lia.
      * by rewrite HO, <-!app_assoc.
      * rewrite Hoff at 1. rewrite !length_app. lia.
Qed.

Lemma layout_heads items : forall off, zlen (layout items off).1 = foldr (fun i n => head_size i + n) 0 items.
Proof.
  induction items as [|[[] b] items IH]; intros off; cbn [layout fst snd foldr]; [done|..]; rewrite length_app, Nat2Z.inj_add, IH;
    unfold head_size; cbn [fst snd]; [rewrite packNum_length|]; lia.
Qed.

Lemma laid_initial items off R : off = foldr (fun i n => head_size i + n) 0 items ->
  laid (((layout items off).1 ++ (layout items off).2) ++ R) 0 items.
Proof.
  intros Ho. exists [], [], R, off. split_and!; [done|by rewrite <-app_assoc|]. cbn [app]. rewrite app_nil_r, layout_heads. done.
Qed.

Lemma getTypeSize_dynamic t : isDynamicType t = true -> getTypeSize t = 32.
Proof. destruct t; cbn [isDynamicType getTypeSize]; try done; intros Hd; by rewrite Hd. Qed.

Lemma head_size_packs t v b : packs t v b -> head_size (isDynamicType t, b) = getTypeSize t.
Proof.
  intros [_ Hs]. unfold head_size. cbn [fst snd]. destruct (isDynamicType t) eqn:Hd; [by rewrite getTypeSize_dynamic|auto].
Qed.

Lemma virtual_args_size t : wf_type t = true -> getTypeSize t = 32 * (1 + virtual_args t).
Proof.
  intros Hw. destruct (getTypeSize_words t Hw) as (k & Hk & Hs). unfold virtual_args.
  destruct (isDynamicType t) eqn:Hd; [rewrite getTypeSize_dynamic by done; by destruct t|].
  rewrite Hs, (Z.mul_comm 32), Z.div_mul by lia. destruct t; cbn [getTypeSize] in Hs; lia.
Qed.

(** What has to be shown of a type. *)
Definition reads (t : Type_) : Prop := forall v b O i,
  typed t v = true -> packs t v b -> located (isDynamicType t) O i b -> zlen O < 2 ^ 62 -> toGoType t i O = Done (inr v).

Lemma each_reads t l bs O : reads t -> Forall2 (packs t) l bs -> forallb (typed t) l = true -> zlen O < 2 ^ 62 ->
  forall i, laid O i (map (pair (isDynamicType t)) bs) -> forEachUnpack_loop (toGoType t) (getTypeSize t) (length l) i O = Done (inr l).
Proof.
  intros Hr Hp Hv HO. induction Hp as [|v b l bs Hb _ IH]; intros i Hl; [done|]. cbn [map length forEachUnpack_loop] in *.
  apply laid_cons in Hl as [Hi Hl]. cbn [forallb] in Hv. apply andb_true_iff in Hv as [Hv Hvl]. rewrite (Hr v b O i) by done. cbn [ebind obind].
  rewrite (head_size_packs t v b Hb) in Hl. by rewrite IH.
Qed.

Lemma fields_read ts l bs O : Forall reads ts -> Forall3 packs ts l bs -> forallb id (zip_with typed ts l) = true -> forallb wf_type ts = true ->
  zlen O < 2 ^ 62 -> forall index va, laid O ((index + va) * 32) (zip (map isDynamicType ts) bs) ->
  unpack_seq (map (fun t => (virtual_args t, toGoType t)) ts) index va O = Done (inr l).
Proof.
  intros Hr Hp Hv Hw HO. induction Hp as [|t v b ts l bs Hb _ IH]; intros index va Hl; [done|]. cbn [map zip zip_with unpack_seq] in *.
  apply laid_cons in Hl as [Hi Hl]. cbn [forallb zip_with] in Hv, Hw. apply andb_true_iff in Hv as [Hv Hvl]. apply andb_true_iff in Hw as [Hwt Hw].
  apply Forall_cons in Hr as [Hrt Hr]. rewrite (Hrt v b O) by done. cbn [ebind obind]. rewrite (head_size_packs t v b Hb), virtual_args_size in Hl by done.
  rewrite IH; [done..|]. by replace ((index + 1 + (va + virtual_args t)) * 32) with ((index + va) * 32 + 32 * (1 + virtual_args t)) by lia.
Qed.

Lemma located_word t v b O i : wf_type t = true -> packs t v b -> located (isDynamicType t) O i b ->
  i + 32 <= zlen O /\ exists w, slice O i (i + 32) = Some w /\ (forall off, sub O i (packNum off) -> w = packNum off).
Proof.
  intros Hw [_ Hs] Hl. assert (exists w, sub O i w /\ length w = 32%nat) as (w & Hi & Hlen).
  { unfold located in Hl. destruct (isDynamicType t).
    - destruct Hl as (off & Hi & _). exists (packNum off). split; [done|apply packNum_length].
    - destruct (getTypeSize_words t Hw) as (k & Hk & Hks). specialize (Hs eq_refl).
      rewrite <-(take_drop 32 b) in Hl. apply sub_app in Hl as [Hl _]. exists (take 32 b). split; [done|]. rewrite length_take. lia. }
  pose proof (sub_bound _ _ _ Hi). split; [lia|]. exists w. split; [apply sub_slice; [done|lia]|]. intros off Ho.
  assert (Some w = Some (packNum off)) as [=]; [|done].
  rewrite <-(sub_slice O i w 32), <-(sub_slice O i (packNum off) 32); rewrite ?packNum_length; try done; lia.
Qed.

Lemma bytes_located O i x : located true O i (packBytesSlice x (zlen x)) -> zlen O < 2 ^ 62 ->
  exists off, lengthPrefixPointsTo i O = Done (inr (off + 32, zlen x)) /\ sub O (off + 32) x.
Proof.
  intros (off & Ho & Hb) HO. unfold packBytesSlice in Hb. pose proof (RightPadBytes_length x ((zlen x + 31) / 32 * 32)).
  exists off. split; [apply (lengthPrefix_ok O i off (zlen x) _ Ho Hb); lia|].
  apply sub_app in Hb as [_ Hb]. rewrite packNum_length in Hb. unfold RightPadBytes in Hb.
  destruct (_ <=? _); [done|by apply sub_app in Hb as [Hb _]].
Qed.

Lemma base_reads t : wf_type t = true -> match t with SliceTy _ | ArrayTy _ _ | TupleTy _ => False | _ => True end -> reads t.
Proof.
  intros Hw Ht v b O i Hv Hp Hl HO. destruct (located_word t v b O i Hw Hp Hl) as (Hi & w & Hsl & _).
  destruct Hp as [Hp _]. pose proof (typeCheck_ok t v Hw Hv) as Hc. rewrite pack_elementary in Hp by done. injection Hp as <-.
  assert ((i + 32 >? zlen O) = false) as Hgt by lia.
  assert (requiresLengthPrefix t = false -> slice O i (i + 32) = Some (packElement t v)) as Hst.
  { intros Hr. pose proof (packElement_size t v Hv Hw) as H32. apply sub_slice; [by destruct t|]. destruct t; try done; lia. }
  destruct t as [| | | |t|m t|ts| |m| |], v as [x|x|x|x]; try done; cbn [toGoType]; rewrite Hgt; cbn [requiresLengthPrefix ebind obind];
    try (rewrite Hst by done; cbn [or_panic obind]).
  - cbn [packElement]. by rewrite ReadInteger_int.
  - cbn [packElement]. by rewrite ReadInteger_uint.
  - by rewrite readBool_packed.
  - destruct (bytes_located O i x Hl HO) as (off & -> & Hx). cbn [ebind obind]. rewrite Hsl. cbn [or_panic obind]. by rewrite (sub_slice _ _ x).
  - cbn [packElement]. simpl in Hv. by rewrite BytesToAddress_padded by (by apply Nat.eqb_eq).
  - cbn [packElement]. simpl in Hv, Hw. rewrite ReadFixedBytes_packed; [done|by apply Nat.eqb_eq|by apply Nat.leb_le].
  - destruct (bytes_located O i x Hl HO) as (off & -> & Hx). cbn [ebind obind]. rewrite Hsl. cbn [or_panic obind]. by rewrite (sub_slice _ _ x).
  - cbn [packElement]. simpl in Hv. by rewrite readFunctionType_packed by (by apply Nat.eqb_eq).
Qed.

Lemma elems_heads t l bs : Forall2 (packs t) l bs -> getTypeSize t * zlen l = foldr (fun i n => head_size i + n) 0 (map (pair (isDynamicType t)) bs).
Proof. induction 1 as [|v b l bs Hb _ IH]; [simpl; lia|]. cbn [map foldr length]. rewrite (head_size_packs t v b Hb), <-IH. lia. Qed.

Lemma fields_heads ts l bs : Forall3 packs ts l bs ->
  foldr (fun elem offset => getTypeSize elem + offset) 0 ts = foldr (fun i n => head_size i + n) 0 (zip (map isDynamicType ts) bs).
Proof. induction 1 as [|t v b ts l bs Hb _ IH]; [done|]. cbn [map zip zip_with foldr]. by rewrite (head_size_packs t v b Hb), <-IH. Qed.

(** The elements of an array stand at the start of [O]. *)
Lemma forEach_reads t l bs O R : wf_type t = true -> reads t -> Forall2 (packs t) l bs -> forallb (typed t) l = true ->
  O = ((layout (map (pair (isDynamicType t)) bs) (getTypeSize t * zlen l)).1 ++ (layout (map (pair (isDynamicType t)) bs) (getTypeSize t * zlen l)).2) ++ R ->
  zlen O < 2 ^ 62 -> forEachUnpack (toGoType t) (getTypeSize t) O 0 (zlen l) = Done (inr (VList l)).
Proof.
  intros Hw Hr Hp Hv HO HO62. unfold forEachUnpack. destruct (Z.ltb_spec (zlen l) 0); [lia|].
  destruct (getTypeSize_words t Hw) as (k & Hk & Hs). pose proof (elems_heads t l bs Hp) as Hh.
  assert (32 * zlen l <= zlen O) as Hlen by (rewrite HO, !length_app, !Nat2Z.inj_add, layout_heads, <-Hh; nia).
  rewrite Z.add_0_l, Int64_small by lia. destruct (Z.gtb_spec (32 * zlen l) (zlen O)); [lia|].
  rewrite Nat2Z.id, (each_reads t l bs); [done..|]. rewrite HO. by apply laid_initial.
Qed.

Lemma pack_list_inv t l b ret : wf_type t = true -> forallb (typed t) l = true ->
  pack_seq (map (fun x => (isDynamicType t, pack t x)) l) (getTypeSize t * zlen l) ret [] = Done (inr b) ->
  exists bs, Forall2 (packs t) l bs /\
    b = ret ++ (layout (map (pair (isDynamicType t)) bs) (getTypeSize t * zlen l)).1 ++ (layout (map (pair (isDynamicType t)) bs) (getTypeSize t * zlen l)).2.
Proof.
  intros Hw Hv Hp. destruct (pack_elems t l (pack_ok t Hw) Hv) as (bs & Hbs & Hm). exists bs. split; [done|].
  rewrite Hm, pack_seq_layout in Hp. by injection Hp as <-.
Qed.

Lemma abi_slice_reads t : wf_type t = true -> reads t -> reads (SliceTy t).
Proof.
  intros Hw Hr v b O i Hv Hp Hl HO. destruct (located_word (SliceTy t) v b O i Hw Hp Hl) as (Hi & w & Hsl & _). destruct Hp as [Hp _].
  pose proof (typeCheck_ok (SliceTy t) v Hw Hv) as Hc. destruct v as [| | |l]; try done. cbn [pack] in Hp. rewrite Hc in Hp. cbn [ebind obind] in Hp.
  simpl in Hv. apply andb_true_iff in Hv as [_ Hv]. destruct (pack_list_inv t l b _ Hw Hv Hp) as (bs & Hbs & ->).
  destruct Hl as (off & Ho & Hb). destruct (getTypeSize_words t Hw) as (k & Hk & Hs). pose proof (elems_heads t l bs Hbs) as Hh.
  cbn [toGoType]. assert ((i + 32 >? zlen O) = false) as -> by lia. cbn [requiresLengthPrefix].
  rewrite (lengthPrefix_ok O i off (zlen l) _ Ho Hb) by (rewrite ?length_app, ?Nat2Z.inj_add, ?layout_heads, <-?Hh; nia).
  cbn [ebind obind]. rewrite Hsl. cbn [or_panic obind]. apply sub_app in Hb as [_ Hb]. rewrite packNum_length in Hb.
  destruct (slice_from_sub O (off + 32) _ Hb) as (R & HR & HRl). change (off + Z.of_nat 32) with (off + 32). rewrite HR. cbn [obind].
  eapply forEach_reads; try done. lia.
Qed.

Lemma array_reads n t : wf_type (ArrayTy n t) = true -> reads t -> reads (ArrayTy n t).
Proof.
  intros Hw Hr v b O i Hv Hp Hl HO. destruct (located_word (ArrayTy n t) v b O i Hw Hp Hl) as (Hi & w & Hsl & Hwd). destruct Hp as [Hp _].
  pose proof (typeCheck_ok (ArrayTy n t) v Hw Hv) as Hc. destruct v as [| | |l]; try done. cbn [pack] in Hp. rewrite Hc in Hp. cbn [ebind obind] in Hp.
  simpl in Hv, Hw. apply andb_true_iff in Hv as [Hn Hv]. apply Nat.eqb_eq in Hn. apply andb_true_iff in Hw as [[_ Hw]%andb_true_iff _].
  destruct (pack_list_inv t l b _ Hw Hv Hp) as (bs & Hbs & ->). cbn [toGoType]. assert ((i + 32 >? zlen O) = false) as -> by lia.
  cbn [requiresLengthPrefix ebind obind]. rewrite Hsl. cbn [or_panic obind]. cbn [isDynamicType] in Hl.
  assert (exists pos, sub O pos (((layout (map (pair (isDynamicType t)) bs) (getTypeSize t * zlen l)).1 ++ (layout (map (pair (isDynamicType t)) bs) (getTypeSize t * zlen l)).2)) /\
    (if isDynamicType t then Int64 (low_bytes 8 w) else i) = pos) as (pos & Hb & ->).
  { unfold located in Hl. destruct (isDynamicType t); [|by exists i]. destruct Hl as (off & Ho & Hb). exists off. split; [done|].
    pose proof (sub_bound _ _ _ Hb). rewrite (Hwd off Ho), low_bytes_packNum by lia. change (256 ^ Z.of_nat 8) with two64.
    rewrite Z.mod_small by lia. apply Int64_small. lia. }
  destruct (slice_from_sub O pos _ Hb) as (R & -> & HRl). cbn [obind]. rewrite <-Hn. eapply forEach_reads; try done. lia.
Qed.

Lemma tuple_reads ts : wf_type (TupleTy ts) = true -> Forall reads ts -> reads (TupleTy ts).
Proof.
  intros Hw Hr v b O i Hv Hp Hl HO. destruct (located_word (TupleTy ts) v b O i Hw Hp Hl) as (Hi & w & Hsl & Hwd). destruct Hp as [Hp _].
  pose proof (typeCheck_ok (TupleTy ts) v Hw Hv) as Hc. destruct v as [| | |l]; try done. cbn [pack] in Hp. rewrite Hc in Hp. cbn [ebind obind] in Hp.
  simpl in Hv, Hw. apply andb_true_iff in Hv as [Hn Hv]. apply Nat.eqb_eq in Hn. apply andb_true_iff in Hw as [_ Hw].
  destruct (typed_fields ts l Hn Hv) as [bs Hbs]; [|done|].
  { apply Forall_forall. intros t _ Ht v. by apply pack_ok. }
  rewrite (packed_fields isDynamicType pack ts l bs), pack_seq_layout in Hp by (eapply Forall3_impl; [exact Hbs|by intros ??? [H _]]).
  injection Hp as <-. cbn [app] in Hl. cbn [toGoType]. assert ((i + 32 >? zlen O) = false) as -> by lia.
  cbn [requiresLengthPrefix ebind obind]. rewrite Hsl. cbn [or_panic obind].
  set (off := foldr (fun elem offset => getTypeSize elem + offset) 0 ts) in *. set (items := zip (map isDynamicType ts) bs) in *.
  assert (exists pos, sub O pos ((layout items off).1 ++ (layout items off).2) /\
    (if isDynamicType (TupleTy ts) then tuplePointsTo i O else Done (inr i)) = Done (inr pos)) as (pos & Hb & ->).
  { unfold located in Hl. destruct (isDynamicType (TupleTy ts)); [|by exists i]. destruct Hl as (pos & Ho & Hb). exists pos. split; [done|].
    pose proof (sub_bound _ _ _ Hb). unfold tuplePointsTo. rewrite Hsl, (Hwd pos Ho). cbn [or_panic obind]. rewrite SetBytes_packNum by lia.
    destruct (Z.gtb_spec pos (zlen O)); [lia|]. by rewrite BitLen_63, Int64_Uint64 by lia. }
  cbn [ebind obind]. destruct (slice_from_sub O pos _ Hb) as (R & -> & HRl). cbn [obind].
  rewrite (fields_read ts l bs); try done; [lia|]. apply laid_initial. by apply (fields_heads ts l).
Qed.

Lemma all_read t : wf_type t = true -> reads t.
Proof.
  induction t as [t Ht|t IH|n t IH|ts IH] using Type_nested_ind; intros Hw.
  - by apply base_reads.
  - apply abi_slice_reads; [done|by apply IH].
  - apply array_reads; [done|]. apply IH. simpl in Hw. by apply andb_true_iff in Hw as [[_ Hw]%andb_true_iff _].
  - apply tuple_reads; [done|]. simpl in Hw. apply andb_true_iff in Hw as [_ Hw%forallb_Forall'].
    rewrite Forall_forall in IH, Hw |- *. auto.
Qed.

(** ** Arguments *)

Lemma Pack_layout ts l : length l = length ts -> forallb wf_type ts = true -> forallb id (zip_with typed ts l) = true ->
  exists bs, Forall3 packs ts l bs /\
    let ht := layout (zip (map isDynamicType ts) bs) (foldr (fun t n => getTypeSize t + n) 0 ts) in Pack ts l = Done (inr (ht.1 ++ ht.2)).
Proof.
  intros Hn Hw Hv. destruct (typed_fields ts l Hn Hv) as [bs Hbs]; [|done|].
  { apply Forall_forall. intros t _ Ht v. by apply pack_ok. }
  exists bs. split; [done|]. unfold Pack. rewrite Hn, Nat.eqb_refl. cbn [negb].
  rewrite (packed_fields isDynamicType pack ts l bs), pack_seq_layout; [done|]. eapply Forall3_impl; [exact Hbs|by intros ??? [H _]].
Qed.

(** C31: values of any list of ABI types, nested slices, arrays and tuples
    included, are packed without an error, and the unpacker gives them back from
    the packed bytes.  Left out are arrays of static tuples, empty slices of
    arrays, arrays and tuples without elements, and data of 2^62 bytes. *)
Theorem abi_roundtrip ts l :
  length l = length ts -> forallb wf_type ts = true -> forallb id (zip_with typed ts l) = true ->
  exists data, Pack ts l = Done (inr data) /\ (zlen data < 2 ^ 62 -> UnpackValues ts data = Done (inr l)).
Proof.
  intros Hn Hw Hv. destruct (Pack_layout ts l Hn Hw Hv) as (bs & Hbs & Hp). eexists. split; [exact Hp|]. intros HO.
  apply (fields_read ts l bs); try done.
  - apply Forall_forall. intros t Ht. apply all_read. rewrite forallb_forall in Hw. by apply Hw, list_elem_of_In.
  - rewrite <-(app_nil_r (_ ++ _)). apply laid_initial. by apply (fields_heads ts l).
Qed.

(** ** Malformed data *)

(** No array of dynamic elements, whose position toGoType does not check. *)
Fixpoint checked_type (t : Type_) : bool :=
  match t with
  | FixedBytesTy n => (n <=? 32)%nat
  | SliceTy elem => checked_type elem
  | ArrayTy _ elem => checked_type elem && negb (isDynamicType elem)
  | TupleTy elems => forallb checked_type elems
  | _ => true
  end.

Lemma safe_ebind {A B} (m : outcome (abiErr + A)) (f : A -> outcome (abiErr + B)) (P : A -> Prop) Q :
  safe m (fun r => match r with inr a => P a | inl _ => True end) -> (forall e, Q (inl e)) -> (forall a, P a -> safe (f a) Q) -> safe (ebind m f) Q.
Proof. intros Hm Hq Hf. unfold ebind. eapply safe_bind; [exact Hm|]. intros [e|a] Ha; [apply Hq|by apply Hf]. Qed.

Lemma BitLen_Int64 x : 0 <= x -> (BitLen x >? 63) = false -> Int64 (Uint64 x) = x.
Proof.
  intros Hx Hb. pose proof (BitLen_bound x) as [_ H]. assert (2 ^ BitLen x <= 2 ^ 63) by (apply Z.pow_le_mono_r; lia).
  unfold Uint64. rewrite u64_small by (unfold is_u64; lia). apply Int64_small. lia.
Qed.

Lemma slice_safe {A} (l : list A) lo hi : 0 <= lo <= hi -> hi <= zlen l -> exists s, slice l lo hi = Some s /\ zlen s = hi - lo.
Proof. intros. destruct (slice l lo hi) as [s|] eqn:E; [|by rewrite slice_some in E by lia]. exists s. split; [done|by apply slice_length in E]. Qed.

Lemma lengthPrefix_safe i O : 0 <= i -> i + 32 <= zlen O ->
  safe (lengthPrefixPointsTo i O) (fun r => match r with inr (start, n) => 0 <= start /\ 0 <= n /\ start + n <= zlen O | inl _ => True end).
Proof.
  intros Hi HO. unfold lengthPrefixPointsTo. destruct (slice_safe O i (i + 32)) as (w & -> & _); [lia..|]. cbn [or_panic obind].
  pose proof (SetBytes_range w). destruct (Z.gtb_spec (SetBytes w + 32) (zlen O)); [done|].
  destruct (BitLen (SetBytes w + 32) >? 63) eqn:Hb; [done|]. rewrite BitLen_Int64 by (done || lia).
  destruct (slice_safe O (SetBytes w + 32 - 32) (SetBytes w + 32)) as (w' & -> & _); [lia..|]. cbn [or_panic obind]. pose proof (SetBytes_range w').
  destruct (BitLen (SetBytes w + 32 + SetBytes w') >? 63) eqn:Hb'; [done|]. destruct (Z.gtb_spec (SetBytes w + 32 + SetBytes w') (zlen O)); [done|].
  assert (Int64 (Uint64 (SetBytes w')) = SetBytes w') as Hw'.
  { apply BitLen_Int64; [lia|]. pose proof (BitLen_bound (SetBytes w + 32 + SetBytes w')) as [_ Hp].
    assert (2 ^ BitLen (SetBytes w + 32 + SetBytes w') <= 2 ^ 63) by (apply Z.pow_le_mono_r; lia). pose proof (BitLen_le (SetBytes w') 63). lia. }
  cbn [safe]. rewrite Hw'. lia.
Qed.

Lemma forEach_safe (f : Z -> bytes -> outcome (abiErr + val)) sz O start size :
  (forall i, 0 <= i -> safe (f i O) (fun _ => True)) -> 0 <= sz -> 0 <= start -> safe (forEachUnpack f sz O start size) (fun _ => True).
Proof.
  intros Hf Hsz Hs. unfold forEachUnpack. destruct (size <? 0); [done|]. destruct (_ >? _); [done|]. generalize (Z.to_nat size). intros n.
  eapply (safe_ebind _ _ (fun _ => True)); [|done|done].
  revert start Hs. induction n as [|n IH]; intros start Hs; cbn [forEachUnpack_loop]; [done|].
  eapply (safe_ebind _ _ (fun _ => True)); [eapply safe_mono; [by apply Hf|by intros []]|done|]. intros x _.
  eapply (safe_ebind _ _ (fun _ => True)); [apply IH; lia|done|done].
Qed.

Lemma getTypeSize_nonneg t : 0 <= getTypeSize t.
Proof.
  induction t as [t Ht|t IH|n t IH|ts IH] using Type_nested_ind; [by destruct t|done|..]; cbn [getTypeSize].
  - destruct (isDynamicType t); [lia|]. destruct t; lia.
  - destruct (existsb isDynamicType ts); [lia|]. induction IH; cbn [foldr]; lia.
Qed.

Lemma virtual_args_nonneg t : -1 <= virtual_args t.
Proof.
  unfold virtual_args. pose proof (getTypeSize_nonneg t). pose proof (Z.div_pos (getTypeSize t) 32).
  destruct t; try lia; destruct (isDynamicType _); lia.
Qed.

Lemma fields_safe ts O : Forall (fun t => forall i, 0 <= i -> safe (toGoType t i O) (fun _ => True)) ts ->
  forall index va, 0 <= index + va -> safe (unpack_seq (map (fun t => (virtual_args t, toGoType t)) ts) index va O) (fun _ => True).
Proof.
  induction 1 as [|t ts Ht _ IH]; intros index va Hi; cbn [map unpack_seq]; [done|].
  eapply (safe_ebind _ _ (fun _ => True)); [eapply safe_mono; [apply Ht; lia|by intros []]|done|]. intros x _.
  pose proof (virtual_args_nonneg t). eapply (safe_ebind _ _ (fun _ => True)); [eapply safe_mono; [apply IH; lia|by intros []]|done|done].
Qed.

Lemma base_safe t i O : checked_type t = true -> match t with SliceTy _ | ArrayTy _ _ | TupleTy _ => False | _ => True end ->
  0 <= i -> safe (toGoType t i O) (fun _ => True).
Proof.
  intros Hc Ht Hi. destruct t as [| | | |t|m t|ts| |m| |]; try done; cbn [toGoType]; destruct (Z.gtb_spec (i + 32) (zlen O)); try done;
    destruct (slice_safe O i (i + 32)) as (w & Hw & Hl); try lia; cbn [requiresLengthPrefix ebind obind]; rewrite ?Hw; cbn [or_panic obind]; try done.
  - unfold readBool. destruct (slice_safe w 0 31) as (s & -> & _); [lia..|]. cbn [or_panic obind].
    destruct (lookup_lt_is_Some_2 w 31) as [x ->]; [lia|]. cbn [or_panic obind]. destruct (negb _); [done|]. destruct (_ =? 0); [done|]. by destruct (_ =? 1).
  - eapply safe_ebind; [by apply lengthPrefix_safe|done|]. intros [start n] (H1 & H2 & H3). cbn [obind].
    destruct (slice_safe O start (start + n)) as (s & -> & _); [lia..|done].
  - simpl in Hc. apply Nat.leb_le in Hc. unfold ReadFixedBytes. rewrite slice_app_l by lia. by destruct (slice_safe w 0 (Z.of_nat m)) as (s & -> & _); [lia..|].
  - eapply safe_ebind; [by apply lengthPrefix_safe|done|]. intros [start n] (H1 & H2 & H3). cbn [obind].
    destruct (slice_safe O start (start + n)) as (s & -> & _); [lia..|done].
  - unfold readFunctionType. destruct (slice_safe w 24 32) as (s & -> & _); [lia..|]. cbn [or_panic obind].
    destruct (negb _); [done|]. by destruct (slice_safe w 0 24) as (s' & -> & _); [lia..|].
Qed.

Lemma slice_from_safe O i : 0 <= i <= zlen O -> exists O', slice_from O i = Done O'.
Proof. intros Hi. unfold slice_from. destruct (slice_safe O i (zlen O)) as (s & -> & _); [lia..|]. by exists s. Qed.

Lemma toGoType_safe t : checked_type t = true -> forall i O, 0 <= i -> safe (toGoType t i O) (fun _ => True).
Proof.
  induction t as [t Ht|t IH|n t IH|ts IH] using Type_nested_ind; intros Hc i O Hi; [by apply base_safe|..];
    cbn [toGoType]; destruct (Z.gtb_spec (i + 32) (zlen O)); try done; destruct (slice_safe O i (i + 32)) as (w & Hw & Hl); try lia.
  - cbn [requiresLengthPrefix]. eapply safe_ebind; [by apply lengthPrefix_safe|done|]. intros [start k] (H1 & H2 & H3). rewrite Hw. cbn [or_panic obind].
    destruct (slice_from_safe O start) as (O' & ->); [lia|]. apply forEach_safe; [|apply getTypeSize_nonneg|done]. intros j Hj. by apply IH.
  - simpl in Hc. apply andb_true_iff in Hc as [Hc Hd]. apply negb_true_iff in Hd. cbn [requiresLengthPrefix ebind obind]. rewrite Hw, Hd.
    cbn [or_panic obind]. destruct (slice_from_safe O i) as (O' & ->); [lia|]. apply forEach_safe; [|apply getTypeSize_nonneg|done].
    intros j Hj. by apply IH.
  - cbn [requiresLengthPrefix ebind obind]. rewrite Hw. cbn [or_panic obind].
    eapply (safe_ebind _ _ (fun pos => 0 <= pos <= zlen O)); [|done|].
    + destruct (isDynamicType _); [|cbn [safe]; lia]. unfold tuplePointsTo. rewrite Hw. cbn [or_panic obind].
      pose proof (SetBytes_range w). destruct (Z.gtb_spec (SetBytes w) (zlen O)); [done|]. destruct (BitLen (SetBytes w) >? 63) eqn:Hb; [done|].
      cbn [safe]. rewrite BitLen_Int64 by (done || lia). lia.
    + intros pos Hpos. destruct (slice_from_safe O pos) as (O' & ->); [done|]. cbn [obind].
      eapply (safe_ebind _ _ (fun _ => True)); [eapply safe_mono; [apply fields_safe|by intros []]|done|done].
      * simpl in Hc. apply forallb_Forall' in Hc. rewrite Forall_forall in IH, Hc |- *. auto.
      * done.
Qed.

(** Whatever bytes a contract returns, unpacking them ends in values or an
    error, never in a panic, for types without arrays of dynamic elements. *)
Theorem abi_unpack_safe ts data : forallb checked_type ts = true -> exists r, UnpackValues ts data = Done r.
Proof.
  intros Hc%forallb_Forall'. enough (safe (UnpackValues ts data) (fun _ => True)) as (r & Hr & _)%safe_done by eauto.
  apply fields_safe; [|done]. eapply Forall_impl; [exact Hc|]. intros t Ht i Hi. by apply toGoType_safe.
Qed.

(** ** Concrete values *)

Module AbiExample.
Definition types : list Type_ :=
  [BoolTy; UintTy 256; AddressTy; FixedBytesTy 32; BytesTy; ArrayTy 2 (ArrayTy 3 (IntTy 16)); SliceTy (TupleTy [UintTy 8; StringTy; ArrayTy 1 (SliceTy BoolTy)]); IntTy 256;
   TupleTy [FunctionTy; UintTy 64]].
Definition args : list val :=
  [VBool true; VInt (2 ^ 255 + 7); VBytes (replicate 20 Byte.xaa); VBytes (replicate 32 Byte.x11); VBytes (replicate 33 Byte.x42);
   VList [VList [VInt (-1); VInt 2; VInt (-32768)]; VList [VInt 0; VInt 32767; VInt 5]];
   VList [VList [VInt 255; VBytes []; VList [VList [VBool true; VBool false]]]; VList [VInt 0; VBytes [Byte.x61]; VList [VList []]]]; VInt (- 2 ^ 255);
   VList [VBytes (replicate 24 Byte.x77); VInt (2 ^ 64 - 1)]].

Lemma abi_roundtrip_witness : exists data, Pack types args = Done (inr data) /\ (zlen data < 2 ^ 62 -> UnpackValues types data = Done (inr args)).
Proof. apply (abi_roundtrip types args); vm_compute; reflexivity. Defined.

Lemma abi_unpack_safe_witness : exists r, UnpackValues [SliceTy BytesTy; StringTy] (replicate 65 Byte.xff) = Done r.
Proof. apply (abi_unpack_safe [SliceTy BytesTy; StringTy]). reflexivity. Defined.

Definition tuple_types : list Type_ := [ArrayTy 2 (TupleTy [UintTy 256; UintTy 256]); BytesTy].
Definition tuple_args : list val := [VList [VList [VInt 1; VInt 2]; VList [VInt 3; VInt 4]]; VBytes [Byte.x05]].
Definition tuple_data : bytes := match Pack tuple_types tuple_args with Done (inr b) => b | _ => [] end.

(** The position of an array of dynamic elements is not checked, so 32 bytes
    of returned data make the unpacker panic; packing an empty slice of arrays
    panics; and the sizes of arrays of static tuples are wrong, so what follows
    them is packed with wrong positions and not read back. *)
Theorem abi_limits :
  UnpackValues [ArrayTy 1 BytesTy] (replicate 32 Byte.xff) = Panic IndexOutOfRange /\
  Pack [SliceTy (ArrayTy 2 (UintTy 256))] [VList []] = Panic IndexOutOfRange /\
  Pack tuple_types tuple_args = Done (inr tuple_data) /\ UnpackValues tuple_types tuple_data = Done (inl LengthInsufficient).
Proof. split_and!; vm_compute; reflexivity. Qed.
End AbiExample.
