(* ===== verification/AbiTyped.v ===== *)
(** * accounts/abi: what the unpacker returns has the declared types
    Whatever bytes it is given, the values of a successful UnpackValues are
    values of the Go types that stand for the types of the arguments, so the
    conversions and type assertions of its callers cannot fail. *)

From S2P Require Import Prelude MathUtil Abi AbiCodec.
Import Abi.

(** Values of the Go type for an ABI type. *)
Fixpoint of_type (t : Type_) (v : val) : bool :=
  match t, v with
  | UintTy size, VInt i => (0 <=? i) && (i <? 2 ^ go_bits size)
  | IntTy size, VInt i => (- 2 ^ (go_bits size - 1) <=? i) && (i <? 2 ^ (go_bits size - 1))
  | BoolTy, VBool _ | StringTy, VBytes _ | BytesTy, VBytes _ => true
  | AddressTy, VBytes b => (length b =? 20)%nat
  | FixedBytesTy n, VBytes b => (length b =? n)%nat
  | FunctionTy, VBytes b => (length b =? 24)%nat
  | SliceTy elem, VList l => forallb (of_type elem) l
  | ArrayTy n elem, VList l => (length l =? n)%nat && forallb (of_type elem) l
  | TupleTy elems, VList l => (length l =? length elems)%nat && forallb id (zip_with of_type elems l)
  | _, _ => false
  end.

(** ** Inversion *)

Lemma obind_Done {A B} (m : outcome A) (f : A -> outcome B) b : obind m f = Done b -> exists a, m = Done a /\ f a = Done b.
Proof. destruct m as [a| |]; try done. intros H. by exists a. Qed.

Lemma ebind_Done {A B} (m : outcome (abiErr + A)) (f : A -> outcome (abiErr + B)) b : ebind m f = Done (inr b) -> exists a, m = Done (inr a) /\ f a = Done (inr b).
Proof. intros ([e|a] & Hm & Hf)%obind_Done; [done|]. by exists a. Qed.

Lemma or_panic_Done {A} p (m : option A) a : or_panic p m = Done a -> m = Some a.
Proof. by destruct m; intros [= ->]. Qed.

Lemma Done_inr {A} (a b : A) : @Done (abiErr + A) (inr a) = Done (inr b) -> a = b.
Proof. congruence. Qed.

(** Undoes the binds of a computation that returned a value. *)
Ltac unbind H :=
  repeat match type of H with
  | ebind _ _ = Done (inr _) => let a := fresh "a" in let Ha := fresh "Ha" in apply ebind_Done in H as (a & Ha & H); try (destruct a as [? ?])
  | obind _ _ = Done (inr _) => let a := fresh "a" in let Ha := fresh "Ha" in apply obind_Done in H as (a & Ha & H); try apply or_panic_Done in Ha
  end.

(** ** Words *)

Lemma low_bytes_range k b : 0 <= low_bytes k b < 256 ^ Z.of_nat k.
Proof.
  unfold low_bytes. pose proof (SetBytes_range (drop (length b - k) b)). rewrite length_drop in H.
  assert (256 ^ Z.of_nat (length b - (length b - k)) <= 256 ^ Z.of_nat k) by (apply Z.pow_le_mono_r; lia). lia.
Qed.

Lemma signed_range bits x : 1 <= bits -> 0 <= x < 2 ^ bits -> - 2 ^ (bits - 1) <= signed bits x < 2 ^ (bits - 1).
Proof.
  intros Hb Hx. assert (2 ^ bits = 2 * 2 ^ (bits - 1)) as H2 by (rewrite <-Z.pow_succ_r by lia; f_equal; lia).
  unfold signed. destruct (Z.ltb_spec x (2 ^ (bits - 1))); lia.
Qed.

Lemma ReadInteger_typed t w : zlen w = 32 -> match t with IntTy _ | UintTy _ => True | _ => False end -> of_type t (VInt (ReadInteger t w)) = true.
Proof.
  intros Hw Ht. pose proof (SetBytes_range w) as Hr. replace (length w) with 32%nat in Hr by lia. change (256 ^ Z.of_nat 32) with (2 ^ 256) in Hr.
  pose proof (low_bytes_range 1 w). pose proof (low_bytes_range 2 w). pose proof (low_bytes_range 4 w). pose proof (low_bytes_range 8 w).
  destruct t as [size|size| | | | | | | | |]; try done; cbn [of_type ReadInteger]; unfold go_bits; apply andb_true_iff; rewrite Z.leb_le, Z.ltb_lt.
  - destruct (Z.eqb_spec size 8); [subst; by apply (signed_range 8)|]. destruct (Z.eqb_spec size 16); [subst; by apply (signed_range 16)|].
    destruct (Z.eqb_spec size 32); [subst; by apply (signed_range 32)|]. destruct (Z.eqb_spec size 64); [subst; by apply (signed_range 64)|].
    cbn [orb]. pose proof (signed_range 256 (SetBytes w) ltac:(lia) Hr) as Hs. unfold signed in Hs. change (2 ^ 256) with two256 in Hs. change (2 ^ (256 - 1)) with two255 in *.
    destruct (Z.gtb_spec (SetBytes w) (two255 - 1)), (Z.ltb_spec (SetBytes w) two255); lia.
  - destruct (Z.eqb_spec size 8); [subst; done|]. destruct (Z.eqb_spec size 16); [subst; done|]. destruct (Z.eqb_spec size 32); [subst; done|].
    destruct (Z.eqb_spec size 64); [subst; done|]. done.
Qed.

(** ** Values *)

Lemma base_typed t i O v : match t with SliceTy _ | ArrayTy _ _ | TupleTy _ => False | _ => True end -> toGoType t i O = Done (inr v) -> of_type t v = true.
Proof.
  intros Ht H. destruct t as [| | | |t|m t|ts| |m| |]; try done; cbn [toGoType requiresLengthPrefix] in H; destruct (_ >? _); try done; unbind H; apply Done_inr in H; subst v;
    repeat match goal with H : slice _ _ _ = Some _ |- _ => apply slice_length in H end; try done.
  - apply ReadInteger_typed; [lia|done].
  - apply ReadInteger_typed; [lia|done].
  - cbn [of_type]. unfold BytesToAddress. rewrite length_drop. apply Nat.eqb_eq. lia.
  - match goal with H : ReadFixedBytes _ _ _ = _ |- _ => unfold ReadFixedBytes in H; unbind H; apply Done_inr in H; subst end.
    match goal with H : slice _ 0 _ = Some _ |- _ => apply slice_length in H end. cbn [of_type]. apply Nat.eqb_eq. lia.
  - match goal with H : readFunctionType _ = _ |- _ => unfold readFunctionType in H; apply obind_Done in H as (g & _ & H); destruct (negb _); [done|]; unbind H; apply Done_inr in H; subst end.
    match goal with H : slice _ 0 _ = Some _ |- _ => apply slice_length in H end. cbn [of_type]. apply Nat.eqb_eq. lia.
Qed.

Lemma forEach_typed t (Ht : forall i O v, toGoType t i O = Done (inr v) -> of_type t v = true) sz O start size v :
  forEachUnpack (toGoType t) sz O start size = Done (inr v) -> exists l, v = VList l /\ zlen l = Z.max 0 size /\ forallb (of_type t) l = true.
Proof.
  unfold forEachUnpack. destruct (Z.ltb_spec size 0); [done|]. destruct (_ >? _); [done|]. intros (l & Hl & <-%Done_inr)%ebind_Done. exists l. split; [done|].
  enough (length l = Z.to_nat size /\ forallb (of_type t) l = true) as [? ?] by (split; [lia|done]). clear -Hl Ht.
  revert start l Hl. induction (Z.to_nat size) as [|n IH]; intros start l Hl; cbn [forEachUnpack_loop] in Hl; [by apply Done_inr in Hl as <-|].
  apply ebind_Done in Hl as (x & Hx & Hl). apply ebind_Done in Hl as (l' & Hl' & <-%Done_inr). destruct (IH _ _ Hl') as [Hn Hall]. split; [simpl; by rewrite Hn|]. cbn [forallb].
  by rewrite (Ht _ _ _ Hx), Hall.
Qed.

Lemma fields_typed ts O : Forall (fun t => forall i O v, toGoType t i O = Done (inr v) -> of_type t v = true) ts -> forall index va l,
  unpack_seq (map (fun t => (virtual_args t, toGoType t)) ts) index va O = Done (inr l) -> length l = length ts /\ forallb id (zip_with of_type ts l) = true.
Proof.
  induction 1 as [|t ts Ht _ IH]; intros index va l H; cbn [map unpack_seq] in H; [by apply Done_inr in H as <-|].
  apply ebind_Done in H as (x & Hx & H). apply ebind_Done in H as (l' & Hl' & <-%Done_inr). destruct (IH _ _ _ Hl') as [Hn Hall].
  cbn [length zip_with forallb id]. by rewrite Hn, (Ht _ _ _ Hx), Hall.
Qed.

Lemma toGoType_typed t : forall i O v, toGoType t i O = Done (inr v) -> of_type t v = true.
Proof.
  induction t as [t Ht|t IH|n t IH|ts IH] using Type_nested_ind; intros i O v H; [by eapply base_typed|..];
    cbn [toGoType] in H; destruct (_ >? _); try done; apply ebind_Done in H as ([b n'] & _ & H); apply obind_Done in H as (w & _ & H).
  - apply obind_Done in H as (O' & _ & H). by apply forEach_typed in H as (l & -> & _ & Hall).
  - apply obind_Done in H as (O' & _ & H). apply forEach_typed in H as (l & -> & Hn & Hall); [|done]. cbn [of_type]. rewrite Hall, (proj2 (Nat.eqb_eq _ _)) by lia. done.
  - apply ebind_Done in H as (b' & _ & H). apply obind_Done in H as (O' & _ & H). apply ebind_Done in H as (l & Hl & <-%Done_inr).
    apply (fields_typed ts O' IH) in Hl as [Hn Hall]. cbn [of_type]. by rewrite Hn, Nat.eqb_refl, Hall.
Qed.

(** C32: whatever bytes a contract returns, the values the unpacker makes of them
    have the Go types of the arguments: one value per argument, integers within
    the width of their type, addresses of twenty bytes, arrays of their length,
    and so on through nested slices, arrays and tuples. *)
Theorem abi_unpack_typed ts data l : UnpackValues ts data = Done (inr l) -> length l = length ts /\ forallb id (zip_with of_type ts l) = true.
Proof. apply fields_typed, Forall_forall. intros t _. apply toGoType_typed. Qed.

Module AbiTypedExample.
Definition data : bytes := replicate 64 Byte.xff ++ be_bytes 32 128 ++ replicate 32 Byte.x00 ++ be_bytes 32 1 ++ replicate 32 Byte.x07.

Lemma abi_unpack_typed_witness : length [VInt (-1); VBytes (replicate 20 Byte.xff); VList [VInt 1799]; VBool false] = 4%nat /\
  forallb id (zip_with of_type [IntTy 16; AddressTy; SliceTy (UintTy 16); BoolTy] [VInt (-1); VBytes (replicate 20 Byte.xff); VList [VInt 1799]; VBool false]) = true.
Proof. apply (abi_unpack_typed [IntTy 16; AddressTy; SliceTy (UintTy 16); BoolTy] data). vm_compute. reflexivity. Defined.
End AbiTypedExample.
