(* ===== verification/Blake2b.v ===== *)
(** * crypto/blake2b: the compression function F
    blake2b_generic.go's unrolled rounds, and their equivalence with the
    definition of RFC 7693, which permutes the message words by the schedule
    SIGMA and applies the mixing function G to the columns and the diagonals. *)

From S2P Require Import Prelude.

Definition word (l : list Z) (i : Z) : Z := default 0 (l !! Z.to_nat i).

(** [bits.RotateLeft64] *)
Definition RotateLeft64 (x k : Z) : Z :=
  let s := Z.land k 63 in Z.lor (u64 (Z.shiftl x s)) (Z.shiftr x (64 - s)).

Definition precomputed : list (list Z) := [
  [0; 2; 4; 6; 1; 3; 5; 7; 8; 10; 12; 14; 9; 11; 13; 15];
  [14; 4; 9; 13; 10; 8; 15; 6; 1; 0; 11; 5; 12; 2; 7; 3];
  [11; 12; 5; 15; 8; 0; 2; 13; 10; 3; 7; 9; 14; 6; 1; 4];
  [7; 3; 13; 11; 9; 1; 12; 14; 2; 5; 4; 15; 6; 10; 0; 8];
  [9; 5; 2; 10; 0; 7; 4; 15; 14; 11; 6; 3; 1; 12; 8; 13];
  [2; 6; 0; 8; 12; 10; 11; 3; 4; 7; 15; 1; 13; 5; 14; 9];
  [12; 1; 14; 4; 5; 15; 13; 10; 0; 6; 9; 8; 7; 3; 2; 11];
  [13; 7; 12; 3; 11; 14; 1; 9; 5; 15; 8; 2; 0; 4; 6; 10];
  [6; 14; 11; 0; 15; 9; 3; 8; 12; 13; 1; 10; 2; 7; 4; 5];
  [10; 8; 7; 1; 2; 4; 6; 5; 15; 9; 3; 13; 11; 14; 12; 0]].

(** blake2b.go *)
Definition iv : list Z := [
  0x6a09e667f3bcc908; 0xbb67ae8584caa73b; 0x3c6ef372fe94f82b; 0xa54ff53a5f1d36f1;
  0x510e527fade682d1; 0x9b05688c2b3e6c1f; 0x1f83d9abfb41bd6b; 0x5be0cd19137e2179].

(** The seven assignments the loop body repeats:
    [a += x; a += b; d ^= a; d = rot(d, -r1); c += d; b ^= c; b = rot(b, -r2)]. *)
Definition mix (a b c d x r1 r2 : Z) : Z * Z * Z * Z :=
  let a := u64 (a + x) in
  let a := u64 (a + b) in
  let d := Z.lxor d a in
  let d := RotateLeft64 d (- r1) in
  let c := u64 (c + d) in
  let b := Z.lxor b c in
  let b := RotateLeft64 b (- r2) in
  (a, b, c, d).

(** The sixteen working variables. *)
Record vars := mkVars {
  v_0 : Z; v_1 : Z; v_2 : Z; v_3 : Z; v_4 : Z; v_5 : Z; v_6 : Z; v_7 : Z;
  v_8 : Z; v_9 : Z; v_10 : Z; v_11 : Z; v_12 : Z; v_13 : Z; v_14 : Z; v_15 : Z }.

(** The body of the loop of [fGeneric], with [s] the row of [precomputed]. *)
Definition round (m s : list Z) (v : vars) : vars :=
  let 'mkVars v0 v1 v2 v3 v4 v5 v6 v7 v8 v9 v10 v11 v12 v13 v14 v15 := v in
  let '(v0, v4, v8, v12) := mix v0 v4 v8 v12 (word m (word s 0)) 32 24 in
  let '(v1, v5, v9, v13) := mix v1 v5 v9 v13 (word m (word s 1)) 32 24 in
  let '(v2, v6, v10, v14) := mix v2 v6 v10 v14 (word m (word s 2)) 32 24 in
  let '(v3, v7, v11, v15) := mix v3 v7 v11 v15 (word m (word s 3)) 32 24 in
  let '(v0, v4, v8, v12) := mix v0 v4 v8 v12 (word m (word s 4)) 16 63 in
  let '(v1, v5, v9, v13) := mix v1 v5 v9 v13 (word m (word s 5)) 16 63 in
  let '(v2, v6, v10, v14) := mix v2 v6 v10 v14 (word m (word s 6)) 16 63 in
  let '(v3, v7, v11, v15) := mix v3 v7 v11 v15 (word m (word s 7)) 16 63 in
  let '(v0, v5, v10, v15) := mix v0 v5 v10 v15 (word m (word s 8)) 32 24 in
  let '(v1, v6, v11, v12) := mix v1 v6 v11 v12 (word m (word s 9)) 32 24 in
  let '(v2, v7, v8, v13) := mix v2 v7 v8 v13 (word m (word s 10)) 32 24 in
  let '(v3, v4, v9, v14) := mix v3 v4 v9 v14 (word m (word s 11)) 32 24 in
  let '(v0, v5, v10, v15) := mix v0 v5 v10 v15 (word m (word s 12)) 16 63 in
  let '(v1, v6, v11, v12) := mix v1 v6 v11 v12 (word m (word s 13)) 16 63 in
  let '(v2, v7, v8, v13) := mix v2 v7 v8 v13 (word m (word s 14)) 16 63 in
  let '(v3, v4, v9, v14) := mix v3 v4 v9 v14 (word m (word s 15)) 16 63 in
  mkVars v0 v1 v2 v3 v4 v5 v6 v7 v8 v9 v10 v11 v12 v13 v14 v15.

(** [for i := 0; i < int(rounds); i++], with [s := &(precomputed[i%10])]. *)
Definition loop_body (m : list Z) (v : vars) (i : nat) : vars :=
  round m (default [] (precomputed !! (i mod 10)%nat)) v.
Definition rounds_loop (m : list Z) (n : nat) (v : vars) : vars := foldl (loop_body m) v (seq 0 n).

Definition fGeneric (h m : list Z) (c0 c1 flag rounds : Z) : list Z :=
  let v := mkVars (word h 0) (word h 1) (word h 2) (word h 3) (word h 4) (word h 5) (word h 6) (word h 7)
                  (word iv 0) (word iv 1) (word iv 2) (word iv 3)
                  (Z.lxor (word iv 4) c0) (Z.lxor (word iv 5) c1) (Z.lxor (word iv 6) flag) (word iv 7) in
  let v := rounds_loop m (Z.to_nat rounds) v in
  [Z.lxor (word h 0) (Z.lxor (v_0 v) (v_8 v)); Z.lxor (word h 1) (Z.lxor (v_1 v) (v_9 v));
   Z.lxor (word h 2) (Z.lxor (v_2 v) (v_10 v)); Z.lxor (word h 3) (Z.lxor (v_3 v) (v_11 v));
   Z.lxor (word h 4) (Z.lxor (v_4 v) (v_12 v)); Z.lxor (word h 5) (Z.lxor (v_5 v) (v_13 v));
   Z.lxor (word h 6) (Z.lxor (v_6 v) (v_14 v)); Z.lxor (word h 7) (Z.lxor (v_7 v) (v_15 v))].

(** blake2b.go, on a platform without the assembly versions. *)
Definition F (h m c : list Z) (final : bool) (rounds : Z) : list Z :=
  let flag := if final then 0xFFFFFFFFFFFFFFFF else 0 in
  fGeneric h m (word c 0) (word c 1) flag rounds.

(** ** RFC 7693 *)

Module RFC.
Definition SIGMA : list (list Z) := [
  [0; 1; 2; 3; 4; 5; 6; 7; 8; 9; 10; 11; 12; 13; 14; 15];
  [14; 10; 4; 8; 9; 15; 13; 6; 1; 12; 0; 2; 11; 7; 5; 3];
  [11; 8; 12; 0; 5; 2; 15; 13; 10; 14; 3; 6; 7; 1; 9; 4];
  [7; 9; 3; 1; 13; 12; 11; 14; 2; 6; 5; 10; 4; 0; 15; 8];
  [9; 0; 5; 7; 2; 4; 10; 15; 14; 1; 11; 12; 6; 8; 3; 13];
  [2; 12; 6; 10; 0; 11; 8; 3; 4; 13; 7; 5; 15; 14; 1; 9];
  [12; 5; 1; 15; 14; 13; 4; 10; 0; 7; 6; 3; 9; 2; 8; 11];
  [13; 11; 7; 14; 12; 1; 3; 9; 5; 0; 15; 4; 8; 6; 2; 10];
  [6; 15; 14; 9; 11; 3; 0; 8; 12; 2; 13; 7; 1; 4; 10; 5];
  [10; 2; 8; 4; 7; 6; 1; 5; 15; 11; 9; 14; 3; 12; 13; 0]].

(** Section 2.6: the first 64 bits of the fractional parts of the square roots
    of the first eight primes. *)
Definition IV : list Z := map (fun p => Z.sqrt (p * 2 ^ 128) mod 2 ^ 64) [2; 3; 5; 7; 11; 13; 17; 19].

(** Rotation of a 64-bit word to the right. *)
Definition rotr (x n : Z) : Z := Z.lor (Z.shiftr x n) (Z.shiftl x (64 - n) mod 2 ^ 64).

(** Section 3.1: the mixing function G on the words [a], [b], [c], [d] of [v]. *)
Definition G (v : list Z) (a b c d : nat) (x y : Z) : list Z :=
  let at_ (v : list Z) i := default 0 (v !! i) in
  let v := <[a := (at_ v a + at_ v b + x) mod 2 ^ 64]> v in
  let v := <[d := rotr (Z.lxor (at_ v d) (at_ v a)) 32]> v in
  let v := <[c := (at_ v c + at_ v d) mod 2 ^ 64]> v in
  let v := <[b := rotr (Z.lxor (at_ v b) (at_ v c)) 24]> v in
  let v := <[a := (at_ v a + at_ v b + y) mod 2 ^ 64]> v in
  let v := <[d := rotr (Z.lxor (at_ v d) (at_ v a)) 16]> v in
  let v := <[c := (at_ v c + at_ v d) mod 2 ^ 64]> v in
  <[b := rotr (Z.lxor (at_ v b) (at_ v c)) 63]> v.

(** One round of section 3.2: the columns, then the diagonals. *)
Definition round (m s v : list Z) : list Z :=
  let w k := word m (word s k) in
  let v := G v 0 4 8 12 (w 0) (w 1) in
  let v := G v 1 5 9 13 (w 2) (w 3) in
  let v := G v 2 6 10 14 (w 4) (w 5) in
  let v := G v 3 7 11 15 (w 6) (w 7) in
  let v := G v 0 5 10 15 (w 8) (w 9) in
  let v := G v 1 6 11 12 (w 10) (w 11) in
  let v := G v 2 7 8 13 (w 12) (w 13) in
  G v 3 4 9 14 (w 14) (w 15).

Definition nth_round (m v : list Z) (i : nat) : list Z :=
  round m (default [] (SIGMA !! (i mod 10)%nat)) v.
Definition rounds (m : list Z) (n : nat) (v : list Z) : list Z := foldl (nth_round m) v (seq 0 n).

(** Section 3.2, with the number of rounds and the two words of the offset
    counter as arguments (EIP-152). *)
Definition F (h m : list Z) (t0 t1 : Z) (f : bool) (n : nat) : list Z :=
  let v := h ++ IV in
  let v := <[12%nat := Z.lxor (default 0 (v !! 12%nat)) t0]> v in
  let v := <[13%nat := Z.lxor (default 0 (v !! 13%nat)) t1]> v in
  let v := if f then <[14%nat := Z.lxor (default 0 (v !! 14%nat)) (2 ^ 64 - 1)]> v else v in
  let v := rounds m n v in
  imap (fun i x => Z.lxor (Z.lxor x (default 0 (v !! i))) (default 0 (v !! (i + 8)%nat))) h.
End RFC.

(** ** Equivalence *)

Definition vlist (v : vars) : list Z :=
  [v_0 v; v_1 v; v_2 v; v_3 v; v_4 v; v_5 v; v_6 v; v_7 v;
   v_8 v; v_9 v; v_10 v; v_11 v; v_12 v; v_13 v; v_14 v; v_15 v].

(** The order in which the unrolled round reads a row of the schedule: the
    first message words of four G, then their second ones. *)
Definition unrolled (g : list Z) : list Z :=
  map (word g) [0; 2; 4; 6; 1; 3; 5; 7; 8; 10; 12; 14; 9; 11; 13; 15].

Lemma precomputed_SIGMA i : precomputed !! i = unrolled <$> RFC.SIGMA !! i.
Proof. rewrite <-list_lookup_fmap. f_equal. Qed.

Lemma RotateLeft64_rotr x n : n ∈ [32; 24; 16; 63] -> RotateLeft64 x (- n) = RFC.rotr x n.
Proof.
  unfold RotateLeft64, RFC.rotr, u64. intros Hn. rewrite Z.lor_comm.
  set_unfold in Hn. by destruct Hn as [-> |[-> |[-> |[-> |[]]]]].
Qed.

(** G on four words. *)
Definition mix2 (a b c d x y : Z) : Z * Z * Z * Z :=
  let '(a, b, c, d) := mix a b c d x 32 24 in mix a b c d y 16 63.

Lemma mix_G a b c d x r1 r2 :
  r1 ∈ [32; 24; 16; 63] -> r2 ∈ [32; 24; 16; 63] ->
  mix a b c d x r1 r2 =
  let a := (a + b + x) mod 2 ^ 64 in
  let d := RFC.rotr (Z.lxor d a) r1 in
  let c := (c + d) mod 2 ^ 64 in
  let b := RFC.rotr (Z.lxor b c) r2 in (a, b, c, d).
Proof.
  intros H1 H2. unfold mix. rewrite !RotateLeft64_rotr by done.
  assert (u64 (u64 (a + x) + b) = (a + b + x) mod 2 ^ 64) as ->; [|done].
  unfold u64. rewrite Zplus_mod_idemp_l. f_equal. lia.
Qed.

Section Columns.
Variables v0 v1 v2 v3 v4 v5 v6 v7 v8 v9 v10 v11 v12 v13 v14 v15 x y : Z.
Abbreviation v := [v0; v1; v2; v3; v4; v5; v6; v7; v8; v9; v10; v11; v12; v13; v14; v15].

Ltac column := unfold mix2; rewrite mix_G by set_solver; cbv zeta iota; rewrite mix_G by set_solver; reflexivity.

Lemma G_0 : RFC.G v 0 4 8 12 x y = let '(a, b, c, d) := mix2 v0 v4 v8 v12 x y in
  [a; v1; v2; v3; b; v5; v6; v7; c; v9; v10; v11; d; v13; v14; v15].
Proof. column. Qed.
Lemma G_1 : RFC.G v 1 5 9 13 x y = let '(a, b, c, d) := mix2 v1 v5 v9 v13 x y in
  [v0; a; v2; v3; v4; b; v6; v7; v8; c; v10; v11; v12; d; v14; v15].
Proof. column. Qed.
Lemma G_2 : RFC.G v 2 6 10 14 x y = let '(a, b, c, d) := mix2 v2 v6 v10 v14 x y in
  [v0; v1; a; v3; v4; v5; b; v7; v8; v9; c; v11; v12; v13; d; v15].
Proof. column. Qed.
Lemma G_3 : RFC.G v 3 7 11 15 x y = let '(a, b, c, d) := mix2 v3 v7 v11 v15 x y in
  [v0; v1; v2; a; v4; v5; v6; b; v8; v9; v10; c; v12; v13; v14; d].
Proof. column. Qed.
Lemma G_4 : RFC.G v 0 5 10 15 x y = let '(a, b, c, d) := mix2 v0 v5 v10 v15 x y in
  [a; v1; v2; v3; v4; b; v6; v7; v8; v9; c; v11; v12; v13; v14; d].
Proof. column. Qed.
Lemma G_5 : RFC.G v 1 6 11 12 x y = let '(a, b, c, d) := mix2 v1 v6 v11 v12 x y in
  [v0; a; v2; v3; v4; v5; b; v7; v8; v9; v10; c; d; v13; v14; v15].
Proof. column. Qed.
Lemma G_6 : RFC.G v 2 7 8 13 x y = let '(a, b, c, d) := mix2 v2 v7 v8 v13 x y in
  [v0; v1; a; v3; v4; v5; v6; b; c; v9; v10; v11; v12; d; v14; v15].
Proof. column. Qed.
Lemma G_7 : RFC.G v 3 4 9 14 x y = let '(a, b, c, d) := mix2 v3 v4 v9 v14 x y in
  [v0; v1; v2; a; b; v5; v6; v7; v8; c; v10; v11; v12; v13; d; v15].
Proof. column. Qed.
End Columns.

(** Evaluates the mixing steps of the unrolled round in their order. *)
Ltac unroll := repeat match goal with |- context [mix ?a ?b ?c ?d ?x ?r ?q] =>
  let E := fresh "E" in destruct (mix a b c d x r q) as [[[? ?] ?] ?] eqn:E end.

Ltac same_mix := unfold mix2; repeat match goal with E : mix _ _ _ _ _ _ _ = _ |- _ => rewrite E; clear E end.

Lemma round_RFC m g v : vlist (round m (unrolled g) v) = RFC.round m g (vlist v).
Proof.
  destruct v as [v0 v1 v2 v3 v4 v5 v6 v7 v8 v9 v10 v11 v12 v13 v14 v15].
  unfold RFC.round, vlist at 2. cbn [v_0 v_1 v_2 v_3 v_4 v_5 v_6 v_7 v_8 v_9 v_10 v_11 v_12 v_13 v_14 v_15].
  change (word g 0) with (word (unrolled g) 0). change (word g 1) with (word (unrolled g) 4).
  change (word g 2) with (word (unrolled g) 1). change (word g 3) with (word (unrolled g) 5).
  change (word g 4) with (word (unrolled g) 2). change (word g 5) with (word (unrolled g) 6).
  change (word g 6) with (word (unrolled g) 3). change (word g 7) with (word (unrolled g) 7).
  change (word g 8) with (word (unrolled g) 8). change (word g 9) with (word (unrolled g) 12).
  change (word g 10) with (word (unrolled g) 9). change (word g 11) with (word (unrolled g) 13).
  change (word g 12) with (word (unrolled g) 10). change (word g 13) with (word (unrolled g) 14).
  change (word g 14) with (word (unrolled g) 11). change (word g 15) with (word (unrolled g) 15).
  unfold round. unroll.
  rewrite G_0. same_mix. rewrite G_1. same_mix. rewrite G_2. same_mix. rewrite G_3. same_mix.
  rewrite G_4. same_mix. rewrite G_5. same_mix. rewrite G_6. same_mix. rewrite G_7. same_mix. done.
Qed.

Lemma schedule_RFC i :
  default [] (precomputed !! (i mod 10)%nat) = unrolled (default [] (RFC.SIGMA !! (i mod 10)%nat)).
Proof.
  rewrite precomputed_SIGMA. destruct (RFC.SIGMA !! _) eqn:E; [done|].
  apply lookup_ge_None_1 in E. change (length RFC.SIGMA) with 10%nat in E.
  pose proof (Nat.mod_upper_bound i 10). lia.
Qed.

Lemma foldl_commute {A B C} (f : A -> C -> A) (g : B -> C -> B) (h : A -> B) l a :
  (forall a c, h (f a c) = g (h a) c) -> h (foldl f a l) = foldl g (h a) l.
Proof. intros Hf. revert a. induction l as [|c l IH]; intros a; simpl; [done|]. by rewrite IH, Hf. Qed.

Lemma rounds_RFC m n v : vlist (rounds_loop m n v) = RFC.rounds m n (vlist v).
Proof.
  apply foldl_commute. intros u i. unfold loop_body, RFC.nth_round. by rewrite schedule_RFC, round_RFC.
Qed.

Lemma iv_RFC : RFC.IV = iv.
Proof. vm_compute. reflexivity. Qed.

(** C36: the unrolled compression function with its precomputed schedule
    computes the BLAKE2b compression function of RFC 7693, for every state,
    message block, counter, flag and number of rounds. *)
Theorem F_RFC7693 h m c final rounds :
  length h = 8%nat ->
  F h m c final rounds = RFC.F h m (word c 0) (word c 1) final (Z.to_nat rounds).
Proof.
  intros Hh. do 9 (destruct h as [|? h]; try done). unfold F, fGeneric, RFC.F. rewrite iv_RFC.
  set (v := mkVars _ _ _ _ _ _ _ _ _ _ _ _ _ _ _ _).
  set (vr := if final then _ else _).
  replace vr with (vlist v) by (by destruct final; unfold vr; rewrite ?Z.lxor_0_r).
  rewrite <-rounds_RFC. generalize (rounds_loop m (Z.to_nat rounds) v). intros u. clear.
  by rewrite <-!Z.lxor_assoc.
Qed.

(** The example of the RFC, hashing "abc". *)
Lemma F_RFC7693_witness :
  let h := 0x6a09e667f2bdc948 :: tail RFC.IV in
  F h (0x636261 :: replicate 15 0) [3; 0] true 12 = RFC.F h (0x636261 :: replicate 15 0) 3 0 true 12 /\
  F h (0x636261 :: replicate 15 0) [3; 0] true 12 =
    [0x0D4D1C983FA580BA; 0xE9F6129FB697276A; 0xB7C45A68142F214C; 0xD1A2FFDB6FBB124B;
     0x2D79AB2A39C5877D; 0x95CC3345DED552C2; 0x5A92F1DBA88AD318; 0x239900D4ED8623B9].
Proof.
  split; [|vm_compute; reflexivity].
  apply (F_RFC7693 (0x6a09e667f2bdc948 :: tail RFC.IV) (0x636261 :: replicate 15 0) [3; 0] true 12). reflexivity.
Defined.
