(* ===== verification/VmBase.v ===== *)
(** * core/vm: stack, memory, data slices and jump-destination analysis
    Models core/vm/stack.go, memory.go, common.go, memory_table.go, gas.go,
    analysis.go and errors.go.  A Go panic is an explicit outcome. *)

From S2P Require Import Prelude MathUtil.

(** ** Errors (errors.go, instructions.go, jump_table.go, interpreter.go) *)

Inductive vmError :=
  | ErrOutOfGas
  | ErrCodeStoreOutOfGas
  | ErrDepth
  | ErrInsufficientBalance
  | ErrContractAddressCollision
  | ErrNoCompatibleInterpreter
  | errGasUintOverflow
  | errWriteProtection
  | errReturnDataOutOfBounds
  | errExecutionReverted
  | errMaxCodeSizeExceeded
  | errInvalidJump
  | errReentrancySentry            (** "not enough gas for reentrancy sentry" *)
  | errInvalidOpcode (op : Z)
  | errStackUnderflow (sLen min : Z)
  | errStackLimit (sLen max : Z)
  | errPrecompile (code : Z).      (** an error returned by a native contract *)

#[export] Instance vmError_eq_dec : EqDecision vmError.
Proof. solve_decision. Defined.

(** ** Stack (stack.go)
    [st.data] is modelled with its last element, the top, at the head. *)

Module Stack.
Abbreviation t := (list Z).

Definition newstack : t := [].

Definition push (st : t) (d : Z) : t := d :: st.

Definition pop (st : t) : outcome (Z * t) :=
  match st with
  | [] => Panic IndexOutOfRange
  | d :: st => Done (d, st)
  end.

Definition len (st : t) : Z := zlen st.

(** [peek] followed by a store through the returned pointer. *)
Definition peek (st : t) : outcome Z :=
  match st with [] => Panic IndexOutOfRange | d :: _ => Done d end.

Definition poke (st : t) (d : Z) : t :=
  match st with [] => [] | _ :: st => d :: st end.

Definition swap (st : t) (n : nat) : outcome t :=
  let! x := or_panic IndexOutOfRange (st !! (n - 1)%nat) in
  let! y := or_panic IndexOutOfRange (st !! 0%nat) in
  Done (<[(n - 1)%nat := y]> (<[0%nat := x]> st)).

Definition dup (st : t) (n : nat) : outcome t :=
  let! x := or_panic IndexOutOfRange (st !! (n - 1)%nat) in
  Done (push st x).

Definition Back (st : t) (n : nat) : outcome Z := or_panic IndexOutOfRange (st !! n).

End Stack.

(** ** Memory (memory.go) *)

Module Memory.
(** [cap] is the capacity of the array behind [store]: it decides whether
    [Resize] extends that array in place or moves the memory to a new one. *)
Record t := mk { store : bytes; cap : Z; lastGasCost : Z }.

Definition NewMemory : t := mk [] 0 0.

Definition with_store (m : t) (s : bytes) : t := mk s (cap m) (lastGasCost m).

Definition Len (m : t) : Z := zlen (store m).

(** The bounds check is made on the wrapped sum, as in the source; the slice
    expression [m.store[offset:offset+size]] then has its own check. *)
Definition Set_ (m : t) (offset size : Z) (value : bytes) : outcome t :=
  if 0 <? size then
    let hi := u64 (offset + size) in
    if Len m <? hi then Panic InvalidMemory
    else if hi <? offset then Panic IndexOutOfRange
    else Done (with_store m (blit (Z.to_nat offset) (take (Z.to_nat (hi - offset)) value) (store m)))
  else Done m.

Definition Set32 (m : t) (offset val : Z) : outcome t :=
  let hi := u64 (offset + 32) in
  if Len m <? hi then Panic InvalidMemory
  else if hi <? offset then Panic IndexOutOfRange
  else
    let zeroed := blit (Z.to_nat offset) (replicate 32 Byte.x00) (store m) in
    let window := take 32 (drop (Z.to_nat offset) zeroed) in
    Done (with_store m (blit (Z.to_nat offset) (ReadBits val window) zeroed)).

(** [append(m.store, make([]byte, n)...)]; [growslice] is the runtime's choice
    of the capacity of a new array. *)
Definition reallocates (m : t) (size : Z) : bool := (Len m <? size) && (cap m <? size).

Definition Resize (growslice : Z -> Z -> Z) (m : t) (size : Z) : t :=
  if Len m <? size
  then mk (store m ++ replicate (Z.to_nat (size - Len m)) Byte.x00)
          (if cap m <? size then growslice (cap m) size else cap m) (lastGasCost m)
  else m.

(** The bytes of the slice.  A nil slice is the empty list. *)
Definition GetPtr (m : t) (offset size : Z) : outcome bytes :=
  if size =? 0 then Done []
  else if offset <? Len m
  then or_panic IndexOutOfRange (slice (store m) offset (offset + size))
  else Done [].

(** The region of the memory that the slice returned by [GetPtr] is backed by;
    [None] for a nil slice. *)
Definition GetPtr_region (m : t) (offset size : Z) : option (Z * Z) :=
  if size =? 0 then None
  else if offset <? Len m then Some (offset, size) else None.

Definition GetCopy (m : t) (offset size : Z) : outcome bytes :=
  if size =? 0 then Done []
  else if offset <? Len m
  then
    if size <? 0 then Panic IndexOutOfRange
    else or_panic IndexOutOfRange (slice (store m) offset (offset + size))
  else Done [].

(** [memory.store[off] = b] (opMstore8). *)
Definition store8 (m : t) (off : Z) (b : byte) : outcome t :=
  if (0 <=? off) && (off <? Len m)
  then Done (with_store m (<[Z.to_nat off := b]> (store m)))
  else Panic IndexOutOfRange.

End Memory.

(** ** Sizes and data slices (common.go) *)

Definition calcMemSize64WithUint (off length64 : Z) : Z * bool :=
  if length64 =? 0 then (0, false)
  else if negb (IsUint64 off) then (0, true)
  else
    let offset64 := Uint64 off in
    let val := u64 (offset64 + length64) in
    (val, val <? offset64).

Definition calcMemSize64 (off l : Z) : Z * bool :=
  if negb (IsUint64 l) then (0, true) else calcMemSize64WithUint off (Uint64 l).

Definition getData (data : bytes) (start size : Z) : outcome bytes :=
  let length := zlen data in
  let start := if length <? start then length else start in
  let end_ := u64 (start + size) in
  let end_ := if length <? end_ then length else end_ in
  let! s := or_panic IndexOutOfRange (slice data start end_) in
  Done (RightPadBytes s (Int64 size)).

Definition getDataBig (data : bytes) (start size : Z) : outcome bytes :=
  let dlen := zlen data in
  let s := BigMin start dlen in
  let e := BigMin (s + size) dlen in
  let! d := or_panic IndexOutOfRange (slice data (Uint64 s) (Uint64 e)) in
  Done (RightPadBytes d (Int64 size)).

Definition bigUint64 (v : Z) : Z * bool := (Uint64 v, negb (IsUint64 v)).

Definition toWordSize (size : Z) : Z :=
  if MaxUint64 - 31 <? size then MaxUint64 / 32 + 1 else u64 (size + 31) / 32.

Definition allZero (b : bytes) : bool := forallb (fun x => bool_decide (x = Byte.x00)) b.

(** ** Memory sizes of the instructions (memory_table.go) *)

Definition memory2 (i j : nat) (stack : Stack.t) : outcome (Z * bool) :=
  let! off := Stack.Back stack i in
  let! l := Stack.Back stack j in
  Done (calcMemSize64 off l).

Definition memorySha3 := memory2 0 1.
Definition memoryCallDataCopy := memory2 0 2.
Definition memoryReturnDataCopy := memory2 0 2.
Definition memoryCodeCopy := memory2 0 2.
Definition memoryExtCodeCopy := memory2 1 3.
Definition memoryCreate := memory2 1 2.
Definition memoryCreate2 := memory2 1 2.
Definition memoryReturn := memory2 0 1.
Definition memoryRevert := memory2 0 1.
Definition memoryLog := memory2 0 1.

Definition memoryMLoad (stack : Stack.t) : outcome (Z * bool) :=
  let! off := Stack.Back stack 0 in Done (calcMemSize64WithUint off 32).
Definition memoryMStore8 (stack : Stack.t) : outcome (Z * bool) :=
  let! off := Stack.Back stack 0 in Done (calcMemSize64WithUint off 1).
Definition memoryMStore (stack : Stack.t) : outcome (Z * bool) :=
  let! off := Stack.Back stack 0 in Done (calcMemSize64WithUint off 32).

(** Two regions: the return area at [i, i+1] and the arguments at [j, j+1]. *)
Definition memory_two_regions (i j : nat) (stack : Stack.t) : outcome (Z * bool) :=
  let! '(x, overflow) := memory2 i (S i) stack in
  if overflow then Done (0, true)
  else
    let! '(y, overflow) := memory2 j (S j) stack in
    if overflow then Done (0, true)
    else if y <? x then Done (x, false) else Done (y, false).

Definition memoryCall := memory_two_regions 5 3.
Definition memoryDelegateCall := memory_two_regions 4 2.
Definition memoryStaticCall := memory_two_regions 4 2.

(** ** Gas forwarded to a call (gas.go) *)

Definition GasQuickStep : Z := 2.
Definition GasFastestStep : Z := 3.
Definition GasFastStep : Z := 5.
Definition GasMidStep : Z := 8.
Definition GasSlowStep : Z := 10.
Definition GasExtStep : Z := 20.

Definition callGas (isEip150 : bool) (availableGas base callCost : Z) : Z * option vmError :=
  let tail := if negb (IsUint64 callCost) then (0, Some errGasUintOverflow)
              else (Uint64 callCost, None) in
  if isEip150 then
    let availableGas := u64 (availableGas - base) in
    let gas := u64 (availableGas - availableGas / 64) in
    if negb (IsUint64 callCost) || (gas <? Uint64 callCost) then (gas, None) else tail
  else tail.

(** ** Jump-destination analysis (analysis.go) *)

Module Analysis.
Abbreviation bitvec := bytes.

(** [bits[i] |= mask]. *)
Definition or_at (bits : bitvec) (i mask : Z) : outcome bitvec :=
  let! b := or_panic IndexOutOfRange (bits !! Z.to_nat i) in
  Done (<[Z.to_nat i := byte_of_Z (Z.lor (Z_of_byte b) mask)]> bits).

Definition set (bits : bitvec) (pos : Z) : outcome bitvec :=
  or_at bits (pos / 8) (Z.shiftr 0x80 (pos mod 8)).

Definition set8 (bits : bitvec) (pos : Z) : outcome bitvec :=
  let! bits := or_at bits (pos / 8) (Z.shiftr 0xFF (pos mod 8)) in
  or_at bits (pos / 8 + 1) (Z.lxor 0xFF (Z.shiftr 0xFF (pos mod 8))).

Definition codeSegment (bits : bitvec) (pos : Z) : outcome bool :=
  let! b := or_panic IndexOutOfRange (bits !! Z.to_nat (pos / 8)) in
  Done (Z.land (Z_of_byte b) (Z.shiftr 0x80 (pos mod 8)) =? 0).

Definition PUSH1 : Z := 0x60.

Definition PUSH32 : Z := 0x7f.

Definition JUMPDEST : Z := 0x5b.

(** [for ; numbits >= 8; numbits -= 8] then [for ; numbits > 0; numbits--];
    at most 4 rounds of the first and 7 of the second are needed. *)
Fixpoint set8_loop (n : nat) (bits : bitvec) (pc numbits : Z) : outcome (bitvec * Z * Z) :=
  match n with
  | O => Done (bits, pc, numbits)
  | S n =>
      if 8 <=? numbits then
        let! bits := set8 bits pc in set8_loop n bits (pc + 8) (numbits - 8)
      else Done (bits, pc, numbits)
  end.

Fixpoint set_loop (n : nat) (bits : bitvec) (pc numbits : Z) : outcome (bitvec * Z) :=
  match n with
  | O => Done (bits, pc)
  | S n =>
      if 0 <? numbits then
        let! bits := set bits pc in set_loop n bits (pc + 1) (numbits - 1)
      else Done (bits, pc)
  end.

Fixpoint codeBitmap_loop (n : nat) (code : bytes) (bits : bitvec) (pc : Z) : outcome bitvec :=
  match n with
  | O => Done bits
  | S n =>
      match code !! Z.to_nat pc with
      | None => Done bits
      | Some op =>
          let op := Z_of_byte op in
          if (PUSH1 <=? op) && (op <=? PUSH32) then
            let numbits := op - PUSH1 + 1 in
            let! '(bits, pc, numbits) := set8_loop 4 bits (pc + 1) numbits in
            let! '(bits, pc) := set_loop 7 bits pc numbits in
            codeBitmap_loop n code bits pc
          else codeBitmap_loop n code bits (pc + 1)
      end
  end.

(** Every round advances [pc], so [len(code)] rounds are enough. *)
Definition codeBitmap (code : bytes) : outcome bitvec :=
  codeBitmap_loop (length code) code
    (replicate (length code / 8 + 1 + 4) Byte.x00) 0.

End Analysis.
