(* ===== verification/VmEnv.v ===== *)
(** * core/vm: the environment of an execution
    The [vm.StateDB] interface (core/vm/interface.go) as a class, the chain
    rules, block context, contract object (core/vm/contract.go), and the value
    transfer functions the node installs (core/evm.go).  Gas prices are those
    of params/protocol_params.go. *)

From S2P Require Import Prelude MathUtil VmBase.

(** ** params/protocol_params.go, params/plasma_params.go *)

Module Params.
Definition CallValueTransferGas : Z := 9000.
Definition CallNewAccountGas : Z := 25000.
Definition TxGas : Z := 21000.
Definition TxGasContractCreation : Z := 53000.
Definition TxDataZeroGas : Z := 4.
Definition QuadCoeffDiv : Z := 512.
Definition LogDataGas : Z := 8.
Definition CallStipend : Z := 2300.
Definition Sha3Gas : Z := 30.
Definition Sha3WordGas : Z := 6.
Definition SstoreSetGas : Z := 20000.
Definition SstoreResetGas : Z := 5000.
Definition SstoreClearGas : Z := 5000.
Definition SstoreRefundGas : Z := 15000.
Definition NetSstoreNoopGas : Z := 200.
Definition NetSstoreInitGas : Z := 20000.
Definition NetSstoreCleanGas : Z := 5000.
Definition NetSstoreDirtyGas : Z := 200.
Definition NetSstoreClearRefund : Z := 15000.
Definition NetSstoreResetRefund : Z := 4800.
Definition NetSstoreResetClearRefund : Z := 19800.
Definition SstoreSentryGasEIP2200 : Z := 2300.
Definition SstoreNoopGasEIP2200 : Z := 800.
Definition SstoreDirtyGasEIP2200 : Z := 800.
Definition SstoreInitGasEIP2200 : Z := 20000.
Definition SstoreInitRefundEIP2200 : Z := 19200.
Definition SstoreCleanGasEIP2200 : Z := 5000.
Definition SstoreCleanRefundEIP2200 : Z := 4200.
Definition SstoreClearRefundEIP2200 : Z := 15000.
Definition JumpdestGas : Z := 1.
Definition CreateDataGas : Z := 200.
Definition CallCreateDepth : Z := 1024.
Definition ExpGas : Z := 10.
Definition LogGas : Z := 375.
Definition CopyGas : Z := 3.
Definition StackLimit : Z := 1024.
Definition LogTopicGas : Z := 375.
Definition CreateGas : Z := 32000.
Definition Create2Gas : Z := 32000.
Definition SelfdestructRefundGas : Z := 24000.
Definition MemoryGas : Z := 3.
Definition TxDataNonZeroGasFrontier : Z := 68.
Definition TxDataNonZeroGasEIP2028 : Z := 16.
Definition CallGasFrontier : Z := 40.
Definition CallGasEIP150 : Z := 700.
Definition BalanceGasFrontier : Z := 20.
Definition BalanceGasEIP150 : Z := 400.
Definition BalanceGasEIP1884 : Z := 700.
Definition ExtcodeSizeGasFrontier : Z := 20.
Definition ExtcodeSizeGasEIP150 : Z := 700.
Definition SloadGasFrontier : Z := 50.
Definition SloadGasEIP150 : Z := 200.
Definition SloadGasEIP1884 : Z := 800.
Definition ExtcodeHashGasConstantinople : Z := 400.
Definition ExtcodeHashGasEIP1884 : Z := 700.
Definition SelfdestructGasEIP150 : Z := 5000.
Definition ExpByteFrontier : Z := 10.
Definition ExpByteEIP158 : Z := 50.
Definition ExtcodeCopyBaseFrontier : Z := 20.
Definition ExtcodeCopyBaseEIP150 : Z := 700.
Definition CreateBySelfdestructGas : Z := 25000.
Definition MaxCodeSize : Z := 24576.
Definition EcrecoverGas : Z := 3000.
Definition Sha256BaseGas : Z := 60.
Definition Sha256PerWordGas : Z := 12.
Definition Ripemd160BaseGas : Z := 600.
Definition Ripemd160PerWordGas : Z := 120.
Definition IdentityBaseGas : Z := 15.
Definition IdentityPerWordGas : Z := 3.
Definition ModExpQuadCoeffDiv : Z := 20.
Definition Bn256AddGasByzantium : Z := 500.
Definition Bn256AddGasIstanbul : Z := 150.
Definition Bn256ScalarMulGasByzantium : Z := 40000.
Definition Bn256ScalarMulGasIstanbul : Z := 6000.
Definition Bn256PairingBaseGasByzantium : Z := 100000.
Definition Bn256PairingBaseGasIstanbul : Z := 45000.
Definition Bn256PairingPerPointGasByzantium : Z := 80000.
Definition Bn256PairingPerPointGasIstanbul : Z := 34000.
Definition NullAddress : Address := 0.
Definition StaminaAddress : Address := 0xdead.
End Params.

(** ** params.Rules (params/config.go) *)

Record Rules := mkRules {
  ChainID : Z;
  IsHomestead : bool;
  IsEIP150 : bool;
  IsEIP155 : bool;
  IsEIP158 : bool;
  IsByzantium : bool;
  IsConstantinople : bool;
  IsPetersburg : bool;
  IsIstanbul : bool }.

(** ** types.Log (core/types/log.go), without the [Removed] flag of the filters *)

Record Log := mkLog {
  log_Address : Address;
  log_Topics : list Hash;
  log_Data : bytes;
  log_BlockNumber : Z;
  log_TxHash : Hash;
  log_TxIndex : Z;
  log_BlockHash : Hash;
  log_Index : Z }.

(** ** The state interface (core/vm/interface.go)
    Getters do not change what any getter returns (the implementation only
    fills its caches), so they return no new state.  [ForEachStorage] is not
    used by the interpreter. *)

Class vmStateDB (S : Type) := {
  CreateAccount : S -> Address -> S;
  SubBalance : S -> Address -> Z -> S;
  AddBalance : S -> Address -> Z -> S;
  GetBalance : S -> Address -> Z;
  GetNonce : S -> Address -> Z;
  SetNonce : S -> Address -> Z -> S;
  GetCodeHash : S -> Address -> Hash;
  GetCode : S -> Address -> bytes;
  SetCode : S -> Address -> bytes -> S;
  GetCodeSize : S -> Address -> Z;
  AddRefund : S -> Z -> S;
  SubRefund : S -> Z -> outcome S;
  GetRefund : S -> Z;
  GetCommittedState : S -> Address -> Hash -> Hash;
  GetState : S -> Address -> Hash -> Hash;
  SetState : S -> Address -> Hash -> Hash -> S;
  Suicide : S -> Address -> S * bool;
  HasSuicided : S -> Address -> bool;
  Exist : S -> Address -> bool;
  Empty : S -> Address -> bool;
  RevertToSnapshot : S -> Z -> outcome S;
  Snapshot : S -> S * Z;
  AddLog : S -> Log -> S;
  AddPreimage : S -> Hash -> bytes -> S }.

(** ** Contracts (contract.go) *)

(** What a callee can read of its caller: a [*Contract] gives its address and,
    for delegate calls, its own caller and value; an [AccountRef] its address. *)
Inductive ContractRef :=
  | AccountRef (a : Address)
  | ContractPtr (self callerAddress : Address) (value : Z).

Definition ref_Address (r : ContractRef) : Address :=
  match r with AccountRef a => a | ContractPtr a _ _ => a end.

(** [jumpdests], the analysis map a contract shares with its ancestors by
    reference, is a field of the [EVM] record below: a call from an [AccountRef]
    starts a fresh map, a call from a contract uses the current one. *)
Record Contract := mkContract {
  CallerAddress : Address;
  caller : ContractRef;
  self : Address;
  analysis : option Analysis.bitvec;
  Code : bytes;
  CodeHash : Hash;
  CodeAddr : option Address;
  Input : bytes;
  Gas : Z;
  value : Z }.

Definition set_Gas (c : Contract) (g : Z) : Contract :=
  mkContract (CallerAddress c) (caller c) (self c) (analysis c) (Code c) (CodeHash c)
    (CodeAddr c) (Input c) g (value c).
Definition set_Input (c : Contract) (i : bytes) : Contract :=
  mkContract (CallerAddress c) (caller c) (self c) (analysis c) (Code c) (CodeHash c)
    (CodeAddr c) i (Gas c) (value c).
Definition set_analysis (c : Contract) (b : Analysis.bitvec) : Contract :=
  mkContract (CallerAddress c) (caller c) (self c) (Some b) (Code c) (CodeHash c)
    (CodeAddr c) (Input c) (Gas c) (value c).

Definition contract_ref (c : Contract) : ContractRef :=
  ContractPtr (self c) (CallerAddress c) (value c).

Definition NewContract (caller : ContractRef) (object : Address) (value gas : Z) : Contract :=
  mkContract (ref_Address caller) caller object None [] 0 None [] gas value.

Definition AsDelegate (c : Contract) : outcome Contract :=
  match caller c with
  | AccountRef _ => Panic BadTypeAssertion
  | ContractPtr _ parentCaller parentValue =>
      Done (mkContract parentCaller (caller c) (self c) (analysis c) (Code c) (CodeHash c)
              (CodeAddr c) (Input c) (Gas c) parentValue)
  end.

Definition SetCallCode (c : Contract) (addr : option Address) (hash : Hash) (code : bytes) : Contract :=
  mkContract (CallerAddress c) (caller c) (self c) (analysis c) code hash addr
    (Input c) (Gas c) (value c).

Definition GetByte (c : Contract) (n : Z) : Z :=
  match Code c !! Z.to_nat n with Some b => Z_of_byte b | None => 0 end.

Definition GetOp (c : Contract) (n : Z) : Z := GetByte c n.

Definition UseGas (c : Contract) (gas : Z) : Contract * bool :=
  if Gas c <? gas then (c, false) else (set_Gas c (Gas c - gas), true).

(** ** Native contracts (contracts.go)
    A native contract is its gas function and its result.  [returnsInput] says
    that the slice it returns is its argument itself ([dataCopy]), not a fresh
    one. *)

Record PrecompiledContract := mkPrecompiled {
  RequiredGas : bytes -> outcome Z;
  RunPrecompile : bytes -> outcome (bytes * option vmError);
  returnsInput : bool }.

(** A returned slice: its bytes, and whether it is the input slice. *)
Record Ret := mkRet { ret_bytes : bytes; ret_isInput : bool }.
Definition fresh (b : bytes) : Ret := mkRet b false.

Definition RunPrecompiledContract (p : PrecompiledContract) (input : bytes) (c : Contract)
  : outcome (Contract * Ret * option vmError) :=
  let! gas := RequiredGas p input in
  match UseGas c gas with
  | (c, true) =>
      let! '(b, err) := RunPrecompile p input in Done (c, mkRet b (returnsInput p), err)
  | (c, false) => Done (c, fresh [], Some ErrOutOfGas)
  end.

(** ** Block and transaction context (evm.go: Context, Config) *)

Record Context := mkContext {
  GetHash : Z -> Hash;
  Origin : Address;
  GasPrice : Z;
  Coinbase : Address;
  GasLimit : Z;
  BlockNumber : Z;
  Time : Z;
  Difficulty : Z }.

Record Config := mkConfig {
  NoRecursion : bool;
  EnablePreimageRecording : bool }.

(** Everything an execution reads but never changes. *)
Record Env := mkEnv {
  ctx : Context;
  chainRules : Rules;
  vmConfig : Config;
  keccak256 : bytes -> Hash;
  (** the Go runtime's capacity of the array a growing slice moves to *)
  growslice : Z -> Z -> Z;
  precompilesHomestead : gmap Address PrecompiledContract;
  precompilesByzantium : gmap Address PrecompiledContract;
  precompilesIstanbul : gmap Address PrecompiledContract;
  (** crypto.CreateAddress and crypto.CreateAddress2 *)
  createAddress : Address -> Z -> Address;
  createAddress2 : Address -> Hash -> Hash -> Address }.

(** The selection [Homestead], then [Byzantium], then [Istanbul] that [run]
    and [Call] both make. *)
Definition precompiles (env : Env) : gmap Address PrecompiledContract :=
  let p := precompilesHomestead env in
  let p := if IsByzantium (chainRules env) then precompilesByzantium env else p in
  if IsIstanbul (chainRules env) then precompilesIstanbul env else p.

(** ** Value transfer (core/evm.go)
    The null address, which sends the request transactions of a plasma block,
    is allowed to transfer any amount and is not debited. *)

Section Transfer.
Context {S : Type} `{vmStateDB S}.
Definition CanTransfer (db : S) (addr : Address) (amount : Z) : bool :=
  (addr =? Params.NullAddress) || (amount <=? GetBalance db addr).
Definition Transfer (db : S) (sender recipient : Address) (amount : Z) : S :=
  let db := if negb (sender =? Params.NullAddress) then SubBalance db sender amount else db in
  AddBalance db recipient amount.
End Transfer.

(** ** Machine state *)

(** [EVMInterpreter.returnData]: a slice of its own, or one that is backed by
    the memory of the running frame (a region of its current array). *)
Inductive retData :=
  | RVal (b : bytes)
  | RMem (off size : Z).

(** The bytes the slice shows now. *)
Definition rdBytes (m : Memory.t) (r : retData) : bytes :=
  match r with
  | RVal b => b
  | RMem off size => take (Z.to_nat size) (drop (Z.to_nat off) (Memory.store m))
  end.

Definition rdLen (r : retData) : Z :=
  match r with RVal b => zlen b | RMem _ size => size end.

(** The mutable part of [EVM] and [EVMInterpreter]. *)
Record EVM (S : Type) := mkEVM {
  StateDB : S;
  depth : Z;
  callGasTemp : Z;
  readOnly : bool;
  returnData : retData;
  jumpdests : gmap Hash Analysis.bitvec }.
Arguments mkEVM {S}.
Arguments StateDB {S}.
Arguments depth {S}.
Arguments callGasTemp {S}.
Arguments readOnly {S}.
Arguments returnData {S}.
Arguments jumpdests {S}.

Section Setters.
Context {S : Type}.
Implicit Types e : EVM S.
Definition set_StateDB e (s : S) : EVM S :=
  mkEVM s (depth e) (callGasTemp e) (readOnly e) (returnData e) (jumpdests e).
Definition set_depth e d : EVM S :=
  mkEVM (StateDB e) d (callGasTemp e) (readOnly e) (returnData e) (jumpdests e).
Definition set_callGasTemp e g : EVM S :=
  mkEVM (StateDB e) (depth e) g (readOnly e) (returnData e) (jumpdests e).
Definition set_readOnly e b : EVM S :=
  mkEVM (StateDB e) (depth e) (callGasTemp e) b (returnData e) (jumpdests e).
Definition set_returnData e r : EVM S :=
  mkEVM (StateDB e) (depth e) (callGasTemp e) (readOnly e) r (jumpdests e).
Definition set_jumpdests e j : EVM S :=
  mkEVM (StateDB e) (depth e) (callGasTemp e) (readOnly e) (returnData e) j.
End Setters.

(** The variables of [EVMInterpreter.Run]. *)
Record Frame (S : Type) := mkFrame {
  pc : Z;
  evm : EVM S;
  contract : Contract;
  memory : Memory.t;
  stack : Stack.t }.
Arguments mkFrame {S}.
Arguments pc {S}.
Arguments evm {S}.
Arguments contract {S}.
Arguments memory {S}.
Arguments stack {S}.

Section FrameSetters.
Context {S : Type}.
Implicit Types f : Frame S.
Definition with_pc f (p : Z) : Frame S := mkFrame p (evm f) (contract f) (memory f) (stack f).
Definition with_evm f (e : EVM S) : Frame S := mkFrame (pc f) e (contract f) (memory f) (stack f).
Definition with_contract f (c : Contract) : Frame S := mkFrame (pc f) (evm f) c (memory f) (stack f).
Definition with_memory f (m : Memory.t) : Frame S := mkFrame (pc f) (evm f) (contract f) m (stack f).
Definition with_stack f (s : Stack.t) : Frame S := mkFrame (pc f) (evm f) (contract f) (memory f) s.
Definition db f : S := StateDB (evm f).
Definition with_db f (s : S) : Frame S := with_evm f (set_StateDB (evm f) s).
End FrameSetters.

(** [validJumpdest] may extend the shared or the local analysis cache. *)
Definition validJumpdest {S} (e : EVM S) (c : Contract) (dest : Z)
  : outcome (EVM S * Contract * bool) :=
  let udest := Uint64 dest in
  if (63 <=? BitLen dest) || (zlen (Code c) <=? udest) then Done (e, c, false)
  else if negb (GetByte c udest =? Analysis.JUMPDEST) then Done (e, c, false)
  else if negb (CodeHash c =? 0) then
    match jumpdests e !! CodeHash c with
    | Some a =>
        let! ok := Analysis.codeSegment a udest in Done (e, c, ok)
    | None =>
        let! a := Analysis.codeBitmap (Code c) in
        let e := set_jumpdests e (<[CodeHash c := a]> (jumpdests e)) in
        let! ok := Analysis.codeSegment a udest in Done (e, c, ok)
    end
  else
    match analysis c with
    | Some a => let! ok := Analysis.codeSegment a udest in Done (e, c, ok)
    | None =>
        let! a := Analysis.codeBitmap (Code c) in
        let! ok := Analysis.codeSegment a udest in Done (e, set_analysis c a, ok)
    end.
