(* ===== verification/VmGas.v ===== *)
(** * core/vm: dynamic gas (gas_table.go)
    A gas function reads the machine and may write the last gas cost of the
    memory, [callGasTemp] and the refund counter, so it is a computation in a
    state and error monad over the EVM and the memory. *)

From S2P Require Import Prelude MathUtil VmBase VmEnv.

(** [memoryGasCost]; the memory is returned with its new [lastGasCost]. *)
Definition memoryGasCost (mem : Memory.t) (newMemSize : Z) : Memory.t * (Z + vmError) :=
  if newMemSize =? 0 then (mem, inl 0)
  else if 0x1FFFFFFFE0 <? newMemSize then (mem, inr errGasUintOverflow)
  else
    let newMemSizeWords := toWordSize newMemSize in
    let newMemSize := u64 (newMemSizeWords * 32) in
    if Memory.Len mem <? newMemSize then
      let square := u64 (newMemSizeWords * newMemSizeWords) in
      let linCoef := u64 (newMemSizeWords * Params.MemoryGas) in
      let quadCoef := square / Params.QuadCoeffDiv in
      let newTotalFee := u64 (linCoef + quadCoef) in
      let fee := u64 (newTotalFee - Memory.lastGasCost mem) in
      (Memory.mk (Memory.store mem) (Memory.cap mem) newTotalFee, inl fee)
    else (mem, inl 0).

(** ** The gas monad *)

Definition gasM (S A : Type) := EVM S -> Memory.t -> outcome (EVM S * Memory.t * (A + vmError)).

Definition gret {S A} (a : A) : gasM S A := fun e m => Done (e, m, inl a).
Definition gfail {S A} (err : vmError) : gasM S A := fun e m => Done (e, m, inr err).
Definition gbind {S A B} (c : gasM S A) (k : A -> gasM S B) : gasM S B := fun e m =>
  let! '(e, m, r) := c e m in
  match r with inl a => k a e m | inr err => Done (e, m, inr err) end.

Declare Scope gas_scope.
Delimit Scope gas_scope with gas.
Notation "'let*' x := c 'in' k" := (gbind c (fun x => k))
  (at level 10, x name, c at level 100, k at level 200,
   format "'[v' 'let*'  x  :=  c  'in' '/' k ']'") : gas_scope.
#[local] Open Scope gas_scope.

(** The steps gas functions are made of. *)
Definition gmem {S} (memorySize : Z) : gasM S Z := fun e m =>
  let '(m, r) := memoryGasCost m memorySize in Done (e, m, r).

Definition gback {S} (st : Stack.t) (n : nat) : gasM S Z := fun e m =>
  let! x := Stack.Back st n in Done (e, m, inl x).

Definition gread {S A} (f : S -> A) : gasM S A := fun e m => Done (e, m, inl (f (StateDB e))).

Definition gwrite {S} (f : S -> outcome S) : gasM S unit := fun e m =>
  let! s := f (StateDB e) in Done (set_StateDB e s, m, inl tt).

(** [if x, overflow = f(..); overflow { return 0, errGasUintOverflow }]. *)
Definition gover {S} (r : Z * bool) : gasM S Z :=
  if snd r then gfail errGasUintOverflow else gret (fst r).

(** [evm.callGasTemp, err = callGas(...)]. *)
Definition gcallGas {S} (isEip150 : bool) (availableGas base callCost : Z) : gasM S Z := fun e m =>
  let '(g, err) := callGas isEip150 availableGas base callCost in
  let e := set_callGasTemp e g in
  match err with
  | Some err => Done (e, m, inr err)
  | None => Done (e, m, inl g)
  end.

(** ** Gas functions *)

Definition gasFunc (S : Type) := Contract -> Stack.t -> Z -> gasM S Z.

Section GasTable.
Context {S : Type} `{vmStateDB S}.
Variable env : Env.

Definition memoryCopierGas (stackpos : nat) : gasFunc S := fun c st memorySize =>
  let* gas := gmem memorySize in
  let* l := gback st stackpos in
  let* words := gover (bigUint64 l) in
  let* words := gover (SafeMul (toWordSize words) Params.CopyGas) in
  gover (SafeAdd gas words).

Definition gasCallDataCopy := memoryCopierGas 2.
Definition gasCodeCopy := memoryCopierGas 2.
Definition gasExtCodeCopy := memoryCopierGas 3.
Definition gasReturnDataCopy := memoryCopierGas 2.

Definition addRefund (g : Z) : gasM S unit := gwrite (fun s => Done (AddRefund s g)).
Definition subRefund (g : Z) : gasM S unit := gwrite (fun s => SubRefund s g).
Definition gskip : gasM S unit := gret tt.

Definition gasSStore : gasFunc S := fun c st memorySize =>
  let* y := gback st 1 in
  let* x := gback st 0 in
  let* current := gread (fun s => GetState s (self c) (BigToHash x)) in
  if IsPetersburg (chainRules env) || negb (IsConstantinople (chainRules env)) then
    if (current =? 0) && negb (y =? 0) then gret Params.SstoreSetGas
    else if negb (current =? 0) && (y =? 0) then
      let* _ := addRefund Params.SstoreRefundGas in gret Params.SstoreClearGas
    else gret Params.SstoreResetGas
  else
    let value := BigToHash y in
    if current =? value then gret Params.NetSstoreNoopGas
    else
      let* original := gread (fun s => GetCommittedState s (self c) (BigToHash x)) in
      if original =? current then
        if original =? 0 then gret Params.NetSstoreInitGas
        else
          let* _ := if value =? 0 then addRefund Params.NetSstoreClearRefund else gskip in
          gret Params.NetSstoreCleanGas
      else
        let* _ := if negb (original =? 0) then
                    if current =? 0 then subRefund Params.NetSstoreClearRefund
                    else if value =? 0 then addRefund Params.NetSstoreClearRefund
                    else gskip
                  else gskip in
        let* _ := if original =? value then
                    if original =? 0 then addRefund Params.NetSstoreResetClearRefund
                    else addRefund Params.NetSstoreResetRefund
                  else gskip in
        gret Params.NetSstoreDirtyGas.

Definition gasSStoreEIP2200 : gasFunc S := fun c st memorySize =>
  if Gas c <=? Params.SstoreSentryGasEIP2200 then gfail errReentrancySentry
  else
    let* y := gback st 1 in
    let* x := gback st 0 in
    let* current := gread (fun s => GetState s (self c) (BigToHash x)) in
    let value := BigToHash y in
    if current =? value then gret Params.SstoreNoopGasEIP2200
    else
      let* original := gread (fun s => GetCommittedState s (self c) (BigToHash x)) in
      if original =? current then
        if original =? 0 then gret Params.SstoreInitGasEIP2200
        else
          let* _ := if value =? 0 then addRefund Params.SstoreClearRefundEIP2200 else gskip in
          gret Params.SstoreCleanGasEIP2200
      else
        let* _ := if negb (original =? 0) then
                    if current =? 0 then subRefund Params.SstoreClearRefundEIP2200
                    else if value =? 0 then addRefund Params.SstoreClearRefundEIP2200
                    else gskip
                  else gskip in
        let* _ := if original =? value then
                    if original =? 0 then addRefund Params.SstoreInitRefundEIP2200
                    else addRefund Params.SstoreCleanRefundEIP2200
                  else gskip in
        gret Params.SstoreDirtyGasEIP2200.

Definition makeGasLog (n : Z) : gasFunc S := fun c st memorySize =>
  let* l := gback st 1 in
  let* requestedSize := gover (bigUint64 l) in
  let* gas := gmem memorySize in
  let* gas := gover (SafeAdd gas Params.LogGas) in
  let* gas := gover (SafeAdd gas (u64 (n * Params.LogTopicGas))) in
  let* memorySizeGas := gover (SafeMul requestedSize Params.LogDataGas) in
  gover (SafeAdd gas memorySizeGas).

Definition gasSha3 : gasFunc S := fun c st memorySize =>
  let* gas := gmem memorySize in
  let* l := gback st 1 in
  let* wordGas := gover (bigUint64 l) in
  let* wordGas := gover (SafeMul (toWordSize wordGas) Params.Sha3WordGas) in
  gover (SafeAdd gas wordGas).

Definition pureMemoryGascost : gasFunc S := fun c st memorySize => gmem memorySize.

Definition gasReturn := pureMemoryGascost.
Definition gasRevert := pureMemoryGascost.
Definition gasMLoad := pureMemoryGascost.
Definition gasMStore8 := pureMemoryGascost.
Definition gasMStore := pureMemoryGascost.
Definition gasCreate := pureMemoryGascost.

Definition gasCreate2 : gasFunc S := fun c st memorySize =>
  let* gas := gmem memorySize in
  let* l := gback st 2 in
  let* wordGas := gover (bigUint64 l) in
  let* wordGas := gover (SafeMul (toWordSize wordGas) Params.Sha3WordGas) in
  gover (SafeAdd gas wordGas).

Definition gasExpFrontier : gasFunc S := fun c st memorySize =>
  let* e := gback st 1 in
  let expByteLen := (BitLen e + 7) / 8 in
  gover (SafeAdd (u64 (expByteLen * Params.ExpByteFrontier)) Params.ExpGas).

Definition gasExpEIP158 : gasFunc S := fun c st memorySize =>
  let* e := gback st 1 in
  let expByteLen := (BitLen e + 7) / 8 in
  gover (SafeAdd (u64 (expByteLen * Params.ExpByteEIP158)) Params.ExpGas).

Definition gasCall : gasFunc S := fun c st memorySize =>
  let* v := gback st 2 in
  let transfersValue := negb (v =? 0) in
  let* a := gback st 1 in
  let address := BigToAddress a in
  let* empty := gread (fun s => Empty s address) in
  let* exist := gread (fun s => Exist s address) in
  let gas := 0 in
  let gas := if IsEIP158 (chainRules env) then
               if transfersValue && empty then gas + Params.CallNewAccountGas else gas
             else if negb exist then gas + Params.CallNewAccountGas else gas in
  let gas := if transfersValue then gas + Params.CallValueTransferGas else gas in
  let* memoryGas := gmem memorySize in
  let* gas := gover (SafeAdd gas memoryGas) in
  let* l := gback st 0 in
  let* callGasTemp := gcallGas (IsEIP150 (chainRules env)) (Gas c) gas l in
  gover (SafeAdd gas callGasTemp).

Definition gasCallCode : gasFunc S := fun c st memorySize =>
  let* memoryGas := gmem memorySize in
  let* v := gback st 2 in
  let gas := if negb (v =? 0) then Params.CallValueTransferGas else 0 in
  let* gas := gover (SafeAdd gas memoryGas) in
  let* l := gback st 0 in
  let* callGasTemp := gcallGas (IsEIP150 (chainRules env)) (Gas c) gas l in
  gover (SafeAdd gas callGasTemp).

Definition gasDelegateCall : gasFunc S := fun c st memorySize =>
  let* gas := gmem memorySize in
  let* l := gback st 0 in
  let* callGasTemp := gcallGas (IsEIP150 (chainRules env)) (Gas c) gas l in
  gover (SafeAdd gas callGasTemp).

Definition gasStaticCall : gasFunc S := fun c st memorySize =>
  let* gas := gmem memorySize in
  let* l := gback st 0 in
  let* callGasTemp := gcallGas (IsEIP150 (chainRules env)) (Gas c) gas l in
  gover (SafeAdd gas callGasTemp).

Definition gasSelfdestruct : gasFunc S := fun c st memorySize =>
  let* gas :=
    if IsEIP150 (chainRules env) then
      let gas := Params.SelfdestructGasEIP150 in
      let* a := gback st 0 in
      let address := BigToAddress a in
      if IsEIP158 (chainRules env) then
        let* empty := gread (fun s => Empty s address) in
        let* balance := gread (fun s => GetBalance s (self c)) in
        gret (if empty && negb (balance =? 0) then gas + Params.CreateBySelfdestructGas else gas)
      else
        let* exist := gread (fun s => Exist s address) in
        gret (if negb exist then gas + Params.CreateBySelfdestructGas else gas)
    else gret 0 in
  let* suicided := gread (fun s => HasSuicided s (self c)) in
  let* _ := if negb suicided then addRefund Params.SelfdestructRefundGas else gskip in
  gret gas.
End GasTable.
