(* ===== verification/VmInstr.v ===== *)
(** * core/vm: the instructions (instructions.go, eips.go)
    An instruction takes the frame of the running contract to a frame, the
    slice it returns and an error.  The calls it makes into [EVM] are a
    parameter, which VmInterp.v ties to the interpreter. *)

From S2P Require Import Prelude MathUtil VmBase VmEnv.

Record CallResult := mkCallResult {
  ret : Ret;
  leftOverGas : Z;
  err : option vmError }.

Record CreateResult := mkCreateResult {
  create_ret : bytes;
  contractAddr : Address;
  create_leftOverGas : Z;
  create_err : option vmError }.

(** The methods of [EVM] that instructions call. *)
Record Calls (S : Type) := mkCalls {
  Call : EVM S -> ContractRef -> Address -> bytes -> Z -> Z -> outcome (EVM S * CallResult);
  CallCode : EVM S -> ContractRef -> Address -> bytes -> Z -> Z -> outcome (EVM S * CallResult);
  DelegateCall : EVM S -> ContractRef -> Address -> bytes -> Z -> outcome (EVM S * CallResult);
  StaticCall : EVM S -> ContractRef -> Address -> bytes -> Z -> outcome (EVM S * CallResult);
  Create : EVM S -> ContractRef -> bytes -> Z -> Z -> outcome (EVM S * CreateResult);
  Create2 : EVM S -> ContractRef -> bytes -> Z -> Z -> Z -> outcome (EVM S * CreateResult) }.
Arguments mkCalls {S}.
Arguments Call {S}.
Arguments CallCode {S}.
Arguments DelegateCall {S}.
Arguments StaticCall {S}.
Arguments Create {S}.
Arguments Create2 {S}.

Definition instrResult (S : Type) := outcome (Frame S * retData * option vmError).

(** [executionFunc] *)
Definition executionFunc (S : Type) := Env -> Calls S -> Frame S -> instrResult S.

(** [return nil, nil], [return ret, nil] and [return nil, err]. *)
Definition ok {S} (f : Frame S) : instrResult S := Done (f, RVal [], None).
Definition ok_ret {S} (f : Frame S) (r : retData) : instrResult S := Done (f, r, None).
Definition fail {S} (f : Frame S) (e : vmError) : instrResult S := Done (f, RVal [], Some e).

Definition b2z (b : bool) : Z := if b then 1 else 0.

(** Shapes shared by the arithmetic instructions: [x, y := stack.pop(),
    stack.peek()] followed by a store through [y]; [stack.pop(), stack.pop()]
    followed by a push; [x := stack.peek()] followed by a store through [x];
    and a push. *)
Definition pop_peek {S} (g : Z -> Z -> Z) : executionFunc S := fun _ _ f =>
  let! '(x, st) := Stack.pop (stack f) in
  let! y := Stack.peek st in
  ok (with_stack f (Stack.poke st (g x y))).

Definition pop_pop {S} (g : Z -> Z -> Z) : executionFunc S := fun _ _ f =>
  let! '(x, st) := Stack.pop (stack f) in
  let! '(y, st) := Stack.pop st in
  ok (with_stack f (Stack.push st (g x y))).

Definition pop_pop_pop {S} (g : Z -> Z -> Z -> Z) : executionFunc S := fun _ _ f =>
  let! '(x, st) := Stack.pop (stack f) in
  let! '(y, st) := Stack.pop st in
  let! '(z, st) := Stack.pop st in
  ok (with_stack f (Stack.push st (g x y z))).

Definition peek_poke {S} (g : Env -> Frame S -> Z -> Z) : executionFunc S := fun env _ f =>
  let! x := Stack.peek (stack f) in
  ok (with_stack f (Stack.poke (stack f) (g env f x))).

Definition push_val {S} (g : Env -> Frame S -> Z) : executionFunc S := fun env _ f =>
  ok (with_stack f (Stack.push (stack f) (g env f))).

(** ** Arithmetic, comparison and bit operations *)

Section Arithmetic.
Context {S : Type}.

Definition opAdd : executionFunc S := pop_peek (fun x y => U256 (x + y)).
Definition opSub : executionFunc S := pop_peek (fun x y => U256 (x - y)).
Definition opMul : executionFunc S := pop_pop (fun x y => U256 (x * y)).
Definition opDiv : executionFunc S :=
  pop_peek (fun x y => if negb (y =? 0) then U256 (x / y) else 0).

Definition sdiv (x y : Z) : Z :=
  let x := S256 x in
  let y := S256 y in
  if (y =? 0) || (x =? 0) then 0
  else if negb (Z.sgn x =? Z.sgn y) then U256 (- (Z.abs x / Z.abs y))
  else U256 (Z.abs x / Z.abs y).
Definition opSdiv : executionFunc S := pop_pop sdiv.

Definition opMod : executionFunc S :=
  pop_pop (fun x y => if y =? 0 then 0 else U256 (x mod y)).

Definition smod (x y : Z) : Z :=
  let x := S256 x in
  let y := S256 y in
  if y =? 0 then 0
  else if Z.sgn x <? 0 then U256 (- (Z.abs x mod Z.abs y))
  else U256 (Z.abs x mod Z.abs y).
Definition opSmod : executionFunc S := pop_pop smod.

Definition opExp : executionFunc S := pop_pop (fun base exponent =>
  if exponent <? 1 then 1
  else if base =? 0 then 0
  else if exponent =? 1 then base
  else Exp base exponent).

Definition signExtend (back num : Z) : Z :=
  let bit := Uint64 back * 8 + 7 in
  let mask := Z.shiftl 1 bit - 1 in
  let num := if Z.testbit num bit then Z.lor num (Z.lnot mask) else Z.land num mask in
  U256 num.

Definition opSignExtend : executionFunc S := fun _ _ f =>
  let! '(back, st) := Stack.pop (stack f) in
  if back <? 31 then
    let! '(num, st) := Stack.pop st in
    ok (with_stack f (Stack.push st (signExtend back num)))
  else ok (with_stack f st).

Definition opNot : executionFunc S := peek_poke (fun _ _ x => U256 (Z.lnot x)).
Definition opLt : executionFunc S := pop_peek (fun x y => b2z (x <? y)).
Definition opGt : executionFunc S := pop_peek (fun x y => b2z (y <? x)).

Definition slt (x y : Z) : Z :=
  if (tt255 <=? x) && (y <? tt255) then 1
  else if (x <? tt255) && (tt255 <=? y) then 0
  else b2z (x <? y).
Definition opSlt : executionFunc S := pop_peek slt.

Definition sgt (x y : Z) : Z :=
  if (tt255 <=? x) && (y <? tt255) then 0
  else if (x <? tt255) && (tt255 <=? y) then 1
  else b2z (y <? x).
Definition opSgt : executionFunc S := pop_peek sgt.

Definition opEq : executionFunc S := pop_peek (fun x y => b2z (x =? y)).
Definition opIszero : executionFunc S := peek_poke (fun _ _ x => if 0 <? x then 0 else 1).
Definition opAnd : executionFunc S := pop_pop Z.land.
Definition opOr : executionFunc S := pop_peek Z.lor.
Definition opXor : executionFunc S := pop_peek Z.lxor.
Definition opByte : executionFunc S :=
  pop_peek (fun th val => if th <? 32 then Z_of_byte (Byte val 32 (Int64 th)) else 0).
Definition opAddmod : executionFunc S :=
  pop_pop_pop (fun x y z => if 0 <? z then U256 ((x + y) mod z) else 0).
Definition opMulmod : executionFunc S :=
  pop_pop_pop (fun x y z => if 0 <? z then U256 ((x * y) mod z) else 0).

Definition shl (shift value : Z) : Z :=
  let shift := U256 shift in
  let value := U256 value in
  if 256 <=? shift then 0 else U256 (Z.shiftl value (Uint64 shift)).
Definition opSHL : executionFunc S := pop_peek shl.

Definition shr (shift value : Z) : Z :=
  let shift := U256 shift in
  let value := U256 value in
  if 256 <=? shift then 0 else U256 (Z.shiftr value (Uint64 shift)).
Definition opSHR : executionFunc S := pop_peek shr.

Definition sar (shift value : Z) : Z :=
  let shift := U256 shift in
  let value := S256 value in
  if 256 <=? shift then U256 (if 0 <=? value then 0 else -1)
  else U256 (Z.shiftr value (Uint64 shift)).
Definition opSAR : executionFunc S := pop_pop sar.
End Arithmetic.

(** ** Environment, block, stack, memory and flow *)

Section Environment.
Context {S : Type} `{vmStateDB S}.

Definition opSha3 : executionFunc S := fun env _ f =>
  let! '(offset, st) := Stack.pop (stack f) in
  let! '(size, st) := Stack.pop st in
  let! data := Memory.GetPtr (memory f) (Int64 offset) (Int64 size) in
  let hash := keccak256 env data in
  let f := if EnablePreimageRecording (vmConfig env)
           then with_db f (AddPreimage (db f) hash data) else f in
  ok (with_stack f (Stack.push st hash)).

Definition opAddress : executionFunc S := push_val (fun _ f => self (contract f)).
Definition opBalance : executionFunc S :=
  peek_poke (fun _ f slot => GetBalance (db f) (BigToAddress slot)).
Definition opOrigin : executionFunc S := push_val (fun env _ => Origin (ctx env)).
Definition opCaller : executionFunc S := push_val (fun _ f => CallerAddress (contract f)).
Definition opCallValue : executionFunc S := push_val (fun _ f => value (contract f)).

Definition opCallDataLoad : executionFunc S := fun _ _ f =>
  let! '(x, st) := Stack.pop (stack f) in
  let! d := getDataBig (Input (contract f)) x 32 in
  ok (with_stack f (Stack.push st (SetBytes d))).

Definition opCallDataSize : executionFunc S := push_val (fun _ f => zlen (Input (contract f))).

(** [memOffset, dataOffset, length] popped and [data] copied to memory. *)
Definition copy_to_memory (data : bytes) (f : Frame S) (st : Stack.t) : instrResult S :=
  let! '(memOffset, st) := Stack.pop st in
  let! '(dataOffset, st) := Stack.pop st in
  let! '(length, st) := Stack.pop st in
  let! d := getDataBig data dataOffset length in
  let! m := Memory.Set_ (memory f) (Uint64 memOffset) (Uint64 length) d in
  ok (with_stack (with_memory f m) st).

Definition opCallDataCopy : executionFunc S := fun _ _ f =>
  copy_to_memory (Input (contract f)) f (stack f).

Definition opReturnDataSize : executionFunc S :=
  push_val (fun _ f => rdLen (returnData (evm f))).

Definition opReturnDataCopy : executionFunc S := fun _ _ f =>
  let! '(memOffset, st) := Stack.pop (stack f) in
  let! '(dataOffset, st) := Stack.pop st in
  let! '(length, st) := Stack.pop st in
  let end_ := dataOffset + length in
  let f := with_stack f st in
  let rd := returnData (evm f) in
  if negb (IsUint64 end_) || (rdLen rd <? Uint64 end_) then fail f errReturnDataOutOfBounds
  else
    let! d := or_panic IndexOutOfRange
                (slice (rdBytes (memory f) rd) (Uint64 dataOffset) (Uint64 end_)) in
    let! m := Memory.Set_ (memory f) (Uint64 memOffset) (Uint64 length) d in
    ok (with_memory f m).

Definition opExtCodeSize : executionFunc S :=
  peek_poke (fun _ f slot => GetCodeSize (db f) (BigToAddress slot)).
Definition opCodeSize : executionFunc S := push_val (fun _ f => zlen (Code (contract f))).
Definition opCodeCopy : executionFunc S := fun _ _ f =>
  copy_to_memory (Code (contract f)) f (stack f).
Definition opExtCodeCopy : executionFunc S := fun _ _ f =>
  let! '(a, st) := Stack.pop (stack f) in
  copy_to_memory (GetCode (db f) (BigToAddress a)) f st.
Definition opExtCodeHash : executionFunc S := peek_poke (fun _ f slot =>
  let address := BigToAddress slot in
  if Empty (db f) address then 0 else GetCodeHash (db f) address).

Definition opGasprice : executionFunc S := push_val (fun env _ => GasPrice (ctx env)).

Definition opBlockhash : executionFunc S := fun env _ f =>
  let! '(num, st) := Stack.pop (stack f) in
  let n := BlockNumber (ctx env) - 257 in
  let h := if (n <? num) && (num <? BlockNumber (ctx env))
           then GetHash (ctx env) (Uint64 num) else 0 in
  ok (with_stack f (Stack.push st h)).

Definition opCoinbase : executionFunc S := push_val (fun env _ => Coinbase (ctx env)).
Definition opTimestamp : executionFunc S := push_val (fun env _ => U256 (Time (ctx env))).
Definition opNumber : executionFunc S := push_val (fun env _ => U256 (BlockNumber (ctx env))).
Definition opDifficulty : executionFunc S := push_val (fun env _ => U256 (Difficulty (ctx env))).
Definition opGasLimit : executionFunc S := push_val (fun env _ => U256 (GasLimit (ctx env))).

Definition opPop : executionFunc S := fun _ _ f =>
  let! '(_, st) := Stack.pop (stack f) in ok (with_stack f st).

Definition opMload : executionFunc S := fun _ _ f =>
  let! v := Stack.peek (stack f) in
  let! d := Memory.GetPtr (memory f) (Int64 v) 32 in
  ok (with_stack f (Stack.poke (stack f) (SetBytes d))).

Definition opMstore : executionFunc S := fun _ _ f =>
  let! '(mStart, st) := Stack.pop (stack f) in
  let! '(val, st) := Stack.pop st in
  let! m := Memory.Set32 (memory f) (Uint64 mStart) val in
  ok (with_stack (with_memory f m) st).

Definition opMstore8 : executionFunc S := fun _ _ f =>
  let! '(off, st) := Stack.pop (stack f) in
  let! '(val, st) := Stack.pop st in
  let! m := Memory.store8 (memory f) (Int64 off) (byte_of_Z (Z.land (Int64 val) 0xff)) in
  ok (with_stack (with_memory f m) st).

Definition opSload : executionFunc S := peek_poke (fun _ f loc =>
  GetState (db f) (self (contract f)) (BigToHash loc)).

Definition opSstore : executionFunc S := fun _ _ f =>
  let! '(loc, st) := Stack.pop (stack f) in
  let! '(val, st) := Stack.pop st in
  let s := SetState (db f) (self (contract f)) (BigToHash loc) (BigToHash val) in
  ok (with_stack (with_db f s) st).

Definition jump_to (f : Frame S) (pos : Z) : instrResult S :=
  let! '(e, c, valid) := validJumpdest (evm f) (contract f) pos in
  let f := with_contract (with_evm f e) c in
  if negb valid then fail f errInvalidJump else ok (with_pc f (Uint64 pos)).

Definition opJump : executionFunc S := fun _ _ f =>
  let! '(pos, st) := Stack.pop (stack f) in
  jump_to (with_stack f st) pos.

Definition opJumpi : executionFunc S := fun _ _ f =>
  let! '(pos, st) := Stack.pop (stack f) in
  let! '(cond, st) := Stack.pop st in
  let f := with_stack f st in
  if negb (cond =? 0) then jump_to f pos else ok (with_pc f (u64 (pc f + 1))).

Definition opJumpdest : executionFunc S := fun _ _ f => ok f.
Definition opPc : executionFunc S := push_val (fun _ f => pc f).
Definition opMsize : executionFunc S := push_val (fun _ f => Memory.Len (memory f)).
Definition opGas : executionFunc S := push_val (fun _ f => Gas (contract f)).
Definition opStop : executionFunc S := fun _ _ f => ok f.

Definition opReturn : executionFunc S := fun _ _ f =>
  let! '(offset, st) := Stack.pop (stack f) in
  let! '(size, st) := Stack.pop st in
  let! r := Memory.GetPtr (memory f) (Int64 offset) (Int64 size) in
  ok_ret (with_stack f st) (RVal r).

Definition opRevert : executionFunc S := fun _ _ f =>
  let! '(offset, st) := Stack.pop (stack f) in
  let! '(size, st) := Stack.pop st in
  let! r := Memory.GetPtr (memory f) (Int64 offset) (Int64 size) in
  ok_ret (with_stack f st) (RVal r).

Definition opSuicide : executionFunc S := fun _ _ f =>
  let balance := GetBalance (db f) (self (contract f)) in
  let! '(a, st) := Stack.pop (stack f) in
  let s := AddBalance (db f) (BigToAddress a) balance in
  let s := fst (Suicide s (self (contract f))) in
  ok (with_stack (with_db f s) st).

(** [for i := 0; i < size; i++ { topics[i] = BigToHash(stack.pop()) }] *)
Fixpoint pop_topics (n : nat) (st : Stack.t) : outcome (list Hash * Stack.t) :=
  match n with
  | O => Done ([], st)
  | Datatypes.S n =>
      let! '(x, st) := Stack.pop st in
      let! '(topics, st) := pop_topics n st in
      Done (BigToHash x :: topics, st)
  end.

(** The transaction, block and index fields are filled in by [StateDB.AddLog]. *)
Definition makeLog (size : nat) : executionFunc S := fun env _ f =>
  let! '(mStart, st) := Stack.pop (stack f) in
  let! '(mSize, st) := Stack.pop st in
  let! '(topics, st) := pop_topics size st in
  let! d := Memory.GetCopy (memory f) (Int64 mStart) (Int64 mSize) in
  let s := AddLog (db f)
             (mkLog (self (contract f)) topics d (Uint64 (BlockNumber (ctx env))) 0 0 0 0) in
  ok (with_stack (with_db f s) st).

Definition opPush1 : executionFunc S := fun _ _ f =>
  let pc' := u64 (pc f + 1) in
  let integer := if pc' <? zlen (Code (contract f)) then GetByte (contract f) pc' else 0 in
  ok (with_stack (with_pc f pc') (Stack.push (stack f) integer)).

(** The index [pc + 1] is cast to [int], a signed 64-bit integer. *)
Definition makePush (size pushByteSize : Z) : executionFunc S := fun _ _ f =>
  let codeLen := zlen (Code (contract f)) in
  let next := Int64 (u64 (pc f + 1)) in
  let startMin := if next <? codeLen then next else codeLen in
  let endMin := if startMin + pushByteSize <? codeLen then startMin + pushByteSize else codeLen in
  let! d := or_panic IndexOutOfRange (slice (Code (contract f)) startMin endMin) in
  let integer := SetBytes (RightPadBytes d pushByteSize) in
  ok (with_stack (with_pc f (u64 (pc f + size))) (Stack.push (stack f) integer)).

Definition makeDup (size : nat) : executionFunc S := fun _ _ f =>
  let! st := Stack.dup (stack f) size in ok (with_stack f st).

Definition makeSwap (size : nat) : executionFunc S := fun _ _ f =>
  let! st := Stack.swap (stack f) (size + 1) in ok (with_stack f st).

(** eips.go *)
Definition opSelfBalance : executionFunc S :=
  push_val (fun _ f => GetBalance (db f) (self (contract f))).
Definition opChainID : executionFunc S := push_val (fun env _ => ChainID (chainRules env)).
End Environment.

(** ** Calls and creations *)

Section CallInstructions.
Context {S : Type} `{vmStateDB S}.

(** [contract.Gas += returnGas] on a uint64. *)
Definition add_gas (f : Frame S) (g : Z) : Frame S :=
  with_contract f (set_Gas (contract f) (u64 (Gas (contract f) + g))).

Definition use_gas (f : Frame S) (g : Z) : Frame S :=
  with_contract f (fst (UseGas (contract f) g)).

Definition opCreate : executionFunc S := fun env calls f =>
  let! '(value, st) := Stack.pop (stack f) in
  let! '(offset, st) := Stack.pop st in
  let! '(size, st) := Stack.pop st in
  let! input := Memory.GetCopy (memory f) (Int64 offset) (Int64 size) in
  let gas := Gas (contract f) in
  let gas := if IsEIP150 (chainRules env) then gas - gas / 64 else gas in
  let f := use_gas f gas in
  let! '(e, r) := Create calls (evm f) (contract_ref (contract f)) input gas value in
  let suberr := create_err r in
  let v :=
    if IsHomestead (chainRules env) && bool_decide (suberr = Some ErrCodeStoreOutOfGas) then 0
    else if bool_decide (suberr <> None) && bool_decide (suberr <> Some ErrCodeStoreOutOfGas) then 0
    else contractAddr r in
  let f := add_gas (with_stack (with_evm f e) (Stack.push st v)) (create_leftOverGas r) in
  if bool_decide (suberr = Some errExecutionReverted) then ok_ret f (RVal (create_ret r)) else ok f.

Definition opCreate2 : executionFunc S := fun env calls f =>
  let! '(endowment, st) := Stack.pop (stack f) in
  let! '(offset, st) := Stack.pop st in
  let! '(size, st) := Stack.pop st in
  let! '(salt, st) := Stack.pop st in
  let! input := Memory.GetCopy (memory f) (Int64 offset) (Int64 size) in
  let gas := Gas (contract f) in
  let gas := gas - gas / 64 in
  let f := use_gas f gas in
  let! '(e, r) := Create2 calls (evm f) (contract_ref (contract f)) input gas endowment salt in
  let suberr := create_err r in
  let v := if bool_decide (suberr <> None) then 0 else contractAddr r in
  let f := add_gas (with_stack (with_evm f e) (Stack.push st v)) (create_leftOverGas r) in
  if bool_decide (suberr = Some errExecutionReverted) then ok_ret f (RVal (create_ret r)) else ok f.

(** The slice [ret] of a call, seen from the frame whose memory region [args]
    was the input: a slice that is the input is backed by that region. *)
Definition ret_slice (args : option (Z * Z)) (r : Ret) : retData :=
  if ret_isInput r
  then match args with Some (off, size) => RMem off size | None => RVal [] end
  else RVal (ret_bytes r).

(** What the four call instructions do with the result: push the status, copy
    the returned bytes to memory, credit the unused gas, return the slice. *)
Definition finish_call (f : Frame S) (e : EVM S) (st : Stack.t) (args : option (Z * Z))
    (retOffset retSize : Z) (r : CallResult) : instrResult S :=
  let st := Stack.push st (if bool_decide (err r <> None) then 0 else 1) in
  let! m := if bool_decide (err r = None) || bool_decide (err r = Some errExecutionReverted)
            then Memory.Set_ (memory f) (Uint64 retOffset) (Uint64 retSize) (ret_bytes (ret r))
            else Done (memory f) in
  let f := add_gas (with_stack (with_memory (with_evm f e) m) st) (leftOverGas r) in
  ok_ret f (ret_slice args (ret r)).

Definition opCall : executionFunc S := fun env calls f =>
  let! '(_, st) := Stack.pop (stack f) in
  let gas := callGasTemp (evm f) in
  let! '(addr, st) := Stack.pop st in
  let! '(value, st) := Stack.pop st in
  let! '(inOffset, st) := Stack.pop st in
  let! '(inSize, st) := Stack.pop st in
  let! '(retOffset, st) := Stack.pop st in
  let! '(retSize, st) := Stack.pop st in
  let toAddr := BigToAddress addr in
  let value := U256 value in
  let! args := Memory.GetPtr (memory f) (Int64 inOffset) (Int64 inSize) in
  let gas := if negb (value =? 0) then u64 (gas + Params.CallStipend) else gas in
  let! '(e, r) := Call calls (evm f) (contract_ref (contract f)) toAddr args gas value in
  finish_call f e st (Memory.GetPtr_region (memory f) (Int64 inOffset) (Int64 inSize))
    retOffset retSize r.

Definition opCallCode : executionFunc S := fun env calls f =>
  let! '(_, st) := Stack.pop (stack f) in
  let gas := callGasTemp (evm f) in
  let! '(addr, st) := Stack.pop st in
  let! '(value, st) := Stack.pop st in
  let! '(inOffset, st) := Stack.pop st in
  let! '(inSize, st) := Stack.pop st in
  let! '(retOffset, st) := Stack.pop st in
  let! '(retSize, st) := Stack.pop st in
  let toAddr := BigToAddress addr in
  let value := U256 value in
  let! args := Memory.GetPtr (memory f) (Int64 inOffset) (Int64 inSize) in
  let gas := if negb (value =? 0) then u64 (gas + Params.CallStipend) else gas in
  let! '(e, r) := CallCode calls (evm f) (contract_ref (contract f)) toAddr args gas value in
  finish_call f e st (Memory.GetPtr_region (memory f) (Int64 inOffset) (Int64 inSize))
    retOffset retSize r.

Definition opDelegateCall : executionFunc S := fun env calls f =>
  let! '(_, st) := Stack.pop (stack f) in
  let gas := callGasTemp (evm f) in
  let! '(addr, st) := Stack.pop st in
  let! '(inOffset, st) := Stack.pop st in
  let! '(inSize, st) := Stack.pop st in
  let! '(retOffset, st) := Stack.pop st in
  let! '(retSize, st) := Stack.pop st in
  let toAddr := BigToAddress addr in
  let! args := Memory.GetPtr (memory f) (Int64 inOffset) (Int64 inSize) in
  let! '(e, r) := DelegateCall calls (evm f) (contract_ref (contract f)) toAddr args gas in
  finish_call f e st (Memory.GetPtr_region (memory f) (Int64 inOffset) (Int64 inSize))
    retOffset retSize r.

Definition opStaticCall : executionFunc S := fun env calls f =>
  let! '(_, st) := Stack.pop (stack f) in
  let gas := callGasTemp (evm f) in
  let! '(addr, st) := Stack.pop st in
  let! '(inOffset, st) := Stack.pop st in
  let! '(inSize, st) := Stack.pop st in
  let! '(retOffset, st) := Stack.pop st in
  let! '(retSize, st) := Stack.pop st in
  let toAddr := BigToAddress addr in
  let! args := Memory.GetPtr (memory f) (Int64 inOffset) (Int64 inSize) in
  let! '(e, r) := StaticCall calls (evm f) (contract_ref (contract f)) toAddr args gas in
  finish_call f e st (Memory.GetPtr_region (memory f) (Int64 inOffset) (Int64 inSize))
    retOffset retSize r.
End CallInstructions.
