(* ===== verification/VmTable.v ===== *)
(** * core/vm: the instruction sets (jump_table.go, stack_table.go, opcodes.go, eips.go)
    A [JumpTable] maps an opcode to its operation; an absent opcode is one whose
    [valid] flag is unset.  The fork instruction sets are built from each other
    as in the source, and [NewEVMInterpreter] selects one. *)

From S2P Require Import Prelude MathUtil VmBase VmEnv VmGas VmInstr.

(** ** opcodes.go *)

Module Op.
Definition STOP : Z := 0x00.
Definition ADD : Z := 0x01.
Definition MUL : Z := 0x02.
Definition SUB : Z := 0x03.
Definition DIV : Z := 0x04.
Definition SDIV : Z := 0x05.
Definition MOD : Z := 0x06.
Definition SMOD : Z := 0x07.
Definition ADDMOD : Z := 0x08.
Definition MULMOD : Z := 0x09.
Definition EXP : Z := 0x0a.
Definition SIGNEXTEND : Z := 0x0b.
Definition LT : Z := 0x10.
Definition GT : Z := 0x11.
Definition SLT : Z := 0x12.
Definition SGT : Z := 0x13.
Definition EQ : Z := 0x14.
Definition ISZERO : Z := 0x15.
Definition AND : Z := 0x16.
Definition OR : Z := 0x17.
Definition XOR : Z := 0x18.
Definition NOT : Z := 0x19.
Definition BYTE : Z := 0x1a.
Definition SHL : Z := 0x1b.
Definition SHR : Z := 0x1c.
Definition SAR : Z := 0x1d.
Definition SHA3 : Z := 0x20.
Definition ADDRESS : Z := 0x30.
Definition BALANCE : Z := 0x31.
Definition ORIGIN : Z := 0x32.
Definition CALLER : Z := 0x33.
Definition CALLVALUE : Z := 0x34.
Definition CALLDATALOAD : Z := 0x35.
Definition CALLDATASIZE : Z := 0x36.
Definition CALLDATACOPY : Z := 0x37.
Definition CODESIZE : Z := 0x38.
Definition CODECOPY : Z := 0x39.
Definition GASPRICE : Z := 0x3a.
Definition EXTCODESIZE : Z := 0x3b.
Definition EXTCODECOPY : Z := 0x3c.
Definition RETURNDATASIZE : Z := 0x3d.
Definition RETURNDATACOPY : Z := 0x3e.
Definition EXTCODEHASH : Z := 0x3f.
Definition BLOCKHASH : Z := 0x40.
Definition COINBASE : Z := 0x41.
Definition TIMESTAMP : Z := 0x42.
Definition NUMBER : Z := 0x43.
Definition DIFFICULTY : Z := 0x44.
Definition GASLIMIT : Z := 0x45.
Definition CHAINID : Z := 0x46.
Definition SELFBALANCE : Z := 0x47.
Definition POP : Z := 0x50.
Definition MLOAD : Z := 0x51.
Definition MSTORE : Z := 0x52.
Definition MSTORE8 : Z := 0x53.
Definition SLOAD : Z := 0x54.
Definition SSTORE : Z := 0x55.
Definition JUMP : Z := 0x56.
Definition JUMPI : Z := 0x57.
Definition PC : Z := 0x58.
Definition MSIZE : Z := 0x59.
Definition GAS : Z := 0x5a.
Definition JUMPDEST : Z := 0x5b.
Definition PUSH1 : Z := 0x60.
Definition PUSH2 : Z := 0x61.
Definition PUSH3 : Z := 0x62.
Definition PUSH4 : Z := 0x63.
Definition PUSH5 : Z := 0x64.
Definition PUSH6 : Z := 0x65.
Definition PUSH7 : Z := 0x66.
Definition PUSH8 : Z := 0x67.
Definition PUSH9 : Z := 0x68.
Definition PUSH10 : Z := 0x69.
Definition PUSH11 : Z := 0x6a.
Definition PUSH12 : Z := 0x6b.
Definition PUSH13 : Z := 0x6c.
Definition PUSH14 : Z := 0x6d.
Definition PUSH15 : Z := 0x6e.
Definition PUSH16 : Z := 0x6f.
Definition PUSH17 : Z := 0x70.
Definition PUSH18 : Z := 0x71.
Definition PUSH19 : Z := 0x72.
Definition PUSH20 : Z := 0x73.
Definition PUSH21 : Z := 0x74.
Definition PUSH22 : Z := 0x75.
Definition PUSH23 : Z := 0x76.
Definition PUSH24 : Z := 0x77.
Definition PUSH25 : Z := 0x78.
Definition PUSH26 : Z := 0x79.
Definition PUSH27 : Z := 0x7a.
Definition PUSH28 : Z := 0x7b.
Definition PUSH29 : Z := 0x7c.
Definition PUSH30 : Z := 0x7d.
Definition PUSH31 : Z := 0x7e.
Definition PUSH32 : Z := 0x7f.
Definition DUP1 : Z := 0x80.
Definition DUP2 : Z := 0x81.
Definition DUP3 : Z := 0x82.
Definition DUP4 : Z := 0x83.
Definition DUP5 : Z := 0x84.
Definition DUP6 : Z := 0x85.
Definition DUP7 : Z := 0x86.
Definition DUP8 : Z := 0x87.
Definition DUP9 : Z := 0x88.
Definition DUP10 : Z := 0x89.
Definition DUP11 : Z := 0x8a.
Definition DUP12 : Z := 0x8b.
Definition DUP13 : Z := 0x8c.
Definition DUP14 : Z := 0x8d.
Definition DUP15 : Z := 0x8e.
Definition DUP16 : Z := 0x8f.
Definition SWAP1 : Z := 0x90.
Definition SWAP2 : Z := 0x91.
Definition SWAP3 : Z := 0x92.
Definition SWAP4 : Z := 0x93.
Definition SWAP5 : Z := 0x94.
Definition SWAP6 : Z := 0x95.
Definition SWAP7 : Z := 0x96.
Definition SWAP8 : Z := 0x97.
Definition SWAP9 : Z := 0x98.
Definition SWAP10 : Z := 0x99.
Definition SWAP11 : Z := 0x9a.
Definition SWAP12 : Z := 0x9b.
Definition SWAP13 : Z := 0x9c.
Definition SWAP14 : Z := 0x9d.
Definition SWAP15 : Z := 0x9e.
Definition SWAP16 : Z := 0x9f.
Definition LOG0 : Z := 0xa0.
Definition LOG1 : Z := 0xa1.
Definition LOG2 : Z := 0xa2.
Definition LOG3 : Z := 0xa3.
Definition LOG4 : Z := 0xa4.
Definition CREATE : Z := 0xf0.
Definition CALL : Z := 0xf1.
Definition CALLCODE : Z := 0xf2.
Definition RETURN : Z := 0xf3.
Definition DELEGATECALL : Z := 0xf4.
Definition CREATE2 : Z := 0xf5.
Definition STATICCALL : Z := 0xfa.
Definition REVERT : Z := 0xfd.
Definition SELFDESTRUCT : Z := 0xff.
End Op.

(** ** stack_table.go *)

Definition maxStack (pop push : Z) : Z := Params.StackLimit + pop - push.
Definition minStack (pops push : Z) : Z := pops.
Definition minSwapStack (n : Z) : Z := minStack n n.
Definition maxSwapStack (n : Z) : Z := maxStack n n.
Definition minDupStack (n : Z) : Z := minStack n (n + 1).
Definition maxDupStack (n : Z) : Z := maxStack n (n + 1).

(** ** Operations *)

Record operation (S : Type) := mkOperation {
  execute : executionFunc S;
  constantGas : Z;
  dynamicGas : option (gasFunc S);
  op_minStack : Z;
  op_maxStack : Z;
  memorySize : option (Stack.t -> outcome (Z * bool));
  halts : bool;
  jumps : bool;
  writes : bool;
  reverts : bool;
  returns : bool }.
Arguments mkOperation {S}.
Arguments execute {S}.
Arguments constantGas {S}.
Arguments dynamicGas {S}.
Arguments op_minStack {S}.
Arguments op_maxStack {S}.
Arguments memorySize {S}.
Arguments halts {S}.
Arguments jumps {S}.
Arguments writes {S}.
Arguments reverts {S}.
Arguments returns {S}.

Abbreviation JumpTable S := (gmap Z (operation S)).

(** An operation literal with only the first fields set, and the fields added
    to it. *)
Section Operation.
Context {S : Type}.
Implicit Types o : operation S.

Definition op (e : executionFunc S) (gas minS maxS : Z) : operation S :=
  mkOperation e gas None minS maxS None false false false false false.
Definition dyn o (g : gasFunc S) : operation S :=
  mkOperation (execute o) (constantGas o) (Some g) (op_minStack o) (op_maxStack o)
    (memorySize o) (halts o) (jumps o) (writes o) (reverts o) (returns o).
Definition mems o (m : Stack.t -> outcome (Z * bool)) : operation S :=
  mkOperation (execute o) (constantGas o) (dynamicGas o) (op_minStack o) (op_maxStack o)
    (Some m) (halts o) (jumps o) (writes o) (reverts o) (returns o).
Definition set_constantGas o (g : Z) : operation S :=
  mkOperation (execute o) g (dynamicGas o) (op_minStack o) (op_maxStack o)
    (memorySize o) (halts o) (jumps o) (writes o) (reverts o) (returns o).
Definition halting o : operation S :=
  mkOperation (execute o) (constantGas o) (dynamicGas o) (op_minStack o) (op_maxStack o)
    (memorySize o) true (jumps o) (writes o) (reverts o) (returns o).
Definition jumping o : operation S :=
  mkOperation (execute o) (constantGas o) (dynamicGas o) (op_minStack o) (op_maxStack o)
    (memorySize o) (halts o) true (writes o) (reverts o) (returns o).
Definition writing o : operation S :=
  mkOperation (execute o) (constantGas o) (dynamicGas o) (op_minStack o) (op_maxStack o)
    (memorySize o) (halts o) (jumps o) true (reverts o) (returns o).
Definition reverting o : operation S :=
  mkOperation (execute o) (constantGas o) (dynamicGas o) (op_minStack o) (op_maxStack o)
    (memorySize o) (halts o) (jumps o) (writes o) true (returns o).
Definition returning o : operation S :=
  mkOperation (execute o) (constantGas o) (dynamicGas o) (op_minStack o) (op_maxStack o)
    (memorySize o) (halts o) (jumps o) (writes o) (reverts o) true.
End Operation.

(** ** Instruction sets (jump_table.go) *)

Section InstructionSets.
Context {S : Type} `{vmStateDB S}.
Variable env : Env.

Definition frontier_arithmetic : list (Z * operation S) := [
  (Op.STOP, halting (op opStop 0 (minStack 0 0) (maxStack 0 0)));
  (Op.ADD, op opAdd GasFastestStep (minStack 2 1) (maxStack 2 1));
  (Op.MUL, op opMul GasFastStep (minStack 2 1) (maxStack 2 1));
  (Op.SUB, op opSub GasFastestStep (minStack 2 1) (maxStack 2 1));
  (Op.DIV, op opDiv GasFastStep (minStack 2 1) (maxStack 2 1));
  (Op.SDIV, op opSdiv GasFastStep (minStack 2 1) (maxStack 2 1));
  (Op.MOD, op opMod GasFastStep (minStack 2 1) (maxStack 2 1));
  (Op.SMOD, op opSmod GasFastStep (minStack 2 1) (maxStack 2 1));
  (Op.ADDMOD, op opAddmod GasMidStep (minStack 3 1) (maxStack 3 1));
  (Op.MULMOD, op opMulmod GasMidStep (minStack 3 1) (maxStack 3 1));
  (Op.EXP, dyn (op opExp 0 (minStack 2 1) (maxStack 2 1)) gasExpFrontier);
  (Op.SIGNEXTEND, op opSignExtend GasFastStep (minStack 2 1) (maxStack 2 1))
].

Definition frontier_comparison : list (Z * operation S) := [
  (Op.LT, op opLt GasFastestStep (minStack 2 1) (maxStack 2 1));
  (Op.GT, op opGt GasFastestStep (minStack 2 1) (maxStack 2 1));
  (Op.SLT, op opSlt GasFastestStep (minStack 2 1) (maxStack 2 1));
  (Op.SGT, op opSgt GasFastestStep (minStack 2 1) (maxStack 2 1));
  (Op.EQ, op opEq GasFastestStep (minStack 2 1) (maxStack 2 1));
  (Op.ISZERO, op opIszero GasFastestStep (minStack 1 1) (maxStack 1 1));
  (Op.AND, op opAnd GasFastestStep (minStack 2 1) (maxStack 2 1));
  (Op.XOR, op opXor GasFastestStep (minStack 2 1) (maxStack 2 1));
  (Op.OR, op opOr GasFastestStep (minStack 2 1) (maxStack 2 1));
  (Op.NOT, op opNot GasFastestStep (minStack 1 1) (maxStack 1 1));
  (Op.BYTE, op opByte GasFastestStep (minStack 2 1) (maxStack 2 1))
].

Definition frontier_environment : list (Z * operation S) := [
  (Op.SHA3, mems (dyn (op opSha3 Params.Sha3Gas (minStack 2 1) (maxStack 2 1)) gasSha3) memorySha3);
  (Op.ADDRESS, op opAddress GasQuickStep (minStack 0 1) (maxStack 0 1));
  (Op.BALANCE, op opBalance Params.BalanceGasFrontier (minStack 1 1) (maxStack 1 1));
  (Op.ORIGIN, op opOrigin GasQuickStep (minStack 0 1) (maxStack 0 1));
  (Op.CALLER, op opCaller GasQuickStep (minStack 0 1) (maxStack 0 1));
  (Op.CALLVALUE, op opCallValue GasQuickStep (minStack 0 1) (maxStack 0 1));
  (Op.CALLDATALOAD, op opCallDataLoad GasFastestStep (minStack 1 1) (maxStack 1 1));
  (Op.CALLDATASIZE, op opCallDataSize GasQuickStep (minStack 0 1) (maxStack 0 1));
  (Op.CALLDATACOPY, mems (dyn (op opCallDataCopy GasFastestStep (minStack 3 0) (maxStack 3 0)) gasCallDataCopy) memoryCallDataCopy);
  (Op.CODESIZE, op opCodeSize GasQuickStep (minStack 0 1) (maxStack 0 1));
  (Op.CODECOPY, mems (dyn (op opCodeCopy GasFastestStep (minStack 3 0) (maxStack 3 0)) gasCodeCopy) memoryCodeCopy);
  (Op.GASPRICE, op opGasprice GasQuickStep (minStack 0 1) (maxStack 0 1));
  (Op.EXTCODESIZE, op opExtCodeSize Params.ExtcodeSizeGasFrontier (minStack 1 1) (maxStack 1 1));
  (Op.EXTCODECOPY, mems (dyn (op opExtCodeCopy Params.ExtcodeCopyBaseFrontier (minStack 4 0) (maxStack 4 0)) gasExtCodeCopy) memoryExtCodeCopy)
].

Definition frontier_block : list (Z * operation S) := [
  (Op.BLOCKHASH, op opBlockhash GasExtStep (minStack 1 1) (maxStack 1 1));
  (Op.COINBASE, op opCoinbase GasQuickStep (minStack 0 1) (maxStack 0 1));
  (Op.TIMESTAMP, op opTimestamp GasQuickStep (minStack 0 1) (maxStack 0 1));
  (Op.NUMBER, op opNumber GasQuickStep (minStack 0 1) (maxStack 0 1));
  (Op.DIFFICULTY, op opDifficulty GasQuickStep (minStack 0 1) (maxStack 0 1));
  (Op.GASLIMIT, op opGasLimit GasQuickStep (minStack 0 1) (maxStack 0 1))
].

Definition frontier_memory : list (Z * operation S) := [
  (Op.POP, op opPop GasQuickStep (minStack 1 0) (maxStack 1 0));
  (Op.MLOAD, mems (dyn (op opMload GasFastestStep (minStack 1 1) (maxStack 1 1)) gasMLoad) memoryMLoad);
  (Op.MSTORE, mems (dyn (op opMstore GasFastestStep (minStack 2 0) (maxStack 2 0)) gasMStore) memoryMStore);
  (Op.MSTORE8, mems (dyn (op opMstore8 GasFastestStep (minStack 2 0) (maxStack 2 0)) gasMStore8) memoryMStore8);
  (Op.SLOAD, op opSload Params.SloadGasFrontier (minStack 1 1) (maxStack 1 1));
  (Op.SSTORE, writing (dyn (op opSstore 0 (minStack 2 0) (maxStack 2 0)) (gasSStore env)));
  (Op.JUMP, jumping (op opJump GasMidStep (minStack 1 0) (maxStack 1 0)));
  (Op.JUMPI, jumping (op opJumpi GasSlowStep (minStack 2 0) (maxStack 2 0)));
  (Op.PC, op opPc GasQuickStep (minStack 0 1) (maxStack 0 1));
  (Op.MSIZE, op opMsize GasQuickStep (minStack 0 1) (maxStack 0 1));
  (Op.GAS, op opGas GasQuickStep (minStack 0 1) (maxStack 0 1));
  (Op.JUMPDEST, op opJumpdest Params.JumpdestGas (minStack 0 0) (maxStack 0 0))
].

Definition frontier_push_low : list (Z * operation S) := [
  (Op.PUSH1, op opPush1 GasFastestStep (minStack 0 1) (maxStack 0 1));
  (Op.PUSH2, op (makePush 2 2) GasFastestStep (minStack 0 1) (maxStack 0 1));
  (Op.PUSH3, op (makePush 3 3) GasFastestStep (minStack 0 1) (maxStack 0 1));
  (Op.PUSH4, op (makePush 4 4) GasFastestStep (minStack 0 1) (maxStack 0 1));
  (Op.PUSH5, op (makePush 5 5) GasFastestStep (minStack 0 1) (maxStack 0 1));
  (Op.PUSH6, op (makePush 6 6) GasFastestStep (minStack 0 1) (maxStack 0 1));
  (Op.PUSH7, op (makePush 7 7) GasFastestStep (minStack 0 1) (maxStack 0 1));
  (Op.PUSH8, op (makePush 8 8) GasFastestStep (minStack 0 1) (maxStack 0 1));
  (Op.PUSH9, op (makePush 9 9) GasFastestStep (minStack 0 1) (maxStack 0 1));
  (Op.PUSH10, op (makePush 10 10) GasFastestStep (minStack 0 1) (maxStack 0 1));
  (Op.PUSH11, op (makePush 11 11) GasFastestStep (minStack 0 1) (maxStack 0 1));
  (Op.PUSH12, op (makePush 12 12) GasFastestStep (minStack 0 1) (maxStack 0 1));
  (Op.PUSH13, op (makePush 13 13) GasFastestStep (minStack 0 1) (maxStack 0 1));
  (Op.PUSH14, op (makePush 14 14) GasFastestStep (minStack 0 1) (maxStack 0 1));
  (Op.PUSH15, op (makePush 15 15) GasFastestStep (minStack 0 1) (maxStack 0 1));
  (Op.PUSH16, op (makePush 16 16) GasFastestStep (minStack 0 1) (maxStack 0 1))
].

Definition frontier_push_high : list (Z * operation S) := [
  (Op.PUSH17, op (makePush 17 17) GasFastestStep (minStack 0 1) (maxStack 0 1));
  (Op.PUSH18, op (makePush 18 18) GasFastestStep (minStack 0 1) (maxStack 0 1));
  (Op.PUSH19, op (makePush 19 19) GasFastestStep (minStack 0 1) (maxStack 0 1));
  (Op.PUSH20, op (makePush 20 20) GasFastestStep (minStack 0 1) (maxStack 0 1));
  (Op.PUSH21, op (makePush 21 21) GasFastestStep (minStack 0 1) (maxStack 0 1));
  (Op.PUSH22, op (makePush 22 22) GasFastestStep (minStack 0 1) (maxStack 0 1));
  (Op.PUSH23, op (makePush 23 23) GasFastestStep (minStack 0 1) (maxStack 0 1));
  (Op.PUSH24, op (makePush 24 24) GasFastestStep (minStack 0 1) (maxStack 0 1));
  (Op.PUSH25, op (makePush 25 25) GasFastestStep (minStack 0 1) (maxStack 0 1));
  (Op.PUSH26, op (makePush 26 26) GasFastestStep (minStack 0 1) (maxStack 0 1));
  (Op.PUSH27, op (makePush 27 27) GasFastestStep (minStack 0 1) (maxStack 0 1));
  (Op.PUSH28, op (makePush 28 28) GasFastestStep (minStack 0 1) (maxStack 0 1));
  (Op.PUSH29, op (makePush 29 29) GasFastestStep (minStack 0 1) (maxStack 0 1));
  (Op.PUSH30, op (makePush 30 30) GasFastestStep (minStack 0 1) (maxStack 0 1));
  (Op.PUSH31, op (makePush 31 31) GasFastestStep (minStack 0 1) (maxStack 0 1));
  (Op.PUSH32, op (makePush 32 32) GasFastestStep (minStack 0 1) (maxStack 0 1))
].

Definition frontier_dup : list (Z * operation S) := [
  (Op.DUP1, op (makeDup 1) GasFastestStep (minDupStack 1) (maxDupStack 1));
  (Op.DUP2, op (makeDup 2) GasFastestStep (minDupStack 2) (maxDupStack 2));
  (Op.DUP3, op (makeDup 3) GasFastestStep (minDupStack 3) (maxDupStack 3));
  (Op.DUP4, op (makeDup 4) GasFastestStep (minDupStack 4) (maxDupStack 4));
  (Op.DUP5, op (makeDup 5) GasFastestStep (minDupStack 5) (maxDupStack 5));
  (Op.DUP6, op (makeDup 6) GasFastestStep (minDupStack 6) (maxDupStack 6));
  (Op.DUP7, op (makeDup 7) GasFastestStep (minDupStack 7) (maxDupStack 7));
  (Op.DUP8, op (makeDup 8) GasFastestStep (minDupStack 8) (maxDupStack 8));
  (Op.DUP9, op (makeDup 9) GasFastestStep (minDupStack 9) (maxDupStack 9));
  (Op.DUP10, op (makeDup 10) GasFastestStep (minDupStack 10) (maxDupStack 10));
  (Op.DUP11, op (makeDup 11) GasFastestStep (minDupStack 11) (maxDupStack 11));
  (Op.DUP12, op (makeDup 12) GasFastestStep (minDupStack 12) (maxDupStack 12));
  (Op.DUP13, op (makeDup 13) GasFastestStep (minDupStack 13) (maxDupStack 13));
  (Op.DUP14, op (makeDup 14) GasFastestStep (minDupStack 14) (maxDupStack 14));
  (Op.DUP15, op (makeDup 15) GasFastestStep (minDupStack 15) (maxDupStack 15));
  (Op.DUP16, op (makeDup 16) GasFastestStep (minDupStack 16) (maxDupStack 16))
].

Definition frontier_swap : list (Z * operation S) := [
  (Op.SWAP1, op (makeSwap 1) GasFastestStep (minSwapStack 2) (maxSwapStack 2));
  (Op.SWAP2, op (makeSwap 2) GasFastestStep (minSwapStack 3) (maxSwapStack 3));
  (Op.SWAP3, op (makeSwap 3) GasFastestStep (minSwapStack 4) (maxSwapStack 4));
  (Op.SWAP4, op (makeSwap 4) GasFastestStep (minSwapStack 5) (maxSwapStack 5));
  (Op.SWAP5, op (makeSwap 5) GasFastestStep (minSwapStack 6) (maxSwapStack 6));
  (Op.SWAP6, op (makeSwap 6) GasFastestStep (minSwapStack 7) (maxSwapStack 7));
  (Op.SWAP7, op (makeSwap 7) GasFastestStep (minSwapStack 8) (maxSwapStack 8));
  (Op.SWAP8, op (makeSwap 8) GasFastestStep (minSwapStack 9) (maxSwapStack 9));
  (Op.SWAP9, op (makeSwap 9) GasFastestStep (minSwapStack 10) (maxSwapStack 10));
  (Op.SWAP10, op (makeSwap 10) GasFastestStep (minSwapStack 11) (maxSwapStack 11));
  (Op.SWAP11, op (makeSwap 11) GasFastestStep (minSwapStack 12) (maxSwapStack 12));
  (Op.SWAP12, op (makeSwap 12) GasFastestStep (minSwapStack 13) (maxSwapStack 13));
  (Op.SWAP13, op (makeSwap 13) GasFastestStep (minSwapStack 14) (maxSwapStack 14));
  (Op.SWAP14, op (makeSwap 14) GasFastestStep (minSwapStack 15) (maxSwapStack 15));
  (Op.SWAP15, op (makeSwap 15) GasFastestStep (minSwapStack 16) (maxSwapStack 16));
  (Op.SWAP16, op (makeSwap 16) GasFastestStep (minSwapStack 17) (maxSwapStack 17))
].

Definition frontier_log : list (Z * operation S) := [
  (Op.LOG0, writing (mems (dyn (op (makeLog 0) 0 (minStack 2 0) (maxStack 2 0)) (makeGasLog 0)) memoryLog));
  (Op.LOG1, writing (mems (dyn (op (makeLog 1) 0 (minStack 3 0) (maxStack 3 0)) (makeGasLog 1)) memoryLog));
  (Op.LOG2, writing (mems (dyn (op (makeLog 2) 0 (minStack 4 0) (maxStack 4 0)) (makeGasLog 2)) memoryLog));
  (Op.LOG3, writing (mems (dyn (op (makeLog 3) 0 (minStack 5 0) (maxStack 5 0)) (makeGasLog 3)) memoryLog));
  (Op.LOG4, writing (mems (dyn (op (makeLog 4) 0 (minStack 6 0) (maxStack 6 0)) (makeGasLog 4)) memoryLog))
].

Definition frontier_system : list (Z * operation S) := [
  (Op.CREATE, returning (writing (mems (dyn (op opCreate Params.CreateGas (minStack 3 1) (maxStack 3 1)) gasCreate) memoryCreate)));
  (Op.CALL, returning (mems (dyn (op opCall Params.CallGasFrontier (minStack 7 1) (maxStack 7 1)) (gasCall env)) memoryCall));
  (Op.CALLCODE, returning (mems (dyn (op opCallCode Params.CallGasFrontier (minStack 7 1) (maxStack 7 1)) (gasCallCode env)) memoryCall));
  (Op.RETURN, halting (mems (dyn (op opReturn 0 (minStack 2 0) (maxStack 2 0)) gasReturn) memoryReturn));
  (Op.SELFDESTRUCT, writing (halting (dyn (op opSuicide 0 (minStack 1 0) (maxStack 1 0)) (gasSelfdestruct env))))
].

Definition newFrontierInstructionSet : JumpTable S :=
  list_to_map (frontier_arithmetic ++
    frontier_comparison ++
    frontier_environment ++
    frontier_block ++
    frontier_memory ++
    frontier_push_low ++
    frontier_push_high ++
    frontier_dup ++
    frontier_swap ++
    frontier_log ++
    frontier_system).

Definition newHomesteadInstructionSet : JumpTable S :=
  let instructionSet := newFrontierInstructionSet in
  let instructionSet := <[Op.DELEGATECALL := returning (mems (dyn (op opDelegateCall Params.CallGasFrontier (minStack 6 1) (maxStack 6 1)) (gasDelegateCall env)) memoryDelegateCall)]> instructionSet in
  instructionSet.

(** [instructionSet[o].constantGas = g] *)
Definition reprice (o g : Z) (t : JumpTable S) : JumpTable S :=
  alter (fun x => set_constantGas x g) o t.

Definition newTangerineWhistleInstructionSet : JumpTable S :=
  let instructionSet := newHomesteadInstructionSet in
  let instructionSet := reprice Op.BALANCE Params.BalanceGasEIP150 instructionSet in
  let instructionSet := reprice Op.EXTCODESIZE Params.ExtcodeSizeGasEIP150 instructionSet in
  let instructionSet := reprice Op.SLOAD Params.SloadGasEIP150 instructionSet in
  let instructionSet := reprice Op.EXTCODECOPY Params.ExtcodeCopyBaseEIP150 instructionSet in
  let instructionSet := reprice Op.CALL Params.CallGasEIP150 instructionSet in
  let instructionSet := reprice Op.CALLCODE Params.CallGasEIP150 instructionSet in
  reprice Op.DELEGATECALL Params.CallGasEIP150 instructionSet.

Definition newSpuriousDragonInstructionSet : JumpTable S :=
  alter (fun x => dyn x gasExpEIP158) Op.EXP newTangerineWhistleInstructionSet.

Definition newByzantiumInstructionSet : JumpTable S :=
  let instructionSet := newSpuriousDragonInstructionSet in
  let instructionSet := <[Op.STATICCALL := returning (mems (dyn (op opStaticCall Params.CallGasEIP150 (minStack 6 1) (maxStack 6 1)) (gasStaticCall env)) memoryStaticCall)]> instructionSet in
  let instructionSet := <[Op.RETURNDATASIZE := op opReturnDataSize GasQuickStep (minStack 0 1) (maxStack 0 1)]> instructionSet in
  let instructionSet := <[Op.RETURNDATACOPY := mems (dyn (op opReturnDataCopy GasFastestStep (minStack 3 0) (maxStack 3 0)) gasReturnDataCopy) memoryReturnDataCopy]> instructionSet in
  let instructionSet := <[Op.REVERT := returning (reverting (mems (dyn (op opRevert 0 (minStack 2 0) (maxStack 2 0)) gasRevert) memoryRevert))]> instructionSet in
  instructionSet.

Definition newConstantinopleInstructionSet : JumpTable S :=
  let instructionSet := newByzantiumInstructionSet in
  let instructionSet := <[Op.SHL := op opSHL GasFastestStep (minStack 2 1) (maxStack 2 1)]> instructionSet in
  let instructionSet := <[Op.SHR := op opSHR GasFastestStep (minStack 2 1) (maxStack 2 1)]> instructionSet in
  let instructionSet := <[Op.SAR := op opSAR GasFastestStep (minStack 2 1) (maxStack 2 1)]> instructionSet in
  let instructionSet := <[Op.EXTCODEHASH := op opExtCodeHash Params.ExtcodeHashGasConstantinople (minStack 1 1) (maxStack 1 1)]> instructionSet in
  let instructionSet := <[Op.CREATE2 := returning (writing (mems (dyn (op opCreate2 Params.Create2Gas (minStack 4 1) (maxStack 4 1)) gasCreate2) memoryCreate2))]> instructionSet in
  instructionSet.

(** ** eips.go *)

Definition enable1884 (jt : JumpTable S) : JumpTable S :=
  let jt := reprice Op.BALANCE Params.BalanceGasEIP1884 jt in
  let jt := reprice Op.EXTCODEHASH Params.ExtcodeHashGasEIP1884 jt in
  let jt := reprice Op.SLOAD Params.SloadGasEIP1884 jt in
  <[Op.SELFBALANCE := op opSelfBalance GasFastStep (minStack 0 1) (maxStack 0 1)]> jt.

Definition enable1344 (jt : JumpTable S) : JumpTable S :=
  <[Op.CHAINID := op opChainID GasQuickStep (minStack 0 1) (maxStack 0 1)]> jt.

Definition enable2200 (jt : JumpTable S) : JumpTable S :=
  alter (fun x => dyn x gasSStoreEIP2200) Op.SSTORE jt.

(** The error names an EIP that is not known. *)
Definition EnableEIP (eipNum : Z) (jt : JumpTable S) : JumpTable S + Z :=
  if eipNum =? 2200 then inl (enable2200 jt)
  else if eipNum =? 1884 then inl (enable1884 jt)
  else if eipNum =? 1344 then inl (enable1344 jt)
  else inr eipNum.

Definition newIstanbulInstructionSet : JumpTable S :=
  let instructionSet := newConstantinopleInstructionSet in
  let instructionSet := enable1344 instructionSet in
  let instructionSet := enable1884 instructionSet in
  enable2200 instructionSet.

(** ** NewEVMInterpreter (interpreter.go) *)

Definition instructionSet : JumpTable S :=
  let rules := chainRules env in
  if IsIstanbul rules then newIstanbulInstructionSet
  else if IsConstantinople rules then newConstantinopleInstructionSet
  else if IsByzantium rules then newByzantiumInstructionSet
  else if IsEIP158 rules then newSpuriousDragonInstructionSet
  else if IsEIP150 rules then newTangerineWhistleInstructionSet
  else if IsHomestead rules then newHomesteadInstructionSet
  else newFrontierInstructionSet.

(** The loop over [cfg.ExtraEips] ranges over the slice header it starts with,
    whose array the deletions inside the loop shift: [arr] is that array, [len]
    the length of [cfg.ExtraEips] as deletions shorten it, [i] the next of the
    [n] indices left to visit.  Deleting index [i] is [append(s[:i],
    s[i+1:]...)], which panics when [i+1] exceeds the length. *)
Fixpoint enableExtraEips (n : nat) (i : nat) (arr : list Z) (len : nat) (jt : JumpTable S)
  : outcome (JumpTable S * list Z) :=
  match n with
  | O => Done (jt, take len arr)
  | Datatypes.S n =>
      let! eip := or_panic IndexOutOfRange (arr !! i) in
      match EnableEIP eip jt with
      | inl jt => enableExtraEips n (Datatypes.S i) arr len jt
      | inr _ =>
          if Nat.ltb len (Datatypes.S i) then Panic IndexOutOfRange
          else
            let arr := take i arr ++ take (len - Datatypes.S i) (drop (Datatypes.S i) arr)
                         ++ drop (len - 1) arr in
            enableExtraEips n (Datatypes.S i) arr (len - 1) jt
      end
  end.

(** The jump table of the interpreter and the extra EIPs left in its
    configuration. *)
Definition NewEVMInterpreter (extraEips : list Z) : outcome (JumpTable S * list Z) :=
  enableExtraEips (length extraEips) 0 extraEips (length extraEips) instructionSet.
End InstructionSets.
