(* ===== verification/VmInterp.v ===== *)
(** * core/vm: the interpreter loop and the calls (interpreter.go, evm.go)
    [step] is one iteration of the loop of [EVMInterpreter.Run]; [loop] iterates
    it with fuel, one unit per instruction executed at any depth along a chain
    of calls.  Calls are parameterised by the loop that runs the callee's code,
    and [calls n] ties the knot. *)

From S2P Require Import Prelude MathUtil VmBase VmEnv VmGas VmInstr VmTable.

Section Interp.
Context {S : Type} `{vmStateDB S}.
Variable env : Env.
Variable jt : JumpTable S.

(** ** One iteration of the loop *)

(** [return ret, err], or the next iteration. *)
Inductive stepResult :=
  | Next (f : Frame S)
  | Stop (f : Frame S) (ret : bytes) (err : option vmError).

Definition stop_err (f : Frame S) (e : vmError) : outcome stepResult := Done (Stop f [] (Some e)).

(** The write restriction of a static call. *)
Definition write_protected (op : Z) (o : operation S) (f : Frame S) : outcome bool :=
  if readOnly (evm f) && IsByzantium (chainRules env) then
    if writes o then Done true
    else if op =? Op.CALL then let! v := Stack.Back (stack f) 2 in Done (negb (v =? 0))
    else Done false
  else Done false.

(** The memory the operation needs, in bytes rounded up to words. *)
Definition required_memory (o : operation S) (f : Frame S) : outcome (Z + vmError) :=
  match memorySize o with
  | None => Done (inl 0)
  | Some g =>
      let! '(memSize, overflow) := g (stack f) in
      if overflow then Done (inr errGasUintOverflow)
      else
        let '(size, overflow) := SafeMul (toWordSize memSize) 32 in
        Done (if overflow then inr errGasUintOverflow else inl size)
  end.

(** Dynamic gas; [false] when it cannot be computed or paid. *)
Definition charge_dynamic (o : operation S) (memorySize : Z) (f : Frame S) : outcome (Frame S * bool) :=
  match dynamicGas o with
  | None => Done (f, true)
  | Some g =>
      let! '(e, m, r) := g (contract f) (stack f) memorySize (evm f) (memory f) in
      let f := with_memory (with_evm f e) m in
      match r with
      | inr _ => Done (f, false)
      | inl dynamicCost =>
          let '(c, ok) := UseGas (contract f) dynamicCost in Done (with_contract f c, ok)
      end
  end.

(** [mem.Resize]; when the memory moves to a new array, return data that was
    backed by the old array keeps the bytes it has. *)
Definition expand (memorySize : Z) (f : Frame S) : Frame S :=
  if 0 <? memorySize then
    let f := if Memory.reallocates (memory f) memorySize
             then with_evm f (set_returnData (evm f)
                                (RVal (rdBytes (memory f) (returnData (evm f)))))
             else f in
    with_memory f (Memory.Resize (growslice env) (memory f) memorySize)
  else f.

(** The end of an iteration, after [execute]. *)
Definition conclude (o : operation S) (f : Frame S) (res : retData) (err : option vmError) : stepResult :=
  let f := if returns o then with_evm f (set_returnData (evm f) res) else f in
  match err with
  | Some e => Stop f [] (Some e)
  | None =>
      if reverts o then Stop f (rdBytes (memory f) res) (Some errExecutionReverted)
      else if halts o then Stop f (rdBytes (memory f) res) None
      else if negb (jumps o) then Next (with_pc f (u64 (pc f + 1)))
      else Next f
  end.

Definition step (calls : Calls S) (f : Frame S) : outcome stepResult :=
  let op := GetOp (contract f) (pc f) in
  match jt !! op with
  | None => stop_err f (errInvalidOpcode op)
  | Some o =>
      let sLen := Stack.len (stack f) in
      if sLen <? op_minStack o then stop_err f (errStackUnderflow sLen (op_minStack o))
      else if op_maxStack o <? sLen then stop_err f (errStackLimit sLen (op_maxStack o))
      else
        let! protected := write_protected op o f in
        if protected then stop_err f errWriteProtection
        else
          let '(c, paid) := UseGas (contract f) (constantGas o) in
          let f := with_contract f c in
          if negb paid then stop_err f ErrOutOfGas
          else
            let! size := required_memory o f in
            match size with
            | inr e => stop_err f e
            | inl memorySize =>
                let! '(f, paid) := charge_dynamic o memorySize f in
                if negb paid then stop_err f ErrOutOfGas
                else
                  let! '(f, res, err) := execute o env calls (expand memorySize f) in
                  Done (conclude o f res err)
            end
  end.

(** ** Running a contract *)

Definition loopFunc := Frame S -> outcome (Frame S * bytes * option vmError).

Section WithLoop.
Variable lp : loopFunc.

(** [EVMInterpreter.Run] without the integer pool, the tracer and the abort
    flag.  The deferred functions run on every return. *)
Definition Run (e : EVM S) (c : Contract) (input : bytes) (readOnly_ : bool)
  : outcome (EVM S * Contract * bytes * option vmError) :=
  let e := set_depth e (depth e + 1) in
  let setsReadOnly := readOnly_ && negb (readOnly e) in
  let e := if setsReadOnly then set_readOnly e true else e in
  let e := set_returnData e (RVal []) in
  let! '(e, c, ret, err) :=
    match Code c with
    | [] => Done (e, c, [], None)
    | _ =>
        let! '(f, ret, err) := lp (mkFrame 0 e (set_Input c input) Memory.NewMemory Stack.newstack) in
        let e := set_returnData (evm f) (RVal (rdBytes (memory f) (returnData (evm f)))) in
        Done (e, contract f, ret, err)
    end in
  let e := if setsReadOnly then set_readOnly e false else e in
  Done (set_depth e (depth e - 1), c, ret, err).

(** [run]: a native contract, or the interpreter. *)
Definition run (e : EVM S) (c : Contract) (input : bytes) (readOnly_ : bool)
  : outcome (EVM S * Contract * Ret * option vmError) :=
  match CodeAddr c ≫= (fun a => precompiles env !! a) with
  | Some p =>
      let! '(c, r, err) := RunPrecompiledContract p input c in Done (e, c, r, err)
  | None =>
      let! '(e, c, r, err) := Run e c input readOnly_ in Done (e, c, fresh r, err)
  end.

(** The jump-destination map of a new contract: the caller's, or a new one. *)
Definition enter (caller : ContractRef) (e : EVM S) : EVM S :=
  match caller with
  | AccountRef _ => set_jumpdests e ∅
  | ContractPtr _ _ _ => e
  end.

(** What every call does with the result of [run]: on an error the state goes
    back to the snapshot, and the remaining gas is consumed unless the code
    executed REVERT. *)
Definition settle (snapshot : Z) (e : EVM S) (c : Contract) (r : Ret) (err : option vmError)
  : outcome (EVM S * CallResult) :=
  match err with
  | None => Done (e, mkCallResult r (Gas c) None)
  | Some er =>
      let! s := RevertToSnapshot (StateDB e) snapshot in
      let e := set_StateDB e s in
      let c := if bool_decide (er = errExecutionReverted) then c else fst (UseGas c (Gas c)) in
      Done (e, mkCallResult r (Gas c) (Some er))
  end.

Definition give_back (e : EVM S) (gas : Z) (err : option vmError) : outcome (EVM S * CallResult) :=
  Done (e, mkCallResult (fresh []) gas err).

Definition EVM_Call (e : EVM S) (caller : ContractRef) (addr : Address) (input : bytes)
    (gas value : Z) : outcome (EVM S * CallResult) :=
  if NoRecursion (vmConfig env) && (0 <? depth e) then give_back e gas None
  else if Params.CallCreateDepth <? depth e then give_back e gas (Some ErrDepth)
  else if negb (CanTransfer (StateDB e) (ref_Address caller) value)
  then give_back e gas (Some ErrInsufficientBalance)
  else
    let '(s, snapshot) := Snapshot (StateDB e) in
    let e := set_StateDB e s in
    if negb (Exist s addr) && bool_decide (precompiles env !! addr = None)
         && IsEIP158 (chainRules env) && (value =? 0)
    then give_back e gas None
    else
      let s := if negb (Exist s addr) then CreateAccount s addr else s in
      let s := Transfer s (ref_Address caller) addr value in
      let e := enter caller (set_StateDB e s) in
      let c := NewContract caller addr value gas in
      let c := SetCallCode c (Some addr) (GetCodeHash s addr) (GetCode s addr) in
      let! '(e, c, r, err) := run e c input false in
      settle snapshot e c r err.

Definition EVM_CallCode (e : EVM S) (caller : ContractRef) (addr : Address) (input : bytes)
    (gas value : Z) : outcome (EVM S * CallResult) :=
  if NoRecursion (vmConfig env) && (0 <? depth e) then give_back e gas None
  else if Params.CallCreateDepth <? depth e then give_back e gas (Some ErrDepth)
  else if negb (CanTransfer (StateDB e) (ref_Address caller) value)
  then give_back e gas (Some ErrInsufficientBalance)
  else
    let '(s, snapshot) := Snapshot (StateDB e) in
    let e := enter caller (set_StateDB e s) in
    let c := NewContract caller (ref_Address caller) value gas in
    let c := SetCallCode c (Some addr) (GetCodeHash s addr) (GetCode s addr) in
    let! '(e, c, r, err) := run e c input false in
    settle snapshot e c r err.

Definition EVM_DelegateCall (e : EVM S) (caller : ContractRef) (addr : Address) (input : bytes)
    (gas : Z) : outcome (EVM S * CallResult) :=
  if NoRecursion (vmConfig env) && (0 <? depth e) then give_back e gas None
  else if Params.CallCreateDepth <? depth e then give_back e gas (Some ErrDepth)
  else
    let '(s, snapshot) := Snapshot (StateDB e) in
    let e := enter caller (set_StateDB e s) in
    let! c := AsDelegate (NewContract caller (ref_Address caller) 0 gas) in
    let c := SetCallCode c (Some addr) (GetCodeHash s addr) (GetCode s addr) in
    let! '(e, c, r, err) := run e c input false in
    settle snapshot e c r err.

Definition EVM_StaticCall (e : EVM S) (caller : ContractRef) (addr : Address) (input : bytes)
    (gas : Z) : outcome (EVM S * CallResult) :=
  if NoRecursion (vmConfig env) && (0 <? depth e) then give_back e gas None
  else if Params.CallCreateDepth <? depth e then give_back e gas (Some ErrDepth)
  else
    let '(s, snapshot) := Snapshot (StateDB e) in
    let e := enter caller (set_StateDB e s) in
    let c := NewContract caller addr 0 gas in
    let c := SetCallCode c (Some addr) (GetCodeHash s addr) (GetCode s addr) in
    let e := set_StateDB e (AddBalance s addr 0) in
    let! '(e, c, r, err) := run e c input true in
    settle snapshot e c r err.

(** ** Contract creation *)

Definition emptyCodeHash : Hash := keccak256 env [].

(** The end of [create], after [run]. *)
Definition settle_create (snapshot : Z) (address : Address) (e : EVM S) (c : Contract)
    (ret : bytes) (err : option vmError) : outcome (EVM S * CreateResult) :=
  let maxCodeSizeExceeded := IsEIP158 (chainRules env) && (Params.MaxCodeSize <? zlen ret) in
  let '(e, c, err) :=
    if bool_decide (err = None) && negb maxCodeSizeExceeded then
      let createDataGas := u64 (zlen ret * Params.CreateDataGas) in
      let '(c, ok) := UseGas c createDataGas in
      if ok then (set_StateDB e (SetCode (StateDB e) address ret), c, err)
      else (e, c, Some ErrCodeStoreOutOfGas)
    else (e, c, err) in
  let! '(e, c) :=
    if maxCodeSizeExceeded
       || (bool_decide (err <> None)
           && (IsHomestead (chainRules env) || bool_decide (err <> Some ErrCodeStoreOutOfGas)))
    then
      let! s := RevertToSnapshot (StateDB e) snapshot in
      let c := if bool_decide (err <> Some errExecutionReverted) then fst (UseGas c (Gas c)) else c in
      Done (set_StateDB e s, c)
    else Done (e, c) in
  let err := if maxCodeSizeExceeded && bool_decide (err = None)
             then Some errMaxCodeSizeExceeded else err in
  Done (e, mkCreateResult ret address (Gas c) err).

Definition create (e : EVM S) (caller : ContractRef) (code : bytes) (hash : Hash) (gas value : Z)
    (address : Address) : outcome (EVM S * CreateResult) :=
  if Params.CallCreateDepth <? depth e then Done (e, mkCreateResult [] 0 gas (Some ErrDepth))
  else if negb (CanTransfer (StateDB e) (ref_Address caller) value)
  then Done (e, mkCreateResult [] 0 gas (Some ErrInsufficientBalance))
  else
    let s := StateDB e in
    let nonce := GetNonce s (ref_Address caller) in
    let s := SetNonce s (ref_Address caller) (u64 (nonce + 1)) in
    let contractHash := GetCodeHash s address in
    if negb (GetNonce s address =? 0)
       || (negb (contractHash =? 0) && negb (contractHash =? emptyCodeHash))
    then Done (set_StateDB e s, mkCreateResult [] 0 0 (Some ErrContractAddressCollision))
    else
      let '(s, snapshot) := Snapshot s in
      let s := CreateAccount s address in
      let s := if IsEIP158 (chainRules env) then SetNonce s address 1 else s in
      let s := Transfer s (ref_Address caller) address value in
      let e := enter caller (set_StateDB e s) in
      let c := NewContract caller address value gas in
      let c := SetCallCode c (Some address) hash code in
      if NoRecursion (vmConfig env) && (0 <? depth e)
      then Done (e, mkCreateResult [] address gas None)
      else
        let! '(e, c, r, err) := run e c [] false in
        settle_create snapshot address e c (ret_bytes r) err.

Definition EVM_Create (e : EVM S) (caller : ContractRef) (code : bytes) (gas value : Z)
  : outcome (EVM S * CreateResult) :=
  let contractAddr :=
    createAddress env (ref_Address caller) (GetNonce (StateDB e) (ref_Address caller)) in
  create e caller code 0 gas value contractAddr.

Definition EVM_Create2 (e : EVM S) (caller : ContractRef) (code : bytes) (gas endowment salt : Z)
  : outcome (EVM S * CreateResult) :=
  let hash := keccak256 env code in
  let contractAddr := createAddress2 env (ref_Address caller) (BigToHash salt) hash in
  create e caller code hash gas endowment contractAddr.

Definition calls : Calls S :=
  mkCalls EVM_Call EVM_CallCode EVM_DelegateCall EVM_StaticCall EVM_Create EVM_Create2.
End WithLoop.

(** ** The loop *)

Fixpoint loop (n : nat) (f : Frame S) : outcome (Frame S * bytes * option vmError) :=
  match n with
  | O => OutOfFuel
  | Datatypes.S n =>
      let! r := step (calls (loop n)) f in
      match r with
      | Next f => loop n f
      | Stop f ret err => Done (f, ret, err)
      end
  end.
End Interp.
Arguments Next {S}.
Arguments Stop {S}.
