(* ===== verification/VmAnalysis.v ===== *)
(** * core/vm: correctness of the jump-destination analysis
    [codeBitmap] (analysis.go) marks exactly the bytes of a program that are
    data of a PUSH instruction, so [validJumpdest] (contract.go) accepts exactly
    the JUMPDEST bytes that start an instruction. *)

From S2P Require Import Prelude MathUtil VmBase VmEnv.
Import Analysis.

(** ** Reference definition *)

(** The number of data bytes that follow an opcode. *)
Definition push_size (op : Z) : Z :=
  if (PUSH1 <=? op) && (op <=? PUSH32) then op - PUSH1 + 1 else 0.

(** The offsets at which instructions start, read from the beginning. *)
Inductive starts (code : bytes) : Z -> Prop :=
  | starts_0 : starts code 0
  | starts_next p op : starts code p -> 0 <= p -> code !! Z.to_nat p = Some op ->
      starts code (p + 1 + push_size (Z_of_byte op)).

(** ** Bits of a bit vector *)

Definition bit (bits : bitvec) (p : Z) : bool :=
  match bits !! Z.to_nat (p / 8) with
  | Some b => Z.testbit (Z_of_byte b) (7 - p mod 8)
  | None => false
  end.

Lemma mask_bits k j :
  0 <= k < 8 -> 0 <= j < 8 ->
  Z.testbit (Z.shiftr 0x80 k) (7 - j) = (j =? k) /\
  Z.testbit (Z.shiftr 0xFF k) (7 - j) = (k <=? j) /\
  Z.testbit (Z.lxor 0xFF (Z.shiftr 0xFF k)) (7 - j) = (j <? k).
Proof.
  intros Hk Hj.
  assert (forall x, 0 <= x < 8 -> x = 0 \/ x = 1 \/ x = 2 \/ x = 3 \/ x = 4 \/ x = 5 \/ x = 6 \/ x = 7)
    as H8 by lia.
  destruct (H8 k Hk) as [->|[->|[->|[->|[->|[->|[->| ->]]]]]]],
    (H8 j Hj) as [->|[->|[->|[->|[->|[->|[->| ->]]]]]]]; by vm_compute.
Qed.

Lemma mask_range k :
  0 <= k < 8 ->
  0 <= Z.shiftr 0x80 k < 256 /\ 0 <= Z.shiftr 0xFF k < 256 /\
  0 <= Z.lxor 0xFF (Z.shiftr 0xFF k) < 256.
Proof.
  intros Hk.
  assert (k = 0 \/ k = 1 \/ k = 2 \/ k = 3 \/ k = 4 \/ k = 5 \/ k = 6 \/ k = 7)
    as [->|[->|[->|[->|[->|[->|[->| ->]]]]]]] by lia; vm_compute; intuition congruence.
Qed.

Lemma lor_byte a m : 0 <= a < 256 -> 0 <= m < 256 -> 0 <= Z.lor a m < 256.
Proof.
  intros Ha Hm. assert (0 <= Z.lor a m) by (apply Z.lor_nonneg; lia). split; [done|].
  destruct (Z.eq_dec (Z.lor a m) 0) as [->|Hn]; [lia|].
  apply (Z.log2_lt_pow2 _ 8); [lia|].
  rewrite Z.log2_lor by lia. apply Z.max_lub_lt.
  - destruct (Z.eq_dec a 0) as [->|]; [done|]. apply (Z.log2_lt_pow2 a 8); lia.
  - destruct (Z.eq_dec m 0) as [->|]; [done|]. apply (Z.log2_lt_pow2 m 8); lia.
Qed.

Lemma or_at_spec bits i mask :
  0 <= i < zlen bits -> 0 <= mask < 256 ->
  exists bits', or_at bits i mask = Done bits' /\ length bits' = length bits /\
    forall p, 0 <= p -> bit bits' p = bit bits p || ((p / 8 =? i) && Z.testbit mask (7 - p mod 8)).
Proof.
  intros Hi Hm.
  destruct (lookup_lt_is_Some_2 bits (Z.to_nat i)) as [b Hb]; [lia|].
  unfold or_at. rewrite Hb. simpl. eexists; split; [done|]. split; [by rewrite length_insert|].
  intros p Hp. unfold bit. assert (0 <= p / 8) by (apply Z.div_pos; lia).
  destruct (Z.eqb_spec (p / 8) i) as [->|Hne].
  - rewrite list_lookup_insert_eq, Hb by lia.
    rewrite Z_of_byte_of_Z, Z.mod_small by (apply lor_byte; [apply Z_of_byte_range|done]).
    by rewrite Z.lor_spec.
  - rewrite list_lookup_insert_ne by lia. by rewrite orb_false_r.
Qed.

Lemma set_spec bits pos :
  0 <= pos -> pos / 8 < zlen bits ->
  exists bits', set bits pos = Done bits' /\ length bits' = length bits /\
    forall p, 0 <= p -> bit bits' p = bit bits p || (p =? pos).
Proof.
  intros H0 Hl. assert (0 <= pos / 8) by (apply Z.div_pos; lia).
  pose proof (Z.mod_pos_bound pos 8 ltac:(lia)) as Hk.
  unfold set. destruct (or_at_spec bits (pos / 8) (Z.shiftr 0x80 (pos mod 8))) as (b' & -> & Hlen & Hb);
    [lia|by apply mask_range|].
  eexists; split; [done|]. split; [done|]. intros p Hp. rewrite Hb by done. f_equal.
  rewrite (proj1 (mask_bits _ _ Hk (Z.mod_pos_bound p 8 ltac:(lia)))).
  pose proof (Z.div_mod p 8 ltac:(lia)). pose proof (Z.div_mod pos 8 ltac:(lia)).
  apply eq_true_iff_eq. rewrite andb_true_iff, !Z.eqb_eq.
  split; [intros []; lia|by intros ->].
Qed.

Lemma set8_spec bits pos :
  0 <= pos -> pos / 8 + 1 < zlen bits ->
  exists bits', set8 bits pos = Done bits' /\ length bits' = length bits /\
    forall p, 0 <= p -> bit bits' p = bit bits p || ((pos <=? p) && (p <? pos + 8)).
Proof.
  intros H0 Hl. assert (0 <= pos / 8) by (apply Z.div_pos; lia).
  pose proof (Z.mod_pos_bound pos 8 ltac:(lia)) as Hk.
  unfold set8.
  destruct (or_at_spec bits (pos / 8) (Z.shiftr 0xFF (pos mod 8))) as (b1 & -> & Hlen1 & Hb1);
    [lia|by apply mask_range|]. simpl.
  destruct (or_at_spec b1 (pos / 8 + 1) (Z.lxor 0xFF (Z.shiftr 0xFF (pos mod 8))))
    as (b2 & -> & Hlen2 & Hb2); [lia|by apply mask_range|].
  eexists; split; [done|]. split; [congruence|]. intros p Hp. rewrite Hb2, Hb1 by done.
  rewrite <-orb_assoc. f_equal.
  destruct (mask_bits _ _ Hk (Z.mod_pos_bound p 8 ltac:(lia))) as (_ & -> & ->).
  pose proof (Z.div_mod p 8 ltac:(lia)). pose proof (Z.div_mod pos 8 ltac:(lia)).
  pose proof (Z.mod_pos_bound p 8 ltac:(lia)).
  apply eq_true_iff_eq.
  rewrite orb_true_iff, !andb_true_iff, !Z.eqb_eq, !Z.leb_le, !Z.ltb_lt. lia.
Qed.

(** ** The marking loops *)

Definition in_range (a n p : Z) : bool := (a <=? p) && (p <? a + n).

Lemma in_range_0 a p : in_range a 0 p = false.
Proof. unfold in_range. apply not_true_iff_false. rewrite andb_true_iff, Z.leb_le, Z.ltb_lt. lia. Qed.

Lemma in_range_split a n m p :
  0 <= n -> 0 <= m -> in_range a n p || in_range (a + n) m p = in_range a (n + m) p.
Proof.
  intros. unfold in_range. apply eq_true_iff_eq.
  rewrite orb_true_iff, !andb_true_iff, !Z.leb_le, !Z.ltb_lt. lia.
Qed.

Lemma set_loop_spec n : forall bits pc numbits,
  0 <= pc -> 0 <= numbits <= Z.of_nat n -> (pc + numbits) / 8 < zlen bits ->
  exists bits', set_loop n bits pc numbits = Done (bits', pc + numbits) /\
    length bits' = length bits /\
    forall p, 0 <= p -> bit bits' p = bit bits p || in_range pc numbits p.
Proof.
  induction n as [|n IH]; intros bits pc numbits Hpc Hn Hl; simpl.
  - replace numbits with 0 by lia. rewrite Z.add_0_r. eexists; split_and!; [done..|].
    intros p _. by rewrite in_range_0, orb_false_r.
  - destruct (Z.ltb_spec 0 numbits).
    + destruct (set_spec bits pc) as (b1 & -> & Hl1 & Hb1); [lia| |].
      { eapply Z.le_lt_trans; [|apply Hl]. apply Z.div_le_mono; lia. }
      simpl. destruct (IH b1 (pc + 1) (numbits - 1)) as (b2 & -> & Hl2 & Hb2); [lia..| |].
      { rewrite Hl1. by replace (pc + 1 + (numbits - 1)) with (pc + numbits) by lia. }
      eexists; split_and!; [do 2 f_equal; lia|congruence|]. intros p Hp.
      rewrite Hb2, Hb1, <-orb_assoc by done. f_equal.
      replace (p =? pc) with (in_range pc 1 p); [rewrite in_range_split by lia; f_equal; lia|].
      unfold in_range. apply eq_true_iff_eq. rewrite andb_true_iff, Z.leb_le, Z.ltb_lt, Z.eqb_eq. lia.
    + replace numbits with 0 by lia. rewrite Z.add_0_r. eexists; split_and!; [done..|].
      intros p _. by rewrite in_range_0, orb_false_r.
Qed.

Lemma set8_loop_spec n : forall bits pc numbits,
  0 <= pc -> 0 <= numbits <= 8 * Z.of_nat n -> (pc + numbits) / 8 < zlen bits ->
  exists bits' k, 0 <= k <= numbits /\ numbits - k < 8 /\
    set8_loop n bits pc numbits = Done (bits', pc + k, numbits - k) /\
    length bits' = length bits /\
    forall p, 0 <= p -> bit bits' p = bit bits p || in_range pc k p.
Proof.
  induction n as [|n IH]; intros bits pc numbits Hpc Hn Hl; simpl.
  - exists bits, 0. split_and!; [lia..|by rewrite Z.add_0_r, Z.sub_0_r|done|].
    intros p _. by rewrite in_range_0, orb_false_r.
  - destruct (Z.leb_spec 8 numbits).
    + destruct (set8_spec bits pc) as (b1 & -> & Hl1 & Hb1); [lia| |].
      { eapply Z.le_lt_trans; [|apply Hl]. rewrite <-(Z.div_add pc 1 8) by lia.
        apply Z.div_le_mono; lia. }
      simpl. destruct (IH b1 (pc + 8) (numbits - 8)) as (b2 & k & Hk & Hk' & -> & Hl2 & Hb2); [lia..| |].
      { rewrite Hl1. by replace (pc + 8 + (numbits - 8)) with (pc + numbits) by lia. }
      exists b2, (k + 8). split_and!; [lia..|f_equal; f_equal; [f_equal|]; lia|congruence|]. intros p Hp.
      rewrite Hb2, Hb1, <-orb_assoc by done. f_equal.
      change ((pc <=? p) && (p <? pc + 8)) with (in_range pc 8 p).
      rewrite in_range_split by lia. f_equal. lia.
    + exists bits, 0. split_and!; [lia..|by rewrite Z.add_0_r, Z.sub_0_r|done|].
      intros p _. by rewrite in_range_0, orb_false_r.
Qed.

Lemma mark_push_spec bits pc numbits :
  0 <= pc -> 0 <= numbits <= 32 -> (pc + numbits) / 8 < zlen bits ->
  exists bits1 pc1 n1 bits2,
    set8_loop 4 bits pc numbits = Done (bits1, pc1, n1) /\
    set_loop 7 bits1 pc1 n1 = Done (bits2, pc + numbits) /\
    length bits2 = length bits /\
    forall p, 0 <= p -> bit bits2 p = bit bits p || in_range pc numbits p.
Proof.
  intros Hpc Hn Hl.
  destruct (set8_loop_spec 4 bits pc numbits) as (b1 & k & Hk & Hk' & E1 & Hl1 & Hb1); [lia..|].
  destruct (set_loop_spec 7 b1 (pc + k) (numbits - k)) as (b2 & E2 & Hl2 & Hb2); [lia..| |].
  { rewrite Hl1. by replace (pc + k + (numbits - k)) with (pc + numbits) by lia. }
  exists b1, (pc + k), (numbits - k), b2. split_and!; [done| |congruence|].
  - rewrite E2. do 2 f_equal. lia.
  - intros p Hp. rewrite Hb2, Hb1, <-orb_assoc, in_range_split by lia. repeat f_equal. lia.
Qed.

(** ** Instruction starts *)

Lemma push_size_range op : 0 <= push_size op <= 32.
Proof.
  unfold push_size, PUSH1, PUSH32.
  destruct (Z.leb_spec 0x60 op), (Z.leb_spec op 0x7f); simpl; lia.
Qed.

Lemma starts_nonneg code p : starts code p -> 0 <= p.
Proof. induction 1 as [|p op]; [lia|]. pose proof (push_size_range (Z_of_byte op)). lia. Qed.

(** No instruction starts inside the data of another one. *)
Lemma starts_gap code p q op :
  starts code p -> starts code q -> code !! Z.to_nat p = Some op -> p < q ->
  p + 1 + push_size (Z_of_byte op) <= q.
Proof.
  intros Hp Hq Hop. pose proof (starts_nonneg _ _ Hp). pose proof (starts_nonneg _ _ Hq).
  remember (Z.to_nat q) as m eqn:Hm. assert (q <= Z.of_nat m) as Hle by lia. clear Hm.
  revert p q op Hp Hq Hop Hle H H0. induction m as [|m IH]; intros p q op Hp Hq Hop Hm Hp0 Hq0 Hlt; [lia|].
  inversion Hq as [|q' op' Hq' Hq'0 Hop' Heq]; [lia|]. subst q.
  pose proof (push_size_range (Z_of_byte op')).
  destruct (Z.lt_trichotomy p q') as [Hc|[->|Hc]].
  - specialize (IH p q' op Hp Hq' Hop). lia.
  - rewrite Hop in Hop'. simplify_eq. lia.
  - specialize (IH q' p op' Hq' Hp Hop'). lia.
Qed.

Lemma not_in_push code p op q :
  starts code p -> code !! Z.to_nat p = Some op ->
  p < q < p + 1 + push_size (Z_of_byte op) -> ~ starts code q.
Proof. intros Hp Hop Hq Hs. pose proof (starts_gap _ _ _ _ Hp Hs Hop). lia. Qed.

(** ** The bitmap *)

#[local] Arguments set8_loop : simpl never.
#[local] Arguments set_loop : simpl never.

(** What is known of the bits when the scan is at [pc]. *)
Definition marked (code : bytes) (bits : bitvec) (pc : Z) : Prop :=
  starts code pc /\
  (forall p, 0 <= p < pc -> bit bits p = false <-> starts code p) /\
  (forall p, pc <= p -> bit bits p = false).

Lemma marked_step code bits bits' pc op :
  marked code bits pc -> code !! Z.to_nat pc = Some op ->
  (forall p, 0 <= p -> bit bits' p = bit bits p || in_range (pc + 1) (push_size (Z_of_byte op)) p) ->
  marked code bits' (pc + 1 + push_size (Z_of_byte op)).
Proof.
  intros (Hs & Hlo & Hhi) Hop Hb. pose proof (starts_nonneg _ _ Hs).
  pose proof (push_size_range (Z_of_byte op)). split_and!.
  - by apply starts_next.
  - intros p Hp. rewrite Hb by lia. destruct (in_range _ _ p) eqn:Hr; unfold in_range in Hr.
    + rewrite andb_true_iff, Z.leb_le, Z.ltb_lt in Hr. rewrite orb_true_r.
      split; [done|]. intros Hsp. destruct (not_in_push code pc op p); [done..|lia|done].
    + rewrite orb_false_r. apply andb_false_iff in Hr. rewrite Z.leb_gt, Z.ltb_ge in Hr.
      destruct (Z.eq_dec p pc) as [->|]; [by rewrite Hhi by lia|apply Hlo; lia].
  - intros p Hp. rewrite Hb by lia. rewrite Hhi by lia. simpl. unfold in_range.
    apply andb_false_iff. rewrite Z.leb_gt, Z.ltb_ge. lia.
Qed.

Lemma codeBitmap_loop_spec n : forall code bits pc,
  marked code bits pc -> zlen code <= pc + Z.of_nat n -> zlen code / 8 + 5 <= zlen bits ->
  exists bits', codeBitmap_loop n code bits pc = Done bits' /\ length bits' = length bits /\
    forall p, 0 <= p < zlen code -> bit bits' p = false <-> starts code p.
Proof.
  induction n as [|n IH]; intros code bits pc Hm Hn Hl; simpl;
    pose proof (starts_nonneg _ _ (proj1 Hm)) as Hpc.
  { exists bits. split_and!; [done..|]. intros p Hp. apply Hm. lia. }
  destruct (code !! Z.to_nat pc) as [op|] eqn:Hop; last first.
  { exists bits. split_and!; [done..|]. apply lookup_ge_None in Hop. intros p Hp. apply Hm. lia. }
  pose proof (lookup_lt_Some _ _ _ Hop). pose proof (push_size_range (Z_of_byte op)).
  assert (forall b, (forall p, 0 <= p -> bit b p = bit bits p ||
      in_range (pc + 1) (push_size (Z_of_byte op)) p) -> length b = length bits ->
    exists bits', codeBitmap_loop n code b (pc + 1 + push_size (Z_of_byte op)) = Done bits' /\
      length bits' = length bits /\
      forall p, 0 <= p < zlen code -> bit bits' p = false <-> starts code p) as Hnext.
  { intros b Hb Hlb. destruct (IH code b (pc + 1 + push_size (Z_of_byte op))) as (b' & -> & Hl' & ?);
      [by eapply marked_step|lia|by rewrite Hlb|]. exists b'. split_and!; [done|congruence|done]. }
  unfold push_size in *. destruct (_ && _) eqn:Hpush.
  - destruct (mark_push_spec bits (pc + 1) (Z_of_byte op - PUSH1 + 1)) as (b1 & pc1 & n1 & b2 & -> & E & Hl2 & Hb2); [lia..| |].
    { eapply Z.le_lt_trans with ((zlen code + 32) / 8); [apply Z.div_le_mono; lia|].
      replace (zlen code + 32) with (zlen code + 4 * 8) by lia. rewrite Z.div_add by lia. lia. }
    simpl. rewrite E. simpl. by apply Hnext.
  - destruct (Hnext bits) as (b' & Hb' & ?); [|done|].
    { intros p _. by rewrite in_range_0, orb_false_r. }
    rewrite Z.add_0_r in Hb'. eauto.
Qed.

Lemma bit_zeros n p : bit (replicate n Byte.x00) p = false.
Proof.
  unfold bit. destruct (_ !! _) eqn:E; [|done].
  apply lookup_replicate in E as [-> _]. apply Z.bits_0.
Qed.

Lemma codeBitmap_spec code :
  exists bits, codeBitmap code = Done bits /\ zlen code / 8 + 5 <= zlen bits /\
    forall p, 0 <= p < zlen code -> bit bits p = false <-> starts code p.
Proof.
  unfold codeBitmap.
  destruct (codeBitmap_loop_spec (length code) code
    (replicate (length code / 8 + 1 + 4) Byte.x00) 0) as (bits & -> & Hl & Hb).
  - split_and!; [constructor|lia|]. intros; apply bit_zeros.
  - lia.
  - rewrite length_replicate, !Nat2Z.inj_add, Nat2Z.inj_div. lia.
  - exists bits. split_and!; [done| |done].
    rewrite Hl, length_replicate, !Nat2Z.inj_add, Nat2Z.inj_div. lia.
Qed.

Lemma codeSegment_bit bits p :
  0 <= p -> p / 8 < zlen bits -> codeSegment bits p = Done (negb (bit bits p)).
Proof.
  intros Hp Hl. assert (0 <= p / 8) by (apply Z.div_pos; lia).
  unfold codeSegment, bit. destruct (lookup_lt_is_Some_2 bits (Z.to_nat (p / 8))) as [b Hb]; [lia|].
  rewrite Hb. simpl. f_equal. pose proof (Z.mod_pos_bound p 8 ltac:(lia)) as Hk.
  replace (Z.shiftr 128 (p mod 8)) with (2 ^ (7 - p mod 8)).
  - destruct (Z.testbit _ _) eqn:Ht; simpl.
    + apply Z.eqb_neq. intros H0. assert (Z.testbit 0 (7 - p mod 8) = true) as Hc; [|by rewrite Z.bits_0 in Hc].
      rewrite <-H0, Z.land_spec, Ht, Z.pow2_bits_true by lia. done.
    + apply Z.eqb_eq, Z.bits_inj'. intros i Hi. rewrite Z.land_spec, Z.bits_0.
      destruct (Z.eq_dec i (7 - p mod 8)) as [->|]; [by rewrite Ht|].
      rewrite Z.pow2_bits_false by lia. by rewrite andb_false_r.
  - change 128 with (2 ^ 7). rewrite Z.shiftr_div_pow2, <-Z.pow_sub_r by lia. done.
Qed.

Lemma codeBitmap_segment code bits p :
  codeBitmap code = Done bits -> 0 <= p < zlen code ->
  exists b, codeSegment bits p = Done b /\ (b = true <-> starts code p).
Proof.
  intros E Hp. destruct (codeBitmap_spec code) as (bits' & E' & Hl & Hb).
  rewrite E in E'. simplify_eq.
  rewrite codeSegment_bit; [|lia|].
  - eexists; split; [done|]. specialize (Hb p Hp). rewrite <-Hb. by destruct (bit _ p).
  - apply Z.le_lt_trans with (zlen code / 8); [apply Z.div_le_mono; lia|lia].
Qed.

(** ** Jump validation *)

Section Jumpdest.
Variable keccak : bytes -> Hash.
Hypothesis keccak_inj : forall x y, keccak x = keccak y -> x = y.

(** Every cached bitmap is the one of the code with that hash. *)
Definition jumpdests_ok (j : gmap Hash bitvec) : Prop :=
  forall h bits, j !! h = Some bits -> exists code, keccak code = h /\ codeBitmap code = Done bits.

Definition analysis_ok (c : Contract) : Prop :=
  (CodeHash c <> 0 -> CodeHash c = keccak (Code c)) /\
  (forall bits, analysis c = Some bits -> codeBitmap (Code c) = Done bits).

Definition is_jumpdest (code : bytes) (dest : Z) : Prop :=
  dest < zlen code /\ Z_of_byte <$> code !! Z.to_nat dest = Some JUMPDEST /\ starts code dest.

Lemma GetByte_lookup c p :
  0 <= p < zlen (Code c) -> Z_of_byte <$> Code c !! Z.to_nat p = Some (GetByte c p).
Proof.
  intros Hp. unfold GetByte. destruct (lookup_lt_is_Some_2 (Code c) (Z.to_nat p)) as [b ->]; [lia|done].
Qed.

Lemma validJumpdest_spec {S} (e : EVM S) c dest :
  jumpdests_ok (jumpdests e) -> analysis_ok c -> 0 <= dest -> zlen (Code c) < 2 ^ 62 ->
  exists j c' ok, validJumpdest e c dest = Done (set_jumpdests e j, c', ok) /\
    jumpdests_ok j /\ analysis_ok c' /\ (c' = c \/ exists b, c' = set_analysis c b) /\
    (ok = true <-> is_jumpdest (Code c) dest).
Proof.
  intros Hj [Hh Ha] Hd Hlen. unfold validJumpdest, is_jumpdest.
  assert (set_jumpdests e (jumpdests e) = e) as He by by destruct e.
  destruct (Z.leb_spec 63 (BitLen dest)) as [Hb|Hb]; simpl.
  { exists (jumpdests e), c, false. rewrite He. split_and!; auto; [split; auto|].
    split; [done|]. intros (? & _). pose proof (BitLen_le dest 62 ltac:(lia)). lia. }
  assert (dest < 2 ^ 62).
  { pose proof (BitLen_bound dest) as [? Hlt]. rewrite Z.abs_eq in Hlt by lia.
    eapply Z.lt_le_trans; [done|]. apply Z.pow_le_mono_r; lia. }
  assert (Uint64 dest = dest) as -> by (apply u64_small; unfold is_u64; lia).
  destruct (Z.leb_spec (zlen (Code c)) dest).
  { exists (jumpdests e), c, false. rewrite He. split_and!; auto; [split; auto|].
    split; [done|lia]. }
  rewrite (GetByte_lookup c dest) by lia.
  destruct (Z.eqb_spec (GetByte c dest) JUMPDEST) as [Hjd|Hjd]; simpl; last first.
  { exists (jumpdests e), c, false. rewrite He. split_and!; auto; [split; auto|].
    split; [done|]. by intros (_ & [= ?] & _). }
  destruct (codeBitmap_spec (Code c)) as (bits & Hbits & _).
  destruct (codeBitmap_segment _ _ dest Hbits) as (b & Hseg & Hb'); [lia|].
  assert (b = true <-> dest < zlen (Code c) /\ Some (GetByte c dest) = Some JUMPDEST /\
            starts (Code c) dest) as Hiff.
  { rewrite Hjd, Hb'. split; [done|]. by intros (_ & _ & ?). }
  destruct (Z.eqb_spec (CodeHash c) 0); simpl.
  - destruct (analysis c) as [a|] eqn:Ea.
    + specialize (Ha _ eq_refl). rewrite Hbits in Ha. injection Ha as <-. rewrite Hseg. simpl.
      exists (jumpdests e), c, b. rewrite He. split_and!; auto. split; [auto|]. rewrite Ea. by intros ? [= <-].
    + rewrite Hbits. simpl. rewrite Hseg. simpl. exists (jumpdests e), (set_analysis c bits), b.
      rewrite He. split_and!; eauto. split; [done|]. by intros ? [= <-].
  - destruct (jumpdests e !! CodeHash c) as [a|] eqn:Ea.
    + destruct (Hj _ _ Ea) as (code & Hk & Hcb). rewrite Hh in Hk by done. apply keccak_inj in Hk as ->.
      rewrite Hbits in Hcb. injection Hcb as <-. rewrite Hseg. simpl.
      exists (jumpdests e), c, b. rewrite He. split_and!; auto. split; auto.
    + rewrite Hbits. simpl. rewrite Hseg. simpl.
      exists (<[CodeHash c := bits]> (jumpdests e)), c, b. split_and!; auto; [|split; auto].
      intros h ? [[<- <-]|[? ?]]%lookup_insert_Some; [|eauto]. exists (Code c). split; [by rewrite Hh|done].
Qed.
End Jumpdest.
