(* ===== verification/World.v ===== *)
(** * The world state: what the interpreter may assume of vm.StateDB
    A [World] is the content of the state at one moment: accounts, refund
    counter, logs and preimages.  Its operations say what each method of the
    interface does to that content.  The class [StateRefines] states that an
    implementation behaves as a world together with the stack of snapshots that
    can be reverted to; the interpreter's theorems are proved against it, and
    core/state's StateDB (StateDB.v) is shown to satisfy it. *)

From S2P Require Import Prelude MathUtil VmBase VmEnv.

(** ** Accounts and worlds *)

(** Storage holds the non-zero slots only. *)
Record Acct := mkAcct {
  a_nonce : Z;
  a_balance : Z;
  a_codeHash : Hash;
  a_code : bytes;
  a_suicided : bool;
  a_storage : gmap Hash Hash;
  a_committed : gmap Hash Hash }.

Record World := mkWorld {
  accts : gmap Address Acct;
  w_refund : Z;
  w_logs : list Log;
  w_preimages : gmap Hash bytes }.

Definition slot (m : gmap Hash Hash) (k : Hash) : Hash := default 0 (m !! k).
Definition set_slot (m : gmap Hash Hash) (k v : Hash) : gmap Hash Hash :=
  if v =? 0 then delete k m else <[k := v]> m.

Definition set_a_nonce x n :=
  mkAcct n (a_balance x) (a_codeHash x) (a_code x) (a_suicided x) (a_storage x) (a_committed x).
Definition set_a_balance x b :=
  mkAcct (a_nonce x) b (a_codeHash x) (a_code x) (a_suicided x) (a_storage x) (a_committed x).
Definition set_a_code x h c :=
  mkAcct (a_nonce x) (a_balance x) h c (a_suicided x) (a_storage x) (a_committed x).
Definition set_a_suicided x :=
  mkAcct (a_nonce x) 0 (a_codeHash x) (a_code x) true (a_storage x) (a_committed x).
Definition set_a_storage x m :=
  mkAcct (a_nonce x) (a_balance x) (a_codeHash x) (a_code x) (a_suicided x) m (a_committed x).

Module W.
Section Ops.
(** The hash of contract code. *)
Variable keccak : bytes -> Hash.

Definition new : Acct := mkAcct 0 0 (keccak []) [] false ∅ ∅.
Definition get (w : World) (a : Address) : Acct := default new (accts w !! a).
Definition put (w : World) (a : Address) (x : Acct) : World :=
  mkWorld (<[a := x]> (accts w)) (w_refund w) (w_logs w) (w_preimages w).

Definition Exist (w : World) (a : Address) : bool := bool_decide (is_Some (accts w !! a)).
Definition is_empty (x : Acct) : bool :=
  (a_nonce x =? 0) && (a_balance x =? 0) && (a_codeHash x =? keccak []).
Definition Empty (w : World) (a : Address) : bool := is_empty (get w a).

(** A missing account has no code hash, not the hash of the empty code. *)
Definition GetCodeHash (w : World) (a : Address) : Hash :=
  match accts w !! a with Some x => a_codeHash x | None => 0 end.

(** A new account keeps the balance of the one it replaces. *)
Definition CreateAccount (w : World) (a : Address) : World :=
  put w a (set_a_balance new (a_balance (get w a))).
Definition SubBalance (w : World) (a : Address) (v : Z) : World :=
  put w a (set_a_balance (get w a) (a_balance (get w a) - v)).
Definition AddBalance (w : World) (a : Address) (v : Z) : World :=
  put w a (set_a_balance (get w a) (a_balance (get w a) + v)).
Definition SetNonce (w : World) (a : Address) (n : Z) : World :=
  put w a (set_a_nonce (get w a) n).
Definition SetCode (w : World) (a : Address) (c : bytes) : World :=
  put w a (set_a_code (get w a) (keccak c) c).
Definition SetState (w : World) (a : Address) (k v : Hash) : World :=
  put w a (set_a_storage (get w a) (set_slot (a_storage (get w a)) k v)).
Definition Suicide (w : World) (a : Address) : World :=
  match accts w !! a with Some x => put w a (set_a_suicided x) | None => w end.

Definition set_refund (w : World) (g : Z) : World :=
  mkWorld (accts w) g (w_logs w) (w_preimages w).
Definition AddRefund (w : World) (g : Z) : World := set_refund w (u64 (w_refund w + g)).
Definition SubRefund (w : World) (g : Z) : World := set_refund w (w_refund w - g).
(** The transaction fields of a log are the implementation's to fill in. *)
Definition raw_log (l : Log) : Log :=
  mkLog (log_Address l) (log_Topics l) (log_Data l) (log_BlockNumber l) 0 0 0 0.
Definition AddLog (w : World) (l : Log) : World :=
  mkWorld (accts w) (w_refund w) (w_logs w ++ [raw_log l]) (w_preimages w).
Definition AddPreimage (w : World) (h : Hash) (p : bytes) : World :=
  mkWorld (accts w) (w_refund w) (w_logs w)
    (match w_preimages w !! h with Some _ => w_preimages w | None => <[h := p]> (w_preimages w) end).
End Ops.
End W.

(** ** The contract of an implementation *)

(** [repr s w r]: the state [s] has the content [w], and [r] lists the
    snapshots that can be reverted to, newest first, with the content each one
    restores. *)
Class StateRefines (keccak : bytes -> Hash) (S : Type) `{vmStateDB S} := {
  repr : S -> World -> list (Z * World) -> Prop;
  repr_GetBalance s w r a : repr s w r -> GetBalance s a = a_balance (W.get keccak w a);
  repr_GetNonce s w r a : repr s w r -> GetNonce s a = a_nonce (W.get keccak w a);
  repr_GetCodeHash s w r a : repr s w r -> GetCodeHash s a = W.GetCodeHash w a;
  repr_GetCode s w r a : repr s w r -> GetCode s a = a_code (W.get keccak w a);
  repr_GetCodeSize s w r a : repr s w r -> GetCodeSize s a = zlen (a_code (W.get keccak w a));
  repr_GetRefund s w r : repr s w r -> GetRefund s = w_refund w;
  repr_GetState s w r a k : repr s w r -> GetState s a k = slot (a_storage (W.get keccak w a)) k;
  repr_GetCommittedState s w r a k :
    repr s w r -> GetCommittedState s a k = slot (a_committed (W.get keccak w a)) k;
  repr_HasSuicided s w r a : repr s w r -> HasSuicided s a = a_suicided (W.get keccak w a);
  repr_Exist s w r a : repr s w r -> Exist s a = W.Exist w a;
  repr_Empty s w r a : repr s w r -> Empty s a = W.Empty keccak w a;
  repr_CreateAccount s w r a : repr s w r -> repr (CreateAccount s a) (W.CreateAccount keccak w a) r;
  repr_SubBalance s w r a v : repr s w r -> repr (SubBalance s a v) (W.SubBalance keccak w a v) r;
  repr_AddBalance s w r a v : repr s w r -> repr (AddBalance s a v) (W.AddBalance keccak w a v) r;
  repr_SetNonce s w r a n : repr s w r -> repr (SetNonce s a n) (W.SetNonce keccak w a n) r;
  repr_SetCode s w r a c : repr s w r -> repr (SetCode s a c) (W.SetCode keccak w a c) r;
  repr_SetState s w r a k v : repr s w r -> repr (SetState s a k v) (W.SetState keccak w a k v) r;
  repr_Suicide s w r a : repr s w r -> repr (fst (Suicide s a)) (W.Suicide w a) r;
  repr_AddRefund s w r g : repr s w r -> repr (AddRefund s g) (W.AddRefund w g) r;
  repr_SubRefund s w r g : repr s w r -> g <= w_refund w ->
    exists s', SubRefund s g = Done s' /\ repr s' (W.SubRefund w g) r;
  repr_AddLog s w r l : repr s w r -> repr (AddLog s l) (W.AddLog w l) r;
  repr_AddPreimage s w r h p : repr s w r -> repr (AddPreimage s h p) (W.AddPreimage w h p) r;
  repr_Snapshot s w r : repr s w r ->
    repr (fst (Snapshot s)) w ((snd (Snapshot s), w) :: r);
  repr_Revert s w r1 id w0 r2 : repr s w (r1 ++ (id, w0) :: r2) ->
    exists s', RevertToSnapshot s id = Done s' /\ repr s' w0 r2 }.

(** ** A reference implementation
    The world itself, with whole copies as snapshots. *)

Module Ref.
Record t := mk { world : World; revisions : list (Z * World); nextRevisionId : Z }.

Definition with_world (s : t) (w : World) : t := mk w (revisions s) (nextRevisionId s).

Fixpoint find_revision (id : Z) (r : list (Z * World)) : option (World * list (Z * World)) :=
  match r with
  | [] => None
  | (i, w) :: r => if i =? id then Some (w, r) else find_revision id r
  end.

Section Instance_.
Variable keccak : bytes -> Hash.

Definition ops : vmStateDB t := {|
  VmEnv.CreateAccount s a := with_world s (W.CreateAccount keccak (world s) a);
  VmEnv.SubBalance s a v := with_world s (W.SubBalance keccak (world s) a v);
  VmEnv.AddBalance s a v := with_world s (W.AddBalance keccak (world s) a v);
  VmEnv.GetBalance s a := a_balance (W.get keccak (world s) a);
  VmEnv.GetNonce s a := a_nonce (W.get keccak (world s) a);
  VmEnv.SetNonce s a n := with_world s (W.SetNonce keccak (world s) a n);
  VmEnv.GetCodeHash s a := W.GetCodeHash (world s) a;
  VmEnv.GetCode s a := a_code (W.get keccak (world s) a);
  VmEnv.SetCode s a c := with_world s (W.SetCode keccak (world s) a c);
  VmEnv.GetCodeSize s a := zlen (a_code (W.get keccak (world s) a));
  VmEnv.AddRefund s g := with_world s (W.AddRefund (world s) g);
  VmEnv.SubRefund s g :=
    if w_refund (world s) <? g then Panic RefundBelowZero
    else Done (with_world s (W.SubRefund (world s) g));
  VmEnv.GetRefund s := w_refund (world s);
  VmEnv.GetCommittedState s a k := slot (a_committed (W.get keccak (world s) a)) k;
  VmEnv.GetState s a k := slot (a_storage (W.get keccak (world s) a)) k;
  VmEnv.SetState s a k v := with_world s (W.SetState keccak (world s) a k v);
  VmEnv.Suicide s a := (with_world s (W.Suicide (world s) a), W.Exist (world s) a);
  VmEnv.HasSuicided s a := a_suicided (W.get keccak (world s) a);
  VmEnv.Exist s a := W.Exist (world s) a;
  VmEnv.Empty s a := W.Empty keccak (world s) a;
  VmEnv.RevertToSnapshot s id :=
    match find_revision id (revisions s) with
    | Some (w, r) => Done (mk w r (nextRevisionId s))
    | None => Panic InvalidRevision
    end;
  VmEnv.Snapshot s :=
    (mk (world s) ((nextRevisionId s, world s) :: revisions s) (nextRevisionId s + 1),
     nextRevisionId s);
  VmEnv.AddLog s l := with_world s (W.AddLog (world s) l);
  VmEnv.AddPreimage s h p := with_world s (W.AddPreimage (world s) h p) |}.

Definition represents (s : t) (w : World) (r : list (Z * World)) : Prop :=
  world s = w /\ revisions s = r /\ NoDup r.*1 /\ Forall (fun x => x.1 < nextRevisionId s) r.

Lemma find_revision_app id w0 r1 r2 :
  NoDup (r1 ++ (id, w0) :: r2).*1 -> find_revision id (r1 ++ (id, w0) :: r2) = Some (w0, r2).
Proof.
  induction r1 as [|[i w] r1 IH]; simpl; intros Hnd; [by rewrite Z.eqb_refl|].
  apply NoDup_cons in Hnd as [Hin Hnd]. destruct (Z.eqb_spec i id) as [->|]; [|auto].
  destruct Hin. rewrite fmap_app. set_solver.
Qed.

Definition refines : @StateRefines keccak t ops.
Proof.
  refine (Build_StateRefines keccak t ops represents _ _ _ _ _ _ _ _ _ _ _ _ _ _ _ _ _ _ _ _ _ _ _ _);
    unfold represents; simpl; intros;
    repeat match goal with H : _ /\ _ |- _ => destruct H end; subst; try by auto.
  - rewrite (proj2 (Z.ltb_ge _ _)) by lia. eauto 10.
  - destruct s as [w r n]; simpl in *. split_and!; [done..| |].
    + apply NoDup_cons. split; [|done]. intros ([i w'] & -> & Hin)%list_elem_of_fmap.
      match goal with Hf : Forall _ r |- _ => rewrite Forall_forall in Hf; specialize (Hf _ Hin) end.
      simpl in *. lia.
    + constructor; simpl; [lia|]. eapply Forall_impl; [done|]. simpl. lia.
  - destruct s as [w' r n]; simpl in *. subst. rewrite find_revision_app by done.
    match goal with Hn : NoDup _, Hf : Forall _ _ |- _ =>
      rewrite fmap_app, NoDup_app in Hn; destruct Hn as (? & ? & Hn); apply NoDup_cons in Hn as [_ Hn];
      apply Forall_app in Hf as [_ [_ Hf]%Forall_cons] end.
    eexists. by split_and!.
Defined.
End Instance_.
End Ref.
