(* ===== verification/VmInv.v ===== *)
(** * core/vm: invariants of an execution
    The conditions on the environment, on the world state and on a frame under
    which the interpreter is proved safe, with their preservation by the
    operations of the state. *)

From S2P Require Import Prelude MathUtil VmBase VmEnv VmInstr VmAnalysis World.

(** ** Outcomes with a fuel bound *)

(** [wp F m Q]: the computation does not panic, its result satisfies [Q], and
    it runs out of fuel only if [F]. *)
Definition wp {A} (F : Prop) (m : outcome A) (Q : A -> Prop) : Prop :=
  match m with Done a => Q a | Panic _ => False | OutOfFuel => F end.

Lemma wp_bind {A B} F (m : outcome A) (k : A -> outcome B) (P : A -> Prop) Q :
  wp F m P -> (forall a, P a -> wp F (k a) Q) -> wp F (obind m k) Q.
Proof. destruct m; simpl; auto. Qed.

Lemma wp_mono {A} (F F' : Prop) (m : outcome A) (P Q : A -> Prop) :
  wp F m P -> (F -> F') -> (forall a, P a -> Q a) -> wp F' m Q.
Proof. destruct m; simpl; auto. Qed.

Lemma wp_Done {A} F (m : outcome A) (Q : A -> Prop) a : m = Done a -> Q a -> wp F m Q.
Proof. by intros ->. Qed.

(** ** The environment *)

(** A native contract prices every input, and runs on every input it has been
    paid for. *)
Definition precompile_ok (p : PrecompiledContract) : Prop :=
  forall input, zlen input < 2 ^ 62 ->
    exists g, RequiredGas p input = Done g /\ 0 <= g /\
      (g < 2 ^ 60 -> exists b err, RunPrecompile p input = Done (b, err) /\ zlen b < 2 ^ 62).

Record env_ok (env : Env) : Prop := {
  eo_keccak_inj : forall x y, keccak256 env x = keccak256 env y -> x = y;
  eo_keccak : forall x, 0 <= keccak256 env x;
  eo_Origin : 0 <= Origin (ctx env);
  eo_GasPrice : 0 <= GasPrice (ctx env);
  eo_Coinbase : 0 <= Coinbase (ctx env);
  eo_GetHash : forall n, 0 <= GetHash (ctx env) n;
  eo_ChainID : 0 <= ChainID (chainRules env);
  eo_createAddress : forall a n, 0 <= createAddress env a n;
  eo_createAddress2 : forall a s h, 0 <= createAddress2 env a s h;
  eo_precompiles : map_Forall (fun _ => precompile_ok) (precompiles env) }.

(** ** World invariants *)

Section Inv.
Variable keccak : bytes -> Hash.

(** Whether SSTORE is net-metered (EIP-1283 or EIP-2200). *)
Variable net : bool.

Record acct_ok (x : Acct) : Prop := {
  ao_nonce : is_u64 (a_nonce x);
  ao_balance : 0 <= a_balance x;
  ao_codeHash : 0 <= a_codeHash x;
  ao_code : a_code x <> [] -> a_codeHash x = keccak (a_code x);
  ao_codeLen : zlen (a_code x) < 2 ^ 62;
  ao_storage : forall k, 0 <= slot (a_storage x) k }.

(** Under net metering, the slots that were cleared since the transaction began
    have each put [SstoreClearRefundEIP2200] in the refund counter, which is why
    taking it back never makes the counter negative. *)
Definition clears_refunded (w : World) : Prop :=
  exists D : gset (Address * Hash),
    (forall a k, slot (a_committed (W.get keccak w a)) k <> 0 ->
                 slot (a_storage (W.get keccak w a)) k = 0 -> (a, k) ∈ D) /\
    15000 * Z.of_nat (size D) <= w_refund w.

Definition refund_ok (w : World) : Prop :=
  is_u64 (w_refund w) /\ (net = true -> clears_refunded w).

Record world_ok (w : World) : Prop := {
  wo_accts : forall a, acct_ok (W.get keccak w a);
  wo_refund : refund_ok w }.

(** Equal up to accounts that are created empty. *)
Definition static (w w' : World) : Prop :=
  (forall a, W.get keccak w' a = W.get keccak w a) /\
  w_refund w' = w_refund w /\ w_logs w' = w_logs w.

#[export] Instance static_preorder : PreOrder static.
Proof.
  split; [done|]. intros w1 w2 w3 (H1 & ? & ?) (H2 & ? & ?).
  split_and!; [intros a; by rewrite H2|congruence..].
Qed.

Lemma get_put w a x b :
  W.get keccak (W.put w a x) b = if decide (b = a) then x else W.get keccak w b.
Proof.
  unfold W.get, W.put; simpl. case_decide; subst.
  - by rewrite lookup_insert_eq.
  - by rewrite lookup_insert_ne by done.
Qed.

Lemma get_put_eq w a x : W.get keccak (W.put w a x) a = x.
Proof. rewrite get_put. by case_decide. Qed.


(** An update of one account that does not clear a slot. *)
Lemma world_ok_put w a x :
  world_ok w -> acct_ok x ->
  (forall k, slot (a_committed x) k <> 0 -> slot (a_storage x) k = 0 ->
     slot (a_committed (W.get keccak w a)) k <> 0 /\ slot (a_storage (W.get keccak w a)) k = 0) ->
  world_ok (W.put w a x).
Proof.
  intros [Ha [Hu HD]] Hx Hs. split.
  - intros b. rewrite get_put. by case_decide.
  - split; [done|]. intros Hn. destruct (HD Hn) as (D & HD' & Hr).
    exists D. split; [|done]. intros b k. rewrite get_put. case_decide; subst; [|auto].
    intros Hc H0. destruct (Hs k Hc H0). auto.
Qed.

Lemma acct_ok_new : 0 <= keccak [] -> acct_ok (W.new keccak).
Proof. intros Hk. split; simpl; [unfold is_u64; lia|lia|done..|lia|]. intros k. unfold slot. by rewrite lookup_empty. Qed.

Section Ops.
Hypothesis keccak_nonneg : forall b, 0 <= keccak b.

Lemma world_ok_CreateAccount w a : world_ok w -> world_ok (W.CreateAccount keccak w a).
Proof.
  intros Hw. apply world_ok_put; [done| |].
  - destruct (acct_ok_new (keccak_nonneg [])). split; try done. apply Hw.
  - intros k. simpl. unfold slot. by rewrite lookup_empty.
Qed.

Lemma world_ok_AddBalance w a v : 0 <= v -> world_ok w -> world_ok (W.AddBalance keccak w a v).
Proof.
  intros Hv Hw. apply world_ok_put; [done| |done]. destruct (wo_accts _ Hw a). split; try done.
  simpl. lia.
Qed.

Lemma world_ok_SubBalance w a v :
  v <= a_balance (W.get keccak w a) -> world_ok w -> world_ok (W.SubBalance keccak w a v).
Proof.
  intros Hv Hw. apply world_ok_put; [done| |done]. destruct (wo_accts _ Hw a). split; try done.
  simpl. lia.
Qed.

Lemma world_ok_SetNonce w a n : is_u64 n -> world_ok w -> world_ok (W.SetNonce keccak w a n).
Proof. intros Hn Hw. apply world_ok_put; [done| |done]. destruct (wo_accts _ Hw a). split; simpl; auto. Qed.

Lemma world_ok_SetCode w a c : zlen c < 2 ^ 62 -> world_ok w -> world_ok (W.SetCode keccak w a c).
Proof. intros Hn Hw. apply world_ok_put; [done| |done]. destruct (wo_accts _ Hw a). split; simpl; auto. Qed.

Lemma world_ok_Suicide w a : world_ok w -> world_ok (W.Suicide w a).
Proof.
  intros Hw. unfold W.Suicide. destruct (accts w !! a) as [x|] eqn:E; [|done].
  pose proof (wo_accts _ Hw a) as Hx. unfold W.get in Hx. rewrite E in Hx. simpl in Hx.
  apply world_ok_put; [done|destruct Hx; split; simpl; auto; lia|]. intros k. unfold W.get. rewrite E. auto.
Qed.

Lemma world_ok_AddLog w l : world_ok w -> world_ok (W.AddLog w l).
Proof. by intros [? [? HD]]; split; [|split]. Qed.

Lemma world_ok_AddPreimage w h p : world_ok w -> world_ok (W.AddPreimage w h p).
Proof. by intros [? [? HD]]; split; [|split]. Qed.

Lemma world_ok_AddRefund w g :
  0 <= g -> w_refund w + g < two64 -> world_ok w -> world_ok (W.AddRefund w g).
Proof.
  intros Hg Hlt [? [Hu HD]]. unfold is_u64 in Hu. split; [done|]. split; [apply u64_range|].
  intros Hn. destruct (HD Hn) as (D & ? & ?). exists D. split; [done|].
  simpl. rewrite u64_small by (unfold is_u64; lia). lia.
Qed.
End Ops.

(** *** Storage writes and the refund counter *)

(** What a write of [v] over [cur] in a slot whose value at the beginning of
    the transaction was [orig] must do to the refund counter at least. *)
Definition refund_delta (orig cur v : Z) : Z :=
  if negb (orig =? 0) then
    if cur =? 0 then (if v =? 0 then 0 else -15000)
    else if v =? 0 then 15000 else 0
  else 0.

Lemma slot_set m k v k' : slot (set_slot m k v) k' = if decide (k' = k) then v else slot m k'.
Proof.
  unfold slot, set_slot. destruct (Z.eqb_spec v 0) as [->|]; case_decide; subst;
    by rewrite ?lookup_delete_eq, ?lookup_delete_ne, ?lookup_insert_eq, ?lookup_insert_ne.
Qed.

Lemma clears_refunded_SetState w a k v ρ :
  clears_refunded w ->
  w_refund w + refund_delta (slot (a_committed (W.get keccak w a)) k)
                            (slot (a_storage (W.get keccak w a)) k) v <= ρ ->
  clears_refunded (W.SetState keccak (W.set_refund w ρ) a k v).
Proof.
  intros (D & HD & Hr). unfold refund_delta.
  set (orig := slot (a_committed _) k). set (cur := slot (a_storage _) k). intros Hρ.
  exists (if bool_decide (orig <> 0 /\ v = 0) then D ∪ {[(a, k)]} else D ∖ {[(a, k)]}). split.
  - intros b k'. unfold W.SetState. rewrite get_put. case_decide as Hb; subst.
    + simpl. rewrite slot_set. case_decide as Hk; subst.
      * intros Ho ->. rewrite bool_decide_eq_true_2 by done. set_solver.
      * intros Ho Hc. specialize (HD a k' Ho Hc). case_bool_decide; set_solver.
    + intros Ho Hc. specialize (HD b k' Ho Hc). case_bool_decide; set_solver.
  - simpl. specialize (HD a k). fold orig in HD. fold cur in HD.
    pose proof (subseteq_size (D ∖ {[(a, k)]}) D ltac:(set_solver)).
    case_bool_decide as Hcase.
    + destruct Hcase as [Ho ->]. destruct (Z.eqb_spec orig 0); [done|]. simpl in Hρ.
      pose proof (size_union_alt D {[(a, k)]}) as Hsz.
      destruct (Z.eqb_spec cur 0) as [Hc|Hc].
      * specialize (HD Ho Hc). replace (D ∪ {[(a, k)]}) with D by set_solver. lia.
      * pose proof (subseteq_size ({[(a, k)]} ∖ D) {[(a, k)]} ltac:(set_solver)) as Hs1.
        rewrite size_singleton in Hs1. lia.
    + destruct (Z.eqb_spec orig 0); simpl in Hρ; [lia|].
      destruct (Z.eqb_spec cur 0) as [Hc|Hc], (Z.eqb_spec v 0); try lia.
      specialize (HD ltac:(done) Hc).
      pose proof (size_difference D {[(a, k)]} ltac:(set_solver)) as Hs1.
      rewrite size_singleton in Hs1.
      assert (size D <> 0%nat) by (intros ?%size_empty_inv; set_solver). lia.
Qed.

Lemma clears_refunded_take_back w a k :
  clears_refunded w -> slot (a_committed (W.get keccak w a)) k <> 0 ->
  slot (a_storage (W.get keccak w a)) k = 0 -> 15000 <= w_refund w.
Proof.
  intros (D & HD & Hr) Ho Hc. specialize (HD a k Ho Hc).
  assert (size D <> 0%nat) by (intros ?%size_empty_inv; set_solver). lia.
Qed.

Lemma world_ok_SetState w a k v ρ :
  world_ok w -> 0 <= v -> is_u64 ρ ->
  (net = true ->
    w_refund w + refund_delta (slot (a_committed (W.get keccak w a)) k)
                              (slot (a_storage (W.get keccak w a)) k) v <= ρ) ->
  world_ok (W.SetState keccak (W.set_refund w ρ) a k v).
Proof.
  intros [Ha [Hu Hr]] Hv Hρ Hd. split.
  2:{ split; [done|]. intros Hn. by apply clears_refunded_SetState; auto. }
  intros b. unfold W.SetState. rewrite get_put. case_decide as Hb; [|apply Ha].
  destruct (Ha a). split; simpl; auto. intros k'. rewrite slot_set. by case_decide.
Qed.

(** *** Static changes *)

Lemma static_put w a x : x = W.get keccak w a -> static w (W.put w a x).
Proof.
  intros ->. split_and!; [|done..]. intros b. rewrite get_put. by case_decide; subst.
Qed.

Lemma static_AddBalance_0 w a : static w (W.AddBalance keccak w a 0).
Proof. apply static_put. rewrite Z.add_0_r. by destruct (W.get keccak w a). Qed.

Lemma static_SubBalance_0 w a : static w (W.SubBalance keccak w a 0).
Proof. apply static_put. rewrite Z.sub_0_r. by destruct (W.get keccak w a). Qed.

Lemma static_CreateAccount w a : W.Exist w a = false -> static w (W.CreateAccount keccak w a).
Proof.
  intros He. apply static_put. unfold W.Exist in He. apply bool_decide_eq_false in He.
  unfold W.get. destruct (accts w !! a) eqn:E; [by destruct He|done].
Qed.

Lemma static_AddPreimage w h p : static w (W.AddPreimage w h p).
Proof. done. Qed.
End Inv.
