(* ===== verification/VmMemory.v ===== *)
(** * core/vm: memory
    The memory invariant, the fee of an expansion, and the behaviour of the
    memory accessors (memory.go, memory_table.go, common.go, gas_table.go) on
    the regions the interpreter has paid for. *)

From S2P Require Import Prelude MathUtil VmBase VmEnv VmGas VmInv.

(** ** Invariant *)

(** The total fee of a memory of [w] words. *)
Definition memcost (w : Z) : Z := w * 3 + w * w / 512.

(** The largest memory whose fee is computed without overflow. *)
Definition maxMem : Z := 0x1FFFFFFFE0.

Definition mem_words (m : Memory.t) : Z := Memory.Len m / 32.

Record mem_ok (m : Memory.t) : Prop := {
  mo_words : Memory.Len m = 32 * mem_words m;
  mo_max : Memory.Len m <= maxMem;
  mo_cost : Memory.lastGasCost m = memcost (mem_words m) }.

Lemma memcost_mono v w : 0 <= v <= w -> memcost v <= memcost w.
Proof.
  intros H. unfold memcost. assert (v * v / 512 <= w * w / 512) by (apply Z.div_le_mono; nia). lia.
Qed.

Lemma memcost_bound w : 0 <= w <= 0xFFFFFFFF -> 0 <= memcost w < 2 ^ 60.
Proof.
  intros H. unfold memcost. assert (0 <= w * w / 512) by (apply Z.div_pos; nia).
  assert (w * w / 512 <= 2 ^ 55) by (apply Z.div_le_upper_bound; nia). lia.
Qed.

Lemma mem_ok_new : mem_ok Memory.NewMemory.
Proof. done. Qed.

Lemma mem_words_range m : mem_ok m -> 0 <= mem_words m <= 0xFFFFFFFF.
Proof. intros [H1 H2 _]. unfold Memory.Len, maxMem in *. lia. Qed.

(** ** Sizes *)

Lemma toWordSize_small n : 0 <= n <= MaxUint64 - 31 -> toWordSize n = (n + 31) / 32.
Proof.
  intros H. unfold toWordSize. destruct (Z.ltb_spec (MaxUint64 - 31) n); [lia|].
  by rewrite u64_small by (unfold is_u64; lia).
Qed.

Lemma toWordSize_range n : is_u64 n -> 0 <= toWordSize n <= 2 ^ 59.
Proof.
  unfold is_u64. intros H. unfold toWordSize. destruct (Z.ltb_spec (MaxUint64 - 31) n); [done|].
  rewrite u64_small by (unfold is_u64; lia). split; [apply Z.div_pos; lia|].
  transitivity (two64 / 32); [apply Z.div_le_mono; lia|done].
Qed.

(** The size the interpreter expands to is the requested one in whole words. *)
Lemma round_up_spec n size :
  is_u64 n -> SafeMul (toWordSize n) 32 = (size, false) ->
  exists k, size = 32 * k /\ 0 <= k < 2 ^ 59 /\ n <= size < n + 32.
Proof.
  intros Hn He. pose proof (toWordSize_range n Hn) as Hw.
  apply SafeMul_false in He as [-> Hu]; [|unfold is_u64; lia|unfold is_u64; lia].
  unfold is_u64 in *. exists (toWordSize n). revert Hu Hw. unfold toWordSize.
  destruct (Z.ltb_spec (MaxUint64 - 31) n); [by intros [_ Hu]; vm_compute in Hu|].
  rewrite u64_small by (unfold is_u64; lia). intros Hu Hw. pose proof (Z.div_mod (n + 31) 32 ltac:(lia)).
  pose proof (Z.mod_pos_bound (n + 31) 32 ltac:(lia)). lia.
Qed.

(** A request for [n] bytes at [off] that does not overflow. *)
Lemma calcMemSize64_spec off n size :
  0 <= off -> 0 <= n -> calcMemSize64 off n = (size, false) ->
  is_u64 n /\ is_u64 size /\ (n = 0 /\ size = 0 \/ 0 < n /\ size = off + n).
Proof.
  intros Ho Hn. unfold calcMemSize64. destruct (IsUint64 n) eqn:Eu; [|done]. simpl.
  apply IsUint64_true in Eu. unfold Uint64. rewrite u64_small by done.
  unfold calcMemSize64WithUint. destruct (Z.eqb_spec n 0) as [->|].
  { intros [= <-]. unfold is_u64. split_and!; [lia..|]. by left. }
  destruct (IsUint64 off) eqn:Eo; [|done]. simpl. apply IsUint64_true in Eo.
  unfold Uint64. rewrite (u64_small off) by done. intros [= <- Hlt]. apply Z.ltb_ge in Hlt.
  split; [done|]. split; [apply u64_range|]. right. unfold is_u64 in *. split; [lia|].
  unfold u64 in *. destruct (Z.lt_ge_cases (off + n) two64); [by rewrite Z.mod_small by lia|].
  assert ((off + n) mod two64 = off + n - two64); [|lia].
  rewrite <-(Z_mod_plus_full _ (-1)), Z.mod_small; lia.
Qed.

Lemma calcMemSize64WithUint_spec off n size :
  0 <= off -> 0 < n < two64 -> calcMemSize64WithUint off n = (size, false) ->
  is_u64 size /\ size = off + n.
Proof.
  intros Ho Hn He. destruct (calcMemSize64_spec off n size) as (_ & ? & [?|?]); [lia|lia| |lia|].
  - unfold calcMemSize64. rewrite (proj2 (IsUint64_true n)) by (unfold is_u64; lia). simpl.
    unfold Uint64. by rewrite u64_small by (unfold is_u64; lia).
  - split; [done|lia].
Qed.

(** ** The fee of an expansion (memoryGasCost) *)

(** The memory once the fee for [size] bytes is charged and before it grows. *)
Definition charged (m : Memory.t) (size : Z) : Memory.t :=
  if Memory.Len m <? size
  then Memory.mk (Memory.store m) (Memory.cap m) (memcost (size / 32)) else m.

Lemma memoryGasCost_spec m k :
  mem_ok m -> 0 <= k ->
  memoryGasCost m (32 * k) =
    if maxMem <? 32 * k then (m, inr errGasUintOverflow)
    else (charged m (32 * k), inl (memcost (Z.max (mem_words m) k) - memcost (mem_words m))).
Proof.
  intros Hm Hk. pose proof (mem_words_range m Hm). destruct Hm as [Hw _ Hc].
  unfold memoryGasCost, charged. fold maxMem.
  assert (32 * k / 32 = k) as Hk32 by (rewrite Z.mul_comm; apply Z.div_mul; lia).
  destruct (Z.eqb_spec (32 * k) 0).
  { rewrite (proj2 (Z.ltb_ge _ _)) by (unfold maxMem; lia).
    rewrite (proj2 (Z.ltb_ge _ _)) by lia. rewrite Z.max_l by lia. do 2 f_equal. lia. }
  destruct (Z.ltb_spec maxMem (32 * k)) as [|Hmax]; [done|]. unfold maxMem in Hmax.
  assert (toWordSize (32 * k) = k) as ->.
  { rewrite toWordSize_small by lia. rewrite <-(Z.div_unique (32 * k + 31) 32 k 31); lia. }
  unfold Params.MemoryGas, Params.QuadCoeffDiv.
  rewrite (u64_small (k * 32)) by (unfold is_u64; lia). rewrite Hk32, (Z.mul_comm k 32).
  destruct (Z.ltb_spec (Memory.Len m) (32 * k)).
  - rewrite (u64_small (k * k)) by (unfold is_u64; nia).
    rewrite (u64_small (k * 3)) by (unfold is_u64; lia). fold (memcost k).
    pose proof (memcost_bound k ltac:(lia)).
    rewrite (u64_small (memcost k)) by (unfold is_u64; lia). rewrite Hc, Z.max_r by lia.
    pose proof (memcost_mono (mem_words m) k ltac:(lia)).
    pose proof (memcost_bound (mem_words m) ltac:(lia)).
    rewrite u64_small by (unfold is_u64; lia). done.
  - rewrite Z.max_l by lia. do 2 f_equal. lia.
Qed.

Lemma charged_store m size : Memory.store (charged m size) = Memory.store m.
Proof. unfold charged. by destruct (_ <? _). Qed.

Lemma charged_Len m size : Memory.Len (charged m size) = Memory.Len m.
Proof. unfold Memory.Len. by rewrite charged_store. Qed.

Lemma charged_0 m : charged m 0 = m.
Proof. unfold charged, Memory.Len. by rewrite (proj2 (Z.ltb_ge _ _)) by lia. Qed.

(** Growing the charged memory restores the invariant. *)
Lemma Resize_charged g m k :
  mem_ok m -> 0 <= k -> 32 * k <= maxMem ->
  mem_ok (Memory.Resize g (charged m (32 * k)) (32 * k)) /\
  Memory.Len (Memory.Resize g (charged m (32 * k)) (32 * k)) = Z.max (Memory.Len m) (32 * k) /\
  take (length (Memory.store m)) (Memory.store (Memory.Resize g (charged m (32 * k)) (32 * k))) =
    Memory.store m.
Proof.
  intros Hm Hk Hmax. pose proof (mem_words_range m Hm). unfold Memory.Resize.
  rewrite charged_Len, charged_store.
  assert (32 * k / 32 = k) as Hk32 by (rewrite Z.mul_comm; apply Z.div_mul; lia).
  destruct (Z.ltb_spec (Memory.Len m) (32 * k)) as [Hlt|Hge].
  - unfold charged. rewrite (proj2 (Z.ltb_lt _ _) Hlt). cbn [Memory.cap Memory.lastGasCost].
    set (m' := Memory.mk _ _ _).
    assert (Memory.Len m' = 32 * k) as Hlen.
    { unfold Memory.Len in *. simpl. rewrite length_app, length_replicate. lia. }
    split_and!.
    + split; unfold mem_words; rewrite Hlen, ?Hk32; try done. simpl. by rewrite Hk32.
    + rewrite Hlen. lia.
    + simpl. apply take_app_length.
  - unfold charged. rewrite (proj2 (Z.ltb_ge _ _) Hge). split_and!; [done|lia|].
    by rewrite take_ge by lia.
Qed.

(** ** Accessors *)

(** The region lies in the memory, or is empty. *)
Definition region (m : Memory.t) (off n : Z) : Prop :=
  0 <= off /\ (n = 0 \/ 0 < n /\ off + n <= Memory.Len m).

Definition contents (m : Memory.t) (off n : Z) : bytes :=
  take (Z.to_nat n) (drop (Z.to_nat off) (Memory.store m)).

Lemma contents_length m off n : region m off n -> 0 < n -> zlen (contents m off n) = n.
Proof.
  intros [? [?|?]] ?; [lia|]. unfold contents, Memory.Len in *. rewrite length_take, length_drop. lia.
Qed.

Lemma GetPtr_spec m off n :
  Memory.Len m <= maxMem -> region m off n ->
  exists d, Memory.GetPtr m (Int64 off) (Int64 n) = Done d /\ zlen d = n /\
    d = contents m off n.
Proof.
  intros Hmax [Ho [->|[Hn Hr]]]; unfold maxMem in *.
  - exists []. done.
  - rewrite !Int64_small by lia. unfold Memory.GetPtr. rewrite (proj2 (Z.eqb_neq _ _)) by lia.
    rewrite (proj2 (Z.ltb_lt _ _)) by lia. rewrite slice_some by (unfold Memory.Len in *; lia).
    eexists; split; [done|]. simpl. replace (off + n - off) with n by lia.
    split; [|done]. apply (contents_length m off n); [split; auto|done].
Qed.

Lemma GetCopy_spec m off n :
  Memory.Len m <= maxMem -> region m off n ->
  exists d, Memory.GetCopy m (Int64 off) (Int64 n) = Done d /\ zlen d = n /\
    d = contents m off n.
Proof.
  intros Hmax Hr. destruct (GetPtr_spec m off n Hmax Hr) as (d & Hd & Hl & ->).
  exists (contents m off n). split_and!; [|done..]. rewrite <-Hd. unfold Memory.GetCopy, Memory.GetPtr.
  destruct Hr as [Ho [->|[Hn Hr]]]; [done|]. unfold maxMem in *. rewrite !Int64_small by lia.
  destruct (n =? 0); [done|]. destruct (_ <? _); [|done]. by rewrite (proj2 (Z.ltb_ge _ _)) by lia.
Qed.

Lemma GetPtr_region_spec m off n :
  Memory.Len m <= maxMem -> region m off n ->
  match Memory.GetPtr_region m (Int64 off) (Int64 n) with
  | Some (o, k) => o = off /\ k = n /\ 0 < n
  | None => n = 0
  end.
Proof.
  intros Hmax [Ho [->|[Hn Hr]]]; [done|]. unfold maxMem in *. rewrite !Int64_small by lia.
  unfold Memory.GetPtr_region. rewrite (proj2 (Z.eqb_neq _ _)) by lia.
  by rewrite (proj2 (Z.ltb_lt _ _)) by lia.
Qed.

Lemma Set_spec m off n v :
  Memory.Len m <= maxMem -> is_u64 n -> region m off n ->
  exists m', Memory.Set_ m (Uint64 off) (Uint64 n) v = Done m' /\
    Memory.Len m' = Memory.Len m /\ Memory.lastGasCost m' = Memory.lastGasCost m /\
    Memory.cap m' = Memory.cap m /\
    Memory.store m' = if n =? 0 then Memory.store m
                      else blit (Z.to_nat off) (take (Z.to_nat n) v) (Memory.store m).
Proof.
  intros Hmax Hn [Ho Hr]. unfold Uint64. rewrite (u64_small n) by done.
  unfold Memory.Set_, maxMem in *.
  destruct Hr as [->|[Hn0 Hr]]; [by exists m|].
  rewrite (u64_small off) by (unfold is_u64; lia). rewrite (proj2 (Z.ltb_lt _ _)) by lia.
  rewrite u64_small by (unfold is_u64; lia).
  rewrite (proj2 (Z.ltb_ge _ _)) by lia. rewrite (proj2 (Z.ltb_ge _ _)) by lia.
  rewrite (proj2 (Z.eqb_neq _ _)) by lia. replace (off + n - off) with n by lia.
  eexists; split; [done|]. split_and!; try done. unfold Memory.Len in *. simpl.
  rewrite blit_length; [done|]. rewrite length_take. lia.
Qed.

Lemma blit_blit {A} off (u v l : list A) :
  length u = length v -> (off + length v <= length l)%nat -> blit off v (blit off u l) = blit off v l.
Proof.
  intros Hl Hle. unfold blit. rewrite !length_app, !length_take, length_drop.
  rewrite !(take_ge u), !(take_ge v) by lia.
  rewrite (take_app_le (take off l)) by (rewrite length_take; lia). rewrite take_take, Nat.min_id.
  do 2 f_equal. rewrite !drop_app, !length_take, !(drop_ge (take off l)) by (rewrite length_take; lia).
  rewrite (drop_ge u) by lia. simpl. rewrite drop_drop. f_equal. lia.
Qed.

Lemma blit_window {A} off (u l : list A) :
  (off + length u <= length l)%nat -> take (length u) (drop off (blit off u l)) = u.
Proof.
  intros Hle. unfold blit. rewrite (take_ge u) by lia.
  rewrite drop_app_length' by (rewrite length_take; lia). apply take_app_length.
Qed.

Lemma Set32_spec m off v :
  Memory.Len m <= maxMem -> 0 <= off -> 0 <= v -> off + 32 <= Memory.Len m ->
  exists m', Memory.Set32 m (Uint64 off) v = Done m' /\
    Memory.Len m' = Memory.Len m /\ Memory.lastGasCost m' = Memory.lastGasCost m /\
    Memory.cap m' = Memory.cap m /\
    Memory.store m' = blit (Z.to_nat off) (be_bytes 32 v) (Memory.store m).
Proof.
  intros Hmax Ho Hv Hr. unfold Uint64, maxMem in *. rewrite u64_small by (unfold is_u64; lia).
  unfold Memory.Set32. rewrite u64_small by (unfold is_u64; lia).
  rewrite (proj2 (Z.ltb_ge _ _)) by lia. rewrite (proj2 (Z.ltb_ge _ _)) by lia.
  eexists; split; [done|]. unfold Memory.Len, Memory.with_store in *.
  cbn [Memory.store Memory.cap Memory.lastGasCost].
  replace (take 32 (drop _ _)) with (replicate 32 Byte.x00); last first.
  { symmetry. apply (blit_window _ (replicate 32 Byte.x00)). rewrite length_replicate. lia. }
  rewrite ReadBits_zeros, Z.abs_eq by done.
  rewrite blit_blit by (rewrite ?length_be_bytes, ?length_replicate; lia).
  split_and!; try done. rewrite blit_length by (rewrite length_be_bytes; lia). done.
Qed.

Lemma store8_spec m off b :
  Memory.Len m <= maxMem -> 0 <= off < Memory.Len m ->
  exists m', Memory.store8 m (Int64 off) b = Done m' /\
    Memory.Len m' = Memory.Len m /\ Memory.lastGasCost m' = Memory.lastGasCost m /\
    Memory.cap m' = Memory.cap m /\
    Memory.store m' = <[Z.to_nat off := b]> (Memory.store m).
Proof.
  intros Hmax Ho. unfold maxMem in *. rewrite Int64_small by lia. unfold Memory.store8.
  rewrite (proj2 (Z.leb_le _ _)), (proj2 (Z.ltb_lt _ _)) by lia. simpl.
  eexists; split; [done|]. unfold Memory.Len. simpl. by rewrite length_insert.
Qed.

Lemma mem_ok_same m m' :
  mem_ok m -> Memory.Len m' = Memory.Len m -> Memory.lastGasCost m' = Memory.lastGasCost m -> mem_ok m'.
Proof. intros [H1 H2 H3] Hl Hc. by split; unfold mem_words in *; rewrite ?Hl, ?Hc. Qed.

(** ** Data slices (common.go) *)

Lemma getDataBig_spec data start n :
  zlen data < two63 -> 0 <= start -> 0 <= n ->
  exists d, getDataBig data start n = Done d.
Proof.
  intros Hl Hs Hn. unfold getDataBig, BigMin. eexists.
  rewrite slice_some; [simpl; done| |]; unfold Uint64;
    destruct (Z.ltb_spec (zlen data) start); zcase; rewrite !u64_small by (unfold is_u64; lia); lia.
Qed.

(** ** Memory requests of the instructions (memory_table.go) *)

Lemma calcMemSize64WithUint_u64 off n : is_u64 (fst (calcMemSize64WithUint off n)).
Proof.
  unfold calcMemSize64WithUint. destruct (n =? 0), (IsUint64 off); simpl; try apply u64_range;
    by unfold is_u64.
Qed.

Lemma calcMemSize64_u64 off n : is_u64 (fst (calcMemSize64 off n)).
Proof.
  unfold calcMemSize64. destruct (IsUint64 n); simpl; [apply calcMemSize64WithUint_u64|by unfold is_u64].
Qed.

(** A request is total on a large enough stack and gives a 64-bit size. *)
Definition request_total (g : Stack.t -> outcome (Z * bool)) (mn : Z) : Prop :=
  forall st, mn <= zlen st -> exists ms overflow, g st = Done (ms, overflow) /\ is_u64 ms.

Lemma memory2_total i j mn : Z.of_nat i < mn -> Z.of_nat j < mn -> request_total (memory2 i j) mn.
Proof.
  intros Hi Hj st Hl. unfold memory2, Stack.Back.
  destruct (lookup_lt_is_Some_2 st i) as [x ->]; [lia|].
  destruct (lookup_lt_is_Some_2 st j) as [y ->]; [lia|]. simpl.
  pose proof (calcMemSize64_u64 x y). destruct (calcMemSize64 x y); simpl in *; eauto.
Qed.

Lemma memory_two_regions_total i j mn :
  Z.of_nat i + 1 < mn -> Z.of_nat j + 1 < mn -> request_total (memory_two_regions i j) mn.
Proof.
  intros Hi Hj st Hl. unfold memory_two_regions.
  destruct (memory2_total i (S i) mn ltac:(lia) ltac:(lia) st Hl) as (x & [] & -> & Hx); simpl.
  { eexists _, _. split; [done|]. by unfold is_u64. }
  destruct (memory2_total j (S j) mn ltac:(lia) ltac:(lia) st Hl) as (y & [] & -> & Hy); simpl.
  { eexists _, _. split; [done|]. by unfold is_u64. }
  destruct (y <? x); eauto.
Qed.

Lemma memory_fixed_total n st x :
  st !! 0%nat = Some x ->
  exists ms overflow, (let! off := Stack.Back st 0 in Done (calcMemSize64WithUint off n)) =
    Done (ms, overflow) /\ is_u64 ms.
Proof.
  intros Hx. unfold Stack.Back. rewrite Hx. simpl. pose proof (calcMemSize64WithUint_u64 x n).
  destruct (calcMemSize64WithUint x n); simpl in *; eauto.
Qed.

(** The requested region lies in a memory that is large enough. *)
Lemma memory2_region i j st off n ms m :
  memory2 i j st = Done (ms, false) -> st !! i = Some off -> st !! j = Some n ->
  0 <= off -> 0 <= n -> ms <= Memory.Len m -> region m off n /\ is_u64 n.
Proof.
  unfold memory2, Stack.Back. intros E Hi Hj Ho Hn Hle. rewrite Hi, Hj in E. injection E as E.
  destruct (calcMemSize64_spec off n ms Ho Hn E) as (Hu & _ & [[-> _]|[? ->]]);
    (split; [split; [done|]|done]); [by left|right; lia].
Qed.

Lemma memory_two_regions_region i j st o1 n1 o2 n2 ms m :
  memory_two_regions i j st = Done (ms, false) ->
  st !! i = Some o1 -> st !! S i = Some n1 -> st !! j = Some o2 -> st !! S j = Some n2 ->
  0 <= o1 -> 0 <= n1 -> 0 <= o2 -> 0 <= n2 -> ms <= Memory.Len m ->
  region m o1 n1 /\ is_u64 n1 /\ region m o2 n2 /\ is_u64 n2.
Proof.
  unfold memory_two_regions. intros E H1 H2 H3 H4 ? ? ? ? Hle.
  destruct (memory2 i (S i) st) as [[x []]| |] eqn:E1; simpl in E; try done.
  destruct (memory2 j (S j) st) as [[y []]| |] eqn:E2; simpl in E; try done.
  assert (x <= ms /\ y <= ms) as [??] by (destruct (Z.ltb_spec y x); injection E as <-; lia).
  destruct (memory2_region _ _ _ _ _ _ m E1 H1 H2) as [? ?]; [lia..|].
  destruct (memory2_region _ _ _ _ _ _ m E2 H3 H4) as [? ?]; [lia..|]. done.
Qed.
