(* ===== verification/VmGasSpec.v ===== *)
(** * core/vm: what the gas functions charge and change
    Every dynamic gas function either fails without touching the state, or
    charges the memory expansion, never a negative amount, and changes at most
    [callGasTemp] and the refund counter. *)

From S2P Require Import Prelude MathUtil VmBase VmEnv VmGas World VmInv VmMemory.
#[local] Open Scope gas_scope.

Section GasSpec.
Context {S : Type} `{vmStateDB S}.

(** ** Weakest preconditions of gas computations *)

Definition gwp {A} (g : gasM S A) (e : EVM S) (m : Memory.t)
    (Q : EVM S -> Memory.t -> A + vmError -> Prop) : Prop :=
  wp False (g e m) (fun x => Q (fst (fst x)) (snd (fst x)) (snd x)).

Lemma gwp_bind {A B} (c : gasM S A) (k : A -> gasM S B) e m Q :
  gwp c e m (fun e' m' r => match r with inl a => gwp (k a) e' m' Q | inr er => Q e' m' (inr er) end) ->
  gwp (gbind c k) e m Q.
Proof. unfold gwp, gbind. destruct (c e m) as [[[e' m'] [a|er]]| |]; simpl; auto. Qed.

Lemma gwp_ret {A} (a : A) e m (Q : EVM S -> Memory.t -> A + vmError -> Prop) :
  Q e m (inl a) -> gwp (gret a) e m Q.
Proof. done. Qed.

Lemma gwp_mem k e m (Q : EVM S -> Memory.t -> Z + vmError -> Prop) :
  mem_ok m -> 0 <= k ->
  (maxMem < 32 * k -> Q e m (inr errGasUintOverflow)) ->
  (forall fee, 32 * k <= maxMem -> is_u64 fee -> Q e (charged m (32 * k)) (inl fee)) ->
  gwp (gmem (32 * k)) e m Q.
Proof.
  intros Hm Hk H1 H2. unfold gwp, gmem. rewrite memoryGasCost_spec by done.
  destruct (Z.ltb_spec maxMem (32 * k)) as [|Hmax]; simpl; [auto|]. apply H2; [done|].
  unfold maxMem in Hmax. pose proof (mem_words_range m Hm).
  pose proof (memcost_mono (mem_words m) (Z.max (mem_words m) k) ltac:(lia)).
  pose proof (memcost_bound (Z.max (mem_words m) k) ltac:(lia)).
  pose proof (memcost_bound (mem_words m) ltac:(lia)). unfold is_u64. lia.
Qed.

Lemma gwp_back st n x e m (Q : EVM S -> Memory.t -> Z + vmError -> Prop) :
  st !! n = Some x -> Q e m (inl x) -> gwp (gback st n) e m Q.
Proof. unfold gwp, gback, Stack.Back. by intros ->. Qed.

Lemma gwp_read {A} (f : S -> A) e m (Q : EVM S -> Memory.t -> A + vmError -> Prop) :
  Q e m (inl (f (StateDB e))) -> gwp (gread f) e m Q.
Proof. done. Qed.

Lemma gwp_over x b e m (Q : EVM S -> Memory.t -> Z + vmError -> Prop) :
  (b = true -> Q e m (inr errGasUintOverflow)) -> (b = false -> Q e m (inl x)) ->
  gwp (gover (x, b)) e m Q.
Proof. destruct b; unfold gwp, gover; simpl; auto. Qed.

Lemma gwp_add x y e m (Q : EVM S -> Memory.t -> Z + vmError -> Prop) :
  is_u64 x -> is_u64 y ->
  Q e m (inr errGasUintOverflow) -> (is_u64 (x + y) -> Q e m (inl (x + y))) ->
  gwp (gover (SafeAdd x y)) e m Q.
Proof.
  intros Hx Hy H1 H2. destruct (SafeAdd x y) as [z b] eqn:E. apply gwp_over; intros ->; [done|].
  apply SafeAdd_false in E as [-> ?]; auto.
Qed.

Lemma gwp_mul x y e m (Q : EVM S -> Memory.t -> Z + vmError -> Prop) :
  is_u64 x -> is_u64 y ->
  Q e m (inr errGasUintOverflow) -> (is_u64 (x * y) -> Q e m (inl (x * y))) ->
  gwp (gover (SafeMul x y)) e m Q.
Proof.
  intros Hx Hy H1 H2. destruct (SafeMul x y) as [z b] eqn:E. apply gwp_over; intros ->; [done|].
  apply SafeMul_false in E as [-> ?]; auto.
Qed.

Lemma gwp_uint64 x e m (Q : EVM S -> Memory.t -> Z + vmError -> Prop) :
  Q e m (inr errGasUintOverflow) -> (is_u64 x -> Q e m (inl x)) -> gwp (gover (bigUint64 x)) e m Q.
Proof.
  intros H1 H2. unfold bigUint64. apply gwp_over; [done|]. intros Hb%negb_false_iff%IsUint64_true.
  unfold Uint64. rewrite u64_small by done. auto.
Qed.

(** [callGas] never lets the callee have more than the caller asked for. *)
Lemma gwp_callGas eip avail base cost e m (Q : EVM S -> Memory.t -> Z + vmError -> Prop) :
  0 <= cost ->
  (forall g er, Q (set_callGasTemp e g) m (inr er)) ->
  (forall g, is_u64 g -> Q (set_callGasTemp e g) m (inl g)) ->
  gwp (gcallGas eip avail base cost) e m Q.
Proof.
  intros Hc H1 H2. unfold gwp, gcallGas, callGas.
  assert (forall z, is_u64 (u64 z)) by apply u64_range.
  destruct eip, (IsUint64 cost) eqn:E; simpl; zcase; unfold wp; simpl; auto; apply H2, u64_range.
Qed.

End GasSpec.

Ltac gstep :=
  match goal with
  | |- gwp (gbind _ _) _ _ _ => apply gwp_bind
  | |- gwp (gret _) _ _ _ => apply gwp_ret
  | |- gwp (gmem _) _ _ _ => apply gwp_mem; [done|done|intros ?|intros ???]
  | |- gwp (gback _ _) _ _ _ => eapply gwp_back; [reflexivity|]
  | |- gwp (gread _) _ _ _ => apply gwp_read
  | |- gwp (gover (SafeAdd _ _)) _ _ _ => apply gwp_add; [| | |intros ?]
  | |- gwp (gover (SafeMul _ _)) _ _ _ => apply gwp_mul; [| | |intros ?]
  | |- gwp (gover (bigUint64 _)) _ _ _ => apply gwp_uint64; [|intros ?]
  | |- gwp (gcallGas _ _ _ _) _ _ _ => apply gwp_callGas; [|intros ??|intros ??]
  end; cbv beta iota.

(** ** The gas functions *)

Section GasFunctions.
Context {S : Type} `{HS : vmStateDB S} (env : Env) (net : bool) `{!StateRefines (keccak256 env) S}.
Implicit Types (w : World) (r : list (Z * World)) (m : Memory.t) (st : Stack.t).
Abbreviation get := (W.get (keccak256 env)).

(** The result of a gas function started on the memory [m] with a size of
    [32 * k] bytes: [Q w' cgt cost] relates the world, [callGasTemp] and the
    cost it ends with. *)
Definition gas_post w r (e : EVM S) m k (Q : World -> Z -> Z -> Prop)
    (e' : EVM S) (m' : Memory.t) (res : Z + vmError) : Prop :=
  exists s' cgt w', e' = set_callGasTemp (set_StateDB e s') cgt /\ repr s' w' r /\
    match res with
    | inl cost => m' = charged m (32 * k) /\ 32 * k <= maxMem /\ is_u64 cost /\ Q w' cgt cost
    | inr _ => w' = w
    end.

Lemma gas_post_ok w r e m k (Q : World -> Z -> Z -> Prop) cost :
  repr (StateDB e) w r -> 32 * k <= maxMem -> is_u64 cost -> Q w (callGasTemp e) cost ->
  gas_post w r e m k Q e (charged m (32 * k)) (inl cost).
Proof. intros. exists (StateDB e), (callGasTemp e), w. by destruct e. Qed.

Lemma gas_post_err w r e m k (Q : World -> Z -> Z -> Prop) m' er :
  repr (StateDB e) w r -> gas_post w r e m k Q e m' (inr er).
Proof. intros. exists (StateDB e), (callGasTemp e), w. by destruct e. Qed.

Lemma gas_post_call_ok w r e m k (Q : World -> Z -> Z -> Prop) cgt cost :
  repr (StateDB e) w r -> 32 * k <= maxMem -> is_u64 cost -> Q w cgt cost ->
  gas_post w r e m k Q (set_callGasTemp e cgt) (charged m (32 * k)) (inl cost).
Proof. intros. exists (StateDB e), cgt, w. by destruct e. Qed.

Lemma gas_post_call_err w r e m k (Q : World -> Z -> Z -> Prop) m' cgt er :
  repr (StateDB e) w r -> gas_post w r e m k Q (set_callGasTemp e cgt) m' (inr er).
Proof. intros. exists (StateDB e), cgt, w. by destruct e. Qed.

(** A function that leaves the state alone and charges at least [low]. *)
Definition charges (low : Z) w : World -> Z -> Z -> Prop := fun w' _ cost => w' = w /\ low <= cost.

#[local] Hint Resolve gas_post_err gas_post_call_err gas_post_ok gas_post_call_ok : core.
#[local] Hint Extern 1 (is_u64 _) => (unfold is_u64 in *; lia) : core.
#[local] Hint Extern 1 (charges _ _ _ _ _) => (split; [done|unfold is_u64 in *; lia]) : core.

Lemma toWordSize_u64 n : is_u64 n -> is_u64 (toWordSize n).
Proof. intros Hn. pose proof (toWordSize_range n Hn). unfold is_u64. lia. Qed.
#[local] Hint Resolve toWordSize_u64 : core.

Section Plain.
Context (c : Contract) (st : Stack.t) (k : Z) (e : EVM S) (m : Memory.t) (w : World) (r : list (Z * World)).
Hypothesis Hrepr : repr (StateDB e) w r.
Hypothesis Hm : mem_ok m.
Hypothesis Hk : 0 <= k.

Lemma memoryCopierGas_spec n l :
  st !! n = Some l -> 0 <= l ->
  gwp (memoryCopierGas n c st (32 * k)) e m (gas_post w r e m k (charges 0 w)).
Proof.
  intros Hl Hl0. unfold memoryCopierGas. do 2 gstep; [auto|]. gstep. eapply gwp_back; [done|].
  unfold Params.CopyGas. repeat gstep; auto 8.
Qed.

Lemma makeGasLog_spec n x l st' :
  st = x :: l :: st' -> 0 <= n <= 4 -> 0 <= l ->
  gwp (makeGasLog n c st (32 * k)) e m (gas_post w r e m k (charges 375 w)).
Proof.
  intros -> Hn Hl. unfold makeGasLog.
  rewrite (u64_small (n * _)) by (unfold is_u64, Params.LogTopicGas; lia).
  unfold Params.LogGas, Params.LogTopicGas, Params.LogDataGas. repeat gstep; auto 8.
Qed.

Lemma gasSha3_spec x l st' :
  st = x :: l :: st' -> 0 <= l ->
  gwp (gasSha3 c st (32 * k)) e m (gas_post w r e m k (charges 0 w)).
Proof. intros -> Hl. unfold gasSha3, Params.Sha3WordGas. repeat gstep; auto 8. Qed.

Lemma pureMemoryGascost_spec :
  gwp (pureMemoryGascost c st (32 * k)) e m (gas_post w r e m k (charges 0 w)).
Proof. unfold pureMemoryGascost. repeat gstep; auto 8. Qed.

Lemma gasCreate2_spec x y l st' :
  st = x :: y :: l :: st' -> 0 <= l ->
  gwp (gasCreate2 c st (32 * k)) e m (gas_post w r e m k (charges 0 w)).
Proof. intros -> Hl. unfold gasCreate2, Params.Sha3WordGas. repeat gstep; auto 8. Qed.

Lemma gas_exp_spec (g : gasFunc S) per x y st' :
  st = x :: y :: st' -> 0 <= per <= 50 ->
  g c st (32 * 0) = (let* e := gback st 1 in
         gover (SafeAdd (u64 ((BitLen e + 7) / 8 * per)) Params.ExpGas)) ->
  gwp (g c st (32 * 0)) e m (gas_post w r e m 0 (charges 10 w)).
Proof.
  intros -> Hper ->. repeat gstep.
  - apply u64_range.
  - by unfold Params.ExpGas, is_u64.
  - auto.
  - pose proof (u64_range ((BitLen y + 7) / 8 * per)). unfold Params.ExpGas in *.
    rewrite <-(charged_0 m) at 2. apply (gas_post_ok w r e m 0); [done|by unfold maxMem|done|].
    split; [done|]. unfold is_u64 in *. lia.
Qed.

(** The gas a call forwards is part of what it is charged, with the price of a
    value transfer on top. *)
Definition forwards (v : Z) : World -> Z -> Z -> Prop := fun w' cgt cost =>
  w' = w /\ is_u64 cgt /\ cgt + (if v =? 0 then 0 else Params.CallValueTransferGas) <= cost.

#[local] Hint Extern 1 (forwards _ _ _ _) =>
  (split_and!; [done|done|unfold is_u64, Params.CallValueTransferGas, Params.CallNewAccountGas in *; zcase]) : core.

Lemma gasCall_spec l a v st' :
  st = l :: a :: v :: st' -> 0 <= l ->
  gwp (gasCall env c st (32 * k)) e m (gas_post w r e m k (forwards v)).
Proof.
  intros -> Hl. unfold gasCall. do 8 gstep.
  set (base := if negb (v =? 0) then _ else _).
  assert (0 <= base <= 34000 /\ (if v =? 0 then 0 else Params.CallValueTransferGas) <= base)
    as [Hb0 Hb].
  { unfold base, Params.CallNewAccountGas, Params.CallValueTransferGas. clear. by zcase. }
  clearbody base. repeat gstep; auto 8.
Qed.

Lemma gasCallCode_spec l a v st' :
  st = l :: a :: v :: st' -> 0 <= l ->
  gwp (gasCallCode env c st (32 * k)) e m (gas_post w r e m k (forwards v)).
Proof.
  intros -> Hl. unfold gasCallCode. do 2 gstep; [auto|]. do 2 gstep.
  set (base := if negb (v =? 0) then _ else _).
  assert (0 <= base <= 34000 /\ (if v =? 0 then 0 else Params.CallValueTransferGas) <= base)
    as [Hb0 Hb].
  { unfold base, Params.CallNewAccountGas, Params.CallValueTransferGas. clear. by zcase. }
  clearbody base. repeat gstep; auto 8.
Qed.

Lemma gasDelegateCall_spec l st' :
  st = l :: st' -> 0 <= l ->
  gwp (gasDelegateCall env c st (32 * k)) e m (gas_post w r e m k (forwards 0)).
Proof.
  intros -> Hl. unfold gasDelegateCall. repeat gstep; auto 8.
Qed.

Lemma gasStaticCall_spec l st' :
  st = l :: st' -> 0 <= l ->
  gwp (gasStaticCall env c st (32 * k)) e m (gas_post w r e m k (forwards 0)).
Proof. apply gasDelegateCall_spec. Qed.
End Plain.

(** ** Storage writes and self-destruction: the refund counter *)

Lemma set_refund_id w : W.set_refund w (w_refund w) = w.
Proof. by destruct w. Qed.

Lemma gwp_eta {A} (g : gasM S A) e m (Q : EVM S -> Memory.t -> A + vmError -> Prop) :
  gwp g (set_StateDB e (StateDB e)) m Q -> gwp g e m Q.
Proof. by destruct e. Qed.

Section Refund.
Context (c : Contract) (e : EVM S) (m : Memory.t) (w : World) (r : list (Z * World)).
Hypothesis Hrepr : repr (StateDB e) w r.
Hypothesis Hw : world_ok (keccak256 env) net w.
Hypothesis Hbudget : w_refund w + 24000 < two64.

Lemma gwp_addRefund s ρ g (Q : EVM S -> Memory.t -> unit + vmError -> Prop) :
  repr s (W.set_refund w ρ) r -> 0 <= ρ -> 0 <= g -> ρ + g < two64 ->
  (forall s', repr s' (W.set_refund w (ρ + g)) r -> Q (set_StateDB e s') m (inl tt)) ->
  gwp (addRefund g) (set_StateDB e s) m Q.
Proof.
  intros Hs H0 Hg Hlt HQ. unfold gwp, addRefund, gwrite. simpl. apply HQ.
  pose proof (repr_AddRefund _ _ _ g Hs) as Hr. unfold W.AddRefund, W.set_refund in *. simpl in Hr.
  by rewrite u64_small in Hr by (unfold is_u64; lia).
Qed.

Lemma gwp_subRefund s ρ g (Q : EVM S -> Memory.t -> unit + vmError -> Prop) :
  repr s (W.set_refund w ρ) r -> g <= ρ ->
  (forall s', repr s' (W.set_refund w (ρ - g)) r -> Q (set_StateDB e s') m (inl tt)) ->
  gwp (subRefund g) (set_StateDB e s) m Q.
Proof.
  intros Hs Hg HQ. unfold gwp, subRefund, gwrite. simpl.
  destruct (repr_SubRefund _ _ _ g Hs Hg) as (s' & -> & Hr). simpl. by apply HQ.
Qed.

Definition slot_orig (k : Hash) : Hash := slot (a_committed (get w (self c))) k.
Definition slot_cur (k : Hash) : Hash := slot (a_storage (get w (self c))) k.

(** The refund counter is left at a value that pays for the write. *)
Definition sstore_charge (k v : Hash) : World -> Z -> Z -> Prop := fun w' _ cost =>
  exists ρ, w' = W.set_refund w ρ /\ is_u64 ρ /\
    (net = true -> w_refund w + refund_delta (slot_orig k) (slot_cur k) v <= ρ) /\
    ρ <= w_refund w + 1000 * cost /\ 200 <= cost.

Lemma sstore_post k v s ρ cost :
  repr s (W.set_refund w ρ) r -> 0 <= ρ <= w_refund w + 24000 -> 200 <= cost <= 20000 ->
  (net = true -> w_refund w + refund_delta (slot_orig k) (slot_cur k) v <= ρ) ->
  ρ <= w_refund w + 1000 * cost ->
  gas_post w r e m 0 (sstore_charge k v) (set_StateDB e s) m (inl cost).
Proof.
  intros Hs Hρ Hc Hd Hc'. exists s, (callGasTemp e), (W.set_refund w ρ).
  split; [done|]. split; [done|]. split; [by rewrite charged_0|]. split; [done|].
  split; [unfold is_u64; lia|]. exists ρ. split_and!; try done; unfold is_u64; lia.
Qed.

Lemma sstore_take_back k :
  net = true -> slot_orig k <> 0 -> slot_cur k = 0 -> 15000 <= w_refund w.
Proof.
  intros Hn Ho Hc. destruct Hw as [_ [_ Hr]].
  exact (clears_refunded_take_back _ _ (self c) k (Hr Hn) Ho Hc).
Qed.

Lemma gwp_if {A} (b : bool) (g1 g2 : gasM S A) e' (Q : EVM S -> Memory.t -> A + vmError -> Prop) :
  (b = true -> gwp g1 e' m Q) -> (b = false -> gwp g2 e' m Q) -> gwp (if b then g1 else g2) e' m Q.
Proof. destruct b; auto. Qed.

Lemma gwp_skip s (Q : EVM S -> Memory.t -> unit + vmError -> Prop) :
  Q (set_StateDB e s) m (inl tt) -> gwp gskip (set_StateDB e s) m Q.
Proof. done. Qed.

(** The tail of both net-metering functions: what is given to and taken from
    the refund counter when a slot that was already changed is changed again. *)
Lemma net_dirty_spec (reset_clear reset : Z) k v cost :
  net = true -> 200 <= cost <= 20000 -> 0 <= reset_clear <= 19800 -> 0 <= reset <= 4800 ->
  slot_orig k <> slot_cur k -> slot_cur k <> v ->
  gwp (let* _ := if negb (slot_orig k =? 0) then
                    if slot_cur k =? 0 then subRefund 15000
                    else if v =? 0 then addRefund 15000 else gskip
                  else gskip in
       let* _ := if slot_orig k =? v then
                    if slot_orig k =? 0 then addRefund reset_clear else addRefund reset
                  else gskip in
       gret cost) e m (gas_post w r e m 0 (sstore_charge k v)).
Proof.
  intros Hn Hc Hrc Hrs Hne Hnv. apply gwp_eta. pose proof (proj1 (wo_refund _ _ _ Hw)) as Hu.
  unfold is_u64 in Hu.
  assert (repr (StateDB e) (W.set_refund w (w_refund w)) r) as H0 by by rewrite set_refund_id.
  assert (forall s ρ, repr s (W.set_refund w ρ) r -> 0 <= ρ <= w_refund w + 15000 ->
    w_refund w + refund_delta (slot_orig k) (slot_cur k) v <= ρ ->
    (slot_orig k = v -> ρ <= w_refund w) ->
    gwp (let* _ := if slot_orig k =? v then
                    if slot_orig k =? 0 then addRefund reset_clear else addRefund reset
                  else gskip in gret cost) (set_StateDB e s) m
        (gas_post w r e m 0 (sstore_charge k v))) as Htail.
  { intros s ρ Hs Hρ Hd Hov. gstep. apply gwp_if; intros Hov'%Z.eqb_eq || intros Hov'%Z.eqb_neq.
    - specialize (Hov Hov'). apply gwp_if; intros _; eapply gwp_addRefund; try done; try lia; intros s' Hs';
        gstep; apply sstore_post with (1 := Hs'); lia.
    - apply gwp_skip. gstep. apply sstore_post with (1 := Hs); lia. }
  gstep. unfold refund_delta in Htail.
  apply gwp_if; [intros Ho%negb_true_iff%Z.eqb_neq|intros Ho%negb_false_iff%Z.eqb_eq].
  - apply gwp_if; [intros Hz%Z.eqb_eq|intros Hz%Z.eqb_neq].
    + pose proof (sstore_take_back k Hn Ho Hz). eapply gwp_subRefund; [done|lia|].
      intros s' Hs'. apply (Htail _ _ Hs'); [lia| |lia]. zcase.
    + apply gwp_if; [intros Hv%Z.eqb_eq|intros Hv%Z.eqb_neq].
      * eapply gwp_addRefund; [done|lia..|]. intros s' Hs'. apply (Htail _ _ Hs'); [lia| |lia]. zcase.
      * apply gwp_skip. apply (Htail _ _ H0); [lia| |lia]. zcase.
  - apply gwp_skip. apply (Htail _ _ H0); [lia| |lia]. zcase.
Qed.

(** The part of both net-metering functions that follows the no-op test. *)
Lemma net_clean_spec k v cost :
  200 <= cost <= 20000 ->
  slot_cur k <> v -> slot_orig k = slot_cur k -> slot_orig k <> 0 ->
  gwp (let* _ := if v =? 0 then addRefund 15000 else gskip in gret cost) e m
    (gas_post w r e m 0 (sstore_charge k v)).
Proof.
  intros Hc Hne Hoc Ho. apply gwp_eta. pose proof (proj1 (wo_refund _ _ _ Hw)) as Hu.
  unfold is_u64 in Hu.
  assert (repr (StateDB e) (W.set_refund w (w_refund w)) r) as H0 by by rewrite set_refund_id.
  gstep. apply gwp_if; [intros Hv%Z.eqb_eq|intros Hv%Z.eqb_neq].
  - eapply gwp_addRefund; [done|lia..|]. intros s' Hs'. gstep.
    apply sstore_post with (1 := Hs'); try lia. intros _. unfold refund_delta. zcase.
  - apply gwp_skip. gstep. apply sstore_post with (1 := H0); try lia.
    intros _. unfold refund_delta. zcase.
Qed.

(** No refund is due: a write to a slot that was and is zero, or a no-op. *)
Lemma sstore_no_refund k v cost :
  200 <= cost <= 20000 -> (net = true -> slot_orig k = 0 \/ slot_cur k = v) ->
  gwp (gret cost) e m (gas_post w r e m 0 (sstore_charge k v)).
Proof.
  intros Hc Hd. apply gwp_eta. gstep. pose proof (proj1 (wo_refund _ _ _ Hw)) as Hu. unfold is_u64 in Hu.
  apply sstore_post with (w_refund w); try lia; [by rewrite set_refund_id|].
  intros Hn. specialize (Hd Hn). unfold refund_delta. zcase.
Qed.

Lemma gasSStoreEIP2200_spec x y st' :
  net = true ->
  gwp (gasSStoreEIP2200 c (x :: y :: st') 0) e m
    (gas_post w r e m 0 (sstore_charge (BigToHash x) (BigToHash y))).
Proof.
  intros Hn. unfold gasSStoreEIP2200. apply gwp_if; intros Hs; [by apply gas_post_err|].
  do 6 gstep. rewrite (repr_GetState _ _ _ _ _ Hrepr).
  fold (slot_cur (BigToHash x)). set (k := BigToHash x). set (v := BigToHash y).
  apply gwp_if; [intros Hv%Z.eqb_eq|intros Hv%Z.eqb_neq].
  { apply sstore_no_refund; [done|auto]. }
  do 2 gstep. rewrite (repr_GetCommittedState _ _ _ _ _ Hrepr). fold (slot_orig k).
  apply gwp_if; [intros Ho%Z.eqb_eq|intros Ho%Z.eqb_neq].
  - apply gwp_if; [intros Hz%Z.eqb_eq|intros Hz%Z.eqb_neq].
    + apply sstore_no_refund; [done|auto].
    + by apply net_clean_spec.
  - by apply net_dirty_spec.
Qed.

Lemma gasSStore_spec x y st' :
  0 <= y -> net = negb (IsPetersburg (chainRules env) || negb (IsConstantinople (chainRules env))) ->
  gwp (gasSStore env c (x :: y :: st') 0) e m
    (gas_post w r e m 0 (sstore_charge (BigToHash x) (BigToHash y))).
Proof.
  intros Hy Hn. unfold gasSStore, Params.SstoreRefundGas, Params.SstoreClearGas. do 6 gstep. rewrite (repr_GetState _ _ _ _ _ Hrepr).
  fold (slot_cur (BigToHash x)). set (k := BigToHash x). set (v := BigToHash y).
  pose proof (proj1 (wo_refund _ _ _ Hw)) as Hu. unfold is_u64 in Hu.
  apply gwp_if; intros Hl; rewrite Hl in Hn; simpl in Hn.
  { apply gwp_if; intros H1; [by apply sstore_no_refund; rewrite ?Hn|].
    apply gwp_if; intros H2; [|by apply sstore_no_refund; rewrite ?Hn].
    apply gwp_eta. gstep. apply gwp_addRefund with (ρ := w_refund w); [by rewrite set_refund_id|lia..|]. intros s' Hs'. gstep.
    apply sstore_post with (1 := Hs'); by rewrite ?Hn; try lia. }
  apply gwp_if; [intros Hv%Z.eqb_eq|intros Hv%Z.eqb_neq].
  { apply sstore_no_refund; [done|auto]. }
  do 2 gstep. rewrite (repr_GetCommittedState _ _ _ _ _ Hrepr). fold (slot_orig k).
  apply gwp_if; [intros Ho%Z.eqb_eq|intros Ho%Z.eqb_neq].
  - apply gwp_if; [intros Hz%Z.eqb_eq|intros Hz%Z.eqb_neq].
    + apply sstore_no_refund; [done|auto].
    + by apply net_clean_spec.
  - by apply net_dirty_spec.
Qed.

(** SELFDESTRUCT adds at most one refund. *)
Definition selfdestruct_charge : World -> Z -> Z -> Prop := fun w' _ cost =>
  exists ρ, w' = W.set_refund w ρ /\ w_refund w <= ρ <= w_refund w + Params.SelfdestructRefundGas.

Lemma gasSelfdestruct_spec a st' :
  gwp (gasSelfdestruct env c (a :: st') 0) e m (gas_post w r e m 0 selfdestruct_charge).
Proof.
  pose proof (proj1 (wo_refund _ _ _ Hw)) as Hu. unfold is_u64 in Hu.
  assert (forall gas, 0 <= gas <= 30000 -> gwp (
      let* suicided := gread (fun s => HasSuicided s (self c)) in
      let* _ := if negb suicided then addRefund Params.SelfdestructRefundGas else gskip in
      gret gas) e m (gas_post w r e m 0 selfdestruct_charge)) as Htail.
  { intros gas Hg. apply gwp_eta. do 3 gstep. unfold Params.SelfdestructRefundGas.
    assert (forall s ρ, repr s (W.set_refund w ρ) r -> w_refund w <= ρ <= w_refund w + 24000 ->
      gas_post w r e m 0 selfdestruct_charge (set_StateDB e s) m (inl gas)) as Hend.
    { intros s ρ Hs Hρ. exists s, (callGasTemp e), (W.set_refund w ρ). rewrite charged_0.
      split_and!; try done; [unfold is_u64; lia..|]. exists ρ. done. }
    apply gwp_if; intros _.
    - apply gwp_addRefund with (ρ := w_refund w); [by rewrite set_refund_id|lia..|]. intros s' Hs'. gstep.
      apply (Hend _ _ Hs'). lia.
    - apply gwp_skip. gstep. apply (Hend _ (w_refund w)); [by rewrite set_refund_id|lia]. }
  unfold gasSelfdestruct, Params.SelfdestructGasEIP150, Params.CreateBySelfdestructGas. gstep.
  apply gwp_if; intros _; [|gstep; by apply Htail].
  do 2 gstep. apply gwp_if; intros _; [do 5 gstep|do 3 gstep]; apply Htail; zcase.
Qed.

End Refund.
End GasFunctions.
