(* ===== verification/VmStep.v ===== *)
(** * core/vm: one step of the interpreter preserves the frame invariant
    The invariant of a frame, what a step and a call promise, and the proof
    that a step keeps its promise if every operation of the instruction set
    does. *)

From S2P Require Import Prelude MathUtil VmBase VmEnv VmGas VmInstr VmTable VmInterp VmAnalysis.
From S2P Require Import World VmInv VmMemory VmGasSpec.

Section Step.
Context {S : Type} `{HS : vmStateDB S} (env : Env) (net : bool) `{!StateRefines (keccak256 env) S}.
Implicit Types (w : World) (r : list (Z * World)) (f : Frame S) (e : EVM S).
Abbreviation keccak := (keccak256 env).
Abbreviation world_ok := (world_ok keccak net).
Abbreviation static := (static keccak).

(** ** Invariants *)

Record contract_ok (c : Contract) : Prop := {
  co_gas : is_u64 (Gas c);
  co_self : 0 <= self c;
  co_caller : 0 <= CallerAddress c;
  co_value : 0 <= value c;
  co_code : zlen (Code c) < 2 ^ 62;
  co_input : zlen (Input c) < 2 ^ 62;
  co_analysis : analysis_ok keccak c }.

(** Return data that is backed by the memory lies inside it. *)
Definition rd_ok (m : Memory.t) (rd : retData) : Prop :=
  match rd with
  | RVal _ => True
  | RMem off n => 0 <= off /\ 0 <= n /\ off + n <= Memory.Len m
  end.

(** Gas left and refund counter together: no step increases this amount,
    except by the refund of a self-destruction, which ends the frame. *)
Definition potential w (gas : Z) : Z := w_refund w + 1000 * gas.

Record frame_ok f w r : Prop := {
  fo_repr : repr (db f) w r;
  fo_world : world_ok w;
  fo_budget : potential w (Gas (contract f)) + 24000 < two64;
  fo_stack : Forall (fun x => 0 <= x) (stack f);
  fo_len : zlen (stack f) <= Params.StackLimit;
  fo_mem : mem_ok (memory f);
  fo_rd : rd_ok (memory f) (returnData (evm f));
  fo_pc : 0 <= pc f <= zlen (Code (contract f)) + 33;
  fo_contract : contract_ok (contract f);
  fo_jumpdests : jumpdests_ok keccak (jumpdests (evm f));
  fo_depth : 0 <= depth (evm f) }.

(** Whether state changes are forbidden. *)
Definition ro e : bool := readOnly e && IsByzantium (chainRules env).

Record same_env e e' : Prop := {
  se_readOnly : readOnly e' = readOnly e;
  se_depth : depth e' = depth e }.

(** ** What a step, the loop and a call promise *)

(** Without an error the state is kept.  Contract creation also keeps it when
    the new code cannot be paid for, before Homestead. *)
Definition keeps (err : option vmError) : Prop := err = None \/ err = Some ErrCodeStoreOutOfGas.

Definition stop_post (g0 : Z) f w r f' (ret : bytes) (err : option vmError) : Prop :=
  exists w' r', repr (db f') w' (r' ++ r) /\ same_env (evm f) (evm f') /\
    jumpdests_ok keccak (jumpdests (evm f')) /\ 0 <= Gas (contract f') <= g0 /\
    zlen ret < 2 ^ 62 /\ (ro (evm f) = true -> static w w') /\
    (keeps err -> world_ok w' /\ potential w' (Gas (contract f')) <= potential w g0 + 24000).

Definition next_post (g0 : Z) f w r f' : Prop :=
  exists w' r', frame_ok f' w' (r' ++ r) /\ same_env (evm f) (evm f') /\
    Gas (contract f') < g0 /\ potential w' (Gas (contract f')) <= potential w g0 /\
    (ro (evm f) = true -> static w w').

Definition step_post (g0 : Z) f w r (res : stepResult) : Prop :=
  match res with
  | Next f' => next_post g0 f w r f'
  | Stop f' ret err => stop_post g0 f w r f' ret err
  end.

Definition ref_ok (c : ContractRef) : Prop :=
  match c with
  | AccountRef a => 0 <= a
  | ContractPtr a b v => 0 <= a /\ 0 <= b /\ 0 <= v
  end.

Record call_pre e (caller : ContractRef) (gas : Z) w r : Prop := {
  cp_repr : repr (StateDB e) w r;
  cp_world : world_ok w;
  cp_jumpdests : jumpdests_ok keccak (jumpdests e);
  cp_depth : 0 <= depth e;
  cp_gas : 0 <= gas;
  cp_budget : potential w gas + 24000 < two64;
  cp_caller : ref_ok caller }.

(** [exact] says whether a failed call leaves the world as it was. *)
Definition call_post e (gas : Z) w r (isStatic exact : Prop) e' (left : Z) (err : option vmError) : Prop :=
  exists w' r', repr (StateDB e') w' (r' ++ r) /\ same_env e e' /\
    jumpdests_ok keccak (jumpdests e') /\ 0 <= left <= gas /\ world_ok w' /\
    potential w' left <= potential w gas + 24000 /\
    (isStatic -> static w w') /\ (exact -> err <> None -> w' = w).

Definition contract_caller (c : ContractRef) : Prop :=
  match c with ContractPtr _ _ _ => True | AccountRef _ => False end.

Record calls_ok (n : nat) (cs : Calls S) : Prop := {
  ck_Call e caller addr input gas v w r :
    call_pre e caller gas w r -> 0 <= addr -> 0 <= v -> zlen input < 2 ^ 62 ->
    wp (Z.of_nat n <= gas) (Call cs e caller addr input gas v)
      (fun x => call_post e gas w r (ro e = true /\ v = 0) True (fst x) (leftOverGas (snd x)) (err (snd x)));
  ck_CallCode e caller addr input gas v w r :
    call_pre e caller gas w r -> 0 <= addr -> 0 <= v -> zlen input < 2 ^ 62 ->
    wp (Z.of_nat n <= gas) (CallCode cs e caller addr input gas v)
      (fun x => call_post e gas w r (ro e = true) True (fst x) (leftOverGas (snd x)) (err (snd x)));
  ck_DelegateCall e caller addr input gas w r :
    call_pre e caller gas w r -> contract_caller caller -> 0 <= addr -> zlen input < 2 ^ 62 ->
    wp (Z.of_nat n <= gas) (DelegateCall cs e caller addr input gas)
      (fun x => call_post e gas w r (ro e = true) True (fst x) (leftOverGas (snd x)) (err (snd x)));
  ck_StaticCall e caller addr input gas w r :
    call_pre e caller gas w r -> 0 <= addr -> zlen input < 2 ^ 62 ->
    wp (Z.of_nat n <= gas) (StaticCall cs e caller addr input gas)
      (fun x => call_post e gas w r (IsByzantium (chainRules env) = true) True
                  (fst x) (leftOverGas (snd x)) (err (snd x)));
  ck_Create e caller code gas v w r :
    call_pre e caller gas w r -> 0 <= v -> zlen code < 2 ^ 62 ->
    wp (Z.of_nat n <= gas) (Create cs e caller code gas v)
      (fun x => call_post e gas w r False False (fst x) (create_leftOverGas (snd x)) (create_err (snd x)) /\
                0 <= contractAddr (snd x));
  ck_Create2 e caller code gas v salt w r :
    call_pre e caller gas w r -> 0 <= v -> 0 <= salt -> zlen code < 2 ^ 62 ->
    wp (Z.of_nat n <= gas) (Create2 cs e caller code gas v salt)
      (fun x => call_post e gas w r False False (fst x) (create_leftOverGas (snd x)) (create_err (snd x)) /\
                0 <= contractAddr (snd x)) }.

(** ** Operations *)

(** The part of an iteration that follows the static gas. *)
Definition body (o : operation S) (cs : Calls S) (size : Z) f : outcome stepResult :=
  let! '(f, paid) := charge_dynamic o size f in
  if negb paid then stop_err f ErrOutOfGas
  else
    let! '(f, res, err) := execute o env cs (expand env size f) in
    Done (conclude o f res err).

(** A write operation, or a call with value, is not executed in static mode. *)
Definition unprotected (opc : Z) (o : operation S) f : Prop :=
  ro (evm f) = true -> writes o = false /\ (opc = Op.CALL -> stack f !! 2%nat = Some 0).

Record op_ok (opc : Z) (o : operation S) : Prop := {
  ok_memorySize st g : memorySize o = Some g -> Forall (fun x => 0 <= x) st ->
    op_minStack o <= zlen st -> exists ms overflow, g st = Done (ms, overflow) /\ is_u64 ms;
  ok_call : opc = Op.CALL -> 3 <= op_minStack o;
  ok_gas : 0 <= constantGas o;
  ok_body n cs f w r k :
    calls_ok n cs -> frame_ok f w r ->
    potential w (Gas (contract f) + constantGas o) + 24000 < two64 ->
    op_minStack o <= zlen (stack f) <= op_maxStack o -> unprotected opc o f ->
    (opc <> 0 -> pc f < zlen (Code (contract f))) -> 0 <= k ->
    match memorySize o with
    | None => k = 0
    | Some g => exists ms, g (stack f) = Done (ms, false) /\ is_u64 ms /\ ms <= 32 * k
    end ->
    wp (Z.of_nat n < Gas (contract f) + constantGas o) (body o cs (32 * k) f)
      (step_post (Gas (contract f) + constantGas o) f w r) }.

Definition table_ok (jt : JumpTable S) : Prop := map_Forall op_ok jt.

(** ** Frame updates *)

Lemma contract_ok_gas c g : contract_ok c -> is_u64 g -> contract_ok (set_Gas c g).
Proof. intros [] ?. split; try done. Qed.

Lemma same_env_refl e : same_env e e.
Proof. by split. Qed.

Lemma same_env_trans e1 e2 e3 : same_env e1 e2 -> same_env e2 e3 -> same_env e1 e3.
Proof. intros [] []. split; congruence. Qed.

Lemma frame_ok_gas f w r g :
  frame_ok f w r -> 0 <= g <= Gas (contract f) ->
  frame_ok (with_contract f (set_Gas (contract f) g)) w r.
Proof.
  intros [] Hg. split; try done; simpl.
  - unfold potential in *. lia.
  - apply contract_ok_gas; [done|]. destruct fo_contract0. unfold is_u64 in *. lia.
Qed.

Lemma stop_here g0 f w r ret err :
  frame_ok f w r -> Gas (contract f) <= g0 -> zlen ret < 2 ^ 62 -> stop_post g0 f w r f ret err.
Proof.
  intros [] Hg Hl. exists w, []. destruct fo_contract0. unfold is_u64 in *.
  split_and!; try done; [lia|]. intros _. split; [done|]. unfold potential in *. lia.
Qed.

Lemma GetOp_pc f w r :
  frame_ok f w r -> GetOp (contract f) (pc f) <> 0 -> pc f < zlen (Code (contract f)).
Proof.
  intros Hf Hop. destruct (Z.lt_ge_cases (pc f) (zlen (Code (contract f)))); [done|].
  destruct Hop. unfold GetOp, GetByte. rewrite lookup_ge_None_2; [done|].
  pose proof (fo_pc _ _ _ Hf). lia.
Qed.

(** ** The step *)

Lemma write_protected_spec opc o f w r :
  op_ok opc o -> frame_ok f w r -> op_minStack o <= zlen (stack f) ->
  exists b, write_protected env opc o f = Done b /\ (b = false -> unprotected opc o f).
Proof.
  intros Ho Hf Hmin. unfold write_protected, unprotected, ro.
  destruct (readOnly (evm f) && _); [|by exists false].
  destruct (writes o); [by exists true|].
  destruct (Z.eqb_spec opc Op.CALL) as [Hc|Hc]; [|exists false; by split].
  pose proof (ok_call _ _ Ho Hc). unfold Stack.Back.
  destruct (lookup_lt_is_Some_2 (stack f) 2) as [v Hv]; [lia|]. rewrite Hv. simpl.
  eexists; split; [done|]. intros Hb%negb_false_iff%Z.eqb_eq _. split; [done|]. by subst.
Qed.

Lemma step_ok (jt : JumpTable S) n cs f w r :
  table_ok jt -> calls_ok n cs -> frame_ok f w r ->
  wp (Z.of_nat n < Gas (contract f)) (step env jt cs f)
    (step_post (Gas (contract f)) f w r).
Proof.
  intros Hjt Hcs Hf. unfold step.
  assert (forall er, wp (Z.of_nat n < Gas (contract f)) (stop_err f er)
    (step_post (Gas (contract f)) f w r)) as Hstop.
  { intros er. apply stop_here; [done|lia|done]. }
  destruct (jt !! _) as [o|] eqn:Ho; [|apply Hstop]. apply Hjt in Ho.
  destruct (Z.ltb_spec (Stack.len (stack f)) (op_minStack o)) as [|Hmin]; [apply Hstop|].
  destruct (Z.ltb_spec (op_maxStack o) (Stack.len (stack f))) as [|Hmax]; [apply Hstop|].
  destruct (write_protected_spec _ _ _ _ _ Ho Hf Hmin) as ([] & -> & Hprot); simpl; [apply Hstop|].
  specialize (Hprot eq_refl). unfold UseGas.
  destruct (Z.ltb_spec (Gas (contract f)) (constantGas o)) as [|Hgas]; simpl.
  { replace (with_contract f (contract f)) with f by by destruct f. apply Hstop. }
  pose proof (ok_gas _ _ Ho) as Hg0.
  set (f1 := with_contract f (set_Gas (contract f) (Gas (contract f) - constantGas o))).
  assert (frame_ok f1 w r) as Hf1 by (apply frame_ok_gas; [done|lia]).
  assert (Gas (contract f1) + constantGas o = Gas (contract f)) as Hg1 by (simpl; lia).
  assert (forall er, wp (Z.of_nat n < Gas (contract f)) (stop_err f1 er)
    (step_post (Gas (contract f)) f w r)) as Hstop1.
  { intros er. apply (stop_here (Gas (contract f)) f1 w r); [done|lia|done]. }
  assert (forall k, 0 <= k -> match memorySize o with
    | None => k = 0
    | Some g => exists ms, g (stack f1) = Done (ms, false) /\ is_u64 ms /\ ms <= 32 * k end ->
    wp (Z.of_nat n < Gas (contract f)) (body o cs (32 * k) f1) (step_post (Gas (contract f)) f w r)) as Hbody.
  { intros k Hk Hms. pose proof (ok_body _ _ Ho n cs f1 w r k Hcs Hf1) as Hb. rewrite Hg1 in Hb.
    apply Hb; try done; [apply Hf|]. intros Hop. by apply (GetOp_pc f w r). }
  unfold required_memory. destruct (memorySize o) as [g|] eqn:Hm; simpl.
  - destruct (ok_memorySize _ _ Ho (stack f) g Hm (fo_stack _ _ _ Hf) Hmin) as (ms & ov & Hgs & Hms).
    rewrite Hgs. simpl. destruct ov; [apply Hstop1|].
    destruct (SafeMul _ _) as [size []] eqn:Hsz; [apply Hstop1|].
    destruct (round_up_spec _ _ Hms Hsz) as (k & -> & Hk & ?). apply Hbody; [lia|]. exists ms. split_and!; [done..|lia].
  - apply (Hbody 0); [lia|done].
Qed.
End Step.
