(* ===== verification/VmOps.v ===== *)
(** * core/vm: the operations that do not call other contracts
    Each entry of the instruction tables keeps the promise of [op_ok]
    (VmStep.v): no panic, a valid next frame, less gas, no state change in
    static mode. *)

From S2P Require Import Prelude MathUtil VmBase VmEnv VmGas VmInstr VmTable VmInterp VmAnalysis.
From S2P Require Import World VmInv VmMemory VmGasSpec VmStep.

(** Compute the fields of an updated frame. *)
Ltac frame_simpl :=
  unfold with_db, with_pc, with_stack, with_memory, with_evm, with_contract;
  cbn [pc evm contract memory stack].

Section Ops.
Context {S : Type} `{HS : vmStateDB S} (env : Env) (net : bool) `{!StateRefines (keccak256 env) S}.
Hypothesis Henv : env_ok env.
Implicit Types (w : World) (r : list (Z * World)) (f : Frame S) (e : EVM S).
Abbreviation frame_ok := (frame_ok env net).
Abbreviation op_ok := (op_ok env net).
Abbreviation nonneg := (Forall (fun x => 0 <= x)).

(** ** Frames *)

Lemma frame_ok_stack f w r st :
  frame_ok f w r -> nonneg st -> zlen st <= Params.StackLimit -> frame_ok (with_stack f st) w r.
Proof. intros [] ? ?. split; done. Qed.

Lemma frame_ok_pc f w r p :
  frame_ok f w r -> 0 <= p <= zlen (Code (contract f)) + 33 -> frame_ok (with_pc f p) w r.
Proof. intros [] ?. split; done. Qed.

Lemma next_pc f w r : frame_ok f w r -> u64 (pc f + 1) = pc f + 1.
Proof.
  intros Hf. pose proof (fo_pc _ _ _ _ _ Hf). pose proof (co_code _ _ (fo_contract _ _ _ _ _ Hf)).
  apply u64_small. unfold is_u64. lia.
Qed.

(** An operation that ends with the next instruction, in the same frame except
    for the stack. *)
Lemma next_with_stack (o : operation S) f w r st :
  frame_ok f w r -> nonneg st -> zlen st <= Params.StackLimit ->
  pc f < zlen (Code (contract f)) -> 1 <= constantGas o ->
  next_post env net (Gas (contract f) + constantGas o) f w r
    (with_pc (with_stack f st) (u64 (pc (with_stack f st) + 1))).
Proof.
  intros Hf Hst Hlen Hpc Hg. exists w, []. split_and!; [|apply same_env_refl|simpl; lia| |done].
  - apply frame_ok_pc; [by apply frame_ok_stack|].
    pose proof (fo_pc _ _ _ _ _ Hf). simpl. rewrite (next_pc f w r) by done. lia.
  - unfold potential. simpl. lia.
Qed.

(** ** Instructions that only change the stack *)

Definition stack_instr (ex : executionFunc S) (mn mx : Z) : Prop :=
  forall cs f w r, frame_ok f w r -> mn <= zlen (stack f) <= mx ->
  exists st, ex env cs f = ok (with_stack f st) /\ nonneg st /\ zlen st <= Params.StackLimit.

Lemma expand_0 f : expand env 0 f = f.
Proof. done. Qed.

Lemma stack_instr_op opc ex gas mn mx :
  stack_instr ex mn mx -> 1 <= gas -> opc <> 0 -> opc <> Op.CALL -> op_ok opc (op ex gas mn mx).
Proof.
  intros Hex Hgas Hop Hcall. split; [done|done|simpl; lia|].
  intros n cs f w r k Hcs Hf Hb Hlen Hro Hpc Hk ->. unfold body, charge_dynamic. simpl.
  rewrite expand_0. destruct (Hex cs f w r Hf Hlen) as (st & -> & Hst & Hl). simpl.
  apply (next_with_stack (op ex gas mn mx)); auto.
Qed.

Lemma pop_peek_instr g :
  (forall x y, 0 <= x -> 0 <= y -> 0 <= g x y) -> stack_instr (pop_peek g) 2 1025.
Proof.
  intros Hg cs f w r Hf Hl. pose proof (fo_stack _ _ _ _ _ Hf) as Hst. unfold pop_peek.
  destruct (stack f) as [|x [|y st]]; simpl in *; [lia..|]. decompose_Forall.
  eexists; split; [done|]. simpl. split; [by constructor; auto|unfold Params.StackLimit; lia].
Qed.

Lemma pop_pop_instr g :
  (forall x y, 0 <= x -> 0 <= y -> 0 <= g x y) -> stack_instr (pop_pop g) 2 1025.
Proof.
  intros Hg cs f w r Hf Hl. pose proof (fo_stack _ _ _ _ _ Hf) as Hst. unfold pop_pop.
  destruct (stack f) as [|x [|y st]]; simpl in *; [lia..|]. decompose_Forall.
  eexists; split; [done|]. simpl. split; [by constructor; auto|unfold Params.StackLimit; lia].
Qed.

Lemma pop_pop_pop_instr g :
  (forall x y z, 0 <= x -> 0 <= y -> 0 <= z -> 0 <= g x y z) -> stack_instr (pop_pop_pop g) 3 1026.
Proof.
  intros Hg cs f w r Hf Hl. pose proof (fo_stack _ _ _ _ _ Hf) as Hst. unfold pop_pop_pop.
  destruct (stack f) as [|x [|y [|z st]]]; simpl in *; [lia..|]. decompose_Forall.
  eexists; split; [done|]. simpl. split; [by constructor; auto|unfold Params.StackLimit; lia].
Qed.

Lemma peek_poke_instr g :
  (forall f w r x, frame_ok f w r -> 0 <= x -> 0 <= g env f x) -> stack_instr (peek_poke g) 1 1024.
Proof.
  intros Hg cs f w r Hf Hl. pose proof (fo_stack _ _ _ _ _ Hf) as Hst. unfold peek_poke.
  destruct (stack f) as [|x st] eqn:Es; simpl in *; [lia..|]. decompose_Forall.
  eexists; split; [done|]. simpl. split; [by constructor; eauto|unfold Params.StackLimit; lia].
Qed.

Lemma push_val_instr g :
  (forall f w r, frame_ok f w r -> 0 <= g env f) -> stack_instr (push_val g) 0 1023.
Proof.
  intros Hg cs f w r Hf Hl. pose proof (fo_stack _ _ _ _ _ Hf) as Hst. unfold push_val.
  eexists; split; [done|]. simpl. split; [by constructor; eauto|unfold Params.StackLimit; lia].
Qed.
(** *** Arithmetic *)

Lemma U256_nonneg x : 0 <= U256 x.
Proof. pose proof (U256_range x) as H. unfold is_u256 in H. lia. Qed.

Lemma b2z_nonneg b : 0 <= b2z b.
Proof. by destruct b. Qed.

Lemma Z_of_byte_nonneg b : 0 <= Z_of_byte b.
Proof. pose proof (Z_of_byte_range b). lia. Qed.

Lemma Exp_nonneg b x : 0 <= x -> 0 <= Exp b x.
Proof. intros. rewrite Exp_pow by done. apply Z.mod_pos_bound. lia. Qed.

#[local] Hint Resolve U256_nonneg b2z_nonneg Z_of_byte_nonneg Exp_nonneg : core.

Ltac nn := simpl; intros; zcase; auto; try lia.

Lemma arithmetic_instrs :
  Forall (fun ex => stack_instr ex 2 1025)
    [opAdd; opSub; opMul; opDiv; opSdiv; opMod; opSmod; opExp; opLt; opGt; opSlt; opSgt; opEq;
     opAnd; opOr; opXor; opByte; opSHL; opSHR; opSAR].
Proof.
  repeat apply Forall_cons_2; [..|by apply Forall_nil_2];
    first [apply pop_peek_instr|apply pop_pop_instr]; intros x y Hx Hy;
    unfold sdiv, smod, slt, sgt, shl, shr, sar;
    first [nn; fail|apply Z.land_nonneg; by left|by apply Z.lor_nonneg|by apply Z.lxor_nonneg].
Qed.

Lemma opSignExtend_instr : stack_instr opSignExtend 2 1025.
Proof.
  intros cs f w r Hf Hl. pose proof (fo_stack _ _ _ _ _ Hf) as Hst. unfold opSignExtend.
  destruct (stack f) as [|x [|y st]]; simpl in *; [lia..|]. decompose_Forall.
  destruct (x <? 31); simpl; (eexists; split; [done|]); simpl;
    (split; [constructor; auto; apply U256_nonneg|unfold Params.StackLimit; lia]).
Qed.

Lemma modular_instrs : Forall (fun ex => stack_instr ex 3 1026) [opAddmod; opMulmod].
Proof.
  repeat apply Forall_cons_2; [..|by apply Forall_nil_2]; apply pop_pop_pop_instr; nn.
Qed.

(** *** Reads of the environment and the state *)

Lemma get_acct_ok f w r a : frame_ok f w r -> acct_ok (keccak256 env) (W.get (keccak256 env) w a).
Proof. intros Hf. apply (wo_accts _ _ _ (fo_world _ _ _ _ _ Hf)). Qed.

Lemma unary_instrs :
  Forall (fun ex => stack_instr ex 1 1024)
    [opNot; opIszero; opBalance; opExtCodeSize; opExtCodeHash; opSload].
Proof.
  repeat apply Forall_cons_2; [..|by apply Forall_nil_2];
    apply peek_poke_instr; intros f w r x Hf Hx; cbv beta zeta;
    rewrite ?(repr_GetBalance _ _ _ _ (fo_repr _ _ _ _ _ Hf)),
      ?(repr_GetCodeSize _ _ _ _ (fo_repr _ _ _ _ _ Hf)),
      ?(repr_GetState _ _ _ _ _ (fo_repr _ _ _ _ _ Hf)); auto.
  - nn.
  - by apply (get_acct_ok f w r).
  - lia.
  - destruct (Empty (db f) _); [done|]. rewrite (repr_GetCodeHash _ _ _ _ (fo_repr _ _ _ _ _ Hf)).
    pose proof (ao_codeHash _ _ (get_acct_ok f w r (BigToAddress x) Hf)) as Hc.
    unfold W.GetCodeHash, W.get in *. by destruct (accts w !! _).
  - by apply (get_acct_ok f w r).
Qed.

Lemma nullary_instrs :
  Forall (fun ex => stack_instr ex 0 1023)
    [opAddress; opOrigin; opCaller; opCallValue; opCallDataSize; opReturnDataSize; opCodeSize;
     opGasprice; opCoinbase; opTimestamp; opNumber; opDifficulty; opGasLimit; opPc; opMsize; opGas;
     opSelfBalance; opChainID].
Proof.
  repeat apply Forall_cons_2; [..|by apply Forall_nil_2];
    apply push_val_instr; intros f w r Hf; cbv beta; destruct Henv;
    pose proof (fo_contract _ _ _ _ _ Hf) as [[? ?] ? ? ? ? ? ?]; auto; try lia.
  - pose proof (fo_rd _ _ _ _ _ Hf). unfold rd_ok, rdLen in *. destruct (returnData _); lia.
  - apply Hf.
  - unfold Memory.Len. lia.
  - rewrite (repr_GetBalance _ _ _ _ (fo_repr _ _ _ _ _ Hf)). by apply (get_acct_ok f w r).
Qed.

Lemma opCallDataLoad_instr : stack_instr opCallDataLoad 1 1024.
Proof.
  intros cs f w r Hf Hl. pose proof (fo_stack _ _ _ _ _ Hf) as Hst. unfold opCallDataLoad.
  destruct (stack f) as [|x st]; simpl in *; [lia..|]. decompose_Forall.
  pose proof (co_input _ _ (fo_contract _ _ _ _ _ Hf)).
  destruct (getDataBig_spec (Input (contract f)) x 32) as [d ->]; [lia..|]. simpl.
  eexists; split; [done|]. simpl. pose proof (SetBytes_range d).
  split; [constructor; auto; lia|unfold Params.StackLimit; lia].
Qed.

Lemma opBlockhash_instr : stack_instr opBlockhash 1 1024.
Proof.
  intros cs f w r Hf Hl. pose proof (fo_stack _ _ _ _ _ Hf) as Hst. unfold opBlockhash.
  destruct (stack f) as [|x st]; simpl in *; [lia..|]. decompose_Forall.
  eexists; split; [done|]. simpl. split; [constructor; auto|unfold Params.StackLimit; lia].
  destruct (_ && _); [apply Henv|done].
Qed.

Lemma opPop_instr : stack_instr opPop 1 1025.
Proof.
  intros cs f w r Hf Hl. pose proof (fo_stack _ _ _ _ _ Hf) as Hst. unfold opPop.
  destruct (stack f) as [|x st]; simpl in *; [lia..|]. decompose_Forall.
  eexists; split; [done|]. simpl. split; [done|unfold Params.StackLimit; lia].
Qed.

Lemma opJumpdest_instr : stack_instr opJumpdest 0 1024.
Proof.
  intros cs f w r Hf Hl. pose proof (fo_stack _ _ _ _ _ Hf) as Hst. exists (stack f).
  split; [by destruct f|]. split; [done|]. apply Hf.
Qed.

Lemma makeDup_instr n : (1 <= n)%nat -> stack_instr (makeDup n) (Z.of_nat n) 1023.
Proof.
  intros Hn cs f w r Hf Hl. pose proof (fo_stack _ _ _ _ _ Hf) as Hst. unfold makeDup, Stack.dup.
  destruct (lookup_lt_is_Some_2 (stack f) (n - 1)) as [x Hx]; [lia|]. rewrite Hx. simpl.
  eexists; split; [done|]. simpl. split; [|unfold Params.StackLimit; lia].
  constructor; [|done]. by apply (Forall_lookup_1 _ _ _ _ Hst Hx).
Qed.

Lemma makeSwap_instr n : (1 <= n)%nat -> stack_instr (makeSwap n) (Z.of_nat n + 1) 1024.
Proof.
  intros Hn cs f w r Hf Hl. pose proof (fo_stack _ _ _ _ _ Hf) as Hst. unfold makeSwap, Stack.swap.
  destruct (lookup_lt_is_Some_2 (stack f) (n + 1 - 1)) as [x Hx]; [lia|]. rewrite Hx. simpl.
  destruct (lookup_lt_is_Some_2 (stack f) 0) as [y Hy]; [lia|]. rewrite Hy. simpl.
  eexists; split; [done|]. rewrite !length_insert. split; [|unfold Params.StackLimit; lia].
  apply Forall_insert; [apply Forall_insert; [done|]|].
  - by apply (Forall_lookup_1 _ _ _ _ Hst Hx).
  - by apply (Forall_lookup_1 _ _ _ _ Hst Hy).
Qed.
(** ** Dynamic gas and memory expansion *)

(** The frame in which an instruction with dynamic gas executes. *)
Definition charged_frame f (s' : S) (cgt cost : Z) (rd : retData) (m' : Memory.t) : Frame S :=
  mkFrame (pc f)
    (mkEVM s' (depth (evm f)) cgt (readOnly (evm f)) rd (jumpdests (evm f)))
    (set_Gas (contract f) (Gas (contract f) - cost)) m' (stack f).

Lemma expand_charged f k :
  mem_ok (memory f) -> rd_ok (memory f) (returnData (evm f)) -> 0 <= k -> 32 * k <= maxMem ->
  forall e c, returnData e = returnData (evm f) ->
  exists rd m', expand env (32 * k) (mkFrame (pc f) e c (charged (memory f) (32 * k)) (stack f)) =
      mkFrame (pc f) (set_returnData e rd) c m' (stack f) /\
    mem_ok m' /\ Memory.Len m' = Z.max (Memory.Len (memory f)) (32 * k) /\ rd_ok m' rd.
Proof.
  intros Hm Hrd Hk Hmax e c Hrde.
  destruct (Resize_charged (growslice env) (memory f) k Hm Hk Hmax) as (Hm' & Hlen & _).
  unfold expand. destruct (Z.ltb_spec 0 (32 * k)) as [Hpos|Hz].
  - destruct (Memory.reallocates _ _); simpl.
    + eexists _, _. split; [done|]. by split_and!.
    + exists (returnData e), (Memory.Resize (growslice env) (charged (memory f) (32 * k)) (32 * k)).
      split; [by destruct e|]. split_and!; try done. rewrite Hrde.
      unfold rd_ok in *. destruct (returnData (evm f)); [done|]. lia.
  - replace k with 0 in * by lia. change (32 * 0) with 0 in *. rewrite charged_0 in *.
    exists (returnData e), (memory f). rewrite Hrde. split_and!; try done; [|unfold Memory.Len; lia].
    rewrite <-Hrde. by destruct e.
Qed.

Lemma body_dynamic o g cs f w r k (Q : World -> Z -> Z -> Prop) (F : Prop) :
  dynamicGas o = Some g -> frame_ok f w r -> 0 <= constantGas o -> 0 <= k ->
  gwp (g (contract f) (stack f) (32 * k)) (evm f) (memory f)
    (gas_post env w r (evm f) (memory f) k Q) ->
  (ro env (evm f) = true -> forall w' cgt cost, Q w' cgt cost -> static (keccak256 env) w w') ->
  (forall s' cgt w' cost rd m', repr s' w' r -> Q w' cgt cost -> 0 <= cost <= Gas (contract f) ->
     mem_ok m' -> Memory.Len m' = Z.max (Memory.Len (memory f)) (32 * k) -> rd_ok m' rd ->
     wp F (let! '(f, res, err) := execute o env cs (charged_frame f s' cgt cost rd m') in
           Done (conclude o f res err))
       (step_post env net (Gas (contract f) + constantGas o) f w r)) ->
  wp F (body env o cs (32 * k) f) (step_post env net (Gas (contract f) + constantGas o) f w r).
Proof.
  intros Hg Hf Hc Hk Hgas Hst Hex. unfold body, charge_dynamic. rewrite Hg.
  pose proof (fo_contract _ _ _ _ _ Hf) as [[? ?] _ _ _ _ _ _]. unfold gwp in Hgas.
  destruct (g _ _ _ _ _) as [[[e' m'] res]| |]; [|done..]. simpl in Hgas |- *.
  destruct Hgas as (s' & cgt & w' & -> & Hr & Hres). destruct res as [cost|er]; last first.
  { subst w'. simpl. exists w, []. split_and!; try done; try (simpl; lia); [apply Hf|by intros [|]]. }
  destruct Hres as (-> & Hmax & [Hc0 _] & HQ). unfold UseGas.
  destruct (Z.ltb_spec (Gas (contract f)) cost) as [Hlt|Hge]; simpl.
  { exists w', []. split_and!; try done; try (simpl; lia); [apply Hf| |by intros [|]].
    intros Hro. by apply (Hst Hro _ _ _ HQ). }
  destruct (expand_charged f k (fo_mem _ _ _ _ _ Hf) (fo_rd _ _ _ _ _ Hf) Hk Hmax
    (set_callGasTemp (set_StateDB (evm f) s') cgt)
    (set_Gas (contract f) (Gas (contract f) - cost)) eq_refl) as (rd & m2 & He & Hm2 & Hl2 & Hrd2).
  unfold with_contract, with_memory, with_evm. simpl. rewrite He.
  by apply (Hex s' cgt w' cost rd m2).
Qed.

(** When the gas function leaves the world alone, that frame is valid. *)
Lemma charged_frame_ok f w r s' cgt cost rd m' :
  frame_ok f w r -> repr s' w r -> 0 <= cost <= Gas (contract f) -> mem_ok m' -> rd_ok m' rd ->
  frame_ok (charged_frame f s' cgt cost rd m') w r.
Proof.
  intros Hf Hr Hc Hm Hrd. pose proof (fo_budget _ _ _ _ _ Hf). pose proof (fo_contract _ _ _ _ _ Hf) as Hco.
  split; try apply Hf; try done; simpl.
  - unfold potential in *. lia.
  - apply contract_ok_gas; [done|]. destruct Hco as [[? ?] _ _ _ _ _ _]. unfold is_u64. lia.
Qed.

(** The promise of a step depends on its frame only through the mode. *)
Lemma step_post_env g0 f f2 w r res :
  same_env (evm f) (evm f2) -> step_post env net g0 f2 w r res -> step_post env net g0 f w r res.
Proof.
  intros [Hr Hd] Hp.
  assert (ro env (evm f2) = ro env (evm f)) as Hro by (unfold ro; by rewrite Hr).
  destruct res as [f'|f' ret er]; destruct Hp as (w' & r' & H1 & [H2 H3] & H4);
    exists w', r'; rewrite Hro in H4; (split; [done|]); (split; [split; congruence|done]).
Qed.

(** An instruction run in a valid frame, for operations whose gas function
    leaves the world alone. *)
Lemma body_plain o g cs f w r k low (F : Prop) :
  dynamicGas o = Some g -> frame_ok f w r -> 0 <= constantGas o -> 0 <= k ->
  gwp (g (contract f) (stack f) (32 * k)) (evm f) (memory f)
    (gas_post env w r (evm f) (memory f) k (charges low w)) ->
  (forall f2 cost, frame_ok f2 w r -> low <= cost -> 0 <= cost <= Gas (contract f) ->
     stack f2 = stack f -> pc f2 = pc f -> Code (contract f2) = Code (contract f) ->
     Gas (contract f2) = Gas (contract f) - cost -> same_env (evm f) (evm f2) ->
     Memory.Len (memory f2) = Z.max (Memory.Len (memory f)) (32 * k) ->
     wp F (let! '(f, res, err) := execute o env cs f2 in Done (conclude o f res err))
       (step_post env net (Gas (contract f) + constantGas o) f2 w r)) ->
  wp F (body env o cs (32 * k) f) (step_post env net (Gas (contract f) + constantGas o) f w r).
Proof.
  intros Hg Hf Hc Hk Hgas Hex. apply (body_dynamic o g cs f w r k (charges low w)); try done.
  { intros _ w' ? ? [-> _]. done. }
  intros s' cgt w' cost rd m' Hr [-> Hlow] Hcost Hm Hl Hrd.
  set (f2 := charged_frame f s' cgt cost rd m').
  eapply wp_mono; [apply (Hex f2 cost)|done|]; try done.
  - by apply charged_frame_ok.
  - intros res. by apply step_post_env.
Qed.
End Ops.
