(* ===== verification/VmOpsMem.v ===== *)
(** * core/vm: pushes, jumps, memory operations, logs, storage and halting
    The remaining operations of the instruction tables, except the calls. *)

From S2P Require Import Prelude MathUtil VmBase VmEnv VmGas VmInstr VmTable VmInterp VmAnalysis.
From S2P Require Import World VmInv VmMemory VmGasSpec VmStep VmOps.

Section OpsMem.
Context {S : Type} `{HS : vmStateDB S} (env : Env) (net : bool) `{!StateRefines (keccak256 env) S}.
Hypothesis Henv : env_ok env.
Implicit Types (w : World) (r : list (Z * World)) (f : Frame S) (e : EVM S).
Abbreviation frame_ok := (frame_ok env net).
Abbreviation op_ok := (op_ok env net).
Abbreviation nonneg := (Forall (fun x => 0 <= x)).

(** ** Ends of operations *)

(** The next instruction, with a new stack, memory contents and world. *)
Lemma next_with f w r g0 s' w' m' st' p :
  frame_ok f w r -> repr s' w' r -> world_ok (keccak256 env) net w' -> w_refund w' = w_refund w ->
  mem_ok m' -> Memory.Len m' = Memory.Len (memory f) ->
  nonneg st' -> zlen st' <= Params.StackLimit ->
  0 <= p <= zlen (Code (contract f)) + 33 -> Gas (contract f) < g0 ->
  (ro env (evm f) = true -> static (keccak256 env) w w') ->
  next_post env net g0 f w r
    (mkFrame p (set_StateDB (evm f) s') (contract f) m' st').
Proof.
  intros Hf Hr Hw Href Hm Hl Hst Hlen Hp Hg Hs. exists w', [].
  pose proof (fo_budget _ _ _ _ _ Hf). pose proof (fo_rd _ _ _ _ _ Hf). unfold potential in *.
  split; [|split_and!; [by split|done|simpl; rewrite Href; lia|done]].
  split; try apply Hf; simpl; try done; [unfold potential; rewrite Href; lia|].
  unfold rd_ok in *. destruct (returnData (evm f)); [done|]. lia.
Qed.

Lemma next_same f w r g0 m' st' p :
  frame_ok f w r -> mem_ok m' -> Memory.Len m' = Memory.Len (memory f) ->
  nonneg st' -> zlen st' <= Params.StackLimit ->
  0 <= p <= zlen (Code (contract f)) + 33 -> Gas (contract f) < g0 ->
  next_post env net g0 f w r (mkFrame p (evm f) (contract f) m' st').
Proof.
  intros Hf Hm Hl Hst Hlen Hp Hg.
  assert (set_StateDB (evm f) (db f) = evm f) as <- by by destruct f as [? []].
  apply next_with with w; try done; apply Hf.
Qed.

(** ** Pushes *)

Lemma opPush1_op opc gas : 1 <= gas -> opc <> 0 -> opc <> Op.CALL -> op_ok opc (op opPush1 gas 0 1023).
Proof.
  intros Hg Hop Hcall. split; [done|done|simpl; lia|].
  intros n cs f w r k Hcs Hf Hb Hlen Hro Hpc Hk ->. specialize (Hpc Hop).
  pose proof (fo_pc _ _ _ _ _ Hf). pose proof (co_code _ _ (fo_contract _ _ _ _ _ Hf)).
  unfold body, charge_dynamic. simpl. rewrite expand_0. unfold opPush1.
  rewrite (next_pc env net f w r) by done. simpl in *. rewrite u64_small by (unfold is_u64; lia). frame_simpl; apply next_same; try done; try apply Hf; simpl; try lia.
  - constructor; [|apply Hf]. unfold GetByte. destruct (_ <? _); [|done].
    destruct (_ !! _); [apply Z_of_byte_nonneg|done].
  - unfold Params.StackLimit. lia.
Qed.

Lemma makePush_op opc size gas :
  0 < size <= 32 -> 1 <= gas -> opc <> 0 -> opc <> Op.CALL ->
  op_ok opc (op (makePush size size) gas 0 1023).
Proof.
  intros Hsz Hg Hop Hcall. split; [done|done|simpl; lia|].
  intros n cs f w r k Hcs Hf Hb Hlen Hro Hpc Hk ->. specialize (Hpc Hop).
  pose proof (fo_pc _ _ _ _ _ Hf). pose proof (co_code _ _ (fo_contract _ _ _ _ _ Hf)).
  unfold body, charge_dynamic. simpl. rewrite expand_0. unfold makePush.
  rewrite (next_pc env net f w r), Int64_small by (done || lia).
  rewrite (u64_small (pc f + size)) by (unfold is_u64; lia).
  set (code := Code (contract f)) in *. set (start := if _ <? zlen code then _ else _).
  set (stop := if start + size <? _ then _ else _).
  rewrite slice_some by (unfold start, stop; zcase). simpl.
  rewrite u64_small by (unfold is_u64; lia). frame_simpl; apply next_same; try done; try apply Hf; simpl; try lia.
  - constructor; [|apply Hf]. pose proof (SetBytes_range (RightPadBytes
      (take (Z.to_nat (stop - start)) (drop (Z.to_nat start) code)) size)). lia.
  - unfold Params.StackLimit in *. simpl in Hlen. lia.
  - fold code. lia.
Qed.

(** ** Jumps *)

Lemma jump_to_spec o f w r g0 pos :
  frame_ok f w r -> Gas (contract f) < g0 -> 0 <= pos -> jumps o = true -> returns o = false ->
  halts o = false -> reverts o = false ->
  wp False (let! '(f, res, err) := jump_to f pos in Done (conclude (S := S) o f res err))
    (step_post env net g0 f w r).
Proof.
  intros Hf Hg Hpos Hj Hret Hh Hrv. unfold jump_to.
  pose proof (fo_contract _ _ _ _ _ Hf) as Hc.
  destruct (validJumpdest_spec (keccak256 env) (eo_keccak_inj _ Henv) (evm f) (contract f) pos)
    as (j & c' & valid & -> & Hjd & Ha & Hc' & Hv); [apply Hf|apply Hc|done|apply Hc|]. simpl.
  set (f' := with_contract (with_evm f (set_jumpdests (evm f) j)) c').
  assert (Gas c' = Gas (contract f) /\ Code c' = Code (contract f)) as [Hgas Hcode].
  { destruct Hc' as [->|[b ->]]; done. }
  assert (frame_ok f' w r) as Hf'.
  { split; try apply Hf; simpl; rewrite ?Hgas, ?Hcode; try apply Hf; try done.
    destruct Hc. destruct Hc' as [->|[b ->]]; split; done. }
  unfold conclude. destruct valid; simpl; rewrite Hret.
  - rewrite Hrv, Hh, Hj. simpl. destruct (proj1 Hv eq_refl) as (Hlt & _).
    pose proof (co_code _ _ Hc). exists w, []. split_and!; try done.
    + apply frame_ok_pc; [done|]. simpl. unfold Uint64.
      rewrite u64_small by (unfold is_u64; lia). rewrite Hcode. lia.
    + simpl. lia.
    + unfold potential. simpl. lia.
  - apply (step_post_env env net g0 f f' w r (Stop f' [] _)); [by split|].
    apply stop_here; [done|simpl; lia|done].
Qed.

Lemma opJump_op opc gas :
  1 <= gas -> opc <> 0 -> opc <> Op.CALL -> op_ok opc (jumping (op opJump gas 1 1025)).
Proof.
  intros Hg Hop Hcall. split; [done|done|simpl; lia|].
  intros n cs f w r k Hcs Hf Hb Hlen Hro Hpc Hk ->. unfold body, charge_dynamic. simpl.
  rewrite expand_0. pose proof (fo_stack _ _ _ _ _ Hf) as Hst. unfold opJump, Params.StackLimit in *. simpl in Hlen.
  destruct (stack f) as [|x st]; simpl in *; [lia|]. decompose_Forall.
  eapply wp_mono; [apply (jump_to_spec (jumping (op opJump gas 1 1025)) (with_stack f st) w r
    (Gas (contract f) + gas))|done|done]; try done; simpl; [|lia].
  apply frame_ok_stack; [done..|unfold Params.StackLimit; lia].
Qed.

Lemma opJumpi_op opc gas :
  1 <= gas -> opc <> 0 -> opc <> Op.CALL -> op_ok opc (jumping (op opJumpi gas 2 1026)).
Proof.
  intros Hg Hop Hcall. split; [done|done|simpl; lia|].
  intros n cs f w r k Hcs Hf Hb Hlen Hro Hpc Hk ->. unfold body, charge_dynamic. simpl.
  rewrite expand_0. pose proof (fo_stack _ _ _ _ _ Hf) as Hst. unfold opJumpi. simpl in Hlen.
  destruct (stack f) as [|x [|y st]]; simpl in *; [lia..|]. decompose_Forall.
  assert (frame_ok (with_stack f st) w r) as Hf'
    by (apply frame_ok_stack; [done..|unfold Params.StackLimit; lia]).
  destruct (negb (y =? 0)).
  - eapply wp_mono; [apply (jump_to_spec (jumping (op opJumpi gas 2 1026)) (with_stack f st) w r
      (Gas (contract f) + gas))|done|done]; try done; simpl. lia.
  - simpl. specialize (Hpc Hop). pose proof (fo_pc _ _ _ _ _ Hf).
    rewrite (next_pc env net f w r) by done. frame_simpl; apply next_same; try done; try apply Hf; try lia.
    unfold Params.StackLimit. lia.
Qed.
(** ** Operations that stay in their frame *)

(** The instruction changes at most the state, the memory contents and the
    stack, and may fail. *)
Definition local_result f w r (res : instrResult S) : Prop :=
  exists s' w' m' st' er,
    res = Done (mkFrame (pc f) (set_StateDB (evm f) s') (contract f) m' st', RVal [], er) /\
    repr s' w' r /\ world_ok (keccak256 env) net w' /\ w_refund w' = w_refund w /\
    mem_ok m' /\ Memory.Len m' = Memory.Len (memory f) /\ nonneg st' /\
    zlen st' <= Params.StackLimit /\ (ro env (evm f) = true -> static (keccak256 env) w w').

Lemma local_conclude o f w r g0 res :
  frame_ok f w r -> local_result f w r res -> pc f < zlen (Code (contract f)) ->
  Gas (contract f) < g0 ->
  returns o = false -> halts o = false -> reverts o = false -> jumps o = false ->
  wp False (let! '(f, res, err) := res in Done (conclude (S := S) o f res err)) (step_post env net g0 f w r).
Proof.
  intros Hf (s' & w' & m' & st' & er & -> & Hr & Hw & Href & Hm & Hl & Hst & Hlen & Hs) Hpc Hg H1 H2 H3 H4.
  pose proof (fo_pc _ _ _ _ _ Hf). pose proof (co_code _ _ (fo_contract _ _ _ _ _ Hf)).
  simpl. unfold conclude. rewrite H1, H2, H3, H4. destruct er as [er|]; simpl.
  - pose proof (fo_contract _ _ _ _ _ Hf) as [[? ?] _ _ _ _ _ _].
    exists w', []. split_and!; try done; [apply Hf|simpl; lia..|].
    intros _. split; [done|]. unfold potential. simpl. lia.
  - rewrite u64_small by (unfold is_u64; lia). frame_simpl. apply next_with with w'; try done. lia.
Qed.

Lemma local_op opc o g mr low :
  dynamicGas o = Some g -> memorySize o = Some mr -> request_total mr (op_minStack o) ->
  0 <= constantGas o -> 1 <= constantGas o + low -> opc <> 0 -> opc <> Op.CALL ->
  returns o = false -> halts o = false -> reverts o = false -> jumps o = false ->
  (forall f w r k, frame_ok f w r -> op_minStack o <= zlen (stack f) -> 0 <= k ->
     gwp (g (contract f) (stack f) (32 * k)) (evm f) (memory f)
       (gas_post env w r (evm f) (memory f) k (charges low w))) ->
  (forall cs f w r ms, frame_ok f w r -> op_minStack o <= zlen (stack f) <= op_maxStack o ->
     (ro env (evm f) = true -> writes o = false) ->
     mr (stack f) = Done (ms, false) -> is_u64 ms -> ms <= Memory.Len (memory f) ->
     local_result f w r (execute o env cs f)) ->
  op_ok opc o.
Proof.
  intros Hdyn Hmr Htot Hc Hlow Hop Hcall H1 H2 H3 H4 Hgas Hex. split.
  - intros st g' Hg' _ Hlen. simplify_eq. by apply Htot.
  - done.
  - done.
  - intros n cs f w r k Hcs Hf Hb Hlen Hro Hpc Hk Hms. rewrite Hmr in Hms.
    destruct Hms as (ms & Hms & Hu & Hle).
    apply (body_plain env net o g cs f w r k low); try done; [apply Hgas; try done; lia|].
    intros f2 cost Hf2 Hlc Hcost Hst Hpc2 Hcode Hg2 [Hr2 Hd2] Hlm.
    eapply wp_mono; [apply (local_conclude o f2 w r (Gas (contract f) + constantGas o))|done|done]; try done.
    + apply (Hex cs f2 w r ms); rewrite ?Hst; try done; [|lia].
      unfold ro. rewrite Hr2. intros Hro2. by apply Hro.
    + rewrite Hpc2, Hcode. auto.
    + lia.
Qed.

(** A result that only changes memory and stack. *)
Lemma local_same f w r m' st' er res :
  frame_ok f w r -> res = Done (mkFrame (pc f) (evm f) (contract f) m' st', RVal [], er) ->
  mem_ok m' -> Memory.Len m' = Memory.Len (memory f) -> nonneg st' ->
  zlen st' <= Params.StackLimit -> local_result f w r res.
Proof.
  intros Hf -> Hm Hl Hst Hlen. exists (db f), w, m', st', er.
  split; [by destruct f as [? []]|]. split_and!; try done; apply Hf.
Qed.
(** ** Hashing, memory access and copies *)

Lemma stack_frame f st : stack f = st -> f = mkFrame (pc f) (evm f) (contract f) (memory f) st.
Proof. by intros <-; destruct f. Qed.

Lemma mem_len_max f w r : frame_ok f w r -> Memory.Len (memory f) <= maxMem.
Proof. intros Hf. apply (fo_mem _ _ _ _ _ Hf). Qed.

Lemma opSha3_op opc :
  opc <> 0 -> opc <> Op.CALL ->
  op_ok opc (mems (dyn (op opSha3 Params.Sha3Gas 2 1025) gasSha3) memorySha3).
Proof.
  intros. apply (local_op _ _ gasSha3 memorySha3 0); try done; [by apply memory2_total| |].
  - intros f w r k Hf Hl Hk. pose proof (fo_stack _ _ _ _ _ Hf) as Hst. simpl in Hl.
    destruct (stack f) as [|x [|y st]]; simpl in *; [lia..|]. decompose_Forall.
    eapply gasSha3_spec; try done; apply Hf.
  - intros cs f w r ms Hf Hl _ Hms Hu Hle. pose proof (fo_stack _ _ _ _ _ Hf) as Hst. simpl in Hl.
    simpl. unfold opSha3. destruct (stack f) as [|x [|y st]] eqn:Es; simpl in *; [lia..|]. decompose_Forall.
    destruct (memory2_region 0 1 _ x y ms (memory f) Hms) as [Hreg Hy]; try done.
    destruct (GetPtr_spec (memory f) x y (mem_len_max _ _ _ Hf) Hreg) as (d & -> & _). simpl.
    assert (nonneg (keccak256 env d :: st)) by (constructor; [apply Henv|done]).
    destruct (EnablePreimageRecording _).
    + exists (AddPreimage (db f) (keccak256 env d) d), (W.AddPreimage w (keccak256 env d) d),
        (memory f), (keccak256 env d :: st), None.
      split; [done|]. split_and!; try done; [apply repr_AddPreimage, Hf|apply world_ok_AddPreimage, Hf|
        apply Hf|unfold Params.StackLimit; simpl; lia].
    + apply (local_same f w r (memory f) (keccak256 env d :: st) None); try done; [apply Hf|].
      unfold Params.StackLimit; simpl; lia.
Qed.

Lemma copy_to_memory_spec data f w r x y z st ms i j :
  frame_ok f w r -> zlen data < 2 ^ 62 -> nonneg (x :: y :: z :: st) ->
  memory2 i j (stack f) = Done (ms, false) -> stack f !! i = Some x -> stack f !! j = Some z ->
  ms <= Memory.Len (memory f) -> zlen st <= Params.StackLimit ->
  local_result f w r (copy_to_memory data f (x :: y :: z :: st)).
Proof.
  intros Hf Hd Hst Hms Hx Hz Hle Hlen. decompose_Forall. unfold copy_to_memory. simpl.
  destruct (getDataBig_spec data y z) as [d ->]; [lia..|]. simpl.
  destruct (memory2_region i j _ x z ms (memory f) Hms) as [Hreg Hu]; try done.
  destruct (Set_spec (memory f) x z d (mem_len_max _ _ _ Hf) Hu Hreg) as (m' & -> & Hl & Hc & _). simpl.
  apply (local_same f w r m' st None); try done. by apply (mem_ok_same (memory f)); [apply Hf|..].
Qed.

Lemma copy_op opc (ex : executionFunc S) (data : Frame S -> bytes) gas :
  1 <= gas -> opc <> 0 -> opc <> Op.CALL ->
  (forall cs f, ex env cs f = copy_to_memory (data f) f (stack f)) ->
  (forall f w r, frame_ok f w r -> zlen (data f) < 2 ^ 62) ->
  op_ok opc (mems (dyn (op ex gas 3 1027) (memoryCopierGas 2)) (memory2 0 2)).
Proof.
  intros Hg H0 H1 Hex Hdata.
  apply (local_op _ _ (memoryCopierGas 2) (memory2 0 2) 0); try done; simpl; try lia;
    [by apply memory2_total| |].
  - intros f w r k Hf Hl Hk. pose proof (fo_stack _ _ _ _ _ Hf) as Hst.
    destruct (stack f) as [|x [|y [|z st]]]; simpl in *; [lia..|]. decompose_Forall.
    apply memoryCopierGas_spec with z; try done; apply Hf.
  - intros cs f w r ms Hf Hl _ Hms Hu Hle. pose proof (fo_stack _ _ _ _ _ Hf) as Hst.
    rewrite Hex. destruct (stack f) as [|x [|y [|z st]]] eqn:Es; simpl in *; [lia..|].
    apply (copy_to_memory_spec _ _ _ _ _ _ _ _ ms 0 2); rewrite ?Es; try done; [by eapply Hdata|].
    unfold Params.StackLimit. lia.
Qed.

Lemma opExtCodeCopy_op opc gas :
  1 <= gas -> opc <> 0 -> opc <> Op.CALL ->
  op_ok opc (mems (dyn (op opExtCodeCopy gas 4 1028) gasExtCodeCopy) memoryExtCodeCopy).
Proof.
  intros Hg H0 H1.
  apply (local_op _ _ (memoryCopierGas 3) (memory2 1 3) 0); try done; simpl; try lia;
    [by apply memory2_total| |].
  - intros f w r k Hf Hl Hk. pose proof (fo_stack _ _ _ _ _ Hf) as Hst.
    destruct (stack f) as [|a [|x [|y [|z st]]]]; simpl in *; [lia..|]. decompose_Forall.
    apply memoryCopierGas_spec with z; try done; apply Hf.
  - intros cs f w r ms Hf Hl _ Hms Hu Hle. pose proof (fo_stack _ _ _ _ _ Hf) as Hst.
    unfold opExtCodeCopy. destruct (stack f) as [|a [|x [|y [|z st]]]] eqn:Es; simpl in *; [lia..|].
    decompose_Forall.
    apply (copy_to_memory_spec _ _ _ _ _ _ _ _ ms 1 3); rewrite ?Es; try done.
    + rewrite (repr_GetCode _ _ _ _ (fo_repr _ _ _ _ _ Hf)). by apply (get_acct_ok env net f w r).
    + by repeat constructor.
    + unfold Params.StackLimit. lia.
Qed.

Lemma opReturnDataCopy_op opc gas :
  1 <= gas -> opc <> 0 -> opc <> Op.CALL ->
  op_ok opc (mems (dyn (op opReturnDataCopy gas 3 1027) gasReturnDataCopy) memoryReturnDataCopy).
Proof.
  intros Hg H0 H1.
  apply (local_op _ _ (memoryCopierGas 2) (memory2 0 2) 0); try done; simpl; try lia;
    [by apply memory2_total| |].
  - intros f w r k Hf Hl Hk. pose proof (fo_stack _ _ _ _ _ Hf) as Hst.
    destruct (stack f) as [|x [|y [|z st]]]; simpl in *; [lia..|]. decompose_Forall.
    apply memoryCopierGas_spec with z; try done; apply Hf.
  - intros cs f w r ms Hf Hl _ Hms Hu Hle. pose proof (fo_stack _ _ _ _ _ Hf) as Hst.
    unfold opReturnDataCopy. destruct (stack f) as [|x [|y [|z st]]] eqn:Es; simpl in *; [lia..|].
    decompose_Forall. destruct (negb (IsUint64 (y + z)) || _) eqn:Hover.
    { apply (local_same f w r (memory f) st (Some errReturnDataOutOfBounds)); try done; [apply Hf|].
      unfold Params.StackLimit. lia. }
    apply orb_false_iff in Hover as [Hyz%negb_false_iff%IsUint64_true Hrd%Z.ltb_ge].
    unfold is_u64 in Hyz. unfold Uint64 in Hrd. rewrite u64_small in Hrd by (unfold is_u64; lia).
    unfold Uint64 at 1 2. rewrite !u64_small by (unfold is_u64; lia).
    assert (zlen (rdBytes (memory f) (returnData (evm f))) = rdLen (returnData (evm f))) as Hlrd.
    { pose proof (fo_rd _ _ _ _ _ Hf) as Hok. unfold rd_ok, rdBytes, rdLen in *.
      destruct (returnData (evm f)); [done|]. unfold Memory.Len in *. rewrite length_take, length_drop. lia. }
    rewrite slice_some by lia. simpl.
    destruct (memory2_region 0 2 _ x z ms (memory f) Hms) as [Hreg Hz]; try done.
    edestruct (Set_spec (memory f) x z) as (m' & Hset & Hlm & Hc & _);
      [apply (mem_len_max _ _ _ Hf)|done..|]. rewrite Hset. simpl.
    apply (local_same f w r m' st None); try done; [by apply (mem_ok_same (memory f)); [apply Hf|..]|].
    unfold Params.StackLimit. lia.
Qed.
Lemma fixed_request_total n : request_total (fun st => let! off := Stack.Back st 0 in
  Done (calcMemSize64WithUint off n)) 1.
Proof.
  intros st Hl. destruct st as [|x st]; [simpl in Hl; lia|]. by apply (memory_fixed_total n (x :: st) x).
Qed.

Lemma request_total_mono g mn mn' : mn <= mn' -> request_total g mn -> request_total g mn'.
Proof. intros ? Hg st Hl. apply Hg. lia. Qed.

Lemma pure_gas f w r k :
  frame_ok f w r -> 0 <= k ->
  gwp (pureMemoryGascost (contract f) (stack f) (32 * k)) (evm f) (memory f)
    (gas_post env w r (evm f) (memory f) k (charges 0 w)).
Proof. intros Hf Hk. apply pureMemoryGascost_spec; try done; apply Hf. Qed.

Lemma opMload_op opc gas :
  1 <= gas -> opc <> 0 -> opc <> Op.CALL ->
  op_ok opc (mems (dyn (op opMload gas 1 1024) gasMLoad) memoryMLoad).
Proof.
  intros Hg H0 H1.
  apply (local_op _ _ pureMemoryGascost memoryMLoad 0); try done; simpl; try lia;
    [apply fixed_request_total|by intros; apply pure_gas|].
  intros cs f w r ms Hf Hl _ Hms Hu Hle. pose proof (fo_stack _ _ _ _ _ Hf) as Hst.
  unfold opMload. destruct (stack f) as [|x st] eqn:Es; simpl in *; [lia|]. decompose_Forall.
  unfold memoryMLoad in Hms. simpl in Hms. injection Hms as Hms.
  destruct (calcMemSize64WithUint_spec x 32 ms) as [_ ->]; [done|lia|done|].
  destruct (GetPtr_spec (memory f) x 32 (mem_len_max _ _ _ Hf)) as (d & Hd & _); [split; [done|lia]|].
  change (Int64 32) with 32 in Hd. rewrite Hd. simpl.
  apply (local_same f w r (memory f) (SetBytes d :: st) None); try done; [apply Hf| |].
  - constructor; [|done]. pose proof (SetBytes_range d). lia.
  - unfold Params.StackLimit. simpl. lia.
Qed.

Lemma opMstore_op opc gas :
  1 <= gas -> opc <> 0 -> opc <> Op.CALL ->
  op_ok opc (mems (dyn (op opMstore gas 2 1026) gasMStore) memoryMStore).
Proof.
  intros Hg H0 H1.
  apply (local_op _ _ pureMemoryGascost memoryMStore 0); try done; simpl; try lia;
    [eapply request_total_mono; [|apply fixed_request_total]; lia|by intros; apply pure_gas|].
  intros cs f w r ms Hf Hl _ Hms Hu Hle. pose proof (fo_stack _ _ _ _ _ Hf) as Hst.
  unfold opMstore. destruct (stack f) as [|x [|y st]] eqn:Es; simpl in *; [lia..|]. decompose_Forall.
  unfold memoryMStore in Hms. simpl in Hms. injection Hms as Hms.
  destruct (calcMemSize64WithUint_spec x 32 ms) as [_ ->]; [done|lia|done|].
  destruct (Set32_spec (memory f) x y (mem_len_max _ _ _ Hf)) as (m' & -> & Hlm & Hc & _); [done..|]. simpl.
  apply (local_same f w r m' st None); try done; [by apply (mem_ok_same (memory f)); [apply Hf|..]|].
  unfold Params.StackLimit. lia.
Qed.

Lemma opMstore8_op opc gas :
  1 <= gas -> opc <> 0 -> opc <> Op.CALL ->
  op_ok opc (mems (dyn (op opMstore8 gas 2 1026) gasMStore8) memoryMStore8).
Proof.
  intros Hg H0 H1.
  apply (local_op _ _ pureMemoryGascost memoryMStore8 0); try done; simpl; try lia;
    [eapply request_total_mono; [|apply fixed_request_total]; lia|by intros; apply pure_gas|].
  intros cs f w r ms Hf Hl _ Hms Hu Hle. pose proof (fo_stack _ _ _ _ _ Hf) as Hst.
  unfold opMstore8. destruct (stack f) as [|x [|y st]] eqn:Es; simpl in *; [lia..|]. decompose_Forall.
  unfold memoryMStore8 in Hms. simpl in Hms. injection Hms as Hms.
  destruct (calcMemSize64WithUint_spec x 1 ms) as [_ ->]; [done|lia|done|].
  edestruct (store8_spec (memory f) x) as (m' & Hs8 & Hlm & Hc & _);
    [apply (mem_len_max _ _ _ Hf)|lia|]. rewrite Hs8. simpl.
  apply (local_same f w r m' st None); try done; [by apply (mem_ok_same (memory f)); [apply Hf|..]|].
  unfold Params.StackLimit. lia.
Qed.

(** ** Logs *)

Lemma pop_topics_spec n st :
  (n <= length st)%nat -> exists topics, pop_topics n st = Done (topics, drop n st).
Proof.
  revert st. induction n as [|n IH]; intros st Hl; [by exists []|].
  destruct st as [|x st]; simpl in *; [lia|]. destruct (IH st ltac:(lia)) as [t ->]. simpl. eauto.
Qed.

Lemma makeLog_op opc n :
  (n <= 4)%nat -> opc <> 0 -> opc <> Op.CALL ->
  op_ok opc (writing (mems (dyn (op (makeLog n) 0 (Z.of_nat n + 2) (Z.of_nat n + 1026))
    (makeGasLog (Z.of_nat n))) memoryLog)).
Proof.
  intros Hn H0 H1.
  apply (local_op _ _ (makeGasLog (Z.of_nat n)) memoryLog 375); try done; simpl; try lia;
    [by apply memory2_total; lia| |].
  - intros f w r k Hf Hl Hk. pose proof (fo_stack _ _ _ _ _ Hf) as Hst.
    destruct (stack f) as [|x [|y st]]; simpl in *; [lia..|]. decompose_Forall.
    eapply makeGasLog_spec; try done; [apply Hf..|lia].
  - intros cs f w r ms Hf Hl Hro Hms Hu Hle. pose proof (fo_stack _ _ _ _ _ Hf) as Hst.
    unfold makeLog. destruct (stack f) as [|x [|y st]] eqn:Es; simpl in *; [lia..|]. decompose_Forall.
    destruct (pop_topics_spec n st) as [topics ->]; [lia|]. simpl.
    destruct (memory2_region 0 1 _ x y ms (memory f) Hms) as [Hreg Hy]; try done.
    destruct (GetCopy_spec (memory f) x y (mem_len_max _ _ _ Hf) Hreg) as (d & -> & _). simpl.
    eexists _, (W.AddLog w _), (memory f), (drop n st), None.
    split; [done|]. split; [apply repr_AddLog, Hf|]. split_and!; try done; [apply world_ok_AddLog, Hf|
      apply Hf|by apply Forall_drop|rewrite length_drop; unfold Params.StackLimit; lia|].
    intros Hr. by specialize (Hro Hr).
Qed.
(** ** EXP *)

Lemma opExp_op opc (g : gasFunc S) per :
  opc <> 0 -> opc <> Op.CALL -> 0 <= per <= 50 ->
  (forall c st size, g c st size = gbind (gback st 1) (fun x =>
     gover (SafeAdd (u64 ((BitLen x + 7) / 8 * per)) Params.ExpGas))) ->
  op_ok opc (dyn (op opExp 0 2 1025) g).
Proof.
  intros Hop Hcall Hper Hg. split; [done|done|done|].
  intros n cs f w r k Hcs Hf Hb Hlen Hro Hpc Hk ->. pose proof (fo_stack _ _ _ _ _ Hf) as Hst.
  apply (body_plain env net _ g cs f w r 0 10); try done.
  - simpl in Hlen. destruct (stack f) as [|x [|y st]] eqn:Es; simpl in Hlen; [lia..|].
    by apply (gas_exp_spec env (contract f) (x :: y :: st) (evm f) (memory f) w r (fo_repr _ _ _ _ _ Hf)
      g per x y st).
  - intros f2 cost Hf2 Hlow Hcost Hst2 Hpc2 Hcode Hg2 Hs2 _.
    destruct (proj1 (Forall_forall _ _) (arithmetic_instrs env net) opExp ltac:(set_solver) cs f2 w r Hf2)
      as (st & Hex & Hnn & Hl); [by rewrite Hst2|].
    eapply wp_mono; [apply (local_conclude _ f2 w r (Gas (contract f) + 0))|done|done]; try done.
    + simpl. rewrite Hex. apply (local_same f2 w r (memory f2) st None); try done. apply Hf2.
    + rewrite Hpc2, Hcode. auto.
    + lia.
Qed.

(** ** Halting *)

Lemma opStop_op gas : 0 <= gas -> op_ok 0 (halting (op opStop gas 0 1024)).
Proof.
  intros Hg. split; [done|done|done|].
  intros n cs f w r k Hcs Hf Hb Hlen Hro Hpc Hk ->. simpl.
  change (32 * 0) with 0. rewrite expand_0. apply stop_here; [done|lia|done].
Qed.

Lemma return_op opc o :
  opc <> 0 -> opc <> Op.CALL -> constantGas o = 0 -> dynamicGas o = Some pureMemoryGascost ->
  memorySize o = Some (memory2 0 1) -> op_minStack o = 2 -> halts o || reverts o = true ->
  (execute o = opReturn \/ execute o = opRevert) -> op_ok opc o.
Proof.
  intros H0 H1 Hc Hdyn Hmr Hmin Hh Hx. split.
  - intros st g Hg _ Hl. rewrite Hmr in Hg. simplify_eq. rewrite Hmin in Hl.
    by apply (memory2_total 0 1 2).
  - done.
  - lia.
  - intros n cs f w r k Hcs Hf Hb Hlen Hro Hpc Hk Hms. rewrite Hmr in Hms. destruct Hms as (ms & Hms & Hu & Hle).
    apply (body_plain env net o pureMemoryGascost cs f w r k 0); try done; [lia|by apply pure_gas|].
    intros f2 cost Hf2 Hlow Hcost Hst2 Hpc2 Hcode Hg2 Hs2 Hlm. rewrite <-Hst2 in *.
    pose proof (fo_stack _ _ _ _ _ Hf2) as Hst. rewrite Hmin in Hlen.
    destruct (stack f2) as [|x [|y st]] eqn:Es; simpl in Hlen; [lia..|]. decompose_Forall.
    destruct (memory2_region 0 1 _ x y ms (memory f2) Hms) as [Hreg Hy]; try done; [lia|].
    destruct (GetPtr_spec (memory f2) x y (mem_len_max _ _ _ Hf2) Hreg) as (d & Hd & Hld & _).
    assert (execute o env cs f2 = ok_ret (with_stack f2 st) (RVal d)) as ->.
    { destruct Hx as [->| ->]; unfold opReturn, opRevert; rewrite Es; simpl; by rewrite Hd. }
    assert (frame_ok (with_stack f2 st) w r) as Hf3.
    { apply frame_ok_stack; [done..|]. pose proof (fo_len _ _ _ _ _ Hf2). rewrite Es in *. simpl in *. lia. }
    assert (zlen d < 2 ^ 62).
    { pose proof (mem_len_max _ _ _ Hf2). unfold maxMem in *. destruct Hreg as [? [?|?]]; lia. }
    simpl. unfold conclude. set (f3 := if returns o then _ else _).
    assert (forall er, stop_post env net (Gas (contract f) + constantGas o) f2 w r f3 d er) as Hend.
    { intros er. destruct (stop_here env net (Gas (contract f) + constantGas o) (with_stack f2 st) w r d er)
        as (w' & r' & Hend); [done|simpl; lia|done|].
      exists w', r'. unfold f3. destruct (returns o); [|exact Hend].
      destruct Hend as (? & [? ?] & ?). split; [done|]. by split. }
    destruct (reverts o); [apply Hend|]. rewrite orb_false_r in Hh. rewrite Hh. apply Hend.
Qed.
(** ** Storage writes and self-destruction *)

(** The next instruction, everything in the frame being new. *)
Lemma next_charged f w r g0 s2 cgt rd jd g2 m2 st2 w2 r2 :
  frame_ok f w r -> repr s2 w2 (r2 ++ r) -> world_ok (keccak256 env) net w2 ->
  0 <= g2 < g0 -> potential w2 g2 <= potential w g0 -> potential w g0 + 24000 < two64 ->
  mem_ok m2 -> rd_ok m2 rd -> nonneg st2 -> zlen st2 <= Params.StackLimit ->
  pc f < zlen (Code (contract f)) -> jumpdests_ok (keccak256 env) jd ->
  (ro env (evm f) = true -> static (keccak256 env) w w2) ->
  next_post env net g0 f w r
    (mkFrame (pc f + 1) (mkEVM s2 (depth (evm f)) cgt (readOnly (evm f)) rd jd)
       (set_Gas (contract f) g2) m2 st2).
Proof.
  intros Hf Hr Hw Hg Hp Hb Hm Hrd Hst Hlen Hpc Hj Hs. exists w2, r2.
  pose proof (fo_pc _ _ _ _ _ Hf). pose proof (proj1 (wo_refund _ _ _ Hw)).
  split; [|split_and!; try done; [simpl; lia]].
  split; try apply Hf; simpl; try done; try lia.
  apply contract_ok_gas; [apply Hf|]. unfold potential, is_u64 in *. lia.
Qed.

Lemma opSstore_op opc (g : gasFunc S) :
  opc <> 0 -> opc <> Op.CALL ->
  (forall c e m w r x y st, repr (StateDB e) w r -> world_ok (keccak256 env) net w ->
     w_refund w + 24000 < two64 -> 0 <= y ->
     gwp (g c (x :: y :: st) (32 * 0)) e m
       (gas_post env w r e m 0 (sstore_charge env net c w (BigToHash x) (BigToHash y)))) ->
  op_ok opc (writing (dyn (op opSstore 0 2 1026) g)).
Proof.
  intros Hop Hcall Hg. split; [done|done|done|].
  intros n cs f w r k Hcs Hf Hb Hlen Hro Hpc Hk ->. pose proof (fo_stack _ _ _ _ _ Hf) as Hst.
  pose proof (fo_contract _ _ _ _ _ Hf) as [[? ?] _ _ _ _ _ _].
  assert (ro env (evm f) = false) as Hnro.
  { destruct (ro env (evm f)) eqn:E; [|done]. destruct (Hro E) as [[=] _]. }
  simpl in Hlen. destruct (stack f) as [|x [|y st]] eqn:Es; simpl in Hlen; [lia..|]. decompose_Forall.
  eapply (body_dynamic env net (writing (dyn (op opSstore 0 2 1026) g)) g cs f w r 0); [done..| | |].
  - rewrite Es. apply Hg; try done; try apply Hf. pose proof (fo_budget _ _ _ _ _ Hf).
    unfold potential in *. lia.
  - by rewrite Hnro.
  - intros s' cgt w' cost rd m' Hr (ρ & -> & Hρ & Hd & Hpot & Hlow) Hcost Hm Hl Hrd.
    unfold charged_frame. simpl. unfold opSstore. simpl. rewrite Es. simpl.
    pose proof (fo_pc _ _ _ _ _ Hf). pose proof (co_code _ _ (fo_contract _ _ _ _ _ Hf)).
    rewrite u64_small by (unfold is_u64; lia). specialize (Hpc Hop). frame_simpl.
    eapply (next_charged _ _ _ _ _ _ _ _ _ _ _ (W.SetState _ _ _ _ _) []); try done.
    + simpl. by apply repr_SetState.
    + apply world_ok_SetState; try done; [apply Hf|]. rewrite BigToHash_mod. apply Z.mod_pos_bound. lia.
    + simpl. lia.
    + unfold potential. simpl. lia.
    + unfold Params.StackLimit. lia.
    + apply Hf.
    + by rewrite Hnro.
Qed.

Lemma opSuicide_op opc :
  opc <> 0 -> opc <> Op.CALL ->
  op_ok opc (writing (halting (dyn (op opSuicide 0 1 1025) (gasSelfdestruct env)))).
Proof.
  intros Hop Hcall. split; [done|done|done|].
  intros n cs f w r k Hcs Hf Hb Hlen Hro Hpc Hk ->. pose proof (fo_stack _ _ _ _ _ Hf) as Hst.
  pose proof (fo_contract _ _ _ _ _ Hf) as [[? ?] _ _ _ _ _ _].
  pose proof (fo_budget _ _ _ _ _ Hf) as Hbud. unfold potential in Hbud.
  assert (ro env (evm f) = false) as Hnro.
  { destruct (ro env (evm f)) eqn:E; [|done]. destruct (Hro E) as [[=] _]. }
  simpl in Hlen. destruct (stack f) as [|x st] eqn:Es; simpl in Hlen; [lia|]. decompose_Forall.
  eapply (body_dynamic env net (writing (halting (dyn (op opSuicide 0 1 1025) (gasSelfdestruct env))))
    (gasSelfdestruct env) cs f w r 0); [done..| | |].
  - rewrite Es. apply gasSelfdestruct_spec with net; try apply Hf. lia.
  - by rewrite Hnro.
  - intros s' cgt w' cost rd m' Hr (ρ & -> & Hρ) Hcost Hm Hl Hrd.
    unfold charged_frame. simpl. unfold opSuicide. simpl. rewrite Es. simpl. unfold Params.SelfdestructRefundGas in *.
    pose proof (proj1 (wo_refund _ _ _ (fo_world _ _ _ _ _ Hf))) as Hu. unfold is_u64 in Hu.
    assert (world_ok (keccak256 env) net (W.set_refund w ρ)) as Hw.
    { destruct (fo_world _ _ _ _ _ Hf) as [Ha [_ Hc]]. split; [done|]. split; [unfold is_u64; simpl; lia|].
      intros Hn. destruct (Hc Hn) as (D & HD & Hs). exists D. split; [done|]. simpl. lia. }
    eexists (W.Suicide (W.AddBalance _ (W.set_refund w ρ) _ _) _), []. split_and!.
    + simpl. apply repr_Suicide, repr_AddBalance, Hr.
    + by split.
    + apply Hf.
    + simpl. lia.
    + simpl. lia.
    + done.
    + by rewrite Hnro.
    + intros _. split.
      * apply world_ok_Suicide, world_ok_AddBalance; [|done].
        rewrite (repr_GetBalance _ _ _ _ Hr). apply (wo_accts _ _ _ Hw).
      * unfold potential. simpl. unfold W.Suicide. destruct (accts _ !! _); simpl; lia.
Qed.
End OpsMem.
