(* ===== verification/VmOpsCall.v ===== *)
(** * core/vm: the call and create operations
    CALL, CALLCODE, DELEGATECALL, STATICCALL, CREATE and CREATE2 keep the
    promise of [op_ok], given what the calls they make promise ([calls_ok]). *)

From S2P Require Import Prelude MathUtil VmBase VmEnv VmGas VmInstr VmTable VmInterp VmAnalysis.
From S2P Require Import World VmInv VmMemory VmGasSpec VmStep VmOps VmOpsMem.

Section OpsCall.
Context {S : Type} `{HS : vmStateDB S} (env : Env) (net : bool) `{!StateRefines (keccak256 env) S}.
Hypothesis Henv : env_ok env.
Implicit Types (w : World) (r : list (Z * World)) (f : Frame S) (e : EVM S).
Abbreviation frame_ok := (frame_ok env net).
Abbreviation op_ok := (op_ok env net).
Abbreviation nonneg := (Forall (fun x => 0 <= x)).

(** ** After the call *)

(** An operation that is not the end of a frame and sets the return data. *)
Definition call_like (o : operation S) : Prop :=
  returns o = true /\ halts o = false /\ reverts o = false /\ jumps o = false /\ 24 <= constantGas o.

Lemma after_call o f w r e2 gas left isStatic exact err cost m2 rd st2 :
  frame_ok f w r -> call_like o -> potential w (Gas (contract f) + constantGas o) + 24000 < two64 ->
  0 <= cost <= Gas (contract f) -> gas <= cost ->
  call_post env net (evm f) gas w r isStatic exact e2 left err ->
  (ro env (evm f) = true -> isStatic) ->
  mem_ok m2 -> rd_ok m2 rd -> nonneg st2 -> zlen st2 <= Params.StackLimit ->
  pc f < zlen (Code (contract f)) ->
  step_post env net (Gas (contract f) + constantGas o) f w r
    (conclude o
       (mkFrame (pc f) e2 (set_Gas (contract f) (u64 (Gas (contract f) - cost + left))) m2 st2)
       rd None).
Proof.
  intros Hf (H1 & H2 & H3 & H4 & Hc) Hb Hcost Hgas
    (w2 & r2 & Hr2 & [Hro Hdep] & Hjd & Hleft & Hw2 & Hpot & Hst & _) Hs Hm Hrd Hnn Hlen Hpc.
  pose proof (fo_contract _ _ _ _ _ Hf) as [[? ?] _ _ _ _ _ _]. unfold conclude.
  rewrite H1, H2, H3, H4. simpl. frame_simpl.
  pose proof (fo_pc _ _ _ _ _ Hf). pose proof (co_code _ _ (fo_contract _ _ _ _ _ Hf)).
  rewrite (u64_small (pc f + 1)) by (unfold is_u64; lia).
  rewrite (u64_small (_ - _ + _)) by (unfold is_u64; lia).
  destruct e2 as [s2 d2 cgt2 ro2 rd2 jd2]. simpl in *. subst. unfold set_returnData. simpl.
  apply (next_charged env net f w r _ s2 cgt2 rd jd2 _ m2 st2 w2 r2); try done; [lia| |by auto].
  unfold potential in *. lia.
Qed.

(** ** The result of a call *)

Lemma finish_call_spec o f w r s' cgt cost rd m' st args retOffset retSize e2 res gas isStatic exact :
  frame_ok f w r -> call_like o -> potential w (Gas (contract f) + constantGas o) + 24000 < two64 ->
  0 <= cost <= Gas (contract f) -> gas <= cost ->
  call_post env net (evm f) gas w r isStatic exact e2 (leftOverGas res) (err res) ->
  (ro env (evm f) = true -> isStatic) ->
  mem_ok m' -> nonneg st -> zlen st + 1 <= Params.StackLimit ->
  region m' retOffset retSize -> is_u64 retSize ->
  match args with Some (o, n) => 0 <= o /\ 0 <= n /\ o + n <= Memory.Len m' | None => True end ->
  pc f < zlen (Code (contract f)) ->
  wp False (let! '(f, res, err) :=
      finish_call (charged_frame f s' cgt cost rd m') e2 st args retOffset retSize res in
    Done (conclude o f res err))
    (step_post env net (Gas (contract f) + constantGas o) f w r).
Proof.
  intros Hf Ho Hb Hcost Hgas Hpost Hs Hm Hnn Hlen Hreg Hu Hargs Hpc. unfold finish_call.
  assert (exists m2, (if bool_decide (err res = None) || bool_decide (err res = Some errExecutionReverted)
            then Memory.Set_ m' (Uint64 retOffset) (Uint64 retSize) (ret_bytes (ret res))
            else Done m') = Done m2 /\ mem_ok m2 /\ Memory.Len m2 = Memory.Len m') as (m2 & Hm2 & Hok & Hl).
  { destruct (_ || _); [|by exists m'].
    destruct (Set_spec m' retOffset retSize (ret_bytes (ret res))) as (m2 & ? & ? & ? & _);
      [apply Hm|done..|]. exists m2. split_and!; try done. by apply (mem_ok_same m'). }
  simpl. rewrite Hm2. simpl. unfold add_gas. frame_simpl. simpl.
  eapply after_call; try done.
  - unfold ret_slice. destruct (ret_isInput (ret res)); [|done].
    destruct args as [[off n]|]; [|done]. simpl. lia.
  - constructor; [by destruct (bool_decide (err res <> None))|done].
  - simpl. lia.
Qed.

(** What the caller of a call instruction must have. *)
Lemma caller_pre f w r s' cgt cost rd m' gas :
  frame_ok f w r -> repr s' w r -> 0 <= gas <= Gas (contract f) ->
  call_pre env net (evm (charged_frame f s' cgt cost rd m'))
    (contract_ref (contract (charged_frame f s' cgt cost rd m'))) gas w r.
Proof.
  intros Hf Hr Hg. pose proof (fo_budget _ _ _ _ _ Hf). destruct (fo_contract _ _ _ _ _ Hf).
  split; try done; try apply Hf; simpl; try lia. unfold potential in *. lia.
Qed.

(** The promise of a call does not depend on [callGasTemp] or the return data. *)
Lemma call_post_env f gas w r isStatic exact e1 e2 left er :
  same_env (evm f) e1 -> call_post env net e1 gas w r isStatic exact e2 left er ->
  call_post env net (evm f) gas w r isStatic exact e2 left er.
Proof.
  intros [Hro Hd] (w2 & r2 & ? & [? ?] & ?). exists w2, r2. split; [done|].
  split; [split; congruence|done].
Qed.
(** ** The call instructions *)

(** CALL and CALLCODE differ in the method they call, and so do DELEGATECALL
    and STATICCALL. *)
Definition call7 (call : EVM S -> ContractRef -> Address -> bytes -> Z -> Z -> outcome (EVM S * CallResult))
    f : instrResult S :=
  let! '(_, st) := Stack.pop (stack f) in
  let gas := callGasTemp (evm f) in
  let! '(addr, st) := Stack.pop st in
  let! '(value, st) := Stack.pop st in
  let! '(inOffset, st) := Stack.pop st in
  let! '(inSize, st) := Stack.pop st in
  let! '(retOffset, st) := Stack.pop st in
  let! '(retSize, st) := Stack.pop st in
  let value := U256 value in
  let! args := Memory.GetPtr (memory f) (Int64 inOffset) (Int64 inSize) in
  let gas := if negb (value =? 0) then u64 (gas + Params.CallStipend) else gas in
  let! '(e, r) := call (evm f) (contract_ref (contract f)) (BigToAddress addr) args gas value in
  finish_call f e st (Memory.GetPtr_region (memory f) (Int64 inOffset) (Int64 inSize))
    retOffset retSize r.

Definition call6 (call : EVM S -> ContractRef -> Address -> bytes -> Z -> outcome (EVM S * CallResult))
    f : instrResult S :=
  let! '(_, st) := Stack.pop (stack f) in
  let gas := callGasTemp (evm f) in
  let! '(addr, st) := Stack.pop st in
  let! '(inOffset, st) := Stack.pop st in
  let! '(inSize, st) := Stack.pop st in
  let! '(retOffset, st) := Stack.pop st in
  let! '(retSize, st) := Stack.pop st in
  let! args := Memory.GetPtr (memory f) (Int64 inOffset) (Int64 inSize) in
  let! '(e, r) := call (evm f) (contract_ref (contract f)) (BigToAddress addr) args gas in
  finish_call f e st (Memory.GetPtr_region (memory f) (Int64 inOffset) (Int64 inSize))
    retOffset retSize r.

Lemma args_region m off n :
  mem_ok m -> region m off n ->
  match Memory.GetPtr_region m (Int64 off) (Int64 n) with
  | Some (o, k) => 0 <= o /\ 0 <= k /\ o + k <= Memory.Len m
  | None => True
  end.
Proof.
  intros Hm Hr. pose proof (GetPtr_region_spec m off n (mo_max _ Hm) Hr) as H.
  destruct (Memory.GetPtr_region _ _ _) as [[o k]|]; [|done]. destruct H as (-> & -> & ?), Hr; lia.
Qed.

Lemma addr_nonneg x : 0 <= BigToAddress x.
Proof. rewrite BigToAddress_mod. apply Z.mod_pos_bound. lia. Qed.

(** The gas of the callee: what was forwarded, and the stipend of a value
    transfer, which the transfer price covers. *)
Lemma callee_gas v cgt cost :
  is_u64 cgt -> cost < two64 -> cgt + (if v =? 0 then 0 else Params.CallValueTransferGas) <= cost ->
  0 <= (if negb (U256 v =? 0) then u64 (cgt + Params.CallStipend) else cgt) <= cost.
Proof.
  unfold is_u64, Params.CallValueTransferGas, Params.CallStipend. intros Hc Hlt Hle.
  destruct (Z.eqb_spec v 0) as [->|Hv]; [by change (U256 0 =? 0) with true; simpl; lia|].
  destruct (U256 v =? 0); simpl; [lia|]. rewrite u64_small by (unfold is_u64; lia). lia.
Qed.

Section Call7.
Variable call : Calls S -> EVM S -> ContractRef -> Address -> bytes -> Z -> Z -> outcome (EVM S * CallResult).
Variable isStatic : EVM S -> Z -> Prop.
Hypothesis call_spec : forall n cs e caller addr input gas v w r,
  calls_ok env net n cs ->
  call_pre env net e caller gas w r -> 0 <= addr -> 0 <= v -> zlen input < 2 ^ 62 ->
  wp (Z.of_nat n <= gas) (call cs e caller addr input gas v)
    (fun x => call_post env net e gas w r (isStatic e v) True (fst x) (leftOverGas (snd x)) (err (snd x))).

Lemma call7_op opc o (g : gasFunc S) gas0 :
  opc <> 0 -> 24 <= gas0 ->
  o = returning (mems (dyn (op (fun _ cs f => call7 (call cs) f) gas0 7 1030) g) memoryCall) ->
  (forall f w r k l a v st, frame_ok f w r -> stack f = l :: a :: v :: st -> 0 <= l -> 0 <= k ->
     gwp (g (contract f) (stack f) (32 * k)) (evm f) (memory f)
       (gas_post env w r (evm f) (memory f) k (forwards w v))) ->
  (forall f e v, unprotected env opc o f -> stack f !! 2%nat = Some v -> same_env (evm f) e ->
     ro env (evm f) = true -> isStatic e (U256 v)) ->
  op_ok opc o.
Proof.
  intros Hop Hg0 -> Hgas Hsta. split.
  - intros st g' [= <-] _ Hl. by apply (memory_two_regions_total 5 3 7).
  - simpl. lia.
  - simpl. lia.
  - intros n cs f w r k Hcs Hf Hb Hlen Hro Hpc Hk (ms & Hms & Hu & Hle). specialize (Hpc Hop).
    pose proof (fo_stack _ _ _ _ _ Hf) as Hst. simpl in Hlen.
    pose proof (fo_contract _ _ _ _ _ Hf) as [[? ?] _ _ _ _ _ _].
    destruct (stack f) as [|l [|a [|v [|io [|iz [|ro_ [|rz st]]]]]]] eqn:Es; simpl in Hlen; [lia..|].
    decompose_Forall.
    apply (body_dynamic env net (returning (mems (dyn (op (fun _ cs f => call7 (call cs) f) gas0 7 1030) g)
      memoryCall)) g cs f w r k (forwards w v)); try done; try (simpl; lia).
    + by eapply Hgas.
    + by intros _ w' ? ? [-> _].
    + intros s' cgt w' cost rd m' Hr (-> & Hcgt & Hfw) Hcost Hm Hlm Hrd.
      destruct (memory_two_regions_region 5 3 _ ro_ rz io iz ms m' Hms) as (Hreg1 & Hu1 & Hreg2 & Hu2);
        try done; [lia|].
      simpl. unfold call7. simpl. rewrite Es. simpl.
      destruct (GetPtr_spec m' io iz (mo_max _ Hm) Hreg2) as (d & -> & Hd & _). simpl.
      assert (zlen d < 2 ^ 62) as Hd2.
      { pose proof (mo_max _ Hm). unfold maxMem in *. destruct Hreg2 as [? [?|?]]; lia. }
      set (gas := if negb _ then _ else _).
      assert (0 <= gas <= cost) as Hgas' by (apply callee_gas; lia || done).
      pose proof (call_spec n cs (evm (charged_frame f s' cgt cost rd m'))
        (contract_ref (contract (charged_frame f s' cgt cost rd m'))) (BigToAddress a) d gas (U256 v) w r Hcs
        (caller_pre f w r s' cgt cost rd m' gas Hf Hr ltac:(lia)) (addr_nonneg a) (U256_nonneg v) Hd2) as Hcall.
      simpl in Hcall. destruct (call cs _ _ _ _ _ _) as [[e2 res]| |]; simpl in *.
      * eapply wp_mono; [apply (finish_call_spec (returning (mems (dyn (op (fun _ cs f => call7 (call cs) f)
          gas0 7 1030) g) memoryCall)) f w r s' cgt cost rd m' st _ ro_ rz e2 res gas
          (isStatic (evm (charged_frame f s' cgt cost rd m')) (U256 v)) True)|done|done];
          try done; simpl; try lia.
        -- eapply call_post_env; [|apply Hcall]; by split.
        -- intros Hro'. apply (Hsta f); try done. by rewrite Es.
        -- unfold Params.StackLimit. lia.
        -- by apply args_region.
      * done.
      * lia.
Qed.
End Call7.

Section Call6.
Variable call : Calls S -> EVM S -> ContractRef -> Address -> bytes -> Z -> outcome (EVM S * CallResult).
Variable isStatic : EVM S -> Prop.
Hypothesis call_spec : forall n cs e caller addr input gas w r,
  calls_ok env net n cs -> contract_caller caller ->
  call_pre env net e caller gas w r -> 0 <= addr -> zlen input < 2 ^ 62 ->
  wp (Z.of_nat n <= gas) (call cs e caller addr input gas)
    (fun x => call_post env net e gas w r (isStatic e) True (fst x) (leftOverGas (snd x)) (err (snd x))).
Hypothesis isStatic_ro : forall e, ro env e = true -> isStatic e.

Lemma call6_op opc o (g : gasFunc S) gas0 :
  opc <> 0 -> opc <> Op.CALL -> 24 <= gas0 ->
  o = returning (mems (dyn (op (fun _ cs f => call6 (call cs) f) gas0 6 1029) g) (memory_two_regions 4 2)) ->
  (forall f w r k l st, frame_ok f w r -> stack f = l :: st -> 0 <= l -> 0 <= k ->
     gwp (g (contract f) (stack f) (32 * k)) (evm f) (memory f)
       (gas_post env w r (evm f) (memory f) k (forwards w 0))) ->
  op_ok opc o.
Proof.
  intros Hop Hnc Hg0 -> Hgas. split.
  - intros st g' [= <-] _ Hl. by apply (memory_two_regions_total 4 2 6).
  - done.
  - simpl. lia.
  - intros n cs f w r k Hcs Hf Hb Hlen Hro Hpc Hk (ms & Hms & Hu & Hle). specialize (Hpc Hop).
    pose proof (fo_stack _ _ _ _ _ Hf) as Hst. simpl in Hlen.
    pose proof (fo_contract _ _ _ _ _ Hf) as [[? ?] _ _ _ _ _ _].
    destruct (stack f) as [|l [|a [|io [|iz [|ro_ [|rz st]]]]]] eqn:Es; simpl in Hlen; [lia..|].
    decompose_Forall.
    apply (body_dynamic env net (returning (mems (dyn (op (fun _ cs f => call6 (call cs) f) gas0 6 1029) g)
      (memory_two_regions 4 2))) g cs f w r k (forwards w 0)); try done; try (simpl; lia).
    + by eapply Hgas.
    + by intros _ w' ? ? [-> _].
    + intros s' cgt w' cost rd m' Hr (-> & [Hc0 Hc1] & Hfw) Hcost Hm Hlm Hrd. simpl in Hfw.
      destruct (memory_two_regions_region 4 2 _ ro_ rz io iz ms m' Hms) as (Hreg1 & Hu1 & Hreg2 & Hu2);
        try done; [lia|].
      simpl. unfold call6. simpl. rewrite Es. simpl.
      destruct (GetPtr_spec m' io iz (mo_max _ Hm) Hreg2) as (d & -> & Hd & _). simpl.
      assert (zlen d < 2 ^ 62) as Hd2.
      { pose proof (mo_max _ Hm). unfold maxMem in *. destruct Hreg2 as [? [?|?]]; lia. }
      pose proof (call_spec n cs (evm (charged_frame f s' cgt cost rd m'))
        (contract_ref (contract (charged_frame f s' cgt cost rd m'))) (BigToAddress a) d cgt w r Hcs I
        (caller_pre f w r s' cgt cost rd m' cgt Hf Hr ltac:(lia)) (addr_nonneg a) Hd2) as Hcall.
      simpl in Hcall. destruct (call cs _ _ _ _ _) as [[e2 res]| |]; simpl in *.
      * eapply wp_mono; [apply (finish_call_spec (returning (mems (dyn (op (fun _ cs f => call6 (call cs) f)
          gas0 6 1029) g) (memory_two_regions 4 2))) f w r s' cgt cost rd m' st _ ro_ rz e2 res cgt
          (isStatic (evm (charged_frame f s' cgt cost rd m'))) True)|done|done];
          try done; simpl; try lia.
        -- eapply call_post_env; [|apply Hcall]; by split.
        -- intros Hro'. by apply isStatic_ro.
        -- unfold Params.StackLimit. lia.
        -- by apply args_region.
      * done.
      * lia.
Qed.
End Call6.

Lemma opCall_op gas : 24 <= gas ->
  op_ok Op.CALL (returning (mems (dyn (op opCall gas 7 1030) (gasCall env)) memoryCall)).
Proof.
  intros Hg. apply (call7_op Call (fun e v => ro env e = true /\ v = 0)
    (fun n cs e c a i g v w r Hcs => ck_Call _ _ n cs Hcs e c a i g v w r) Op.CALL _ (gasCall env) gas);
    try done.
  - intros f w r k l a v st Hf Hs Hl Hk. rewrite Hs. eapply gasCall_spec; try done; apply Hf.
  - intros f e v Hun Hv [Hr _] Hro. destruct (Hun Hro) as [_ Hz]. rewrite (Hz eq_refl) in Hv. simplify_eq.
    unfold ro in *. by rewrite Hr.
Qed.

Lemma opCallCode_op gas : 24 <= gas ->
  op_ok Op.CALLCODE (returning (mems (dyn (op opCallCode gas 7 1030) (gasCallCode env)) memoryCall)).
Proof.
  intros Hg. apply (call7_op CallCode (fun e v => ro env e = true)
    (fun n cs e c a i g v w r Hcs => ck_CallCode _ _ n cs Hcs e c a i g v w r) Op.CALLCODE _
    (gasCallCode env) gas); try done.
  - intros f w r k l a v st Hf Hs Hl Hk. rewrite Hs. eapply gasCallCode_spec; try done; apply Hf.
  - intros f e v Hun Hv [Hr _] Hro. unfold ro in *. by rewrite Hr.
Qed.

Lemma opDelegateCall_op gas : 24 <= gas ->
  op_ok Op.DELEGATECALL
    (returning (mems (dyn (op opDelegateCall gas 6 1029) (gasDelegateCall env)) memoryDelegateCall)).
Proof.
  intros Hg. apply (call6_op DelegateCall (fun e => ro env e = true)
    (fun n cs e c a i g w r Hcs Hc Hp => ck_DelegateCall _ _ n cs Hcs e c a i g w r Hp Hc) (fun e H => H)
    Op.DELEGATECALL _ (gasDelegateCall env) gas); try done.
  intros f w r k l st Hf Hs Hl Hk. rewrite Hs. eapply gasDelegateCall_spec; try done; apply Hf.
Qed.

Lemma opStaticCall_op gas : 24 <= gas ->
  op_ok Op.STATICCALL
    (returning (mems (dyn (op opStaticCall gas 6 1029) (gasStaticCall env)) memoryStaticCall)).
Proof.
  intros Hg. apply (call6_op StaticCall (fun e => IsByzantium (chainRules env) = true)
    (fun n cs e c a i g w r Hcs _ Hp => ck_StaticCall _ _ n cs Hcs e c a i g w r Hp)
    (fun e H => proj2 (andb_prop _ _ H))
    Op.STATICCALL _ (gasStaticCall env) gas); try done.
  intros f w r k l st Hf Hs Hl Hk. rewrite Hs. eapply gasStaticCall_spec; try done; apply Hf.
Qed.
(** ** Contract creation *)

Lemma create_gas b g : 0 <= g -> 0 <= (if b : bool then g - g / 64 else g) <= g.
Proof.
  intros Hg. destruct b; [|lia]. assert (0 <= g / 64 <= g); [|lia].
  split; [apply Z.div_pos; lia|apply Z.div_le_upper_bound; lia].
Qed.

(** What both instructions do with the result. *)
Lemma finish_create o f w r s' cgt cost rd m' st v gas e2 res er :
  frame_ok f w r -> call_like o -> potential w (Gas (contract f) + constantGas o) + 24000 < two64 ->
  0 <= cost -> 0 <= gas -> cost + gas <= Gas (contract f) -> ro env (evm f) = false ->
  call_post env net (evm f) gas w r False False e2 (create_leftOverGas res) er ->
  mem_ok m' -> nonneg st -> zlen st + 1 <= Params.StackLimit -> 0 <= v ->
  pc f < zlen (Code (contract f)) ->
  wp False (let! '(f, res, err) :=
      (let f := add_gas (with_stack (with_evm (use_gas (charged_frame f s' cgt cost rd m') gas) e2)
                           (Stack.push st v)) (create_leftOverGas res) in
       if bool_decide (er = Some errExecutionReverted) then ok_ret f (RVal (create_ret res)) else ok f) in
    Done (conclude o f res err))
    (step_post env net (Gas (contract f) + constantGas o) f w r).
Proof.
  intros Hf Ho Hb Hc Hg Hle Hro Hpost Hm Hnn Hlen Hv Hpc.
  assert (forall rv, wp False (let! '(f, res, err) :=
      ok_ret (add_gas (with_stack (with_evm (use_gas (charged_frame f s' cgt cost rd m') gas) e2)
                (Stack.push st v)) (create_leftOverGas res)) (RVal rv) in
      Done (conclude o f res err))
    (step_post env net (Gas (contract f) + constantGas o) f w r)) as Hend.
  { intros rv. unfold use_gas, UseGas. simpl. rewrite (proj2 (Z.ltb_ge _ _)) by lia. simpl.
    unfold add_gas. frame_simpl. simpl.
    replace (Gas (contract f) - cost - gas) with (Gas (contract f) - (cost + gas)) by lia.
    eapply (after_call o f w r e2 gas); try done; [lia|lia|by rewrite Hro|by constructor|].
    simpl. lia. }
  simpl. destruct (bool_decide _); apply Hend.
Qed.

Lemma opCreate_op opc :
  opc <> 0 -> opc <> Op.CALL ->
  op_ok opc (returning (writing (mems (dyn (op opCreate Params.CreateGas 3 1026) gasCreate) memoryCreate))).
Proof.
  intros Hop Hnc. set (o := returning _). split.
  - intros st g [= <-] _ Hl. by apply (memory2_total 1 2 3).
  - done.
  - done.
  - intros n cs f w r k Hcs Hf Hb Hlen Hro Hpc Hk (ms & Hms & Hu & Hle). specialize (Hpc Hop).
    pose proof (fo_stack _ _ _ _ _ Hf) as Hst. simpl in Hlen.
    pose proof (fo_contract _ _ _ _ _ Hf) as [[? ?] _ _ _ _ _ _].
    assert (ro env (evm f) = false) as Hnro.
    { destruct (ro env (evm f)) eqn:E; [|done]. destruct (Hro E) as [[=] _]. }
    destruct (stack f) as [|v [|off [|sz st]]] eqn:Es; simpl in Hlen; [lia..|]. decompose_Forall.
    apply (body_dynamic env net o gasCreate cs f w r k (charges 0 w)); try done.
    + by apply (pure_gas env net).
    + by rewrite Hnro.
    + intros s' cgt w' cost rd m' Hr [-> _] Hcost Hm Hlm Hrd.
      destruct (memory2_region 1 2 _ off sz ms m' Hms) as [Hreg Hz]; try done; [lia|].
      simpl. unfold opCreate. simpl. rewrite Es. simpl.
      destruct (GetCopy_spec m' off sz (mo_max _ Hm) Hreg) as (d & -> & Hd & _). simpl.
      assert (zlen d < 2 ^ 62) as Hd2.
      { pose proof (mo_max _ Hm). unfold maxMem in *. destruct Hreg as [? [?|?]]; lia. }
      set (gas := if IsEIP150 _ then _ else _).
      assert (0 <= gas <= Gas (contract f) - cost) as Hgas by (apply create_gas; lia).
      pose proof (ck_Create _ _ n cs Hcs (evm (charged_frame f s' cgt cost rd m'))
        (contract_ref (contract (use_gas (charged_frame f s' cgt cost rd m') gas))) d gas v w r) as Hcall.
      assert (call_pre env net (evm (charged_frame f s' cgt cost rd m'))
        (contract_ref (contract (use_gas (charged_frame f s' cgt cost rd m') gas))) gas w r) as Hpre.
      { destruct (caller_pre f w r s' cgt cost rd m' gas Hf Hr ltac:(lia)). split; try done.
        unfold use_gas, UseGas. simpl. by destruct (_ <? _). }
      specialize (Hcall Hpre ltac:(done) Hd2).
      destruct (Create cs _ _ _ _ _) as [[e2 res]| |]; simpl in Hcall |- *; [|done|unfold Params.CreateGas, Params.Create2Gas; lia].
      destruct Hcall as [Hpost Haddr].
      eapply wp_mono; [eapply (finish_create o f w r s' cgt cost rd m' st _ gas e2 res (create_err res))|done|done];
        try done; try lia.
      * eapply call_post_env; [|apply Hpost]; by split.
      * unfold Params.StackLimit. lia.
      * by repeat case_match.
Qed.

Lemma opCreate2_op opc :
  opc <> 0 -> opc <> Op.CALL ->
  op_ok opc (returning (writing (mems (dyn (op opCreate2 Params.Create2Gas 4 1027) gasCreate2) memoryCreate2))).
Proof.
  intros Hop Hnc. set (o := returning _). split.
  - intros st g [= <-] _ Hl. by apply (memory2_total 1 2 4).
  - done.
  - done.
  - intros n cs f w r k Hcs Hf Hb Hlen Hro Hpc Hk (ms & Hms & Hu & Hle). specialize (Hpc Hop).
    pose proof (fo_stack _ _ _ _ _ Hf) as Hst. simpl in Hlen.
    pose proof (fo_contract _ _ _ _ _ Hf) as [[? ?] _ _ _ _ _ _].
    assert (ro env (evm f) = false) as Hnro.
    { destruct (ro env (evm f)) eqn:E; [|done]. destruct (Hro E) as [[=] _]. }
    destruct (stack f) as [|v [|off [|sz [|salt st]]]] eqn:Es; simpl in Hlen; [lia..|]. decompose_Forall.
    apply (body_dynamic env net o gasCreate2 cs f w r k (charges 0 w)); try done.
    + rewrite Es. eapply gasCreate2_spec; try done; apply Hf.
    + by rewrite Hnro.
    + intros s' cgt w' cost rd m' Hr [-> _] Hcost Hm Hlm Hrd.
      destruct (memory2_region 1 2 _ off sz ms m' Hms) as [Hreg Hz]; try done; [lia|].
      simpl. unfold opCreate2. simpl. rewrite Es. simpl.
      destruct (GetCopy_spec m' off sz (mo_max _ Hm) Hreg) as (d & -> & Hd & _). simpl.
      assert (zlen d < 2 ^ 62) as Hd2.
      { pose proof (mo_max _ Hm). unfold maxMem in *. destruct Hreg as [? [?|?]]; lia. }
      set (gas := Gas (contract f) - cost - (Gas (contract f) - cost) / 64).
      assert (0 <= gas <= Gas (contract f) - cost) as Hgas by (apply (create_gas true); lia).
      pose proof (ck_Create2 _ _ n cs Hcs (evm (charged_frame f s' cgt cost rd m'))
        (contract_ref (contract (use_gas (charged_frame f s' cgt cost rd m') gas))) d gas v salt w r) as Hcall.
      assert (call_pre env net (evm (charged_frame f s' cgt cost rd m'))
        (contract_ref (contract (use_gas (charged_frame f s' cgt cost rd m') gas))) gas w r) as Hpre.
      { destruct (caller_pre f w r s' cgt cost rd m' gas Hf Hr ltac:(lia)). split; try done.
        unfold use_gas, UseGas. simpl. by destruct (_ <? _). }
      specialize (Hcall Hpre ltac:(done) ltac:(done) Hd2).
      destruct (Create2 cs _ _ _ _ _ _) as [[e2 res]| |]; simpl in Hcall |- *; [|done|unfold Params.CreateGas, Params.Create2Gas; lia].
      destruct Hcall as [Hpost Haddr].
      eapply wp_mono; [eapply (finish_create o f w r s' cgt cost rd m' st _ gas e2 res (create_err res))|done|done];
        try done; try lia.
      * eapply call_post_env; [|apply Hpost]; by split.
      * unfold Params.StackLimit. lia.
      * by repeat case_match.
Qed.
End OpsCall.
