(* ===== verification/VmTableOk.v ===== *)
(** * core/vm: the instruction sets are correct
    Every operation of every fork's instruction set (jump_table.go, eips.go)
    keeps the promise of [op_ok]. *)

From S2P Require Import Prelude MathUtil VmBase VmEnv VmGas VmInstr VmTable VmInterp VmAnalysis.
From S2P Require Import World VmInv VmMemory VmGasSpec VmStep VmOps VmOpsMem VmOpsCall.

Section TableOk.
Context {S : Type} `{HS : vmStateDB S} (env : Env) (net : bool) `{!StateRefines (keccak256 env) S}.
Hypothesis Henv : env_ok env.
Abbreviation op_ok := (op_ok env net).

(** SSTORE is the only entry that depends on the metering; it is treated apart. *)
Definition entry_ok (x : Z * operation S) : Prop := fst x <> Op.SSTORE -> op_ok (fst x) (snd x).

Ltac member := solve [repeat first [apply list_elem_of_here|apply list_elem_of_further]].

Ltac one_of L :=
  match goal with |- stack_instr _ _ ?x _ _ => exact (proj1 (Forall_forall _ _) L x ltac:(member)) end.

(** The operations that only use the stack. *)
Ltac entry :=
  intros _; cbn [fst snd]; apply stack_instr_op; [|done..];
  first [ one_of (arithmetic_instrs env net) | one_of (modular_instrs env net)
        | one_of (unary_instrs env net) | one_of (nullary_instrs env net Henv)
        | exact (opSignExtend_instr env net) | exact (opCallDataLoad_instr env net)
        | exact (opBlockhash_instr env net Henv) | exact (opPop_instr env net)
        | exact (opJumpdest_instr env net)
        | apply (makeDup_instr env net); lia | apply (makeSwap_instr env net); lia ].

Ltac entries := repeat apply Forall_cons_2; [..|by apply Forall_nil_2]; try entry; intros _; cbn [fst snd].

(** ** Frontier *)

Lemma arithmetic_ok : Forall entry_ok frontier_arithmetic.
Proof.
  entries.
  - by apply opStop_op.
  - by apply opExp_op with (per := 10).
Qed.

Lemma comparison_ok : Forall entry_ok frontier_comparison.
Proof. entries. Qed.

Lemma environment_ok : Forall entry_ok frontier_environment.
Proof.
  entries.
  - by apply opSha3_op.
  - apply (copy_op env net _ _ (fun f => Input (contract f))); try done.
    intros f w r Hf. apply (fo_contract _ _ _ _ _ Hf).
  - apply (copy_op env net _ _ (fun f => Code (contract f))); try done.
    intros f w r Hf. apply (fo_contract _ _ _ _ _ Hf).
  - by apply opExtCodeCopy_op.
Qed.

Lemma block_ok : Forall entry_ok frontier_block.
Proof. entries. Qed.

Lemma memory_ok : Forall entry_ok (frontier_memory env).
Proof.
  repeat apply Forall_cons_2; [..|by apply Forall_nil_2]; try entry.
  - intros _. by apply opMload_op.
  - intros _. by apply opMstore_op.
  - intros _. by apply opMstore8_op.
  - by intros [].
  - intros _. by apply opJump_op.
  - intros _. by apply opJumpi_op.
Qed.

Lemma push_low_ok : Forall entry_ok frontier_push_low.
Proof. entries; [by apply opPush1_op|by apply makePush_op..]. Qed.

Lemma push_high_ok : Forall entry_ok frontier_push_high.
Proof. entries; by apply makePush_op. Qed.

Lemma dup_ok : Forall entry_ok frontier_dup.
Proof. entries. Qed.

Lemma swap_ok : Forall entry_ok frontier_swap.
Proof. entries. Qed.

Lemma log_ok : Forall entry_ok frontier_log.
Proof.
  entries; [apply makeLog_op with (n := 0%nat)|apply makeLog_op with (n := 1%nat)|
    apply makeLog_op with (n := 2%nat)|apply makeLog_op with (n := 3%nat)|
    apply makeLog_op with (n := 4%nat)]; done || lia.
Qed.

Lemma system_ok : Forall entry_ok (frontier_system env).
Proof.
  entries.
  - by apply opCreate_op.
  - by apply opCall_op.
  - by apply opCallCode_op.
  - by apply return_op; auto.
  - by apply opSuicide_op.
Qed.
(** ** Tables *)

(** Every entry but SSTORE is correct. *)
Definition others_ok (jt : JumpTable S) : Prop :=
  map_Forall (fun k o => k <> Op.SSTORE -> op_ok k o) jt.

Lemma others_ok_list (l : list (Z * operation S)) : Forall entry_ok l -> others_ok (list_to_map l).
Proof.
  induction 1 as [|[k o] l Hk Hl IH]; simpl; [apply map_Forall_empty|]. by apply map_Forall_insert_2.
Qed.

Lemma others_ok_insert (jt : JumpTable S) k o : others_ok jt -> op_ok k o -> others_ok (<[k := o]> jt).
Proof. intros Hjt Ho. by apply map_Forall_insert_2. Qed.

Lemma others_ok_alter (jt : JumpTable S) k (g : operation S -> operation S) :
  others_ok jt -> (forall o, jt !! k = Some o -> k <> Op.SSTORE -> op_ok k (g o)) ->
  others_ok (alter g k jt).
Proof.
  intros Hjt Hk i o Hi. destruct (decide (i = k)) as [->|].
  - rewrite lookup_alter_eq in Hi. apply fmap_Some in Hi as (o' & Ho' & ->). by apply Hk.
  - rewrite lookup_alter_ne in Hi by done. by apply Hjt.
Qed.

(** A higher price keeps the promise. *)
Lemma op_ok_reprice k o g : op_ok k o -> constantGas o <= g -> op_ok k (set_constantGas o g).
Proof.
  intros Ho Hg. pose proof (ok_gas _ _ _ _ Ho). split; try apply Ho; [simpl; lia|].
  intros n cs f w r j Hcs Hf Hb Hlen Hro Hpc Hj Hms. simpl in *.
  pose proof (ok_body _ _ _ _ Ho n cs f w r j Hcs Hf) as Hbody.
  eapply wp_mono; [apply Hbody; try done; unfold potential in *; lia|lia|].
  intros [f'|f' ret er]; unfold potential in *.
  - intros (w' & r' & ? & ? & ? & Hp & ?). exists w', r'. unfold potential in *.
    split_and!; try done; lia.
  - intros (w' & r' & ? & ? & ? & ? & ? & ? & Hw). exists w', r'. unfold potential in *.
    split_and!; try done; try lia. intros He. destruct (Hw He). split; [done|lia].
Qed.

Lemma others_ok_reprice jt k g g0 :
  others_ok jt -> constantGas <$> jt !! k = Some g0 -> g0 <= g -> others_ok (reprice k g jt).
Proof.
  intros Hjt Hk Hg. apply others_ok_alter; [done|]. intros o Ho Hne. rewrite Ho in Hk. simplify_eq/=.
  apply op_ok_reprice; [by apply Hjt|done].
Qed.

Lemma frontier_ok : others_ok (newFrontierInstructionSet env).
Proof.
  apply others_ok_list. rewrite !Forall_app.
  split_and!; auto using arithmetic_ok, comparison_ok, environment_ok, block_ok, memory_ok, push_low_ok,
    push_high_ok, dup_ok, swap_ok, log_ok, system_ok.
Qed.

Lemma homestead_ok : others_ok (newHomesteadInstructionSet env).
Proof. apply others_ok_insert; [apply frontier_ok|]. by apply opDelegateCall_op. Qed.

Ltac price := vm_compute; reflexivity.

Lemma tangerine_ok : others_ok (newTangerineWhistleInstructionSet env).
Proof.
  unfold newTangerineWhistleInstructionSet.
  repeat (eapply others_ok_reprice; [|price|done]). apply homestead_ok.
Qed.

Lemma spurious_ok : others_ok (newSpuriousDragonInstructionSet env).
Proof.
  apply others_ok_alter; [apply tangerine_ok|]. intros o Ho _.
  assert (newTangerineWhistleInstructionSet env !! Op.EXP =
    Some (dyn (op opExp 0 (minStack 2 1) (maxStack 2 1)) gasExpFrontier)) as He by reflexivity.
  rewrite He in Ho. simplify_eq. by apply opExp_op with (per := 50).
Qed.

Lemma byzantium_ok : others_ok (newByzantiumInstructionSet env).
Proof.
  unfold newByzantiumInstructionSet.
  apply others_ok_insert; [apply others_ok_insert; [apply others_ok_insert; [apply others_ok_insert|]|]|].
  - apply spurious_ok.
  - by apply opStaticCall_op.
  - apply stack_instr_op; [|done..]. one_of (nullary_instrs env net Henv).
  - by apply opReturnDataCopy_op.
  - by apply return_op; auto.
Qed.

Lemma constantinople_ok : others_ok (newConstantinopleInstructionSet env).
Proof.
  unfold newConstantinopleInstructionSet.
  apply others_ok_insert; [|by apply opCreate2_op].
  apply others_ok_insert; [|apply stack_instr_op; [one_of (unary_instrs env net)|done..]].
  do 3 (apply others_ok_insert; [|apply stack_instr_op; [one_of (arithmetic_instrs env net)|done..]]).
  apply byzantium_ok.
Qed.

Lemma enable1344_ok jt : others_ok jt -> others_ok (enable1344 jt).
Proof.
  intros Hjt. apply others_ok_insert; [done|]. apply stack_instr_op; [|done..].
  one_of (nullary_instrs env net Henv).
Qed.

Lemma enable1884_ok jt g1 g2 g3 :
  others_ok jt ->
  constantGas <$> jt !! Op.BALANCE = Some g1 -> g1 <= Params.BalanceGasEIP1884 ->
  constantGas <$> jt !! Op.EXTCODEHASH = Some g2 -> g2 <= Params.ExtcodeHashGasEIP1884 ->
  constantGas <$> jt !! Op.SLOAD = Some g3 -> g3 <= Params.SloadGasEIP1884 ->
  others_ok (enable1884 jt).
Proof.
  intros Hjt H1 L1 H2 L2 H3 L3. unfold enable1884.
  apply others_ok_insert; [|apply stack_instr_op; [|done..]; one_of (nullary_instrs env net Henv)].
  eapply others_ok_reprice; [eapply others_ok_reprice; [eapply others_ok_reprice|..]|..]; try done;
    unfold reprice; rewrite !lookup_alter_ne by done; done.
Qed.

Lemma istanbul_ok : others_ok (newIstanbulInstructionSet env).
Proof.
  unfold newIstanbulInstructionSet. apply others_ok_alter; [|done].
  eapply enable1884_ok; [apply enable1344_ok, constantinople_ok|price|done|price|done|price|done].
Qed.
End TableOk.

(** ** The instruction set of the interpreter *)

(** Whether SSTORE is net-metered under the rules. *)
Definition net_metered (rules : Rules) : bool :=
  IsIstanbul rules || (IsConstantinople rules && negb (IsPetersburg rules)).

Section InstructionSet.
Context {S : Type} `{HS : vmStateDB S} (env : Env) `{!StateRefines (keccak256 env) S}.
Hypothesis Henv : env_ok env.
Abbreviation net := (net_metered (chainRules env)).

Lemma table_ok_sstore (jt : JumpTable S) (g : gasFunc S) :
  others_ok env net jt ->
  jt !! Op.SSTORE = Some (writing (dyn (op opSstore 0 (minStack 2 0) (maxStack 2 0)) g)) ->
  op_ok env net Op.SSTORE (writing (dyn (op opSstore 0 (minStack 2 0) (maxStack 2 0)) g)) ->
  table_ok env net jt.
Proof.
  intros Hjt Hs Hg k o Hk. destruct (decide (k = Op.SSTORE)) as [->|Hne]; [|by apply Hjt].
  rewrite Hs in Hk. by simplify_eq.
Qed.

Lemma legacy_sstore_ok :
  IsIstanbul (chainRules env) = false ->
  op_ok env net Op.SSTORE (writing (dyn (op opSstore 0 (minStack 2 0) (maxStack 2 0)) (gasSStore env))).
Proof.
  intros Hi. apply opSstore_op; [done..|]. intros c e m w r x y st Hr Hw Hb Hy.
  apply gasSStore_spec; try done. unfold net_metered. rewrite Hi. simpl.
  by destruct (IsConstantinople _), (IsPetersburg _).
Qed.

Lemma eip2200_sstore_ok :
  net = true ->
  op_ok env net Op.SSTORE (writing (dyn (op opSstore 0 (minStack 2 0) (maxStack 2 0)) gasSStoreEIP2200)).
Proof.
  intros Hn. apply opSstore_op; [done..|]. intros c e m w r x y st Hr Hw Hb Hy.
  by apply gasSStoreEIP2200_spec.
Qed.

Lemma instructionSet_ok : table_ok env net (instructionSet env).
Proof.
  unfold instructionSet.
  destruct (IsIstanbul (chainRules env)) eqn:Hi.
  { eapply table_ok_sstore; [by apply istanbul_ok|reflexivity|]. apply eip2200_sstore_ok.
    unfold net_metered. by rewrite Hi. }
  repeat case_match; (eapply table_ok_sstore; [|reflexivity|by apply legacy_sstore_ok]).
  - by apply constantinople_ok.
  - by apply byzantium_ok.
  - by apply spurious_ok.
  - by apply tangerine_ok.
  - by apply homestead_ok.
  - by apply frontier_ok.
Qed.
End InstructionSet.
