(* ===== verification/VmSafe.v ===== *)
(** * core/vm: safety of execution
    By induction on the fuel: the interpreter loop and the calls (interpreter.go,
    evm.go) never panic, use no more gas than they are given, keep the state
    well formed, leave the world of a static call unchanged, restore the world
    of a failed call, and end after at most one instruction per unit of gas. *)

From S2P Require Import Prelude MathUtil VmBase VmEnv VmGas VmInstr VmTable VmInterp VmAnalysis.
From S2P Require Import World VmInv VmMemory VmGasSpec VmStep VmOps VmOpsMem VmOpsCall VmTableOk.

Section Safe.
Context {S : Type} `{HS : vmStateDB S} (env : Env) (net : bool) `{!StateRefines (keccak256 env) S}.
Hypothesis Henv : env_ok env.
Implicit Types (w : World) (r : list (Z * World)) (f : Frame S) (e : EVM S).
Abbreviation frame_ok := (frame_ok env net).
Abbreviation call_pre := (call_pre env net).
Abbreviation call_post := (call_post env net).
Abbreviation world_ok := (world_ok (keccak256 env) net).
Abbreviation static := (static (keccak256 env)).
Abbreviation get := (W.get (keccak256 env)).

(** ** Value transfer *)

Definition W_Transfer w (sender recipient : Address) (v : Z) : World :=
  W.AddBalance (keccak256 env)
    (if negb (sender =? Params.NullAddress) then W.SubBalance (keccak256 env) w sender v else w)
    recipient v.

Lemma repr_Transfer s w r a b v : repr s w r -> repr (Transfer s a b v) (W_Transfer w a b v) r.
Proof.
  intros Hr. unfold Transfer, W_Transfer. apply repr_AddBalance.
  destruct (negb _); [by apply repr_SubBalance|done].
Qed.

Lemma CanTransfer_balance s w r a v :
  repr s w r -> CanTransfer s a v = true -> a <> Params.NullAddress -> v <= a_balance (get w a).
Proof.
  intros Hr Hc Hn. unfold CanTransfer in Hc. rewrite (repr_GetBalance _ _ _ _ Hr) in Hc.
  apply orb_true_iff in Hc as [Hc%Z.eqb_eq|Hc%Z.leb_le]; done.
Qed.

Lemma world_ok_Transfer w a b v :
  world_ok w -> 0 <= v -> (a <> Params.NullAddress -> v <= a_balance (get w a)) ->
  world_ok (W_Transfer w a b v).
Proof.
  intros Hw Hv Hb. apply world_ok_AddBalance; [done|].
  destruct (Z.eqb_spec a Params.NullAddress); simpl; [done|]. apply world_ok_SubBalance; auto.
Qed.

Lemma static_Transfer_0 w a b : static w (W_Transfer w a b 0).
Proof.
  unfold W_Transfer. etrans; [|apply static_AddBalance_0].
  destruct (negb _); [apply static_SubBalance_0|done].
Qed.

Lemma refund_Transfer w a b v : w_refund (W_Transfer w a b v) = w_refund w.
Proof. unfold W_Transfer. by destruct (negb _). Qed.

Lemma balance_put w a x b :
  a_balance x = a_balance (get w a) -> a_balance (get (W.put w a x) b) = a_balance (get w b).
Proof. intros Hx. rewrite get_put. by case_decide; subst. Qed.

(** The code of an account and its hash agree. *)
Lemma GetCode_ok s w r a :
  repr s w r -> world_ok w ->
  zlen (GetCode s a) < 2 ^ 62 /\
  (GetCode s a <> [] -> GetCodeHash s a <> 0 -> GetCodeHash s a = keccak256 env (GetCode s a)).
Proof.
  intros Hr Hw. rewrite (repr_GetCode _ _ _ _ Hr), (repr_GetCodeHash _ _ _ _ Hr).
  destruct (wo_accts _ _ _ Hw a) as [_ _ _ Hc Hl _]. split; [done|]. intros Hne _.
  specialize (Hc Hne). unfold W.GetCodeHash, W.get in *. by destruct (accts w !! a).
Qed.

(** ** Running code *)

Section WithLoop.
Variable n : nat.
Variable lp : @loopFunc S.
Hypothesis lp_ok : forall f w r, frame_ok f w r ->
  wp (Z.of_nat n <= Gas (contract f)) (lp f)
    (fun x => stop_post env net (Gas (contract f)) f w r (fst (fst x)) (snd (fst x)) (snd x)).

(** The contract a call sets up, before its input is set. *)
Record callee_ok (c : Contract) : Prop := {
  ce_gas : 0 <= Gas c;
  ce_self : 0 <= self c;
  ce_caller : 0 <= CallerAddress c;
  ce_value : 0 <= value c;
  ce_code : zlen (Code c) < 2 ^ 62;
  ce_hash : Code c <> [] -> CodeHash c <> 0 -> CodeHash c = keccak256 env (Code c);
  ce_analysis : analysis c = None }.

(** The frame [Run] starts with is valid. *)
Lemma start_frame_ok e c input w r :
  repr (StateDB e) w r -> world_ok w -> jumpdests_ok (keccak256 env) (jumpdests e) -> 0 <= depth e ->
  returnData e = RVal [] -> callee_ok c -> Code c <> [] -> potential w (Gas c) + 24000 < two64 ->
  zlen input < 2 ^ 62 ->
  frame_ok (mkFrame 0 e (set_Input c input) Memory.NewMemory Stack.newstack) w r.
Proof.
  intros Hr Hw Hj Hd Hrd [Hcg Hcs Hcc Hcv Hcl Hch Hca] Hne Hb Hi.
  pose proof (proj1 (wo_refund _ _ _ Hw)) as [? _].
  split; unfold db; simpl; rewrite ?Hrd; try done; try lia.
  split; simpl; try done; [unfold is_u64, potential in *; lia|].
  split; simpl; [|by rewrite Hca]. intros Hh. by apply Hch.
Qed.

(** What running a contract promises. *)
Definition run_post (isStatic : bool) e (gas : Z) w r e' (c' : Contract) (ret : bytes) (er : option vmError) : Prop :=
  exists w' r', repr (StateDB e') w' (r' ++ r) /\ same_env e e' /\
    jumpdests_ok (keccak256 env) (jumpdests e') /\ 0 <= Gas c' <= gas /\ zlen ret < 2 ^ 62 /\
    (isStatic = true -> static w w') /\
    (keeps er -> world_ok w' /\ potential w' (Gas c') <= potential w gas + 24000).

Lemma Run_ok e c input ro_ w r :
  repr (StateDB e) w r -> world_ok w -> jumpdests_ok (keccak256 env) (jumpdests e) -> 0 <= depth e ->
  callee_ok c -> potential w (Gas c) + 24000 < two64 -> zlen input < 2 ^ 62 ->
  wp (Z.of_nat n <= Gas c) (Run lp e c input ro_)
    (fun x => run_post ((readOnly e || ro_) && IsByzantium (chainRules env)) e (Gas c) w r
                (fst (fst (fst x))) (snd (fst (fst x))) (snd (fst x)) (snd x)).
Proof.
  intros Hr Hw Hj Hd Hc Hb Hi. unfold Run. pose proof (proj1 (wo_refund _ _ _ Hw)) as [? _].
  set (sets := ro_ && negb (readOnly (set_depth e (depth e + 1)))).
  set (e1 := set_returnData _ _).
  assert (readOnly e1 = readOnly e || ro_) as Hro1.
  { unfold e1, sets. simpl. by destruct ro_, (readOnly e) eqn:E; simpl; rewrite ?E. }
  assert (depth e1 = depth e + 1 /\ StateDB e1 = StateDB e /\ jumpdests e1 = jumpdests e /\
    returnData e1 = RVal []) as (Hd1 & Hs1 & Hj1 & Hrd1).
  { unfold e1. by destruct sets. }
  assert (forall e2, readOnly e2 = readOnly e1 -> depth e2 = depth e1 ->
    same_env e (set_depth (if sets then set_readOnly e2 false else e2)
      (depth (if sets then set_readOnly e2 false else e2) - 1))) as Hback.
  { intros e2 Hr2 Hd2. unfold sets in *. simpl. destruct ro_, (readOnly e) eqn:E; simpl in *; split; simpl; congruence || lia. }
  clearbody e1. destruct (Code c) as [|b0 code] eqn:Hcode.
  { simpl. exists w, []. split_and!; try (by destruct sets; simpl; rewrite ?Hs1, ?Hj1); try done.
    - by apply Hback.
    - apply Hc.
    - intros _. split; [done|]. unfold potential. lia. }
  assert (frame_ok (mkFrame 0 e1 (set_Input c input) Memory.NewMemory Stack.newstack) w r) as Hf.
  { apply start_frame_ok; rewrite ?Hs1, ?Hj1, ?Hd1, ?Hcode; try done; lia. }
  pose proof (lp_ok _ _ _ Hf) as Hlp. simpl in Hlp. destruct (lp _) as [[[f' ret] er]| |]; [|done|done].
  simpl in Hlp |- *. destruct Hlp as (w' & r' & Hr' & [Hro' Hd'] & Hj' & Hg' & Hret & Hst & Hok).
  simpl in *. exists w', r'. split_and!; try done; try lia.
  - by destruct sets.
  - by apply Hback.
  - by destruct sets.
  - intros Hs. apply Hst. unfold ro. simpl. by rewrite Hro1.
Qed.

Lemma run_ok e c input ro_ w r :
  repr (StateDB e) w r -> world_ok w -> jumpdests_ok (keccak256 env) (jumpdests e) -> 0 <= depth e ->
  callee_ok c -> potential w (Gas c) + 24000 < two64 -> zlen input < 2 ^ 62 ->
  wp (Z.of_nat n <= Gas c) (run env lp e c input ro_)
    (fun x => run_post ((readOnly e || ro_) && IsByzantium (chainRules env)) e (Gas c) w r
                (fst (fst (fst x))) (snd (fst (fst x))) (ret_bytes (snd (fst x))) (snd x)).
Proof.
  intros Hr Hw Hj Hd Hc Hb Hi. unfold run. destruct (CodeAddr c ≫= _) as [p|] eqn:Hp.
  - apply bind_Some in Hp as (a & _ & Hp). pose proof (proj1 (wo_refund _ _ _ Hw)) as [? _].
    destruct (eo_precompiles _ Henv a p Hp input Hi) as (g & Hg & Hg0 & Hrun).
    pose proof (ce_gas _ Hc). unfold RunPrecompiledContract, UseGas. rewrite Hg. simpl.
    destruct (Z.ltb_spec (Gas c) g); simpl.
    + exists w, []. split_and!; try done; try lia. intros _. split; [done|]. unfold potential. lia.
    + destruct Hrun as (b & er & -> & Hb'); [unfold potential in *; lia|]. simpl.
      exists w, []. split_and!; try done; simpl; try lia. intros _. split; [done|]. unfold potential. lia.
  - eapply wp_bind; [by apply Run_ok|]. intros [[[e' c'] ret] er] Hpost. exact Hpost.
Qed.

(** ** Calls *)

(** A call that does not run code. *)
Lemma give_back_post e gas w r isStatic exact er r' e' :
  repr (StateDB e') w (r' ++ r) -> world_ok w -> jumpdests_ok (keccak256 env) (jumpdests e') ->
  same_env e e' -> 0 <= gas -> call_post e gas w r isStatic exact e' gas er.
Proof.
  intros. exists w, r'. split_and!; try done; unfold potential; lia.
Qed.

(** The code runs in the world [w2] the call has prepared, and on an error the
    state goes back to the snapshot of [w]. *)
Lemma run_settle e e1 c input ro_ w w2 r id isStatic :
  repr (StateDB e1) w2 ((id, w) :: r) -> world_ok w -> world_ok w2 -> w_refund w2 = w_refund w ->
  jumpdests_ok (keccak256 env) (jumpdests e1) -> same_env e e1 -> 0 <= depth e ->
  callee_ok c -> potential w (Gas c) + 24000 < two64 -> zlen input < 2 ^ 62 ->
  (isStatic -> (readOnly e || ro_) && IsByzantium (chainRules env) = true /\ static w w2) ->
  wp (Z.of_nat n <= Gas c)
    (let! '(e, c, r, err) := run env lp e1 c input ro_ in settle id e c r err)
    (fun x => call_post e (Gas c) w r isStatic True (fst x) (leftOverGas (snd x)) (err (snd x))).
Proof.
  intros Hr Hw Hw2 Href Hj [Hro Hdep] Hd Hc Hb Hi Hs. unfold potential in Hb.
  eapply wp_bind; [apply (run_ok e1 c input ro_ w2 ((id, w) :: r)); try done; unfold potential; lia|].
  intros [[[e' c'] rt] er] (w' & r' & Hr' & [Hro' Hd'] & Hj' & Hg' & Hret & Hst & Hok). simpl in *.
  rewrite Hro in Hst. unfold settle. destruct er as [er|].
  - destruct (repr_Revert _ _ _ _ _ _ Hr') as (s3 & -> & Hr3). simpl.
    exists w, []. split_and!; try done; simpl.
    + split; simpl; congruence.
    + destruct (bool_decide _); simpl; [lia|]. unfold UseGas. rewrite Z.ltb_irrefl. simpl. lia.
    + destruct (bool_decide _); simpl; [lia|]. unfold UseGas. rewrite Z.ltb_irrefl. simpl. lia.
    + unfold potential, UseGas. rewrite Z.ltb_irrefl. destruct (bool_decide _); simpl; lia.
  - destruct (Hok (or_introl eq_refl)) as [Hw' Hpot]. simpl. exists w', (r' ++ [(id, w)]). rewrite <-app_assoc. simpl.
    split_and!; try done; try lia; [split; congruence| |].
    + unfold potential in *. lia.
    + intros Hs'. destruct (Hs Hs'). etrans; [done|auto].
Qed.

Lemma run_settle_from e caller s c input ro_ w w2 r id isStatic :
  call_pre e caller (Gas c) w r ->
  repr s w2 ((id, w) :: r) -> world_ok w2 -> w_refund w2 = w_refund w ->
  callee_ok c -> zlen input < 2 ^ 62 ->
  (isStatic -> (readOnly e || ro_) && IsByzantium (chainRules env) = true /\ static w w2) ->
  wp (Z.of_nat n <= Gas c)
    (let! '(e, c, r, err) := run env lp (enter caller (set_StateDB e s)) c input ro_ in settle id e c r err)
    (fun x => call_post e (Gas c) w r isStatic True (fst x) (leftOverGas (snd x)) (err (snd x))).
Proof.
  intros [Hr Hw Hj Hd Hg Hb Hc] Hs Hw2 Href Hce Hi Hst.
  assert (jumpdests_ok (keccak256 env) (jumpdests (enter caller (set_StateDB e s)))).
  { destruct caller; simpl; [|done]. intros h b. by rewrite lookup_empty. }
  apply (run_settle _ _ _ _ _ _ w2); try done; by destruct caller.
Qed.

Lemma ref_ok_Address c : ref_ok c -> 0 <= ref_Address c.
Proof. destruct c; simpl; lia. Qed.

(** A contract with the code of an account. *)
Lemma callee_ok_code caller a v gas s w r addr ca :
  ref_ok caller -> 0 <= a -> 0 <= v -> 0 <= gas -> repr s w r -> world_ok w ->
  callee_ok (SetCallCode (NewContract caller a v gas) ca (GetCodeHash s addr) (GetCode s addr)).
Proof.
  intros Hc%ref_ok_Address Ha Hv Hg Hr Hw. destruct (GetCode_ok _ _ _ addr Hr Hw). by split.
Qed.

Ltac no_code := by apply (give_back_post _ _ _ _ _ _ _ []).

Lemma EVM_Call_ok e caller addr input gas v w r :
  call_pre e caller gas w r -> 0 <= addr -> 0 <= v -> zlen input < 2 ^ 62 ->
  wp (Z.of_nat n <= gas) (EVM_Call env lp e caller addr input gas v)
    (fun x => call_post e gas w r (ro env e = true /\ v = 0) True (fst x) (leftOverGas (snd x)) (err (snd x))).
Proof.
  intros Hpre Ha Hv Hi. destruct (Hpre) as [Hr Hw Hj Hd Hg Hb Hc]. unfold EVM_Call, give_back.
  destruct (_ && _); [no_code|]. destruct (Params.CallCreateDepth <? _); [no_code|].
  destruct (CanTransfer _ _ _) eqn:Hct; simpl; [|no_code].
  pose proof (repr_Snapshot _ _ _ Hr) as Hr1. destruct (Snapshot (StateDB e)) as [s1 id]. simpl in Hr1.
  destruct (_ && _ && _ && _); [by apply (give_back_post _ _ _ _ _ _ _ [(id, w)])|].
  set (s2 := if negb (Exist s1 addr) then CreateAccount s1 addr else s1).
  assert (exists w2, repr s2 w2 ((id, w) :: r) /\ world_ok w2 /\ static w w2) as (w2 & Hr2 & Hw2 & Hs2).
  { unfold s2. destruct (Exist s1 addr) eqn:He; simpl; [by exists w|].
    rewrite (repr_Exist _ _ _ _ Hr1) in He. exists (W.CreateAccount (keccak256 env) w addr).
    split_and!; [by apply repr_CreateAccount| |by apply static_CreateAccount].
    apply world_ok_CreateAccount; [apply Henv|done]. }
  clearbody s2. apply (repr_Transfer _ _ _ (ref_Address caller) addr v) in Hr2.
  assert (world_ok (W_Transfer w2 (ref_Address caller) addr v)) as Hw3.
  { apply world_ok_Transfer; [done..|]. intros Hn. rewrite (proj1 Hs2). by apply (CanTransfer_balance _ _ _ _ _ Hr). }
  apply (run_settle_from e caller _ (SetCallCode (NewContract caller addr v gas) _ _ _) input false w
           (W_Transfer w2 (ref_Address caller) addr v)); try done.
  - rewrite refund_Transfer. apply Hs2.
  - eapply callee_ok_code; done.
  - unfold ro. intros [Hro ->]. rewrite orb_false_r. split; [done|]. etrans; [done|apply static_Transfer_0].
Qed.

Lemma EVM_CallCode_ok e caller addr input gas v w r :
  call_pre e caller gas w r -> 0 <= addr -> 0 <= v -> zlen input < 2 ^ 62 ->
  wp (Z.of_nat n <= gas) (EVM_CallCode env lp e caller addr input gas v)
    (fun x => call_post e gas w r (ro env e = true) True (fst x) (leftOverGas (snd x)) (err (snd x))).
Proof.
  intros Hpre Ha Hv Hi. destruct (Hpre) as [Hr Hw Hj Hd Hg Hb Hc]. unfold EVM_CallCode, give_back.
  destruct (_ && _); [no_code|]. destruct (Params.CallCreateDepth <? _); [no_code|].
  destruct (CanTransfer _ _ _); simpl; [|no_code].
  pose proof (repr_Snapshot _ _ _ Hr) as Hr1. destruct (Snapshot (StateDB e)) as [s1 id]. simpl in Hr1.
  apply (run_settle_from e caller s1 (SetCallCode (NewContract caller (ref_Address caller) v gas) _ _ _) input false w w);
    try done.
  - eapply callee_ok_code; try done. by apply ref_ok_Address.
  - unfold ro. by rewrite orb_false_r.
Qed.

Lemma EVM_DelegateCall_ok e caller addr input gas w r :
  call_pre e caller gas w r -> contract_caller caller -> 0 <= addr -> zlen input < 2 ^ 62 ->
  wp (Z.of_nat n <= gas) (EVM_DelegateCall env lp e caller addr input gas)
    (fun x => call_post e gas w r (ro env e = true) True (fst x) (leftOverGas (snd x)) (err (snd x))).
Proof.
  intros Hpre Hcc Ha Hi. destruct (Hpre) as [Hr Hw Hj Hd Hg Hb Hc]. unfold EVM_DelegateCall, give_back.
  destruct (_ && _); [no_code|]. destruct (Params.CallCreateDepth <? _); [no_code|].
  pose proof (repr_Snapshot _ _ _ Hr) as Hr1. destruct (Snapshot (StateDB e)) as [s1 id]. simpl in Hr1.
  destruct caller as [|ca cb cv]; [done|]. simpl in Hc.
  destruct (GetCode_ok _ _ _ addr Hr1 Hw) as [Hl Hh]. unfold AsDelegate, NewContract. simpl obind.
  match goal with |- context [run _ _ _ ?c _ _] =>
    apply (run_settle_from e (ContractPtr ca cb cv) s1 c input false w w); try done end.
  - split; simpl; try done; apply Hc.
  - unfold ro. by rewrite orb_false_r.
Qed.

Lemma EVM_StaticCall_ok e caller addr input gas w r :
  call_pre e caller gas w r -> 0 <= addr -> zlen input < 2 ^ 62 ->
  wp (Z.of_nat n <= gas) (EVM_StaticCall env lp e caller addr input gas)
    (fun x => call_post e gas w r (IsByzantium (chainRules env) = true) True
                (fst x) (leftOverGas (snd x)) (err (snd x))).
Proof.
  intros Hpre Ha Hi. destruct (Hpre) as [Hr Hw Hj Hd Hg Hb Hc]. unfold EVM_StaticCall, give_back.
  destruct (_ && _); [no_code|]. destruct (Params.CallCreateDepth <? _); [no_code|].
  pose proof (repr_Snapshot _ _ _ Hr) as Hr1. destruct (Snapshot (StateDB e)) as [s1 id]. simpl in Hr1.
  replace (set_StateDB (enter caller (set_StateDB e s1)) _)
    with (enter caller (set_StateDB e (AddBalance s1 addr 0))) by by destruct caller.
  apply (run_settle_from e caller _ (SetCallCode (NewContract caller addr 0 gas) _ _ _) input true w
           (W.AddBalance (keccak256 env) w addr 0)); try done.
  - by apply repr_AddBalance.
  - by apply world_ok_AddBalance.
  - eapply callee_ok_code; done.
  - rewrite orb_true_r. intros Hbz. split; [done|]. apply static_AddBalance_0.
Qed.

(** ** Contract creation *)

(** The outcome of [create] after the code has run: the new code is stored,
    or the state goes back to the snapshot of [w1], or it is kept.  From
    Homestead on it is never kept after an error. *)
Lemma settle_create_ok e e1 gas w1 w2 r id address e' c' ret er :
  run_post false e1 gas w2 ((id, w1) :: r) e' c' ret er -> same_env e e1 ->
  world_ok w1 -> w_refund w2 = w_refund w1 -> 0 <= address ->
  wp False (settle_create env id address e' c' ret er)
    (fun x => call_post e gas w1 r False (IsHomestead (chainRules env) = true)
                (fst x) (create_leftOverGas (snd x)) (create_err (snd x)) /\
              0 <= contractAddr (snd x)).
Proof.
  intros (w' & r' & Hr' & [Hro' Hd'] & Hj' & Hg' & Hret & _ & Hok) [Hro Hd] Hw1 Href2 Ha.
  set (Q := fun x : EVM S * CreateResult => _).
  destruct (repr_Revert _ _ _ _ _ _ Hr') as (s3 & Hrev & Hr3).
  assert (forall g er', 0 <= g <= Gas c' -> Q (set_StateDB e' s3, mkCreateResult ret address g er')) as Hback.
  { intros g er' Hg. split; [|done]. exists w1, []. split_and!; try done; simpl; try lia;
      [split; simpl; congruence|unfold potential; lia]. }
  assert (forall g er', keeps er -> IsHomestead (chainRules env) = false -> 0 <= g <= Gas c' ->
    Q (e', mkCreateResult ret address g er')) as Hkeep.
  { intros g er' Hk Hh Hg. split; [|done]. destruct (Hok Hk). exists w', (r' ++ [(id, w1)]).
    rewrite <-app_assoc, Hh.
    split_and!; try done; simpl; try lia; [split; simpl; congruence|unfold potential in *; lia]. }
  assert (forall g, er = None -> 0 <= g <= Gas c' ->
    Q (set_StateDB e' (SetCode (StateDB e') address ret), mkCreateResult ret address g None)) as Hstore.
  { intros g -> Hg. split; [|done]. destruct (Hok (or_introl eq_refl)) as [Hw' Hp].
    exists (W.SetCode (keccak256 env) w' address ret), (r' ++ [(id, w1)]). rewrite <-app_assoc.
    split_and!; try done; simpl; try lia; [by apply repr_SetCode|split; simpl; congruence| |].
    - apply world_ok_SetCode; [apply Henv|done..].
    - unfold potential in *. simpl. lia. }
  clearbody Q. pose proof (u64_range (zlen ret * Params.CreateDataGas)) as [? _].
  unfold settle_create, UseGas. set (big := IsEIP158 _ && _).
  destruct er as [er|]; destruct big; simpl.
  - rewrite Hrev. simpl. rewrite Z.ltb_irrefl. destruct (bool_decide (Some er <> Some errExecutionReverted)); apply Hback; simpl; lia.
  - destruct (IsHomestead _) eqn:Hh; simpl; [|destruct (bool_decide (_ <> Some ErrCodeStoreOutOfGas)) eqn:Hc; simpl].
    1,2: rewrite Hrev; simpl; rewrite Z.ltb_irrefl; destruct (bool_decide (Some er <> Some errExecutionReverted)); apply Hback; simpl; lia.
    apply bool_decide_eq_false in Hc. apply Hkeep; [|done|lia]. right. by apply dec_stable.
  - rewrite Hrev. simpl. rewrite Z.ltb_irrefl. apply Hback; simpl; lia.
  - destruct (Z.ltb_spec (Gas c') (u64 (zlen ret * Params.CreateDataGas))); simpl; [|apply Hstore; [done|lia]].
    destruct (IsHomestead _); simpl.
    + rewrite Hrev. simpl. rewrite Z.ltb_irrefl. apply Hback; simpl; lia.
    + apply Hkeep; [by left|done|lia].
Qed.

(** The world [create] runs the code in: the caller's nonce is consumed. *)
Definition nonce_used w (caller : Address) : World :=
  W.SetNonce (keccak256 env) w caller (u64 (a_nonce (get w caller) + 1)).

(** The account of the new contract is created with its predecessor's balance. *)
Lemma new_contract_world s w r address :
  repr s w r -> world_ok w ->
  exists w3, repr (if IsEIP158 (chainRules env) then SetNonce (CreateAccount s address) address 1
                   else CreateAccount s address) w3 r /\
    world_ok w3 /\ w_refund w3 = w_refund w /\ forall a, a_balance (get w3 a) = a_balance (get w a).
Proof.
  intros Hr Hw. set (w2 := W.CreateAccount (keccak256 env) w address).
  assert (world_ok w2) by (apply world_ok_CreateAccount; [apply Henv|done]).
  apply (repr_CreateAccount _ _ _ address) in Hr.
  assert (forall a, a_balance (get w2 a) = a_balance (get w a)) as Hbal2.
  { intros a. by apply balance_put. }
  destruct (IsEIP158 _); [|by exists w2].
  exists (W.SetNonce (keccak256 env) w2 address 1). split_and!; try done.
  - by apply repr_SetNonce.
  - by apply world_ok_SetNonce.
  - intros a. rewrite <-Hbal2. by apply balance_put.
Qed.

Definition create_post e (caller : ContractRef) (gas : Z) w r (x : EVM S * CreateResult) : Prop :=
  exists w0, (w0 = w \/ w0 = nonce_used w (ref_Address caller)) /\
    call_post e gas w0 r False (IsHomestead (chainRules env) = true)
      (fst x) (create_leftOverGas (snd x)) (create_err (snd x)) /\ 0 <= contractAddr (snd x).

Lemma create_ok e caller code hash gas v address w r :
  call_pre e caller gas w r -> 0 <= v -> 0 <= address -> zlen code < 2 ^ 62 ->
  (hash <> 0 -> hash = keccak256 env code) ->
  wp (Z.of_nat n <= gas) (create env lp e caller code hash gas v address) (create_post e caller gas w r).
Proof.
  intros Hpre Hv Ha Hl Hh. destruct (Hpre) as [Hr Hw Hj Hd Hg Hb Hc]. unfold create.
  destruct (Params.CallCreateDepth <? _); [exists w; split_and!; [by left|no_code|done]|].
  destruct (CanTransfer _ _ _) eqn:Hct; simpl; [|exists w; split_and!; [by left|no_code|done]].
  eapply (wp_mono (Z.of_nat n <= gas)); [|done|intros x Hx; exists (nonce_used w (ref_Address caller)); split; [by right|exact Hx]].
  rewrite (repr_GetNonce _ _ _ _ Hr). unfold nonce_used.
  set (nn := u64 (a_nonce (get w (ref_Address caller)) + 1)).
  apply (repr_SetNonce _ _ _ (ref_Address caller) nn) in Hr as Hr1.
  set (w1 := W.SetNonce (keccak256 env) w (ref_Address caller) nn) in *.
  assert (world_ok w1) as Hw1 by (apply world_ok_SetNonce; [apply u64_range|done]).
  assert (w_refund w1 = w_refund w) as Href1 by done.
  destruct (_ || _); simpl.
  { split; [|done]. exists w1, []. split_and!; try done; unfold potential; simpl; lia. }
  assert (forall a, a_balance (get w1 a) = a_balance (get w a)) as Hbal1.
  { intros a. apply balance_put. done. }
  clearbody w1. pose proof (repr_Snapshot _ _ _ Hr1) as Hr2. destruct (Snapshot _) as [s2 id]. simpl in Hr2.
  destruct (new_contract_world _ _ _ address Hr2 Hw1) as (w3 & Hr3 & Hw3 & Href3 & Hbal).
  set (s3 := if IsEIP158 _ then SetNonce _ address 1 else _) in *. clearbody s3.
  apply (repr_Transfer _ _ _ (ref_Address caller) address v) in Hr3.
  assert (world_ok (W_Transfer w3 (ref_Address caller) address v)) as Hw4.
  { apply world_ok_Transfer; [done..|]. intros Hn. rewrite Hbal, Hbal1. by apply (CanTransfer_balance _ _ _ _ _ Hr). }
  set (e4 := enter caller _).
  assert (StateDB e4 = Transfer s3 (ref_Address caller) address v /\ same_env e e4 /\
    jumpdests_ok (keccak256 env) (jumpdests e4)) as (Hs4 & He4 & Hj4).
  { unfold e4. destruct caller; simpl; split_and!; try done. }
  clearbody e4. rewrite <-Hs4 in Hr3. destruct (_ && _); simpl.
  { split; [|done]. eexists _, [(id, w1)]. split_and!; try done. unfold potential. rewrite refund_Transfer. lia. }
  set (c := SetCallCode _ _ _ _). assert (callee_ok c) by (apply ref_ok_Address in Hc; by split).
  eapply wp_bind.
  - apply (run_ok e4 c [] false _ _ Hr3); try done; [by rewrite (se_depth _ _ He4)|].
    unfold potential in *. rewrite refund_Transfer. simpl. lia.
  - intros [[[e5 c5] rt] er] Hpost.
    eapply wp_mono; [apply (settle_create_ok e e4 gas w1 (W_Transfer w3 (ref_Address caller) address v) r);
      try done|done|done].
    + destruct Hpost as (w' & r' & ? & ? & ? & ? & ? & _ & ?). exists w', r'. simpl in *. split_and!; try done; lia.
    + by rewrite refund_Transfer.
Qed.

Lemma create_post_call e caller gas w r x :
  create_post e caller gas w r x ->
  call_post e gas w r False False (fst x) (create_leftOverGas (snd x)) (create_err (snd x)) /\
  0 <= contractAddr (snd x).
Proof.
  intros (w0 & Hw0 & (w' & r' & H1 & H2 & H3 & H4 & H5 & H6 & _ & _) & Ha). split; [|done].
  exists w', r'. split_and!; try done; try lia.
  replace (potential w gas) with (potential w0 gas) by by destruct Hw0 as [->| ->]. done.
Qed.

Lemma EVM_Create_ok e caller code gas v w r :
  call_pre e caller gas w r -> 0 <= v -> zlen code < 2 ^ 62 ->
  wp (Z.of_nat n <= gas) (EVM_Create env lp e caller code gas v) (create_post e caller gas w r).
Proof. intros. apply create_ok; try done. apply Henv. Qed.

Lemma EVM_Create2_ok e caller code gas v salt w r :
  call_pre e caller gas w r -> 0 <= v -> zlen code < 2 ^ 62 ->
  wp (Z.of_nat n <= gas) (EVM_Create2 env lp e caller code gas v salt) (create_post e caller gas w r).
Proof. intros. apply create_ok; try done. apply Henv. Qed.

Lemma calls_ok_loop : calls_ok env net n (calls env lp).
Proof.
  split.
  - apply EVM_Call_ok.
  - apply EVM_CallCode_ok.
  - apply EVM_DelegateCall_ok.
  - apply EVM_StaticCall_ok.
  - intros. eapply wp_mono; [by apply EVM_Create_ok|done|apply create_post_call].
  - intros. eapply wp_mono; [by apply EVM_Create2_ok|done|apply create_post_call].
Qed.
End WithLoop.

(** ** The loop *)

Lemma loop_ok jt n f w r :
  table_ok env net jt -> frame_ok f w r ->
  wp (Z.of_nat n <= Gas (contract f)) (loop env jt n f)
    (fun x => stop_post env net (Gas (contract f)) f w r (fst (fst x)) (snd (fst x)) (snd x)).
Proof.
  intros Hjt. revert f w r. induction n as [|n IH]; intros f w r Hf.
  { simpl. pose proof (fo_contract _ _ _ _ _ Hf) as [[? ?] _ _ _ _ _ _]. lia. }
  simpl loop. eapply wp_bind.
  - eapply wp_mono; [apply (step_ok env net jt n); try done; by apply calls_ok_loop|lia|done].
  - intros [f'|f' ret er] Hp; [|done].
    destruct Hp as (w1 & r1 & Hf1 & He1 & Hg1 & Hp1 & Hs1).
    eapply wp_mono; [by apply (IH f' w1 (r1 ++ r))|lia|]. intros [[f2 ret] er].
    intros (w2 & r2 & Hr2 & He2 & Hj2 & Hg2 & Hl2 & Hs2 & Hok2). exists w2, (r2 ++ r1). rewrite <-app_assoc.
    split_and!; try done; try lia.
    + by eapply same_env_trans.
    + intros Hro. etrans; [by apply Hs1|]. apply Hs2. unfold ro in *. by rewrite (se_readOnly _ _ He1).
    + intros Hk. destruct (Hok2 Hk). split; [done|]. lia.
Qed.
End Safe.
