(* ===== verification/VmFuel.v ===== *)
(** * core/vm: the fuel of the interpreter only bounds the recursion
    A run that ends with some fuel ends with the same result with any larger
    fuel: the result of an execution does not depend on the bound chosen. *)

From S2P Require Import Prelude MathUtil VmBase VmEnv VmGas VmInstr VmTable VmInterp.

(** [m'] is [m], or [m] ran out of fuel. *)
Definition le_out {A} (m m' : outcome A) : Prop := m = OutOfFuel \/ m' = m.

#[export] Instance le_out_preorder {A} : PreOrder (@le_out A).
Proof. split; [by right|]. intros x y z [-> | ->] [-> | ->]; by (left + right). Qed.

Lemma le_out_bind {A B} (m m' : outcome A) (k k' : A -> outcome B) :
  le_out m m' -> (forall a, le_out (k a) (k' a)) -> le_out (obind m k) (obind m' k').
Proof. intros [->| ->] Hk; [by left|]. destruct m; simpl; [apply Hk|by right..]. Qed.

Section Fuel.
Context {S : Type} `{vmStateDB S} (env : Env).

Record calls_le (cs cs' : Calls S) : Prop := {
  le_Call e c a i g v : le_out (Call cs e c a i g v) (Call cs' e c a i g v);
  le_CallCode e c a i g v : le_out (CallCode cs e c a i g v) (CallCode cs' e c a i g v);
  le_DelegateCall e c a i g : le_out (DelegateCall cs e c a i g) (DelegateCall cs' e c a i g);
  le_StaticCall e c a i g : le_out (StaticCall cs e c a i g) (StaticCall cs' e c a i g);
  le_Create e c i g v : le_out (Create cs e c i g v) (Create cs' e c i g v);
  le_Create2 e c i g v s : le_out (Create2 cs e c i g v s) (Create2 cs' e c i g v s) }.

(** ** Operations *)

Definition exec_mono (x : executionFunc S) : Prop :=
  forall cs cs' f, calls_le cs cs' -> le_out (x env cs f) (x env cs' f).

Definition table_mono (jt : JumpTable S) : Prop := map_Forall (fun _ o => exec_mono (execute o)) jt.

Ltac mono_bind :=
  lazymatch goal with
  | |- le_out (obind ?m _) (obind ?m _) => apply le_out_bind; [done|intros []]
  | |- le_out (obind _ _) (obind _ _) => apply le_out_bind; [|intros []; done]
  end.

Ltac mono x := intros cs cs' f [Hc Hcc Hdc Hsc Hcr Hc2]; unfold x; cbv zeta; repeat mono_bind; auto.

Lemma opCall_mono : exec_mono opCall.
Proof. mono @opCall. Qed.

Lemma opCallCode_mono : exec_mono opCallCode.
Proof. mono @opCallCode. Qed.

Lemma opDelegateCall_mono : exec_mono opDelegateCall.
Proof. mono @opDelegateCall. Qed.

Lemma opStaticCall_mono : exec_mono opStaticCall.
Proof. mono @opStaticCall. Qed.

Lemma opCreate_mono : exec_mono opCreate.
Proof. mono @opCreate. Qed.

Lemma opCreate2_mono : exec_mono opCreate2.
Proof. mono @opCreate2. Qed.

#[local] Hint Resolve opCall_mono opCallCode_mono opDelegateCall_mono opStaticCall_mono
  opCreate_mono opCreate2_mono : plasma.

(** Every other instruction ignores the calls. *)
Ltac entry := solve [auto with plasma | intros cs cs' f _; right; reflexivity].

Lemma table_mono_list (l : list (Z * operation S)) :
  Forall (fun x => exec_mono (execute (snd x))) l -> table_mono (list_to_map l).
Proof.
  induction 1 as [|[k o] l Hk Hl IH]; simpl; [apply map_Forall_empty|]. by apply map_Forall_insert_2.
Qed.

Lemma table_mono_insert (jt : JumpTable S) k o :
  table_mono jt -> exec_mono (execute o) -> table_mono (<[k := o]> jt).
Proof. intros. by apply map_Forall_insert_2. Qed.

Lemma table_mono_alter (jt : JumpTable S) k (g : operation S -> operation S) :
  table_mono jt -> (forall o, execute (g o) = execute o) -> table_mono (alter g k jt).
Proof.
  intros Hjt Hg i o Hi. destruct (decide (i = k)) as [->|].
  - rewrite lookup_alter_eq in Hi. apply fmap_Some in Hi as (o' & Ho' & ->). rewrite Hg. by apply Hjt in Ho'.
  - rewrite lookup_alter_ne in Hi by done. by apply Hjt in Hi.
Qed.

Lemma frontier_mono : table_mono (newFrontierInstructionSet env).
Proof.
  apply table_mono_list. rewrite !Forall_app.
  split_and!; (repeat apply Forall_cons_2; [..|by apply Forall_nil_2]); entry.
Qed.

Lemma instructionSet_mono : table_mono (instructionSet env).
Proof.
  assert (table_mono (newHomesteadInstructionSet env)) as Hh.
  { apply table_mono_insert; [apply frontier_mono|entry]. }
  assert (table_mono (newTangerineWhistleInstructionSet env)) as Ht.
  { unfold newTangerineWhistleInstructionSet, reprice. do 7 (apply table_mono_alter; [|done]). done. }
  assert (table_mono (newSpuriousDragonInstructionSet env)) as Hs by by apply table_mono_alter.
  assert (table_mono (newByzantiumInstructionSet env)) as Hb.
  { unfold newByzantiumInstructionSet. do 4 (apply table_mono_insert; [|entry]). done. }
  assert (table_mono (newConstantinopleInstructionSet env)) as Hc.
  { unfold newConstantinopleInstructionSet. do 5 (apply table_mono_insert; [|entry]). done. }
  unfold instructionSet. repeat case_match; try done; [|apply frontier_mono].
  unfold newIstanbulInstructionSet, enable1344, enable1884, enable2200, reprice.
  apply table_mono_alter; [|done]. apply table_mono_insert; [|entry].
  do 3 (apply table_mono_alter; [|done]). by apply table_mono_insert; [|entry].
Qed.

(** ** The interpreter *)

Lemma step_mono jt cs cs' f :
  table_mono jt -> calls_le cs cs' -> le_out (step env jt cs f) (step env jt cs' f).
Proof.
  intros Hjt Hcs. unfold step. destruct (jt !! _) as [o|] eqn:Ho; [|done]. apply Hjt in Ho.
  destruct (_ <? _); [done|]. destruct (_ <? _); [done|].
  apply le_out_bind; [done|intros []]; [done|].
  destruct (UseGas _ _) as [c []]; simpl; [|done].
  apply le_out_bind; [done|intros [size|]]; [|done].
  apply le_out_bind; [done|intros [f2 []]]; simpl; [|done].
  apply le_out_bind; [by apply Ho|]. by intros [[]].
Qed.

Section WithLoops.
Variables lp lp' : @loopFunc S.
Hypothesis lp_le : forall f, le_out (lp f) (lp' f).

Lemma run_mono e c input ro_ : le_out (run env lp e c input ro_) (run env lp' e c input ro_).
Proof.
  unfold run. destruct (_ ≫= _); [done|]. apply le_out_bind; [|by intros [[[]]]].
  unfold Run. apply le_out_bind; [|by intros [[[]]]]. destruct (Code c); [done|].
  apply le_out_bind; [apply lp_le|by intros [[]]].
Qed.

Lemma calls_mono : calls_le (calls env lp) (calls env lp').
Proof.
  assert (forall e c input ro_ {A} (k : _ -> outcome A),
    le_out (obind (run env lp e c input ro_) k) (obind (run env lp' e c input ro_) k)) as Hrun.
  { intros. apply le_out_bind; [apply run_mono|done]. }
  split; intros; simpl; unfold EVM_Call, EVM_CallCode, EVM_DelegateCall, EVM_StaticCall,
    EVM_Create, EVM_Create2, create; repeat first [case_match; [done|]|case_match]; try apply Hrun; try done.
  all: apply le_out_bind; [done|intros; apply Hrun].
Qed.
End WithLoops.

Lemma loop_mono jt n m f :
  table_mono jt -> (n <= m)%nat -> le_out (loop env jt n f) (loop env jt m f).
Proof.
  intros Hjt. revert m f. induction n as [|n IH]; intros m f Hm; [by left|].
  destruct m as [|m]; [lia|]. simpl. apply le_out_bind.
  - apply step_mono; [done|]. apply calls_mono. intros g. apply IH. lia.
  - intros [g|]; [apply IH; lia|done].
Qed.
End Fuel.
