(* ===== verification/VmMain.v ===== *)
(** * core/vm: the theorems about executions
    What the entry points of evm.go promise to their callers (state transition
    and nested calls): [vm env n] is the EVM under the configuration [env],
    with fuel for [n] nested instructions. *)

From S2P Require Import Prelude MathUtil VmBase VmEnv VmGas VmInstr VmTable VmInterp VmAnalysis.
From S2P Require Import World VmInv VmMemory VmGasSpec VmStep VmOps VmTableOk VmSafe VmFuel.

Section Main.
Context {S : Type} `{HS : vmStateDB S} (env : Env) `{!StateRefines (keccak256 env) S}.
Implicit Types (w : World) (r : list (Z * World)) (f : Frame S) (e : EVM S).

(** The EVM: its calls run code with the instruction set of the active fork. *)
Definition vm (n : nat) : Calls S := calls env (loop env (instructionSet env) n).

Abbreviation net := (net_metered (chainRules env)).
Abbreviation world_ok := (world_ok (keccak256 env) net).

Lemma vm_ok n : env_ok env -> calls_ok env net n (vm n).
Proof.
  intros Henv. apply calls_ok_loop; [done|]. intros f w r Hf.
  apply loop_ok; [done|by apply instructionSet_ok|done].
Qed.

Lemma vm_mono n m : (n <= m)%nat -> calls_le (vm n) (vm m).
Proof. intros Hm. apply calls_mono. intros f. apply loop_mono; [apply instructionSet_mono|done]. Qed.

(** A call that has enough fuel returns. *)
Lemma wp_returns {A} (F : Prop) (m : outcome A) Q : wp F m Q -> ~ F -> exists a, m = Done a /\ Q a.
Proof. destruct m as [a| |]; simpl; [by exists a|done..]. Qed.

Lemma le_out_Done {A} (m m' : outcome A) a : le_out m m' -> m = Done a -> m' = Done a.
Proof. by intros [-> | ->]. Qed.

(** The result of a call with more fuel than gas does not depend on the fuel. *)
Lemma enough_fuel {A} (x : Calls S -> outcome A) (gas : Z) n m :
  (forall cs cs', calls_le cs cs' -> le_out (x cs) (x cs')) ->
  (forall k, gas < Z.of_nat k -> exists a, x (vm k) = Done a) ->
  gas < Z.of_nat n -> gas < Z.of_nat m -> x (vm n) = x (vm m).
Proof.
  intros Hle Hex Hn Hm. destruct (Hex n Hn) as [a Ha], (Hex m Hm) as [b Hb].
  assert (n <= m \/ m <= n)%nat as [H|H] by lia; apply vm_mono in H; apply Hle in H.
  - rewrite Ha. symmetry. by eapply le_out_Done.
  - rewrite Hb. by eapply le_out_Done.
Qed.

(** ** Calls *)

(** C1: a message call with more fuel than gas returns without a panic; it
    leaves at most the gas it was given, the state it leaves is well formed (no
    negative balance, stored code hashes match, refund counter in range), the
    potential of refund and gas does not grow by more than one self-destruct
    refund, snapshots taken before the call stay valid, and a call that reports
    an error leaves the world exactly as it found it. *)
Theorem Call_safe n e caller addr input gas v w r :
  env_ok env -> call_pre env net e caller gas w r -> 0 <= addr -> 0 <= v -> zlen input < 2 ^ 62 ->
  gas < Z.of_nat n ->
  exists e' res w' r', Call (vm n) e caller addr input gas v = Done (e', res) /\
    repr (StateDB e') w' (r' ++ r) /\ world_ok w' /\ 0 <= leftOverGas res <= gas /\
    potential w' (leftOverGas res) <= potential w gas + 24000 /\
    readOnly e' = readOnly e /\ depth e' = depth e /\
    (err res <> None -> w' = w).
Proof.
  intros Henv Hp Ha Hv Hi Hn.
  destruct (wp_returns _ _ _ (ck_Call _ _ _ _ (vm_ok n Henv) e caller addr input gas v w r Hp Ha Hv Hi))
    as ([e' res] & -> & w' & r' & ? & [] & ? & ? & ? & ? & _ & ?); [lia|].
  simpl in *. exists e', res, w', r'. split_and!; auto; lia.
Qed.

(** CALLCODE and DELEGATECALL give the same guarantees, and in static mode
    they leave every account, the refund counter and the logs unchanged. *)
Theorem CallCode_DelegateCall_safe n e caller addr input gas v w r :
  env_ok env -> call_pre env net e caller gas w r -> contract_caller caller ->
  0 <= addr -> 0 <= v -> zlen input < 2 ^ 62 -> gas < Z.of_nat n ->
  forall x, x = CallCode (vm n) e caller addr input gas v \/
            x = DelegateCall (vm n) e caller addr input gas ->
  exists e' res w' r', x = Done (e', res) /\
    repr (StateDB e') w' (r' ++ r) /\ world_ok w' /\ 0 <= leftOverGas res <= gas /\
    (ro env e = true -> static (keccak256 env) w w') /\ (err res <> None -> w' = w).
Proof.
  intros Henv Hp Hc Ha Hv Hi Hn x Hx.
  assert (wp (Z.of_nat n <= gas) x (fun y => call_post env net e gas w r (ro env e = true) True
    (fst y) (leftOverGas (snd y)) (err (snd y)))) as Hwp.
  { destruct Hx as [-> | ->]; [apply (ck_CallCode env net n)|apply (ck_DelegateCall env net n)]; auto using vm_ok. }
  destruct (wp_returns _ _ _ Hwp) as ([e' res] & -> & w' & r' & ? & ? & ? & ? & ? & ? & ? & ?); [lia|].
  simpl in *. exists e', res, w', r'. split_and!; auto; lia.
Qed.

(** C10: from Byzantium on a static call returns, and whatever the callee's code
    does, every account, the refund counter and the logs are as before. *)
Theorem StaticCall_pure n e caller addr input gas w r :
  env_ok env -> IsByzantium (chainRules env) = true ->
  call_pre env net e caller gas w r -> 0 <= addr -> zlen input < 2 ^ 62 -> gas < Z.of_nat n ->
  exists e' res w' r', StaticCall (vm n) e caller addr input gas = Done (e', res) /\
    repr (StateDB e') w' (r' ++ r) /\ static (keccak256 env) w w' /\
    0 <= leftOverGas res <= gas /\ (err res <> None -> w' = w).
Proof.
  intros Henv Hbz Hp Ha Hi Hn.
  destruct (wp_returns _ _ _ (ck_StaticCall _ _ _ _ (vm_ok n Henv) e caller addr input gas w r Hp Ha Hi))
    as ([e' res] & -> & w' & r' & ? & ? & ? & ? & ? & ? & ? & ?); [lia|].
  simpl in *. exists e', res, w', r'. split_and!; auto; lia.
Qed.

(** C19: contract creation returns without a panic within its gas; from
    Homestead on, a creation that reports an error changes nothing but the
    caller's nonce. *)
Theorem Create_safe n e caller code gas v salt w r :
  env_ok env -> call_pre env net e caller gas w r -> 0 <= v -> zlen code < 2 ^ 62 ->
  gas < Z.of_nat n ->
  forall x, x = Create (vm n) e caller code gas v \/ x = Create2 (vm n) e caller code gas v salt ->
  exists e' res w' r', x = Done (e', res) /\
    repr (StateDB e') w' (r' ++ r) /\ world_ok w' /\ 0 <= create_leftOverGas res <= gas /\
    (IsHomestead (chainRules env) = true -> create_err res <> None ->
     w' = w \/ w' = nonce_used env w (ref_Address caller)).
Proof.
  intros Henv Hp Hv Hl Hn x Hx.
  assert (forall f w r, frame_ok env net f w r -> wp (Z.of_nat n <= Gas (contract f))
    (loop env (instructionSet env) n f) (fun x => stop_post env net (Gas (contract f)) f w r
      (fst (fst x)) (snd (fst x)) (snd x))) as Hlp.
  { intros. apply loop_ok; [done|by apply instructionSet_ok|done]. }
  assert (wp (Z.of_nat n <= gas) x (create_post env net e caller gas w r)) as Hwp.
  { destruct Hx as [-> | ->]; [by apply EVM_Create_ok|by apply EVM_Create2_ok]. }
  destruct (wp_returns _ _ _ Hwp) as ([e' res] & -> & w0 & Hw0 & (w' & r' & ? & ? & ? & ? & ? & ? & ? & He) & ?); [lia|].
  simpl in *. exists e', res, w', r'. split_and!; auto; try lia. intros Hh Hne. by rewrite (He Hh Hne).
Qed.

(** The result of a call or a creation does not depend on the fuel, as
    long as there is more fuel than gas: the bound is not observable. *)
Theorem fuel_irrelevant n m e caller addr input gas v w r :
  env_ok env -> call_pre env net e caller gas w r -> 0 <= addr -> 0 <= v -> zlen input < 2 ^ 62 ->
  gas < Z.of_nat n -> gas < Z.of_nat m ->
  Call (vm n) e caller addr input gas v = Call (vm m) e caller addr input gas v /\
  StaticCall (vm n) e caller addr input gas = StaticCall (vm m) e caller addr input gas /\
  Create (vm n) e caller input gas v = Create (vm m) e caller input gas v.
Proof.
  intros Henv Hp Ha Hv Hi Hn Hm.
  split_and!; [apply (enough_fuel (fun cs => Call cs e caller addr input gas v) gas)|
    apply (enough_fuel (fun cs => StaticCall cs e caller addr input gas) gas)|
    apply (enough_fuel (fun cs => Create cs e caller input gas v) gas)];
    try done; try (by intros ? ? []); intros k Hk.
  - destruct (wp_returns _ _ _ (ck_Call _ _ _ _ (vm_ok k Henv) e caller addr input gas v w r Hp Ha Hv Hi))
      as (x & ? & _); [lia|eauto].
  - destruct (wp_returns _ _ _ (ck_StaticCall _ _ _ _ (vm_ok k Henv) e caller addr input gas w r Hp Ha Hi))
      as (x & ? & _); [lia|eauto].
  - destruct (wp_returns _ _ _ (ck_Create _ _ _ _ (vm_ok k Henv) e caller input gas v w r Hp Hv Hi))
      as (x & ? & _); [lia|eauto].
Qed.

(** The frames a run passes through. *)
Inductive steps (n : nat) : Frame S -> Frame S -> Prop :=
  | steps_refl f : steps n f f
  | steps_next f f' f'' :
      steps n f f' -> step env (instructionSet env) (vm n) f' = Done (Next f'') -> steps n f f''.

Lemma steps_frame_ok n f f' w r :
  env_ok env -> frame_ok env net f w r -> steps n f f' ->
  exists w' r', frame_ok env net f' w' (r' ++ r) /\ same_env (evm f) (evm f') /\
    Gas (contract f') <= Gas (contract f) /\ (ro env (evm f) = true -> static (keccak256 env) w w').
Proof.
  intros Henv Hf Hs. induction Hs as [f|f f' f'' Hs IH Hstep]; [exists w, []; by split_and!|].
  destruct (IH Hf) as (w1 & r1 & Hf1 & He1 & Hg1 & Hst1).
  pose proof (step_ok env net _ n _ _ _ _ (instructionSet_ok env Henv) (vm_ok n Henv) Hf1) as Hp.
  rewrite Hstep in Hp. destruct Hp as (w2 & r2 & Hf2 & He2 & Hg2 & _ & Hst2).
  exists w2, (r2 ++ r1). rewrite <-app_assoc. split_and!; try done; [by eapply same_env_trans|lia|].
  intros Hro. etrans; [by apply Hst1|]. apply Hst2. unfold ro in *. by rewrite (se_readOnly _ _ He1).
Qed.

(** C20: in every frame a run reaches, the stack holds at most 1024
    non-negative words, the memory consists of whole words whose fee has been
    charged in full and does not exceed the maximal size, the program counter
    is at most one instruction past the code, and the gas only decreases. *)
Theorem reachable_frames n e c input w r f :
  env_ok env -> repr (StateDB e) w r -> world_ok w -> jumpdests_ok (keccak256 env) (jumpdests e) ->
  0 <= depth e -> returnData e = RVal [] -> callee_ok env c -> Code c <> [] ->
  potential w (Gas c) + 24000 < two64 -> zlen input < 2 ^ 62 ->
  steps n (mkFrame 0 e (set_Input c input) Memory.NewMemory Stack.newstack) f ->
  zlen (stack f) <= 1024 /\ Forall (fun x => 0 <= x) (stack f) /\
  Memory.Len (memory f) = 32 * mem_words (memory f) /\ Memory.Len (memory f) <= maxMem /\
  Memory.lastGasCost (memory f) = memcost (mem_words (memory f)) /\
  0 <= pc f <= zlen (Code (contract f)) + 33 /\ 0 <= Gas (contract f) <= Gas c.
Proof.
  intros Henv Hr Hw Hj Hd Hrd Hc Hne Hb Hi Hs.
  pose proof (start_frame_ok env net e c input w r Hr Hw Hj Hd Hrd Hc Hne Hb Hi) as Hf.
  destruct (steps_frame_ok n _ _ _ _ Henv Hf Hs) as (w' & r' & [] & _ & Hg & _).
  destruct fo_mem, fo_contract. unfold is_u64 in *. simpl in Hg. split_and!; try done; lia.
Qed.

(** ** Gas of failed calls *)

Definition call_result (x : outcome (EVM S * CallResult)) (res : CallResult) : Prop :=
  exists e', x = Done (e', res).

Lemma settle_gas id e c rt er e' res :
  settle id e c rt er = Done (e', res) ->
  err res = None \/ err res = Some errExecutionReverted \/ leftOverGas res = 0.
Proof.
  unfold settle, UseGas. destruct er as [er|]; [|by intros [= <- <-]; left].
  destruct (RevertToSnapshot _ _); simpl; [|done..]. rewrite Z.ltb_irrefl.
  case_bool_decide; intros [= <- <-]; simpl; [right; left; by f_equal|lia].
Qed.

Lemma run_settle_gas lp id e c input ro_ e' res :
  (let! '(e, c, r, err) := run env lp e c input ro_ in settle id e c r err) = Done (e', res) ->
  err res = None \/ err res = Some errExecutionReverted \/ leftOverGas res = 0.
Proof. destruct (run _ _ _ _ _ _) as [[[[]]]| |]; simpl; [apply settle_gas|done..]. Qed.

(** A call that fails consumes all its gas, unless the code executed
    REVERT or the call was refused for its depth or the sender's balance; a
    refused call returns the gas unused. *)
Theorem failed_call_gas n e caller addr input gas v res :
  call_result (Call (vm n) e caller addr input gas v) res \/
  call_result (CallCode (vm n) e caller addr input gas v) res \/
  call_result (DelegateCall (vm n) e caller addr input gas) res \/
  call_result (StaticCall (vm n) e caller addr input gas) res ->
  err res = None \/ err res = Some errExecutionReverted \/ leftOverGas res = 0 \/
  (err res = Some ErrDepth \/ err res = Some ErrInsufficientBalance) /\ leftOverGas res = gas.
Proof.
  set (goal := err res = None \/ _). assert (forall lp id e c input ro_ e',
    (let! '(e, c, r, err) := run env lp e c input ro_ in settle id e c r err) = Done (e', res) -> goal) as Hrun.
  { intros * Hx%run_settle_gas. unfold goal. tauto. }
  assert (forall e1 e2 er, give_back e1 gas er = Done (e2, res) ->
    er = None \/ er = Some ErrDepth \/ er = Some ErrInsufficientBalance -> goal) as Hback.
  { intros ? ? ? [= <- <-]. unfold goal. simpl. intuition auto. }
  clearbody goal. simpl. unfold EVM_Call, EVM_CallCode, EVM_DelegateCall, EVM_StaticCall.
  intros [[e' He]|[[e' He]|[[e' He]|[e' He]]]]; repeat case_match; eauto 6.
  destruct (AsDelegate _); [|done..]. simpl in He. eauto.
Qed.
End Main.
