(* ===== verification/Precompiles.v ===== *)
(** * core/vm: the native contracts (contracts.go)
    Each contract's price and its run, and the tables of the forks.  The
    elliptic curves and the hash functions are parameters (a record of
    operations with the documented lengths of their results); everything the
    file itself computes is modelled: the parsing and padding of inputs, the
    gas formulas, modular exponentiation and the BLAKE2b compression. *)

From S2P Require Import Prelude MathUtil Blake2b VmBase VmEnv VmInv.

(** ** crypto.ValidateSignatureValues (crypto/crypto.go) *)

Definition secp256k1N : Z := 0xfffffffffffffffffffffffffffffffebaaedce6af48a03bbfd25e8cd0364141.
Definition secp256k1halfN : Z := secp256k1N / 2.

Definition ValidateSignatureValues (v r s : Z) (homestead : bool) : bool :=
  if (r <? 1) || (s <? 1) then false
  else if homestead && (secp256k1halfN <? s) then false
  else (r <? secp256k1N) && (s <? secp256k1N) && ((v =? 0) || (v =? 1)).

(** ** Cryptographic operations *)

Record Crypto := mkCrypto {
  Ecrecover : bytes -> bytes -> option bytes;
  Keccak256 : bytes -> bytes;
  sha256_Sum256 : bytes -> bytes;
  ripemd160_Sum : bytes -> bytes;
  G1 : Type;
  G2 : Type;
  G1_Unmarshal : bytes -> option G1;
  G2_Unmarshal : bytes -> option G2;
  G1_Marshal : G1 -> bytes;
  G1_Add : G1 -> G1 -> G1;
  G1_ScalarMult : G1 -> Z -> G1;
  PairingCheck : list G1 -> list G2 -> bool }.

(** The lengths of the results the packages document. *)
Record crypto_ok (cr : Crypto) : Prop := {
  ok_Ecrecover : forall h s p, Ecrecover cr h s = Some p -> length p = 65%nat;
  ok_Keccak256 : forall b, length (Keccak256 cr b) = 32%nat;
  ok_sha256 : forall b, length (sha256_Sum256 cr b) = 32%nat;
  ok_ripemd160 : forall b, length (ripemd160_Sum cr b) = 20%nat;
  ok_Marshal : forall p, length (G1_Marshal cr p) = 64%nat }.

(** Errors of the native contracts. *)
Definition errBadPoint : vmError := errPrecompile 1.
Definition errBadPairingInput : vmError := errPrecompile 2.
Definition errBlake2FInvalidInputLength : vmError := errPrecompile 3.
Definition errBlake2FInvalidFinalFlag : vmError := errPrecompile 4.

Section Contracts.
Variable cr : Crypto.
Abbreviation result := (outcome (bytes * option vmError)).

Definition get_slice (b : bytes) (lo hi : Z) : outcome bytes := or_panic IndexOutOfRange (slice b lo hi).
Definition get_byte (b : bytes) (i : Z) : outcome Z :=
  let! x := or_panic IndexOutOfRange (b !! Z.to_nat i) in Done (Z_of_byte x).

(** ** ecrecover *)

Definition ecrecover_Run (input : bytes) : result :=
  let input := RightPadBytes input 128 in
  let! rb := get_slice input 64 96 in
  let! sb := get_slice input 96 128 in
  let r := SetBytes rb in
  let s := SetBytes sb in
  let! vb := get_byte input 63 in
  let v := (vb - 27) mod 256 in
  let! pad := get_slice input 32 63 in
  if negb (allZero pad) || negb (ValidateSignatureValues v r s false) then Done ([], None)
  else
    let! rs := get_slice input 64 128 in
    let sig := blit 0 rs (replicate 65 Byte.x00) in
    let sig := <[64%nat := byte_of_Z v]> sig in
    let! h := get_slice input 0 32 in
    match Ecrecover cr h sig with
    | None => Done ([], None)
    | Some pubKey =>
        let! p := get_slice pubKey 1 (zlen pubKey) in
        let! k := get_slice (Keccak256 cr p) 12 (zlen (Keccak256 cr p)) in
        Done (LeftPadBytes k 32, None)
    end.
Definition ecrecover : PrecompiledContract :=
  mkPrecompiled (fun _ => Done Params.EcrecoverGas) ecrecover_Run false.

(** ** Hashes and copies *)

(** [uint64(len(input)+31)/32*perWord + base] *)
Definition word_gas (perWord base : Z) (input : bytes) : Z :=
  u64 (u64 (u64 (zlen input + 31) / 32 * perWord) + base).

Definition sha256hash : PrecompiledContract :=
  mkPrecompiled (fun input => Done (word_gas Params.Sha256PerWordGas Params.Sha256BaseGas input))
    (fun input => Done (sha256_Sum256 cr input, None)) false.

Definition ripemd160hash : PrecompiledContract :=
  mkPrecompiled (fun input => Done (word_gas Params.Ripemd160PerWordGas Params.Ripemd160BaseGas input))
    (fun input => Done (LeftPadBytes (ripemd160_Sum cr input) 32, None)) false.

(** The returned slice is the argument itself. *)
Definition dataCopy : PrecompiledContract :=
  mkPrecompiled (fun input => Done (word_gas Params.IdentityPerWordGas Params.IdentityBaseGas input))
    (fun input => Done (input, None)) true.

(** ** bigModExp *)

(** The three lengths at the start of the input, and what follows them. *)
Definition modexp_header (input : bytes) : outcome (Z * Z * Z * bytes) :=
  let! b := getData input 0 32 in
  let! e := getData input 32 32 in
  let! m := getData input 64 32 in
  Done (SetBytes b, SetBytes e, SetBytes m, if 96 <? zlen input then drop 96 input else []).

Definition modexp_expHead (baseLen expLen : Z) (input : bytes) : outcome Z :=
  if zlen input <=? baseLen then Done 0
  else if 32 <? expLen then let! h := getData input (Uint64 baseLen) 32 in Done (SetBytes h)
  else let! h := getData input (Uint64 baseLen) (Uint64 expLen) in Done (SetBytes h).

Definition modexp_adjExpLen (expLen expHead : Z) : Z :=
  let msb := if 0 <? BitLen expHead then BitLen expHead - 1 else 0 in
  (if 32 <? expLen then 8 * (expLen - 32) else 0) + msb.

(** The complexity of a multiplication of numbers of [x] bytes. *)
Definition modexp_mult (x : Z) : Z :=
  if x <=? 64 then x * x
  else if x <=? 1024 then x * x / 4 + (96 * x - 3072)
  else x * x / 16 + (480 * x - 199680).

Definition bigModExp_RequiredGas (input : bytes) : outcome Z :=
  let! '(baseLen, expLen, modLen, input) := modexp_header input in
  let! expHead := modexp_expHead baseLen expLen input in
  let adjExpLen := modexp_adjExpLen expLen expHead in
  let gas := modexp_mult (BigMax modLen baseLen) in
  let gas := gas * BigMax adjExpLen 1 in
  let gas := gas / Params.ModExpQuadCoeffDiv in
  Done (if 64 <? BitLen gas then MaxUint64 else Uint64 gas).

Definition bigModExp_Run (input : bytes) : result :=
  let! '(baseLen, expLen, modLen, input) := modexp_header input in
  let baseLen := Uint64 baseLen in
  let expLen := Uint64 expLen in
  let modLen := Uint64 modLen in
  if (baseLen =? 0) && (modLen =? 0) then Done ([], None)
  else
    let! b := getData input 0 baseLen in
    let! e := getData input baseLen expLen in
    let! m := getData input (u64 (baseLen + expLen)) modLen in
    let base := SetBytes b in
    let exp := SetBytes e in
    let mod_ := SetBytes m in
    if BitLen mod_ =? 0 then Done (LeftPadBytes [] (Int64 modLen), None)
    else Done (LeftPadBytes (BigBytes (base ^ exp mod mod_)) (Int64 modLen), None).

Definition bigModExp : PrecompiledContract := mkPrecompiled bigModExp_RequiredGas bigModExp_Run false.

(** ** bn256 *)

Definition newCurvePoint (blob : bytes) : option (G1 cr) := G1_Unmarshal cr blob.
Definition newTwistPoint (blob : bytes) : option (G2 cr) := G2_Unmarshal cr blob.

Definition runBn256Add (input : bytes) : result :=
  let! d := getData input 0 64 in
  match newCurvePoint d with
  | None => Done ([], Some errBadPoint)
  | Some x =>
      let! d := getData input 64 64 in
      match newCurvePoint d with
      | None => Done ([], Some errBadPoint)
      | Some y => Done (G1_Marshal cr (G1_Add cr x y), None)
      end
  end.

Definition runBn256ScalarMul (input : bytes) : result :=
  let! d := getData input 0 64 in
  match newCurvePoint d with
  | None => Done ([], Some errBadPoint)
  | Some p =>
      let! k := getData input 64 32 in
      Done (G1_Marshal cr (G1_ScalarMult cr p (SetBytes k)), None)
  end.

(** [for i := 0; i < len(input); i += 192], [n] iterations. *)
Fixpoint pairing_points (n : nat) (i : Z) (input : bytes) : outcome (list (G1 cr) * list (G2 cr) + vmError) :=
  match n with
  | O => Done (inl ([], []))
  | S n =>
      let! d := get_slice input i (i + 64) in
      match newCurvePoint d with
      | None => Done (inr errBadPoint)
      | Some c =>
          let! d := get_slice input (i + 64) (i + 192) in
          match newTwistPoint d with
          | None => Done (inr errBadPoint)
          | Some t =>
              let! r := pairing_points n (i + 192) input in
              Done (match r with inl (cs, ts) => inl (c :: cs, t :: ts) | inr e => inr e end)
          end
      end
  end.

Definition true32Byte : bytes := replicate 31 Byte.x00 ++ [Byte.x01].
Definition false32Byte : bytes := replicate 32 Byte.x00.

Definition runBn256Pairing (input : bytes) : result :=
  if 0 <? zlen input mod 192 then Done ([], Some errBadPairingInput)
  else
    let! r := pairing_points (Z.to_nat (zlen input / 192)) 0 input in
    match r with
    | inr e => Done ([], Some e)
    | inl (cs, ts) => Done (if PairingCheck cr cs ts then true32Byte else false32Byte, None)
    end.

Definition pairing_gas (base perPoint : Z) (input : bytes) : Z :=
  u64 (base + u64 (zlen input / 192 * perPoint)).

Definition bn256AddIstanbul : PrecompiledContract :=
  mkPrecompiled (fun _ => Done Params.Bn256AddGasIstanbul) runBn256Add false.
Definition bn256AddByzantium : PrecompiledContract :=
  mkPrecompiled (fun _ => Done Params.Bn256AddGasByzantium) runBn256Add false.
Definition bn256ScalarMulIstanbul : PrecompiledContract :=
  mkPrecompiled (fun _ => Done Params.Bn256ScalarMulGasIstanbul) runBn256ScalarMul false.
Definition bn256ScalarMulByzantium : PrecompiledContract :=
  mkPrecompiled (fun _ => Done Params.Bn256ScalarMulGasByzantium) runBn256ScalarMul false.
Definition bn256PairingIstanbul : PrecompiledContract :=
  mkPrecompiled (fun input => Done (pairing_gas Params.Bn256PairingBaseGasIstanbul
    Params.Bn256PairingPerPointGasIstanbul input)) runBn256Pairing false.
Definition bn256PairingByzantium : PrecompiledContract :=
  mkPrecompiled (fun input => Done (pairing_gas Params.Bn256PairingBaseGasByzantium
    Params.Bn256PairingPerPointGasByzantium input)) runBn256Pairing false.

(** ** blake2F *)

Definition blake2FInputLength : Z := 213.

(** [binary.LittleEndian.Uint64] and [PutUint64]. *)
Definition le_Uint64 (b : bytes) : Z := SetBytes (rev b).
Definition le_PutUint64 (x : Z) : bytes := rev (be_bytes 8 x).

Definition blake2F_RequiredGas (input : bytes) : outcome Z :=
  if negb (zlen input =? blake2FInputLength) then Done 0
  else let! b := get_slice input 0 4 in Done (SetBytes b).

(** [n] little-endian words from [offset] on. *)
Fixpoint le_words (n : nat) (offset : Z) (input : bytes) : outcome (list Z) :=
  match n with
  | O => Done []
  | S n =>
      let! b := get_slice input offset (offset + 8) in
      let! l := le_words n (offset + 8) input in
      Done (le_Uint64 b :: l)
  end.

Definition blake2F_Run (input : bytes) : result :=
  if negb (zlen input =? blake2FInputLength) then Done ([], Some errBlake2FInvalidInputLength)
  else
    let! flag := get_byte input 212 in
    if negb (flag =? 0) && negb (flag =? 1) then Done ([], Some errBlake2FInvalidFinalFlag)
    else
      let! rb := get_slice input 0 4 in
      let rounds := SetBytes rb in
      let final := flag =? 1 in
      let! h := le_words 8 4 input in
      let! m := le_words 16 68 input in
      let! t := le_words 2 196 input in
      let h := Blake2b.F h m t final rounds in
      Done (concat (map le_PutUint64 h), None).

Definition blake2F : PrecompiledContract := mkPrecompiled blake2F_RequiredGas blake2F_Run false.

(** ** The tables *)

Definition PrecompiledContractsHomestead : gmap Address PrecompiledContract :=
  list_to_map [(1, ecrecover); (2, sha256hash); (3, ripemd160hash); (4, dataCopy)].

Definition PrecompiledContractsByzantium : gmap Address PrecompiledContract :=
  list_to_map [(1, ecrecover); (2, sha256hash); (3, ripemd160hash); (4, dataCopy); (5, bigModExp);
    (6, bn256AddByzantium); (7, bn256ScalarMulByzantium); (8, bn256PairingByzantium)].

Definition PrecompiledContractsIstanbul : gmap Address PrecompiledContract :=
  list_to_map [(1, ecrecover); (2, sha256hash); (3, ripemd160hash); (4, dataCopy); (5, bigModExp);
    (6, bn256AddIstanbul); (7, bn256ScalarMulIstanbul); (8, bn256PairingIstanbul); (9, blake2F)].
End Contracts.

(** ** Every native contract is total on the inputs it is paid for *)

Lemma getData_spec data start size :
  zlen data < 2 ^ 62 -> 0 <= start -> 0 <= size < 2 ^ 62 ->
  getData data start size =
  Done (RightPadBytes (take (Z.to_nat size) (drop (Z.to_nat start) data)) size).
Proof.
  intros Hd Hs Hn. unfold getData. set (st := if _ <? _ then _ else _).
  assert (0 <= st <= zlen data) by (unfold st; zcase; lia).
  rewrite u64_small by (unfold is_u64; lia).
  rewrite slice_some by (zcase; lia). simpl. rewrite Int64_small by lia. f_equal. f_equal.
  assert (drop (Z.to_nat st) data = drop (Z.to_nat start) data) as ->.
  { unfold st. destruct (Z.ltb_spec (zlen data) start); [|done]. rewrite !drop_ge; [done|lia..]. }
  destruct (Z.ltb_spec (zlen data) (st + size)); [|f_equal; lia].
  rewrite !take_ge; [done| |]; rewrite length_drop; unfold st in *; zcase; lia.
Qed.

Lemma getData_total data start size :
  zlen data < 2 ^ 62 -> 0 <= start -> 0 <= size < 2 ^ 62 ->
  exists d, getData data start size = Done d /\ zlen d = size.
Proof.
  intros. eexists; split; [by apply getData_spec|]. rewrite RightPadBytes_length, length_take. lia.
Qed.

Lemma get_slice_total b lo hi :
  0 <= lo <= hi -> hi <= zlen b -> exists d, get_slice b lo hi = Done d /\ zlen d = hi - lo.
Proof.
  intros. unfold get_slice. rewrite slice_some by lia. simpl. eexists; split; [done|].
  rewrite length_take, length_drop. lia.
Qed.

Lemma get_byte_total b i : 0 <= i < zlen b -> exists x, get_byte b i = Done x.
Proof.
  intros. unfold get_byte. destruct (lookup_lt_is_Some_2 b (Z.to_nat i)) as [x ->]; [lia|]. by eexists.
Qed.

Lemma le_words_total n off b :
  0 <= off -> off + 8 * Z.of_nat n <= zlen b -> exists l, le_words n off b = Done l /\ length l = n.
Proof.
  revert off. induction n as [|n IH]; intros off H0 Hl; [by exists []|]. simpl.
  destruct (get_slice_total b off (off + 8)) as (d & -> & _); [lia..|]. simpl.
  destruct (IH (off + 8)) as (l & -> & Hlen); [lia..|]. simpl. eexists; split; [done|]. simpl. by f_equal.
Qed.

Lemma length_concat_le l : length (concat (map le_PutUint64 l)) = (8 * length l)%nat.
Proof.
  induction l as [|x l IH]; [done|]. cbn [map concat]. rewrite length_app, IH.
  unfold le_PutUint64. rewrite length_rev, length_be_bytes. simpl. lia.
Qed.

(** A contract with a price that does not depend on what it reads. *)
Lemma fixed_price_ok g run b :
  (forall i, 0 <= g i) ->
  (forall i, zlen i < 2 ^ 62 -> exists r er, run i = Done (r, er) /\ zlen r < 2 ^ 62) ->
  precompile_ok (mkPrecompiled (fun i => Done (g i)) run b).
Proof. intros Hg Hr i Hi. exists (g i). split_and!; [done..|]. intros _. by apply Hr. Qed.

Section Total.
Variable cr : Crypto.
Hypothesis Hcr : crypto_ok cr.

(** Evaluates the reads of a contract. *)
Ltac reads :=
  repeat first
    [ match goal with |- context [getData ?d ?s ?n] =>
        let x := fresh "d" in let H := fresh "Hd" in
        destruct (getData_total d s n) as (x & -> & H); [done || lia..|]; cbn [obind] end
    | match goal with |- context [get_slice ?d ?s ?n] =>
        let x := fresh "d" in let H := fresh "Hd" in
        destruct (get_slice_total d s n) as (x & -> & H); [lia..|]; cbn [obind] end
    | match goal with |- context [get_byte ?d ?s] =>
        let x := fresh "d" in destruct (get_byte_total d s) as (x & ->); [lia..|]; cbn [obind] end ].

Ltac finish := eexists _, _; split; [reflexivity|].

Lemma ecrecover_ok : precompile_ok (ecrecover cr).
Proof.
  apply fixed_price_ok; [done|]. intros i Hi. unfold ecrecover_Run.
  pose proof (RightPadBytes_length i 128) as Hl. set (p := RightPadBytes i 128) in *. clearbody p.
  reads. destruct (_ || _); [by finish|]. reads.
  destruct (Ecrecover cr _ _) as [pk|] eqn:E; [|by finish]. apply (ok_Ecrecover _ Hcr) in E. reads.
  pose proof (ok_Keccak256 _ Hcr d5). reads. finish. rewrite LeftPadBytes_length. lia.
Qed.

Lemma word_gas_nonneg a b i : 0 <= word_gas a b i.
Proof. apply u64_range. Qed.

Lemma sha256hash_ok : precompile_ok (sha256hash cr).
Proof.
  apply fixed_price_ok; [intros; apply word_gas_nonneg|]. intros i Hi. finish.
  rewrite (ok_sha256 _ Hcr). lia.
Qed.

Lemma ripemd160hash_ok : precompile_ok (ripemd160hash cr).
Proof.
  apply fixed_price_ok; [intros; apply word_gas_nonneg|]. intros i Hi. finish.
  rewrite LeftPadBytes_length, (ok_ripemd160 _ Hcr). lia.
Qed.

Lemma dataCopy_ok : precompile_ok dataCopy.
Proof. apply fixed_price_ok; [intros; apply word_gas_nonneg|]. intros i Hi. by finish. Qed.

Lemma runBn256Add_total i :
  zlen i < 2 ^ 62 -> exists r er, runBn256Add cr i = Done (r, er) /\ zlen r < 2 ^ 62.
Proof.
  intros Hi. unfold runBn256Add. reads. destruct (newCurvePoint cr _); [|by finish]. reads.
  destruct (newCurvePoint cr _); [|by finish]. finish. rewrite (ok_Marshal _ Hcr). lia.
Qed.

Lemma runBn256ScalarMul_total i :
  zlen i < 2 ^ 62 -> exists r er, runBn256ScalarMul cr i = Done (r, er) /\ zlen r < 2 ^ 62.
Proof.
  intros Hi. unfold runBn256ScalarMul. reads. destruct (newCurvePoint cr _); [|by finish]. reads.
  finish. rewrite (ok_Marshal _ Hcr). lia.
Qed.

Lemma pairing_points_total n k i :
  0 <= k -> k + 192 * Z.of_nat n <= zlen i -> exists r, pairing_points cr n k i = Done r.
Proof.
  revert k. induction n as [|n IH]; intros k Hk Hl; [by eexists|]. simpl. reads.
  destruct (newCurvePoint cr _); [|by eexists]. reads. destruct (newTwistPoint cr _); [|by eexists].
  destruct (IH (k + 192)) as [r ->]; [lia..|]. by eexists.
Qed.

Lemma runBn256Pairing_total i :
  zlen i < 2 ^ 62 -> exists r er, runBn256Pairing cr i = Done (r, er) /\ zlen r < 2 ^ 62.
Proof.
  intros Hi. unfold runBn256Pairing. destruct (0 <? _); [by finish|].
  destruct (pairing_points_total (Z.to_nat (zlen i / 192)) 0 i) as [r ->]; [lia| |].
  { pose proof (Z.mul_div_le (zlen i) 192). rewrite Z2Nat.id by (apply Z.div_pos; lia). lia. }
  simpl. destruct r as [[]|]; [|by finish]. by destruct (PairingCheck cr _ _); finish.
Qed.

Lemma blake2F_ok : precompile_ok blake2F.
Proof.
  intros i Hi. cbn [RequiredGas RunPrecompile blake2F]. unfold blake2F_RequiredGas, blake2F_Run, blake2FInputLength.
  destruct (Z.eqb_spec (zlen i) 213) as [Hl|]; cbn [negb]; [|exists 0; split_and!; try done; intros _; by finish].
  destruct (get_slice_total i 0 4) as (d & -> & _); [lia..|]. cbn [obind].
  exists (SetBytes d). split_and!; [done|apply SetBytes_range|]. intros _.
  destruct (get_byte_total i 212) as (fl & ->); [lia|]. cbn [obind]. destruct (_ && _); [by finish|].
  destruct (le_words_total 8 4 i) as (h & -> & Hh); [lia..|]. cbn [obind].
  destruct (le_words_total 16 68 i) as (m & -> & Hm); [lia..|]. cbn [obind].
  destruct (le_words_total 2 196 i) as (t & -> & Ht); [lia..|]. cbn [obind].
  finish. rewrite length_concat_le. done.
Qed.

(** *** bigModExp *)

Lemma modexp_header_total i :
  zlen i < 2 ^ 62 -> exists b e m j, modexp_header i = Done (b, e, m, j) /\
    0 <= b /\ 0 <= e /\ 0 <= m /\ zlen j < 2 ^ 62.
Proof.
  intros Hi. unfold modexp_header. reads. do 4 eexists. split; [done|].
  split_and!; [apply SetBytes_range..|]. destruct (96 <? _); [rewrite length_drop; lia|done].
Qed.

Lemma modexp_expHead_total b e i :
  zlen i < 2 ^ 62 -> 0 <= b -> 0 <= e -> exists h, modexp_expHead b e i = Done h.
Proof.
  intros Hi Hb He. unfold modexp_expHead. destruct (_ <=? _); [by eexists|].
  pose proof (u64_range b) as [? _]. destruct (Z.ltb_spec 32 e).
  - reads. by eexists.
  - assert (Uint64 e = e) as -> by (apply u64_small; unfold is_u64; lia). reads. by eexists.
Qed.

Lemma modexp_mult_lower x : 0 <= x -> x <= modexp_mult x /\ (2 ^ 40 <= x -> 2 ^ 70 <= modexp_mult x).
Proof.
  intros Hx. unfold modexp_mult. destruct (Z.leb_spec x 64); [nia|].
  destruct (Z.leb_spec x 1024).
  - assert (0 <= x * x / 4) by (apply Z.div_pos; nia). lia.
  - assert (x * x / 16 >= 64 * x) by (apply Z.le_ge, Z.div_le_lower_bound; nia).
    split; [lia|]. intros Hb. assert (2 ^ 76 <= x * x / 16) by (apply Z.div_le_lower_bound; nia). lia.
Qed.

Lemma modexp_adjExpLen_lower e h : 0 <= e -> 8 * (e - 32) <= modexp_adjExpLen e h /\ 0 <= modexp_adjExpLen e h.
Proof. intros He. unfold modexp_adjExpLen. zcase; lia. Qed.

(** The bounds a price below [2^60] puts on the lengths. *)
Lemma modexp_gas_bounds b e m h g :
  0 <= b -> 0 <= e -> 0 <= m ->
  g = modexp_mult (BigMax m b) * BigMax (modexp_adjExpLen e h) 1 / 20 -> g < 2 ^ 60 ->
  b < 2 ^ 40 /\ m < 2 ^ 40 /\ (b = 0 /\ m = 0 \/ e < 2 ^ 62).
Proof.
  intros Hb He Hm -> Hg. set (x := BigMax m b) in *. set (a := BigMax _ 1) in *.
  assert (0 <= x /\ b <= x /\ m <= x /\ (x = 0 -> b = 0 /\ m = 0)) as (Hx & ? & ? & Hx0).
  { unfold x, BigMax. zcase; lia. }
  pose proof (modexp_adjExpLen_lower e h He).
  assert (1 <= a /\ 8 * (e - 32) <= a) by (unfold a, BigMax; zcase; lia). clearbody x a.
  destruct (modexp_mult_lower x Hx) as [Hm1 Hm2].
  assert (modexp_mult x * a < 20 * 2 ^ 60).
  { pose proof (Z.mod_pos_bound (modexp_mult x * a) 20). pose proof (Z.div_mod (modexp_mult x * a) 20). lia. }
  assert (modexp_mult x < 2 ^ 70) by nia.
  assert (x < 2 ^ 40) by (apply Z.nle_gt; intros ?%Hm2; lia).
  split_and!; [lia..|]. destruct (Z.eq_dec x 0) as [->|]; [auto|right]. nia.
Qed.

Lemma BigBytes_length z n : 0 <= z < 256 ^ Z.of_nat n -> (length (BigBytes z) <= n)%nat.
Proof.
  intros Hz. unfold BigBytes. rewrite length_be_bytes.
  assert (BitLen z <= 8 * Z.of_nat n).
  { apply BitLen_le; [lia|]. rewrite <-pow256 by lia. rewrite Z.abs_eq; lia. }
  assert ((BitLen z + 7) / 8 < Z.of_nat n + 1) by (apply Z.div_lt_upper_bound; lia). lia.
Qed.

Lemma LeftPad_BigBytes z n : 0 <= z < 256 ^ Z.of_nat n -> LeftPadBytes (BigBytes z) (Z.of_nat n) = be_bytes n z.
Proof.
  intros Hz. pose proof (BigBytes_length _ _ Hz). apply SetBytes_inj.
  - pose proof (LeftPadBytes_length (BigBytes z) (Z.of_nat n)). rewrite length_be_bytes. lia.
  - rewrite SetBytes_LeftPad, SetBytes_BigBytes, SetBytes_be_bytes, Z.mod_small by lia. lia.
Qed.

Lemma bigModExp_ok : precompile_ok bigModExp.
Proof.
  intros i Hi. simpl. unfold bigModExp_RequiredGas, bigModExp_Run.
  destruct (modexp_header_total i Hi) as (b & e & m & j & -> & Hb & He & Hm & Hj). cbn [obind].
  destruct (modexp_expHead_total b e j Hj Hb He) as (h & ->). cbn [obind].
  set (g := _ / _). eexists; split; [done|]. assert (0 <= g) as Hg.
  { pose proof (modexp_adjExpLen_lower e h He).
    destruct (modexp_mult_lower (BigMax m b)) as [? _]; [unfold BigMax; zcase; lia|].
    apply Z.div_pos; [|done]. unfold BigMax in *. zcase; nia. }
  split; [destruct (64 <? _); [done|apply u64_range]|]. intros Hlt.
  assert (g < 2 ^ 60) as Hg60.
  { destruct (Z.ltb_spec 64 (BitLen g)) as [|HB]; [done|]. pose proof (BitLen_bound g).
    assert (2 ^ BitLen g <= 2 ^ 64) by (apply Z.pow_le_mono_r; lia).
    unfold Uint64 in Hlt. rewrite u64_small in Hlt by (unfold is_u64; lia). done. }
  destruct (modexp_gas_bounds b e m h g) as (Hb40 & Hm40 & He62); try done.
  unfold Uint64. rewrite !(u64_small b), !(u64_small m) by (unfold is_u64; lia).
  destruct ((b =? 0) && (m =? 0)) eqn:E0; [by finish|].
  assert (e < 2 ^ 62) by (destruct He62 as [[-> ->]|]; done).
  rewrite !(u64_small e), !(u64_small (b + e)) by (unfold is_u64; lia). reads.
  rewrite Int64_small by lia. destruct (Z.eqb_spec (BitLen (SetBytes d1)) 0).
  - finish. rewrite LeftPadBytes_length. simpl. lia.
  - finish. rewrite LeftPadBytes_length. pose proof (SetBytes_range d1) as Hr.
    assert (SetBytes d1 <> 0) by (intros E; by rewrite E in *).
    pose proof (Z.mod_pos_bound (SetBytes d ^ SetBytes d0) (SetBytes d1) ltac:(lia)).
    pose proof (BigBytes_length (SetBytes d ^ SetBytes d0 mod SetBytes d1) (length d1)). lia.
Qed.

(** *** The tables *)

Lemma table_list_ok (l : list (Address * PrecompiledContract)) :
  Forall (fun x => precompile_ok (snd x)) l -> map_Forall (fun _ => precompile_ok) (list_to_map l : gmap _ _).
Proof.
  induction 1 as [|[k p] l Hp Hl IH]; simpl; [apply map_Forall_empty|]. by apply map_Forall_insert_2.
Qed.

Lemma pairing_gas_nonneg a b i : 0 <= pairing_gas a b i.
Proof. apply u64_range. Qed.

#[local] Hint Resolve ecrecover_ok sha256hash_ok ripemd160hash_ok dataCopy_ok bigModExp_ok blake2F_ok
  runBn256Add_total runBn256ScalarMul_total runBn256Pairing_total pairing_gas_nonneg : plasma.

Ltac native := repeat constructor; simpl;
  first [by auto with plasma | apply fixed_price_ok; by auto with plasma].

Lemma homestead_precompiles_ok : map_Forall (fun _ => precompile_ok) (PrecompiledContractsHomestead cr).
Proof. apply table_list_ok. native. Qed.

Lemma byzantium_precompiles_ok : map_Forall (fun _ => precompile_ok) (PrecompiledContractsByzantium cr).
Proof. apply table_list_ok. native. Qed.

Lemma istanbul_precompiles_ok : map_Forall (fun _ => precompile_ok) (PrecompiledContractsIstanbul cr).
Proof. apply table_list_ok. native. Qed.
End Total.

(** ** Modular exponentiation *)

(** An input of [bigModExp]: three 32-byte lengths, then base, exponent and
    modulus, then anything. *)
Definition modexp_input (base exp mod_ rest : bytes) : bytes :=
  be_bytes 32 (zlen base) ++ be_bytes 32 (zlen exp) ++ be_bytes 32 (zlen mod_) ++ base ++ exp ++ mod_ ++ rest.

Lemma getData_inside pre d post :
  zlen (pre ++ d ++ post) < 2 ^ 62 -> getData (pre ++ d ++ post) (zlen pre) (zlen d) = Done d.
Proof.
  intros Hl. rewrite !length_app in Hl. rewrite getData_spec; [|rewrite ?length_app; lia..].
  rewrite !Nat2Z.id, drop_app_length, take_app_length. f_equal. unfold RightPadBytes.
  by rewrite (proj2 (Z.leb_le _ _)) by lia.
Qed.

Lemma modexp_header_input base exp mod_ rest :
  zlen (modexp_input base exp mod_ rest) < 2 ^ 62 ->
  modexp_header (modexp_input base exp mod_ rest) =
  Done (zlen base, zlen exp, zlen mod_, base ++ exp ++ mod_ ++ rest).
Proof.
  intros Hl. unfold modexp_header. unfold modexp_input in *.
  set (b := be_bytes 32 (zlen base)) in *. set (e := be_bytes 32 (zlen exp)) in *.
  set (m := be_bytes 32 (zlen mod_)) in *. set (t := base ++ exp ++ mod_ ++ rest) in *.
  assert (length b = 32%nat /\ length e = 32%nat /\ length m = 32%nat) as (Hb & He & Hm).
  { unfold b, e, m. by rewrite !length_be_bytes. }
  pose proof (getData_inside [] b (e ++ m ++ t) Hl) as Gb. rewrite Hb in Gb. rewrite ?app_nil_l in Gb.
  change (zlen ([] : bytes)) with 0 in Gb.
  pose proof (getData_inside b e (m ++ t) Hl) as Ge. rewrite Hb, He in Ge.
  pose proof (getData_inside (b ++ e) m t) as Gm. rewrite <-!app_assoc in Gm. specialize (Gm Hl).
  rewrite length_app, Hb, He, Hm in Gm. change (Z.of_nat 32) with 32 in *. change (Z.of_nat (32 + 32)) with 64 in Gm.
  rewrite Gb, Ge, Gm. cbn [obind].
  rewrite !length_app, Hb, He, Hm in Hl. unfold t in Hl. rewrite !length_app in Hl.
  assert (SetBytes b = zlen base /\ SetBytes e = zlen exp /\ SetBytes m = zlen mod_) as (-> & -> & ->).
  { unfold b, e, m. rewrite !SetBytes_be_bytes. change (256 ^ Z.of_nat 32) with (2 ^ 256).
    rewrite !Z.mod_small by lia. done. }
  clearbody b e m. do 2 f_equal.
  destruct (Z.ltb_spec 96 (zlen (b ++ e ++ m ++ t))) as [H96|H96]; rewrite !length_app, Hb, He, Hm in H96.
  - rewrite (app_assoc e), (app_assoc b), drop_app_ge by (rewrite !length_app; lia). rewrite !length_app, Hb, He, Hm. done.
  - assert (length t = 0)%nat as Ht%nil_length_inv by lia. by rewrite Ht.
Qed.

(** On a complete input whose modulus is not zero, [bigModExp] returns
    base^exp mod modulus as a big-endian number of the length of the modulus;
    for a zero modulus it returns that many zero bytes. *)
Theorem bigModExp_spec base exp mod_ rest :
  zlen (modexp_input base exp mod_ rest) < 2 ^ 62 ->
  bigModExp_Run (modexp_input base exp mod_ rest) =
  Done (if SetBytes mod_ =? 0 then replicate (length mod_) Byte.x00
        else be_bytes (length mod_) (SetBytes base ^ SetBytes exp mod SetBytes mod_), None).
Proof.
  intros Hl. unfold bigModExp_Run. rewrite modexp_header_input by done. cbn [obind].
  unfold modexp_input in Hl. rewrite !length_app, !length_be_bytes in Hl. unfold Uint64.
  rewrite !(u64_small (zlen _)) by (unfold is_u64; lia).
  destruct ((zlen base =? 0) && (zlen mod_ =? 0)) eqn:E0.
  { apply andb_true_iff in E0 as [_ E0%Z.eqb_eq]. destruct mod_ as [|]; [done|simpl in E0; lia]. }
  pose proof (getData_inside [] base (exp ++ mod_ ++ rest)) as Gb. rewrite ?app_nil_l in Gb.
  pose proof (getData_inside base exp (mod_ ++ rest)) as Ge.
  pose proof (getData_inside (base ++ exp) mod_ rest) as Gm. rewrite <-!app_assoc, length_app in Gm.
  rewrite !length_app in Gb, Ge, Gm. rewrite !u64_small by (unfold is_u64; lia). rewrite <-Nat2Z.inj_add.
  change (zlen ([] : bytes)) with 0 in Gb. rewrite Gb, Ge, Gm by lia. cbn [obind]. rewrite Int64_small by lia.
  pose proof (SetBytes_range mod_) as Hm. unfold BitLen.
  destruct (Z.eqb_spec (SetBytes mod_) 0) as [E|E]; simpl.
  - unfold LeftPadBytes. destruct (Z.leb_spec (zlen mod_) 0); simpl.
    + destruct mod_; [done|]. simpl in *. lia.
    + rewrite app_nil_r, (proj2 (Z.leb_gt _ _)) by done. do 3 f_equal. lia.
  - pose proof (Z.log2_nonneg (Z.abs (SetBytes mod_))). destruct (Z.eqb_spec (Z.log2 (Z.abs (SetBytes mod_)) + 1) 0); [lia|].
    pose proof (Z.mod_pos_bound (SetBytes base ^ SetBytes exp) (SetBytes mod_) ltac:(lia)).
    rewrite LeftPad_BigBytes by lia. done.
Qed.

(** 3^5 mod 7 = 5, with a two-byte modulus. *)
Lemma bigModExp_spec_witness :
  bigModExp_Run (modexp_input [Byte.x03] [Byte.x05] [Byte.x00; Byte.x07] []) = Done ([Byte.x00; Byte.x05], None).
Proof. 
  rewrite (bigModExp_spec [Byte.x03] [Byte.x05] [Byte.x00; Byte.x07] []) by (vm_compute; reflexivity).
  vm_compute. reflexivity.
 Defined.
