(* ===== verification/VmArith.v ===== *)
(** * core/vm: what the arithmetic instructions compute
    The instructions work on unbounded integers that stand for 256-bit words
    (instructions.go with common/math); here they are related to signed and
    unsigned arithmetic on words: truncated division, arithmetic shifts, sign
    extension, byte selection, exponentiation. *)

From S2P Require Import Prelude MathUtil VmBase VmEnv VmInstr.

Section Arith.
Context {S : Type}.

(** The instruction replaces the words [args] on top of the stack by [v]. *)
Definition computes (x : executionFunc S) (args : list Z) (v : Z) : Prop :=
  forall env calls f st, stack f = args ++ st -> x env calls f = ok (with_stack f (v :: st)).

Lemma computes_pop_peek g x y : computes (pop_peek g) [x; y] (g x y).
Proof. intros env cs f st Hst. unfold pop_peek. by rewrite Hst. Qed.

Lemma computes_pop_pop g x y : computes (pop_pop g) [x; y] (g x y).
Proof. intros env cs f st Hst. unfold pop_pop. by rewrite Hst. Qed.

Lemma computes_pop_pop_pop g x y z : computes (pop_pop_pop g) [x; y; z] (g x y z).
Proof. intros env cs f st Hst. unfold pop_pop_pop. by rewrite Hst. Qed.

(** ** Signed words *)

Lemma S256_0 x : is_u256 x -> S256 x = 0 <-> x = 0.
Proof. unfold is_u256, S256, tt255, tt256. intros Hx. zcase; lia. Qed.

Lemma sgn_cases a : a <> 0 -> Z.sgn a = 1 \/ Z.sgn a = -1.
Proof. lia. Qed.

Lemma sdiv_quot x y :
  is_u256 x -> is_u256 y -> sdiv x y = if y =? 0 then 0 else U256 (Z.quot (S256 x) (S256 y)).
Proof.
  intros Hx Hy. unfold sdiv. pose proof (S256_0 x Hx). pose proof (S256_0 y Hy).
  destruct (Z.eqb_spec y 0) as [->|]; [done|]. assert (S256 y <> 0) as E by tauto.
  rewrite (proj2 (Z.eqb_neq _ _) E). simpl. destruct (Z.eqb_spec (S256 x) 0) as [->|Ex]; [done|].
  rewrite Z.quot_div by done.
  destruct (sgn_cases _ Ex) as [-> | ->], (sgn_cases _ E) as [-> | ->]; simpl; f_equal; lia.
Qed.

Lemma smod_rem x y :
  is_u256 x -> is_u256 y -> smod x y = if y =? 0 then 0 else U256 (Z.rem (S256 x) (S256 y)).
Proof.
  intros Hx Hy. unfold smod. pose proof (S256_0 y Hy).
  destruct (Z.eqb_spec y 0) as [->|]; [done|]. assert (S256 y <> 0) as E by tauto.
  rewrite (proj2 (Z.eqb_neq _ _) E), Z.rem_mod by done.
  destruct (Z.ltb_spec (Z.sgn (S256 x)) 0) as [Hs|Hs].
  - assert (Z.sgn (S256 x) = -1) as -> by lia. f_equal; lia.
  - destruct (Z.eq_dec (S256 x) 0) as [->|]; [by rewrite Z.mod_0_l by lia|].
    assert (Z.sgn (S256 x) = 1) as -> by lia. f_equal; lia.
Qed.

Lemma slt_signed x y : is_u256 x -> is_u256 y -> slt x y = b2z (S256 x <? S256 y).
Proof. unfold is_u256, slt, S256, tt255, tt256, b2z. intros Hx Hy. zcase; simpl; lia. Qed.

Lemma sgt_signed x y : is_u256 x -> is_u256 y -> sgt x y = b2z (S256 y <? S256 x).
Proof. unfold is_u256, sgt, S256, tt255, tt256, b2z. intros Hx Hy. zcase; simpl; lia. Qed.

(** On 256-bit words, SDIV and SMOD are division truncated towards zero
    and its remainder on the two's complement values (zero for a zero divisor,
    and wrapping for the one overflowing quotient), and SLT and SGT compare the
    two's complement values. *)
Theorem signed_instructions x y :
  is_u256 x -> is_u256 y ->
  computes opSdiv [x; y] (if y =? 0 then 0 else U256 (Z.quot (S256 x) (S256 y))) /\
  computes opSmod [x; y] (if y =? 0 then 0 else U256 (Z.rem (S256 x) (S256 y))) /\
  computes opSlt [x; y] (b2z (S256 x <? S256 y)) /\
  computes opSgt [x; y] (b2z (S256 y <? S256 x)).
Proof.
  intros Hx Hy. rewrite <-sdiv_quot, <-smod_rem, <-slt_signed, <-sgt_signed by done.
  split_and!; [apply computes_pop_pop|apply computes_pop_pop|apply computes_pop_peek|apply computes_pop_peek].
Qed.

(** ** Shifts *)

Lemma div_pow2_large v n : - 2 ^ n <= v < 2 ^ n -> 0 <= n -> v / 2 ^ n = if 0 <=? v then 0 else -1.
Proof.
  intros Hv Hn. destruct (Z.leb_spec 0 v); [apply Z.div_small; lia|].
  symmetry. apply Z.div_unique with (v + 2 ^ n); lia.
Qed.

(** A larger shift gives the same quotient. *)
Lemma sar_large v n : - two255 <= v < two255 -> 256 <= n -> v / 2 ^ n = if 0 <=? v then 0 else -1.
Proof.
  intros Hv Hn. apply div_pow2_large; [|lia].
  assert (2 ^ 256 <= 2 ^ n) by (apply Z.pow_le_mono_r; lia). lia.
Qed.

Lemma sar_spec n v : is_u256 n -> is_u256 v -> sar n v = U256 (S256 v / 2 ^ n).
Proof.
  intros Hn Hv. unfold sar. rewrite (U256_small n) by done. pose proof (S256_range v Hv).
  unfold is_u256 in Hn. destruct (Z.leb_spec 256 n).
  - f_equal. symmetry. by apply sar_large.
  - unfold Uint64. rewrite u64_small by (unfold is_u64; lia). by rewrite Z.shiftr_div_pow2 by lia.
Qed.

Lemma shr_spec n v : is_u256 n -> is_u256 v -> shr n v = v / 2 ^ n.
Proof.
  intros Hn Hv. unfold shr. rewrite !(U256_small n), !(U256_small v) by done. unfold is_u256 in *.
  destruct (Z.leb_spec 256 n).
  - assert (2 ^ 256 <= 2 ^ n) by (apply Z.pow_le_mono_r; lia). symmetry. apply Z.div_small.
    lia.
  - unfold Uint64. rewrite u64_small by (unfold is_u64; lia). rewrite Z.shiftr_div_pow2 by lia.
    apply U256_small. unfold is_u256. pose proof (Z.pow_pos_nonneg 2 n).
    split; [apply Z.div_pos; lia|]. apply Z.div_lt_upper_bound; nia.
Qed.

Lemma shl_spec n v : is_u256 n -> is_u256 v -> shl n v = v * 2 ^ n mod two256.
Proof.
  intros Hn Hv. unfold shl. rewrite !(U256_small n), !(U256_small v) by done. unfold is_u256 in *.
  destruct (Z.leb_spec 256 n).
  - replace n with (256 + (n - 256)) by lia. rewrite Z.pow_add_r by lia.
    replace (v * (2 ^ 256 * 2 ^ (n - 256))) with (v * 2 ^ (n - 256) * two256) by lia.
    by rewrite Z.mod_mul.
  - unfold Uint64. rewrite u64_small by (unfold is_u64; lia). rewrite Z.shiftl_mul_pow2 by lia. apply U256_mod.
Qed.

(** SHL and SHR multiply and divide by a power of two, dropping what leaves
    the word, and SAR divides the two's complement value rounding down, for
    every 256-bit shift amount. *)
Theorem shift_instructions n v :
  is_u256 n -> is_u256 v ->
  computes opSHL [n; v] (v * 2 ^ n mod two256) /\
  computes opSHR [n; v] (v / 2 ^ n) /\
  computes opSAR [n; v] (U256 (S256 v / 2 ^ n)).
Proof.
  intros Hn Hv. rewrite <-shl_spec, <-shr_spec, <-sar_spec by done.
  split_and!; [apply computes_pop_peek|apply computes_pop_peek|apply computes_pop_pop].
Qed.

(** ** Sign extension, bytes, modular arithmetic *)

(** The [n]-bit two's complement value of [v]. *)
Definition signed (n v : Z) : Z :=
  let v := v mod 2 ^ n in if v <? 2 ^ (n - 1) then v else v - 2 ^ n.

Lemma lor_lnot_ones v n : 0 <= n -> Z.lor v (Z.lnot (Z.ones n)) = v mod 2 ^ n - 2 ^ n.
Proof.
  intros Hn. rewrite <-(Z.lnot_involutive v) at 1. rewrite <-Z.lnot_land, Z.land_ones by done.
  assert (0 < 2 ^ n) by (apply Z.pow_pos_nonneg; lia).
  assert (Z.lnot v mod 2 ^ n = 2 ^ n - 1 - v mod 2 ^ n) as ->; [|unfold Z.lnot; lia].
  pose proof (Z.mod_pos_bound v (2 ^ n) ltac:(lia)). symmetry.
  apply Z.mod_unique with (- (v / 2 ^ n) - 1); [lia|].
  pose proof (Z.div_mod v (2 ^ n) ltac:(lia)). unfold Z.lnot. lia.
Qed.

Lemma signExtend_spec back num :
  0 <= back < 31 -> signExtend back num = U256 (signed (8 * (back + 1)) num).
Proof.
  intros Hb. unfold signExtend, Uint64. rewrite u64_small by (unfold is_u64; lia).
  set (bit := back * 8 + 7). replace (8 * (back + 1)) with (bit + 1) by lia. unfold signed.
  replace (bit + 1 - 1) with bit by lia. assert (0 <= bit) by lia.
  assert (Z.shiftl 1 bit - 1 = Z.ones bit) as -> by (rewrite Z.shiftl_1_l, Z.ones_equiv; lia).
  assert (0 < 2 ^ bit) by (apply Z.pow_pos_nonneg; lia).
  assert (num mod 2 ^ (bit + 1) = num mod 2 ^ bit + 2 ^ bit * Z.b2z (Z.testbit num bit)) as Hm.
  { rewrite Z.pow_add_r, Z.rem_mul_r, <-Z.testbit_spec' by lia. done. }
  pose proof (Z.mod_pos_bound num (2 ^ bit) ltac:(lia)). f_equal. rewrite Hm.
  destruct (Z.testbit num bit); simpl Z.b2z.
  - rewrite (proj2 (Z.ltb_ge _ _)), lor_lnot_ones, Z.pow_add_r by lia. lia.
  - rewrite (proj2 (Z.ltb_lt _ _)), Z.land_ones by lia. lia.
Qed.

(** SIGNEXTEND reads the low [back + 1] bytes of a word as a two's
    complement number and leaves the word of that value; from [back = 31] on it
    leaves the word as it is. *)
Theorem signextend_instruction back num :
  0 <= back ->
  computes opSignExtend [back; num] (if back <? 31 then U256 (signed (8 * (back + 1)) num) else num).
Proof.
  intros Hb env cs f st Hst. unfold opSignExtend. rewrite Hst. simpl.
  destruct (Z.ltb_spec back 31); simpl; [|done]. by rewrite signExtend_spec.
Qed.

(** BYTE selects a byte of a word counted from its most significant one
    (zero past the last), ADDMOD and MULMOD reduce the unbounded sum and
    product (zero for a zero modulus), and EXP is exponentiation modulo
    2^256, for any base and exponent words. *)
Theorem word_instructions x y z :
  is_u256 x -> is_u256 y -> is_u256 z ->
  computes opByte [x; y] (if x <? 32 then y / 256 ^ (31 - x) mod 256 else 0) /\
  computes opAddmod [x; y; z] (if z =? 0 then 0 else (x + y) mod z) /\
  computes opMulmod [x; y; z] (if z =? 0 then 0 else (x * y) mod z) /\
  computes opExp [x; y] (x ^ y mod two256).
Proof.
  intros Hx Hy Hz.
  replace (if x <? 32 then y / 256 ^ (31 - x) mod 256 else 0)
    with (if x <? 32 then Z_of_byte (Byte y 32 (Int64 x)) else 0).
  2:{ destruct (Z.ltb_spec x 32); [|done]. unfold is_u256 in *. rewrite Int64_small by lia.
      unfold Byte. rewrite (proj2 (Z.leb_gt _ _)), bigEndianByteAt_spec, Z_of_byte_of_Z by lia. do 3 f_equal; lia. }
  assert (forall v, (if 0 <? z then U256 (v mod z) else 0) = if z =? 0 then 0 else v mod z) as Hmod.
  { intros v. unfold is_u256 in *. destruct (Z.ltb_spec 0 z), (Z.eqb_spec z 0); try lia.
    apply U256_small. pose proof (Z.mod_pos_bound v z). unfold is_u256. lia. }
  rewrite <-!Hmod.
  replace (x ^ y mod two256) with (if y <? 1 then 1 else if x =? 0 then 0 else if y =? 1 then x else Exp x y).
  2:{ unfold is_u256 in *. destruct (Z.ltb_spec y 1); [by replace y with 0 by lia|].
      destruct (Z.eqb_spec x 0) as [->|]; [by rewrite Z.pow_0_l by lia|].
      destruct (Z.eqb_spec y 1) as [->|]; [by rewrite Z.pow_1_r, Z.mod_small by lia|]. apply Exp_pow. lia. }
  split_and!; [apply computes_pop_peek|apply (computes_pop_pop_pop (fun x y z => if 0 <? z then _ else 0))|
    apply (computes_pop_pop_pop (fun x y z => if 0 <? z then _ else 0))|apply computes_pop_pop].
Qed.
End Arith.

Lemma signed_instructions_witness :
  computes (S := unit) opSdiv [U256 (-7); 2] (U256 (-3)) /\ computes (S := unit) opSmod [U256 (-7); 2] (U256 (-1)) /\
  computes (S := unit) opSlt [U256 (-7); 2] 1 /\ computes (S := unit) opSgt [U256 (-7); 2] 0.
Proof. apply (signed_instructions (U256 (-7)) 2); by vm_compute. Defined.

Lemma shift_instructions_witness :
  computes (S := unit) opSHL [4; 2 ^ 255 + 3] 48 /\ computes (S := unit) opSHR [1; 2 ^ 255 + 3] (2 ^ 254 + 1) /\
  computes (S := unit) opSAR [300; 2 ^ 255 + 3] (two256 - 1).
Proof.
  split_and!; [apply (shift_instructions 4 (2 ^ 255 + 3))|apply (shift_instructions 1 (2 ^ 255 + 3))|
    apply (shift_instructions 300 (2 ^ 255 + 3))]; by vm_compute.
Defined.

Lemma signextend_instruction_witness : computes (S := unit) opSignExtend [0; 0x1ff] (two256 - 1).
Proof. apply (signextend_instruction 0 0x1ff). lia. Defined.

Lemma word_instructions_witness :
  computes (S := unit) opByte [31; 0x1234] 0x34 /\ computes (S := unit) opAddmod [31; 0x1234; 7] 1 /\
  computes (S := unit) opMulmod [31; 0x1234; 7] (31 * 0x1234 mod 7) /\
  computes (S := unit) opExp [31; 0x1234] (31 ^ 0x1234 mod two256).
Proof. apply (word_instructions 31 0x1234 7); by vm_compute. Defined.
