(* ===== verification/VmFacts.v ===== *)
(** * core/vm: functional properties of the components
    Jump destinations, memory, call gas, PUSH, and the net gas metering of
    SSTORE, each for every input. *)

From S2P Require Import Prelude MathUtil VmBase VmEnv VmGas VmInstr VmInterp VmAnalysis World VmInv VmMemory VmGasSpec.
#[local] Open Scope gas_scope.

(** ** Jump destinations *)

(** A jump is accepted exactly when its destination is a JUMPDEST at which
    an instruction starts (not data of a PUSH); the validation returns, and it
    keeps the caches of analysed code correct. *)
Theorem validJumpdest_exact {S} keccak (e : EVM S) c dest :
  (forall x y, keccak x = keccak y -> x = y) ->
  jumpdests_ok keccak (jumpdests e) -> analysis_ok keccak c -> 0 <= dest -> zlen (Code c) < 2 ^ 62 ->
  exists j c' ok, validJumpdest e c dest = Done (set_jumpdests e j, c', ok) /\
    jumpdests_ok keccak j /\ analysis_ok keccak c' /\ Code c' = Code c /\ Gas c' = Gas c /\
    (ok = true <-> is_jumpdest (Code c) dest).
Proof.
  intros Hk Hj Ha Hd Hl.
  destruct (validJumpdest_spec keccak Hk e c dest Hj Ha Hd Hl) as (j & c' & b & H1 & H2 & H3 & H4 & H5).
  exists j, c', b. split_and!; try done; by destruct H4 as [-> |[? ->]].
Qed.

(** The bitmap of a program marks exactly the bytes at which no
    instruction starts: it is computed without an access out of bounds, and
    [codeSegment] tells the two kinds apart at every offset of the code. *)
Theorem codeBitmap_exact code :
  exists bits, Analysis.codeBitmap code = Done bits /\
    forall p, 0 <= p < zlen code ->
      exists b, Analysis.codeSegment bits p = Done b /\ (b = true <-> starts code p).
Proof.
  destruct (codeBitmap_spec code) as (bits & Hb & _). exists bits. split; [done|].
  intros p Hp. by apply codeBitmap_segment.
Qed.

(** ** Memory *)

(** MSTORE and MLOAD: a word written to paid memory reads back modulo
    2^256, at every other offset the memory is as before, and its size does
    not change. *)
Theorem memory_word_roundtrip m off v :
  mem_ok m -> 0 <= off -> 0 <= v -> off + 32 <= Memory.Len m ->
  exists m' d, Memory.Set32 m (Uint64 off) v = Done m' /\ mem_ok m' /\ Memory.Len m' = Memory.Len m /\
    Memory.GetPtr m' (Int64 off) (Int64 32) = Done d /\ SetBytes d = v mod two256 /\
    (forall i, (i < Z.to_nat off \/ Z.to_nat off + 32 <= i)%nat -> Memory.store m' !! i = Memory.store m !! i).
Proof.
  intros Hm Ho Hv Hl. pose proof (mo_max _ Hm) as Hmax.
  destruct (Set32_spec m off v Hmax Ho Hv Hl) as (m' & Hs & Hl' & Hc & _ & Hst).
  assert (length (be_bytes 32 v) = 32%nat) as Hb by apply length_be_bytes.
  destruct (GetPtr_spec m' off 32) as (d & Hd & _ & ->); [lia|split; [done|right; lia]|].
  exists m', (contents m' off 32). split_and!; try done; [by apply (mem_ok_same m)| |].
  - unfold contents. rewrite Hst. change (Z.to_nat 32) with 32%nat. rewrite <-Hb at 1.
    rewrite blit_window by (rewrite Hb; unfold Memory.Len in *; lia). apply SetBytes_be_bytes.
  - intros i Hi. rewrite Hst. unfold blit. rewrite (take_ge (be_bytes 32 v)) by (rewrite Hb; unfold Memory.Len in *; lia).
    destruct Hi as [Hi|Hi].
    + rewrite lookup_app_l by (rewrite length_take; unfold Memory.Len in *; lia). by apply lookup_take_lt.
    + rewrite lookup_app_r, lookup_app_r by (rewrite ?length_take, ?Hb; unfold Memory.Len in *; lia).
      rewrite lookup_drop. f_equal. rewrite length_take, Hb. unfold Memory.Len in *. lia.
Qed.

(** The requests of a run, in words: each is charged and the memory grown. *)
Fixpoint grow (growslice : Z -> Z -> Z) (m : Memory.t) (ks : list Z) : option (Memory.t * Z) :=
  match ks with
  | [] => Some (m, 0)
  | k :: ks =>
      match memoryGasCost m (32 * k) with
      | (_, inr _) => None
      | (m, inl fee) =>
          '(m, total) ← grow growslice (Memory.Resize growslice m (32 * k)) ks; Some (m, fee + total)
      end
  end.

Lemma mem_words_Resize g m k :
  mem_ok m -> 0 <= k -> 32 * k <= maxMem ->
  mem_words (Memory.Resize g (charged m (32 * k)) (32 * k)) = Z.max (mem_words m) k.
Proof.
  intros Hm Hk Hmax. destruct (Resize_charged g m k Hm Hk Hmax) as (_ & Hl & _). unfold mem_words.
  rewrite Hl. pose proof (mo_words _ Hm) as Hw. unfold mem_words in Hw. set (q := Memory.Len m / 32) in *.
  replace (Z.max (Memory.Len m) (32 * k)) with (Z.max q k * 32) by lia. by rewrite Z.div_mul by lia.
Qed.

(** Memory is paid for once: whatever the requests of a run and their
    order, the fees charged add up to the quadratic price of the final size
    minus that of the initial one, the final size is the largest request, and
    the bytes that were there stay. *)
Theorem memory_fee_telescopes growslice m ks :
  mem_ok m -> Forall (fun k => 0 <= k /\ 32 * k <= maxMem) ks ->
  exists m' total, grow growslice m ks = Some (m', total) /\ mem_ok m' /\
    mem_words m' = foldr Z.max (mem_words m) ks /\
    total = memcost (mem_words m') - memcost (mem_words m) /\
    take (length (Memory.store m)) (Memory.store m') = Memory.store m.
Proof.
  intros Hm Hks. revert m Hm. induction Hks as [|k ks [Hk Hmax] Hks IH]; intros m Hm; simpl.
  { exists m, 0. split_and!; try done; [lia|]. by rewrite take_ge. }
  rewrite memoryGasCost_spec by done. rewrite (proj2 (Z.ltb_ge _ _)) by done.
  destruct (Resize_charged growslice m k Hm Hk Hmax) as (Hm1 & Hl1 & Ht1).
  pose proof (mem_words_Resize growslice m k Hm Hk Hmax) as Hw1.
  set (m1 := Memory.Resize growslice _ _) in *.
  destruct (IH m1 Hm1) as (m' & total & -> & Hm' & Hw' & Hto & Ht'). simpl.
  eexists _, _. split; [done|]. split_and!; [done| | |].
  - rewrite Hw', Hw1. clear. induction ks as [|j ks IH]; simpl; [lia|]. rewrite IH. lia.
  - rewrite Hto, Hw1. lia.
  - rewrite <-Ht1 at 2. rewrite <-Ht'. rewrite take_take. f_equal.
    unfold Memory.Len in Hl1. lia.
Qed.

(** ** Gas of calls *)

(** From EIP 150 on a call is given what it asks for, but never more than
    all but one 64th of the gas that remains after the costs of the
    instruction, so that the caller keeps at least that part. *)
Theorem callGas_all_but_64th available base asked :
  is_u64 available -> 0 <= base <= available -> 0 <= asked ->
  callGas true available base asked =
    (Z.min asked ((available - base) - (available - base) / 64), None).
Proof.
  intros Ha Hb Hc. unfold callGas, is_u64 in *. rewrite (u64_small (available - base)) by (unfold is_u64; lia).
  assert (0 <= (available - base) / 64 <= available - base).
  { split; [apply Z.div_pos; lia|]. apply Z.div_le_upper_bound; lia. }
  rewrite u64_small by (unfold is_u64; lia). set (cap := _ - _ / 64) in *.
  destruct (IsUint64 asked) eqn:E; simpl.
  - apply IsUint64_true in E. unfold Uint64. rewrite u64_small by done.
    destruct (Z.ltb_spec cap asked); f_equal; lia.
  - f_equal. unfold IsUint64 in E. rewrite Z.min_r; [done|].
    apply andb_false_iff in E as [E%Z.leb_gt|E%Z.ltb_ge]; lia.
Qed.

(** ** PUSH *)

(** PUSHn pushes the [n] bytes that follow it as a big-endian number, with
    zeros for the bytes past the end of the code, and leaves the program
    counter on the last of them. *)
Theorem push_instruction {S} env calls (f : Frame S) n :
  0 <= pc f < zlen (Code (contract f)) -> zlen (Code (contract f)) < 2 ^ 62 -> 1 <= n <= 32 ->
  makePush n n env calls f =
  ok (with_stack (with_pc f (pc f + n))
        (SetBytes (RightPadBytes (take (Z.to_nat n) (drop (Z.to_nat (pc f + 1)) (Code (contract f)))) n)
         :: stack f)).
Proof.
  intros Hpc Hl Hn. unfold makePush. rewrite !u64_small by (unfold is_u64; lia). rewrite Int64_small by lia.
  set (code := Code (contract f)) in *. set (start := if _ <? _ then _ else _).
  assert (start = pc f + 1) as -> by (unfold start; zcase; lia).
  set (stop := if _ <? _ then _ else _).
  rewrite slice_some by (unfold stop; zcase; lia). simpl. unfold ok, Stack.push. do 7 f_equal.
  unfold stop. destruct (Z.ltb_spec (pc f + 1 + n) (zlen code)); [f_equal; lia|].
  rewrite !take_ge; [done| |]; rewrite length_drop; lia.
Qed.

(** ** Net gas metering (EIP-2200) *)

(** What the writes to a slot have cost so far, beyond the price of a dirty
    write each, when its value is [cur]. *)
Definition sstore_debt (orig cur : Hash) : Z :=
  if orig =? cur then 0
  else if orig =? 0 then 19200
  else if cur =? 0 then 4200 - 15000 else 4200.

Section NetMetering.
Context {S : Type} `{HS : vmStateDB S} (env : Env) `{!StateRefines (keccak256 env) S}.
Implicit Types (w : World) (r : list (Z * World)) (e : EVM S).
Abbreviation world_ok := (world_ok (keccak256 env) true).

Definition original w (a : Address) (k : Hash) : Hash := slot (a_committed (W.get (keccak256 env) w a)) k.
Definition current w (a : Address) (k : Hash) : Hash := slot (a_storage (W.get (keccak256 env) w a)) k.

(** The refund counter after a write of price [cost]. *)
Definition refund_after (orig cur v : Hash) (refund cost : Z) : Z :=
  refund + cost - (800 + sstore_debt orig v - sstore_debt orig cur).

(** The price of one write and its effect on the refund counter. *)
Lemma gasSStoreEIP2200_exact c x y st e m w r :
  repr (StateDB e) w r -> world_ok w -> w_refund w + 24000 < two64 -> 2300 < Gas c ->
  let orig := original w (self c) (BigToHash x) in
  let cur := current w (self c) (BigToHash x) in
  gwp (gasSStoreEIP2200 c (x :: y :: st) 0) e m (fun e' m' res =>
    exists s' cost, e' = set_StateDB e s' /\ m' = m /\ res = inl cost /\
      let ρ := refund_after orig cur (BigToHash y) (w_refund w) cost in
      repr s' (W.set_refund w ρ) r /\ 0 <= ρ <= w_refund w + 24000 /\
      w_refund w + refund_delta orig cur (BigToHash y) <= ρ).
Proof.
  intros Hr Hw Hb Hg orig cur. set (Q := fun e' m' res => _).
  unfold gasSStoreEIP2200, Params.SstoreNoopGasEIP2200, Params.SstoreInitGasEIP2200,
    Params.SstoreClearRefundEIP2200, Params.SstoreCleanGasEIP2200, Params.SstoreInitRefundEIP2200,
    Params.SstoreCleanRefundEIP2200, Params.SstoreDirtyGasEIP2200.
  rewrite (proj2 (Z.leb_gt _ _)) by done. do 6 gstep. rewrite (repr_GetState _ _ _ _ _ Hr).
  fold (current w (self c) (BigToHash x)). fold cur. set (v := BigToHash y) in *.
  pose proof (proj1 (wo_refund _ _ _ Hw)) as Hu. unfold is_u64 in Hu.
  assert (forall s ρ cost, repr s (W.set_refund w ρ) r -> ρ = refund_after orig cur v (w_refund w) cost ->
    0 <= ρ <= w_refund w + 24000 -> w_refund w + refund_delta orig cur v <= ρ ->
    gwp (gret cost) (set_StateDB e s) m Q) as Hfin.
  { intros s ρ cost Hs -> ? ?. exists s, cost. unfold Q. simpl. split_and!; done || lia. }
  assert (repr (StateDB e) (W.set_refund w (w_refund w)) r) as H0 by by rewrite set_refund_id.
  apply gwp_eta. unfold refund_after, sstore_debt, refund_delta in Hfin. clearbody Q.
  apply gwp_if; intros Hv. { eapply Hfin; [done|..]; zcase. }
  do 2 gstep. simpl StateDB. rewrite (repr_GetCommittedState _ _ _ _ _ Hr).
  fold (original w (self c) (BigToHash x)). fold orig.
  apply gwp_if; intros Ho.
  - apply gwp_if; intros Hz; [eapply Hfin; [done|..]; zcase|].
    gstep. apply gwp_if; intros Hv0.
    + eapply (gwp_addRefund env); [done|lia..|]. intros s' Hs'. gstep. eapply Hfin; [done|..]; zcase.
    + apply gwp_skip. gstep. eapply Hfin; [done|..]; zcase.
  - assert (forall s ρ, repr s (W.set_refund w ρ) r -> 0 <= ρ <= w_refund w + 15000 ->
      ρ = w_refund w - (if negb (orig =? 0) then if cur =? 0 then 15000 else if v =? 0 then -15000 else 0 else 0) ->
      gwp (let* _ := if orig =? v then if orig =? 0 then addRefund 19200 else addRefund 4200 else gskip in gret 800)
        (set_StateDB e s) m Q) as Htail.
    { intros s ρ Hs Hρ Heq. gstep. apply gwp_if; intros Hov.
      - assert (ρ <= w_refund w) by (rewrite Heq; zcase).
        apply gwp_if; intros Hz; (eapply (gwp_addRefund env); [exact Hs|lia..|]); intros s' Hs'; gstep;
          (eapply Hfin; [exact Hs'|..]); zcase.
      - apply gwp_skip. gstep. eapply Hfin; [done|..]; zcase. }
    gstep. apply gwp_if; [intros Hz|intros Hz]; rewrite Hz in Htail.
    + apply gwp_if; intros Hc0; rewrite Hc0 in Htail.
      * apply Z.eqb_eq in Hc0. apply negb_true_iff, Z.eqb_neq in Hz.
        pose proof (sstore_take_back env true c w Hw (BigToHash x) eq_refl Hz Hc0).
        eapply (gwp_subRefund env); [done|done|]. intros s' Hs'. eapply Htail; [done|lia..].
      * apply gwp_if; intros Hv0; rewrite Hv0 in Htail.
        -- eapply (gwp_addRefund env); [done|lia..|]. intros s' Hs'. eapply Htail; [done|lia..].
        -- apply gwp_skip. eapply Htail; [done|lia..].
    + apply gwp_skip. eapply Htail; [done|lia..].
Qed.

(** A sequence of writes to the slot [x]: the total price, and the state. *)
Fixpoint sstores (c : Contract) (x : Z) (ys : list Z) (e : EVM S) (m : Memory.t) : outcome (EVM S * Z) :=
  match ys with
  | [] => Done (e, 0)
  | y :: ys =>
      let! '(e, m, res) := gasSStoreEIP2200 c [x; y] 0 e m in
      match res with
      | inr _ => OutOfFuel
      | inl cost =>
          let e := set_StateDB e (SetState (StateDB e) (self c) (BigToHash x) (BigToHash y)) in
          let! '(e, total) := sstores c x ys e m in Done (e, cost + total)
      end
  end.

Lemma current_SetState w a k v : current (W.SetState (keccak256 env) w a k v) a k = v.
Proof. unfold current, W.SetState. rewrite get_put_eq. simpl. rewrite slot_set. by case_decide. Qed.

Lemma original_SetState w a k v : original (W.SetState (keccak256 env) w a k v) a k = original w a k.
Proof. unfold original, W.SetState. by rewrite get_put_eq. Qed.

(** C35: net metering (EIP-2200): any sequence of writes to a slot with more
    than 2300 gas left is executed, and its total price minus what it adds to
    the refund counter is 800 per write plus an amount that depends only on the
    slot's original value, its value before the first write and its last value,
    not on the values in between. *)
Theorem eip2200_net_price c x ys e m w r :
  repr (StateDB e) w r -> world_ok w -> w_refund w + 24000 * (zlen ys + 1) < two64 -> 2300 < Gas c ->
  let orig := original w (self c) (BigToHash x) in
  let cur := current w (self c) (BigToHash x) in
  exists e' total w', sstores c x ys e m = Done (e', total) /\ repr (StateDB e') w' r /\
    current w' (self c) (BigToHash x) = default cur (BigToHash <$> last ys) /\
    total - (w_refund w' - w_refund w) =
      800 * zlen ys + sstore_debt orig (current w' (self c) (BigToHash x)) - sstore_debt orig cur.
Proof.
  revert e w. induction ys as [|y ys IH]; intros e w Hr Hw Hb Hg orig cur.
  { exists e, 0, w. split_and!; try done. unfold cur. simpl. lia. }
  cbn [length] in Hb. pose proof (gasSStoreEIP2200_exact c x y [] e m w r Hr Hw ltac:(lia) Hg) as Hex.
  fold orig cur in Hex. unfold gwp in Hex. simpl sstores.
  destruct (gasSStoreEIP2200 c [x; y] 0 e m) as [[[e1 m1] res]| |]; [|done..].
  destruct Hex as (s1 & cost & He1 & Hm1 & Hres & Hr1 & Hρ & Hd). simpl in He1, Hm1, Hres. subst e1 m1 res.
  set (ρ := refund_after _ _ _ _ _) in *.
  set (w1 := W.SetState (keccak256 env) (W.set_refund w ρ) (self c) (BigToHash x) (BigToHash y)).
  assert (world_ok w1) as Hw1.
  { apply world_ok_SetState; [done|rewrite BigToHash_mod; apply Z.mod_pos_bound; lia|unfold is_u64; lia|done]. }
  apply (repr_SetState _ _ _ (self c) (BigToHash x) (BigToHash y)) in Hr1. fold w1 in Hr1. cbn [obind].
  destruct (IH (set_StateDB (set_StateDB e s1) (SetState s1 (self c) (BigToHash x) (BigToHash y))) w1)
    as (e' & total & w' & Hs & Hr' & Hc' & Ht); [done|done|simpl; lia|done|].
  simpl StateDB. rewrite Hs. cbn [obind]. exists e', (cost + total), w'.
  unfold w1 in Hc', Ht. rewrite current_SetState in Hc', Ht. rewrite original_SetState in Ht.
  fold (original w (self c) (BigToHash x)) in Ht. change (original (W.set_refund w ρ)) with (original w) in Ht.
  fold orig in Ht. split_and!; [done|done| |].
  - rewrite Hc'. destruct ys as [|y' ys]; [done|]. rewrite last_cons_cons.
    destruct (last (y' :: ys)) eqn:El; [done|]. by apply last_None in El.
  - simpl w_refund in Ht. cbn [length]. unfold ρ, refund_after in Ht. lia.
Qed.
End NetMetering.
