(* ===== verification/VmExample.v ===== *)
(** * core/vm: concrete executions
    A concrete configuration (all forks active, the native contracts with
    stand-ins for the cryptographic functions, an injective stand-in for
    Keccak-256) and a reference state, on which the theorems about executions
    are applied and programs are run. *)

From S2P Require Import Prelude MathUtil VmBase VmEnv VmGas VmInstr VmTable VmInterp VmAnalysis.
From S2P Require Import World VmInv VmMemory VmStep VmTableOk VmSafe VmFuel Precompiles VmMain VmFacts.

(** ** The configuration *)

Definition ex_keccak (b : bytes) : Hash := SetBytes (Byte.x01 :: b).

Lemma ex_keccak_inj x y : ex_keccak x = ex_keccak y -> x = y.
Proof.
  unfold ex_keccak. rewrite !SetBytes_cons. intros He.
  pose proof (SetBytes_range x). pose proof (SetBytes_range y). change (Z_of_byte Byte.x01) with 1 in He.
  assert (length x = length y) as Hl.
  { destruct (Nat.lt_trichotomy (length x) (length y)) as [Hlt|[?|Hlt]]; [|done|].
    - assert (256 ^ Z.of_nat (S (length x)) <= 256 ^ zlen y) by (apply Z.pow_le_mono_r; lia).
      rewrite Nat2Z.inj_succ, Z.pow_succ_r in * by lia. lia.
    - assert (256 ^ Z.of_nat (S (length y)) <= 256 ^ zlen x) by (apply Z.pow_le_mono_r; lia).
      rewrite Nat2Z.inj_succ, Z.pow_succ_r in * by lia. lia. }
  apply SetBytes_inj; [done|]. rewrite Hl in He. lia.
Qed.

Definition ex_crypto : Crypto :=
  mkCrypto (fun _ _ => Some (replicate 65 Byte.x00)) (fun _ => replicate 32 Byte.x00)
    (fun _ => replicate 32 Byte.x00) (fun _ => replicate 20 Byte.x00) unit unit
    (fun _ => Some tt) (fun _ => Some tt) (fun _ => replicate 64 Byte.x00)
    (fun _ _ => tt) (fun _ _ => tt) (fun _ _ => true).

Lemma ex_crypto_ok : crypto_ok ex_crypto.
Proof. split; simpl; try done. by intros ? ? ? [= <-]. Qed.

Definition ex_rules : Rules := mkRules 1 true true true true true true true true.
Definition ex_ctx : Context := mkContext (fun n => Z.abs n) 7 1 8 1000000 5 1000 2.

Definition ex_env : Env :=
  mkEnv ex_ctx ex_rules (mkConfig false false) ex_keccak (fun cap len => Z.max (2 * cap) len)
    (PrecompiledContractsHomestead ex_crypto) (PrecompiledContractsByzantium ex_crypto)
    (PrecompiledContractsIstanbul ex_crypto)
    (fun a n => 1000 + Z.abs a + Z.abs n) (fun a s h => 2000 + Z.abs a + Z.abs s + Z.abs h).

Lemma ex_env_ok : env_ok ex_env.
Proof.
  split; simpl; try done; try lia.
  - apply ex_keccak_inj.
  - intros. apply SetBytes_range.
  - apply (istanbul_precompiles_ok _ ex_crypto_ok).
Qed.

(** ** The state *)

#[export] Instance ex_ops : vmStateDB Ref.t := Ref.ops ex_keccak.
#[export] Instance ex_refines : StateRefines (keccak256 ex_env) Ref.t := Ref.refines ex_keccak.

(** Accounts with code: balance 1000 each. *)
Definition ex_acct (code : bytes) : Acct := mkAcct 1 1000 (ex_keccak code) code false ∅ ∅.
Definition ex_world (l : list (Address * bytes)) : World :=
  mkWorld (list_to_map (map (fun '(a, c) => (a, ex_acct c)) l)) 0 [] ∅.
Definition ex_evm (w : World) : EVM Ref.t := mkEVM (Ref.mk w [] 0) 0 0 false (RVal []) ∅.

Lemma ex_acct_ok code : zlen code < 2 ^ 62 -> acct_ok ex_keccak (ex_acct code).
Proof.
  intros Hl. split; simpl; try done. apply SetBytes_range.
Qed.

Lemma ex_world_ok net l :
  Forall (fun x => zlen (snd x) < 2 ^ 62) l -> world_ok ex_keccak net (ex_world l).
Proof.
  intros Hl. split.
  - intros a. unfold W.get. destruct (accts (ex_world l) !! a) as [x|] eqn:E; simpl.
    + simpl in E. apply elem_of_list_to_map_2, list_elem_of_In, in_map_iff in E as ([b c] & [= <- <-] & Hin).
      rewrite Forall_forall in Hl. apply ex_acct_ok. apply (Hl (b, c)). by apply list_elem_of_In.
    + apply acct_ok_new. apply SetBytes_range.
  - split; [by unfold is_u64|]. intros _. exists ∅. split; [|done]. intros a k Hc. exfalso. apply Hc.
    unfold W.get. destruct (accts (ex_world l) !! a) as [x|] eqn:E; simpl; [|unfold slot; by rewrite lookup_empty].
    simpl in E. apply elem_of_list_to_map_2, list_elem_of_In, in_map_iff in E as ([b c] & [= <- <-] & Hin).
    unfold slot. simpl. by rewrite lookup_empty.
Qed.

Lemma ex_call_pre l caller gas :
  Forall (fun x => zlen (snd x) < 2 ^ 62) l -> ref_ok caller -> 0 <= gas < 2 ^ 40 ->
  call_pre ex_env (net_metered ex_rules) (ex_evm (ex_world l)) caller gas (ex_world l) [].
Proof.
  intros Hl Hc Hg. split; simpl; try done; try lia.
  - split_and!; try done. constructor.
  - by apply ex_world_ok.
  - unfold potential. simpl. lia.
Qed.

(** ** Programs *)

(** [PUSH1 7 PUSH1 0 SSTORE]: writes 7 to slot 0. *)
Definition writer : bytes := [Byte.x60; Byte.x07; Byte.x60; Byte.x00; Byte.x55].

(** Writes slot 0, then reverts with an empty result:
    [PUSH1 7 PUSH1 0 SSTORE PUSH1 0 PUSH1 0 REVERT]. *)
Definition reverter : bytes := writer ++ [Byte.x60; Byte.x00; Byte.x60; Byte.x00; Byte.xfd].

Definition ex_accounts : list (Address * bytes) := [(7, []); (20, writer); (21, reverter)].
Abbreviation W0 := (ex_world ex_accounts).
Abbreviation E0 := (ex_evm W0).
Abbreviation EVM_ n := (vm ex_env (S := Ref.t) n).

Lemma ex_pre caller gas :
  ref_ok caller -> 0 <= gas < 2 ^ 40 -> call_pre ex_env (net_metered ex_rules) E0 caller gas W0 [].
Proof. apply ex_call_pre. by repeat constructor. Qed.

(** What the programs do: the writer's slot is set, the reverter's call
    fails with the state as it was, a static call of the writer fails. *)
Definition outcome_of (x : outcome (EVM Ref.t * CallResult)) (a : Address)
  : option (option vmError * Z * Hash) :=
  match x with
  | Done (e, r) => Some (err r, leftOverGas r, GetState (StateDB e) a 0)
  | _ => None
  end.

Example call_writer :
  outcome_of (Call (EVM_ 100) E0 (AccountRef 7) 20 [] 30000 3) 20 = Some (None, 9994, 7).
Proof. vm_compute. reflexivity. Qed.

Example call_reverter :
  outcome_of (Call (EVM_ 100) E0 (AccountRef 7) 21 [] 30000 3) 21 = Some (Some errExecutionReverted, 9988, 0).
Proof. vm_compute. reflexivity. Qed.

Example staticcall_writer :
  outcome_of (StaticCall (EVM_ 100) E0 (AccountRef 7) 20 [] 30000) 20 = Some (Some errWriteProtection, 0, 0).
Proof. vm_compute. reflexivity. Qed.

(** ** The theorems on these executions *)

Lemma Call_safe_witness : exists e' res w' r',
  Call (EVM_ (Z.to_nat 40000)) E0 (AccountRef 7) 20 [] 30000 3 = Done (e', res) /\
  repr (StateDB e') w' (r' ++ []) /\ world_ok ex_keccak true w' /\ 0 <= leftOverGas res <= 30000 /\
  potential w' (leftOverGas res) <= potential W0 30000 + 24000 /\
  readOnly e' = readOnly E0 /\ depth e' = depth E0 /\ (err res <> None -> w' = W0).
Proof.
  apply (Call_safe ex_env (Z.to_nat 40000) E0 (AccountRef 7) 20 [] 30000 3 W0 []);
    [exact ex_env_ok|apply ex_pre; simpl; lia|lia|lia|done|lia].
Defined.

Lemma CallCode_DelegateCall_safe_witness : exists e' res w' r',
  DelegateCall (EVM_ (Z.to_nat 40000)) E0 (ContractPtr 7 8 1) 21 [] 30000 = Done (e', res) /\
  repr (StateDB e') w' (r' ++ []) /\ world_ok ex_keccak true w' /\ 0 <= leftOverGas res <= 30000 /\
  (ro ex_env E0 = true -> static ex_keccak W0 w') /\ (err res <> None -> w' = W0).
Proof.
  apply (CallCode_DelegateCall_safe ex_env (Z.to_nat 40000) E0 (ContractPtr 7 8 1) 21 [] 30000 0 W0 []);
    [exact ex_env_ok|apply ex_pre; simpl; lia|exact I|lia|lia|done|lia|by right].
Defined.

Lemma StaticCall_pure_witness : exists e' res w' r',
  StaticCall (EVM_ (Z.to_nat 40000)) E0 (AccountRef 7) 20 [] 30000 = Done (e', res) /\
  repr (StateDB e') w' (r' ++ []) /\ static ex_keccak W0 w' /\ 0 <= leftOverGas res <= 30000 /\
  (err res <> None -> w' = W0).
Proof.
  apply (StaticCall_pure ex_env (Z.to_nat 40000) E0 (AccountRef 7) 20 [] 30000 W0 []);
    [exact ex_env_ok|reflexivity|apply ex_pre; simpl; lia|lia|done|lia].
Defined.

Lemma Create_safe_witness : exists e' res w' r',
  Create2 (EVM_ (Z.to_nat 40000)) E0 (AccountRef 7) reverter 30000 3 5 = Done (e', res) /\
  repr (StateDB e') w' (r' ++ []) /\ world_ok ex_keccak true w' /\ 0 <= create_leftOverGas res <= 30000 /\
  (IsHomestead ex_rules = true -> create_err res <> None ->
   w' = W0 \/ w' = nonce_used ex_env W0 7).
Proof.
  apply (Create_safe ex_env (Z.to_nat 40000) E0 (AccountRef 7) reverter 30000 3 5 W0 []);
    [exact ex_env_ok|apply ex_pre; simpl; lia|lia|done|lia|by right].
Defined.

Lemma fuel_irrelevant_witness :
  Call (EVM_ (Z.to_nat 40000)) E0 (AccountRef 7) 20 [] 30000 3 = Call (EVM_ (Z.to_nat 50000)) E0 (AccountRef 7) 20 [] 30000 3 /\
  StaticCall (EVM_ (Z.to_nat 40000)) E0 (AccountRef 7) 20 [] 30000 = StaticCall (EVM_ (Z.to_nat 50000)) E0 (AccountRef 7) 20 [] 30000 /\
  Create (EVM_ (Z.to_nat 40000)) E0 (AccountRef 7) [] 30000 3 = Create (EVM_ (Z.to_nat 50000)) E0 (AccountRef 7) [] 30000 3.
Proof.
  apply (fuel_irrelevant ex_env (Z.to_nat 40000) (Z.to_nat 50000) E0 (AccountRef 7) 20 [] 30000 3 W0 []);
    [exact ex_env_ok|apply ex_pre; simpl; lia|lia|lia|done|lia|lia].
Defined.

(** The contract and the frame of a run of the writer, after its two pushes. *)
Definition ex_contract : Contract :=
  SetCallCode (NewContract (AccountRef 7) 20 0 30000) (Some 20) (ex_keccak writer) writer.

Lemma ex_callee_ok : callee_ok ex_env ex_contract.
Proof. split; simpl; try lia; try done. Qed.

Definition ex_frame1 : Frame Ref.t :=
  mkFrame 2 E0 (set_Gas (set_Input ex_contract []) 29997) Memory.NewMemory [7].
Definition ex_frame : Frame Ref.t :=
  mkFrame 4 E0 (set_Gas (set_Input ex_contract []) 29994) Memory.NewMemory [0; 7].

Lemma reachable_frames_witness :
  zlen (stack ex_frame) <= 1024 /\ Forall (fun x => 0 <= x) (stack ex_frame) /\
  Memory.Len (memory ex_frame) = 32 * mem_words (memory ex_frame) /\
  Memory.Len (memory ex_frame) <= maxMem /\
  Memory.lastGasCost (memory ex_frame) = memcost (mem_words (memory ex_frame)) /\
  0 <= pc ex_frame <= zlen (Code (contract ex_frame)) + 33 /\ 0 <= Gas (contract ex_frame) <= 30000.
Proof.
  apply (reachable_frames ex_env 0 E0 ex_contract [] W0 []); try exact ex_env_ok; try exact ex_callee_ok.
  - apply (cp_repr _ _ _ _ _ _ _ (ex_pre (AccountRef 7) 0 ltac:(simpl; lia) ltac:(lia))).
  - apply (cp_world _ _ _ _ _ _ _ (ex_pre (AccountRef 7) 0 ltac:(simpl; lia) ltac:(lia))).
  - done.
  - simpl. lia.
  - reflexivity.
  - done.
  - unfold potential. simpl. lia.
  - simpl. lia.
  - apply steps_next with ex_frame1; [|vm_compute; reflexivity].
    eapply steps_next; [apply steps_refl|vm_compute; reflexivity].
Defined.

Lemma failed_call_gas_witness :
  let res := mkCallResult (fresh []) 0 (Some errWriteProtection) in
  call_result (StaticCall (EVM_ 100) E0 (AccountRef 7) 20 [] 30000) res /\
  (err res = None \/ err res = Some errExecutionReverted \/ leftOverGas res = 0 \/
   (err res = Some ErrDepth \/ err res = Some ErrInsufficientBalance) /\ leftOverGas res = 30000).
Proof.
  intros res.
  assert (call_result (StaticCall (EVM_ 100) E0 (AccountRef 7) 20 [] 30000) res) as Hr.
  { exists (set_StateDB E0 (Ref.mk W0 [] 1)). vm_compute. reflexivity. }
  split; [exact Hr|]. apply (failed_call_gas ex_env 100 E0 (AccountRef 7) 20 [] 30000 0). by right; right; right.
Defined.

(** ** The functional properties on concrete inputs *)

(** [PUSH1 0x5b JUMPDEST]: offset 2 is a destination, offset 1 is data. *)
Definition jump_contract : Contract :=
  SetCallCode (NewContract (AccountRef 7) 20 0 30000) (Some 20)
    (ex_keccak [Byte.x60; Byte.x5b; Byte.x5b]) [Byte.x60; Byte.x5b; Byte.x5b].

Lemma validJumpdest_exact_witness : exists j c' ok,
  validJumpdest E0 jump_contract 2 = Done (set_jumpdests E0 j, c', ok) /\
  jumpdests_ok ex_keccak j /\ analysis_ok ex_keccak c' /\ Code c' = Code jump_contract /\
  Gas c' = Gas jump_contract /\ (ok = true <-> is_jumpdest (Code jump_contract) 2).
Proof. apply (validJumpdest_exact ex_keccak E0 jump_contract 2 ex_keccak_inj); done. Defined.

Definition ex_memory : Memory.t := Memory.mk (replicate 64 Byte.xff) 64 6.

Lemma ex_memory_ok : mem_ok ex_memory.
Proof. by split; vm_compute. Qed.

Lemma memory_word_roundtrip_witness : exists m' d,
  Memory.Set32 ex_memory (Uint64 16) 0x1234 = Done m' /\ mem_ok m' /\ Memory.Len m' = Memory.Len ex_memory /\
  Memory.GetPtr m' (Int64 16) (Int64 32) = Done d /\ SetBytes d = 0x1234 mod two256 /\
  (forall i, (i < Z.to_nat 16 \/ Z.to_nat 16 + 32 <= i)%nat -> Memory.store m' !! i = Memory.store ex_memory !! i).
Proof. apply (memory_word_roundtrip ex_memory 16 0x1234 ex_memory_ok); by vm_compute. Defined.

Lemma memory_fee_telescopes_witness : exists m' total,
  grow (fun cap n => Z.max (2 * cap) n) ex_memory [5; 1; 100] = Some (m', total) /\ mem_ok m' /\
  mem_words m' = foldr Z.max (mem_words ex_memory) [5; 1; 100] /\
  total = memcost (mem_words m') - memcost (mem_words ex_memory) /\
  take 64 (Memory.store m') = Memory.store ex_memory.
Proof.
  apply (memory_fee_telescopes (fun cap n => Z.max (2 * cap) n) ex_memory [5; 1; 100] ex_memory_ok).
  repeat constructor; by vm_compute.
Defined.

Lemma callGas_all_but_64th_witness : callGas true 10000 700 (2 ^ 200) = (9155, None).
Proof. apply (callGas_all_but_64th 10000 700 (2 ^ 200)); by vm_compute. Defined.

Lemma push_instruction_witness :
  makePush 2 2 ex_env (EVM_ 0) (mkFrame 0 E0 jump_contract Memory.NewMemory []) =
  ok (mkFrame 2 E0 jump_contract Memory.NewMemory [0x5b5b]).
Proof. apply (push_instruction ex_env (EVM_ 0) (mkFrame 0 E0 jump_contract Memory.NewMemory []) 2); by vm_compute. Defined.

(** Three writes to a slot that ends at its original value, zero. *)
Lemma eip2200_net_price_witness : exists e' total w',
  sstores ex_contract 0 [7; 9; 0] E0 Memory.NewMemory = Done (e', total) /\ repr (StateDB e') w' [] /\
  current ex_env w' 20 0 = 0 /\ total - (w_refund w' - 0) = 2400.
Proof.
  destruct (eip2200_net_price ex_env ex_contract 0 [7; 9; 0] E0 Memory.NewMemory W0 [])
    as (e' & total & w' & Hs & Hr & Hc & Ht).
  - apply (cp_repr _ _ _ _ _ _ _ (ex_pre (AccountRef 7) 0 ltac:(simpl; lia) ltac:(lia))).
  - apply (cp_world _ _ _ _ _ _ _ (ex_pre (AccountRef 7) 0 ltac:(simpl; lia) ltac:(lia))).
  - vm_compute. reflexivity.
  - simpl. lia.
  - exists e', total, w'. split; [exact Hs|]. split; [exact Hr|]. split; [exact Hc|].
    rewrite Hc in Ht. exact Ht.
Defined.

(** ** Return data that shares the caller's memory *)

(** Stores 0x2a at offset 0, passes that byte to the identity contract, stores
    0x17 at offset 0, and returns the return data of the call. *)
Definition identity_program : bytes := [
  Byte.x60; Byte.x2a; Byte.x60; Byte.x00; Byte.x53;
  Byte.x60; Byte.x00; Byte.x60; Byte.x00; Byte.x60; Byte.x01; Byte.x60; Byte.x00; Byte.x60; Byte.x00;
  Byte.x60; Byte.x04; Byte.x61; Byte.xff; Byte.xff; Byte.xf1; Byte.x50;
  Byte.x60; Byte.x17; Byte.x60; Byte.x00; Byte.x53;
  Byte.x60; Byte.x01; Byte.x60; Byte.x00; Byte.x60; Byte.x20; Byte.x3e;
  Byte.x60; Byte.x01; Byte.x60; Byte.x20; Byte.xf3].

(** The configuration with an identity contract that returns a copy. *)
Definition copying_env : Env :=
  mkEnv ex_ctx ex_rules (mkConfig false false) ex_keccak (growslice ex_env) ∅ ∅
    {[ 4 := mkPrecompiled (RequiredGas dataCopy) (RunPrecompile dataCopy) false ]}
    (createAddress ex_env) (createAddress2 ex_env).

Definition returned (x : outcome (EVM Ref.t * CallResult)) : option bytes :=
  match x with Done (_, r) => Some (ret_bytes (ret r)) | _ => None end.

(** The identity contract returns its argument itself, a slice of the caller's
    memory, and the interpreter keeps it as return data: a later write to that
    memory changes the return data of the call that has ended.  With a contract
    that returns a copy the program returns the byte the call returned. *)
Theorem dataCopy_aliases_memory :
  returned (Call (vm ex_env 100) (ex_evm (ex_world [(7, []); (20, identity_program)]))
              (AccountRef 7) 20 [] 100000 0) = Some [Byte.x17] /\
  returned (Call (vm copying_env 100) (ex_evm (ex_world [(7, []); (20, identity_program)]))
              (AccountRef 7) 20 [] 100000 0) = Some [Byte.x2a].
Proof. split; vm_compute; reflexivity. Qed.

(** ** Extra EIPs *)

(** NewEVMInterpreter deletes a failing entry from the list it is ranging
    over: the entry after it is skipped (EIP 1884, and with it SELFBALANCE, is
    not activated), and two failing entries at the end make it panic. *)
Theorem extra_eips_skipped :
  (exists jt rest, NewEVMInterpreter (S := Ref.t)
     (mkEnv ex_ctx (mkRules 1 true true true true true true true false) (mkConfig false false) ex_keccak
        (growslice ex_env) ∅ ∅ ∅ (createAddress ex_env) (createAddress2 ex_env)) [999; 1884; 2200]
     = Done (jt, rest) /\ jt !! Op.SELFBALANCE = None /\ rest = [1884; 2200]) /\
  NewEVMInterpreter (S := Ref.t) ex_env [999; 998] = Panic IndexOutOfRange.
Proof.
  split; [|reflexivity]. eexists _, _. split; [reflexivity|]. split; reflexivity.
Qed.
