(* ===== verification/Rlp.v ===== *)
(** * rlp: the encoder (encode.go, typecache.go)
    Go types are described by [typ], the types the package can serialise, and
    their values by [val].  [write] follows the writer functions that
    makeWriter selects for a type, over the two-part buffer [encbuf] (string
    data, and list headers kept apart until their sizes are known); [enc] is
    the encoding defined directly on values, and the buffer is proved to
    produce it. *)

From S2P Require Import Prelude MathUtil.

#[export] Set Warnings "-register-all".

(** ** Kinds, types and values *)

Module Kind.
Inductive t := Byte | String | List.
#[global] Instance eq_dec : EqDecision t.
Proof. solve_decision. Defined.
End Kind.

(** [TPtr] is a pointer without a struct tag, [TNilPtr k] a pointer field
    tagged nil, nilString or nilList; a struct may end in a slice tagged tail.
    [TBig] is [*big.Int]. *)
Inductive typ :=
  | TRaw
  | TBig
  | TPtr (t : typ)
  | TNilPtr (nilKind : Kind.t) (t : typ)
  | TUint (bits : Z)
  | TBool
  | TString
  | TBytes
  | TByteArray (n : nat)
  | TSlice (t : typ)
  | TArray (n : nat) (t : typ)
  | TStruct (fields : list typ) (tail : option typ)
  | TIface.

(** [VNil] is a nil pointer or interface, [VPtr] a pointer to a value.  The
    dynamic value of an interface is a byte slice or a slice of interfaces, the
    two types the decoder produces. *)
Inductive val :=
  | VNil
  | VPtr (v : val)
  | VUint (i : Z)
  | VBig (i : Z)
  | VBool (b : bool)
  | VBytes (b : bytes)
  | VList (l : list val).

(** typecache.go: how a nil pointer to a type is written. *)
Definition defaultNilKind (t : typ) : Kind.t :=
  match t with
  | TUint _ | TString | TBool | TBytes | TByteArray _ | TRaw => Kind.String
  | _ => Kind.List
  end.

(** ** Integers and headers *)

Definition putint (i : Z) : bytes :=
  let b k := byte_of_Z (Z.shiftr i k) in
  if i <? 2 ^ 8 then [b 0]
  else if i <? 2 ^ 16 then [b 8; b 0]
  else if i <? 2 ^ 24 then [b 16; b 8; b 0]
  else if i <? 2 ^ 32 then [b 24; b 16; b 8; b 0]
  else if i <? 2 ^ 40 then [b 32; b 24; b 16; b 8; b 0]
  else if i <? 2 ^ 48 then [b 40; b 32; b 24; b 16; b 8; b 0]
  else if i <? 2 ^ 56 then [b 48; b 40; b 32; b 24; b 16; b 8; b 0]
  else [b 56; b 48; b 40; b 32; b 24; b 16; b 8; b 0].

Fixpoint intsize_loop (fuel : nat) (i size : Z) : Z :=
  match fuel with
  | O => size
  | S fuel =>
      let i := Z.shiftr i 8 in
      if i =? 0 then size else intsize_loop fuel i (size + 1)
  end.
Definition intsize (i : Z) : Z := intsize_loop 8 i 1.

Definition headsize (size : Z) : Z := if size <? 56 then 1 else 1 + intsize size.

(** The bytes puthead writes to the front of its buffer. *)
Definition puthead (smalltag largetag size : Z) : bytes :=
  if size <? 56 then [byte_of_Z (smalltag + size)]
  else let s := putint size in byte_of_Z (largetag + zlen s) :: s.

(** ** The buffer *)

Record listhead := mkListhead { lh_offset : Z; lh_size : Z }.
Record encbuf := mkEncbuf { str : bytes; lheads : list listhead; lhsize : Z }.

Definition listhead_encode (head : listhead) : bytes := puthead 192 247 (lh_size head).

Definition append_str (w : encbuf) (b : bytes) : encbuf := mkEncbuf (str w ++ b) (lheads w) (lhsize w).

Definition encbuf_size (w : encbuf) : Z := zlen (str w) + lhsize w.

Definition encodeStringHeader (w : encbuf) (size : Z) : encbuf :=
  if size <? 56 then append_str w [byte_of_Z (128 + size)]
  else let s := putint size in append_str w (byte_of_Z (183 + zlen s) :: s).

Definition encodeString (w : encbuf) (b : bytes) : encbuf :=
  match b with
  | [x] =>
      if Z_of_byte x <=? 127 then append_str w [x]
      else append_str (encodeStringHeader w (zlen b)) b
  | _ => append_str (encodeStringHeader w (zlen b)) b
  end.

(** A list header is referred to by its position in [lheads] until the list
    ends and its size is known. *)
Definition list_ (w : encbuf) : encbuf * nat :=
  (mkEncbuf (str w) (lheads w ++ [mkListhead (zlen (str w)) (lhsize w)]) (lhsize w), length (lheads w)).

Definition listEnd (w : encbuf) (lh : nat) : encbuf :=
  match lheads w !! lh with
  | Some h =>
      let size := encbuf_size w - lh_offset h - lh_size h in
      mkEncbuf (str w) (<[lh := mkListhead (lh_offset h) size]> (lheads w))
        (if size <? 56 then lhsize w + 1 else lhsize w + (1 + intsize size))
  | None => w
  end.

(** toBytes: the string data with the headers put back in their places. *)
Fixpoint toBytes_loop (heads : list listhead) (strpos : Z) (data : bytes) : bytes :=
  match heads with
  | [] => data
  | h :: heads =>
      let n := Z.to_nat (lh_offset h - strpos) in
      take n data ++ listhead_encode h ++ toBytes_loop heads (lh_offset h) (drop n data)
  end.
Definition toBytes (w : encbuf) : bytes := toBytes_loop (lheads w) 0 (str w).

(** ** Writers *)

Inductive encErr := NegativeBigInt.

Definition writeUint (i : Z) (w : encbuf) : encbuf :=
  if i =? 0 then append_str w [Byte.x80]
  else if i <? 128 then append_str w [byte_of_Z i]
  else let s := putint i in append_str w (byte_of_Z (128 + zlen s) :: s).

Definition writeBool (b : bool) (w : encbuf) : encbuf :=
  append_str w [if b then Byte.x01 else Byte.x80].

Definition writeBigInt (i : Z) (w : encbuf) : encbuf * option encErr :=
  if i <? 0 then (w, Some NegativeBigInt)
  else if i =? 0 then (append_str w [Byte.x80], None)
  else (encodeString w (BigBytes i), None).

Definition writeString (s : bytes) (w : encbuf) : encbuf :=
  match s with
  | [x] =>
      if Z_of_byte x <=? 127 then append_str w [x]
      else append_str (encodeStringHeader w (zlen s)) s
  | _ => append_str (encodeStringHeader w (zlen s)) s
  end.

(** A nil pointer. *)
Definition writeNil (nilKind : Kind.t) (w : encbuf) : encbuf :=
  match nilKind with
  | Kind.String => append_str w [Byte.x80]
  | _ => let '(w, lh) := list_ w in listEnd w lh
  end.

Section Elems.
Context {A : Type} (writer : A -> encbuf -> encbuf * option encErr).

Fixpoint write_elems (l : list A) (w : encbuf) : encbuf * option encErr :=
  match l with
  | [] => (w, None)
  | v :: l =>
      match writer v w with
      | (w, Some e) => (w, Some e)
      | (w, None) => write_elems l w
      end
  end.

(** The writer of makeSliceWriter: listEnd is deferred, so it runs on errors
    as well. *)
Definition write_slice (tail : bool) (l : list A) (w : encbuf) : encbuf * option encErr :=
  if tail then write_elems l w
  else
    let '(w, lh) := list_ w in
    let '(w, e) := write_elems l w in
    (listEnd w lh, e).
End Elems.

Section Fields.
Abbreviation writer := (val -> encbuf -> encbuf * option encErr).

Fixpoint write_fields (fields : list writer) (tail : option writer) (l : list val) (w : encbuf)
  : encbuf * option encErr :=
  match fields, l with
  | [], l => match tail with Some wr => write_slice wr true l w | None => (w, None) end
  | f :: fields, v :: l =>
      match f v w with
      | (w, Some e) => (w, Some e)
      | (w, None) => write_fields fields tail l w
      end
  | _ :: _, [] => (w, None)
  end.

(** The writer of makeStructWriter: an error leaves the list open. *)
Definition write_struct (fields : list writer) (tail : option writer) (l : list val) (w : encbuf)
  : encbuf * option encErr :=
  let '(w, lh) := list_ w in
  match write_fields fields tail l w with
  | (w, Some e) => (w, Some e)
  | (w, None) => (listEnd w lh, None)
  end.
End Fields.

(** The dynamic type of an interface value selects its writer. *)
Fixpoint writeInterface (v : val) (w : encbuf) : encbuf * option encErr :=
  match v with
  | VBytes b => (encodeString w b, None)
  | VList l => write_slice writeInterface false l w
  | _ => (append_str w [Byte.xc0], None)
  end.

(** A value that does not have the type is one Go's type system rules out; the
    buffer is then left as it is. *)
Fixpoint write (t : typ) (v : val) (w : encbuf) : encbuf * option encErr :=
  match t, v with
  | TRaw, VBytes b => (append_str w b, None)
  | TBig, VNil => (append_str w [Byte.x80], None)
  | TBig, VBig i => writeBigInt i w
  | TPtr t, VNil => (writeNil (defaultNilKind t) w, None)
  | TPtr t, VPtr v => write t v w
  | TNilPtr k t, VNil => (writeNil k w, None)
  | TNilPtr k t, VPtr v => write t v w
  | TUint _, VUint i => (writeUint i w, None)
  | TBool, VBool b => (writeBool b w, None)
  | TString, VBytes b => (writeString b w, None)
  | TBytes, VBytes b => (encodeString w b, None)
  | TByteArray _, VBytes b => (encodeString w b, None)
  | TSlice t, VList l => write_slice (write t) false l w
  | TArray _ t, VList l => write_slice (write t) false l w
  | TStruct fields tail, VList l =>
      write_struct (map write fields) (match tail with Some t => Some (write t) | None => None end) l w
  | TIface, v => writeInterface v w
  | _, _ => (w, None)
  end.

Definition EncodeToBytes (t : typ) (v : val) : encErr + bytes :=
  match write t v (mkEncbuf [] [] 0) with
  | (_, Some e) => inl e
  | (w, None) => inr (toBytes w)
  end.

(** ** The encoding, directly *)

Definition enc_string (b : bytes) : bytes :=
  match b with
  | [x] => if Z_of_byte x <? 128 then b else puthead 128 183 1 ++ b
  | _ => puthead 128 183 (zlen b) ++ b
  end.

Definition enc_list (content : bytes) : bytes := puthead 192 247 (zlen content) ++ content.

Definition enc_nil (k : Kind.t) : bytes := match k with Kind.String => enc_string [] | _ => enc_list [] end.

Fixpoint enc_elems {A} (e : A -> option bytes) (l : list A) : option bytes :=
  match l with
  | [] => Some []
  | v :: l => b ← e v; bs ← enc_elems e l; Some (b ++ bs)
  end.

Fixpoint enc_fields (fields : list (val -> option bytes)) (tail : option (val -> option bytes))
    (l : list val) : option bytes :=
  match fields, l with
  | [], l => match tail with Some e => enc_elems e l | None => Some [] end
  | f :: fields, v :: l => b ← f v; bs ← enc_fields fields tail l; Some (b ++ bs)
  | _ :: _, [] => Some []
  end.

Fixpoint enc_iface (v : val) : option bytes :=
  match v with
  | VBytes b => Some (enc_string b)
  | VList l => enc_list <$> enc_elems enc_iface l
  | _ => Some (enc_list [])
  end.

(** [None]: the value holds a negative [*big.Int]. *)
Fixpoint enc (t : typ) (v : val) : option bytes :=
  match t, v with
  | TRaw, VBytes b => Some b
  | TBig, VNil => Some (enc_string [])
  | TBig, VBig i => if i <? 0 then None else Some (enc_string (BigBytes i))
  | TPtr t, VNil => Some (enc_nil (defaultNilKind t))
  | TNilPtr k t, VNil => Some (enc_nil k)
  | TPtr t, VPtr v | TNilPtr _ t, VPtr v => enc t v
  | TUint _, VUint i => Some (enc_string (BigBytes i))
  | TBool, VBool b => Some (enc_string (if b then [Byte.x01] else []))
  | (TString | TBytes | TByteArray _), VBytes b => Some (enc_string b)
  | (TSlice t | TArray _ t), VList l => enc_list <$> enc_elems (enc t) l
  | TStruct fields tail, VList l =>
      enc_list <$> enc_fields (map enc fields) (match tail with Some t => Some (enc t) | None => None end) l
  | TIface, v => enc_iface v
  | _, _ => Some []
  end.

(** What Go's type system ensures of a value. *)
Fixpoint typed_iface (v : val) : Prop :=
  match v with
  | VNil | VBytes _ => True
  | VList l => foldr (fun v P => typed_iface v /\ P) True l
  | _ => False
  end.

Fixpoint typed_fields (fields : list (val -> Prop)) (tail : option (val -> Prop)) (l : list val) : Prop :=
  match fields, l with
  | [], l => match tail with Some P => foldr (fun v Q => P v /\ Q) True l | None => l = [] end
  | f :: fields, v :: l => f v /\ typed_fields fields tail l
  | _ :: _, [] => False
  end.

Fixpoint typed (t : typ) (v : val) : Prop :=
  match t, v with
  | (TRaw | TString | TBytes), VBytes _ => True
  | TByteArray n, VBytes b => length b = n
  | TBig, (VNil | VBig _) => True
  | (TPtr _ | TNilPtr _ _), VNil => True
  | (TPtr t | TNilPtr _ t), VPtr v => typed t v
  | TUint bits, VUint i => 0 <= i < 2 ^ bits /\ In bits [8; 16; 32; 64]
  | TBool, VBool _ => True
  | TSlice t, VList l => foldr (fun v P => typed t v /\ P) True l
  | TArray n t, VList l => length l = n /\ foldr (fun v P => typed t v /\ P) True l
  | TStruct fields tail, VList l =>
      typed_fields (map typed fields) (match tail with Some t => Some (typed t) | None => None end) l
  | TIface, v => typed_iface v
  | _, _ => False
  end.
