(* ===== verification/RlpEncode.v ===== *)
(** * rlp: the encoder produces the encoding
    The two-part buffer of encode.go, with its list headers patched in after
    the fact, yields the encoding that is defined directly on values. *)

From S2P Require Import Prelude MathUtil Rlp.

(** ** Integers and headers *)

Lemma putint_be n i :
  (0 < n <= 8)%nat -> 256 ^ (Z.of_nat n - 1) <= i < 256 ^ Z.of_nat n -> putint i = be_bytes n i.
Proof.
  intros Hn Hi. unfold putint. rewrite !Z.shiftr_div_pow2 by lia.
  destruct n as [|[|[|[|[|[|[|[|[|n]]]]]]]]]; try lia;
    repeat match goal with |- context [i <? ?x] => destruct (Z.ltb_spec i x); try lia end;
    cbn [be_bytes app]; rewrite ?Z.div_div by lia; rewrite ?Z.div_1_r; reflexivity.
Qed.

Lemma size_class i : 0 < i < two64 -> exists n, (0 < n <= 8)%nat /\ 256 ^ (Z.of_nat n - 1) <= i < 256 ^ Z.of_nat n.
Proof.
  intros Hi. exists (Z.to_nat (Z.log2 i / 8 + 1)).
  pose proof (Z.log2_spec i ltac:(lia)) as [Hlo Hhi]. pose proof (Z.log2_nonneg i).
  assert (Z.log2 i < 64) by (apply Z.log2_lt_pow2; lia).
  pose proof (Z.div_pos (Z.log2 i) 8 ltac:(lia) ltac:(lia)).
  assert (Z.log2 i / 8 < 8) by (apply Z.div_lt_upper_bound; lia).
  pose proof (Z.div_mod (Z.log2 i) 8 ltac:(lia)). pose proof (Z.mod_pos_bound (Z.log2 i) 8 ltac:(lia)).
  rewrite Z2Nat.id, !pow256 by lia. split; [lia|]. split.
  - etrans; [|exact Hlo]. apply Z.pow_le_mono_r; lia.
  - eapply Z.lt_le_trans; [exact Hhi|]. apply Z.pow_le_mono_r; lia.
Qed.

Lemma putint_BigBytes i : 0 < i < two64 -> putint i = BigBytes i.
Proof.
  intros Hi. destruct (size_class i Hi) as (n & Hn & Hb).
  rewrite (putint_be n), (BigBytes_size n); done || lia.
Qed.

Lemma intsize_loop_spec f n i size :
  (0 < n <= f)%nat -> 256 ^ (Z.of_nat n - 1) <= i < 256 ^ Z.of_nat n ->
  intsize_loop f i size = size + Z.of_nat n - 1.
Proof.
  revert n i size. induction f as [|f IH]; intros n i size Hn [Hlo Hhi]; [lia|]. simpl.
  rewrite Z.shiftr_div_pow2 by lia. change (2 ^ 8) with 256.
  destruct n as [|[|n]]; [lia| |].
  - simpl in Hhi. change (256 ^ _) with 256 in Hhi. rewrite Z.div_small by (simpl in Hlo; lia). simpl. lia.
  - replace (Z.of_nat (S (S n)) - 1) with (Z.succ (Z.of_nat n)) in Hlo by lia.
    replace (Z.of_nat (S (S n))) with (Z.succ (Z.of_nat (S n))) in Hhi by lia.
    rewrite Z.pow_succ_r in Hlo, Hhi by lia.
    assert (256 ^ Z.of_nat n <= i / 256) by (apply Z.div_le_lower_bound; lia).
    assert (i / 256 < 256 ^ Z.of_nat (S n)) by (apply Z.div_lt_upper_bound; lia).
    pose proof (Z.pow_pos_nonneg 256 (Z.of_nat n)). destruct (Z.eqb_spec (i / 256) 0); [lia|].
    rewrite (IH (S n)); [lia|lia|]. split; [|done]. by replace (Z.of_nat (S n) - 1) with (Z.of_nat n) by lia.
Qed.

Lemma intsize_putint i : 0 < i < two64 -> intsize i = zlen (putint i).
Proof.
  intros Hi. destruct (size_class i Hi) as (n & Hn & Hb).
  rewrite (putint_be n), length_be_bytes by done. unfold intsize. rewrite (intsize_loop_spec 8 n); done || lia.
Qed.

Lemma headsize_puthead s l size : 0 <= size < two64 -> headsize size = zlen (puthead s l size).
Proof.
  intros Hs. unfold headsize, puthead. destruct (Z.ltb_spec size 56); [done|].
  rewrite intsize_putint by lia. cbn [length]. lia.
Qed.

(** ** Pieces of a buffer
    What a writer appends: string data, and list headers with offsets relative
    to the start of the data. *)

Definition piece : Type := bytes * list listhead.

Definition shift (k : Z) (h : listhead) : listhead := mkListhead (k + lh_offset h) (lh_size h).

Definition heads_size (hs : list listhead) : Z := foldr (fun h n => zlen (listhead_encode h) + n) 0 hs.

Definition extend (w : encbuf) (p : piece) : encbuf :=
  mkEncbuf (str w ++ p.1) (lheads w ++ map (shift (zlen (str w))) p.2) (lhsize w + heads_size p.2).

Definition render (p : piece) : bytes := toBytes_loop p.2 0 p.1.

(** The headers are in order and inside the data. *)
Fixpoint heads_in (lo hi : Z) (hs : list listhead) : Prop :=
  match hs with
  | [] => lo <= hi
  | h :: hs => lo <= lh_offset h /\ heads_in (lh_offset h) hi hs
  end.
Definition piece_ok (p : piece) : Prop := heads_in 0 (zlen p.1) p.2.

Definition join (p q : piece) : piece := (p.1 ++ q.1, p.2 ++ map (shift (zlen p.1)) q.2).
Definition wrap (p : piece) : piece := (p.1, mkListhead 0 (zlen (render p)) :: p.2).

Lemma heads_in_le lo hi hs : heads_in lo hi hs -> lo <= hi.
Proof. revert lo. induction hs as [|h hs IH]; simpl; intros lo; [done|]. intros [? ?%IH]. lia. Qed.

Lemma heads_in_mono lo hi hi' hs : heads_in lo hi hs -> hi <= hi' -> heads_in lo hi' hs.
Proof. revert lo. induction hs as [|h hs IH]; simpl; intros lo; [lia|]. intros [? ?] ?. eauto. Qed.

Lemma heads_in_app lo mid hi hs hs' :
  heads_in lo mid hs -> heads_in mid hi hs' -> heads_in lo hi (hs ++ hs').
Proof.
  revert lo. induction hs as [|h hs IH]; simpl; intros lo.
  - destruct hs' as [|h' hs']; simpl; [lia|]. intros ? [? ?]. split; [lia|done].
  - intros [? ?] ?. eauto.
Qed.

Lemma heads_in_shift lo hi k hs : heads_in lo hi hs -> heads_in (k + lo) (k + hi) (map (shift k) hs).
Proof. revert lo. induction hs as [|h hs IH]; simpl; intros lo; [lia|]. intros [? ?]. split; [lia|auto]. Qed.

Lemma heads_size_app hs hs' : heads_size (hs ++ hs') = heads_size hs + heads_size hs'.
Proof. induction hs as [|h hs IH]; simpl; lia. Qed.

Lemma heads_size_shift k hs : heads_size (map (shift k) hs) = heads_size hs.
Proof. induction hs as [|h hs IH]; [done|]. simpl. by rewrite IH. Qed.

Lemma toBytes_loop_shift k hs pos d :
  toBytes_loop (map (shift k) hs) (k + pos) d = toBytes_loop hs pos d.
Proof.
  revert pos d. induction hs as [|h hs IH]; intros pos d; [done|]. simpl.
  replace (k + lh_offset h - (k + pos)) with (lh_offset h - pos) by lia. by rewrite IH.
Qed.

Lemma toBytes_loop_app hs hs' pos d d' :
  heads_in pos (pos + zlen d) hs -> heads_in (pos + zlen d) (pos + zlen d + zlen d') hs' ->
  toBytes_loop (hs ++ hs') pos (d ++ d') = toBytes_loop hs pos d ++ toBytes_loop hs' (pos + zlen d) d'.
Proof.
  revert pos d. induction hs as [|h hs IH]; intros pos d H1 H2.
  - simpl. destruct hs' as [|h' hs']; [done|]. simpl in *. destruct H2 as [? _].
    replace (Z.to_nat (lh_offset h' - pos)) with (length d + Z.to_nat (lh_offset h' - (pos + zlen d)))%nat by lia.
    rewrite take_app_add', drop_app_add' by done. by rewrite <-app_assoc.
  - simpl in *. destruct H1 as [Hlo H1]. pose proof (heads_in_le _ _ _ H1).
    set (n := Z.to_nat (lh_offset h - pos)). assert (n <= length d)%nat by lia.
    rewrite take_app_le, drop_app_le by lia. rewrite <-!app_assoc. do 2 f_equal.
    assert (lh_offset h + zlen (drop n d) = pos + zlen d) as He by (rewrite length_drop; lia).
    rewrite IH; rewrite He; done.
Qed.

Lemma render_length_loop hs pos d :
  heads_in pos (pos + zlen d) hs -> zlen (toBytes_loop hs pos d) = zlen d + heads_size hs.
Proof.
  revert pos d. induction hs as [|h hs IH]; intros pos d H; simpl; [lia|]. destruct H as [Hlo H].
  pose proof (heads_in_le _ _ _ H). rewrite !length_app, !Nat2Z.inj_add, length_take.
  rewrite IH; rewrite length_drop; [lia|].
  by replace (lh_offset h + Z.of_nat (length d - Z.to_nat (lh_offset h - pos))) with (pos + zlen d) by lia.
Qed.

Lemma render_length p : piece_ok p -> zlen (render p) = zlen p.1 + heads_size p.2.
Proof. intros. by apply (render_length_loop p.2 0 p.1). Qed.

Lemma join_ok p q : piece_ok p -> piece_ok q -> piece_ok (join p q).
Proof.
  unfold piece_ok, join. simpl. rewrite length_app, Nat2Z.inj_add. intros Hp Hq.
  eapply heads_in_app; [done|]. apply (heads_in_shift _ _ (zlen p.1)) in Hq. by rewrite Z.add_0_r in Hq.
Qed.

Lemma render_join p q : piece_ok p -> piece_ok q -> render (join p q) = render p ++ render q.
Proof.
  unfold piece_ok, join, render. simpl. intros Hp Hq. rewrite toBytes_loop_app; [|done|].
  - f_equal. rewrite Z.add_0_l. rewrite <-(toBytes_loop_shift (zlen p.1) q.2 0). f_equal. lia.
  - apply (heads_in_shift _ _ (zlen p.1)) in Hq. by rewrite Z.add_0_r in Hq.
Qed.

Lemma extend_join w p q : extend w (join p q) = extend (extend w p) q.
Proof.
  unfold extend, join. simpl. rewrite map_app, map_map, !app_assoc, heads_size_app, heads_size_shift, Z.add_assoc.
  do 2 f_equal. apply map_ext. intros h. unfold shift. simpl. f_equal. rewrite length_app. lia.
Qed.

Lemma wrap_ok p : piece_ok p -> piece_ok (wrap p).
Proof. unfold piece_ok, wrap. simpl. done. Qed.

Lemma render_wrap p : render (wrap p) = enc_list (render p).
Proof. done. Qed.

Lemma toBytes_extend p : toBytes (extend (mkEncbuf [] [] 0) p) = render p.
Proof. unfold toBytes, extend, render. simpl. exact (toBytes_loop_shift 0 p.2 0 p.1). Qed.

Lemma list_wrap w p :
  piece_ok p -> zlen (render p) < two64 ->
  listEnd (extend (list_ w).1 p) (list_ w).2 = extend w (wrap p).
Proof.
  intros Hp Hs. pose proof (render_length p Hp) as Hl.
  unfold list_, extend, listEnd, encbuf_size. simpl. rewrite <-!app_assoc. simpl.
  rewrite lookup_app_r, Nat.sub_diag by lia. simpl. rewrite insert_app_r_alt, Nat.sub_diag by lia. simpl.
  rewrite length_app, Nat2Z.inj_add.
  replace (zlen (str w) + zlen p.1 + (lhsize w + heads_size p.2) - zlen (str w) - lhsize w)
    with (zlen (render p)) by lia.
  f_equal; [by unfold shift; rewrite Z.add_0_r|].
  unfold listhead_encode. simpl. rewrite <-(headsize_puthead 192 247) by lia. unfold headsize.
  destruct (_ <? 56); lia.
Qed.

(** ** Writers *)

(** A writer appends a piece that renders as the encoding, whatever the
    buffer holds; it reports an error for values without an encoding. *)
Definition writes (f : encbuf -> encbuf * option encErr) (o : option bytes) : Prop :=
  match o with
  | Some b => zlen b < two64 ->
      exists p, piece_ok p /\ render p = b /\ forall w, f w = (extend w p, None)
  | None => forall w, (f w).2 = Some NegativeBigInt
  end.

Lemma extend_str w b : append_str w b = extend w (b, []).
Proof. unfold append_str, extend. simpl. by rewrite app_nil_r, Z.add_0_r. Qed.

Lemma str_ok b : piece_ok (b, []).
Proof. unfold piece_ok. simpl. lia. Qed.

Lemma writes_str f b : (forall w, f w = (append_str w b, None)) -> writes f (Some b).
Proof. intros Hf _. exists (b, []). split_and!; [apply str_ok|done|]. intros w. by rewrite Hf, extend_str. Qed.

Lemma append_append w b b' : append_str (append_str w b) b' = append_str w (b ++ b').
Proof. unfold append_str. simpl. by rewrite app_assoc. Qed.

Lemma encodeStringHeader_puthead w size : encodeStringHeader w size = append_str w (puthead 128 183 size).
Proof. unfold encodeStringHeader, puthead. by destruct (_ <? _). Qed.

Lemma encodeString_spec w b : encodeString w b = append_str w (enc_string b).
Proof.
  unfold encodeString, enc_string. rewrite encodeStringHeader_puthead, append_append.
  destruct b as [|x [|y b]]; try done.
  destruct (Z.leb_spec (Z_of_byte x) 127), (Z.ltb_spec (Z_of_byte x) 128); done || lia.
Qed.

Lemma writeString_spec w b : writeString b w = append_str w (enc_string b).
Proof. apply encodeString_spec. Qed.

Lemma puthead_small s l size : size < 56 -> puthead s l size = [byte_of_Z (s + size)].
Proof. intros. unfold puthead. by rewrite (proj2 (Z.ltb_lt _ _)). Qed.

Lemma writeUint_spec w i : 0 <= i < two64 -> writeUint i w = append_str w (enc_string (BigBytes i)).
Proof.
  intros Hi. unfold writeUint. destruct (Z.eqb_spec i 0) as [->|Hne]; [done|].
  rewrite putint_BigBytes by lia. destruct (Z.ltb_spec i 128).
  - rewrite (BigBytes_size 1) by (simpl; lia). simpl. rewrite Z_of_byte_of_Z, Z.mod_small by lia.
    by rewrite (proj2 (Z.ltb_lt _ _)).
  - destruct (size_class i) as (n & Hn & Hb); [lia|]. rewrite (BigBytes_size n) by (done || lia).
    unfold enc_string. rewrite !puthead_small; rewrite ?length_be_bytes; [|lia..].
    destruct (be_bytes n i) as [|x [|y l]] eqn:E; [done| |done].
    assert (n = 1%nat) as Hn1 by (by rewrite <-(length_be_bytes n i), E). subst n.
    assert (Z_of_byte x = i) as ->.
    { pose proof (SetBytes_be_bytes 1 i) as Hs. rewrite E, Z.mod_small in Hs by (simpl in *; lia).
      by rewrite SetBytes_cons in Hs; change (SetBytes []) with 0 in Hs; simpl in Hs; lia. }
    by rewrite (proj2 (Z.ltb_ge _ _)) by lia.
Qed.

Lemma writeBigInt_writes i :
  writes (writeBigInt i) (if i <? 0 then None else Some (enc_string (BigBytes i))).
Proof.
  unfold writeBigInt. destruct (Z.ltb_spec i 0) as [|Hi]; [by intros w|].
  destruct (Z.eqb_spec i 0) as [->|]; apply writes_str; intros w; [done|]. by rewrite encodeString_spec.
Qed.

Lemma writeNil_writes k : writes (fun w => (writeNil k w, None)) (Some (enc_nil k)).
Proof.
  destruct k; [|by apply writes_str|]; intros _; exists (wrap ([], []));
    (split_and!; [apply wrap_ok, str_ok|done|]); intros w; unfold writeNil, enc_nil;
    rewrite <-list_wrap by (apply str_ok || done); simpl; rewrite <-extend_str;
    unfold append_str; simpl; by rewrite app_nil_r.
Qed.

Lemma writes_nil : writes (fun w => (w, None)) (Some []).
Proof. apply writes_str. intros w. unfold append_str. rewrite app_nil_r. by destruct w. Qed.

Lemma writes_seq f g o o' :
  writes f o -> writes g o' ->
  writes (fun w => match f w with (w, Some e) => (w, Some e) | (w, None) => g w end)
    (b ← o; bs ← o'; Some (b ++ bs)).
Proof.
  destruct o as [b|]; simpl; intros Hf Hg; [|intros w; specialize (Hf w); by destruct (f w) as [? []]].
  destruct o' as [bs|]; simpl.
  - intros Hb. rewrite length_app in Hb. destruct Hf as (p & Hp & <- & Hfp); [lia|].
    destruct Hg as (q & Hq & <- & Hfq); [lia|].
    exists (join p q). split_and!; [by apply join_ok|by apply render_join|].
    intros w. by rewrite Hfp, Hfq, extend_join.
  - intros w. destruct (f w) as [w' [[]|]]; [done|apply Hg].
Qed.

Lemma writes_elems {A} (f : A -> encbuf -> encbuf * option encErr) e l :
  Forall (fun v => writes (f v) (e v)) l -> writes (write_elems f l) (enc_elems e l).
Proof. induction 1 as [|v l Hv Hl IH]; [apply writes_nil|]. by apply writes_seq. Qed.

Lemma writes_wrap f o :
  writes f o ->
  writes (fun w => let '(w, lh) := list_ w in
                   match f w with (w, Some e) => (w, Some e) | (w, None) => (listEnd w lh, None) end)
         (enc_list <$> o).
Proof.
  destruct o as [b|]; simpl; intros Hf.
  - intros Hb. unfold enc_list in Hb. rewrite length_app in Hb.
    destruct Hf as (p & Hp & <- & Hfp); [lia|]. exists (wrap p).
    split_and!; [by apply wrap_ok|done|]. intros w. rewrite <-list_wrap by (done || lia).
    by rewrite (surjective_pairing (list_ w)), Hfp.
  - intros w. unfold list_. specialize (Hf (list_ w).1). simpl in Hf. by destruct (f _) as [? [[]|]].
Qed.

Lemma writes_ext f g o : (forall w, (f w).2 = (g w).2 /\ ((f w).2 = None -> f w = g w)) -> writes f o -> writes g o.
Proof.
  intros Hfg. destruct o as [b|]; simpl.
  - intros Hf Hb. destruct (Hf Hb) as (p & ? & ? & Hp). exists p. split_and!; [done..|].
    intros w. destruct (Hfg w) as [_ He]. rewrite <-He; rewrite Hp; done.
  - intros Hf w. destruct (Hfg w) as [<- _]. auto.
Qed.

Lemma writes_slice {A} (f : A -> encbuf -> encbuf * option encErr) e l :
  Forall (fun v => writes (f v) (e v)) l ->
  writes (write_slice f false l) (enc_list <$> enc_elems e l).
Proof.
  intros Hl. apply writes_elems, writes_wrap in Hl. eapply writes_ext; [|exact Hl].
  intros w. unfold write_slice. destruct (list_ w) as [w' lh]. by destruct (write_elems f l w') as [? []].
Qed.

Lemma foldr_Forall {A} (P : A -> Prop) l : foldr (fun v Q => P v /\ Q) True l <-> Forall P l.
Proof. induction l as [|v l IH]; simpl; [done|]. by rewrite Forall_cons, IH. Qed.

(** ** Induction on types and values *)

Section Induction.
Variables (P : typ -> Prop) (Q : val -> Prop).

Fixpoint typ_nested_ind
  (HRaw : P TRaw) (HBig : P TBig) (HPtr : forall t, P t -> P (TPtr t))
  (HNil : forall k t, P t -> P (TNilPtr k t)) (HUint : forall n, P (TUint n)) (HBool : P TBool)
  (HString : P TString) (HBytes : P TBytes) (HByteArray : forall n, P (TByteArray n))
  (HSlice : forall t, P t -> P (TSlice t)) (HArray : forall n t, P t -> P (TArray n t))
  (HStruct : forall ts tail, Forall P ts -> (forall t, tail = Some t -> P t) -> P (TStruct ts tail))
  (HIface : P TIface) (t : typ) {struct t} : P t.
Proof.
  pose proof (typ_nested_ind HRaw HBig HPtr HNil HUint HBool HString HBytes HByteArray HSlice HArray
    HStruct HIface) as IH. destruct t as [| |t|k t|n| | | |n|t|n t|ts tail|].
  1: exact HRaw. 1: exact HBig. 1: exact (HPtr _ (IH t)). 1: exact (HNil _ _ (IH t)). 1: exact (HUint n).
  1: exact HBool. 1: exact HString. 1: exact HBytes. 1: exact (HByteArray n). 1: exact (HSlice _ (IH t)).
  1: exact (HArray _ _ (IH t)). 2: exact HIface.
  apply HStruct; [induction ts; constructor; auto|]. destruct tail as [t|]; [intros ? [= <-]; exact (IH t)|intros ? [=]].
Defined.

Fixpoint val_nested_ind
  (HNil : Q VNil) (HPtr : forall v, Q v -> Q (VPtr v)) (HUint : forall i, Q (VUint i))
  (HBig : forall i, Q (VBig i)) (HBool : forall b, Q (VBool b)) (HBytes : forall b, Q (VBytes b))
  (HList : forall l, Forall Q l -> Q (VList l)) (v : val) {struct v} : Q v.
Proof.
  pose proof (val_nested_ind HNil HPtr HUint HBig HBool HBytes HList) as IH.
  destruct v as [|v|i|i|b|b|l].
  1: exact HNil. 1: exact (HPtr _ (IH v)). 1: exact (HUint i). 1: exact (HBig i). 1: exact (HBool b).
  1: exact (HBytes b). apply HList. induction l; constructor; auto.
Defined.
End Induction.

(** ** The encoder *)

Lemma writeInterface_writes v : writes (writeInterface v) (enc_iface v).
Proof.
  induction v using val_nested_ind; try by apply writes_str.
  - apply writes_str. intros w. simpl. by rewrite encodeString_spec.
  - by apply writes_slice.
Qed.

Lemma writes_fields fields tail l :
  Forall (fun t => forall v, typed t v -> writes (write t v) (enc t v)) fields ->
  (forall t, tail = Some t -> forall v, typed t v -> writes (write t v) (enc t v)) ->
  typed_fields (map typed fields) (match tail with Some t => Some (typed t) | None => None end) l ->
  writes (write_fields (map write fields) (match tail with Some t => Some (write t) | None => None end) l)
    (enc_fields (map enc fields) (match tail with Some t => Some (enc t) | None => None end) l).
Proof.
  intros Hf Ht. revert l. induction Hf as [|t fields Hv Hl IH]; intros l Hty; simpl in *.
  - destruct tail as [t|]; [|apply writes_nil]. apply writes_elems. apply foldr_Forall in Hty.
    eapply Forall_impl; [exact Hty|]. intros v Htv. by apply Ht.
  - destruct l as [|v l]; [apply writes_nil|]. destruct Hty as [Hv1 Hty]. apply writes_seq; auto.
Qed.

Lemma write_writes t v : typed t v -> writes (write t v) (enc t v).
Proof.
  revert v. induction t using typ_nested_ind; intros v Hty; destruct v; simpl in Hty; try done; cbn [write enc].
  all: match goal with
  | |- writes (fun w => writeInterface _ w) _ => apply writeInterface_writes
  | |- writes (fun w => (writeNil _ w, None)) _ => apply writeNil_writes
  | |- writes (fun w => writeBigInt _ w) _ => apply writeBigInt_writes
  | H : forall v, _ |- writes (fun w => write _ _ w) _ => by apply H
  | |- writes (fun w => _) (Some _) => apply writes_str; intros w; rewrite ?encodeString_spec, ?writeString_spec
  | _ => idtac
  end; try done.
  - destruct Hty as [Hi Hb]. rewrite writeUint_spec; [done|]. simpl in Hb.
    destruct Hb as [<-|[<-|[<-|[<-|[]]]]]; simpl in Hi; lia.
  - unfold writeBool. by destruct b.
  - apply writes_slice. apply foldr_Forall in Hty. by eapply Forall_impl.
  - apply writes_slice. destruct Hty as [_ Hty%foldr_Forall]. by eapply Forall_impl.
  - unfold write_struct. apply writes_wrap. by apply writes_fields.
Qed.

Lemma EncodeToBytes_spec t v :
  typed t v -> (forall b, enc t v = Some b -> zlen b < two64) ->
  EncodeToBytes t v = match enc t v with Some b => inr b | None => inl NegativeBigInt end.
Proof.
  intros Hty Hs. pose proof (write_writes t v Hty) as Hw. unfold EncodeToBytes.
  destruct (enc t v) as [b|]; simpl in Hw.
  - destruct (Hw (Hs _ eq_refl)) as (p & _ & <- & Hp). by rewrite Hp, toBytes_extend.
  - specialize (Hw (mkEncbuf [] [] 0)). destruct (write t v _) as [? o]. by simpl in Hw; subst o.
Qed.
