(* ===== verification/RlpStream.v ===== *)
(** * rlp: the decoder (decode.go) and the raw accessors (raw.go)
    [Stream] is the decoding stream over a byte slice; [decode] follows the
    decoder functions that makeDecoder selects for a type.  The loops over list
    elements and the recursion on nested interfaces take fuel. *)

From S2P Require Import Prelude MathUtil Rlp.

(** ** Errors *)

(** The messages of a [decodeError]; its type and context fields only serve
    its printed form. *)
Inductive decodeMsg :=
  | NonCanonicalInteger | NonCanonicalSize | ExpectedInputList | ExpectedInputString
  | InputStringTooLong | InputStringTooShort | TooManyElements | ListTooFewElements | TooFewElements
  | WrongKindOfEmptyValue.

Inductive derr :=
  | EOL
  | ErrExpectedString | ErrExpectedList | ErrCanonInt | ErrCanonSize
  | ErrElemTooLarge | ErrValueTooLarge | ErrMoreThanOneValue
  | errNotInList | errNotAtEOL | errUintOverflow
  | EOF | ErrUnexpectedEOF
  | InvalidBoolean (num : Z)
  | decodeError (msg : decodeMsg).

#[export] Instance decodeMsg_eq_dec : EqDecision decodeMsg.
Proof. solve_decision. Defined.
#[export] Instance derr_eq_dec : EqDecision derr.
Proof. solve_decision. Defined.

Definition wrapStreamError (e : derr) : derr :=
  match e with
  | ErrCanonInt => decodeError NonCanonicalInteger
  | ErrCanonSize => decodeError NonCanonicalSize
  | ErrExpectedList => decodeError ExpectedInputList
  | ErrExpectedString => decodeError ExpectedInputString
  | errUintOverflow => decodeError InputStringTooLong
  | errNotAtEOL => decodeError TooManyElements
  | e => e
  end.

(** ** The stream *)

Module Stream.

(** The reader [r] is what is left of a byte slice.  [kind = None] is the
    rearmed state (-1).  The stack of enclosing lists has its top first. *)
Record t := mkStream {
  r : bytes;
  remaining : Z;
  limited : bool;
  kind : option Kind.t;
  size : Z;
  byteval : byte;
  kinderr : option derr;
  stack : list (Z * Z) }.

Definition set_kind (s : t) (k : option Kind.t) : t :=
  mkStream (r s) (remaining s) (limited s) k (size s) (byteval s) (kinderr s) (stack s).
Definition set_r (s : t) (b : bytes) : t :=
  mkStream b (remaining s) (limited s) (kind s) (size s) (byteval s) (kinderr s) (stack s).
Definition set_byteval (s : t) (b : byte) : t :=
  mkStream (r s) (remaining s) (limited s) (kind s) (size s) b (kinderr s) (stack s).
Definition set_stack (s : t) (st : list (Z * Z)) : t :=
  mkStream (r s) (remaining s) (limited s) (kind s) (size s) (byteval s) (kinderr s) st.
Definition set_remaining (s : t) (n : Z) : t :=
  mkStream (r s) n (limited s) (kind s) (size s) (byteval s) (kinderr s) (stack s).
Definition set_info (s : t) (k : option Kind.t) (n : Z) (e : option derr) : t :=
  mkStream (r s) (remaining s) (limited s) k n (byteval s) e (stack s).

(** A stream operation that cannot loop. *)
Abbreviation op A := (t -> t * (derr + A)).

Definition obnd {A B} (m : op A) (f : A -> op B) : op B := fun s =>
  match m s with
  | (s, inl e) => (s, inl e)
  | (s, inr a) => f a s
  end.
Definition oret {A} (a : A) : op A := fun s => (s, inr a).
Definition oerr {A} (e : derr) : op A := fun s => (s, inl e).

Declare Scope op_scope.
Delimit Scope op_scope with op.
Notation "'let?' x := m 'in' k" := (obnd m (fun x => k))
  (at level 10, x name, m at level 100, k at level 200) : op_scope.
Notation "'let?' ' pat := m 'in' k" := (obnd m (fun x => match x with pat => k end))
  (at level 10, pat pattern, m at level 100, k at level 200, only parsing) : op_scope.
#[local] Open Scope op_scope.

(** [wrapStreamError(err, typ)] on the error of an operation. *)
Definition wrapped {A} (m : op A) : op A := fun s =>
  match m s with
  | (s, inl e) => (s, inl (wrapStreamError e))
  | x => x
  end.

Definition willRead (n : Z) : op unit := fun s =>
  let s := set_kind s None in
  let limit (s : t) :=
    if limited s then
      if remaining s <? n then (s, inl ErrValueTooLarge)
      else (set_remaining s (remaining s - n), inr tt)
    else (s, inr tt) in
  match stack s with
  | (pos, sz) :: st =>
      if u64 (sz - pos) <? n then (s, inl ErrElemTooLarge)
      else limit (set_stack s ((u64 (pos + n), sz) :: st))
  | [] => limit s
  end.

Definition readByte : op byte :=
  let? _ := willRead 1 in fun s =>
  match r s with
  | b :: rest => (set_r s rest, inr b)
  | [] => (s, inl ErrUnexpectedEOF)
  end.

(** readFull into a buffer of [n] bytes. *)
Definition readFull (n : Z) : op bytes :=
  let? _ := willRead n in fun s =>
  if zlen (r s) <? n then (set_r s [], inl ErrUnexpectedEOF)
  else (set_r s (drop (Z.to_nat n) (r s)), inr (take (Z.to_nat n) (r s))).

Definition readUint (sz : Z) : op Z :=
  if sz =? 0 then fun s => (set_kind s None, inr 0)
  else if sz =? 1 then let? b := readByte in oret (Z_of_byte b)
  else
    let? b := readFull sz in
    match b with
    | Byte.x00 :: _ => oerr ErrCanonSize
    | _ => oret (SetBytes b)
    end.

(** The result of readKind: a kind and a size, each also set with an error. *)
Definition readKind (s : t) : t * (Kind.t * Z * option derr) :=
  match readByte s with
  | (s, inl e) =>
      let e :=
        match stack s, e with
        | [], ErrUnexpectedEOF | [], ErrValueTooLarge => EOF
        | _, e => e
        end in
      (s, (Kind.Byte, 0, Some e))
  | (s, inr b) =>
      let s := set_byteval s Byte.x00 in
      let v := Z_of_byte b in
      let long (k : Kind.t) (sz : Z) :=
        match readUint sz s with
        | (s, inl e) => (s, (k, 0, Some e))
        | (s, inr n) => (s, (k, n, if n <? 56 then Some ErrCanonSize else None))
        end in
      if v <? 128 then (set_byteval s b, (Kind.Byte, 0, None))
      else if v <? 184 then (s, (Kind.String, v - 128, None))
      else if v <? 192 then long Kind.String (v - 183)
      else if v <? 248 then (s, (Kind.List, v - 192, None))
      else long Kind.List (v - 247)
  end.

Definition Kind_ : op (Kind.t * Z) := fun s =>
  let result (s : t) (k : Kind.t) :=
    match kinderr s with
    | Some e => (s, inl e)
    | None => (s, inr (k, size s))
    end in
  match kind s with
  | Some k => result s k
  | None =>
      let s := set_info s None (size s) None in
      let tos := head (stack s) in
      if match tos with Some (pos, sz) => pos =? sz | None => false end then (s, inl EOL)
      else
        let '(s, (k, n, e)) := readKind s in
        let e :=
          match e with
          | Some e => Some e
          | None =>
              match head (stack s) with
              | None => if limited s && (remaining s <? n) then Some ErrValueTooLarge else None
              | Some (pos, sz) => if u64 (sz - pos) <? n then Some ErrElemTooLarge else None
              end
          end in
        result (set_info s (Some k) n e) k
  end.

Definition rearm : op unit := fun s => (set_kind s None, inr tt).
Definition get_byteval : op byte := fun s => (s, inr (byteval s)).

Definition Bytes : op bytes :=
  let? '(k, sz) := Kind_ in
  match k with
  | Kind.Byte => let? _ := rearm in let? b := get_byteval in oret [b]
  | Kind.String =>
      let? b := readFull sz in
      match b with
      | [x] => if Z_of_byte x <? 128 then oerr ErrCanonSize else oret b
      | _ => oret b
      end
  | Kind.List => oerr ErrExpectedString
  end.

Definition Raw : op bytes :=
  let? '(k, sz) := Kind_ in
  match k with
  | Kind.Byte => let? _ := rearm in let? b := get_byteval in oret [b]
  | Kind.String => let? b := readFull sz in oret (puthead 128 183 sz ++ b)
  | Kind.List => let? b := readFull sz in oret (puthead 192 247 sz ++ b)
  end.

Definition uint (maxbits : Z) : op Z :=
  let? '(k, sz) := Kind_ in
  match k with
  | Kind.Byte =>
      let? b := get_byteval in
      if Z_of_byte b =? 0 then oerr ErrCanonInt
      else let? _ := rearm in oret (Z_of_byte b)
  | Kind.String =>
      if maxbits / 8 <? sz then oerr errUintOverflow
      else fun s =>
        match readUint sz s with
        | (s, inl ErrCanonSize) => (s, inl ErrCanonInt)
        | (s, inl e) => (s, inl e)
        | (s, inr v) => if (0 <? sz) && (v <? 128) then (s, inl ErrCanonSize) else (s, inr v)
        end
  | Kind.List => oerr ErrExpectedString
  end.
Definition Uint : op Z := uint 64.

Definition Bool_ : op bool :=
  let? num := uint 8 in
  if num =? 0 then oret false else if num =? 1 then oret true else oerr (InvalidBoolean num).

Definition List_ : op Z :=
  let? '(k, sz) := Kind_ in
  match k with
  | Kind.List => fun s => (set_stack (set_info s None 0 (kinderr s)) ((0, sz) :: stack s), inr sz)
  | _ => oerr ErrExpectedList
  end.

Definition ListEnd : op unit := fun s =>
  match stack s with
  | [] => (s, inl errNotInList)
  | (pos, sz) :: st =>
      if negb (pos =? sz) then (s, inl errNotAtEOL)
      else
        let st := match st with (p, z) :: st => (u64 (p + sz), z) :: st | [] => [] end in
        (set_stack (set_info s None 0 (kinderr s)) st, inr tt)
  end.
End Stream.
Import Stream.
#[local] Open Scope op_scope.

(** ** Decoders *)

(** A decoder may run out of fuel. *)
Abbreviation decoder A := (Stream.t -> outcome (Stream.t * (derr + A))).

Definition lift {A} (m : op A) : decoder A := fun s => Done (m s).
Definition dbnd {A B} (m : decoder A) (f : A -> decoder B) : decoder B := fun s =>
  match m s with
  | Done (s, inl e) => Done (s, inl e)
  | Done (s, inr a) => f a s
  | Panic p => Panic p
  | OutOfFuel => OutOfFuel
  end.
Notation "'let^' x := m 'in' k" := (dbnd m (fun x => k))
  (at level 10, x name, m at level 100, k at level 200) : op_scope.
Notation "'let^' ' pat := m 'in' k" := (dbnd m (fun x => match x with pat => k end))
  (at level 10, pat pattern, m at level 100, k at level 200, only parsing) : op_scope.

Definition decodeRawValue : op val := let? b := Raw in oret (VBytes b).
Definition decodeUint (bits : Z) : op val := let? n := wrapped (uint bits) in oret (VUint n).
Definition decodeBool : op val := let? b := wrapped Bool_ in oret (VBool b).
Definition decodeString : op val := let? b := wrapped Bytes in oret (VBytes b).
Definition decodeByteSlice : op val := let? b := wrapped Bytes in oret (VBytes b).
Definition decodeBigInt : op val :=
  let? b := wrapped Bytes in
  match b with
  | Byte.x00 :: _ => oerr (wrapStreamError ErrCanonInt)
  | _ => oret (VBig (SetBytes b))
  end.

(** The error of [s.Uint()] is dropped. *)
Definition decodeByteArray (vlen : nat) : op val :=
  let? '(k, sz) := Kind_ in
  match k with
  | Kind.Byte =>
      if (vlen =? 0)%nat then oerr (decodeError InputStringTooLong)
      else if (1 <? vlen)%nat then oerr (decodeError InputStringTooShort)
      else fun s =>
        let '(s, x) := Uint s in
        (s, inr (VBytes [byte_of_Z (match x with inr v => v | inl _ => 0 end)]))
  | Kind.String =>
      if Z.of_nat vlen <? sz then oerr (decodeError InputStringTooLong)
      else if sz <? Z.of_nat vlen then oerr (decodeError InputStringTooShort)
      else
        let? b := readFull (Z.of_nat vlen) in
        match b with
        | [x] => if Z_of_byte x <? 128 then oerr (wrapStreamError ErrCanonSize) else oret (VBytes b)
        | _ => oret (VBytes b)
        end
  | Kind.List => oerr (wrapStreamError ErrExpectedString)
  end.

Section Elements.
Context (elemdec : decoder val).

(** [for ; ; i++] until the element decoder reports the end of the list. *)
Fixpoint decodeSliceElems (fuel : nat) : decoder (list val) := fun s =>
  match fuel with
  | O => OutOfFuel
  | S fuel =>
      match elemdec s with
      | Done (s, inl EOL) => Done (s, inr [])
      | Done (s, inl e) => Done (s, inl e)
      | Done (s, inr v) => (let^ l := decodeSliceElems fuel in lift (oret (v :: l))) s
      | Panic p => Panic p
      | OutOfFuel => OutOfFuel
      end
  end.

Definition decodeListSlice (fuel : nat) : decoder val :=
  let^ sz := lift (wrapped List_) in
  if sz =? 0 then let^ _ := lift ListEnd in lift (oret (VList []))
  else
    let^ l := decodeSliceElems fuel in
    let^ _ := lift ListEnd in
    lift (oret (VList l)).

(** The elements of an array; [None] if the list ends before them. *)
Fixpoint decodeArrayElems (vlen : nat) : decoder (option (list val)) := fun s =>
  match vlen with
  | O => Done (s, inr (Some []))
  | S vlen =>
      match elemdec s with
      | Done (s, inl EOL) => Done (s, inr None)
      | Done (s, inl e) => Done (s, inl e)
      | Done (s, inr v) =>
          (let^ l := decodeArrayElems vlen in lift (oret (match l with Some l => Some (v :: l) | None => None end))) s
      | Panic p => Panic p
      | OutOfFuel => OutOfFuel
      end
  end.

Definition decodeListArray (vlen : nat) : decoder val :=
  let^ _ := lift (wrapped List_) in
  let^ l := decodeArrayElems vlen in
  match l with
  | None => lift (oerr (decodeError ListTooFewElements))
  | Some l => let^ _ := lift (wrapped ListEnd) in lift (oret (VList l))
  end.

Definition simplePtrDecoder : decoder val := let^ v := elemdec in lift (oret (VPtr v)).

Definition nilPtrDecoder (nilKind : Kind.t) : decoder val :=
  let^ '(k, sz) := lift (wrapped Kind_) in
  if negb (bool_decide (k = Kind.Byte)) && (sz =? 0) then
    if negb (bool_decide (k = nilKind)) then lift (oerr (decodeError WrongKindOfEmptyValue))
    else let^ _ := lift rearm in lift (oret VNil)
  else simplePtrDecoder.
End Elements.

Fixpoint decodeFields (fuel : nat) (fields : list (decoder val)) (tail : option (decoder val))
  : decoder (list val) :=
  match fields with
  | [] => match tail with Some d => decodeSliceElems d fuel | None => lift (oret []) end
  | f :: fields => fun s =>
      match f s with
      | Done (s, inl EOL) => Done (s, inl (decodeError TooFewElements))
      | Done (s, inl e) => Done (s, inl e)
      | Done (s, inr v) => (let^ l := decodeFields fuel fields tail in lift (oret (v :: l))) s
      | Panic p => Panic p
      | OutOfFuel => OutOfFuel
      end
  end.

Definition structDecoder (fuel : nat) (fields : list (decoder val)) (tail : option (decoder val))
  : decoder val :=
  let^ _ := lift (wrapped List_) in
  let^ l := decodeFields fuel fields tail in
  let^ _ := lift (wrapped ListEnd) in
  lift (oret (VList l)).

Fixpoint decodeInterface (fuel : nat) : decoder val :=
  match fuel with
  | O => fun _ => OutOfFuel
  | S fuel =>
      let^ '(k, _) := lift Kind_ in
      match k with
      | Kind.List => decodeListSlice (decodeInterface fuel) fuel
      | _ => let^ b := lift Bytes in lift (oret (VBytes b))
      end
  end.

Fixpoint decode (fuel : nat) (t : typ) : decoder val :=
  match t with
  | TRaw => lift decodeRawValue
  | TBig => lift decodeBigInt
  | TPtr t => simplePtrDecoder (decode fuel t)
  | TNilPtr k t => nilPtrDecoder (decode fuel t) k
  | TUint bits => lift (decodeUint bits)
  | TBool => lift decodeBool
  | TString => lift decodeString
  | TBytes => lift decodeByteSlice
  | TByteArray n => lift (decodeByteArray n)
  | TSlice t => decodeListSlice (decode fuel t) fuel
  | TArray n t => decodeListArray (decode fuel t) n
  | TStruct fields tail =>
      structDecoder fuel (map (decode fuel) fields)
        (match tail with Some t => Some (decode fuel t) | None => None end)
  | TIface => decodeInterface fuel
  end.

(** A stream over a byte slice: Reset takes the length of the slice as the
    limit, also when the limit passed is zero. *)
Definition NewStream (b : bytes) : Stream.t :=
  mkStream b (zlen b) true None 0 Byte.x00 None [].

Definition DecodeBytes (fuel : nat) (t : typ) (b : bytes) : outcome (derr + val) :=
  match decode fuel t (NewStream b) with
  | Done (s, inl e) => Done (inl e)
  | Done (s, inr v) => Done (if (0 <? length (r s))%nat then inl ErrMoreThanOneValue else inr v)
  | Panic p => Panic p
  | OutOfFuel => OutOfFuel
  end.

Example decode_list : DecodeBytes 10 (TStruct [TUint 64; TBytes] None) [Byte.xc4; Byte.x05; Byte.x82; Byte.x01; Byte.x02]
  = Done (inr (VList [VUint 5; VBytes [Byte.x01; Byte.x02]])).
Proof. vm_compute. reflexivity. Qed.
