(* ===== verification/RlpDecode.v ===== *)
(** * rlp: the decoder inverts the encoder
    The decoding stream reads back every encoding, accepts nothing but
    encodings, and always ends. *)

From S2P Require Import Prelude MathUtil Rlp RlpEncode RlpStream.
Import Stream.
#[local] Open Scope op_scope.

(** ** Positions *)

Definition bump (st : list (Z * Z)) (n : Z) : list (Z * Z) :=
  match st with (p, z) :: st => (p + n, z) :: st | [] => [] end.

(** The stream after [n] more bytes of input. *)
Definition skip (s : t) (n : Z) : t :=
  mkStream (drop (Z.to_nat n) (r s)) (remaining s - n) (limited s) None (size s) (byteval s) (kinderr s)
    (bump (stack s) n).

(** What matters of a stream that is positioned before a value. *)
Definition clean (s : t) : t := mkStream (r s) (remaining s) (limited s) None 0 Byte.x00 None (stack s).

Definition adv (s : t) (n : Z) (s' : t) : Prop := kind s' = None /\ clean s' = clean (skip s n).

(** The enclosing lists lie inside each other and inside the input of [len]
    bytes; [done] bytes of the first list are those of the list before it. *)
Fixpoint stack_ok (done_ : Z) (st : list (Z * Z)) (len : Z) : Prop :=
  match st with
  | [] => True
  | (p, z) :: st =>
      let left := z - (p + done_) in
      0 <= p /\ 0 <= left <= len /\ z < two63 /\ stack_ok z st (len - left)
  end.

(** A stream over a byte slice, positioned before a value. *)
Record ready (s : t) : Prop := {
  rd_limited : limited s = true;
  rd_remaining : remaining s = zlen (r s);
  rd_length : zlen (r s) < two63;
  rd_stack : stack_ok 0 (stack s) (zlen (r s)) }.

Definition room (s : t) : Z := match stack s with (p, z) :: _ => z - p | [] => zlen (r s) end.
Definition at_end (s : t) : Prop := match stack s with (p, z) :: _ => p = z | [] => False end.

Lemma bump_bump st n m : bump (bump st n) m = bump st (n + m).
Proof. destruct st as [|[p z] st]; simpl; [done|]. by rewrite Z.add_assoc. Qed.

Lemma bump_0 st : bump st 0 = st.
Proof. destruct st as [|[p z] st]; simpl; [done|]. by rewrite Z.add_0_r. Qed.

Lemma clean_skip s n : clean (skip s n) = skip (clean s) n.
Proof. done. Qed.

Lemma skip_skip s n m : 0 <= n -> 0 <= m -> skip (skip s n) m = skip s (n + m).
Proof.
  intros Hn Hm. unfold skip. simpl. rewrite drop_drop, bump_bump. f_equal; [f_equal; lia|lia].
Qed.

Lemma adv_trans s n s1 m s2 : 0 <= n -> 0 <= m -> adv s n s1 -> adv s1 m s2 -> adv s (n + m) s2.
Proof.
  intros Hn Hm [_ H1] [Hk H2]. split; [done|]. by rewrite H2, clean_skip, H1, <-skip_skip by done.
Qed.

Lemma adv_skip s n s' : kind s' = None -> clean s' = clean (skip s n) -> adv s n s'.
Proof. done. Qed.

Lemma adv_r s n s' : adv s n s' -> r s' = drop (Z.to_nat n) (r s).
Proof. intros [_ H]. by apply (f_equal r) in H. Qed.

Lemma adv_stack s n s' : adv s n s' -> stack s' = bump (stack s) n.
Proof. intros [_ H]. by apply (f_equal stack) in H. Qed.

Lemma room_le s : ready s -> room s <= zlen (r s).
Proof. intros []. unfold room. destruct (stack s) as [|[p z] st]; simpl in *; lia. Qed.

Lemma ready_adv s n s' : ready s -> 0 <= n <= room s -> adv s n s' -> ready s'.
Proof.
  intros Hs Hn [Hk Hc]. pose proof (room_le s Hs). destruct Hs as [Hl Hr Hb Hs].
  pose proof (f_equal r Hc) as E1. pose proof (f_equal remaining Hc) as E2.
  pose proof (f_equal limited Hc) as E3. pose proof (f_equal stack Hc) as E4. simpl in *.
  constructor; rewrite ?E1, ?E2, ?E3, ?E4, ?length_drop; try done; try lia.
  unfold room in Hn. destruct (stack s) as [|[p z] st]; [done|]. simpl in *.
  destruct Hs as (? & ? & ? & Hs). split_and!; [lia..|].
  by replace (Z.of_nat (length (r s) - Z.to_nat n) - (z - (p + n + 0))) with (zlen (r s) - (z - (p + 0))) by lia.
Qed.

Lemma room_adv s n s' : ready s -> 0 <= n <= room s -> adv s n s' -> room s' = room s - n.
Proof.
  intros Hs Hn Ha. pose proof (room_le s Hs). unfold room in *.
  rewrite (adv_r _ _ _ Ha), (adv_stack _ _ _ Ha), length_drop.
  destruct (stack s) as [|[p z] st]; simpl; lia.
Qed.

(** ** Reading *)

Lemma willRead_ok s n :
  ready s -> 0 <= n <= room s -> willRead n s = (set_r (skip s n) (r s), inr tt).
Proof.
  intros Hs Hn. pose proof (room_le s Hs). destruct Hs as [Hl Hr Hb Hs]. unfold willRead, room in *. simpl.
  destruct (stack s) as [|[p z] st] eqn:E; simpl.
  - rewrite Hl, (proj2 (Z.ltb_ge _ _)) by lia. unfold set_r, set_remaining, skip. simpl. by rewrite E, Hl.
  - simpl in Hs. rewrite !u64_small by (unfold is_u64; lia).
    rewrite (proj2 (Z.ltb_ge _ _)) by lia. rewrite Hl, (proj2 (Z.ltb_ge _ _)) by lia.
    unfold set_r, set_remaining, set_stack, skip. simpl. by rewrite E, Hl.
Qed.

Lemma readByte_ok s b rest : ready s -> 1 <= room s -> r s = b :: rest -> readByte s = (skip s 1, inr b).
Proof.
  intros Hs Hn Hr. unfold readByte, obnd. rewrite willRead_ok by (done || lia). simpl. rewrite Hr.
  unfold set_r, skip. simpl. by rewrite Hr.
Qed.

Lemma readFull_ok s n : ready s -> 0 <= n <= room s ->
  readFull n s = (skip s n, inr (take (Z.to_nat n) (r s))).
Proof.
  intros Hs Hn. unfold readFull, obnd. rewrite willRead_ok by done. simpl.
  pose proof (room_le s Hs). by rewrite (proj2 (Z.ltb_ge _ _)) by lia.
Qed.

(** A failed read reports that the input or the list is exhausted. *)
Definition short (e : derr) : Prop := e = ErrElemTooLarge \/ e = ErrValueTooLarge \/ e = ErrUnexpectedEOF.

Lemma willRead_short s n : ready s -> room s < n -> exists s' e, willRead n s = (s', inl e) /\ short e.
Proof.
  intros [Hl Hr Hb Hs] Hn. unfold willRead, room, short in *. simpl.
  destruct (stack s) as [|[p z] st] eqn:E; simpl.
  - rewrite Hl, (proj2 (Z.ltb_lt _ _)) by lia. eauto 10.
  - simpl in Hs. rewrite u64_small by (unfold is_u64; lia). rewrite (proj2 (Z.ltb_lt _ _)) by lia. eauto 10.
Qed.

Lemma readByte_short s : ready s -> room s < 1 -> exists s' e, readByte s = (s', inl e) /\ short e.
Proof.
  intros Hs Hn. unfold readByte, obnd. destruct (willRead_short s 1 Hs Hn) as (s' & e & -> & ?). eauto.
Qed.

Lemma readFull_short s n : ready s -> room s < n -> exists s' e, readFull n s = (s', inl e) /\ short e.
Proof.
  intros Hs Hn. unfold readFull, obnd. destruct (willRead_short s n Hs Hn) as (s' & e & -> & ?). eauto.
Qed.

Lemma readUint_ok s l rest :
  ready s -> r s = l ++ rest -> 1 <= zlen l <= room s -> length l = 1%nat \/ no_leading_zero l ->
  readUint (zlen l) s = (skip s (zlen l), inr (SetBytes l)).
Proof.
  intros Hs Hr Hl Hz. unfold readUint. destruct (Z.eqb_spec (zlen l) 0); [lia|].
  destruct (Z.eqb_spec (zlen l) 1) as [H1|H1].
  - destruct l as [|b [|b0 l]]; [done| |simpl in H1; lia]. unfold obnd.
    rewrite (readByte_ok s b rest) by (done || lia). unfold oret. rewrite SetBytes_cons. change (SetBytes []) with 0. simpl. do 2 f_equal. lia.
  - unfold obnd. rewrite readFull_ok by (done || lia). rewrite Hr, Nat2Z.id, take_app_length.
    destruct Hz as [|Hz]; [lia|]. destruct l as [|b l]; [done|]. simpl in Hz. by destruct b.
Qed.

Lemma readUint_inv s n :
  ready s -> 1 <= n -> forall s' x, readUint n s = (s', x) ->
  match x with
  | inl e => short e \/ e = ErrCanonSize
  | inr v => n <= room s /\ s' = skip s n /\ v = SetBytes (take (Z.to_nat n) (r s)) /\
             (n = 1 \/ no_leading_zero (take (Z.to_nat n) (r s)))
  end.
Proof.
  intros Hs Hn s' x. pose proof (room_le s Hs) as Hle. unfold readUint. destruct (Z.eqb_spec n 0); [lia|].
  destruct (Z.eqb_spec n 1) as [->|H1]; unfold obnd, oret, oerr.
  - destruct (Z_lt_dec (room s) 1) as [Hr|Hr].
    + destruct (readByte_short s Hs Hr) as (? & ? & -> & ?). intros [= <- <-]. by left.
    + destruct (r s) as [|b rest] eqn:E; [simpl in Hle; lia|]. rewrite (readByte_ok s b rest) by (done || lia).
      intros [= <- <-]. split_and!; [lia|done| |by left]. change (Z.to_nat 1) with 1%nat. rewrite firstn_cons, firstn_O, SetBytes_cons. change (SetBytes []) with 0. simpl. lia.
  - destruct (Z_lt_dec (room s) n) as [Hr|Hr].
    + destruct (readFull_short s n Hs Hr) as (? & ? & -> & ?). intros [= <- <-]. by left.
    + rewrite readFull_ok by (done || lia). set (l := take _ _).
      destruct l as [|b l'] eqn:El; [|destruct (decide (b = Byte.x00)) as [->|Hb]].
      * intros [= <- <-]. split_and!; [lia|done..|by right].
      * intros [= <- <-]. by right.
      * assert (forall A (x y : A), match b with Byte.x00 => x | _ => y end = y) as Hm by (intros; by destruct b).
        rewrite Hm. intros [= <- <-]. split_and!; [lia|done..|by right].
Qed.

(** ** Headers *)

(** The bytes that announce a value: for a single byte, the byte itself. *)
Definition header (k : Kind.t) (n : Z) (b : byte) : bytes :=
  match k with
  | Kind.Byte => [b]
  | Kind.String => puthead 128 183 n
  | Kind.List => puthead 192 247 n
  end.
Definition header_ok (k : Kind.t) (n : Z) (b : byte) : Prop :=
  match k with Kind.Byte => n = 0 /\ Z_of_byte b < 128 | _ => 0 <= n < two64 end.

(** The stream after Kind has read a header. *)
Record peeked (s : t) (k : Kind.t) (n : Z) (b : byte) (s1 : t) : Prop := {
  pk_kind : kind s1 = Some k;
  pk_size : size s1 = n;
  pk_err : kinderr s1 = None;
  pk_byteval : k = Kind.Byte -> byteval s1 = b;
  pk_clean : clean s1 = clean (skip s (zlen (header k n b))) }.

Lemma puthead_long s l n : 56 <= n < two64 ->
  puthead s l n = byte_of_Z (l + zlen (BigBytes n)) :: BigBytes n /\ 1 <= zlen (BigBytes n) <= 8.
Proof.
  intros Hn. unfold puthead. rewrite (proj2 (Z.ltb_ge _ _)), putint_BigBytes by lia. split; [done|].
  destruct (size_class n) as (k & Hk & Hb); [lia|]. rewrite (BigBytes_size k) by (done || lia).
  rewrite length_be_bytes. lia.
Qed.

Lemma byte_of_Z_small z : 0 <= z < 256 -> Z_of_byte (byte_of_Z z) = z.
Proof. intros. rewrite Z_of_byte_of_Z. by apply Z.mod_small. Qed.

Lemma ready_skip s n : ready s -> 0 <= n <= room s -> ready (skip s n).
Proof. intros Hs Hn. eapply ready_adv; [done..|]. by split. Qed.

Lemma room_skip s n : ready s -> 0 <= n <= room s -> room (skip s n) = room s - n.
Proof. intros Hs Hn. eapply room_adv; [done..|]. by split. Qed.

Lemma ready_byteval s b : ready s -> ready (set_byteval s b).
Proof. intros []. by constructor. Qed.

(** The part of readKind after the first byte. *)
Lemma readKind_long s b l n rest :
  ready s -> r s = b :: l ++ rest -> 1 + zlen l <= room s -> 1 <= zlen l -> length l = 1%nat \/ no_leading_zero l ->
  readUint (zlen l) (set_byteval (skip s 1) Byte.x00) = n ->
  n = (skip (set_byteval s Byte.x00) (1 + zlen l), inr (SetBytes l)).
Proof.
  intros Hs Hr Hroom Hl Hz <-.
  assert (ready (skip s 1)) as Hs1 by (apply ready_skip; [done|lia]).
  rewrite (readUint_ok _ l rest); [|by apply ready_byteval|simpl; by rewrite Hr| |done].
  - f_equal. rewrite <-skip_skip by lia. done.
  - change (room (set_byteval (skip s 1) Byte.x00)) with (room (skip s 1)). rewrite room_skip by (done || lia). lia.
Qed.

Lemma readKind_ok s k n b rest :
  ready s -> r s = header k n b ++ rest -> header_ok k n b -> zlen (header k n b) <= room s ->
  exists s', readKind s = (s', (k, n, None)) /\ clean s' = clean (skip s (zlen (header k n b))) /\
    (k = Kind.Byte -> byteval s' = b).
Proof.
  intros Hs Hr Hh Hroom. unfold readKind.
  destruct (decide (k = Kind.Byte)) as [->|Hk]; [|destruct (Z.ltb_spec n 56) as [Hn|Hn]].
  - simpl in *. destruct Hh as [-> Hb]. rewrite (readByte_ok s b rest) by (done || lia).
    rewrite (proj2 (Z.ltb_lt _ _)) by lia. eauto.
  - assert (0 <= n) by (destruct k; simpl in Hh; [done|lia..]).
    assert (exists v, header k n b = [byte_of_Z v] /\ v = (if decide (k = Kind.String) then 128 else 192) + n) as (v & Hv & Ev).
    { destruct k; [done|simpl; rewrite puthead_small by lia; eauto..]. }
    rewrite Hv in *. rewrite (readByte_ok s (byte_of_Z v) rest) by (done || (simpl in *; lia)).
    destruct k; [done|simpl in Ev; subst v..]; rewrite byte_of_Z_small by lia;
      rewrite !(proj2 (Z.ltb_ge _ 128)), ?(proj2 (Z.ltb_ge _ 184)), ?(proj2 (Z.ltb_ge _ 192)) by lia;
      rewrite (proj2 (Z.ltb_lt _ _)) by lia; eexists; (split; [do 3 f_equal; lia|done]).
  - assert (n < two64) as Hn2 by (destruct k; simpl in Hh; [done|lia..]).
    set (base := match k with Kind.String => 183 | _ => 247 end).
    assert (header k n b = byte_of_Z (base + zlen (BigBytes n)) :: BigBytes n) as Hv.
    { unfold base. destruct k; [done|simpl; by rewrite (proj1 (puthead_long _ _ n (conj Hn Hn2)))..]. }
    destruct (puthead_long 0 0 n (conj Hn Hn2)) as [_ Hl]. rewrite Hv in *. cbn [length] in *.
    rewrite (readByte_ok s (byte_of_Z (base + zlen (BigBytes n))) (BigBytes n ++ rest)) by (done || lia).
    assert (forall s', readUint (zlen (BigBytes n)) (set_byteval (skip s 1) Byte.x00) = s' ->
      s' = (skip (set_byteval s Byte.x00) (1 + zlen (BigBytes n)), inr n)) as Hu.
    { intros s' Hs'. eapply readKind_long in Hs'; [|done|exact Hr|lia|lia|right; apply BigBytes_no_leading_zero].
      rewrite SetBytes_BigBytes, Z.abs_eq in Hs' by lia. done. }
    unfold base in *. destruct k; [done|..]; cbv iota in *; rewrite byte_of_Z_small by lia;
      rewrite !(proj2 (Z.ltb_ge _ 128)), ?(proj2 (Z.ltb_ge _ 184)) by lia.
    + rewrite (proj2 (Z.ltb_lt _ 192)) by lia. replace (183 + _ - 183) with (zlen (BigBytes n)) by lia.
      rewrite (Hu _ eq_refl), (proj2 (Z.ltb_ge _ 56)) by lia. eexists. split; [done|]. split; [|done].
      by replace (Z.of_nat (S (length (BigBytes n)))) with (1 + zlen (BigBytes n)) by lia.
    + rewrite (proj2 (Z.ltb_ge _ 192)), (proj2 (Z.ltb_ge _ 248)) by lia.
      replace (247 + _ - 247) with (zlen (BigBytes n)) by lia.
      rewrite (Hu _ eq_refl), (proj2 (Z.ltb_ge _ 56)) by lia. eexists. split; [done|]. split; [|done].
      by replace (Z.of_nat (S (length (BigBytes n)))) with (1 + zlen (BigBytes n)) by lia.
Qed.

Lemma no_leading_zero_one l : length l = 1%nat -> SetBytes l <> 0 -> no_leading_zero l.
Proof. destruct l as [|b [|]]; try done. intros _ Hl ->. done. Qed.

Lemma readKind_long_inv s b rest0 n s' k base :
  ready s -> r s = b :: rest0 -> 1 <= room s -> 1 <= n <= 8 ->
  Z_of_byte b = base + n -> k <> Kind.Byte -> base = match k with Kind.String => 183 | _ => 247 end ->
  forall x, readUint n (set_byteval (skip s 1) Byte.x00) = (s', x) ->
  match x with
  | inl e => e <> EOL
  | inr v => 56 <= v -> exists rest, r s = header k v b ++ rest /\ header_ok k v b /\
      zlen (header k v b) <= room s /\ clean s' = clean (skip s (zlen (header k v b)))
  end.
Proof.
  intros Hs Hr Hroom Hn Hb Hk Hbase x Hx.
  assert (ready (skip s 1)) as Hs1 by (apply ready_skip; [done|lia]).
  apply readUint_inv in Hx; [|by apply ready_byteval|lia].
  destruct x as [e|v]; [by destruct Hx as [[-> | [-> | ->]] | ->]|]. intros Hv.
  change (room (set_byteval (skip s 1) Byte.x00)) with (room (skip s 1)) in Hx. rewrite room_skip in Hx by (done || lia).
  destruct Hx as (Hle & -> & Ev & Hz). simpl in Ev, Hz. rewrite Hr in Ev, Hz. change (drop (Z.to_nat 1) (b :: rest0)) with rest0 in Ev, Hz.
  pose proof (room_le s Hs) as Hrl. rewrite Hr in Hrl. cbn [length] in Hrl.
  set (l := take (Z.to_nat n) rest0) in *.
  assert (zlen l = n) as Hll by (unfold l; rewrite length_take; lia).
  assert (BigBytes v = l) as HB.
  { rewrite Ev. apply BigBytes_SetBytes. destruct Hz as [->|]; [|done]. apply no_leading_zero_one; [lia|]. rewrite <-Ev. lia. }
  assert (0 <= v < two64) as Hv2.
  { rewrite Ev. pose proof (SetBytes_range l). split; [lia|]. rewrite Hll in *.
    assert (256 ^ n <= 256 ^ 8) by (apply Z.pow_le_mono_r; lia). lia. }
  assert (header k v b = b :: l) as Hh.
  { destruct k; [done|..]; simpl; rewrite (proj1 (puthead_long _ _ v ltac:(lia))), HB, Hll; f_equal;
      rewrite <-(byte_of_Z_of_byte b); f_equal; lia. }
  exists (drop (Z.to_nat n) rest0). rewrite Hh. cbn [app length]. rewrite <-(take_drop (Z.to_nat n) rest0) in Hr.
  split_and!; [done|by destruct k|lia|].
  replace (Z.of_nat (S (length l))) with (1 + n) by lia. by rewrite <-skip_skip by lia.
Qed.

Lemma readKind_inv s s' k n e :
  ready s -> readKind s = (s', (k, n, e)) ->
  match e with
  | Some e => e <> EOL
  | None => exists b rest, r s = header k n b ++ rest /\ header_ok k n b /\ zlen (header k n b) <= room s /\
      clean s' = clean (skip s (zlen (header k n b))) /\ (k = Kind.Byte -> byteval s' = b)
  end.
Proof.
  intros Hs. unfold readKind. destruct (Z_lt_dec (room s) 1) as [Hr|Hr].
  { destruct (readByte_short s Hs Hr) as (s1 & e1 & -> & Hsh). intros [= _ _ _ <-].
    destruct (stack s1); by destruct Hsh as [-> | [-> | ->]]. }
  pose proof (room_le s Hs). destruct (r s) as [|b rest] eqn:E; [simpl in *; lia|].
  rewrite (readByte_ok s b rest) by (done || lia).
  destruct (Z.ltb_spec (Z_of_byte b) 128) as [H1|H1].
  { intros [= <- <- <- <-]. exists b, rest. simpl. split_and!; try done; simpl; lia. }
  destruct (Z.ltb_spec (Z_of_byte b) 184) as [H2|H2].
  { intros [= <- <- <- <-]. exists b, rest. simpl. rewrite puthead_small by lia.
    replace (128 + (Z_of_byte b - 128)) with (Z_of_byte b) by lia. rewrite byte_of_Z_of_byte.
    split_and!; try done; simpl; lia. }
  assert (forall k base, k <> Kind.Byte -> base = match k with Kind.String => 183 | _ => 247 end ->
    1 <= Z_of_byte b - base <= 8 ->
    match readUint (Z_of_byte b - base) (set_byteval (skip s 1) Byte.x00) with
    | (s0, inl e0) => (s0, (k, 0, Some e0))
    | (s0, inr n0) => (s0, (k, n0, if n0 <? 56 then Some ErrCanonSize else None))
    end = (s', (k, n, e)) -> match e with
    | Some e => e <> EOL
    | None => exists b rest, r s = header k n b ++ rest /\ header_ok k n b /\ zlen (header k n b) <= room s /\
      clean s' = clean (skip s (zlen (header k n b))) /\ (k = Kind.Byte -> byteval s' = b)
    end) as Hlong.
  { intros k0 base Hk Hbase Hle. destruct (readUint _ _) as [s1 x] eqn:Eu.
    eapply (readKind_long_inv s b rest) in Eu; try done; [|lia|lia].
    destruct x as [e1|v]; [by intros [= _ _ <-]|]. destruct (Z.ltb_spec v 56); [by intros [= _ _ <-]|].
    intros [= <- <- <-]. destruct Eu as (rest' & ? & ? & ? & ?); [done|]. exists b, rest'. split_and!; done. }
  pose proof (Z_of_byte_range b). destruct (Z.ltb_spec (Z_of_byte b) 192) as [H3|H3].
  { intros Hx. assert (k = Kind.String) as -> by (by destruct (readUint _ _) as [? []]; simplify_eq).
    rewrite <-E. eapply Hlong; [done..|lia|exact Hx]. }
  destruct (Z.ltb_spec (Z_of_byte b) 248) as [H4|H4].
  { intros [= <- <- <- <-]. exists b, rest. simpl. rewrite puthead_small by lia.
    replace (192 + (Z_of_byte b - 192)) with (Z_of_byte b) by lia. rewrite byte_of_Z_of_byte.
    split_and!; try done; simpl; lia. }
  intros Hx. assert (k = Kind.List) as -> by (by destruct (readUint _ _) as [? []]; simplify_eq).
  rewrite <-E. eapply Hlong; [done..|lia|exact Hx].
Qed.

(** ** Kind *)

Lemma clean_ready s s' : clean s = clean s' -> ready s -> ready s'.
Proof.
  intros Hc [Hl Hr Hb Hs]. pose proof (f_equal r Hc) as E1. pose proof (f_equal remaining Hc) as E2.
  pose proof (f_equal limited Hc) as E3. pose proof (f_equal stack Hc) as E4. simpl in *.
  constructor; congruence.
Qed.

Lemma clean_room s s' : clean s = clean s' -> room s = room s'.
Proof.
  intros Hc. pose proof (f_equal r Hc) as E1. pose proof (f_equal stack Hc) as E4. simpl in *.
  unfold room. by rewrite E1, E4.
Qed.

Lemma clean_r s s' : clean s = clean s' -> r s = r s'.
Proof. intros Hc. by apply (f_equal r) in Hc. Qed.

(** The test at the end of Kind: the value fits the input and the list. *)
Definition fits (s : t) (n : Z) : bool :=
  match head (stack s) with
  | None => negb (limited s && (remaining s <? n))
  | Some (pos, sz) => negb (u64 (sz - pos) <? n)
  end.

Lemma fits_room s n : ready s -> fits s n = true <-> n <= room s.
Proof.
  intros [Hl Hr Hb Hs]. unfold fits, room in *.
  destruct (stack s) as [|[p z] st]; simpl in *; rewrite negb_true_iff.
  - rewrite Hl. simpl. rewrite Z.ltb_ge, Hr. done.
  - rewrite u64_small by (unfold is_u64; lia). by rewrite Z.ltb_ge.
Qed.

(** The stages of Kind on a rearmed stream. *)
Lemma Kind_unfold s :
  kind s = None ->
  Kind_ s =
  (let s := set_info s None (size s) None in
   if match head (stack s) with Some (pos, sz) => pos =? sz | None => false end then (s, inl EOL)
   else let '(s, (k, n, e)) := readKind s in
        match e with
        | Some e => (set_info s (Some k) n (Some e), inl e)
        | None =>
            if fits s n then (set_info s (Some k) n None, inr (k, n))
            else let e := match head (stack s) with None => ErrValueTooLarge | Some _ => ErrElemTooLarge end in
                 (set_info s (Some k) n (Some e), inl e)
        end).
Proof.
  intros Hk. unfold Kind_. rewrite Hk. cbv zeta. destruct (match head _ with Some _ => _ | None => _ end); [done|].
  destruct (readKind _) as [s1 [[k n] [e|]]]; [done|]. unfold fits.
  destruct (head (stack s1)) as [[p z]|]; [destruct (u64 (z - p) <? n)|destruct (limited s1 && (remaining s1 <? n))]; simpl; done.
Qed.

Lemma Kind_ok s k n b rest :
  ready s -> kind s = None -> r s = header k n b ++ rest -> header_ok k n b ->
  zlen (header k n b) + n <= room s ->
  exists s1, Kind_ s = (s1, inr (k, n)) /\ peeked s k n b s1.
Proof.
  intros Hs Hk Hr Hh Hroom.
  assert (1 <= zlen (header k n b)) as Hlen.
  { destruct k; [simpl; lia|..]; unfold header, puthead; destruct (_ <? _); simpl; lia. }
  assert (0 <= n) by (destruct k; simpl in Hh; lia).
  assert (ready (set_info s None (size s) None)) as Hs0 by (by eapply clean_ready; [|exact Hs]).
  rewrite Kind_unfold by done. cbv zeta.
  assert (match head (stack (set_info s None (size s) None)) with Some (pos, sz) => pos =? sz | None => false end = false) as ->.
  { simpl. unfold room in Hroom. destruct (stack s) as [|[p z] st]; simpl; [done|lia]. }
  destruct (readKind_ok (set_info s None (size s) None) k n b rest Hs0 Hr Hh) as (s1 & -> & Hc & Hb);
    [change (room (set_info s None (size s) None)) with (room s); lia|].
  change (clean (skip (set_info s None (size s) None) (zlen (header k n b)))) with (clean (skip s (zlen (header k n b)))) in Hc.
  assert (ready s1) as Hs1 by (eapply clean_ready; [symmetry; exact Hc|]; apply ready_skip; [done|lia]).
  rewrite (proj2 (fits_room s1 n Hs1)).
  - eexists. split; [done|]. by constructor.
  - rewrite (clean_room _ _ Hc), room_skip by (done || lia). lia.
Qed.

Lemma Kind_inv s :
  ready s -> kind s = None -> forall s1 x, Kind_ s = (s1, x) ->
  match x with
  | inl EOL => at_end s /\ adv s 0 s1
  | inl _ => True
  | inr (k, n) => exists b rest, r s = header k n b ++ rest /\ header_ok k n b /\
      zlen (header k n b) + n <= room s /\ peeked s k n b s1
  end.
Proof.
  intros Hs Hk s1 x. rewrite Kind_unfold by done. cbv zeta.
  destruct (match head _ with Some _ => _ | None => _ end) eqn:Ee.
  { intros [= <- <-]. simpl in Ee. split.
    - unfold at_end. destruct (stack s) as [|[p z] st]; [done|]. simpl in Ee. lia.
    - split; [done|]. unfold clean, skip, set_info. simpl. by rewrite bump_0, Z.sub_0_r. }
  destruct (readKind _) as [s2 [[k n] e]] eqn:Er.
  apply readKind_inv in Er; [|by eapply clean_ready; [|exact Hs]]. destruct e as [e|].
  { intros [= <- <-]. by destruct e. }
  destruct Er as (b & rest & Hr & Hh & Hroom & Hc & Hb).
  change (clean (skip (set_info s None (size s) None) (zlen (header k n b)))) with (clean (skip s (zlen (header k n b)))) in Hc.
  change (room (set_info s None (size s) None)) with (room s) in Hroom. simpl in Hr.
  assert (ready s2) as Hs2 by (eapply clean_ready; [symmetry; exact Hc|]; apply ready_skip; [done|lia]).
  destruct (fits s2 n) eqn:Ef.
  - intros [= <- <-]. exists b, rest. split_and!; [done..| |by constructor].
    apply fits_room in Ef; [|done]. rewrite (clean_room _ _ Hc), room_skip in Ef by (done || lia). lia.
  - intros [= <- <-]. by destruct (head (stack s2)).
Qed.

(** A state from which Kind announces a value that starts at [s]: [s] itself,
    or the state after Kind. *)
Definition kinded (s : t) (k : Kind.t) (n : Z) (b : byte) (s1 : t) : Prop :=
  exists s2, Kind_ s1 = (s2, inr (k, n)) /\ peeked s k n b s2.

Lemma peeked_kinded s k n b s1 : peeked s k n b s1 -> kinded s k n b s1.
Proof. intros Hp. exists s1. split; [|done]. destruct Hp as [Hk Hn He _ _]. unfold Kind_. by rewrite Hk, He, Hn. Qed.

Lemma peeked_state s k n b s1 :
  ready s -> zlen (header k n b) <= room s -> peeked s k n b s1 ->
  ready s1 /\ room s1 = room s - zlen (header k n b) /\ r s1 = drop (length (header k n b)) (r s).
Proof.
  intros Hs Hroom [_ _ _ _ Hc].
  assert (ready (skip s (zlen (header k n b)))) by (apply ready_skip; [done|lia]).
  split_and!.
  - by eapply clean_ready.
  - rewrite (clean_room _ _ Hc), room_skip; done || lia.
  - rewrite (clean_r _ _ Hc). simpl. by rewrite Nat2Z.id.
Qed.

(** ** Values on a stream *)

(** The stream starts with the header of a value and its content [c]. *)
Record holds (s : t) (k : Kind.t) (b : byte) (c : bytes) : Prop := {
  ho_header : header_ok k (zlen c) b;
  ho_r : exists rest, r s = header k (zlen c) b ++ c ++ rest;
  ho_room : zlen (header k (zlen c) b) + zlen c <= room s }.

Definition whole (k : Kind.t) (b : byte) (c : bytes) : bytes := header k (zlen c) b ++ c.

Lemma header_nonempty k n b : header k n b <> [].
Proof. destruct k; [done|..]; unfold header, puthead; by destruct (_ <? _). Qed.

Lemma holds_ok s k b c :
  ready s -> kind s = None -> holds s k b c -> kinded s k (zlen c) b s.
Proof. intros Hs Hk [Hh (rest & Hr) Hroom]. by eapply Kind_ok. Qed.

Lemma Kind_holds s :
  ready s -> kind s = None -> forall s1 x, Kind_ s = (s1, x) ->
  match x with
  | inl EOL => at_end s /\ adv s 0 s1
  | inl _ => True
  | inr (k, n) => exists b c, zlen c = n /\ holds s k b c /\ peeked s k n b s1
  end.
Proof.
  intros Hs Hk s1 x Hx. pose proof (Kind_inv s Hs Hk s1 x Hx) as Hi. destruct x as [e|[k n]]; [done|].
  destruct Hi as (b & rest & Hr & Hh & Hroom & Hp).
  pose proof (room_le s Hs) as Hle. rewrite Hr, length_app in Hle.
  assert (0 <= n) by (destruct k; simpl in Hh; lia).
  assert (zlen (take (Z.to_nat n) rest) = n) as Hn by (rewrite length_take; lia).
  exists b, (take (Z.to_nat n) rest). split_and!; [done| |done].
  constructor; rewrite Hn; [done| |done]. exists (drop (Z.to_nat n) rest). by rewrite take_drop.
Qed.

Lemma holds_peeked s k b c s2 :
  ready s -> holds s k b c -> peeked s k (zlen c) b s2 ->
  ready s2 /\ zlen c <= room s2 /\ (exists rest, r s2 = c ++ rest) /\
  adv s (zlen (whole k b c)) (skip s2 (zlen c)).
Proof.
  intros Hs [Hh (rest & Hr) Hroom] Hp.
  destruct (peeked_state s k (zlen c) b s2 Hs ltac:(lia) Hp) as (Hs2 & Hroom2 & Hr2).
  rewrite Hr, drop_app_length in Hr2. split_and!; [done|lia|eauto|].
  split; [done|]. unfold whole. rewrite length_app, Nat2Z.inj_add, clean_skip, (pk_clean _ _ _ _ _ Hp), <-clean_skip.
  by rewrite skip_skip by lia.
Qed.

Lemma readFull_content s k b c s2 :
  ready s -> holds s k b c -> peeked s k (zlen c) b s2 ->
  readFull (zlen c) s2 = (skip s2 (zlen c), inr c) /\ adv s (zlen (whole k b c)) (skip s2 (zlen c)).
Proof.
  intros Hs Hh Hp. destruct (holds_peeked s k b c s2 Hs Hh Hp) as (Hs2 & Hroom & (rest & Hr) & Ha).
  split; [|done]. rewrite readFull_ok by (done || lia). by rewrite Hr, Nat2Z.id, take_app_length.
Qed.

Lemma rearm_byte s b c s2 :
  ready s -> holds s Kind.Byte b c -> peeked s Kind.Byte (zlen c) b s2 ->
  c = [] /\ byteval s2 = b /\ adv s (zlen (whole Kind.Byte b c)) (set_kind s2 None).
Proof.
  intros Hs [[Hn Hb] (rest & Hr) Hroom] Hp. assert (c = []) as -> by (by destruct c).
  split_and!; [done|by apply Hp|]. split; [done|]. exact (pk_clean _ _ _ _ _ Hp).
Qed.

(** *** Bytes, Raw, uint *)

Definition Bytes_result (k : Kind.t) (b : byte) (c : bytes) : derr + bytes :=
  match k with
  | Kind.Byte => inr [b]
  | Kind.String => match c with [x] => if Z_of_byte x <? 128 then inl ErrCanonSize else inr c | _ => inr c end
  | Kind.List => inl ErrExpectedString
  end.

(** An operation that consumes the value, or fails. *)
Definition takes {A} (m : op A) (s1 s : t) (n : Z) (x : derr + A) : Prop :=
  exists s', m s1 = (s', x) /\ match x with inr _ => adv s n s' | inl e => e <> EOL end.

Lemma Bytes_kinded s k b c s1 :
  ready s -> holds s k b c -> kinded s k (zlen c) b s1 ->
  takes Bytes s1 s (zlen (whole k b c)) (Bytes_result k b c).
Proof.
  intros Hs Hh (s2 & HK & Hp). unfold takes, Bytes, obnd. rewrite HK. destruct k; simpl.
  - destruct (rearm_byte s b c s2 Hs Hh Hp) as (-> & Hb & Ha). rewrite Hb. eauto.
  - destruct (readFull_content s _ b c s2 Hs Hh Hp) as [-> Ha].
    destruct c as [|x [|y c]]; [by eexists| |by eexists]. destruct (_ <? 128); by eexists.
  - by eexists.
Qed.

Definition Raw_result (k : Kind.t) (b : byte) (c : bytes) : derr + bytes := inr (whole k b c).

Lemma Raw_kinded s k b c s1 :
  ready s -> holds s k b c -> kinded s k (zlen c) b s1 ->
  takes Raw s1 s (zlen (whole k b c)) (Raw_result k b c).
Proof.
  intros Hs Hh (s2 & HK & Hp). unfold takes, Raw, obnd. rewrite HK. destruct k; simpl.
  - destruct (rearm_byte s b c s2 Hs Hh Hp) as (-> & Hb & Ha). rewrite Hb. unfold oret. eauto.
  - destruct (readFull_content s _ b c s2 Hs Hh Hp) as [-> Ha]. by eexists.
  - destruct (readFull_content s _ b c s2 Hs Hh Hp) as [-> Ha]. by eexists.
Qed.

Definition uint_result (bits : Z) (k : Kind.t) (b : byte) (c : bytes) : derr + Z :=
  match k with
  | Kind.Byte => if Z_of_byte b =? 0 then inl ErrCanonInt else inr (Z_of_byte b)
  | Kind.String =>
      if bits / 8 <? zlen c then inl errUintOverflow
      else match c with
           | [] => inr 0
           | [x] => if Z_of_byte x <? 128 then inl ErrCanonSize else inr (Z_of_byte x)
           | x :: _ => if Z_of_byte x =? 0 then inl ErrCanonInt else inr (SetBytes c)
           end
  | Kind.List => inl ErrExpectedString
  end.

Lemma SetBytes_large x y l : x <> Byte.x00 -> 256 <= SetBytes (x :: y :: l).
Proof.
  intros Hx. assert (Z_of_byte x <> 0) by (by rewrite Z_of_byte_0). pose proof (Z_of_byte_range x).
  rewrite SetBytes_cons. pose proof (SetBytes_range (y :: l)).
  assert (256 ^ 1 <= 256 ^ zlen (y :: l)) by (apply Z.pow_le_mono_r; simpl; lia). nia.
Qed.

Lemma uint_kinded bits s k b c s1 :
  ready s -> holds s k b c -> kinded s k (zlen c) b s1 ->
  takes (uint bits) s1 s (zlen (whole k b c)) (uint_result bits k b c).
Proof.
  intros Hs Hh (s2 & HK & Hp). unfold takes, uint, obnd. rewrite HK. destruct k; simpl; [| |by eexists].
  - destruct (rearm_byte s b c s2 Hs Hh Hp) as (-> & Hb & Ha). rewrite Hb.
    destruct (_ =? 0); unfold oerr, oret; by eexists.
  - destruct (holds_peeked s _ b c s2 Hs Hh Hp) as (Hs2 & Hroom & (rest & Hr) & Ha).
    destruct (_ <? zlen c); [by eexists|]. destruct c as [|x c].
    + simpl. eexists. split; [done|]. destruct Ha as [_ Ha]. split; [done|]. etrans; [|exact Ha].
      rewrite clean_skip. unfold clean, skip. simpl. by rewrite bump_0, Z.sub_0_r.
    + destruct (decide (c <> [] /\ x = Byte.x00)) as [[Hc ->]|Hx].
      * destruct c as [|y c]; [done|]. unfold readUint.
        rewrite !(proj2 (Z.eqb_neq (zlen (Byte.x00 :: y :: c)) _)) by (simpl; lia). unfold obnd. rewrite readFull_ok by (done || lia). rewrite Hr, Nat2Z.id, take_app_length. by eexists.
      * rewrite (readUint_ok s2 (x :: c) rest); [|done..| |].
        2:{ simpl in *. lia. }
        2:{ destruct c; [by left|right]. simpl. intros ->. destruct Hx. done. }
        rewrite (proj2 (Z.ltb_lt 0 _)) by (simpl; lia). simpl.
        destruct c as [|y c].
        -- rewrite SetBytes_cons. change (SetBytes []) with 0. simpl. rewrite Z.mul_1_r, Z.add_0_r.
           destruct (_ <? 128); by eexists.
        -- assert (x <> Byte.x00) as Hx0 by (intros ->; by destruct Hx).
           rewrite (proj2 (Z.ltb_ge _ _)) by (pose proof (SetBytes_large x y c Hx0); lia).
           rewrite (proj2 (Z.eqb_neq _ _)) by (by rewrite Z_of_byte_0). by eexists.
Qed.

(** *** Lists *)

(** Inside a list with content [c] that starts at [s]: the end of the content
    is the end of the list. *)
Record entered (s : t) (c : bytes) (n : Z) (s' : t) : Prop := {
  en_ready : ready s';
  en_kind : kind s' = None;
  en_room : room s' = zlen c;
  en_r : exists rest, r s' = c ++ rest;
  en_shorter : zlen (r s') < zlen (r s);
  en_stack : exists p z st, stack s' = (p, z) :: st;
  en_leave : forall m s2, 0 <= m <= zlen c -> adv s' m s2 ->
    if m =? zlen c then exists s3, ListEnd s2 = (s3, inr tt) /\ adv s n s3
    else ListEnd s2 = (s2, inl errNotAtEOL) }.

Lemma stack_ok_push st len n :
  stack_ok 0 st len -> 0 <= n <= len -> n < two63 ->
  match st with (p, z) :: _ => n <= z - p | [] => True end -> stack_ok 0 ((0, n) :: st) len.
Proof.
  intros Hst Hn Hn2 Hle. cbn [stack_ok]. split_and!; [lia..|]. destruct st as [|[p z] st]; [done|].
  cbn [stack_ok] in *. destruct Hst as (? & ? & ? & Hst). split_and!; [lia..|].
  by replace (len - (n - (0 + 0)) - (z - (p + n))) with (len - (z - (p + 0))) by lia.
Qed.

Lemma ListEnd_ok s m st n :
  stack s = (m, n) :: st -> ListEnd s =
  if m =? n then (set_stack (set_info s None 0 (kinderr s)) (match st with (p, z) :: st => (u64 (p + n), z) :: st | [] => [] end), inr tt)
  else (s, inl errNotAtEOL).
Proof. intros Hst. unfold ListEnd. rewrite Hst. by destruct (m =? n). Qed.

Lemma List_kinded s b c s1 :
  ready s -> holds s Kind.List b c -> kinded s Kind.List (zlen c) b s1 ->
  exists s', List_ s1 = (s', inr (zlen c)) /\ entered s c (zlen (whole Kind.List b c)) s'.
Proof.
  intros Hs Hh (s2 & HK & Hp). unfold List_, obnd. rewrite HK. eexists. split; [done|].
  destruct (holds_peeked s _ b c s2 Hs Hh Hp) as (Hs2 & Hroom & (rest & Hr) & Ha).
  pose proof (room_le s2 Hs2) as Hle. set (s' := set_stack _ _).
  assert (clean (skip s' (zlen c)) = set_stack (clean (skip s2 (zlen c))) ((zlen c, zlen c) :: stack s2)) as Hc by done.
  assert (zlen (r s2) < zlen (r s)) as Hshort.
  { destruct (peeked_state s Kind.List (zlen c) b s2 Hs ltac:(pose proof (ho_room _ _ _ _ Hh); lia) Hp) as (_ & _ & ->).
    destruct (ho_r _ _ _ _ Hh) as [rest' Hr']. rewrite length_drop, Hr', length_app.
    pose proof (header_nonempty Kind.List (zlen c) b). destruct (header _ _ _); [done|]. simpl. lia. }
  destruct Hs2 as [Hl Hrem Hb Hst]. constructor; [|done| |by exists rest|done|by eexists _, _, _|].
  - constructor; try done. apply (stack_ok_push (stack s2) (zlen (r s2))); [done|lia|lia|].
    unfold room in Hroom. destruct (stack s2) as [|[p z] st]; [done|lia].
  - unfold room. simpl. lia.
  - intros m s3 Hm Ha3. pose proof (adv_stack _ _ _ Ha3) as Hst3. simpl in Hst3.
    rewrite (ListEnd_ok s3 m (stack s2) (zlen c) Hst3).
    destruct (Z.eqb_spec m (zlen c)) as [->|]; [|done]. eexists. split; [done|].
    destruct Ha as [_ Ha]. split; [done|]. rewrite <-Ha. destruct Ha3 as [_ Ha3]. rewrite Hc in Ha3.
    pose proof (f_equal r Ha3) as E1. pose proof (f_equal remaining Ha3) as E2. pose proof (f_equal limited Ha3) as E3.
    simpl in E1, E2, E3. unfold clean, set_stack, set_info, skip. simpl. rewrite E1, E2, E3. f_equal.
    unfold room in Hroom. destruct (stack s2) as [|[p z] st]; [done|]. simpl in Hst |- *.
    by rewrite u64_small by (unfold is_u64; lia).
Qed.

Lemma List_other s k b (c : bytes) s1 :
  k <> Kind.List -> kinded s k (zlen c) b s1 -> exists s', List_ s1 = (s', inl ErrExpectedList).
Proof. intros Hk (s2 & HK & _). unfold List_, obnd. rewrite HK. destruct k; [by eexists..|done]. Qed.

(** ** Codecs of the base types
    An operation that looks at one value only through its header and content
    is described by a function of these; [codec] relates it to an encoding. *)

Record value_op {A} (m : op A) (res : Kind.t -> byte -> bytes -> derr + A) : Prop := {
  vo_value : forall s k b c s1, ready s -> holds s k b c -> kinded s k (zlen c) b s1 ->
    takes m s1 s (zlen (whole k b c)) (res k b c);
  vo_error : forall s s2 e, Kind_ s = (s2, inl e) -> exists e', m s = (s2, inl e') /\ (e' = EOL <-> e = EOL) }.

Record codec {A} (res : Kind.t -> byte -> bytes -> derr + A) (e : A -> bytes) (P : A -> Prop) : Prop := {
  co_sound : forall k b c v, header_ok k (zlen c) b -> res k b c = inr v -> e v = whole k b c /\ P v;
  co_complete : forall v, P v -> exists k b c, e v = whole k b c /\ header_ok k (zlen c) b /\ res k b c = inr v }.

Definition map_result {A B} (f : derr -> derr) (g : A -> derr + B) (x : derr + A) : derr + B :=
  match x with inl e => inl (f e) | inr a => g a end.

Lemma value_op_wrapped {A} (m : op A) res :
  value_op m res -> value_op (wrapped m) (fun k b c => map_result wrapStreamError inr (res k b c)).
Proof.
  assert (forall e, wrapStreamError e = EOL <-> e = EOL) as Hw by (by intros []).
  intros [Hv He]. constructor.
  - intros s k b c s1 Hs Hh Hk. destruct (Hv s k b c s1 Hs Hh Hk) as (s' & Hm & Hx).
    exists s'. unfold wrapped. rewrite Hm. destruct (res k b c); [|done]. split; [done|]. simpl. by rewrite Hw.
  - intros s s2 e Hk. destruct (He s s2 e Hk) as (e' & Hm & Hx). unfold wrapped. rewrite Hm.
    eexists. split; [done|]. by rewrite Hw.
Qed.

Lemma value_op_bind {A B} (m : op A) res (g : A -> derr + B) (n : A -> op B) :
  (forall a, g a <> inl EOL) ->
  (forall a s, n a s = (s, g a)) ->
  value_op m res -> value_op (obnd m n) (fun k b c => map_result id g (res k b c)).
Proof.
  intros Hg Hn [Hv He]. constructor.
  - intros s k b c s1 Hs Hh Hk. destruct (Hv s k b c s1 Hs Hh Hk) as (s' & Hm & Hx).
    exists s'. unfold obnd. rewrite Hm. destruct (res k b c) as [e|a]; [done|]. rewrite Hn. split; [done|].
    simpl. specialize (Hg a). destruct (g a); [|done]. congruence.
  - intros s s2 e Hk. destruct (He s s2 e Hk) as (e' & Hm & Hx). unfold obnd. rewrite Hm. eauto.
Qed.

Lemma Bytes_op : value_op Bytes Bytes_result.
Proof. constructor; [apply Bytes_kinded|]. intros s s2 e Hk. exists e. unfold Bytes, obnd. by rewrite Hk. Qed.

Lemma Raw_op : value_op Raw Raw_result.
Proof. constructor; [apply Raw_kinded|]. intros s s2 e Hk. exists e. unfold Raw, obnd. by rewrite Hk. Qed.

Lemma uint_op bits : value_op (uint bits) (uint_result bits).
Proof. constructor; [apply uint_kinded|]. intros s s2 e Hk. exists e. unfold uint, obnd. by rewrite Hk. Qed.

(** *** Strings *)

Lemma enc_string_single x : Z_of_byte x < 128 -> enc_string [x] = whole Kind.Byte x [].
Proof. intros Hx. unfold enc_string. by rewrite (proj2 (Z.ltb_lt _ _)). Qed.

Lemma enc_string_long l b :
  match l with [x] => 128 <= Z_of_byte x | _ => True end -> enc_string l = whole Kind.String b l.
Proof.
  unfold enc_string, whole. simpl. destruct l as [|x [|y l]]; try done. intros Hx.
  by rewrite (proj2 (Z.ltb_ge _ _)).
Qed.

Lemma enc_string_cases l :
  (exists x, l = [x] /\ Z_of_byte x < 128) \/ match l with [x] => 128 <= Z_of_byte x | _ => True end.
Proof.
  destruct l as [|x [|y l]]; [by right| |by right]. destruct (Z_lt_dec (Z_of_byte x) 128); [left; eauto|right; lia].
Qed.

Lemma Bytes_codec : codec Bytes_result enc_string (fun l => zlen l < two64).
Proof.
  constructor.
  - intros k b c v Hh. destruct k; simpl in *; [intros [= <-]| |done].
    + destruct Hh as [Hc Hb]. assert (c = []) as -> by (by destruct c). split; [by apply enc_string_single|done].
    + intros Hv. assert (v = c) as ->.
      { destruct c as [|x [|y c]]; [congruence| |congruence]. destruct (_ <? _); congruence. }
      split; [|lia]. apply enc_string_long. destruct c as [|x [|y c]]; try done.
      destruct (Z.ltb_spec (Z_of_byte x) 128); [done|lia].
  - intros l Hl. destruct (enc_string_cases l) as [(x & -> & Hx)|Hx].
    + exists Kind.Byte, x, []. split_and!; [by apply enc_string_single|done..].
    + exists Kind.String, Byte.x00, l. split_and!; [by apply enc_string_long|simpl; lia|].
      simpl. destruct l as [|x [|y l]]; try done. by rewrite (proj2 (Z.ltb_ge _ _)).
Qed.

(** *** Integers *)

Lemma SetBytes_one x : SetBytes [x] = Z_of_byte x.
Proof. rewrite SetBytes_cons. change (SetBytes []) with 0. simpl. lia. Qed.

Lemma uint_Bytes bits k b c v :
  8 <= bits ->
  uint_result bits k b c = inr v <->
  exists l, Bytes_result k b c = inr l /\ no_leading_zero l /\ zlen l <= bits / 8 /\ v = SetBytes l.
Proof.
  intros Hb. assert (1 <= bits / 8) by (apply Z.div_le_lower_bound; lia). destruct k; simpl.
  - destruct (Z.eqb_spec (Z_of_byte b) 0) as [E|E].
    + split; [done|]. intros (l & [= <-] & Hz & _). by apply Z_of_byte_0 in E.
    + split; [intros [= <-]; exists [b]|intros (l & [= <-] & _ & _ & ->); by rewrite SetBytes_one].
      rewrite SetBytes_one. split_and!; try done. simpl. by intros ->.
  - destruct (Z.ltb_spec (bits / 8) (zlen c)).
    { split; [done|]. intros (l & Hl & _ & Hlen & _). destruct c as [|x [|y c]]; simpl in *; [lia| |simplify_eq; simpl in *; lia].
      destruct (_ <? _); [done|]. simplify_eq. simpl in *. lia. }
    destruct c as [|x [|y c]].
    + split; [intros [= <-]; by exists []|]. by intros (l & [= <-] & _ & _ & ->).
    + destruct (Z.ltb_spec (Z_of_byte x) 128); [split; [done|by intros (? & ? & _)]|].
      split; [intros [= <-]; exists [x]|intros (l & [= <-] & _ & _ & ->); by rewrite SetBytes_one].
      rewrite SetBytes_one. split_and!; try done. simpl. intros ->. change (Z_of_byte Byte.x00) with 0 in *. lia.
    + destruct (Z.eqb_spec (Z_of_byte x) 0) as [E|E].
      * split; [done|]. intros (l & [= <-] & Hz & _). by apply Z_of_byte_0 in E.
      * split; [intros [= <-]; exists (x :: y :: c)|by intros (l & [= <-] & _ & _ & ->)].
        split_and!; try done. simpl. by intros ->.
  - split; [done|]. by intros (? & ? & _).
Qed.

Lemma BigBytes_length_le z n : 0 <= n -> 0 <= z < 256 ^ n -> zlen (BigBytes z) <= n.
Proof.
  intros Hn Hz. unfold BigBytes. rewrite length_be_bytes. rewrite pow256 in Hz by lia.
  pose proof (BitLen_le z (8 * n) ltac:(lia) ltac:(lia)). pose proof (BitLen_bound z).
  assert ((BitLen z + 7) / 8 <= n); [|pose proof (Z.div_pos (BitLen z + 7) 8); lia].
  transitivity ((8 * n + 7) / 8); [apply Z.div_le_mono; lia|]. rewrite Z.mul_comm, Z.div_add_l by lia.
  change (7 / 8) with 0. lia.
Qed.

Lemma uint_codec bits :
  In bits [8; 16; 32; 64] ->
  codec (uint_result bits) (fun i => enc_string (BigBytes i)) (fun i => 0 <= i < 2 ^ bits).
Proof.
  intros Hb. assert (8 <= bits <= 64 /\ 2 ^ bits = 256 ^ (bits / 8) /\ 1 <= bits / 8 <= 8) as (Hb8 & Hpow & Hdiv).
  { simpl in Hb. destruct Hb as [<-|[<-|[<-|[<-|[]]]]]; done. }
  constructor.
  - intros k b c v Hh (l & Hl & Hz & Hlen & ->)%uint_Bytes; [|lia].
    apply (co_sound _ _ _ Bytes_codec) in Hl as [Hl _]; [|done]. rewrite BigBytes_SetBytes by done.
    split; [done|]. pose proof (SetBytes_range l). rewrite Hpow. split; [lia|].
    eapply Z.lt_le_trans; [apply SetBytes_range|]. apply Z.pow_le_mono_r; lia.
  - intros i Hi. rewrite Hpow in Hi. pose proof (BigBytes_length_le i (bits / 8) ltac:(lia) Hi).
    destruct (co_complete _ _ _ Bytes_codec (BigBytes i)) as (k & b & c & He & Hh & Hr); [lia|].
    exists k, b, c. split_and!; [done..|]. apply uint_Bytes; [lia|].
    exists (BigBytes i). split_and!; [done|apply BigBytes_no_leading_zero|done|]. rewrite SetBytes_BigBytes. lia.
Qed.

(** *** The decoders of base types *)

(** A raw value is copied without looking inside: the header must be one the
    decoder accepts. *)
Definition raw_item (l : bytes) : Prop := exists k b c, header_ok k (zlen c) b /\ l = whole k b c.

(** The types whose decoders end: a one-byte array is excluded, and an
    unsigned integer has a width of Go. *)
Fixpoint typ_ok (t : typ) : Prop :=
  match t with
  | TPtr t | TSlice t | TArray _ t => typ_ok t
  | TNilPtr k t => k <> Kind.Byte /\ typ_ok t
  | TUint bits => In bits [8; 16; 32; 64]
  | TByteArray n => n <> 1%nat
  | TStruct fields tail =>
      foldr (fun t P => typ_ok t /\ P) True fields /\ match tail with Some t => typ_ok t | None => True end
  | _ => True
  end.

(** The values that read back as themselves: no nil where the type has a zero
    value of the same encoding, raw values that hold one item. *)
Fixpoint regular_iface (v : val) : Prop :=
  match v with
  | VList l => foldr (fun v P => regular_iface v /\ P) True l
  | VNil => False
  | _ => True
  end.

Fixpoint regular_fields (fields : list (val -> Prop)) (tail : option (val -> Prop)) (l : list val) : Prop :=
  match fields, l with
  | [], l => match tail with Some P => foldr (fun v Q => P v /\ Q) True l | None => True end
  | f :: fields, v :: l => f v /\ regular_fields fields tail l
  | _ :: _, [] => True
  end.

Fixpoint regular (t : typ) (v : val) : Prop :=
  match t, v with
  | TRaw, VBytes b => raw_item b
  | TBig, VNil | TPtr _, VNil => False
  | TPtr t, VPtr v => regular t v
  | TNilPtr _ t, VPtr v => regular t v /\ enc t v <> Some (enc_string []) /\ enc t v <> Some (enc_list [])
  | TSlice t, VList l | TArray _ t, VList l => foldr (fun v P => regular t v /\ P) True l
  | TStruct fields tail, VList l =>
      regular_fields (map regular fields) (match tail with Some t => Some (regular t) | None => None end) l
  | TIface, v => regular_iface v
  | _, _ => True
  end.

Record base_codec (t : typ) (m : op val) (res : Kind.t -> byte -> bytes -> derr + val) : Prop := {
  bc_op : value_op m res;
  bc_sound : forall k b c v, header_ok k (zlen c) b -> res k b c = inr v ->
    enc t v = Some (whole k b c) /\ typed t v /\ regular t v;
  bc_complete : forall v bs, enc t v = Some bs -> typed t v -> regular t v -> zlen bs < two64 ->
    exists k b c, bs = whole k b c /\ header_ok k (zlen c) b /\ res k b c = inr v }.

Lemma map_result_inr {A B} f (g : A -> derr + B) x y :
  map_result f g x = inr y -> exists a, x = inr a /\ g a = inr y.
Proof. destruct x; [done|eauto]. Qed.

Lemma enc_string_length l : zlen l <= zlen (enc_string l).
Proof.
  unfold enc_string. destruct l as [|x [|y l]]; [..|rewrite length_app; lia]; [simpl; lia|].
  destruct (_ <? _); [done|]. rewrite length_app. lia.
Qed.

Lemma decodeRawValue_codec :
  base_codec TRaw decodeRawValue (fun k b c => map_result id (fun l => inr (VBytes l)) (Raw_result k b c)).
Proof.
  constructor.
  - apply value_op_bind; [done..|apply Raw_op].
  - intros k b c v Hh [= <-]. split_and!; [done..|]. by exists k, b, c.
  - intros v bs He Ht Hr Hlen. destruct v; try done. simpl in *. simplify_eq.
    destruct Hr as (k & b0 & c & Hh & ->). by exists k, b0, c.
Qed.

Lemma wrapped_Bytes_codec t (g : bytes -> derr + val) (n : bytes -> op val) :
  (forall l, g l <> inl EOL) -> (forall l s, n l s = (s, g l)) ->
  (forall l v, g l = inr v -> enc t v = Some (enc_string l) /\ typed t v /\ regular t v) ->
  (forall v bs, enc t v = Some bs -> typed t v -> regular t v -> exists l, bs = enc_string l /\ g l = inr v) ->
  base_codec t (obnd (wrapped Bytes) n)
    (fun k b c => map_result id g (map_result wrapStreamError inr (Bytes_result k b c))).
Proof.
  intros Hg Hn Hs Hc. constructor.
  - apply (value_op_bind (wrapped Bytes)); [done..|]. apply value_op_wrapped, Bytes_op.
  - intros k b c v Hh (l & (l' & Hl & [= ->])%map_result_inr & Hv)%map_result_inr.
    apply (co_sound _ _ _ Bytes_codec) in Hl as [<- _]; [|done]. by apply Hs.
  - intros v bs He Ht Hr Hlen. destruct (Hc v bs He Ht Hr) as (l & -> & Hv).
    pose proof (enc_string_length l). destruct (co_complete _ _ _ Bytes_codec l) as (k & b & c & ? & ? & Hb); [lia|].
    exists k, b, c. split_and!; [done..|]. by rewrite Hb.
Qed.

Lemma decodeString_codec t : t = TString \/ t = TBytes -> exists res, base_codec t decodeString res.
Proof.
  intros Ht. eexists. apply (wrapped_Bytes_codec t (fun l => inr (VBytes l)) _); [done..| |].
  - intros l v [= <-]. by destruct Ht as [-> | ->].
  - intros v bs He Hty _. destruct Ht as [-> | ->], v; try done; simpl in He; simplify_eq; eauto.
Qed.

Lemma decodeBigInt_codec : exists res, base_codec TBig decodeBigInt res.
Proof.
  eexists. apply (wrapped_Bytes_codec TBig
    (fun l => match l with Byte.x00 :: _ => inl (wrapStreamError ErrCanonInt) | _ => inr (VBig (SetBytes l)) end) _).
  - intros [|[] l]; done.
  - intros [|[] l] s; done.
  - intros l v Hv. assert (no_leading_zero l /\ v = VBig (SetBytes l)) as [Hz ->].
    { destruct l as [|b l]; [by simplify_eq|]. destruct (decide (b = Byte.x00)) as [->|Hb]; [done|].
      split; [done|]. destruct b; simplify_eq; done. }
    simpl. pose proof (SetBytes_range l). by rewrite (proj2 (Z.ltb_ge _ _)), BigBytes_SetBytes by (done || lia).
  - intros v bs He Ht Hr. destruct v as [| | |i| | |]; try done. simpl in He.
    destruct (Z.ltb_spec i 0); [done|]. simplify_eq. exists (BigBytes i). split; [done|].
    pose proof (BigBytes_no_leading_zero i) as Hz. pose proof (SetBytes_BigBytes i) as Hs. rewrite Z.abs_eq in Hs by done.
    destruct (BigBytes i) as [|b l]; [by rewrite Hs|]. simpl in Hz. rewrite Hs. by destruct b.
Qed.

Lemma decodeUint_codec bits : In bits [8; 16; 32; 64] -> exists res, base_codec (TUint bits) (decodeUint bits) res.
Proof.
  intros Hb. pose proof (uint_codec bits Hb) as Hc.
  eexists (fun k b c => map_result id (fun n => inr (VUint n)) (map_result wrapStreamError inr (uint_result bits k b c))).
  constructor.
  - apply (value_op_bind (wrapped (uint bits))); [done..|]. apply value_op_wrapped, uint_op.
  - intros k b c v Hh (l & (l' & Hl & [= ->])%map_result_inr & [= <-])%map_result_inr.
    apply (co_sound _ _ _ Hc) in Hl as [He Hr]; [|done]. simpl. by rewrite He.
  - intros v bs He Ht Hr Hlen. destruct v as [| |i| | | |]; try done. simpl in He, Ht. simplify_eq.
    destruct (co_complete _ _ _ Hc i) as (k & b & c & ? & ? & Hres); [lia|].
    exists k, b, c. split_and!; [done..|]. by rewrite Hres.
Qed.

Lemma decodeBool_codec : exists res, base_codec TBool decodeBool res.
Proof.
  set (tobool := fun num => if num =? 0 then inr false else if num =? 1 then inr true else inl (InvalidBoolean num)).
  assert (In 8 [8; 16; 32; 64]) as Hin by (by left). pose proof (uint_codec 8 Hin) as Hc.
  assert (forall b : bool, BigBytes (if b then 1 else 0) = if b then [Byte.x01] else []) as HB by (by intros []).
  assert (forall n (b : bool), tobool n = inr b -> n = if b then 1 else 0) as Htb.
  { intros n b. unfold tobool. destruct (Z.eqb_spec n 0); [by intros [= <-]|].
    destruct (Z.eqb_spec n 1); [by intros [= <-]|done]. }
  eexists (fun k b c => map_result id (fun v => inr (VBool v)) (map_result wrapStreamError inr
    (map_result id tobool (uint_result 8 k b c)))).
  constructor.
  - apply (value_op_bind (wrapped Bool_)); [done..|]. apply value_op_wrapped.
    apply (value_op_bind (uint 8)); [..|apply uint_op]; unfold tobool; intros n; [|intros s];
      (destruct (n =? 0); [done|]); by destruct (n =? 1).
  - intros k b c v Hh (x & (x' & (n & Hn & Hx)%map_result_inr & [= ->])%map_result_inr & [= <-])%map_result_inr.
    apply Htb in Hx as ->. apply (co_sound _ _ _ Hc) in Hn as [He Hr]; [|done]. simpl.
    by rewrite <-HB, He.
  - intros v bs He Ht Hr Hlen. destruct v as [| | | |x| |]; try done. simpl in He. simplify_eq.
    destruct (co_complete _ _ _ Hc (if x then 1 else 0)) as (k & b & c & He & ? & Hres); [by destruct x|].
    rewrite HB in He. exists k, b, c. split_and!; [done..|]. rewrite Hres. by destruct x.
Qed.

Definition ByteArray_result (n : nat) (k : Kind.t) (b : byte) (c : bytes) : derr + val :=
  match k with
  | Kind.Byte => inl (decodeError (if (n =? 0)%nat then InputStringTooLong else InputStringTooShort))
  | Kind.String =>
      if Z.of_nat n <? zlen c then inl (decodeError InputStringTooLong)
      else if zlen c <? Z.of_nat n then inl (decodeError InputStringTooShort)
      else inr (VBytes c)
  | Kind.List => inl (wrapStreamError ErrExpectedString)
  end.

Lemma decodeByteArray_codec n : n <> 1%nat -> base_codec (TByteArray n) (decodeByteArray n) (ByteArray_result n).
Proof.
  intros Hn. constructor.
  - constructor.
    + intros s k b c s1 Hs Hh (s2 & HK & Hp). unfold takes, decodeByteArray, obnd. rewrite HK. destruct k; simpl; [| |by eexists].
      * destruct (Nat.eqb_spec n 0); [by eexists|]. rewrite (proj2 (Nat.ltb_lt _ _)) by lia. by eexists.
      * destruct (Z.ltb_spec (Z.of_nat n) (zlen c)); [by eexists|].
        destruct (Z.ltb_spec (zlen c) (Z.of_nat n)); [by eexists|].
        replace (Z.of_nat n) with (zlen c) by lia.
        destruct (readFull_content s _ b c s2 Hs Hh Hp) as [-> Ha].
        destruct c as [|x [|y c]]; [by eexists|simpl in *; lia|by eexists].
    + intros s s2 e Hk. exists e. unfold decodeByteArray, obnd. by rewrite Hk.
  - intros k b c v Hh. destruct k; simpl; [done| |done].
    destruct (Z.ltb_spec (Z.of_nat n) (zlen c)); [done|].
    destruct (Z.ltb_spec (zlen c) (Z.of_nat n)); [done|]. intros [= <-]. simpl.
    rewrite (enc_string_long c b); [split_and!; [done|lia|done]|]. destruct c as [|x [|y c]]; try done. simpl in *. lia.
  - intros v bs He Ht Hr Hlen. destruct v as [| | | | |l|]; try done. simpl in He, Ht. simplify_eq.
    exists Kind.String, Byte.x00, l. rewrite (enc_string_long l Byte.x00) in Hlen |- *;
      [|destruct l as [|x [|y l]]; done..].
    unfold whole in Hlen. rewrite length_app in Hlen. split_and!; [done|simpl; lia|].
    simpl. by rewrite Z.ltb_irrefl.
Qed.
