(* ===== verification/RlpCodec.v ===== *)
(** * rlp: decoding of all types
    The decoders of pointers, slices, arrays, structs and interfaces, and the
    theorems about DecodeBytes. *)

From S2P Require Import Prelude MathUtil Rlp RlpEncode RlpStream RlpDecode.
Import Stream.
#[local] Open Scope op_scope.

(** ** What a decoder does with its input *)

(** The bytes [bs] were read. *)
Record ate (s : t) (bs : bytes) (s' : t) : Prop := {
  ate_prefix : exists rest, r s = bs ++ rest;
  ate_room : zlen bs <= room s;
  ate_adv : adv s (zlen bs) s' }.

Lemma adv_0 s : kind s = None -> adv s 0 s.
Proof. intros Hk. split; [done|]. unfold clean, skip. simpl. by rewrite bump_0, Z.sub_0_r. Qed.

Lemma adv_0_r s s' : adv s 0 s' -> r s' = r s /\ room s' = room s /\ stack s' = stack s.
Proof.
  intros Ha. pose proof (adv_r _ _ _ Ha) as Hr. pose proof (adv_stack _ _ _ Ha) as Hst. simpl in Hr.
  rewrite bump_0 in Hst. unfold room. by rewrite Hr, Hst.
Qed.

Lemma ate_nil s s' : 0 <= room s -> adv s 0 s' -> ate s [] s'.
Proof. intros. constructor; [by eexists|done..]. Qed.

Lemma ready_room s : ready s -> 0 <= room s.
Proof. intros []. unfold room. destruct (stack s) as [|[p z] st]; simpl in *; lia. Qed.

Lemma ate_ready s bs s' : ready s -> ate s bs s' -> ready s' /\ kind s' = None /\ room s' = room s - zlen bs.
Proof.
  intros Hs [_ Hr Ha]. split_and!; [eapply ready_adv; [done| |done]; lia|by destruct Ha|].
  apply room_adv; [done|lia|done].
Qed.

Lemma ate_r s bs s' rest : ate s bs s' -> r s = bs ++ rest -> r s' = rest.
Proof. intros [_ _ Ha] Hr. by rewrite (adv_r _ _ _ Ha), Nat2Z.id, Hr, drop_app_length. Qed.

Lemma ate_app s b s1 bs s2 : ready s -> ate s b s1 -> ate s1 bs s2 -> ate s (b ++ bs) s2.
Proof.
  intros Hs H1 H2. pose proof (ate_ready _ _ _ Hs H1) as (Hs1 & _ & Hroom).
  destruct (ate_prefix _ _ _ H1) as [rest Hr]. pose proof (ate_r _ _ _ _ H1 Hr) as Hr1.
  destruct (ate_prefix _ _ _ H2) as [rest2 Hr2]. pose proof (ate_room _ _ _ H2).
  constructor.
  - exists rest2. rewrite Hr, <-app_assoc. f_equal. congruence.
  - rewrite length_app. lia.
  - rewrite length_app, Nat2Z.inj_add. eapply adv_trans; [lia|lia|apply H1|apply H2].
Qed.

Lemma ate_shorter s bs s' : ready s -> ate s bs s' -> zlen (r s') = zlen (r s) - zlen bs.
Proof.
  intros Hs Ha. destruct (ate_prefix _ _ _ Ha) as [rest Hr]. rewrite (ate_r _ _ _ _ Ha Hr), Hr, length_app. lia.
Qed.

(** The decoder stands before the value at [s], possibly after Kind. *)
Definition start (s s1 : t) : Prop :=
  s1 = s /\ kind s = None \/ exists k b c, holds s k b c /\ peeked s k (zlen c) b s1.

Lemma start_refl s : kind s = None -> start s s.
Proof. by left. Qed.

Lemma start_Kind s s1 :
  ready s -> start s s1 -> forall s2 x, Kind_ s1 = (s2, x) ->
  match x with
  | inl EOL => at_end s /\ adv s 0 s2
  | inl _ => True
  | inr (k, n) => exists b c, zlen c = n /\ holds s k b c /\ peeked s k n b s2
  end.
Proof.
  intros Hs [[-> Hk]|(k & b & c & Hh & Hp)] s2 x HK; [by eapply Kind_holds|].
  destruct (peeked_kinded _ _ _ _ _ Hp) as (s3 & HK3 & Hp3). rewrite HK in HK3. simplify_eq. eauto.
Qed.

Lemma Kind_eol s : ready s -> kind s = None -> at_end s -> exists s1, Kind_ s = (s1, inl EOL) /\ adv s 0 s1.
Proof.
  intros Hs Hk He. destruct (Kind_ s) as [s1 x] eqn:EK. rewrite Kind_unfold in EK by done. cbv zeta in EK.
  assert (match head (stack (set_info s None (size s) None)) with Some (pos, sz) => pos =? sz | None => false end = true) as Ht.
  { simpl. unfold at_end in He. destruct (stack s) as [|[p z] st]; [done|]. simpl. lia. }
  rewrite Ht in EK. simplify_eq. eexists. split; [done|]. split; [done|].
  unfold clean, skip, set_info. simpl. by rewrite bump_0, Z.sub_0_r.
Qed.

Lemma whole_prefix s k b c : holds s k b c -> exists rest, r s = whole k b c ++ rest.
Proof. intros [_ [rest Hr] _]. exists rest. unfold whole. by rewrite <-app_assoc. Qed.

Lemma holds_ate s k b c s' : holds s k b c -> adv s (zlen (whole k b c)) s' -> ate s (whole k b c) s'.
Proof.
  intros Hh Ha. constructor; [by apply whole_prefix| |done]. destruct Hh as [_ _ Hr].
  unfold whole. rewrite length_app. lia.
Qed.

Lemma whole_length k b c : 1 <= zlen (whole k b c).
Proof.
  unfold whole. rewrite length_app. pose proof (header_nonempty k (zlen c) b).
  destruct (header k (zlen c) b); [done|]. simpl. lia.
Qed.

(** The value [v] is read from the bytes [whole k b c]. *)
Definition reads (d : decoder val) (k : Kind.t) (b : byte) (c : bytes) (v : val) : Prop :=
  forall s s1, ready s -> holds s k b c -> kinded s k (zlen c) b s1 ->
  exists s', d s1 = Done (s', inr v) /\ ate s (whole k b c) s'.

(** The promise of a decoder for the type [t], for inputs of less than [F]
    bytes: it sees the end of the list, it accepts only encodings, and it
    accepts all of them. *)
Record dec_ok (F : Z) (t : typ) (d : decoder val) : Prop := {
  d_eol : forall s, 0 < F -> ready s -> kind s = None -> at_end s -> exists s', d s = Done (s', inl EOL) /\ adv s 0 s';
  d_sound : forall s s1, ready s -> start s s1 -> zlen (r s) < F ->
    match d s1 with
    | Done (s', inr v) =>
        exists bs, enc t v = Some bs /\ typed t v /\ regular t v /\ 1 <= zlen bs /\ ate s bs s'
    | Done (s', inl e) => e = EOL -> at_end s /\ adv s 0 s'
    | _ => False
    end;
  d_complete : forall v bs, enc t v = Some bs -> typed t v -> regular t v -> zlen bs < two63 -> zlen bs < F ->
    exists k b c, bs = whole k b c /\ header_ok k (zlen c) b /\ reads d k b c v }.

Lemma base_dec_ok F t m res : base_codec t m res -> dec_ok F t (lift m).
Proof.
  intros [[Hv He] Hs Hc]. constructor.
  - intros s _ Hrd Hk Hend. destruct (Kind_eol s Hrd Hk Hend) as (s1 & HK & Ha).
    destruct (He _ _ _ HK) as (e' & Hm & Heq). exists s1. unfold lift. rewrite Hm.
    by rewrite (proj2 Heq eq_refl).
  - intros s s1 Hrd Hst _. destruct (Kind_ s1) as [s2 x] eqn:HK.
    pose proof (start_Kind s s1 Hrd Hst s2 x HK) as Hx. unfold lift. destruct x as [e|[k n]].
    + destruct (He _ _ _ HK) as (e' & -> & Heq). intros E. apply Heq in E. by subst e.
    + destruct Hx as (b & c & <- & Hh & Hp).
      destruct (Hv s k b c s1 Hrd Hh) as (s' & -> & Hres); [by exists s2|].
      destruct (res k b c) as [e|v] eqn:Er; [done|].
      destruct (Hs k b c v (ho_header _ _ _ _ Hh) Er) as (? & ? & ?).
      exists (whole k b c). split_and!; try done; [apply whole_length|by apply holds_ate].
  - intros v bs Hen Hty Hre Hl _. destruct (Hc v bs Hen Hty Hre ltac:(lia)) as (k & b & c & -> & Hh & Hres).
    exists k, b, c. split_and!; [done..|]. intros s s1 Hrd Hho Hk. unfold lift.
    destruct (Hv s k b c s1 Hrd Hho Hk) as (s' & -> & Ha). rewrite Hres in Ha |- *.
    exists s'. split; [done|]. by apply holds_ate.
Qed.

(** ** Elements of a list *)

Lemma at_end_room s : at_end s -> room s = 0.
Proof. unfold at_end, room. destruct (stack s) as [|[p z] st]; [done|lia]. Qed.

Lemma room_at_end s p z st : stack s = (p, z) :: st -> room s = 0 -> at_end s.
Proof. unfold at_end, room. intros ->. lia. Qed.

Definition in_list (s : t) : Prop := exists p z st, stack s = (p, z) :: st.

Lemma in_list_ate s bs s' : ate s bs s' -> in_list s -> in_list s'.
Proof. intros [_ _ Ha] (p & z & st & Hst). unfold in_list. rewrite (adv_stack _ _ _ Ha), Hst. by eexists _, _, _. Qed.

Lemma holds_prefix s k b c rest :
  r s = whole k b c ++ rest -> header_ok k (zlen c) b -> zlen (whole k b c) <= room s -> holds s k b c.
Proof.
  unfold whole. intros Hr Hh Hroom. rewrite <-app_assoc in Hr. rewrite length_app in Hroom.
  constructor; [done|eauto|lia].
Qed.

(** A fresh decoder reads an encoding at the front of the input. *)
Lemma dec_reads F ty d v bs s rest :
  dec_ok F ty d -> enc ty v = Some bs -> typed ty v -> regular ty v -> zlen bs < F ->
  ready s -> kind s = None -> r s = bs ++ rest -> zlen bs <= room s ->
  1 <= zlen bs /\ exists s', d s = Done (s', inr v) /\ ate s bs s'.
Proof.
  intros Hd He Ht Hre HF Hs Hk Hr Hroom. pose proof (room_le s Hs). pose proof (rd_length s Hs).
  destruct (d_complete _ _ _ Hd v bs He Ht Hre ltac:(lia) HF) as (k & b & c & -> & Hh & Hrd).
  split; [apply whole_length|]. assert (holds s k b c) by (by eapply holds_prefix).
  apply Hrd; [done..|]. by apply holds_ok.
Qed.

Lemma elems_complete F ty d l :
  dec_ok F ty d -> forall fuel s bs rest,
  ready s -> kind s = None -> in_list s ->
  enc_elems (enc ty) l = Some bs -> Forall (typed ty) l -> Forall (regular ty) l ->
  r s = bs ++ rest -> room s = zlen bs -> zlen bs < F -> zlen bs < Z.of_nat fuel ->
  exists s', decodeSliceElems d fuel s = Done (s', inr l) /\ ate s bs s'.
Proof.
  intros Hd. induction l as [|v l IH]; intros fuel s bs rest Hs Hk Hin He Ht Hre Hr Hroom HF Hfuel;
    (destruct fuel as [|fuel]; [lia|]); simpl in He.
  - simplify_eq. destruct Hin as (p & z & st & Hst).
    destruct (d_eol _ _ _ Hd s HF Hs Hk) as (s' & Hd' & Ha); [by eapply room_at_end|].
    exists s'. simpl. rewrite Hd'. split; [done|]. apply ate_nil; [lia|done].
  - destruct (enc ty v) as [b|] eqn:Ev; [|done]. simpl in He.
    destruct (enc_elems (enc ty) l) as [bs'|] eqn:El; [|done]. simpl in He. simplify_eq.
    apply Forall_cons in Ht as [Htv Ht]. apply Forall_cons in Hre as [Hrv Hre]. rewrite length_app in Hroom, HF, Hfuel.
    rewrite <-app_assoc in Hr.
    destruct (dec_reads F ty d v b s (bs' ++ rest) Hd Ev Htv Hrv ltac:(lia) Hs Hk Hr ltac:(lia)) as (Hb1 & s1 & Hd1 & Ha1).
    pose proof (ate_ready _ _ _ Hs Ha1) as (Hs1 & Hk1 & Hroom1).
    destruct (IH fuel s1 bs' rest) as (s' & Hd2 & Ha2); try done; [by eapply in_list_ate|by eapply ate_r|lia..|].
    exists s'. simpl. rewrite Hd1. unfold dbnd. rewrite Hd2. split; [done|]. by eapply ate_app.
Qed.

(** What the loop over elements leaves: the list is exhausted. *)
Lemma elems_sound F ty d :
  dec_ok F ty d -> forall fuel s,
  ready s -> kind s = None -> in_list s -> zlen (r s) < F -> room s < Z.of_nat fuel ->
  match decodeSliceElems d fuel s with
  | Done (s', inr l) => exists bs, enc_elems (enc ty) l = Some bs /\ Forall (typed ty) l /\ Forall (regular ty) l /\
      zlen bs = room s /\ ate s bs s'
  | Done (s', inl e) => e <> EOL
  | _ => False
  end.
Proof.
  intros Hd. induction fuel as [|fuel IH]; intros s Hs Hk Hin HF Hfuel; [pose proof (ready_room s Hs); lia|].
  simpl. pose proof (d_sound _ _ _ Hd s s Hs (start_refl s Hk) HF) as Hds.
  destruct (d s) as [[s1 [e|v]]| |]; [|..|done|done].
  - destruct (decide (e = EOL)) as [->|He].
    + destruct (Hds eq_refl) as [Hend Ha]. exists []. rewrite at_end_room by done.
      split_and!; [done..|]. apply ate_nil; [by apply ready_room|done].
    + destruct e; done.
  - destruct Hds as (b & Hev & Htv & Hrv & Hb1 & Ha1).
    pose proof (ate_ready _ _ _ Hs Ha1) as (Hs1 & Hk1 & Hroom1). pose proof (ate_shorter _ _ _ Hs Ha1).
    specialize (IH s1 Hs1 Hk1 (in_list_ate _ _ _ Ha1 Hin) ltac:(lia) ltac:(lia)).
    unfold dbnd. destruct (decodeSliceElems d fuel s1) as [[s2 [e|l]]| |]; [done| |done|done].
    destruct IH as (bs & Hel & Htl & Hrl & Hlen & Ha2). simpl. exists (b ++ bs).
    rewrite Hev, Hel. simpl. rewrite length_app.
    split_and!; [done|by constructor|by constructor|lia|by eapply ate_app].
Qed.

(** ** Lists *)

(** [m'] is [m] with its errors rewritten, other than the end of the list. *)
Definition rewrapped {A} (m m' : op A) : Prop :=
  exists f, (forall e, f e = EOL <-> e = EOL) /\
  forall s, m' s = match m s with (s', inl e) => (s', inl (f e)) | x => x end.

Lemma rewrapped_id {A} (m : op A) : rewrapped m m.
Proof. exists id. split; [done|]. intros s. by destruct (m s) as [? []]. Qed.

Lemma rewrapped_wrapped {A} (m : op A) : rewrapped m (wrapped m).
Proof. exists wrapStreamError. split; [by intros []|]. done. Qed.

Lemma enc_list_whole b c : enc_list c = whole Kind.List b c.
Proof. done. Qed.

Lemma List_eol m s :
  rewrapped List_ m -> ready s -> kind s = None -> at_end s -> exists s1, m s = (s1, inl EOL) /\ adv s 0 s1.
Proof.
  intros (f & Hf & Hm) Hs Hk Hend. destruct (Kind_eol s Hs Hk Hend) as (s1 & HK & Ha).
  exists s1. split; [|done]. rewrite Hm. unfold List_, obnd. rewrite HK. do 2 f_equal. by apply Hf.
Qed.

Lemma List_sound m s s1 :
  rewrapped List_ m -> ready s -> start s s1 ->
  match m s1 with
  | (s', inr n) => exists b c, n = zlen c /\ holds s Kind.List b c /\ entered s c (zlen (enc_list c)) s'
  | (s', inl e) => e = EOL -> at_end s /\ adv s 0 s'
  end.
Proof.
  intros (f & Hf & Hm) Hs Hst. rewrite Hm. destruct (Kind_ s1) as [s2 x] eqn:HK.
  pose proof (start_Kind s s1 Hs Hst s2 x HK) as Hx. destruct x as [e|[k n]].
  - unfold List_, obnd. rewrite HK. intros ->%(proj1 (Hf _)). done.
  - destruct Hx as (b & c & <- & Hh & Hp). destruct (decide (k = Kind.List)) as [->|Hk].
    + destruct (List_kinded s b c s1 Hs Hh) as (s' & -> & He); [by exists s2|]. exists b, c. by split_and!.
    + destruct (List_other s k b c s1 Hk) as (s' & ->); [by exists s2|]. intros E%(proj1 (Hf _)). done.
Qed.

Lemma ListEnd_sound m s c n s' bs s2 :
  rewrapped ListEnd m -> entered s c n s' -> ate s' bs s2 ->
  match m s2 with
  | (s3, inr _) => bs = c /\ adv s n s3
  | (s3, inl e) => e <> EOL
  end.
Proof.
  intros (f & Hf & Hm) He Ha. pose proof (ate_room _ _ _ Ha) as Hroom. rewrite (en_room _ _ _ _ He) in Hroom.
  pose proof (en_leave _ _ _ _ He (zlen bs) s2 ltac:(lia) (ate_adv _ _ _ Ha)) as Hl. rewrite Hm.
  destruct (Z.eqb_spec (zlen bs) (zlen c)) as [Hlen|].
  - destruct Hl as (s3 & -> & Had). split; [|done].
    destruct (en_r _ _ _ _ He) as [rest Hr]. destruct (ate_prefix _ _ _ Ha) as [rest' Hr']. rewrite Hr in Hr'.
    apply app_inj_1 in Hr' as [-> _]; [done|lia].
  - rewrite Hl. intros E%(proj1 (Hf _)). done.
Qed.

Lemma ListEnd_complete m s c n s' s2 :
  rewrapped ListEnd m -> entered s c n s' -> ate s' c s2 -> exists s3, m s2 = (s3, inr tt) /\ adv s n s3.
Proof.
  intros (f & Hf & Hm) He Ha.
  pose proof (en_leave _ _ _ _ He (zlen c) s2 ltac:(lia) (ate_adv _ _ _ Ha)) as Hl. rewrite Z.eqb_refl in Hl.
  destruct Hl as (s3 & Hs3 & Had). exists s3. by rewrite Hm, Hs3.
Qed.


(** The content of a list read by [di]. *)
Section ListContent.
Context (E : list val -> option bytes) (T : list val -> Prop) (di : decoder (list val)).
Context (m1 : op Z) (m2 : op unit) (Hm1 : rewrapped List_ m1) (Hm2 : rewrapped ListEnd m2).

Definition listContent : decoder val :=
  let^ _ := lift m1 in let^ l := di in let^ _ := lift m2 in lift (oret (VList l)).

Lemma listContent_sound s s1 :
  ready s -> start s s1 ->
  (forall b c s', m1 s1 = (s', inr (zlen c)) -> holds s Kind.List b c -> entered s c (zlen (enc_list c)) s' ->
    match di s' with
    | Done (s2, inr l) => exists bs, E l = Some bs /\ T l /\ ate s' bs s2
    | Done (_, inl e) => e <> EOL
    | _ => False
    end) ->
  match listContent s1 with
  | Done (s', inr v) => exists l bs, v = VList l /\ E l = Some bs /\ T l /\ ate s (enc_list bs) s'
  | Done (s', inl e) => e = EOL -> at_end s /\ adv s 0 s'
  | _ => False
  end.
Proof.
  intros Hs Hst Hdi. unfold listContent, dbnd, lift. pose proof (List_sound m1 s s1 Hm1 Hs Hst) as Hl.
  destruct (m1 s1) as [s' [e|n]]; [done|]. destruct Hl as (b & c & -> & Hh & He). specialize (Hdi b c s' eq_refl Hh He).
  destruct (di s') as [[s2 [e|l]]| |]; [done| |done|done]. destruct Hdi as (bs & HE & HT & Ha).
  pose proof (ListEnd_sound m2 s c _ s' bs s2 Hm2 He Ha) as Hend.
  destruct (m2 s2) as [s3 [e|u]]; [done|]. destruct Hend as [-> Had]. exists l, c. split_and!; [done..|].
  rewrite (enc_list_whole b). by apply holds_ate.
Qed.

Lemma listContent_complete l b c :
  (forall s s', ready s -> holds s Kind.List b c -> entered s c (zlen (enc_list c)) s' ->
    exists s2, di s' = Done (s2, inr l) /\ ate s' c s2) ->
  reads listContent Kind.List b c (VList l).
Proof.
  intros Hdi s s1 Hs Hh Hk. unfold listContent, dbnd, lift.
  destruct (List_kinded s b c s1 Hs Hh Hk) as (s' & Hl & He). destruct Hm1 as (f & _ & Hm). rewrite Hm, Hl.
  destruct (Hdi s s' Hs Hh He) as (s2 & -> & Ha). destruct (ListEnd_complete m2 s c _ s' s2 Hm2 He Ha) as (s3 & -> & Had).
  exists s3. split; [done|]. by apply holds_ate.
Qed.

Lemma listContent_eol s :
  ready s -> kind s = None -> at_end s -> exists s', listContent s = Done (s', inl EOL) /\ adv s 0 s'.
Proof.
  intros Hs Hk Hend. destruct (List_eol m1 s Hm1 Hs Hk Hend) as (s1 & H1 & Ha).
  exists s1. unfold listContent, dbnd, lift. by rewrite H1.
Qed.
End ListContent.

Lemma decodeListSlice_eq d fuel s :
  decodeListSlice d fuel s =
  (let di := match wrapped List_ s with (_, inr 0) => lift (oret []) | _ => decodeSliceElems d fuel end in
   listContent di (wrapped List_) ListEnd s).
Proof.
  unfold decodeListSlice, listContent, dbnd, lift, oret. destruct (wrapped List_ s) as [s' [e|n]]; [done|].
  destruct (Z.eqb_spec n 0) as [->|Hn]; [done|]. by destruct n.
Qed.

Lemma Forall_foldr_all {A} (P Q : A -> Prop) l :
  Forall P l -> Forall Q l -> foldr (fun v R => P v /\ R) True l /\ foldr (fun v R => Q v /\ R) True l.
Proof. intros. by rewrite !foldr_Forall. Qed.

Lemma enc_list_length c : zlen c < zlen (enc_list c).
Proof.
  unfold enc_list. rewrite length_app. pose proof (header_nonempty Kind.List (zlen c) Byte.x00) as Hne. simpl in Hne.
  destruct (puthead _ _ _); [done|]. simpl. lia.
Qed.

Lemma dec_ok_mono F F' ty d : F' <= F -> dec_ok F ty d -> dec_ok F' ty d.
Proof.
  intros HF [He Hs Hc]. constructor; [intros s H0; apply He; lia|..].
  - intros s s1 Hrd Hst Hl. apply Hs; [done..|lia].
  - intros v bs Hen Ht Hr H1 H2. apply Hc; [done..|lia].
Qed.

Lemma enc_header b c : zlen (enc_list c) < two63 -> header_ok Kind.List (zlen c) b.
Proof. intros Hl. pose proof (enc_list_length c). simpl. lia. Qed.

Lemma slice_reads F ty d fuel l b c :
  dec_ok F ty d -> F <= Z.of_nat fuel -> enc_elems (enc ty) l = Some c ->
  Forall (typed ty) l -> Forall (regular ty) l -> zlen c < F ->
  reads (decodeListSlice d fuel) Kind.List b c (VList l).
Proof.
  intros Hd HF Ec Ht Hr Hlen s s1 Hs Hh Hk. rewrite decodeListSlice_eq. cbv zeta.
  destruct (List_kinded s b c s1 Hs Hh Hk) as (s0 & Hl0 & _). unfold wrapped at 1. rewrite Hl0.
  apply (listContent_complete _ _ _ (rewrapped_wrapped _) (rewrapped_id _) l b c); [|done..].
  intros s2 s' Hs2 Hh2 He2. pose proof (en_ready _ _ _ _ He2) as Hrd. destruct (en_r _ _ _ _ He2) as [rest Hr2].
  destruct (elems_complete F ty d l Hd fuel s' c rest Hrd (en_kind _ _ _ _ He2) (en_stack _ _ _ _ He2) Ec Ht Hr Hr2
    (en_room _ _ _ _ He2) ltac:(lia) ltac:(lia)) as (s3 & Hd3 & Ha3).
  destruct (zlen c) eqn:Ez; [|eauto..].
  assert (c = []) as -> by (by destruct c). destruct l as [|v l]; [|exfalso].
  - exists s'. split; [done|]. apply ate_nil; [by apply ready_room|]. apply adv_0, (en_kind _ _ _ _ He2).
  - apply Forall_cons in Ht as [Htv _]. apply Forall_cons in Hr as [Hrv _]. simpl in Ec.
    destruct (enc ty v) as [bv|] eqn:Ev; [|done]. simpl in Ec. destruct (enc_elems _ _); [|done]. simpl in Ec. simplify_eq.
    apply app_nil in Ec as [-> _].
    destruct (d_complete _ _ _ Hd v [] Ev Htv Hrv) as (k & b0 & c & Hw & _); [done| |].
    + simpl in *. lia.
    + pose proof (whole_length k b0 c). rewrite <-Hw in *. simpl in *. lia.
Qed.

Lemma slice_dec_ok F ty d fuel :
  dec_ok F ty d -> F <= Z.of_nat fuel -> dec_ok (F + 1) (TSlice ty) (decodeListSlice d fuel).
Proof.
  intros Hd HF.
  assert (rewrapped List_ (wrapped List_)) as Hm1 by apply rewrapped_wrapped.
  assert (rewrapped ListEnd ListEnd) as Hm2 by apply rewrapped_id.
  constructor.
  - intros s _ Hs Hk Hend. rewrite decodeListSlice_eq. by apply listContent_eol.
  - intros s s1 Hs Hst Hlen. rewrite decodeListSlice_eq. cbv zeta. set (di := match _ with (_, inr 0) => _ | _ => _ end).
    pose proof (listContent_sound (enc_elems (enc ty)) (fun l => Forall (typed ty) l /\ Forall (regular ty) l)
      di _ _ Hm1 Hm2 s s1 Hs Hst) as Hsound.
    ospecialize (Hsound _).
    { intros b c s' Hl Hh He. unfold di. rewrite Hl. pose proof (en_ready _ _ _ _ He) as Hrd.
      pose proof (en_room _ _ _ _ He) as Hroom. pose proof (en_shorter _ _ _ _ He). pose proof (room_le s' Hrd).
      pose proof (elems_sound F ty d Hd fuel s' Hrd (en_kind _ _ _ _ He) (en_stack _ _ _ _ He) ltac:(lia) ltac:(lia)) as Hel.
      destruct (zlen c) as [|p|p] eqn:Ec; [|..].
      - exists []. split_and!; [done..|]. apply ate_nil; [lia|]. apply adv_0, (en_kind _ _ _ _ He).
      - destruct (decodeSliceElems d fuel s') as [[s2 [e|l]]| |]; [done| |done|done].
        destruct Hel as (bs & ? & ? & ? & ? & ?). by exists bs.
      - lia. }
    destruct (listContent di _ _ s1) as [[s' [e|v]]| |]; [done| |done|done].
    destruct Hsound as (l & bs & -> & HE & [HT HR] & Ha). exists (enc_list bs). simpl. rewrite HE, !foldr_Forall.
    split_and!; [done..| |done]. pose proof (enc_list_length bs). lia.
  - intros v bs He Ht Hr Hl HF'. destruct v as [| | | | | |l]; try done. simpl in He, Ht, Hr.
    destruct (enc_elems (enc ty) l) as [c|] eqn:Ec; [|done]. simpl in He. simplify_eq. rewrite foldr_Forall in Ht, Hr.
    pose proof (enc_list_length c). exists Kind.List, Byte.x00, c. split_and!; [done|by apply enc_header|].
    apply (slice_reads F ty); done || lia.
Qed.

(** ** Arrays *)

Lemma array_elems_sound F ty d :
  dec_ok F ty d -> forall n s, ready s -> kind s = None -> zlen (r s) < F ->
  match decodeArrayElems d n s with
  | Done (s', inr (Some l)) => exists bs, enc_elems (enc ty) l = Some bs /\ Forall (typed ty) l /\
      Forall (regular ty) l /\ length l = n /\ ate s bs s'
  | Done (s', inr None) => True
  | Done (s', inl e) => e <> EOL
  | _ => False
  end.
Proof.
  intros Hd. induction n as [|n IH]; intros s Hs Hk HF; simpl.
  { exists []. split_and!; [done..|]. apply ate_nil; [by apply ready_room|by apply adv_0]. }
  pose proof (d_sound _ _ _ Hd s s Hs (start_refl s Hk) HF) as Hds.
  destruct (d s) as [[s1 [e|v]]| |]; [|..|done|done]; [by destruct e|].
  destruct Hds as (b & Hev & Htv & Hrv & Hb1 & Ha1).
  pose proof (ate_ready _ _ _ Hs Ha1) as (Hs1 & Hk1 & Hroom1). pose proof (ate_shorter _ _ _ Hs Ha1).
  specialize (IH s1 Hs1 Hk1 ltac:(lia)).
  unfold dbnd. destruct (decodeArrayElems d n s1) as [[s2 [e|[l|]]]| |]; try done.
  destruct IH as (bs & Hel & Htl & Hrl & Hlen & Ha2). simpl. exists (b ++ bs).
  rewrite Hev, Hel. simpl. split_and!; [done|by constructor|by constructor|lia|by eapply ate_app].
Qed.

Lemma array_elems_complete F ty d l :
  dec_ok F ty d -> forall s bs rest,
  ready s -> kind s = None ->
  enc_elems (enc ty) l = Some bs -> Forall (typed ty) l -> Forall (regular ty) l ->
  r s = bs ++ rest -> zlen bs <= room s -> zlen bs < F ->
  exists s', decodeArrayElems d (length l) s = Done (s', inr (Some l)) /\ ate s bs s'.
Proof.
  intros Hd. induction l as [|v l IH]; intros s bs rest Hs Hk He Ht Hre Hr Hroom HF; simpl in He.
  { simplify_eq. exists s. split; [done|]. apply ate_nil; [by apply ready_room|by apply adv_0]. }
  destruct (enc ty v) as [b|] eqn:Ev; [|done]. simpl in He.
  destruct (enc_elems (enc ty) l) as [bs'|] eqn:El; [|done]. simpl in He. simplify_eq.
  apply Forall_cons in Ht as [Htv Ht]. apply Forall_cons in Hre as [Hrv Hre]. rewrite length_app in Hroom, HF.
  rewrite <-app_assoc in Hr.
  destruct (dec_reads F ty d v b s (bs' ++ rest) Hd Ev Htv Hrv ltac:(lia) Hs Hk Hr ltac:(lia)) as (Hb1 & s1 & Hd1 & Ha1).
  pose proof (ate_ready _ _ _ Hs Ha1) as (Hs1 & Hk1 & Hroom1).
  destruct (IH s1 bs' rest) as (s' & Hd2 & Ha2); try done; [by eapply ate_r|lia..|].
  exists s'. simpl. rewrite Hd1. unfold dbnd. rewrite Hd2. split; [done|]. by eapply ate_app.
Qed.

Definition arrayContent (d : decoder val) (n : nat) : decoder (list val) :=
  let^ l := decodeArrayElems d n in
  match l with None => lift (oerr (decodeError ListTooFewElements)) | Some l => lift (oret l) end.

Lemma decodeListArray_eq d n s :
  decodeListArray d n s = listContent (arrayContent d n) (wrapped List_) (wrapped ListEnd) s.
Proof.
  unfold decodeListArray, listContent, arrayContent, dbnd, lift. destruct (wrapped List_ s) as [s' [e|k]]; [done|].
  by destruct (decodeArrayElems d n s') as [[s2 [e|[l|]]]| |].
Qed.

Lemma array_dec_ok F ty d n : dec_ok F ty d -> dec_ok F (TArray n ty) (decodeListArray d n).
Proof.
  intros Hd.
  assert (rewrapped List_ (wrapped List_)) as Hm1 by apply rewrapped_wrapped.
  assert (rewrapped ListEnd (wrapped ListEnd)) as Hm2 by apply rewrapped_wrapped.
  constructor.
  - intros s _ Hs Hk Hend. rewrite decodeListArray_eq. by apply listContent_eol.
  - intros s s1 Hs Hst Hlen. rewrite decodeListArray_eq.
    pose proof (listContent_sound (enc_elems (enc ty))
      (fun l => length l = n /\ Forall (typed ty) l /\ Forall (regular ty) l)
      (arrayContent d n) _ _ Hm1 Hm2 s s1 Hs Hst) as Hsound.
    ospecialize (Hsound _).
    { intros b c s' Hl Hh He. pose proof (en_ready _ _ _ _ He) as Hrd. pose proof (en_shorter _ _ _ _ He).
      pose proof (array_elems_sound F ty d Hd n s' Hrd (en_kind _ _ _ _ He) ltac:(lia)) as Hel.
      unfold arrayContent, dbnd, lift. destruct (decodeArrayElems d n s') as [[s2 [e|[l|]]]| |]; try done.
      destruct Hel as (bs & ? & ? & ? & ? & ?). by exists bs. }
    destruct (listContent _ _ _ s1) as [[s' [e|v]]| |]; [done| |done|done].
    destruct Hsound as (l & bs & -> & HE & (Hn & HT & HR) & Ha). exists (enc_list bs). simpl. rewrite HE, !foldr_Forall.
    split_and!; [done..| |done]. pose proof (enc_list_length bs). lia.
  - intros v bs He Ht Hr Hl HF'. destruct v as [| | | | | |l]; try done. simpl in He, Ht, Hr.
    destruct (enc_elems (enc ty) l) as [c|] eqn:Ec; [|done]. simpl in He. simplify_eq.
    destruct Ht as [<- Ht]. rewrite foldr_Forall in Ht, Hr.
    pose proof (enc_list_length c). exists Kind.List, Byte.x00, c. split_and!; [done|by apply enc_header|].
    intros s s1 Hs Hh Hk. rewrite decodeListArray_eq.
    apply (listContent_complete _ _ _ Hm1 Hm2 l Byte.x00 c); [|done..].
    intros s2 s' Hs2 Hh2 He2. pose proof (en_ready _ _ _ _ He2) as Hrd. destruct (en_r _ _ _ _ He2) as [rest Hr2].
    pose proof (en_room _ _ _ _ He2).
    destruct (array_elems_complete F ty d l Hd s' c rest Hrd (en_kind _ _ _ _ He2) Ec Ht Hr Hr2
      ltac:(lia) ltac:(lia)) as (s3 & Hd3 & Ha3).
    exists s3. unfold arrayContent, dbnd. by rewrite Hd3.
Qed.

(** ** Structs *)

Section Struct.
Context (F : Z) (fuel : nat) (dec : typ -> decoder val) (HF : F <= Z.of_nat fuel).

Abbreviation tl f tail := (match tail with Some t => Some (f t) | None => None end).

Lemma fields_sound fields tail :
  Forall (fun t => dec_ok F t (dec t)) fields -> (forall t, tail = Some t -> dec_ok F t (dec t)) ->
  forall s, ready s -> kind s = None -> in_list s -> zlen (r s) < F ->
  match decodeFields fuel (map dec fields) (tl dec tail) s with
  | Done (s', inr l) => exists bs, enc_fields (map enc fields) (tl enc tail) l = Some bs /\
      typed_fields (map typed fields) (tl typed tail) l /\
      regular_fields (map regular fields) (tl regular tail) l /\ ate s bs s'
  | Done (s', inl e) => e <> EOL
  | _ => False
  end.
Proof.
  intros Hf Ht. induction Hf as [|ty fields Hd Hl IH]; intros s Hs Hk Hin Hlen; simpl.
  - destruct tail as [ty|].
    + pose proof (room_le s Hs).
      pose proof (elems_sound F ty _ (Ht ty eq_refl) fuel s Hs Hk Hin Hlen ltac:(lia)) as Hel.
      destruct (decodeSliceElems (dec ty) fuel s) as [[s' [e|l]]| |]; [done| |done|done].
      destruct Hel as (bs & ? & ? & ? & ? & ?). exists bs. simpl.
      by rewrite !foldr_Forall.
    + exists []. split_and!; [done..|]. apply ate_nil; [by apply ready_room|by apply adv_0].
  - pose proof (d_sound _ _ _ Hd s s Hs (start_refl s Hk) Hlen) as Hds.
    destruct (dec ty s) as [[s1 [e|v]]| |]; [|..|done|done]; [by destruct e|].
    destruct Hds as (b & Hev & Htv & Hrv & Hb1 & Ha1).
    pose proof (ate_ready _ _ _ Hs Ha1) as (Hs1 & Hk1 & Hroom1). pose proof (ate_shorter _ _ _ Hs Ha1).
    specialize (IH s1 Hs1 Hk1 (in_list_ate _ _ _ Ha1 Hin) ltac:(lia)). unfold dbnd.
    destruct (decodeFields fuel (map dec fields) (tl dec tail) s1) as [[s2 [e|l]]| |]; [done| |done|done].
    destruct IH as (bs & Hel & Htl & Hrl & Ha2). exists (b ++ bs). simpl. rewrite Hev. simpl. rewrite Hel. simpl.
    split_and!; try done. by eapply ate_app.
Qed.

Lemma fields_complete fields tail :
  Forall (fun t => dec_ok F t (dec t)) fields -> (forall t, tail = Some t -> dec_ok F t (dec t)) ->
  forall l s bs rest, ready s -> kind s = None -> in_list s ->
  enc_fields (map enc fields) (tl enc tail) l = Some bs ->
  typed_fields (map typed fields) (tl typed tail) l -> regular_fields (map regular fields) (tl regular tail) l ->
  r s = bs ++ rest -> room s = zlen bs -> zlen bs < F ->
  exists s', decodeFields fuel (map dec fields) (tl dec tail) s = Done (s', inr l) /\ ate s bs s'.
Proof.
  intros Hf Ht. induction Hf as [|ty fields Hd Hl IH]; intros l s bs rest Hs Hk Hin He Hty Hre Hr Hroom Hlen; simpl in *.
  - destruct tail as [ty|].
    + rewrite foldr_Forall in Hty, Hre. eapply elems_complete; [by apply Ht|done..|lia].
    + simplify_eq. exists s. split; [done|]. apply ate_nil; [by apply ready_room|by apply adv_0].
  - destruct l as [|v l]; [done|]. destruct Hty as [Htv Hty], Hre as [Hrv Hre].
    destruct (enc ty v) as [b|] eqn:Ev; [|done]. simpl in He.
    destruct (enc_fields _ _ l) as [bs'|] eqn:El; [|done]. simpl in He. simplify_eq.
    rewrite length_app in Hroom, Hlen. rewrite <-app_assoc in Hr.
    destruct (dec_reads F ty (dec ty) v b s (bs' ++ rest) Hd Ev Htv Hrv ltac:(lia) Hs Hk Hr ltac:(lia)) as (Hb1 & s1 & Hd1 & Ha1).
    pose proof (ate_ready _ _ _ Hs Ha1) as (Hs1 & Hk1 & Hroom1).
    destruct (IH l s1 bs' rest) as (s' & Hd2 & Ha2); try done; [by eapply in_list_ate|by eapply ate_r|lia..|].
    exists s'. rewrite Hd1. unfold dbnd. rewrite Hd2. split; [done|]. by eapply ate_app.
Qed.

Lemma struct_dec_ok fields tail :
  Forall (fun t => dec_ok F t (dec t)) fields -> (forall t, tail = Some t -> dec_ok F t (dec t)) ->
  dec_ok F (TStruct fields tail) (structDecoder fuel (map dec fields) (tl dec tail)).
Proof.
  intros Hf Ht.
  assert (rewrapped List_ (wrapped List_)) as Hm1 by apply rewrapped_wrapped.
  assert (rewrapped ListEnd (wrapped ListEnd)) as Hm2 by apply rewrapped_wrapped.
  change (structDecoder fuel (map dec fields) (tl dec tail))
    with (listContent (decodeFields fuel (map dec fields) (tl dec tail)) (wrapped List_) (wrapped ListEnd)).
  constructor.
  - intros s _ Hs Hk Hend. by apply listContent_eol.
  - intros s s1 Hs Hst Hlen.
    pose proof (listContent_sound (enc_fields (map enc fields) (tl enc tail))
      (fun l => typed_fields (map typed fields) (tl typed tail) l /\ regular_fields (map regular fields) (tl regular tail) l)
      (decodeFields fuel (map dec fields) (tl dec tail)) _ _ Hm1 Hm2 s s1 Hs Hst) as Hsound.
    ospecialize (Hsound _).
    { intros b c s' Hl Hh He. pose proof (en_shorter _ _ _ _ He).
      pose proof (fields_sound fields tail Hf Ht s' (en_ready _ _ _ _ He) (en_kind _ _ _ _ He) (en_stack _ _ _ _ He)
        ltac:(lia)) as Hel.
      destruct (decodeFields _ _ _ s') as [[s2 [e|l]]| |]; [done| |done|done].
      destruct Hel as (bs & ? & ? & ? & ?). by exists bs. }
    destruct (listContent _ _ _ s1) as [[s' [e|v]]| |]; [done| |done|done].
    destruct Hsound as (l & bs & -> & HE & [HT HR] & Ha). exists (enc_list bs). cbn [enc]. rewrite HE.
    split_and!; [done..| |done]. pose proof (enc_list_length bs). lia.
  - intros v bs He Hty Hr Hl HF'. destruct v as [| | | | | |l]; try done. cbn [enc] in He.
    destruct (enc_fields _ _ l) as [c|] eqn:Ec; [|done]. simpl in He. simplify_eq.
    pose proof (enc_list_length c). exists Kind.List, Byte.x00, c. split_and!; [done|by apply enc_header|].
    apply (listContent_complete _ _ _ Hm1 Hm2 l Byte.x00 c).
    intros s2 s' Hs2 Hh2 He2. destruct (en_r _ _ _ _ He2) as [rest Hr2].
    apply (fields_complete fields tail Hf Ht l s' c rest); try apply He2; done || lia.
Qed.
End Struct.

(** ** Pointers *)

Lemma ptr_dec_ok F ty d : dec_ok F ty d -> dec_ok F (TPtr ty) (simplePtrDecoder d).
Proof.
  intros Hd. constructor.
  - intros s H0 Hs Hk Hend. destruct (d_eol _ _ _ Hd s H0 Hs Hk Hend) as (s' & Hs' & Ha).
    exists s'. unfold simplePtrDecoder, dbnd. by rewrite Hs'.
  - intros s s1 Hs Hst Hlen. pose proof (d_sound _ _ _ Hd s s1 Hs Hst Hlen) as Hx.
    unfold simplePtrDecoder, dbnd. by destruct (d s1) as [[s' [e|v]]| |].
  - intros v bs He Ht Hr Hl HF. destruct v as [|v| | | | |]; try done.
    destruct (d_complete _ _ _ Hd v bs He Ht Hr Hl HF) as (k & b & c & -> & Hh & Hrd).
    exists k, b, c. split_and!; [done..|]. intros s s1 Hs Hho Hk.
    destruct (Hrd s s1 Hs Hho Hk) as (s' & Hd' & Ha). exists s'. unfold simplePtrDecoder, dbnd. by rewrite Hd'.
Qed.

Lemma empty_header k n b rest :
  header_ok k n b -> (k = Kind.Byte \/ n <> 0) ->
  head (header k n b ++ rest) <> Some Byte.x80 /\ head (header k n b ++ rest) <> Some Byte.xc0.
Proof.
  intros Hh Hne. assert (forall s l, k <> Kind.Byte -> n <> 0 -> 0 <= n < two64 ->
    (s = 128 /\ l = 183) \/ (s = 192 /\ l = 247) ->
    head (puthead s l n ++ rest) <> Some Byte.x80 /\ head (puthead s l n ++ rest) <> Some Byte.xc0) as Hp.
  { intros s l _ Hn Hr Hsl. assert (exists z, head (puthead s l n ++ rest) = Some (byte_of_Z z) /\ (z <> 128 /\ z <> 192 /\ 0 <= z < 256)) as (z & -> & Hz).
    { destruct (Z_lt_dec n 56); [rewrite puthead_small by lia; eexists; split; [done|lia]|].
      destruct (puthead_long s l n ltac:(lia)) as [-> ?]. eexists. split; [done|]. lia. }
    split; intros [= E]; apply (f_equal Z_of_byte) in E; rewrite Z_of_byte_of_Z, Z.mod_small in E by lia;
      change (Z_of_byte Byte.x80) with 128 in E; change (Z_of_byte Byte.xc0) with 192 in E; lia. }
  destruct k; simpl in Hh.
  - destruct Hh as [_ Hb]. simpl. split; intros [= ->]; by vm_compute in Hb.
  - destruct Hne; [done|]. apply Hp; try done. by left.
  - destruct Hne; [done|]. apply Hp; try done. by right.
Qed.

Lemma nilPtr_dec_ok F ty d k0 :
  k0 <> Kind.Byte -> dec_ok F ty d -> dec_ok F (TNilPtr k0 ty) (nilPtrDecoder d k0).
Proof.
  intros Hk0 Hd. pose proof (ptr_dec_ok F ty d Hd) as Hptr. constructor.
  - intros s H0 Hs Hk Hend. destruct (Kind_eol s Hs Hk Hend) as (s1 & HK & Ha).
    exists s1. unfold nilPtrDecoder, dbnd, lift, wrapped. by rewrite HK.
  - intros s s1 Hs Hst Hlen. destruct (Kind_ s1) as [s2 x] eqn:HK.
    pose proof (start_Kind s s1 Hs Hst s2 x HK) as Hx. unfold nilPtrDecoder, dbnd at 1, lift at 1, wrapped.
    rewrite HK. destruct x as [e|[k n]]; [by destruct e|]. destruct Hx as (b & c & <- & Hh & Hp).
    destruct (decide (k <> Kind.Byte /\ c = [])) as [[Hkb ->]|Hne].
    + rewrite bool_decide_false by done. simpl. destruct (decide (k = k0)) as [->|Hkk].
      * rewrite bool_decide_true by done. simpl. exists (whole k0 b []).
        split_and!; [by destruct k0|done..|apply whole_length|]. apply holds_ate; [done|].
        split; [done|]. etrans; [exact (pk_clean _ _ _ _ _ Hp)|]. unfold whole. by rewrite app_nil_r.
      * by rewrite bool_decide_false by done.
    + assert (negb (bool_decide (k = Kind.Byte)) && (zlen c =? 0) = false) as ->.
      { destruct (decide (k = Kind.Byte)) as [->|Hkb]; [by rewrite bool_decide_true|].
        rewrite bool_decide_false by done. simpl. apply Z.eqb_neq. intros E. apply Hne. split; [done|]. by destruct c. }
      pose proof (d_sound _ _ _ Hptr s s2 Hs ltac:(right; eauto) Hlen) as Hds.
      destruct (simplePtrDecoder d s2) as [[s' [e|v]]| |]; try done.
      destruct Hds as (bs & He & Ht & Hr & Hb & Ha). exists bs.
      destruct v as [|v| | | | |]; try done. split_and!; try done. simpl. split; [done|].
      destruct (ate_prefix _ _ _ Ha) as [rest Hrest]. destruct (ho_r _ _ _ _ Hh) as [rest' Hr'].
      rewrite Hr' in Hrest. destruct (empty_header k (zlen c) b (c ++ rest') (ho_header _ _ _ _ Hh)) as [N1 N2].
      { destruct (decide (k = Kind.Byte)); [by left|right]. intros E. apply Hne. split; [done|]. by destruct c. }
      simpl in He. rewrite He, Hrest in *. split; intros [= ->]; done.
  - intros v bs He Ht Hr Hl HF. destruct v as [|v| | | | |]; try done.
    + simpl in He. simplify_eq. exists k0, Byte.x00, []. split_and!; [by destruct k0|by destruct k0|].
      intros s s1 Hs Hh (s2 & HK & Hp). unfold nilPtrDecoder, dbnd, lift, wrapped. rewrite HK.
      rewrite bool_decide_false, bool_decide_true by done. simpl. eexists. split; [done|]. apply holds_ate; [done|].
      split; [done|]. etrans; [exact (pk_clean _ _ _ _ _ Hp)|]. unfold whole. by rewrite app_nil_r.
    + simpl in Hr. destruct Hr as (Hr & N1 & N2). pose proof He as He'. simpl in He'. rewrite He' in N1, N2.
      destruct (d_complete _ _ _ Hptr (VPtr v) bs He Ht Hr Hl HF) as (k & b & c & -> & Hh & Hrd).
      exists k, b, c. split_and!; [done..|]. intros s s1 Hs Hho (s2 & HK & Hp).
      unfold nilPtrDecoder, dbnd at 1, lift at 1, wrapped. rewrite HK.
      assert (negb (bool_decide (k = Kind.Byte)) && (zlen c =? 0) = false) as ->.
      { destruct (decide (k = Kind.Byte)) as [->|Hkb]; [by rewrite bool_decide_true|].
        rewrite bool_decide_false by done. simpl. apply Z.eqb_neq. intros E. assert (c = []) as -> by (by destruct c).
        destruct k; [done|by destruct N1|by destruct N2]. }
      apply Hrd; [done..|]. by apply peeked_kinded.
Qed.

(** ** Interfaces *)

Lemma iface_step f d :
  dec_ok (Z.of_nat f) TIface d -> dec_ok (Z.of_nat f + 1) TIface
    (let^ '(k, _) := lift Kind_ in
     match k with
     | Kind.List => decodeListSlice d f
     | _ => let^ b := lift Bytes in lift (oret (VBytes b))
     end).
Proof.
  intros Hf. pose proof (vo_value _ _ Bytes_op) as HB. pose proof (slice_dec_ok _ _ _ f Hf ltac:(lia)) as Hd. constructor.
  - intros s H0 Hs Hk Hend. destruct (Kind_eol s Hs Hk Hend) as (s1 & HK & Ha).
    exists s1. unfold dbnd, lift. by rewrite HK.
  - intros s s1 Hs Hst Hlen. destruct (Kind_ s1) as [s2 x] eqn:HK.
    pose proof (start_Kind s s1 Hs Hst s2 x HK) as Hx. unfold dbnd at 1, lift at 1. rewrite HK.
    destruct x as [e|[k n]]; [by destruct e|]. destruct Hx as (b & c & <- & Hh & Hp).
    destruct (decide (k = Kind.List)) as [->|Hk].
    { pose proof (d_sound _ _ _ Hd s s2 Hs ltac:(right; eauto) Hlen) as Hds.
      destruct (decodeListSlice d f s2) as [[s' [e|v]]| |]; try done.
      destruct Hds as (bs & He & Ht & Hr & Hb & Ha). exists bs. destruct v; done. }
    destruct (HB s k b c s2 Hs Hh (peeked_kinded _ _ _ _ _ Hp)) as (s' & Hs' & Ha).
    destruct (Bytes_result k b c) as [e|l] eqn:El.
    { destruct k; try done; unfold dbnd, lift; rewrite Hs'; done. }
    assert (enc_string l = whole k b c /\ zlen l < two64) as [Hl _]
      by exact (co_sound _ _ _ Bytes_codec k b c l (ho_header _ _ _ _ Hh) El).
    destruct k; try done; unfold dbnd, lift; rewrite Hs'; exists (enc_string l); rewrite Hl;
      (split_and!; [simpl; by rewrite Hl|done..|apply whole_length|by apply holds_ate]).
  - intros v bs He Ht Hr Hl HF. destruct v as [| | | | |l|l]; try done; simpl in He.
    + simplify_eq. pose proof (enc_string_length l).
      destruct (co_complete _ _ _ Bytes_codec l) as (k & b & c & Hw & Hh & Hres); [lia|].
      exists k, b, c. split_and!; [done..|]. intros s s1 Hs Hho (s2 & HK & Hp).
      unfold dbnd at 1, lift at 1. rewrite HK.
      destruct (HB s k b c s2 Hs Hho (peeked_kinded _ _ _ _ _ Hp)) as (s' & Hs' & Ha). rewrite Hres in Hs', Ha.
      exists s'. destruct k; try done; unfold dbnd, lift; rewrite Hs'; (split; [done|by apply holds_ate]).
    + destruct (enc_elems enc_iface l) as [c|] eqn:Ec; [|done]. simpl in He. simplify_eq.
      simpl in Ht, Hr. rewrite foldr_Forall in Ht, Hr. pose proof (enc_list_length c).
      exists Kind.List, Byte.x00, c. split_and!; [done|by apply enc_header|].
      intros s s1 Hs Hho (s2 & HK & Hp). unfold dbnd at 1, lift at 1. rewrite HK.
      apply (slice_reads (Z.of_nat f) TIface d f l); try done; [lia|by apply peeked_kinded].
Qed.

Lemma iface_dec_ok fuel : dec_ok (Z.of_nat fuel) TIface (decodeInterface fuel).
Proof.
  induction fuel as [|fuel IH].
  - constructor; [lia|intros; lia|]. intros v bs He Ht Hr _ Hl. lia.
  - replace (Z.of_nat (S fuel)) with (Z.of_nat fuel + 1) by lia. by apply iface_step.
Qed.

(** ** All types *)

Lemma decode_ok fuel ty : typ_ok ty -> dec_ok (Z.of_nat fuel) ty (decode fuel ty).
Proof.
  induction ty using typ_nested_ind; intros Hok; simpl in Hok; cbn [decode].
  - eapply base_dec_ok, decodeRawValue_codec.
  - destruct decodeBigInt_codec as [res Hc]. by eapply base_dec_ok.
  - by apply ptr_dec_ok, IHty.
  - destruct Hok. by apply nilPtr_dec_ok, IHty.
  - destruct (decodeUint_codec _ Hok) as [res Hc]. by eapply base_dec_ok.
  - destruct decodeBool_codec as [res Hc]. by eapply base_dec_ok.
  - destruct (decodeString_codec TString) as [res Hc]; [by left|]. by eapply base_dec_ok.
  - destruct (decodeString_codec TBytes) as [res Hc]; [by right|]. by eapply base_dec_ok.
  - eapply base_dec_ok. by apply decodeByteArray_codec.
  - eapply dec_ok_mono; [|apply slice_dec_ok; [by apply IHty|done]]. lia.
  - by apply array_dec_ok, IHty.
  - destruct Hok as [Hf%foldr_Forall Ht]. apply struct_dec_ok; [done|..].
    + clear Ht. induction H as [|ty l Hty Hl IH]; [constructor|]. apply Forall_cons in Hf as [? ?]. constructor; auto.
    + intros t0 ->. auto.
  - apply iface_dec_ok.
Qed.

Lemma NewStream_ready b : zlen b < two63 -> ready (NewStream b).
Proof. intros Hb. by constructor. Qed.

(** ** DecodeBytes *)

(** EncodeToBytes, which collects list headers apart from the data, yields
    the encoding defined directly on values; it fails exactly on values that
    hold a negative integer. *)
Theorem EncodeToBytes_exact ty v :
  typed ty v -> (forall b, enc ty v = Some b -> zlen b < two64) ->
  EncodeToBytes ty v = match enc ty v with Some b => inr b | None => inl NegativeBigInt end.
Proof. apply EncodeToBytes_spec. Qed.

Lemma EncodeToBytes_exact_witness :
  EncodeToBytes (TStruct [TUint 64; TSlice TBig] None) (VList [VUint 1025; VList [VBig 7; VBig 300]])
  = inr [Byte.xc8; Byte.x82; Byte.x04; Byte.x01; Byte.xc4; Byte.x07; Byte.x82; Byte.x01; Byte.x2c].
Proof.
  rewrite (EncodeToBytes_exact (TStruct [TUint 64; TSlice TBig] None) (VList [VUint 1025; VList [VBig 7; VBig 300]])).
  - vm_compute. reflexivity.
  - simpl. intuition lia.
  - intros b Hb. vm_compute in Hb. injection Hb as <-. vm_compute. reflexivity.
Defined.



(** C8: decoding is total and strict: for every type without arrays of one byte
    and every input below 2^62 bytes DecodeBytes returns a value or an error
    (with more fuel than bytes), and a value it returns has the type and encodes
    to exactly the input, so that no two inputs decode to the same value. *)
Theorem DecodeBytes_strict n ty b :
  typ_ok ty -> zlen b < 2 ^ 62 -> zlen b < Z.of_nat n ->
  exists x, DecodeBytes n ty b = Done x /\
    forall v, x = inr v -> typed ty v /\ EncodeToBytes ty v = inr b.
Proof.
  intros Hok Hl Hn. pose proof (NewStream_ready b ltac:(lia)) as Hs.
  pose proof (d_sound _ _ _ (decode_ok n ty Hok) (NewStream b) (NewStream b) Hs (start_refl (NewStream b) eq_refl) Hn) as Hx.
  unfold DecodeBytes. destruct (decode n ty (NewStream b)) as [[s' [e|v]]| |]; [by eexists| |done|done].
  eexists. split; [done|]. intros v' Hv'.
  destruct Hx as (bs & He & Ht & _ & _ & Ha). destruct (ate_prefix _ _ _ Ha) as [rest Hr].
  rewrite (ate_r _ _ _ _ Ha Hr) in Hv'. destruct rest; [|done]. rewrite app_nil_r in Hr. simpl in Hr, Hv'.
  simplify_eq. split; [done|]. rewrite EncodeToBytes_spec; [by rewrite He|done|].
  intros b' Hb'. simplify_eq. lia.
Qed.

Lemma DecodeBytes_strict_witness :
  exists x, DecodeBytes 10 (TSlice (TUint 8)) [Byte.xc2; Byte.x81; Byte.x05] = Done x /\
    forall v, x = inr v -> typed (TSlice (TUint 8)) v /\
      EncodeToBytes (TSlice (TUint 8)) v = inr [Byte.xc2; Byte.x81; Byte.x05].
Proof. apply (DecodeBytes_strict 10 (TSlice (TUint 8))); [simpl; auto|vm_compute; reflexivity..]. Defined.

(** ** Arrays of one byte *)

(** The zero byte of a [1]byte array is seen but not consumed. *)
Lemma byte_array_stuck s :
  kind s = Some Kind.Byte -> kinderr s = None -> byteval s = Byte.x00 ->
  decodeByteArray 1 s = (s, inr (VBytes [Byte.x00])).
Proof.
  intros Hk He Hb. unfold decodeByteArray, obnd, Uint, uint, obnd, Kind_. rewrite Hk, He. simpl.
  rewrite Hk, He. simpl. by rewrite Hb.
Qed.

Lemma byte_array_loop n s :
  kind s = Some Kind.Byte -> kinderr s = None -> byteval s = Byte.x00 ->
  decodeSliceElems (lift (decodeByteArray 1)) n s = OutOfFuel.
Proof.
  intros Hk He Hb. induction n as [|n IH]; [done|]. cbn [decodeSliceElems]. unfold lift at 1.
  rewrite byte_array_stuck by done. unfold dbnd. by rewrite IH.
Qed.

(** Decoding the two bytes C1 00 into a slice of one-byte arrays does not
    end: the decoder of a one-byte array drops the error of Uint on a zero
    byte, which has not consumed the byte, so that the loop over the elements
    sees the same byte for ever (and the slice grows without bound). *)
Theorem byte_array_slice_diverges n :
  DecodeBytes n (TSlice (TByteArray 1)) [Byte.xc1; Byte.x00] = OutOfFuel.
Proof.
  destruct n as [|n]; [done|]. unfold DecodeBytes. cbn [decode].
  assert (wrapped List_ (NewStream [Byte.xc1; Byte.x00])
          = (mkStream [Byte.x00] 1 true None 0 Byte.x00 None [(0, 1)], inr 1)) as Hl by reflexivity.
  assert (lift (decodeByteArray 1) (mkStream [Byte.x00] 1 true None 0 Byte.x00 None [(0, 1)])
    = Done (mkStream [] 0 true (Some Kind.Byte) 0 Byte.x00 None [(1, 1)], inr (VBytes [Byte.x00]))) as Ha by reflexivity.
  assert (decodeListSlice (lift (decodeByteArray 1)) (S n) (NewStream [Byte.xc1; Byte.x00]) = OutOfFuel) as ->; [|done].
  unfold decodeListSlice, dbnd at 1, lift at 1. rewrite Hl. change (1 =? 0) with false. cbv iota beta.
  unfold dbnd at 1. cbn [decodeSliceElems]. rewrite Ha. unfold dbnd at 1. by rewrite byte_array_loop.
Qed.
