(* ===== verification/RlpRaw.v ===== *)
(** * rlp: raw values (raw.go)
    Splitting off the first value of a byte slice and counting values, without
    decoding them. *)

From S2P Require Import Prelude MathUtil Rlp RlpEncode RlpStream RlpDecode.

(** ** Model *)

Module Raw.
(** The shifts and ors of readSize. *)
Definition be_uint (b : bytes) : Z := foldl (fun s x => Z.lor (Z.shiftl s 8) (Z_of_byte x)) 0 b.

Definition readSize (b : bytes) (slen : Z) : derr + Z :=
  if zlen b <? slen then inl ErrUnexpectedEOF
  else
    let s := be_uint (take (Z.to_nat slen) b) in
    if (s <? 56) || match b with x :: _ => Z_of_byte x =? 0 | [] => false end then inl ErrCanonSize else inr s.

Definition readKind (buf : bytes) : derr + (Kind.t * Z * Z) :=
  match buf with
  | [] => inl ErrUnexpectedEOF
  | b :: tail =>
      let v := Z_of_byte b in
      let checked (k : Kind.t) (tagsize contentsize : Z) :=
        if u64 (zlen buf - tagsize) <? contentsize then inl ErrValueTooLarge else inr (k, tagsize, contentsize) in
      if v <? 128 then checked Kind.Byte 0 1
      else if v <? 184 then
        let contentsize := v - 128 in
        if (contentsize =? 1) && match tail with x :: _ => Z_of_byte x <? 128 | [] => false end
        then inl ErrCanonSize else checked Kind.String 1 contentsize
      else if v <? 192 then
        match readSize tail (v - 183) with inl e => inl e | inr n => checked Kind.String (v - 183 + 1) n end
      else if v <? 248 then checked Kind.List 1 (v - 192)
      else match readSize tail (v - 247) with inl e => inl e | inr n => checked Kind.List (v - 247 + 1) n end
  end.

(** The slices [b[ts : ts+cs]] and [b[ts+cs:]]; on an error the rest is the
    input. *)
Definition Split (b : bytes) : derr + (Kind.t * bytes * bytes) :=
  match readKind b with
  | inl e => inl e
  | inr (k, ts, cs) => inr (k, take (Z.to_nat cs) (drop (Z.to_nat ts) b), drop (Z.to_nat (ts + cs)) b)
  end.

Definition SplitString (b : bytes) : derr + (bytes * bytes) :=
  match Split b with
  | inl e => inl e
  | inr (Kind.List, _, _) => inl ErrExpectedString
  | inr (_, content, rest) => inr (content, rest)
  end.

Definition SplitList (b : bytes) : derr + (bytes * bytes) :=
  match Split b with
  | inl e => inl e
  | inr (Kind.List, content, rest) => inr (content, rest)
  | inr _ => inl ErrExpectedList
  end.

Fixpoint CountValues_loop (fuel : nat) (b : bytes) (i : Z) : outcome (derr + Z) :=
  match b with
  | [] => Done (inr i)
  | _ =>
      match fuel with
      | O => OutOfFuel
      | S fuel =>
          match readKind b with
          | inl e => Done (inl e)
          | inr (_, tagsize, size) => CountValues_loop fuel (drop (Z.to_nat (tagsize + size)) b) (i + 1)
          end
      end
  end.

(** A value takes at least one byte, so the length bounds the loop. *)
Definition CountValues (b : bytes) : outcome (derr + Z) := CountValues_loop (length b) b 0.
Definition ListSize (contentSize : Z) : Z := u64 (headsize contentSize + contentSize).
End Raw.
Import Raw.

(** ** Proofs *)

Lemma be_uint_SetBytes b : be_uint b = SetBytes b.
Proof.
  unfold be_uint, SetBytes. assert (forall acc, 0 <= acc ->
    foldl (fun s x => Z.lor (Z.shiftl s 8) (Z_of_byte x)) acc b = foldl be_step acc b) as H; [|by apply H].
  induction b as [|x b IH]; [done|]. intros acc Hacc. simpl. pose proof (Z_of_byte_range x).
  rewrite <-IH by (unfold be_step; lia). f_equal. unfold be_step.
  rewrite lor_shiftl_small by lia. done.
Qed.

(** The encoding of a value of kind [k] with content [c]; a single byte below
    0x80 is its own encoding, and has no other. *)
Definition enc_raw (k : Kind.t) (c : bytes) : bytes :=
  match k with Kind.List => enc_list c | _ => enc_string c end.
Definition raw_ok (k : Kind.t) (c : bytes) : Prop :=
  match k with
  | Kind.Byte => exists x, c = [x] /\ Z_of_byte x < 128
  | Kind.String => match c with [x] => 128 <= Z_of_byte x | _ => True end
  | Kind.List => True
  end.

(** readKind in terms of headers: the tag is the header, except that a single
    byte is content. *)
Definition tag (k : Kind.t) (n : Z) : bytes :=
  match k with Kind.Byte => [] | Kind.String => puthead 128 183 n | Kind.List => puthead 192 247 n end.

Lemma enc_raw_tag k c : raw_ok k c -> enc_raw k c = tag k (zlen c) ++ c.
Proof.
  destruct k; simpl; [|intros Hc|done].
  - intros (x & -> & Hx). by rewrite enc_string_single.
  - by rewrite (enc_string_long c Byte.x00).
Qed.

Lemma readSize_complete l rest :
  56 <= SetBytes l -> no_leading_zero l -> readSize (l ++ rest) (zlen l) = inr (SetBytes l).
Proof.
  intros Hs Hz. unfold readSize. rewrite length_app, (proj2 (Z.ltb_ge _ _)) by lia.
  rewrite Nat2Z.id, take_app_length, be_uint_SetBytes, (proj2 (Z.ltb_ge _ _)) by lia. simpl.
  destruct l as [|x l]; [done|]. simpl in *. by rewrite (proj2 (Z.eqb_neq _ _)) by (by rewrite Z_of_byte_0).
Qed.

Lemma readSize_sound b slen s :
  1 <= slen -> readSize b slen = inr s ->
  exists l rest, b = l ++ rest /\ zlen l = slen /\ no_leading_zero l /\ s = SetBytes l /\ 56 <= s.
Proof.
  intros Hl. unfold readSize. destruct (Z.ltb_spec (zlen b) slen); [done|]. rewrite be_uint_SetBytes.
  set (l := take _ b). destruct (Z.ltb_spec (SetBytes l) 56); [done|]. simpl.
  destruct b as [|x b]; [simpl in *; lia|]. destruct (Z.eqb_spec (Z_of_byte x) 0) as [|Hx]; [done|]. intros [= <-].
  exists l, (drop (Z.to_nat slen) (x :: b)). unfold l. rewrite take_drop, length_take. split_and!; try done; [lia|].
  destruct (Z.to_nat slen) eqn:E; [lia|]. simpl. by rewrite Z_of_byte_0 in Hx.
Qed.

(** The last test of readKind. *)
Lemma checked_ok {A} (buf : bytes) ts cs (x : A) (e : derr) :
  0 <= ts -> 0 <= cs -> ts + cs <= zlen buf -> zlen buf < two63 ->
  (if u64 (zlen buf - ts) <? cs then inl e else inr x) = inr x.
Proof. intros. rewrite u64_small by (unfold is_u64; lia). by rewrite (proj2 (Z.ltb_ge _ _)) by lia. Qed.

Lemma readKind_complete k c rest :
  raw_ok k c -> zlen (tag k (zlen c) ++ c ++ rest) < two63 ->
  readKind (tag k (zlen c) ++ c ++ rest) = inr (k, zlen (tag k (zlen c)), zlen c).
Proof.
  intros Hc Hlen. set (buf := tag k (zlen c) ++ c ++ rest) in *.
  assert (forall ts, ts = zlen (tag k (zlen c)) ->
    (if u64 (zlen buf - ts) <? zlen c then inl ErrValueTooLarge else inr (k, ts, zlen c)) = inr (k, ts, zlen c)) as Hch.
  { intros ts ->. apply checked_ok; [lia|lia| |done]. unfold buf. rewrite !length_app. lia. }
  destruct (decide (k = Kind.Byte)) as [->|Hk].
  { destruct Hc as (x & -> & Hx). simpl in buf, Hch |- *. rewrite (proj2 (Z.ltb_lt _ _)) by lia. exact (Hch 0 eq_refl). }
  assert (zlen c < two63) as Hcl by (unfold buf in Hlen; rewrite !length_app in Hlen; lia).
  destruct (Z_lt_dec (zlen c) 56) as [Hs|Hs].
  - assert (tag k (zlen c) = [byte_of_Z ((match k with Kind.String => 128 | _ => 192 end) + zlen c)]) as Ht
      by (destruct k; [done|simpl; by rewrite puthead_small..]).
    assert (buf = byte_of_Z ((match k with Kind.String => 128 | _ => 192 end) + zlen c) :: c ++ rest) as Hb
      by (unfold buf; by rewrite Ht).
    rewrite Ht in Hch |- *. clearbody buf. subst buf. unfold readKind.
    destruct k; [done|..]; rewrite byte_of_Z_small by lia;
      rewrite !(proj2 (Z.ltb_ge _ 128)), ?(proj2 (Z.ltb_ge _ 184)), ?(proj2 (Z.ltb_ge _ 192)) by lia;
      rewrite (proj2 (Z.ltb_lt _ _)) by lia; [replace (128 + zlen c - 128) with (zlen c) by lia|
        replace (192 + zlen c - 192) with (zlen c) by lia; exact (Hch 1 eq_refl)].
    assert ((zlen c =? 1) && match c ++ rest with x :: _ => Z_of_byte x <? 128 | [] => false end = false) as ->;
      [|exact (Hch 1 eq_refl)].
    destruct (Z.eqb_spec (zlen c) 1); [|done]. destruct c as [|x [|]]; [done| |simpl in *; lia].
    simpl in Hc |- *. by apply Z.ltb_ge.
  - set (base := match k with Kind.String => 183 | _ => 247 end).
    destruct (puthead_long 0 0 (zlen c) ltac:(lia)) as [_ Hbl].
    assert (tag k (zlen c) = byte_of_Z (base + zlen (BigBytes (zlen c))) :: BigBytes (zlen c)) as Ht.
    { unfold base. destruct k; [done|simpl; by rewrite (proj1 (puthead_long _ _ (zlen c) ltac:(lia)))..]. }
    assert (readSize (BigBytes (zlen c) ++ c ++ rest) (zlen (BigBytes (zlen c))) = inr (zlen c)) as Hrs.
    { assert (SetBytes (BigBytes (zlen c)) = zlen c) as HS by (rewrite SetBytes_BigBytes; lia).
      rewrite readSize_complete; [by rewrite HS|lia|apply BigBytes_no_leading_zero]. }
    assert (buf = byte_of_Z (base + zlen (BigBytes (zlen c))) :: BigBytes (zlen c) ++ c ++ rest) as Hb
      by (unfold buf; by rewrite Ht).
    rewrite Ht in Hch |- *. clearbody buf. subst buf. unfold readKind. cbn [length] in Hch |- *.
    unfold base in *. destruct k; [done|..]; rewrite byte_of_Z_small by lia;
      rewrite !(proj2 (Z.ltb_ge _ 128)), ?(proj2 (Z.ltb_ge _ 184)) by lia;
      [rewrite (proj2 (Z.ltb_lt _ 192)) by lia; replace (183 + _ - 183) with (zlen (BigBytes (zlen c))) by lia|
       rewrite (proj2 (Z.ltb_ge _ 192)), (proj2 (Z.ltb_ge _ 248)) by lia; replace (247 + _ - 247) with (zlen (BigBytes (zlen c))) by lia];
      rewrite Hrs; cbn [length]; replace (Z.of_nat (S (length (BigBytes (zlen c))))) with (zlen (BigBytes (zlen c)) + 1) in * by lia;
      by apply Hch.
Qed.

(** A value announced by [tagb] with [n] bytes of content in [buf]. *)
Lemma announced k tagb rest0 n buf :
  k <> Kind.Byte -> buf = tagb ++ rest0 -> zlen buf < two63 -> 0 <= n -> tag k n = tagb ->
  (k = Kind.String -> n = 1 -> match rest0 with x :: _ => 128 <= Z_of_byte x | [] => True end) ->
  forall k' ts cs,
  (if u64 (zlen buf - zlen tagb) <? n then inl ErrValueTooLarge else inr (k, zlen tagb, n)) = inr (k', ts, cs) ->
  exists c rest, raw_ok k' c /\ buf = tag k' (zlen c) ++ c ++ rest /\ ts = zlen (tag k' (zlen c)) /\ cs = zlen c.
Proof.
  intros Hk Hbuf Hlen Hn Ht H1 k' ts cs. rewrite Hbuf in *. rewrite length_app in *.
  rewrite u64_small by (unfold is_u64; lia). destruct (Z.ltb_spec (Z.of_nat (length tagb + length rest0) - zlen tagb) n); [done|].
  intros [= <- <- <-]. assert (zlen (take (Z.to_nat n) rest0) = n) as Hc by (rewrite length_take; lia).
  exists (take (Z.to_nat n) rest0), (drop (Z.to_nat n) rest0). rewrite Hc, Ht, take_drop.
  split_and!; [|done..]. destruct k; [done|simpl|done]. destruct rest0 as [|x rest0]; [by rewrite take_nil|].
  destruct (take (Z.to_nat n) (x :: rest0)) as [|y [|]] eqn:E; try done. simpl in Hc. subst n.
  rewrite Nat2Z.id in E. rewrite firstn_cons in E. injection E as <-. by apply H1.
Qed.

Lemma readKind_sound buf k ts cs :
  zlen buf < two63 -> readKind buf = inr (k, ts, cs) ->
  exists c rest, raw_ok k c /\ buf = tag k (zlen c) ++ c ++ rest /\ ts = zlen (tag k (zlen c)) /\ cs = zlen c.
Proof.
  intros Hlen. destruct buf as [|b tail]; [done|]. unfold readKind. pose proof (Z_of_byte_range b).
  destruct (Z.ltb_spec (Z_of_byte b) 128) as [H1|H1].
  { destruct (_ <? 1); [done|]. intros [= <- <- <-]. exists [b], tail. split_and!; try done. by exists b. }
  assert (forall k0 (base : Z) n, k0 <> Kind.Byte -> base = match k0 with Kind.String => 128 | _ => 192 end ->
    Z_of_byte b = base + n -> 0 <= n < 56 -> tag k0 n = [b]) as Hsmall.
  { intros k0 base n Hk0 -> Hb Hn. rewrite <-(byte_of_Z_of_byte b), Hb.
    destruct k0; [done|simpl; by rewrite puthead_small by lia..]. }
  assert (forall k0 base s, k0 <> Kind.Byte -> base = match k0 with Kind.String => 183 | _ => 247 end ->
    1 <= Z_of_byte b - base <= 8 -> readSize tail (Z_of_byte b - base) = inr s ->
    exists l rest0, tail = l ++ rest0 /\ zlen l + 1 = Z_of_byte b - base + 1 /\ 56 <= s /\ tag k0 s = b :: l) as Hlong.
  { intros k0 base s Hk0 Hbase Hs Hrs. apply readSize_sound in Hrs as (l & rest0 & -> & Hl & Hz & -> & H56); [|lia].
    exists l, rest0. split_and!; [done|lia|done|]. pose proof (SetBytes_range l).
    assert (256 ^ zlen l <= 256 ^ 8) by (apply Z.pow_le_mono_r; lia).
    rewrite <-(byte_of_Z_of_byte b). replace (Z_of_byte b) with (base + zlen l) by lia.
    destruct k0; [done|..]; simpl; subst base;
      rewrite (proj1 (puthead_long _ _ (SetBytes l) ltac:(lia))), BigBytes_SetBytes; done. }
  destruct (Z.ltb_spec (Z_of_byte b) 184) as [H2|H2].
  { destruct ((Z_of_byte b - 128 =? 1) && _) eqn:Ec; [done|].
    apply (announced Kind.String [b] tail); try done; [lia|apply (Hsmall Kind.String 128); done || lia|].
    intros _ Hn. rewrite (proj2 (Z.eqb_eq _ _) Hn) in Ec. simpl in Ec. destruct tail; [done|]. by apply Z.ltb_ge. }
  destruct (Z.ltb_spec (Z_of_byte b) 192) as [H3|H3]; [|destruct (Z.ltb_spec (Z_of_byte b) 248) as [H4|H4]].
  - destruct (readSize tail (Z_of_byte b - 183)) as [e|s] eqn:Ers; [done|].
    destruct (Hlong Kind.String 183 s ltac:(done) eq_refl ltac:(lia) Ers) as (l & rest0 & -> & Hl & H56 & Ht).
    replace (Z_of_byte b - 183 + 1) with (zlen (b :: l)) by (cbn [length]; lia).
    apply (announced Kind.String (b :: l) rest0); try done; lia.
  - apply (announced Kind.List [b] tail); try done; [lia|]. apply (Hsmall Kind.List 192); done || lia.
  - destruct (readSize tail (Z_of_byte b - 247)) as [e|s] eqn:Ers; [done|].
    destruct (Hlong Kind.List 247 s ltac:(done) eq_refl ltac:(lia) Ers) as (l & rest0 & -> & Hl & H56 & Ht).
    replace (Z_of_byte b - 247 + 1) with (zlen (b :: l)) by (cbn [length]; lia).
    apply (announced Kind.List (b :: l) rest0); try done; lia.
Qed.

Lemma Split_complete k c rest :
  raw_ok k c -> zlen (enc_raw k c ++ rest) < two63 -> Split (enc_raw k c ++ rest) = inr (k, c, rest).
Proof.
  intros Hc Hlen. rewrite enc_raw_tag in * by done. rewrite <-app_assoc in *. unfold Split.
  rewrite readKind_complete by done. rewrite !Nat2Z.id, drop_app_length, take_app_length.
  by rewrite <-Nat2Z.inj_add, Nat2Z.id, app_assoc, <-length_app, drop_app_length.
Qed.

Lemma enc_raw_length k c : raw_ok k c -> zlen c <= zlen (enc_raw k c) /\ 1 <= zlen (enc_raw k c).
Proof.
  intros Hc. rewrite enc_raw_tag by done. rewrite length_app. split; [lia|]. destruct k; simpl.
  - destruct Hc as (x & -> & _). simpl. lia.
  - unfold puthead. destruct (_ <? _); simpl; lia.
  - unfold puthead. destruct (_ <? _); simpl; lia.
Qed.

(** Split succeeds exactly on inputs that start with the canonical encoding
    of a value, and then returns its kind, its content and what follows. *)
Theorem Split_exact b k c rest :
  zlen b < 2 ^ 62 ->
  Split b = inr (k, c, rest) <-> raw_ok k c /\ b = enc_raw k c ++ rest.
Proof.
  intros Hlen. split; [|intros [Hc ->]; apply Split_complete; [done|lia]].
  unfold Split. destruct (readKind b) as [e|[[k' ts] cs]] eqn:E; [done|].
  apply readKind_sound in E as (c' & rest' & Hc & Hb & -> & ->); [|lia]. intros [= -> <- <-].
  rewrite Hb, !Nat2Z.id, drop_app_length, take_app_length.
  rewrite <-Nat2Z.inj_add, Nat2Z.id, (app_assoc _ c'), <-length_app, drop_app_length.
  split; [done|]. by rewrite enc_raw_tag by done.
Qed.

Lemma Split_exact_witness :
  Split [Byte.x83; Byte.x64; Byte.x6f; Byte.x67; Byte.x01] = inr (Kind.String, [Byte.x64; Byte.x6f; Byte.x67], [Byte.x01]).
Proof. apply Split_exact; [done|]. split; reflexivity. Defined.

Lemma CountValues_spec items fuel i :
  Forall (fun x => raw_ok x.1 x.2) items ->
  let b := concat (map (fun x => enc_raw x.1 x.2) items) in
  zlen b < two63 -> (length b <= fuel)%nat -> CountValues_loop fuel b i = Done (inr (i + zlen items)).
Proof.
  intros Hf. revert fuel i. induction Hf as [|[k c] items Hc Hl IH]; intros fuel i b Hb Hfuel.
  { simpl. rewrite Z.add_0_r. by destruct fuel. }
  unfold b in *. cbn [map concat fst snd] in *. destruct (enc_raw_length k c Hc) as [? Hne]. rewrite length_app in Hb, Hfuel.
  assert (readKind (enc_raw k c ++ concat (map (fun x => enc_raw x.1 x.2) items)) = inr (k, zlen (tag k (zlen c)), zlen c)) as Hr.
  { rewrite enc_raw_tag in * by done. rewrite length_app in Hb. rewrite <-app_assoc. apply readKind_complete; [done|].
    rewrite !length_app. lia. }
  destruct fuel as [|fuel]; [lia|]. destruct (enc_raw k c ++ _) as [|x rest] eqn:E.
  { apply (f_equal length) in E. rewrite length_app in E. simpl in E. lia. }
  cbn [CountValues_loop]. rewrite Hr, <-E. rewrite enc_raw_tag by done.
  rewrite <-Nat2Z.inj_add, Nat2Z.id, <-length_app, drop_app_length. rewrite IH by lia. do 2 f_equal. simpl. lia.
Qed.

(** CountValues counts: a concatenation of canonical encodings has as many
    values as were concatenated. *)
Lemma CountValues_exact items :
  Forall (fun x => raw_ok x.1 x.2) items ->
  zlen (concat (map (fun x => enc_raw x.1 x.2) items)) < 2 ^ 62 ->
  CountValues (concat (map (fun x => enc_raw x.1 x.2) items)) = Done (inr (zlen items)).
Proof. intros Hf Hl. unfold CountValues. by rewrite CountValues_spec by (done || lia). Qed.
