(* ===== verification/StateDB.v ===== *)
(** * core/state: the state database (statedb.go, state_object.go, journal.go)
    Accounts are kept as state objects over the account trie, their storage
    over one trie each; every change is journaled so that it can be reverted.
    The tries, the node database and the code store are the class [Store]: the
    operations of the interfaces Trie and Database (database.go).

    A state object is a pointer held by the map of live objects.  It carries a
    back pointer to its StateDB, used to append to the journal: a method of an
    object that journals takes the StateDB, and one that changes the object
    stores it back at its address.  An object put aside in the journal
    ([resetObjectChange]) is not reachable from the map, and balances are
    replaced and never updated in place, so both may be kept by value. *)

From S2P Require Import Prelude MathUtil VmBase VmEnv Rlp RlpStream RlpRaw.

(** ** The interfaces Trie and Database (database.go) *)

Inductive dbError :=
  | MissingNodeError
  | ErrNotFound
  | ErrStorageTrie (e : dbError)     (** "can't create storage trie" *)
  | ErrLoadCode (h : Hash) (e : dbError) (** "can't load code hash" *)
  | ErrRlp (e : derr).

(** A key of a trie is the value of the address or slot whose bytes index it;
    a Go error result is an option. *)
Class Store (D T : Type) := {
  TryGet : T -> Z -> T * (bytes * option dbError);
  TryUpdate : T -> Z -> bytes -> T * option dbError;
  TryDelete : T -> Z -> T * option dbError;
  TrieHash : T -> T * Hash;
  TrieCommit : D -> T -> D * T * (Hash * option dbError);
  OpenTrie : D -> Hash -> T * option dbError;
  OpenStorageTrie : D -> Hash -> Hash -> T * option dbError;
  CopyTrie : T -> T;
  ContractCode : D -> Hash -> Hash -> option bytes * option dbError;
  ContractCodeSize : D -> Hash -> Hash -> Z * option dbError;
  InsertBlob : D -> Hash -> bytes -> D }.

(** ** Accounts and state objects (state_object.go) *)

(** The code hash is a byte slice; one that holds a hash (any of 32 bytes) is
    represented by that hash. *)
Inductive hashBytes :=
  | HashBytes (h : Hash)
  | OtherBytes (b : bytes).

#[export] Instance hashBytes_eq_dec : EqDecision hashBytes.
Proof. solve_decision. Defined.

(** The bytes themselves, the slice with given bytes, and BytesToHash. *)
Definition bytes_of (c : hashBytes) : bytes :=
  match c with HashBytes h => be_bytes 32 h | OtherBytes b => b end.
Definition of_bytes (b : bytes) : hashBytes :=
  if (length b =? 32)%nat then HashBytes (SetBytes b) else OtherBytes b.
Definition hash_of (c : hashBytes) : Hash :=
  match c with HashBytes h => h | OtherBytes b => BytesToHash b end.

Record Account := mkAccount {
  Nonce : Z;
  Balance : Z;
  Root : Hash;
  CodeHash : hashBytes }.

Abbreviation Storage := (gmap Hash Hash).

(** A nil trie, code slice or fake storage is [None]. *)
Record stateObject {T : Type} := mkObject {
  o_address : Address;
  o_addrHash : Hash;
  o_data : Account;
  o_dbErr : option dbError;
  o_trie : option T;
  o_code : option bytes;
  originStorage : Storage;
  pendingStorage : Storage;
  dirtyStorage : Storage;
  fakeStorage : option Storage;
  dirtyCode : bool;
  suicided : bool;
  deleted : bool }.
Arguments stateObject : clear implicits.

(** ** The journal (journal.go) *)

Inductive journalEntry {T : Type} :=
  | createObjectChange (account : Address)
  | resetObjectChange (prev : stateObject T)
  | suicideChange (account : Address) (prev : bool) (prevbalance : Z)
  | balanceChange (account : Address) (prev : Z)
  | nonceChange (account : Address) (prev : Z)
  | storageChange (account : Address) (key prevalue : Hash)
  | codeChange (account : Address) (prevcode : option bytes) (prevhash : hashBytes)
  | refundChange (prev : Z)
  | addLogChange (txhash : Hash)
  | addPreimageChange (hash : Hash)
  | touchChange (account : Address).
Arguments journalEntry : clear implicits.

(** The entries are kept newest first. *)
Record journal {T : Type} := mkJournal {
  entries : list (journalEntry T);
  dirties : gmap Address Z }.
Arguments journal : clear implicits.

Record revision := mkRevision { rev_id : Z; journalIndex : Z }.

(** ** StateDB (statedb.go), without the timers *)

Record StateDB {D T : Type} := mkStateDB {
  db : D;
  trie : T;
  stateObjects : gmap Address (stateObject T);
  stateObjectsPending : gset Address;
  stateObjectsDirty : gset Address;
  dbErr : option dbError;
  refund : Z;
  thash : Hash;
  bhash : Hash;
  txIndex : Z;
  logs : gmap Hash (list Log);
  logSize : Z;
  preimages : gmap Hash bytes;
  journal_ : journal T;
  validRevisions : list revision;
  nextRevisionId : Z }.
Arguments StateDB : clear implicits.

(** Field updates. *)
Section Updates.
Context {D T : Type}.
Implicit Types (s : StateDB D T) (o : stateObject T).

Definition with_data o (x : Account) : stateObject T :=
  mkObject _ (o_address o) (o_addrHash o) x (o_dbErr o) (o_trie o) (o_code o) (originStorage o)
    (pendingStorage o) (dirtyStorage o) (fakeStorage o) (dirtyCode o) (suicided o) (deleted o).
Definition with_o_dbErr o e : stateObject T :=
  mkObject _ (o_address o) (o_addrHash o) (o_data o) e (o_trie o) (o_code o) (originStorage o)
    (pendingStorage o) (dirtyStorage o) (fakeStorage o) (dirtyCode o) (suicided o) (deleted o).
Definition with_o_trie o (t : option T) : stateObject T :=
  mkObject _ (o_address o) (o_addrHash o) (o_data o) (o_dbErr o) t (o_code o) (originStorage o)
    (pendingStorage o) (dirtyStorage o) (fakeStorage o) (dirtyCode o) (suicided o) (deleted o).
Definition with_o_code o (c : option bytes) (dirty : bool) : stateObject T :=
  mkObject _ (o_address o) (o_addrHash o) (o_data o) (o_dbErr o) (o_trie o) c (originStorage o)
    (pendingStorage o) (dirtyStorage o) (fakeStorage o) dirty (suicided o) (deleted o).
Definition with_storage o (origin pending dirty : Storage) : stateObject T :=
  mkObject _ (o_address o) (o_addrHash o) (o_data o) (o_dbErr o) (o_trie o) (o_code o) origin
    pending dirty (fakeStorage o) (dirtyCode o) (suicided o) (deleted o).
Definition with_fake o (f : option Storage) : stateObject T :=
  mkObject _ (o_address o) (o_addrHash o) (o_data o) (o_dbErr o) (o_trie o) (o_code o) (originStorage o)
    (pendingStorage o) (dirtyStorage o) f (dirtyCode o) (suicided o) (deleted o).
Definition with_flags o (suicided deleted : bool) : stateObject T :=
  mkObject _ (o_address o) (o_addrHash o) (o_data o) (o_dbErr o) (o_trie o) (o_code o) (originStorage o)
    (pendingStorage o) (dirtyStorage o) (fakeStorage o) (dirtyCode o) suicided deleted.

Definition with_db s d : StateDB D T :=
  mkStateDB _ _ d (trie s) (stateObjects s) (stateObjectsPending s) (stateObjectsDirty s) (dbErr s) (refund s)
    (thash s) (bhash s) (txIndex s) (logs s) (logSize s) (preimages s) (journal_ s) (validRevisions s) (nextRevisionId s).
Definition with_trie s t : StateDB D T :=
  mkStateDB _ _ (db s) t (stateObjects s) (stateObjectsPending s) (stateObjectsDirty s) (dbErr s) (refund s)
    (thash s) (bhash s) (txIndex s) (logs s) (logSize s) (preimages s) (journal_ s) (validRevisions s) (nextRevisionId s).
Definition with_objects s m (pending dirty : gset Address) : StateDB D T :=
  mkStateDB _ _ (db s) (trie s) m pending dirty (dbErr s) (refund s)
    (thash s) (bhash s) (txIndex s) (logs s) (logSize s) (preimages s) (journal_ s) (validRevisions s) (nextRevisionId s).
Definition with_dbErr s e : StateDB D T :=
  mkStateDB _ _ (db s) (trie s) (stateObjects s) (stateObjectsPending s) (stateObjectsDirty s) e (refund s)
    (thash s) (bhash s) (txIndex s) (logs s) (logSize s) (preimages s) (journal_ s) (validRevisions s) (nextRevisionId s).
Definition with_refund s g : StateDB D T :=
  mkStateDB _ _ (db s) (trie s) (stateObjects s) (stateObjectsPending s) (stateObjectsDirty s) (dbErr s) g
    (thash s) (bhash s) (txIndex s) (logs s) (logSize s) (preimages s) (journal_ s) (validRevisions s) (nextRevisionId s).
Definition with_tx s th bh ti : StateDB D T :=
  mkStateDB _ _ (db s) (trie s) (stateObjects s) (stateObjectsPending s) (stateObjectsDirty s) (dbErr s) (refund s)
    th bh ti (logs s) (logSize s) (preimages s) (journal_ s) (validRevisions s) (nextRevisionId s).
Definition with_logs s l n : StateDB D T :=
  mkStateDB _ _ (db s) (trie s) (stateObjects s) (stateObjectsPending s) (stateObjectsDirty s) (dbErr s) (refund s)
    (thash s) (bhash s) (txIndex s) l n (preimages s) (journal_ s) (validRevisions s) (nextRevisionId s).
Definition with_preimages s p : StateDB D T :=
  mkStateDB _ _ (db s) (trie s) (stateObjects s) (stateObjectsPending s) (stateObjectsDirty s) (dbErr s) (refund s)
    (thash s) (bhash s) (txIndex s) (logs s) (logSize s) p (journal_ s) (validRevisions s) (nextRevisionId s).
Definition with_journal s j : StateDB D T :=
  mkStateDB _ _ (db s) (trie s) (stateObjects s) (stateObjectsPending s) (stateObjectsDirty s) (dbErr s) (refund s)
    (thash s) (bhash s) (txIndex s) (logs s) (logSize s) (preimages s) j (validRevisions s) (nextRevisionId s).
Definition with_revisions s r n : StateDB D T :=
  mkStateDB _ _ (db s) (trie s) (stateObjects s) (stateObjectsPending s) (stateObjectsDirty s) (dbErr s) (refund s)
    (thash s) (bhash s) (txIndex s) (logs s) (logSize s) (preimages s) (journal_ s) r n.
End Updates.

(** ** Byte helpers *)

(** common.TrimLeftZeroes (common/bytes.go). *)
Fixpoint TrimLeftZeroes (s : bytes) : bytes :=
  match s with
  | [] => []
  | b :: s' => if Z_of_byte b =? 0 then TrimLeftZeroes s' else s
  end.

(** The RLP form of an [Account]. *)
Definition accountTyp : typ := TStruct [TUint 64; TBig; TByteArray 32; TBytes] None.
Definition accountVal (x : Account) : val :=
  VList [VUint (Nonce x); VBig (Balance x); VBytes (be_bytes 32 (Root x)); VBytes (bytes_of (CodeHash x))].

Definition encodeAccount (x : Account) : encErr + bytes := EncodeToBytes accountTyp (accountVal x).

(** The decoder runs on more fuel than it has bytes, which is enough. *)
Definition decodeAccount (enc : bytes) : option Account :=
  match DecodeBytes (S (length enc)) accountTyp enc with
  | Done (inr (VList [VUint n; VBig b; VBytes r; VBytes c])) => Some (mkAccount n b (BytesToHash r) (of_bytes c))
  | _ => None
  end.

Definition emptyRoot : Hash := 0x56e81f171bcc55a6ff8345e692c0f86e5b48e01b996cadc001622fb5e363b421.
Definition ripemd : Address := 3.

(** ** Journal bookkeeping (journal.go) *)

Section Journal.
Context {T : Type}.

Definition dirtied (e : journalEntry T) : option Address :=
  match e with
  | createObjectChange a | suicideChange a _ _ | touchChange a | balanceChange a _ | nonceChange a _
  | codeChange a _ _ | storageChange a _ _ => Some a
  | resetObjectChange _ | refundChange _ | addLogChange _ | addPreimageChange _ => None
  end.

Definition newJournal : journal T := mkJournal _ [] ∅.

Definition dirty (j : journal T) (a : Address) : journal T :=
  mkJournal _ (entries j) (<[a := default 0 (dirties j !! a) + 1]> (dirties j)).

Definition append (j : journal T) (e : journalEntry T) : journal T :=
  let j := mkJournal _ (e :: entries j) (dirties j) in
  match dirtied e with Some a => dirty j a | None => j end.

(** The dirty counter of an entry that is undone. *)
Definition undirty (j : journal T) (e : journalEntry T) : journal T :=
  match dirtied e with
  | Some a =>
      let n := default 0 (dirties j !! a) - 1 in
      mkJournal _ (entries j) (if n =? 0 then delete a (dirties j) else <[a := n]> (dirties j))
  | None => j
  end.

Definition journal_length (j : journal T) : Z := zlen (entries j).
End Journal.

(** ** Methods of state objects (state_object.go) *)

Module SO.
Section Methods.
Context {D T : Type} `{Store D T}.
(** crypto.Keccak256Hash *)
Variable keccak : bytes -> Hash.
Implicit Types (s : StateDB D T) (o : stateObject T) (d : D).

Definition emptyCodeHash : hashBytes := HashBytes (keccak []).

Definition empty o : bool :=
  (Nonce (o_data o) =? 0) && (Balance (o_data o) =? 0) && bool_decide (CodeHash (o_data o) = emptyCodeHash).

(** The argument [None] is the zero value [Account{}], whose nil balance and
    code hash are replaced; no other account has them nil. *)
Definition newObject (address : Address) (data : option Account) : stateObject T :=
  let x := match data with Some x => x | None => mkAccount 0 0 0 emptyCodeHash end in
  let x := if Root x =? 0 then mkAccount (Nonce x) (Balance x) emptyRoot (CodeHash x) else x in
  mkObject _ address (keccak (be_bytes 20 address)) x None None None ∅ ∅ ∅ None false false false.

Definition setError o (err : option dbError) : stateObject T :=
  match o_dbErr o with None => with_o_dbErr o err | Some _ => o end.

Definition markSuicided o : stateObject T := with_flags o true (deleted o).

(** The method of the StateDB that stores an object in the live set. *)
Definition setStateObject s o : StateDB D T :=
  with_objects s (<[o_address o := o]> (stateObjects s)) (stateObjectsPending s) (stateObjectsDirty s).

Definition journal_append s (e : journalEntry T) : StateDB D T := with_journal s (append (journal_ s) e).

Definition touch s o : StateDB D T :=
  let s := journal_append s (touchChange (o_address o)) in
  if o_address o =? ripemd then with_journal s (dirty (journal_ s) (o_address o)) else s.

Definition getTrie d o : stateObject T * T :=
  match o_trie o with
  | Some t => (o, t)
  | None =>
      match OpenStorageTrie d (o_addrHash o) (Root (o_data o)) with
      | (t, None) => (with_o_trie o (Some t), t)
      | (_, Some err) =>
          let t := fst (OpenStorageTrie d (o_addrHash o) 0) in
          (setError (with_o_trie o (Some t)) (Some (ErrStorageTrie err)), t)
      end
  end.

Definition GetCommittedState d o (key : Hash) : stateObject T * Hash :=
  match fakeStorage o with
  | Some f => (o, default 0 (f !! key))
  | None =>
  match pendingStorage o !! key with
  | Some value => (o, value)
  | None =>
  match originStorage o !! key with
  | Some value => (o, value)
  | None =>
      let '(o, t) := getTrie d o in
      let '(t, (enc, err)) := TryGet t key in
      let o := with_o_trie o (Some t) in
      match err with
      | Some e => (setError o (Some e), 0)
      | None =>
          let '(o, value) :=
            if (0 <? length enc)%nat then
              match Raw.Split enc with
              | inr (_, content, _) => (o, BytesToHash content)
              | inl e => (setError o (Some (ErrRlp e)), BytesToHash [])
              end
            else (o, 0) in
          (with_storage o (<[key := value]> (originStorage o)) (pendingStorage o) (dirtyStorage o), value)
      end
  end end end.

Definition GetState d o (key : Hash) : stateObject T * Hash :=
  match fakeStorage o with
  | Some f => (o, default 0 (f !! key))
  | None =>
      match dirtyStorage o !! key with
      | Some value => (o, value)
      | None => GetCommittedState d o key
      end
  end.

Definition setState o (key value : Hash) : stateObject T :=
  with_storage o (originStorage o) (pendingStorage o) (<[key := value]> (dirtyStorage o)).

Definition SetState s o (key value : Hash) : StateDB D T :=
  match fakeStorage o with
  | Some f => setStateObject s (with_fake o (Some (<[key := value]> f)))
  | None =>
      let '(o, prev) := GetState (db s) o key in
      if prev =? value then setStateObject s o
      else
        let s := journal_append s (storageChange (o_address o) key prev) in
        setStateObject s (setState o key value)
  end.

Definition SetStorage o (storage : Storage) : stateObject T :=
  let f := default ∅ (fakeStorage o) in
  with_fake o (Some (storage ∪ f)).

Definition finalise o : stateObject T :=
  with_storage o (originStorage o) (dirtyStorage o ∪ pendingStorage o) ∅.

(** One iteration of the loop of updateTrie; [tr] is the object's trie. *)
Definition updateSlot (ot : stateObject T * T) (kv : Hash * Hash) : stateObject T * T :=
  let '(o, tr) := ot in
  let '(key, value) := kv in
  if value =? default 0 (originStorage o !! key) then (o, tr)
  else
    let o := with_storage o (<[key := value]> (originStorage o)) (pendingStorage o) (dirtyStorage o) in
    if value =? 0 then
      let '(tr, err) := TryDelete tr key in (setError o err, tr)
    else
      match EncodeToBytes TBytes (VBytes (TrimLeftZeroes (be_bytes 32 value))) with
      | inr v => let '(tr, err) := TryUpdate tr key v in (setError o err, tr)
      | inl _ => let '(tr, err) := TryUpdate tr key [] in (setError o err, tr)
      end.

(** The order in which Go visits a map is not determined: [ks] is that order. *)
Definition updateTrie_in (ks : list (Hash * Hash)) d o : stateObject T :=
  let o := finalise o in
  let '(o, tr) := getTrie d o in
  let '(o, tr) := foldl updateSlot (o, tr) ks in
  with_storage (with_o_trie o (Some tr)) (originStorage o) ∅ (dirtyStorage o).
Definition updateTrie d o : stateObject T := updateTrie_in (map_to_list (pendingStorage (finalise o))) d o.

Definition set_root o (r : Hash) : stateObject T :=
  with_data o (mkAccount (Nonce (o_data o)) (Balance (o_data o)) r (CodeHash (o_data o))).

(** After updateTrie the trie is open. *)
Definition updateRoot d o : outcome (stateObject T) :=
  let o := updateTrie d o in
  match o_trie o with
  | Some t => let '(t, r) := TrieHash t in Done (set_root (with_o_trie o (Some t)) r)
  | None => Panic NilPointer
  end.

Definition CommitTrie d o : outcome (D * stateObject T * option dbError) :=
  let o := updateTrie d o in
  match o_dbErr o with
  | Some e => Done (d, o, Some e)
  | None =>
      match o_trie o with
      | Some t =>
          let '(d, t, (root, err)) := TrieCommit d t in
          let o := with_o_trie o (Some t) in
          Done (d, match err with None => set_root o root | Some _ => o end, err)
      | None => Panic NilPointer
      end
  end.

Definition setBalance o (amount : Z) : stateObject T :=
  with_data o (mkAccount (Nonce (o_data o)) amount (Root (o_data o)) (CodeHash (o_data o))).

Definition SetBalance s o (amount : Z) : StateDB D T :=
  setStateObject (journal_append s (balanceChange (o_address o) (Balance (o_data o)))) (setBalance o amount).

Definition AddBalance s o (amount : Z) : StateDB D T :=
  if Z.sgn amount =? 0 then if empty o then touch s o else s
  else SetBalance s o (Balance (o_data o) + amount).

Definition SubBalance s o (amount : Z) : StateDB D T :=
  if Z.sgn amount =? 0 then s else SetBalance s o (Balance (o_data o) - amount).

Definition deepCopy o : stateObject T :=
  let n := newObject (o_address o) (Some (o_data o)) in
  mkObject _ (o_address n) (o_addrHash n) (o_data n) (o_dbErr n)
    (match o_trie o with Some t => Some (CopyTrie t) | None => None end)
    (o_code o) (originStorage o) (pendingStorage o) (dirtyStorage o) (fakeStorage n)
    (dirtyCode o) (suicided o) (deleted o).

Definition Code d o : stateObject T * option bytes :=
  match o_code o with
  | Some c => (o, Some c)
  | None =>
      if bool_decide (CodeHash (o_data o) = emptyCodeHash) then (o, None)
      else
        let h := hash_of (CodeHash (o_data o)) in
        let '(code, err) := ContractCode d (o_addrHash o) h in
        let o := match err with Some e => setError o (Some (ErrLoadCode h e)) | None => o end in
        (with_o_code o code (dirtyCode o), code)
  end.

Definition setCode o (codeHash : Hash) (code : option bytes) : stateObject T :=
  with_data (with_o_code o code true)
    (mkAccount (Nonce (o_data o)) (Balance (o_data o)) (Root (o_data o)) (HashBytes codeHash)).

Definition SetCode s o (codeHash : Hash) (code : option bytes) : StateDB D T :=
  let '(o, prevcode) := Code (db s) o in
  let s := journal_append s (codeChange (o_address o) prevcode (CodeHash (o_data o))) in
  setStateObject s (setCode o codeHash code).

Definition setNonce o (nonce : Z) : stateObject T :=
  with_data o (mkAccount nonce (Balance (o_data o)) (Root (o_data o)) (CodeHash (o_data o))).

Definition SetNonce s o (nonce : Z) : StateDB D T :=
  setStateObject (journal_append s (nonceChange (o_address o) (Nonce (o_data o)))) (setNonce o nonce).
End Methods.
End SO.

(** ** Methods of StateDB (statedb.go) *)

Module SDB.
Section Methods.
Context {D T : Type} `{Store D T}.
Variable keccak : bytes -> Hash.
Implicit Types (s : StateDB D T) (o : stateObject T) (a : Address).

Definition New (root : Hash) (d : D) : dbError + StateDB D T :=
  match OpenTrie d root with
  | (_, Some e) => inl e
  | (tr, None) => inr (mkStateDB _ _ d tr ∅ ∅ ∅ None 0 0 0 0 ∅ 0 ∅ newJournal [] 0)
  end.

Definition setError s (err : option dbError) : StateDB D T :=
  match dbErr s with None => with_dbErr s err | Some _ => s end.

Definition clearJournalAndRefund s : StateDB D T :=
  let s := if (0 <? length (entries (journal_ s)))%nat then with_refund (with_journal s newJournal) 0 else s in
  with_revisions s [] (nextRevisionId s).

Definition Reset s (root : Hash) : StateDB D T * option dbError :=
  match OpenTrie (db s) root with
  | (_, Some e) => (s, Some e)
  | (tr, None) =>
      let s := with_objects (with_trie s tr) ∅ ∅ ∅ in
      let s := with_tx s 0 0 0 in
      let s := with_preimages (with_logs s ∅ 0) ∅ in
      (clearJournalAndRefund s, None)
  end.

Definition Prepare s (th bh : Hash) (ti : Z) : StateDB D T := with_tx s th bh ti.

Definition AddLog s (log : Log) : StateDB D T :=
  let s := SO.journal_append s (addLogChange (thash s)) in
  let log := mkLog (log_Address log) (log_Topics log) (log_Data log) (log_BlockNumber log)
               (thash s) (u64 (txIndex s)) (bhash s) (logSize s) in
  with_logs s (<[thash s := default [] (logs s !! thash s) ++ [log]]> (logs s)) (u64 (logSize s + 1)).

Definition GetLogs s (h : Hash) : list Log := default [] (logs s !! h).

Definition AddPreimage s (hash : Hash) (preimage : bytes) : StateDB D T :=
  match preimages s !! hash with
  | Some _ => s
  | None =>
      let s := SO.journal_append s (addPreimageChange hash) in
      with_preimages s (<[hash := preimage]> (preimages s))
  end.

Definition AddRefund s (gas : Z) : StateDB D T :=
  let s := SO.journal_append s (refundChange (refund s)) in with_refund s (u64 (refund s + gas)).

Definition SubRefund s (gas : Z) : outcome (StateDB D T) :=
  let s := SO.journal_append s (refundChange (refund s)) in
  if refund s <? gas then Panic RefundBelowZero else Done (with_refund s (refund s - gas)).

(** *** Looking objects up: reading an account fills the live set *)

Definition getDeletedStateObject s a : StateDB D T * option (stateObject T) :=
  match stateObjects s !! a with
  | Some obj => (s, Some obj)
  | None =>
      let '(tr, (enc, err)) := TryGet (trie s) a in
      let s := with_trie s tr in
      if (length enc =? 0)%nat then (setError s err, None)
      else
        match decodeAccount enc with
        | None => (s, None)
        | Some data => let obj := SO.newObject keccak a (Some data) in (SO.setStateObject s obj, Some obj)
        end
  end.

Definition getStateObject s a : StateDB D T * option (stateObject T) :=
  match getDeletedStateObject s a with
  | (s, Some obj) => (s, if deleted obj then None else Some obj)
  | (s, None) => (s, None)
  end.

Definition createObject s a : StateDB D T * stateObject T * option (stateObject T) :=
  let '(s, prev) := getDeletedStateObject s a in
  let newobj := SO.setNonce (SO.newObject keccak a None) 0 in
  let s := SO.journal_append s
             (match prev with None => createObjectChange a | Some p => resetObjectChange p end) in
  (SO.setStateObject s newobj, newobj, prev).

Definition GetOrNewStateObject s a : StateDB D T * stateObject T :=
  match getStateObject s a with
  | (s, Some obj) => (s, obj)
  | (s, None) => let '(s, obj, _) := createObject s a in (s, obj)
  end.

Definition CreateAccount s a : StateDB D T :=
  let '(s, newObj, prev) := createObject s a in
  match prev with
  | Some p => SO.setStateObject s (SO.setBalance newObj (Balance (o_data p)))
  | None => s
  end.

(** *** Getters: the new state (with its caches) and the value *)

Definition Exist s a : StateDB D T * bool :=
  let '(s, so) := getStateObject s a in (s, bool_decide (is_Some so)).

Definition Empty s a : StateDB D T * bool :=
  let '(s, so) := getStateObject s a in
  (s, match so with Some o => SO.empty keccak o | None => true end).

Definition GetBalance s a : StateDB D T * Z :=
  let '(s, so) := getStateObject s a in
  (s, match so with Some o => Balance (o_data o) | None => 0 end).

Definition GetNonce s a : StateDB D T * Z :=
  let '(s, so) := getStateObject s a in
  (s, match so with Some o => Nonce (o_data o) | None => 0 end).

Definition GetCode s a : StateDB D T * option bytes :=
  match getStateObject s a with
  | (s, Some o) => let '(o, c) := SO.Code keccak (db s) o in (SO.setStateObject s o, c)
  | (s, None) => (s, None)
  end.

Definition GetCodeSize s a : StateDB D T * Z :=
  match getStateObject s a with
  | (s, None) => (s, 0)
  | (s, Some o) =>
      match o_code o with
      | Some c => (s, zlen c)
      | None =>
          let '(size, err) := ContractCodeSize (db s) (o_addrHash o) (hash_of (CodeHash (o_data o))) in
          (match err with Some e => setError s (Some e) | None => s end, size)
      end
  end.

Definition GetCodeHash s a : StateDB D T * Hash :=
  let '(s, so) := getStateObject s a in
  (s, match so with Some o => hash_of (CodeHash (o_data o)) | None => 0 end).

Definition GetState s a (key : Hash) : StateDB D T * Hash :=
  match getStateObject s a with
  | (s, Some o) => let '(o, v) := SO.GetState (db s) o key in (SO.setStateObject s o, v)
  | (s, None) => (s, 0)
  end.

Definition GetCommittedState s a (key : Hash) : StateDB D T * Hash :=
  match getStateObject s a with
  | (s, Some o) => let '(o, v) := SO.GetCommittedState (db s) o key in (SO.setStateObject s o, v)
  | (s, None) => (s, 0)
  end.

Definition HasSuicided s a : StateDB D T * bool :=
  let '(s, so) := getStateObject s a in (s, match so with Some o => suicided o | None => false end).

(** The copy of the object is updated, the object itself is not. *)
Definition StorageTrie s a : StateDB D T * option T :=
  let '(s, so) := getStateObject s a in
  (s, match so with Some o => o_trie (SO.updateTrie (db s) (SO.deepCopy keccak o)) | None => None end).

(** *** Setters *)

Definition AddBalance s a (amount : Z) : StateDB D T :=
  let '(s, o) := GetOrNewStateObject s a in SO.AddBalance keccak s o amount.
Definition SubBalance s a (amount : Z) : StateDB D T :=
  let '(s, o) := GetOrNewStateObject s a in SO.SubBalance s o amount.
Definition SetBalance s a (amount : Z) : StateDB D T :=
  let '(s, o) := GetOrNewStateObject s a in SO.SetBalance s o amount.
Definition SetNonce s a (nonce : Z) : StateDB D T :=
  let '(s, o) := GetOrNewStateObject s a in SO.SetNonce s o nonce.
Definition SetCode s a (code : option bytes) : StateDB D T :=
  let '(s, o) := GetOrNewStateObject s a in SO.SetCode keccak s o (keccak (default [] code)) code.
Definition SetState s a (key value : Hash) : StateDB D T :=
  let '(s, o) := GetOrNewStateObject s a in SO.SetState s o key value.
Definition SetStorage s a (storage : Storage) : StateDB D T :=
  let '(s, o) := GetOrNewStateObject s a in SO.setStateObject s (SO.SetStorage o storage).

Definition Suicide s a : StateDB D T * bool :=
  match getStateObject s a with
  | (s, None) => (s, false)
  | (s, Some o) =>
      let s := SO.journal_append s (suicideChange a (suicided o) (Balance (o_data o))) in
      (SO.setStateObject s (SO.setBalance (SO.markSuicided o) 0), true)
  end.

(** *** Snapshots (statedb.go) and undoing entries (journal.go) *)

(** An entry on an account dereferences its object. *)
Definition on_object s a (f : stateObject T -> stateObject T) : outcome (StateDB D T) :=
  match getStateObject s a with
  | (s, Some o) => Done (SO.setStateObject s (f o))
  | (s, None) => Panic NilPointer
  end.

Definition revert_entry (ch : journalEntry T) s : outcome (StateDB D T) :=
  match ch with
  | createObjectChange a =>
      Done (with_objects s (delete a (stateObjects s)) (stateObjectsPending s) (stateObjectsDirty s ∖ {[a]}))
  | resetObjectChange prev => Done (SO.setStateObject s prev)
  | suicideChange a prev prevbalance =>
      match getStateObject s a with
      | (s, Some o) => Done (SO.setStateObject s (SO.setBalance (with_flags o prev (deleted o)) prevbalance))
      | (s, None) => Done s
      end
  | touchChange _ => Done s
  | balanceChange a prev => on_object s a (fun o => SO.setBalance o prev)
  | nonceChange a prev => on_object s a (fun o => SO.setNonce o prev)
  | codeChange a prevcode prevhash => on_object s a (fun o => SO.setCode o (hash_of prevhash) prevcode)
  | storageChange a key prevalue => on_object s a (fun o => SO.setState o key prevalue)
  | refundChange prev => Done (with_refund s prev)
  | addLogChange txhash =>
      match default [] (logs s !! txhash) with
      | [] => Panic IndexOutOfRange
      | [_] => Done (with_logs s (delete txhash (logs s)) (u64 (logSize s - 1)))
      | ls => Done (with_logs s (<[txhash := take (length ls - 1) ls]> (logs s)) (u64 (logSize s - 1)))
      end
  | addPreimageChange hash => Done (with_preimages s (delete hash (preimages s)))
  end.

(** The loop of journal.revert over the entries to undo, newest first. *)
Fixpoint revert_loop (es : list (journalEntry T)) s : outcome (StateDB D T) :=
  match es with
  | [] => Done s
  | e :: es =>
      let! s := revert_entry e s in
      revert_loop es (with_journal s (undirty (journal_ s) e))
  end.

Definition journal_revert s (snapshot : Z) : outcome (StateDB D T) :=
  let es := entries (journal_ s) in
  let n := Z.to_nat (zlen es - snapshot) in
  let! s := revert_loop (take n es) s in
  Done (with_journal s (mkJournal _ (drop n es) (dirties (journal_ s)))).

Definition Snapshot s : StateDB D T * Z :=
  let id := nextRevisionId s in
  (with_revisions s (validRevisions s ++ [mkRevision id (journal_length (journal_ s))]) (id + 1), id).

Definition RevertToSnapshot s (revid : Z) : outcome (StateDB D T) :=
  let revs := validRevisions s in
  let idx := sort_Search (zlen revs)
               (fun i => match revs !! Z.to_nat i with Some r => revid <=? rev_id r | None => true end) in
  match revs !! Z.to_nat idx with
  | Some r =>
      if rev_id r =? revid then
        let! s := journal_revert s (journalIndex r) in
        Done (with_revisions s (take (Z.to_nat idx) (validRevisions s)) (nextRevisionId s))
      else Panic InvalidRevision
  | None => Panic InvalidRevision
  end.

(** *** The end of a transaction *)

Definition finalise_account (deleteEmptyObjects : bool) s a : StateDB D T :=
  match stateObjects s !! a with
  | None => s
  | Some obj =>
      let obj := if suicided obj || (deleteEmptyObjects && SO.empty keccak obj)
                 then with_flags obj (suicided obj) true else SO.finalise obj in
      with_objects s (<[a := obj]> (stateObjects s)) ({[a]} ∪ stateObjectsPending s) ({[a]} ∪ stateObjectsDirty s)
  end.

(** Go visits maps and sets in an order of its own; here it is the order of
    [elements]. *)
Definition Finalise s (deleteEmptyObjects : bool) : StateDB D T :=
  clearJournalAndRefund
    (foldl (finalise_account deleteEmptyObjects) s (elements (dom (dirties (journal_ s))))).

(** *** Writing to the tries *)

Definition updateStateObject s o : outcome (StateDB D T) :=
  match encodeAccount (o_data o) with
  | inl _ => Panic CannotEncode
  | inr data => let '(tr, err) := TryUpdate (trie s) (o_address o) data in Done (setError (with_trie s tr) err)
  end.

Definition deleteStateObject s o : StateDB D T :=
  let '(tr, err) := TryDelete (trie s) (o_address o) in setError (with_trie s tr) err.

Definition write_account s a : outcome (StateDB D T) :=
  match stateObjects s !! a with
  | None => Panic NilPointer
  | Some obj =>
      if deleted obj then Done (deleteStateObject s obj)
      else
        let! obj := SO.updateRoot (db s) obj in
        updateStateObject (SO.setStateObject s obj) obj
  end.

Fixpoint write_accounts s (l : list Address) : outcome (StateDB D T) :=
  match l with
  | [] => Done s
  | a :: l => let! s := write_account s a in write_accounts s l
  end.

Definition IntermediateRoot s (deleteEmptyObjects : bool) : outcome (StateDB D T * Hash) :=
  let s := Finalise s deleteEmptyObjects in
  let! s := write_accounts s (elements (stateObjectsPending s)) in
  let s := with_objects s (stateObjects s) ∅ (stateObjectsDirty s) in
  let '(tr, h) := TrieHash (trie s) in
  Done (with_trie s tr, h).

(** One iteration of the loop of Commit; an error ends the loop. *)
Definition commit_account s a : outcome (StateDB D T * option dbError) :=
  match stateObjects s !! a with
  | None => Panic NilPointer
  | Some obj =>
      if deleted obj then Done (s, None)
      else
        let '(s, obj) :=
          match o_code obj with
          | Some code =>
              if dirtyCode obj then
                (with_db s (InsertBlob (db s) (hash_of (CodeHash (o_data obj))) code),
                 with_o_code obj (Some code) false)
              else (s, obj)
          | None => (s, obj)
          end in
        let! '(d, obj, err) := SO.CommitTrie (db s) obj in
        Done (SO.setStateObject (with_db s d) obj, err)
  end.

Fixpoint commit_accounts s (l : list Address) : outcome (StateDB D T * option dbError) :=
  match l with
  | [] => Done (s, None)
  | a :: l =>
      let! '(s, err) := commit_account s a in
      match err with Some e => Done (s, Some e) | None => commit_accounts s l end
  end.

(** The leaf callback of the account trie's commit only adds references
    between nodes of the node database. *)
Definition Commit s (deleteEmptyObjects : bool) : outcome (StateDB D T * (Hash * option dbError)) :=
  let! '(s, _) := IntermediateRoot s deleteEmptyObjects in
  let! '(s, err) := commit_accounts s (elements (stateObjectsDirty s)) in
  match err with
  | Some e => Done (s, (0, Some e))
  | None =>
      let s := with_objects s (stateObjects s) (stateObjectsPending s) ∅ in
      let '(d, tr, r) := TrieCommit (db s) (trie s) in
      Done (with_db (with_trie s tr) d, r)
  end.

(** *** Copies *)

Definition copy_dirty s (st : StateDB D T) a : StateDB D T :=
  match stateObjects s !! a with
  | Some o =>
      with_objects st (<[a := SO.deepCopy keccak o]> (stateObjects st))
        ({[a]} ∪ stateObjectsPending st) ({[a]} ∪ stateObjectsDirty st)
  | None => st
  end.

(** The loops over the pending and the dirty set copy the objects that are not
    copied yet; a missing object is a nil dereference. *)
Definition copy_object s (m : gmap Address (stateObject T)) a : outcome (gmap Address (stateObject T)) :=
  match m !! a with
  | Some _ => Done m
  | None =>
      match stateObjects s !! a with
      | Some o => Done (<[a := SO.deepCopy keccak o]> m)
      | None => Panic NilPointer
      end
  end.

Fixpoint copy_objects s (m : gmap Address (stateObject T)) (l : list Address)
    : outcome (gmap Address (stateObject T)) :=
  match l with
  | [] => Done m
  | a :: l => let! m := copy_object s m a in copy_objects s m l
  end.

Definition Copy s : outcome (StateDB D T) :=
  let st := mkStateDB _ _ (db s) (CopyTrie (trie s)) ∅ ∅ ∅ None (refund s) 0 0 0 ∅ (logSize s) ∅ newJournal [] 0 in
  let st := foldl (copy_dirty s) st (elements (dom (dirties (journal_ s)))) in
  let! m := copy_objects s (stateObjects st) (elements (stateObjectsPending s)) in
  let! m := copy_objects s m (elements (stateObjectsDirty s)) in
  let st := with_objects st m (stateObjectsPending s ∪ stateObjectsPending st)
              (stateObjectsDirty s ∪ stateObjectsDirty st) in
  Done (with_preimages (with_logs st (logs s) (logSize st)) (preimages s)).
End Methods.
End SDB.

(** ** The state database as the interpreter's vm.StateDB
    The getters return values only; their effect on the caches is not
    observable (StateView.v). *)
#[export] Instance StateDB_vm {D T : Type} `{Store D T} (keccak : bytes -> Hash) : vmStateDB (StateDB D T) := {|
  VmEnv.CreateAccount s a := SDB.CreateAccount keccak s a;
  VmEnv.SubBalance s a v := SDB.SubBalance keccak s a v;
  VmEnv.AddBalance s a v := SDB.AddBalance keccak s a v;
  VmEnv.GetBalance s a := snd (SDB.GetBalance keccak s a);
  VmEnv.GetNonce s a := snd (SDB.GetNonce keccak s a);
  VmEnv.SetNonce s a n := SDB.SetNonce keccak s a n;
  VmEnv.GetCodeHash s a := snd (SDB.GetCodeHash keccak s a);
  VmEnv.GetCode s a := default [] (snd (SDB.GetCode keccak s a));
  VmEnv.SetCode s a c := SDB.SetCode keccak s a (Some c);
  VmEnv.GetCodeSize s a := snd (SDB.GetCodeSize keccak s a);
  VmEnv.AddRefund s g := SDB.AddRefund s g;
  VmEnv.SubRefund s g := SDB.SubRefund s g;
  VmEnv.GetRefund s := refund s;
  VmEnv.GetCommittedState s a k := snd (SDB.GetCommittedState keccak s a k);
  VmEnv.GetState s a k := snd (SDB.GetState keccak s a k);
  VmEnv.SetState s a k v := SDB.SetState keccak s a k v;
  VmEnv.Suicide s a := SDB.Suicide keccak s a;
  VmEnv.HasSuicided s a := snd (SDB.HasSuicided keccak s a);
  VmEnv.Exist s a := snd (SDB.Exist keccak s a);
  VmEnv.Empty s a := snd (SDB.Empty keccak s a);
  VmEnv.RevertToSnapshot s id := SDB.RevertToSnapshot keccak s id;
  VmEnv.Snapshot s := SDB.Snapshot s;
  VmEnv.AddLog s l := SDB.AddLog s l;
  VmEnv.AddPreimage s h p := SDB.AddPreimage s h p |}.
