(* ===== verification/StateView.v ===== *)
(** * core/state: what a state shows
    The value every getter of an object or of the state returns, as functions
    that do not move the caches; states and objects that show the same values
    ([same], [agree]) are equivalent, reads lead to equivalent states, and undoing
    journal entries respects the equivalence.  [extends s s']: the entries that
    [s'] added to the journal of [s] undo it back to a state equivalent to [s];
    every modification of the state is shown to extend it. *)

From S2P Require Import Prelude MathUtil VmBase VmEnv Rlp RlpStream RlpRaw StateDB.

(** ** What the state database relies on for reading
    [peek] is the content of a trie; reading resolves nodes but does not change
    the content.  Nothing is assumed of a read that fails. *)
Class StoreReads (keccak : bytes -> Hash) (D T : Type) `{Store D T} := {
  peek : T -> Z -> bytes * option dbError;
  TryGet_peek t k : snd (TryGet t k) = peek t k;
  peek_TryGet t k k' : peek (fst (TryGet t k)) k' = peek t k';
  OpenStorageTrie_empty d h :
    exists t, OpenStorageTrie d h emptyRoot = (t, None) /\ forall k, peek t k = ([], None);
  ContractCodeSize_len d h c : fst (ContractCodeSize d h c) = zlen (default [] (fst (ContractCode d h c)));
  ContractCode_empty d h : default [] (fst (ContractCode d h (keccak []))) = [] }.

#[local] Arguments be_bytes : simpl never.

Section View.
Context {keccak : bytes -> Hash} {D T : Type} `{StoreReads keccak D T}.
Implicit Types (s t : StateDB D T) (o p : stateObject T) (a : Address) (d : D).

(** ** Objects *)

Definition trie_of d o : T :=
  match o_trie o with
  | Some t => t
  | None =>
      match OpenStorageTrie d (o_addrHash o) (Root (o_data o)) with
      | (t, None) => t
      | (_, Some _) => fst (OpenStorageTrie d (o_addrHash o) 0)
      end
  end.

Definition slot_value (enc : bytes) : Hash :=
  if (0 <? length enc)%nat then
    match Raw.Split enc with inr (_, content, _) => BytesToHash content | inl _ => 0 end
  else 0.

Definition stored (t : T) (k : Hash) : Hash :=
  match peek t k with (_, Some _) => 0 | (enc, None) => slot_value enc end.

Definition committed_of d o (k : Hash) : Hash :=
  match fakeStorage o with
  | Some f => default 0 (f !! k)
  | None =>
      match pendingStorage o !! k with
      | Some v => v
      | None => match originStorage o !! k with Some v => v | None => stored (trie_of d o) k end
      end
  end.

Definition state_of d o (k : Hash) : Hash :=
  match fakeStorage o with
  | Some f => default 0 (f !! k)
  | None => match dirtyStorage o !! k with Some v => v | None => committed_of d o k end
  end.

Definition code_of d o : option bytes :=
  match o_code o with
  | Some c => Some c
  | None =>
      if bool_decide (CodeHash (o_data o) = SO.emptyCodeHash keccak) then None
      else fst (ContractCode d (o_addrHash o) (hash_of (CodeHash (o_data o))))
  end.

(** Objects that no getter tells apart. *)
Record same d o p : Prop := mkSame {
  same_address : o_address o = o_address p;
  same_addrHash : o_addrHash o = o_addrHash p;
  same_Nonce : Nonce (o_data o) = Nonce (o_data p);
  same_Balance : Balance (o_data o) = Balance (o_data p);
  same_CodeHash : CodeHash (o_data o) = CodeHash (o_data p);
  same_fake : fakeStorage o = fakeStorage p;
  same_suicided : suicided o = suicided p;
  same_deleted : deleted o = deleted p;
  same_code : code_of d o = code_of d p;
  same_committed k : committed_of d o k = committed_of d p k;
  same_state k : state_of d o k = state_of d p k }.

#[export] Instance same_equiv d : Equivalence (same d).
Proof.
  split.
  - intros o. by split.
  - intros o p []. split; intros; symmetry; auto.
  - intros o p q [] []. split; intros; etrans; eauto.
Qed.

(** ** Reading an object leads to an equivalent one *)

Lemma getTrie_trie_of d o : snd (SO.getTrie d o) = trie_of d o /\ o_trie (fst (SO.getTrie d o)) = Some (trie_of d o).
Proof.
  unfold SO.getTrie, trie_of. destruct (o_trie o) as [t|] eqn:Ht; [done|].
  destruct (OpenStorageTrie d (o_addrHash o) (Root (o_data o))) as [t [e|]]; [|done].
  simpl. split; [done|]. unfold SO.setError. by destruct (o_dbErr _).
Qed.

(** An object that differs in its error and in a trie with the same content. *)
Lemma same_cache d o p :
  o_address p = o_address o -> o_addrHash p = o_addrHash o -> o_data p = o_data o ->
  o_code p = o_code o \/ o_code o = None /\ o_code p = code_of d o ->
  (forall k, stored (trie_of d p) k = stored (trie_of d o) k) ->
  (forall k, originStorage p !! k = originStorage o !! k \/
             originStorage o !! k = None /\ pendingStorage o !! k = None /\
             originStorage p !! k = Some (stored (trie_of d o) k)) ->
  pendingStorage p = pendingStorage o -> dirtyStorage p = dirtyStorage o -> fakeStorage p = fakeStorage o ->
  suicided p = suicided o -> deleted p = deleted o -> same d o p.
Proof.
  intros Ha Hh Hd Hc Ht Ho Hp Hdi Hf Hs Hdel.
  assert (forall k, committed_of d o k = committed_of d p k) as Hcm.
  { intros k. unfold committed_of. rewrite Hf, Hp. destruct (fakeStorage o); [done|].
    destruct (pendingStorage o !! k) eqn:Hpk; [done|].
    destruct (Ho k) as [->|(-> & _ & ->)]; [|done].
    destruct (originStorage o !! k); [done|]. by rewrite Ht. }
  split; try congruence.
  - unfold code_of. rewrite Hd, Hh. destruct Hc as [->|[Hn Hc]]; [done|]. rewrite Hc, Hn.
    unfold code_of. rewrite Hn. destruct (bool_decide _); [done|]. by destruct (fst _).
  - intros k. unfold state_of. rewrite Hf, Hdi. destruct (fakeStorage o); [done|].
    by destruct (dirtyStorage o !! k).
Qed.

(** Opening the trie and reading through it. *)
Lemma getTrie_fields d o :
  let p := fst (SO.getTrie d o) in
  o_address p = o_address o /\ o_addrHash p = o_addrHash o /\ o_data p = o_data o /\ o_code p = o_code o /\
  originStorage p = originStorage o /\ pendingStorage p = pendingStorage o /\ dirtyStorage p = dirtyStorage o /\
  fakeStorage p = fakeStorage o /\ suicided p = suicided o /\ deleted p = deleted o.
Proof.
  unfold SO.getTrie. destruct (o_trie o); [done|].
  destruct (OpenStorageTrie _ _ _) as [t [e|]]; [|done]. simpl. unfold SO.setError. by destruct (o_dbErr _).
Qed.

Lemma GetCommittedState_same d o k :
  snd (SO.GetCommittedState d o k) = committed_of d o k /\ same d o (fst (SO.GetCommittedState d o k)).
Proof.
  unfold SO.GetCommittedState, committed_of.
  destruct (fakeStorage o) eqn:Hf; [done|]. destruct (pendingStorage o !! k) eqn:Hp; [done|].
  destruct (originStorage o !! k) eqn:Ho; [done|].
  destruct (getTrie_trie_of d o) as [Ht _]. pose proof (getTrie_fields d o) as Hg. cbv zeta in Hg.
  destruct (SO.getTrie d o) as [q t]. cbn in Ht, Hg. subst t.
  destruct Hg as (?&?&?&?&?&?&?&?&?&?).
  pose proof (TryGet_peek (trie_of d o) k) as Hk. pose proof (peek_TryGet (trie_of d o) k) as Hk'.
  destruct (TryGet (trie_of d o) k) as [t [enc err]]. simpl in Hk, Hk'. symmetry in Hk.
  assert (stored (trie_of d o) k = match err with Some _ => 0 | None => slot_value enc end) as Hst
    by (unfold stored; by rewrite Hk).
  assert (forall k', stored t k' = stored (trie_of d o) k') as Hst' by (intros; unfold stored; by rewrite Hk').
  destruct err as [e|].
  - split; [done|]. unfold SO.setError. apply same_cache; simpl; destruct (o_dbErr _); simpl; auto; try congruence; left; congruence.
  - assert (forall r : stateObject T, r = with_o_trie q (Some t) \/ (exists e, r = with_o_dbErr (with_o_trie q (Some t)) e) ->
      same d o (with_storage r (<[k := slot_value enc]> (originStorage r)) (pendingStorage r) (dirtyStorage r))) as Hsame.
    { intros r Hr. apply same_cache; destruct Hr as [->|[e ->]]; simpl; auto; try congruence;
        intros k'; (destruct (decide (k' = k)) as [->|]; [right|left]);
        simplify_map_eq; rewrite ?Hst; auto; congruence. }
    match goal with |- context [let '(_, _) := ?x in _] =>
      assert (exists r, (r = with_o_trie q (Some t) \/ (exists e, r = with_o_dbErr (with_o_trie q (Some t)) e)) /\
              x = (r, slot_value enc)) as (r & Hr & ->) end; [|simpl; split; [congruence|by apply Hsame]].
    unfold slot_value. destruct (0 <? length enc)%nat; [|by eauto].
    destruct (Raw.Split enc) as [e|[[? content] ?]]; [|by eauto].
    unfold SO.setError. destruct (o_dbErr _); eauto.
Qed.

Lemma GetState_same d o k :
  snd (SO.GetState d o k) = state_of d o k /\ same d o (fst (SO.GetState d o k)).
Proof.
  unfold SO.GetState, state_of. destruct (fakeStorage o) eqn:Hf; [done|].
  destruct (dirtyStorage o !! k); [done|]. apply GetCommittedState_same.
Qed.

Lemma Code_same d o : snd (SO.Code keccak d o) = code_of d o /\ same d o (fst (SO.Code keccak d o)).
Proof.
  unfold SO.Code, code_of. destruct (o_code o) eqn:Hc; [done|]. destruct (bool_decide _) eqn:Hb; [done|].
  destruct (ContractCode _ _ _) as [c err] eqn:He. simpl. split; [done|].
  assert (forall r, (r = o \/ exists e, r = with_o_dbErr o e) -> same d o (with_o_code r c (dirtyCode r))) as Hr.
  { intros r Hr. apply same_cache; destruct Hr as [->|[e ->]]; simpl; auto; right; split; try done;
      unfold code_of; by rewrite Hc, Hb, He. }
  apply Hr. destruct err; [|by left]. unfold SO.setError. destruct (o_dbErr o); eauto.
Qed.

(** ** Updates respect the equivalence *)

Lemma same_data d o p x y :
  same d o p -> Nonce x = Nonce y -> Balance x = Balance y -> CodeHash x = CodeHash y ->
  CodeHash x = CodeHash (o_data o) -> Root x = Root (o_data o) -> Root y = Root (o_data p) ->
  same d (with_data o x) (with_data p y).
Proof.
  intros [] Hn Hb Hc Hc' Hr Hr'.
  assert (forall q z, CodeHash z = CodeHash (o_data q) -> code_of d (with_data q z) = code_of d q) as Hcode
    by (intros q z Hz; unfold code_of; cbn [o_code with_data o_data o_addrHash]; by rewrite Hz).
  assert (forall q z, Root z = Root (o_data q) -> trie_of d (with_data q z) = trie_of d q) as Ht
    by (intros q z Hz; unfold trie_of; simpl; by rewrite Hz).
  split; simpl; auto.
  - rewrite !Hcode; congruence.
  - intros k. unfold committed_of; simpl. rewrite !Ht by done. by apply same_committed0.
  - intros k. unfold state_of, committed_of; simpl. rewrite !Ht by done. by apply same_state0.
Qed.

Lemma same_setBalance d o p v : same d o p -> same d (SO.setBalance o v) (SO.setBalance p v).
Proof. intros Hs. pose proof Hs as []. apply same_data; simpl; auto; congruence. Qed.

Lemma same_setNonce d o p v : same d o p -> same d (SO.setNonce o v) (SO.setNonce p v).
Proof. intros Hs. pose proof Hs as []. apply same_data; simpl; auto; congruence. Qed.

Lemma same_flags d o p b c : same d o p -> same d (with_flags o b c) (with_flags p b c).
Proof. intros []. by split. Qed.

(** The storage an object shows does not depend on its code or account data,
    but for the root of a trie that is still closed. *)
Lemma same_setCode d o p h c : same d o p -> same d (SO.setCode o h c) (SO.setCode p h c).
Proof.
  intros []. split; simpl; auto.
  unfold code_of, SO.setCode. cbn [o_code with_data with_o_code o_data o_addrHash CodeHash].
  destruct c; [reflexivity|]. by rewrite same_addrHash0.
Qed.

Lemma same_setState d o p k v : same d o p -> same d (SO.setState o k v) (SO.setState p k v).
Proof.
  intros []. split; simpl; auto. intros k'. unfold state_of; simpl. rewrite same_fake0.
  destruct (fakeStorage p) eqn:Hf; [done|]. destruct (decide (k' = k)) as [->|].
  - by simplify_map_eq.
  - rewrite !lookup_insert_ne by done.
    pose proof (same_state0 k') as Hs. unfold state_of in Hs. by rewrite same_fake0, Hf in Hs.
Qed.

(** Writing back the value an object shows changes nothing. *)
Lemma setState_id d o k v k' : fakeStorage o = None ->
  state_of d (SO.setState o k v) k' = if decide (k' = k) then v else state_of d o k'.
Proof.
  intros Hf. unfold state_of; simpl. rewrite Hf. destruct (decide _) as [->|]; by simplify_map_eq.
Qed.

(** ** States *)

(** The object getDeletedStateObject returns. *)
Definition from_trie (t : T) a : option (stateObject T) :=
  let enc := fst (peek t a) in
  if (length enc =? 0)%nat then None
  else match decodeAccount enc with Some x => Some (SO.newObject keccak a (Some x)) | None => None end.

Definition load s a : option (stateObject T) :=
  match stateObjects s !! a with Some o => Some o | None => from_trie (trie s) a end.

Definition live s a : option (stateObject T) :=
  match load s a with Some o => if deleted o then None else Some o | None => None end.

Definition logs_of s (h : Hash) : list Log := default [] (logs s !! h).

(** States that no getter tells apart; the journal, the revisions, the sets of
    objects to write and the recorded error are not observed by the getters. *)
Record agree s t : Prop := mkAgree {
  agree_db : db s = db t;
  agree_trie a : peek (trie s) a = peek (trie t) a;
  agree_load a : option_Forall2 (same (db s)) (load s a) (load t a);
  agree_refund : refund s = refund t;
  agree_thash : thash s = thash t;
  agree_bhash : bhash s = bhash t;
  agree_txIndex : txIndex s = txIndex t;
  agree_logs h : logs_of s h = logs_of t h;
  agree_logSize : logSize s = logSize t;
  agree_preimages : preimages s = preimages t }.

#[export] Instance agree_equiv : Equivalence agree.
Proof.
  split.
  - intros s. split; intros; reflexivity.
  - intros s t []. split; intros; try (symmetry; by auto). rewrite <-agree_db0. symmetry. auto.
  - intros s t u [] []. split; intros; try (etrans; by eauto).
    etrans; [eauto|]. rewrite agree_db0. auto.
Qed.

Lemma load_with_journal s j a : load (with_journal s j) a = load s a.
Proof. done. Qed.

Lemma agree_with_journal s j : agree s (with_journal s j).
Proof. by split. Qed.

Lemma agree_with_revisions s r n : agree s (with_revisions s r n).
Proof. by split. Qed.

Lemma load_set s o a :
  load (SO.setStateObject s o) a = if decide (a = o_address o) then Some o else load s a.
Proof.
  unfold load; simpl. destruct (decide _) as [->|]; by simplify_map_eq.
Qed.

Lemma agree_set s t o p : agree s t -> same (db s) o p -> agree (SO.setStateObject s o) (SO.setStateObject t p).
Proof.
  intros Hs Ho. pose proof Hs as []. split; simpl; auto. intros a. rewrite !load_set.
  rewrite <-(same_address _ _ _ Ho). destruct (decide _); [by constructor|done].
Qed.

(** Storing an equivalent object back. *)
Lemma agree_set_same s o p : load s (o_address p) = Some o -> same (db s) o p -> agree s (SO.setStateObject s p).
Proof.
  intros Hl Ho. split; intros; try done. simpl. rewrite load_set.
  destruct (decide (a = o_address p)) as [->|]; [rewrite Hl; by constructor|reflexivity].
Qed.

(** What a read leaves alone. *)
Record kept s t : Prop := mkKept {
  kept_agree : agree s t;
  kept_journal : journal_ t = journal_ s;
  kept_revisions : validRevisions t = validRevisions s;
  kept_next : nextRevisionId t = nextRevisionId s }.

#[export] Instance kept_preorder : PreOrder kept.
Proof.
  split.
  - intros s. by split.
  - intros s t u [] []. split; try congruence. by etrans.
Qed.

Lemma getDeleted_load s a :
  snd (SDB.getDeletedStateObject keccak s a) = load s a /\ kept s (fst (SDB.getDeletedStateObject keccak s a)).
Proof.
  unfold SDB.getDeletedStateObject, load. destruct (stateObjects s !! a) as [o|] eqn:Ho; [by split|].
  unfold from_trie. pose proof (TryGet_peek (trie s) a) as Hk. pose proof (peek_TryGet (trie s) a) as Hk'.
  destruct (TryGet (trie s) a) as [tr [enc err]]. simpl in Hk, Hk'. rewrite <-Hk. cbn [fst].
  assert (forall b, from_trie tr b = from_trie (trie s) b) as Hf by (intros b; unfold from_trie; by rewrite Hk').
  assert (forall e, kept s (with_dbErr (with_trie s tr) e)) as Hkept.
  { intros e. split; try done. split; try done. intros b. simpl. unfold load; simpl. by rewrite Hf. }
  destruct (length enc =? 0)%nat eqn:Hl.
  { unfold SDB.setError. simpl. split; [done|]. destruct (dbErr s) eqn:He; [|apply Hkept].
    specialize (Hkept (dbErr s)). by destruct s. }
  destruct (decodeAccount enc) as [x|] eqn:Hx; simpl; (split; [done|]).
  - split; try done. split; try done. intros b. simpl. rewrite load_set. simpl.
    destruct (decide (b = a)) as [->|].
    + unfold load, from_trie. rewrite Ho, <-Hk. cbn [fst]. rewrite Hl, Hx. by constructor.
    + unfold load; simpl. by rewrite Hf.
  - specialize (Hkept (dbErr s)). by destruct s.
Qed.

Lemma getStateObject_live s a :
  snd (SDB.getStateObject keccak s a) = live s a /\ kept s (fst (SDB.getStateObject keccak s a)).
Proof.
  unfold SDB.getStateObject, live. destruct (getDeleted_load s a) as [Hl Hk].
  destruct (SDB.getDeletedStateObject keccak s a) as [t so]. simpl in *. subst so.
  by destruct (load s a).
Qed.

Lemma live_load s a o : live s a = Some o -> load s a = Some o /\ deleted o = false.
Proof. unfold live. destruct (load s a) as [p|]; [|done]. destruct (deleted p) eqn:E; naive_solver. Qed.

Lemma load_agree_none s t a : agree s t -> load s a = None -> load t a = None.
Proof. intros [] Hl. specialize (agree_load0 a). rewrite Hl in agree_load0. by inversion agree_load0. Qed.

(** After looking an object up it is in the live set. *)
Lemma getDeleted_again s a : load (fst (SDB.getDeletedStateObject keccak s a)) a = load s a.
Proof.
  destruct (getDeleted_load s a) as [Hl Hk]. destruct (load s a) as [o|] eqn:Ho;
    [|by apply (load_agree_none _ _ _ (kept_agree _ _ Hk))].
  unfold SDB.getDeletedStateObject in *.
  destruct (stateObjects s !! a) as [p|] eqn:Hp; simpl in *; [done|].
  destruct (TryGet _ _) as [tr [enc err]]. destruct (length enc =? 0)%nat; [done|].
  destruct (decodeAccount enc); [|done]. simpl in *. rewrite load_set, decide_True by done. done.
Qed.

Lemma live_again s a : live (fst (SDB.getStateObject keccak s a)) a = live s a.
Proof.
  unfold live at 1. enough (load (fst (SDB.getStateObject keccak s a)) a = load s a) as -> by done.
  rewrite <-(getDeleted_again s a). unfold SDB.getStateObject.
  by destruct (SDB.getDeletedStateObject keccak s a) as [t [o|]].
Qed.

Lemma load_agree_some s t a o : agree s t -> load s a = Some o -> exists p, load t a = Some p /\ same (db s) o p.
Proof.
  intros [] Hl. specialize (agree_load0 a). rewrite Hl in agree_load0. inversion agree_load0; subst. eauto.
Qed.

Lemma live_agree s t a : agree s t -> option_Forall2 (same (db s)) (live s a) (live t a).
Proof.
  intros Hs. unfold live. destruct (agree_load _ _ Hs a) as [o p Hop|]; [|constructor].
  rewrite (same_deleted _ _ _ Hop). destruct (deleted p); by constructor.
Qed.
End View.
