(* ===== verification/StateJournal.v ===== *)
(** * core/state: undoing the journal
    Undoing an entry respects the equivalence of states; [extends s s']: the
    entries [s'] added to the journal of [s] undo it back to a state equivalent
    to [s].  Every operation of the state extends it. *)

From S2P Require Import Prelude MathUtil VmBase VmEnv Rlp RlpStream RlpRaw StateDB StateView.

#[local] Arguments be_bytes : simpl never.

Section Journal_.
Context {keccak : bytes -> Hash} {D T : Type} `{StoreReads keccak D T}.
Implicit Types (s t u : StateDB D T) (o p : stateObject T) (a : Address) (d : D) (es : list (journalEntry T)).

(** ** Undoing respects the equivalence *)

Lemma on_object_sim s t a f u :
  (forall d o p, same d o p -> same d (f o) (f p)) -> agree s t -> SDB.on_object keccak s a f = Done u ->
  exists u', SDB.on_object keccak t a f = Done u' /\ agree u u'.
Proof.
  unfold SDB.on_object. intros Hf Hs Hu.
  destruct (getStateObject_live s a) as [Hl1 Hk1]. destruct (getStateObject_live t a) as [Hl2 Hk2].
  destruct (SDB.getStateObject keccak s a) as [s1 so1]. destruct (SDB.getStateObject keccak t a) as [t1 so2].
  simpl in *. subst. pose proof (live_agree _ _ a Hs) as Hlive.
  destruct Hlive as [o p Hop|]; [|done]. simplify_eq. eexists. split; [done|].
  apply agree_set.
  - rewrite <-(kept_agree _ _ Hk1), <-(kept_agree _ _ Hk2). done.
  - apply Hf. by rewrite <-(agree_db _ _ (kept_agree _ _ Hk1)).
Qed.

Lemma revert_entry_sim e s t u :
  agree s t -> SDB.revert_entry keccak e s = Done u ->
  exists u', SDB.revert_entry keccak e t = Done u' /\ agree u u'.
Proof.
  intros Hs. destruct e; simpl; intros Hu; simplify_eq.
  - eexists. split; [done|]. pose proof Hs as []. split; simpl; auto. intros a. unfold load; simpl.
    destruct (decide (a = account)) as [->|].
    + rewrite !lookup_delete_eq. unfold from_trie. by rewrite agree_trie.
    + rewrite !lookup_delete_ne by done. apply agree_load.
  - eexists. split; [done|]. apply agree_set; [done|reflexivity].
  - destruct (getStateObject_live s account) as [Hl1 Hk1]. destruct (getStateObject_live t account) as [Hl2 Hk2].
    destruct (SDB.getStateObject keccak s account) as [s1 so1].
    destruct (SDB.getStateObject keccak t account) as [t1 so2].
    simpl in *. subst. assert (agree s1 t1) as Hs1 by by rewrite <-(kept_agree _ _ Hk1), <-(kept_agree _ _ Hk2).
    destruct (live_agree _ _ account Hs) as [o p Hop|]; simplify_eq; (eexists; split; [done|]); [|done].
    apply agree_set; [done|]. rewrite <-(agree_db _ _ (kept_agree _ _ Hk1)).
    rewrite (same_deleted _ _ _ Hop). by apply same_setBalance, same_flags.
  - eapply on_object_sim; eauto using same_setBalance.
  - eapply on_object_sim; eauto using same_setNonce.
  - eapply on_object_sim; eauto using same_setState.
  - eapply on_object_sim; eauto using same_setCode.
  - eexists. split; [done|]. pose proof Hs as []. by split.
  - change (default [] (logs s !! txhash)) with (logs_of s txhash) in Hu.
    change (default [] (logs t !! txhash)) with (logs_of t txhash).
    rewrite (agree_logs _ _ Hs) in Hu. pose proof Hs as [].
    destruct (logs_of t txhash) as [|l1 [|l2 ls]]; simplify_eq; (eexists; split; [done|]);
      split; simpl; auto; try congruence; intros h; unfold logs_of; simpl;
      (destruct (decide (h = txhash)) as [->|]; simplify_map_eq; [done|apply agree_logs]).
  - eexists. split; [done|]. pose proof Hs as []. split; simpl; auto. congruence.
  - eauto.
Qed.

Lemma revert_loop_sim es s t u :
  agree s t -> SDB.revert_loop keccak es s = Done u ->
  exists u', SDB.revert_loop keccak es t = Done u' /\ agree u u'.
Proof.
  revert s t. induction es as [|e es IH]; intros s t Hs Hu; simpl in *.
  - simplify_eq. eauto.
  - apply bind_Done in Hu as (s1 & He & Hu).
    destruct (revert_entry_sim _ _ _ _ Hs He) as (t1 & -> & Hs1). simpl.
    eapply IH; [|done]. by rewrite <-!agree_with_journal.
Qed.

Lemma revert_loop_app es1 es2 s :
  SDB.revert_loop keccak (es1 ++ es2) s = let! t := SDB.revert_loop keccak es1 s in SDB.revert_loop keccak es2 t.
Proof.
  revert s. induction es1 as [|e es1 IH]; intros s; simpl; [done|].
  destruct (SDB.revert_entry keccak e s); simpl; auto.
Qed.

(** ** Extensions of a state *)

Record extends s t : Prop := mkExtends {
  ext_revisions : validRevisions t = validRevisions s;
  ext_next : nextRevisionId t = nextRevisionId s;
  ext_entries : exists es, entries (journal_ t) = es ++ entries (journal_ s) /\
    exists u, SDB.revert_loop keccak es t = Done u /\ agree s u }.

#[export] Instance extends_preorder : PreOrder extends.
Proof.
  split.
  - intros s. split; [done..|]. exists []. split; [done|]. exists s. by split.
  - intros s t u [Hr1 Hn1 (es1 & He1 & v1 & Hv1 & Hs1)] [Hr2 Hn2 (es2 & He2 & v2 & Hv2 & Hs2)].
    split; [congruence..|]. exists (es2 ++ es1). rewrite He2, He1, app_assoc. split; [done|].
    destruct (revert_loop_sim _ _ _ _ Hs2 Hv1) as (w & Hw & Hvw).
    exists w. rewrite revert_loop_app, Hv2. split; [done|]. by rewrite <-Hvw.
Qed.

(** Reads extend a state without journaling anything. *)
Lemma kept_extends s t : kept s t -> extends s t.
Proof.
  intros [Hs Hj Hr Hn]. split; [done..|]. exists []. rewrite Hj. split; [done|]. exists t. by split.
Qed.

(** One journaled change. *)
Lemma entry_extends s t e u :
  validRevisions t = validRevisions s -> nextRevisionId t = nextRevisionId s ->
  entries (journal_ t) = e :: entries (journal_ s) ->
  SDB.revert_entry keccak e t = Done u -> agree s u -> extends s t.
Proof.
  intros Hr Hn He Hu Hs. split; [done..|]. exists [e]. split; [done|].
  simpl. rewrite Hu. simpl. eexists. split; [done|]. by rewrite <-agree_with_journal.
Qed.

Lemma entries_append (j : journal T) e : entries (append j e) = e :: entries j.
Proof. unfold append. by destruct (dirtied e). Qed.

(** A change to a live object, undone by [g]. *)
Lemma object_extends s e o p (g : stateObject T -> stateObject T) :
  load s (o_address p) = Some o -> deleted p = false ->
  (forall t u q, SDB.getStateObject keccak t (o_address p) = (u, Some q) ->
     SDB.revert_entry keccak e t = Done (SO.setStateObject u (g q))) ->
  same (db s) o (g p) -> o_address (g p) = o_address p ->
  extends s (SO.setStateObject (SO.journal_append s e) p).
Proof.
  intros Hl Hd Hr Hs Ha.
  assert (live (SO.setStateObject (SO.journal_append s e) p) (o_address p) = Some p) as Hlive.
  { unfold live. rewrite load_set, decide_True by done. by rewrite Hd. }
  destruct (getStateObject_live (SO.setStateObject (SO.journal_append s e) p) (o_address p)) as [Hg Hk].
  rewrite Hlive in Hg. specialize (Hr (SO.setStateObject (SO.journal_append s e) p)).
  destruct (SDB.getStateObject _ _ _) as [u so]. simpl in Hg, Hk. subst so.
  eapply (entry_extends _ _ e); [done..|apply entries_append|by apply Hr|].
  etrans; [|apply agree_set; [apply (kept_agree _ _ Hk)|reflexivity]].
  split; intros; try done. simpl. rewrite !load_set, Ha.
  destruct (decide _) as [->|]; [rewrite Hl; by constructor|reflexivity].
Qed.

(** ** Well-formed states *)

(** An object at [a]: not in debugging mode, with a whole code hash, and
    without balance once deleted. *)
Record obj_good a o : Prop := mkObjGood {
  good_address : o_address o = a;
  good_fake : fakeStorage o = None;
  good_CodeHash : CodeHash (o_data o) = HashBytes (hash_of (CodeHash (o_data o)));
  good_deleted : deleted o = true -> Balance (o_data o) = 0 }.

Record good s : Prop := mkGood {
  good_load a o : load s a = Some o -> obj_good a o;
  good_logSize : is_u64 (logSize s) }.

Lemma obj_good_same d a o p : same d o p -> obj_good a o -> obj_good a p.
Proof.
  intros Hs [Ha Hf Hc Hd]. rewrite (same_address _ _ _ Hs) in Ha. rewrite (same_fake _ _ _ Hs) in Hf.
  rewrite (same_CodeHash _ _ _ Hs) in Hc. rewrite (same_deleted _ _ _ Hs), (same_Balance _ _ _ Hs) in Hd. done.
Qed.

#[export] Instance good_agree : Proper (agree ==> impl) good.
Proof.
  intros s t Hs [Hl Hz]. split.
  - intros a p Hp. destruct (load_agree_some t s a p) as (o & Ho & Hop); [by symmetry|done|].
    eapply obj_good_same; [symmetry; exact Hop|eauto].
  - by rewrite <-(agree_logSize _ _ Hs).
Qed.

Lemma good_set s a o : good s -> obj_good a o -> good (SO.setStateObject s o).
Proof.
  intros [Hl Hz] Ho. split; [|done]. intros b p. rewrite load_set.
  rewrite (good_address _ _ Ho). destruct (decide _) as [->|]; [|apply Hl]. intros [= <-]. done.
Qed.

Definition newobj a : stateObject T := SO.newObject keccak a None.

Lemma newobj_good a : obj_good a (newobj a).
Proof. by split. Qed.

(** ** Looking up or creating an object *)

(** The object a setter works on. *)
Definition obj_or_new s a : stateObject T := default (newobj a) (live s a).

Lemma obj_or_new_good s a : good s -> obj_good a (obj_or_new s a).
Proof.
  intros [Hl _]. unfold obj_or_new. destruct (live s a) as [o|] eqn:Ho; simpl; [|apply newobj_good].
  apply live_load in Ho as [? _]. auto.
Qed.

Lemma obj_or_new_alive s a : deleted (obj_or_new s a) = false.
Proof. unfold obj_or_new. destruct (live s a) as [o|] eqn:Ho; simpl; [|done]. by apply live_load in Ho as [_ ?]. Qed.

(** The entry that creating an object journals puts back what was there. *)
Lemma create_extends s e o a :
  o_address o = a -> (forall p, load s a = Some p -> o_address p = a) ->
  e = match load s a with None => createObjectChange a | Some p => resetObjectChange p end ->
  extends s (SO.setStateObject (SO.journal_append s e) o).
Proof.
  intros Ha Hp He. destruct (load s a) as [p|] eqn:Hl; subst e.
  - eapply entry_extends; [done|done|apply entries_append|done|].
    split; intros; try done. simpl. rewrite !load_set, (Hp p), Ha by done.
    destruct (decide _) as [->|]; [rewrite Hl; by constructor|reflexivity].
  - eapply entry_extends; [done|done|apply entries_append|done|].
    unfold load in Hl. destruct (stateObjects s !! a) eqn:Hs; [done|].
    split; intros; try done. simpl. unfold load; simpl. rewrite Ha, delete_insert_id by done. reflexivity.
Qed.

Lemma createObject_spec s a :
  good s -> exists t, SDB.createObject keccak s a = (t, newobj a, load s a)
    /\ extends s t /\ agree (SO.setStateObject s (newobj a)) t /\ load t a = Some (newobj a).
Proof.
  intros Hg. unfold SDB.createObject. destruct (getDeleted_load s a) as [Hl Hk].
  destruct (SDB.getDeletedStateObject keccak s a) as [s1 prev] eqn:Hd. simpl in Hl, Hk. subst prev.
  assert (SO.setNonce (SO.newObject keccak a None : stateObject T) 0 = newobj a) as -> by done.
  eexists. split; [done|].
  pose proof (kept_agree _ _ Hk) as Hs. split; [|split].
  - etrans; [by apply kept_extends|]. apply (create_extends s1 _ (newobj a) a); [done| |].
    + intros p Hp. apply good_address. eapply (good_load s1); [by rewrite <-Hs|done].
    + pose proof (getDeleted_again s a) as Ha. rewrite Hd in Ha. simpl in Ha. by rewrite Ha.
  - apply agree_set; [|reflexivity]. etrans; [exact Hs|apply agree_with_journal].
  - by rewrite load_set, decide_True.
Qed.

Lemma GetOrNew_spec s a :
  good s -> exists t, SDB.GetOrNewStateObject keccak s a = (t, obj_or_new s a)
    /\ extends s t /\ agree (SO.setStateObject s (obj_or_new s a)) t /\ load t a = Some (obj_or_new s a).
Proof.
  intros Hg. unfold SDB.GetOrNewStateObject, obj_or_new.
  destruct (getStateObject_live s a) as [Hl Hk]. pose proof (live_again s a) as Ha.
  destruct (SDB.getStateObject keccak s a) as [s1 so]. simpl in *. subst so.
  pose proof (kept_agree _ _ Hk) as Hs.
  destruct (live s a) as [o|] eqn:Hlive; simpl.
  - exists s1. split; [done|]. split; [by apply kept_extends|].
    apply live_load in Hlive as [Hlo _]. apply live_load in Ha as [Hlo1 _]. split; [|done].
    etrans; [|exact Hs]. symmetry. apply (agree_set_same s o); [|reflexivity].
    by rewrite (good_address _ _ (good_load _ Hg _ _ Hlo)).
  - destruct (createObject_spec s1 a) as (t & -> & He & Ht & Hlt); [by rewrite <-Hs|].
    exists t. split; [done|]. split; [etrans; [by apply kept_extends|done]|]. split.
    + etrans; [|exact Ht]. apply agree_set; [done|reflexivity].
    + done.
Qed.

(** ** The operations *)

(** [t] is [s] with [o] stored, journaled. *)
Record changes s t o : Prop := mkChanges {
  changes_extends : extends s t;
  changes_agree : agree (SO.setStateObject s o) t }.

Lemma agree_set_set s o p : o_address o = o_address p ->
  agree (SO.setStateObject s p) (SO.setStateObject (SO.setStateObject s o) p).
Proof.
  intros Ha. split; intros; try done. simpl. rewrite !load_set, Ha. by destruct (decide _).
Qed.

(** A journaled change of the object a setter works on. *)
Lemma setter_changes s a t e o p g :
  good s -> SDB.GetOrNewStateObject keccak s a = (t, o) ->
  o_address p = a -> deleted p = false ->
  (forall t u q, SDB.getStateObject keccak t a = (u, Some q) ->
     SDB.revert_entry keccak e t = Done (SO.setStateObject u (g q))) ->
  same (db s) o (g p) -> o_address (g p) = a ->
  changes s (SO.setStateObject (SO.journal_append t e) p) p.
Proof.
  intros Hg Ht Hp Hd Hr Hs Ha. destruct (GetOrNew_spec s a Hg) as (t' & Ht' & He & Hag & Hl).
  rewrite Ht in Ht'. simplify_eq. pose proof (obj_or_new_good s (o_address p) Hg) as Hgo.
  split.
  - etrans; [exact He|]. apply (object_extends t' e (obj_or_new s (o_address p)) p g); auto.
    by rewrite <-(agree_db _ _ Hag).
  - etrans; [apply (agree_set_set s (obj_or_new s (o_address p)) p), (good_address _ _ Hgo)|].
    apply agree_set; [|reflexivity]. etrans; [exact Hag|apply agree_with_journal].
Qed.

(** A setter that leaves the object as it is. *)
Lemma lookup_changes s a t o : good s -> SDB.GetOrNewStateObject keccak s a = (t, o) -> changes s t o.
Proof.
  intros Hg Ht. destruct (GetOrNew_spec s a Hg) as (t' & Ht' & He & Hag & _). rewrite Ht in Ht'. simplify_eq. by split.
Qed.

Lemma SetBalance_changes s a v : good s ->
  changes s (SDB.SetBalance keccak s a v) (SO.setBalance (obj_or_new s a) v).
Proof.
  intros Hg. unfold SDB.SetBalance. destruct (GetOrNew_spec s a Hg) as (t & Ht & _). rewrite Ht.
  pose proof (obj_or_new_good s a Hg) as Ho. pose proof (obj_or_new_alive s a) as Hd.
  unfold SO.SetBalance. rewrite (good_address _ _ Ho).
  eapply (setter_changes s a t _ _ _ (fun q => SO.setBalance q (Balance (o_data (obj_or_new s a))))); eauto.
  - apply Ho.
  - intros t' u q Hq. simpl. unfold SDB.on_object. by rewrite Hq.
  - by destruct (obj_or_new s a) as [?? [] ??????????].
  - apply Ho.
Qed.

Lemma SetNonce_changes s a v : good s ->
  changes s (SDB.SetNonce keccak s a v) (SO.setNonce (obj_or_new s a) v).
Proof.
  intros Hg. unfold SDB.SetNonce. destruct (GetOrNew_spec s a Hg) as (t & Ht & _). rewrite Ht.
  pose proof (obj_or_new_good s a Hg) as Ho. pose proof (obj_or_new_alive s a) as Hd.
  unfold SO.SetNonce. rewrite (good_address _ _ Ho).
  eapply (setter_changes s a t _ _ _ (fun q => SO.setNonce q (Nonce (o_data (obj_or_new s a))))); eauto.
  - apply Ho.
  - intros t' u q Hq. simpl. unfold SDB.on_object. by rewrite Hq.
  - by destruct (obj_or_new s a) as [?? [] ??????????].
  - apply Ho.
Qed.

Lemma changes_same s t o p : changes s t o -> same (db s) o p -> changes s t p.
Proof.
  intros [He Ha] Hs. split; [done|]. etrans; [|exact Ha]. apply agree_set; [reflexivity|by symmetry].
Qed.

Lemma setBalance_id o : SO.setBalance o (Balance (o_data o)) = o.
Proof. by destruct o as [?? [] ??????????]. Qed.

Lemma AddBalance_changes s a v : good s ->
  changes s (SDB.AddBalance keccak s a v) (SO.setBalance (obj_or_new s a) (Balance (o_data (obj_or_new s a)) + v)).
Proof.
  intros Hg. pose proof (SetBalance_changes s a (Balance (o_data (obj_or_new s a)) + v) Hg) as Hset.
  destruct (GetOrNew_spec s a Hg) as (t & Ht & _). pose proof (lookup_changes _ _ _ _ Hg Ht) as Hl.
  unfold SDB.AddBalance, SDB.SetBalance, SO.AddBalance in *. rewrite Ht in *.
  destruct (Z.eqb_spec (Z.sgn v) 0) as [Hv|]; [|done].
  assert (v = 0) as -> by lia. rewrite Z.add_0_r, setBalance_id.
  destruct (SO.empty keccak (obj_or_new s a)); [|done]. destruct Hl as [He Ha]. unfold SO.touch.
  assert (forall j, entries j = touchChange (o_address (obj_or_new s a)) :: entries (journal_ t) ->
    changes s (with_journal t j) (obj_or_new s a)) as Hj.
  { intros j Hj. split.
    - etrans; [exact He|]. eapply entry_extends; [done|done|exact Hj|done|apply agree_with_journal].
    - etrans; [exact Ha|apply agree_with_journal]. }
  destruct (o_address (obj_or_new s a) =? ripemd); by apply Hj.
Qed.

Lemma SubBalance_changes s a v : good s ->
  changes s (SDB.SubBalance keccak s a v) (SO.setBalance (obj_or_new s a) (Balance (o_data (obj_or_new s a)) - v)).
Proof.
  intros Hg. pose proof (SetBalance_changes s a (Balance (o_data (obj_or_new s a)) - v) Hg) as Hset.
  destruct (GetOrNew_spec s a Hg) as (t & Ht & _). pose proof (lookup_changes _ _ _ _ Hg Ht) as Hl.
  unfold SDB.SubBalance, SDB.SetBalance, SO.SubBalance in *. rewrite Ht in *.
  destruct (Z.eqb_spec (Z.sgn v) 0) as [Hv|]; [|done].
  assert (v = 0) as -> by lia. by rewrite Z.sub_0_r, setBalance_id.
Qed.

(** Undoing a write to a slot. *)
Lemma setState_undo d o p k v :
  fakeStorage o = None -> same d o p -> same d o (SO.setState (SO.setState p k v) k (state_of d o k)).
Proof.
  intros Hf Hs. pose proof (same_fake _ _ _ Hs) as Hfp. rewrite Hf in Hfp. destruct Hs. split; auto.
  intros k'. rewrite setState_id by done. rewrite setState_id by done.
  destruct (decide (k' = k)) as [->|]; auto.
Qed.

Lemma SetState_changes s a k v : good s ->
  changes s (SDB.SetState keccak s a k v) (SO.setState (obj_or_new s a) k v).
Proof.
  intros Hg. destruct (GetOrNew_spec s a Hg) as (t & Ht & He & Hag & Hlt).
  pose proof (obj_or_new_good s a Hg) as Ho. pose proof (obj_or_new_alive s a) as Hd.
  unfold SDB.SetState. rewrite Ht. set (o := obj_or_new s a) in *.
  unfold SO.SetState. rewrite (good_fake _ _ Ho).
  pose proof (agree_db _ _ Hag) as Hdb. simpl in Hdb. rewrite <-Hdb.
  destruct (GetState_same (db s) o k) as [Hv Hs]. destruct (SO.GetState (db s) o k) as [o1 prev].
  simpl in Hv, Hs. subst prev. pose proof (same_address _ _ _ Hs) as Ha. rewrite (good_address _ _ Ho) in Ha.
  destruct (Z.eqb_spec (state_of (db s) o k) v) as [Hv|Hv].
  - assert (agree t (SO.setStateObject t o1)) as Ht1 by (apply (agree_set_same t o o1); [by rewrite <-Ha|by rewrite <-Hdb]).
    apply (changes_same _ _ o); [split; [etrans; [exact He|by apply kept_extends]|by etrans]|].
    split; try done. intros k'. rewrite setState_id by apply Ho. by destruct (decide _) as [->|].
  - eapply changes_same; [|apply same_setState; symmetry; exact Hs]. rewrite <-Ha.
    apply (setter_changes s a t _ o _ (fun q => SO.setState q k (state_of (db s) o k)) Hg Ht); auto.
    + change (deleted o1 = false). by rewrite <-(same_deleted _ _ _ Hs).
    + intros t' u q Hq. simpl. unfold SDB.on_object. by rewrite Hq.
    + apply setState_undo; [apply Ho|done].
Qed.

(** Undoing a change of code. *)
Lemma setCode_undo d o p h c :
  CodeHash (o_data o) = HashBytes (hash_of (CodeHash (o_data o))) -> same d o p ->
  same d o (SO.setCode (SO.setCode p h c) (hash_of (CodeHash (o_data p))) (code_of (keccak:=keccak) d o)).
Proof.
  intros Hl Hs. rewrite <-(same_CodeHash _ _ _ Hs). pose proof (same_addrHash _ _ _ Hs) as Hh. destruct Hs.
  split; auto.
  - unfold code_of at 2. unfold SO.setCode. cbn [o_code with_data with_o_code o_data o_addrHash CodeHash].
    rewrite <-Hl, <-Hh. destruct (code_of (keccak:=keccak) d o) eqn:Hc; [done|].
    unfold code_of in Hc. by destruct (o_code o).
Qed.

Lemma SetCode_changes s a c : good s ->
  changes s (SDB.SetCode keccak s a c) (SO.setCode (obj_or_new s a) (keccak (default [] c)) c).
Proof.
  intros Hg. destruct (GetOrNew_spec s a Hg) as (t & Ht & He & Hag & Hlt).
  pose proof (obj_or_new_good s a Hg) as Ho. pose proof (obj_or_new_alive s a) as Hd.
  unfold SDB.SetCode. rewrite Ht. set (o := obj_or_new s a) in *. unfold SO.SetCode.
  pose proof (agree_db _ _ Hag) as Hdb. simpl in Hdb. rewrite <-Hdb.
  destruct (Code_same (db s) o) as [Hv Hs]. destruct (SO.Code keccak (db s) o) as [o1 prev].
  simpl in Hv, Hs. subst prev. pose proof (same_address _ _ _ Hs) as Ha. rewrite (good_address _ _ Ho) in Ha.
  eapply changes_same; [|apply same_setCode; symmetry; exact Hs]. rewrite <-Ha.
  apply (setter_changes s a t _ o _
    (fun q => SO.setCode q (hash_of (CodeHash (o_data o1))) (code_of (keccak:=keccak) (db s) o)) Hg Ht); auto.
  - change (deleted o1 = false). by rewrite <-(same_deleted _ _ _ Hs).
  - intros t' u q Hq. cbn [SDB.revert_entry]. unfold SDB.on_object. by rewrite Hq.
  - apply setCode_undo; [apply Ho|done].
Qed.

Lemma Suicide_changes s a : good s ->
  match live s a with
  | Some o => changes s (fst (SDB.Suicide keccak s a)) (SO.setBalance (SO.markSuicided o) 0)
  | None => kept s (fst (SDB.Suicide keccak s a))
  end.
Proof.
  intros Hg. unfold SDB.Suicide. destruct (getStateObject_live s a) as [Hl Hk].
  pose proof (live_again s a) as Ha. destruct (SDB.getStateObject keccak s a) as [t so]. simpl in *. subst so.
  pose proof (kept_agree _ _ Hk) as Hs. destruct (live s a) as [o|] eqn:Ho; [|done].
  apply live_load in Ha as [Hlt _]. apply live_load in Ho as [Ho Hd].
  pose proof (good_load _ Hg _ _ Ho) as Hgo. pose proof (good_address _ _ Hgo) as Hao. subst a. split.
  - etrans; [by apply kept_extends|]. simpl.
    apply (object_extends t _ o _ (fun q => SO.setBalance (with_flags q (suicided o) (deleted q)) (Balance (o_data o))));
      try done.
    intros t' u q Hq. change (o_address (SO.setBalance (SO.markSuicided o) 0)) with (o_address o) in Hq. cbn [SDB.revert_entry]. by rewrite Hq.
  - simpl. apply agree_set; [|reflexivity]. etrans; [exact Hs|apply agree_with_journal].
Qed.

Lemma set_set s o p : o_address o = o_address p ->
  SO.setStateObject (SO.setStateObject s o) p = SO.setStateObject s p.
Proof. intros Ha. unfold SO.setStateObject, with_objects; simpl. by rewrite Ha, insert_insert_eq. Qed.

Lemma CreateAccount_changes s a : good s ->
  changes s (SDB.CreateAccount keccak s a)
    (SO.setBalance (newobj a) (match load s a with Some p => Balance (o_data p) | None => 0 end)).
Proof.
  intros Hg. unfold SDB.CreateAccount, SDB.createObject.
  destruct (getDeleted_load s a) as [Hl Hk]. pose proof (getDeleted_again s a) as Ha.
  destruct (SDB.getDeletedStateObject keccak s a) as [t prev]. simpl in Hl, Hk, Ha. subst prev.
  pose proof (kept_agree _ _ Hk) as Hs.
  assert (SO.setNonce (SO.newObject keccak a None : stateObject T) 0 = newobj a) as -> by done.
  set (b := match load s a with Some p => Balance (o_data p) | None => 0 end).
  set (e := match load s a with None => createObjectChange a | Some p => resetObjectChange p end).
  assert (changes s (SO.setStateObject (SO.journal_append t e) (SO.setBalance (newobj a) b))
    (SO.setBalance (newobj a) b)) as Hc.
  { split.
    - etrans; [by apply kept_extends|]. apply (create_extends t e (SO.setBalance (newobj a) b) a); [done| |].
      + intros p Hp. rewrite Ha in Hp. by apply (good_address _ _ (good_load _ Hg _ _ Hp)).
      + unfold e. by rewrite Ha.
    - apply agree_set; [|reflexivity]. etrans; [exact Hs|apply agree_with_journal]. }
  destruct (load s a) as [p|]; [|done]. by rewrite set_set.
Qed.

Lemma AddRefund_extends s g : extends s (SDB.AddRefund s g).
Proof. eapply entry_extends; [done|done|apply entries_append|done|by split]. Qed.

Lemma SubRefund_extends s g t : SDB.SubRefund s g = Done t -> extends s t.
Proof.
  unfold SDB.SubRefund. intros Ht. destruct (_ <? _); simplify_eq.
  eapply entry_extends; [done|done|apply entries_append|done|by split].
Qed.

Lemma AddPreimage_extends s h (c : bytes) : extends s (SDB.AddPreimage s h c).
Proof.
  unfold SDB.AddPreimage. destruct (preimages s !! h) eqn:Hp; [reflexivity|].
  eapply entry_extends; [done|done|apply entries_append|done|].
  split; intros; try done. simpl. by rewrite delete_insert_id.
Qed.

Lemma AddLog_extends s l : is_u64 (logSize s) -> extends s (SDB.AddLog s l).
Proof.
  intros Hz. set (t := SDB.AddLog s l).
  assert (logs_of t (thash s) <> [] /\ take (length (logs_of t (thash s)) - 1) (logs_of t (thash s)) = logs_of s (thash s))
    as [Hne Htake].
  { unfold t, logs_of, SDB.AddLog. simpl. rewrite lookup_insert_eq. cbn [default from_option id].
    split; [by destruct (default _ _)|]. rewrite length_app. simpl.
    rewrite Nat.add_sub. by rewrite take_app_length. }
  assert (u64 (logSize t - 1) = logSize s) as Hsz.
  { change (logSize t) with (u64 (logSize s + 1)). unfold u64. rewrite Zminus_mod_idemp_l.
    replace (logSize s + 1 - 1) with (logSize s) by lia. by apply Z.mod_small. }
  assert (forall m, (forall h, default [] (m !! h) = logs_of s h) ->
    agree s (with_logs t m (u64 (logSize t - 1)))) as Hag.
  { intros m Hm. split; intros; try done. by rewrite <-Hm. }
  assert (forall h, h <> thash s -> logs t !! h = logs s !! h) as Hoth.
  { intros h Hh. unfold t, SDB.AddLog. simpl. by rewrite lookup_insert_ne. }
  assert (exists u, SDB.revert_entry keccak (addLogChange (thash s)) t = Done u /\ agree s u) as (u & Hu & Hsu).
  { clearbody t. cbn [SDB.revert_entry]. change (default [] (logs t !! thash s)) with (logs_of t (thash s)).
    destruct (logs_of t (thash s)) as [|l1 [|l2 ls]] eqn:E; [done| |]; (eexists; split; [done|]; apply Hag);
      intros h; (destruct (decide (h = thash s)) as [->|Hh]; simplify_map_eq; [done|]); unfold logs_of; by rewrite Hoth. }
  eapply entry_extends; [done|done|apply entries_append|exact Hu|done].
Qed.
End Journal_.
