(* ===== verification/StateSnap.v ===== *)
(** * core/state: snapshots
    [snaps s r]: the revisions of [s] can be reverted to, newest first, and
    reverting to one leads to a state with the property [r] gives for it.
    RevertToSnapshot is shown to undo any run of operations since the snapshot,
    nested snapshots and reverts included. *)

From stdpp Require Import sorting.
From S2P Require Import Prelude MathUtil VmBase VmEnv Rlp RlpStream RlpRaw StateDB StateView StateJournal.

#[local] Arguments be_bytes : simpl never.

Section Snap.
Context {keccak : bytes -> Hash} {D T : Type} `{StoreReads keccak D T}.
Implicit Types (s t u : StateDB D T) (o p : stateObject T) (a : Address) (P : StateDB D T -> Prop).

(** ** Undoing leaves the revisions alone *)

Lemma getStateObject_revisions s a :
  validRevisions (fst (SDB.getStateObject keccak s a)) = validRevisions s /\
  nextRevisionId (fst (SDB.getStateObject keccak s a)) = nextRevisionId s.
Proof. destruct (getStateObject_live s a) as [_ Hk]. split; apply Hk. Qed.

Lemma revert_entry_revisions e s t : SDB.revert_entry keccak e s = Done t ->
  validRevisions t = validRevisions s /\ nextRevisionId t = nextRevisionId s.
Proof.
  assert (forall a f, SDB.on_object keccak s a f = Done t ->
    validRevisions t = validRevisions s /\ nextRevisionId t = nextRevisionId s) as Hobj.
  { intros a f. unfold SDB.on_object. pose proof (getStateObject_revisions s a) as Hr.
    destruct (SDB.getStateObject keccak s a) as [u [o|]]; intros; simplify_eq. done. }
  destruct e; cbn [SDB.revert_entry]; intros Ht; simplify_eq; eauto.
  - pose proof (getStateObject_revisions s account) as Hr.
    destruct (SDB.getStateObject keccak s account) as [u [o|]]; simplify_eq; done.
  - destruct (default _ _) as [|? [|]]; simplify_eq; done.
Qed.

Lemma revert_loop_revisions es s t : SDB.revert_loop keccak es s = Done t ->
  validRevisions t = validRevisions s /\ nextRevisionId t = nextRevisionId s.
Proof.
  revert s. induction es as [|e es IH]; intros s Ht; simpl in Ht; [by simplify_eq|].
  apply bind_Done in Ht as (u & Hu & Ht). apply revert_entry_revisions in Hu as [Hr Hn].
  apply IH in Ht as [Hr' Hn']. split; [rewrite Hr'|rewrite Hn']; done.
Qed.

(** ** States that can be reverted to *)

Definition revertible P s (idx : Z) : Prop :=
  exists es1 es2, entries (journal_ s) = es1 ++ es2 /\ zlen es2 = idx /\
    exists t u, SDB.revert_loop keccak es1 s = Done t /\ agree t u /\ P u.

Lemma revertible_now P s : P s -> revertible P s (journal_length (journal_ s)).
Proof. intros HP. exists [], (entries (journal_ s)). split; [done|]. split; [done|]. exists s, s. by split. Qed.

Lemma revertible_extends P s t idx : extends s t -> revertible P s idx -> revertible P t idx.
Proof.
  intros [_ _ (es & He & v & Hv & Hsv)] (es1 & es2 & He' & Hi & w & u & Hw & Hwu & HP).
  destruct (revert_loop_sim _ _ _ _ Hsv Hw) as (x & Hx & Hwx).
  exists (es ++ es1), es2. rewrite He, He', app_assoc. split; [done|]. split; [done|].
  exists x, u. rewrite revert_loop_app, Hv. split; [done|]. split; [by rewrite <-Hwx|done].
Qed.

(** A state with the same getters and the same journal. *)
Lemma revertible_agree P s t idx :
  agree s t -> entries (journal_ t) = entries (journal_ s) -> revertible P s idx -> revertible P t idx.
Proof.
  intros Hs He (es1 & es2 & He' & Hi & w & u & Hw & Hwu & HP).
  destruct (revert_loop_sim _ _ _ _ Hs Hw) as (x & Hx & Hwx).
  exists es1, es2. split; [congruence|]. split; [done|]. exists x, u. split; [done|]. split; [by rewrite <-Hwx|done].
Qed.

(** Reverting the journal to a recorded length. *)
Lemma journal_revert_ok P s idx :
  revertible P s idx ->
  exists t u, SDB.journal_revert keccak s idx = Done t /\ agree t u /\ P u /\
    validRevisions t = validRevisions s /\ nextRevisionId t = nextRevisionId s /\
    entries (journal_ t) = drop (Z.to_nat (zlen (entries (journal_ s)) - idx)) (entries (journal_ s)) /\
    (forall Q j, j <= idx -> revertible Q s j -> revertible Q t j).
Proof.
  intros (es1 & es2 & He & Hi & w & u & Hw & Hwu & HP). unfold SDB.journal_revert.
  assert (Z.to_nat (zlen (entries (journal_ s)) - idx) = length es1) as -> by (rewrite He, length_app; lia).
  rewrite He, take_app_length, drop_app_length, Hw. simpl.
  destruct (revert_loop_revisions _ _ _ Hw) as [Hr Hn].
  eexists _, u. split; [done|]. split; [by rewrite <-agree_with_journal|].
  do 4 (split; [done|]). intros Q j Hj (fs1 & fs2 & Hf & Hj' & x & y & Hx & Hxy & HQ).
  rewrite He in Hf. apply app_eq_inv in Hf as [(k & -> & ->)|(k & -> & ->)].
  - rewrite length_app in Hj'. assert (k = []) as -> by (destruct k; [done|simpl in Hj'; lia]).
    rewrite app_nil_r in Hw. simpl. exists [], es2. split; [done|]. split; [done|].
    rewrite Hw in Hx. simplify_eq. eexists _, y. split; [done|]. split; [by rewrite <-agree_with_journal|done].
  - rewrite revert_loop_app, Hw in Hx. simpl in Hx.
    eapply revert_loop_sim in Hx as (z & Hz & Hxz); [|apply agree_with_journal].
    exists k, fs2. split; [done|]. split; [done|]. exists z, y. split; [done|]. split; [by rewrite <-Hxz|done].
Qed.

(** ** The stack of revisions *)

Record snaps s (r : list (Z * (StateDB D T -> Prop))) : Prop := mkSnaps {
  snaps_revs : Forall2 (fun rv x => rev_id rv = fst x /\ revertible (snd x) s (journalIndex rv))
                 (reverse (validRevisions s)) r;
  snaps_ids : StronglySorted (fun x y => rev_id x < rev_id y) (validRevisions s);
  snaps_idx : StronglySorted (fun x y => journalIndex x <= journalIndex y) (validRevisions s);
  snaps_next : Forall (fun x => rev_id x < nextRevisionId s) (validRevisions s) }.

Lemma snaps_extends s t r : extends s t -> snaps s r -> snaps t r.
Proof.
  intros He []. pose proof He as [Hr Hn _]. split; rewrite ?Hr, ?Hn; try done.
  eapply Forall2_impl; [done|]. intros rv x [? ?]. split; [done|]. by eapply revertible_extends.
Qed.

Lemma revertible_index P s idx : revertible P s idx -> idx <= journal_length (journal_ s).
Proof. intros (es1 & es2 & He & Hi & _). unfold journal_length. rewrite He, length_app. lia. Qed.

Lemma Forall2_elem_l {A B} (R : A -> B -> Prop) l k x : Forall2 R l k -> x ∈ l -> exists y, R x y.
Proof.
  intros Hf (i & Hi)%list_elem_of_lookup. destruct (Forall2_lookup_l _ _ _ _ _ Hf Hi) as (y & _ & Hy). eauto.
Qed.

Lemma StronglySorted_snoc {A} (R : A -> A -> Prop) l x :
  StronglySorted R l -> Forall (fun y => R y x) l -> StronglySorted R (l ++ [x]).
Proof.
  induction 1 as [|y l Hs IH Hy]; simpl; intros Hl; [repeat constructor|].
  apply Forall_cons in Hl as [? ?]. constructor; [auto|]. apply Forall_app; auto.
Qed.

Lemma snaps_Snapshot s r P :
  P s -> snaps s r -> snaps (fst (SDB.Snapshot s)) ((snd (SDB.Snapshot s), P) :: r).
Proof.
  intros HP [Hr Hids Hidx Hn]. unfold SDB.Snapshot. simpl.
  assert (forall Q i, revertible Q s i -> revertible Q (fst (SDB.Snapshot s)) i) as Hsame
    by (intros Q i; apply revertible_agree; [apply agree_with_revisions|done]).
  split; simpl.
  - rewrite reverse_snoc. constructor; simpl; [split; [done|]; by apply Hsame, revertible_now|].
    eapply Forall2_impl; [done|]. intros rv x [? ?]. split; [done|]. by apply Hsame.
  - apply StronglySorted_snoc; [done|]. eapply Forall_impl; [done|]. done.
  - apply StronglySorted_snoc; [done|]. rewrite <-Forall_reverse.
    rewrite Forall_forall. intros rv Hrv. destruct (Forall2_elem_l _ _ _ _ Hr Hrv) as (x & _ & Hx).
    by apply revertible_index in Hx.
  - apply Forall_app. split; [|repeat constructor; simpl; lia]. eapply Forall_impl; [done|]. simpl. lia.
Qed.

(** The binary search finds a valid revision. *)
Lemma search_revision (l1 l2 : list revision) rv :
  StronglySorted (fun x y => rev_id x < rev_id y) (l1 ++ rv :: l2) ->
  sort_Search (zlen (l1 ++ rv :: l2))
    (fun i => match (l1 ++ rv :: l2) !! Z.to_nat i with Some r => rev_id rv <=? rev_id r | None => true end) = zlen l1.
Proof.
  intros Hs. apply sort_Search_spec; [rewrite length_app; simpl; lia|]. intros k Hk.
  apply StronglySorted_app in Hs as (H12 & H1 & H2).
  destruct (decide (Z.to_nat k < length l1)%nat) as [Hlt|Hge].
  - rewrite lookup_app_l by done. destruct (lookup_lt_is_Some_2 l1 _ Hlt) as [x Hx]. rewrite Hx.
    assert (rev_id x < rev_id rv) by (apply H12; [by eapply list_elem_of_lookup_2|left]). lia.
  - rewrite lookup_app_r by lia. destruct (_ !! _) as [x|] eqn:Hx; [|lia].
    apply list_elem_of_lookup_2, elem_of_cons in Hx as [->|Hx]; [lia|].
    inversion H2 as [|? ? _ Hall]; subst. rewrite Forall_forall in Hall. specialize (Hall _ Hx). lia.
Qed.

Lemma snaps_Revert s r1 id P r2 :
  snaps s (r1 ++ (id, P) :: r2) ->
  exists t u, SDB.RevertToSnapshot keccak s id = Done t /\ agree t u /\ P u /\
    snaps t r2 /\ nextRevisionId t = nextRevisionId s.
Proof.
  intros [Hr Hids Hidx Hn]. apply Forall2_app_inv_r in Hr as (k1 & k2 & Hk1 & Hk2 & Hk).
  apply Forall2_cons_inv_r in Hk2 as (rv & k3 & [Hid Hrv] & Hk3 & ->). simpl in Hid, Hrv.
  assert (validRevisions s = reverse k3 ++ rv :: reverse k1) as Hv.
  { rewrite <-(reverse_involutive (validRevisions s)), Hk, reverse_app, reverse_cons, <-app_assoc. done. }
  destruct (journal_revert_ok _ _ _ Hrv) as (t & u & Ht & Htu & HP & Hrt & Hnt & _ & Hback).
  rewrite Hv in Hids, Hidx, Hn.
  unfold SDB.RevertToSnapshot. rewrite <-Hid, Hv, search_revision by done.
  rewrite Nat2Z.id, list_lookup_middle, Z.eqb_refl, Ht by done. simpl. rewrite Hrt, Hv, take_app_length.
  eexists _, u. split; [done|]. split; [by rewrite <-agree_with_revisions|]. split; [done|]. split; [|done].
  split; simpl.
  - rewrite reverse_involutive. apply StronglySorted_app in Hidx as (Hle & _).
    apply Forall2_same_length_lookup. split; [by eapply Forall2_length|]. intros i x y Hx Hy.
    destruct (Forall2_lookup_lr _ _ _ _ _ _ Hk3 Hx Hy) as [Hxy Hrx]. split; [done|].
    apply (revertible_agree _ t); [apply agree_with_revisions|done|]. apply Hback; [|done].
    apply Hle; [|left]. apply elem_of_reverse. by eapply list_elem_of_lookup_2.
  - by apply StronglySorted_app in Hids as (_ & ? & _).
  - by apply StronglySorted_app in Hidx as (_ & ? & _).
  - rewrite Hnt. by apply Forall_app in Hn as [? _].
Qed.

(** What reverting to a valid revision does to the journal. *)
Lemma Revert_back s r id t :
  snaps s r -> id ∈ rev_id <$> validRevisions s -> SDB.RevertToSnapshot keccak s id = Done t ->
  exists idx u, SDB.journal_revert keccak s idx = Done u /\
    t = with_revisions u (validRevisions t) (nextRevisionId u) /\ 0 <= idx /\
    (forall Q j, j <= idx -> revertible Q s j -> revertible Q u j).
Proof.
  intros [Hr Hids Hidx Hn] Hid Ht. apply list_elem_of_fmap in Hid as (rv & -> & Hin).
  destruct (Forall2_elem_l _ _ _ rv Hr) as (x & _ & Hx); [by apply elem_of_reverse|].
  apply list_elem_of_split in Hin as (l1 & l2 & Hv). rewrite Hv in Hids.
  destruct (journal_revert_ok _ _ _ Hx) as (u & _ & Hu & _ & _ & _ & _ & _ & Hback).
  unfold SDB.RevertToSnapshot in Ht. rewrite Hv, search_revision in Ht by done.
  rewrite Nat2Z.id, list_lookup_middle, Z.eqb_refl, Hu in Ht by done. simpl in Ht. simplify_eq.
  exists (journalIndex rv), u. split; [done|]. split; [done|]. split; [|done].
  destruct Hx as (? & es & _ & <- & _). lia.
Qed.

Lemma snaps_valid s r id : snaps s r -> (id ∈ rev_id <$> validRevisions s) <-> id ∈ r.*1.
Proof.
  intros [Hr _ _ _]. assert (rev_id <$> reverse (validRevisions s) = r.*1) as <-.
  { induction Hr as [|x y l k [Hxy _] _ IH]; [done|]. rewrite !fmap_cons. by rewrite IH, Hxy. }
  rewrite !list_elem_of_fmap. by setoid_rewrite elem_of_reverse.
Qed.

(** A revision that is not on the stack cannot be reverted to. *)
Lemma Revert_invalid s id : id ∉ rev_id <$> validRevisions s -> SDB.RevertToSnapshot keccak s id = Panic InvalidRevision.
Proof.
  intros Hid. unfold SDB.RevertToSnapshot. destruct (validRevisions s !! _) as [rv|] eqn:Hrv; [|done].
  destruct (Z.eqb_spec (rev_id rv) id) as [<-|]; [|done]. destruct Hid.
  apply list_elem_of_fmap. exists rv. split; [done|]. by eapply list_elem_of_lookup_2.
Qed.

(** ** Operations *)

Inductive op :=
  | OCreateAccount (a : Address)
  | OAddBalance (a : Address) (v : Z)
  | OSubBalance (a : Address) (v : Z)
  | OSetBalance (a : Address) (v : Z)
  | OSetNonce (a : Address) (n : Z)
  | OSetCode (a : Address) (c : option bytes)
  | OSetState (a : Address) (k v : Hash)
  | OSuicide (a : Address)
  | OAddRefund (g : Z)
  | OSubRefund (g : Z)
  | OAddLog (l : Log)
  | OAddPreimage (h : Hash) (p : bytes)
  | OGetCode (a : Address)
  | OGetState (a : Address) (k : Hash)
  | OSnapshot
  | ORevert (id : Z).

Definition exec s (x : op) : outcome (StateDB D T) :=
  match x with
  | OCreateAccount a => Done (SDB.CreateAccount keccak s a)
  | OAddBalance a v => Done (SDB.AddBalance keccak s a v)
  | OSubBalance a v => Done (SDB.SubBalance keccak s a v)
  | OSetBalance a v => Done (SDB.SetBalance keccak s a v)
  | OSetNonce a n => Done (SDB.SetNonce keccak s a n)
  | OSetCode a c => Done (SDB.SetCode keccak s a c)
  | OSetState a k v => Done (SDB.SetState keccak s a k v)
  | OSuicide a => Done (fst (SDB.Suicide keccak s a))
  | OAddRefund g => Done (SDB.AddRefund s g)
  | OSubRefund g => SDB.SubRefund s g
  | OAddLog l => Done (SDB.AddLog s l)
  | OAddPreimage h p => Done (SDB.AddPreimage s h p)
  | OGetCode a => Done (fst (SDB.GetCode keccak s a))
  | OGetState a k => Done (fst (SDB.GetState keccak s a k))
  | OSnapshot => Done (fst (SDB.Snapshot s))
  | ORevert id => SDB.RevertToSnapshot keccak s id
  end.

Fixpoint exec_all s (l : list op) : outcome (StateDB D T) :=
  match l with [] => Done s | x :: l => let! s := exec s x in exec_all s l end.

Lemma changes_good s t o a : good s -> changes s t o -> obj_good a o -> good t.
Proof. intros Hg [_ Ha] Ho. eapply good_agree; [exact Ha|]. by eapply good_set. Qed.

Lemma kept_good s t : kept s t -> good s -> good t.
Proof. intros [Hs _ _ _]. by apply good_agree. Qed.

(** Reading an object in place. *)
Lemma kept_set s a o p : kept s (fst (SDB.getStateObject keccak s a)) -> good s -> live s a = Some o -> same (db s) o p ->
  kept s (SO.setStateObject (fst (SDB.getStateObject keccak s a)) p).
Proof.
  intros Hk Hg Ho Hs. pose proof (live_again s a) as Ha. rewrite Ho in Ha. apply live_load in Ha as [Ha _].
  apply live_load in Ho as [Ho _]. pose proof (good_address _ _ (good_load _ Hg _ _ Ho)) as Hao.
  etrans; [exact Hk|]. split; [|done..]. apply (agree_set_same _ o); [by rewrite <-(same_address _ _ _ Hs), Hao|].
  by rewrite <-(agree_db _ _ (kept_agree _ _ Hk)).
Qed.

Lemma GetState_kept s a k : good s -> kept s (fst (SDB.GetState keccak s a k)).
Proof.
  intros Hg. unfold SDB.GetState. destruct (getStateObject_live s a) as [Hl Hk].
  pose proof (kept_set s a) as Hset. destruct (SDB.getStateObject keccak s a) as [t so]. simpl in *. subst so.
  destruct (live s a) as [o|] eqn:Ho; [|done]. destruct (GetState_same (db t) o k) as [_ Hs].
  destruct (SO.GetState (db t) o k) as [p v]. simpl in *. apply (Hset o p); [done..|].
  by rewrite (agree_db _ _ (kept_agree _ _ Hk)).
Qed.

Lemma GetCode_kept s a : good s -> kept s (fst (SDB.GetCode keccak s a)).
Proof.
  intros Hg. unfold SDB.GetCode. destruct (getStateObject_live s a) as [Hl Hk].
  pose proof (kept_set s a) as Hset. destruct (SDB.getStateObject keccak s a) as [t so]. simpl in *. subst so.
  destruct (live s a) as [o|] eqn:Ho; [|done]. destruct (Code_same (db t) o) as [_ Hs].
  destruct (SO.Code keccak (db t) o) as [p v]. simpl in *. apply (Hset o p); [done..|].
  by rewrite (agree_db _ _ (kept_agree _ _ Hk)).
Qed.

Lemma obj_good_setBalance s a v : good s -> obj_good a (SO.setBalance (obj_or_new s a) v).
Proof.
  intros Hg. pose proof (obj_or_new_good s a Hg) as []. split; [done..|].
  change (deleted (obj_or_new s a) = true -> v = 0). by rewrite obj_or_new_alive.
Qed.

Lemma obj_good_setCode s a h c : good s -> obj_good a (SO.setCode (obj_or_new s a) h c).
Proof.
  intros Hg. pose proof (obj_or_new_good s a Hg) as []. by split.
Qed.

(** Every operation but the two on snapshots extends the state. *)
Lemma exec_extends s x t : good s -> x <> OSnapshot -> (forall id, x <> ORevert id) -> exec s x = Done t ->
  extends s t /\ good t.
Proof.
  intros Hg Hx1 Hx2 Ht.
  assert (forall o a, changes s t o -> obj_good a o -> extends s t /\ good t) as Hch
    by (intros o a Hc Ho; split; [apply Hc|by eapply changes_good]).
  pose proof (fun a => obj_or_new_good s a Hg) as Hon.
  destruct x; cbn [exec] in Ht; simplify_eq; try solve [by destruct Hx1|by destruct (Hx2 id)].
  - eapply (Hch _ a); [by apply CreateAccount_changes|]. by split.
  - eapply (Hch _ a); [by apply AddBalance_changes|]. by apply obj_good_setBalance.
  - eapply (Hch _ a); [by apply SubBalance_changes|]. by apply obj_good_setBalance.
  - eapply (Hch _ a); [by apply SetBalance_changes|]. by apply obj_good_setBalance.
  - eapply (Hch _ a); [by apply SetNonce_changes|]. by destruct (Hon a).
  - eapply (Hch _ a); [by apply SetCode_changes|]. by apply obj_good_setCode.
  - eapply (Hch _ a); [by apply SetState_changes|]. by destruct (Hon a).
  - pose proof (Suicide_changes s a Hg) as Hs. destruct (live s a) as [o|] eqn:Ho.
    + eapply (Hch _ a); [exact Hs|]. apply live_load in Ho as [Ho _]. by destruct (good_load _ Hg _ _ Ho).
    + split; [by apply kept_extends|by eapply kept_good].
  - split; [apply AddRefund_extends|]. by destruct Hg.
  - split; [by eapply SubRefund_extends|]. unfold SDB.SubRefund in Ht. destruct (_ <? _); simplify_eq. by destruct Hg.
  - split; [apply AddLog_extends, Hg|]. destruct Hg. split; [done|]. apply u64_range.
  - split; [apply AddPreimage_extends|]. unfold SDB.AddPreimage. destruct (_ !! h); by destruct Hg.
  - pose proof (GetCode_kept s a Hg). split; [by apply kept_extends|by eapply kept_good].
  - pose proof (GetState_kept s a k Hg). split; [by apply kept_extends|by eapply kept_good].
Qed.

(** ** Runs of operations *)

(** The state is well formed, and a revision [id], if still on the stack,
    reverts to a state with the property [P]. *)
Definition tracked id P s : Prop :=
  good s /\ id < nextRevisionId s /\
  exists r, snaps s r /\ Forall (fun x => forall u, snd x u -> good u) r /\
    forall x u, x ∈ r -> fst x = id -> snd x u -> P u.

Definition wf s : Prop :=
  good s /\ exists r, snaps s r /\ Forall (fun x => forall u, snd x u -> good u) r.

Lemma exec_tracked id P s x t : tracked id P s -> exec s x = Done t -> tracked id P t.
Proof.
  intros (Hg & Hn & r & Hr & Hgr & HP) Ht.
  assert (x = OSnapshot \/ (exists i, x = ORevert i) \/ x <> OSnapshot /\ (forall i, x <> ORevert i))
    as [->|[[i ->]|[Hx1 Hx2]]] by (destruct x; naive_solver).
  - cbn [exec] in Ht. simplify_eq. split; [by destruct Hg|]. split; [simpl; lia|].
    exists ((nextRevisionId s, agree s) :: r). split; [by apply (snaps_Snapshot s r (agree s))|].
    split; [constructor; [|done]; intros u Hu; by eapply good_agree|].
    intros y u [->|Hy]%elem_of_cons; simpl; [lia|]. by apply HP.
  - cbn [exec] in Ht. destruct (decide (i ∈ rev_id <$> validRevisions s)) as [Hi|Hi];
      [|by rewrite Revert_invalid in Ht].
    rewrite (snaps_valid _ _ _ Hr) in Hi. apply list_elem_of_fmap in Hi as ([i' Q] & -> & Hi). simpl in Ht.
    apply list_elem_of_split in Hi as (r1 & r2 & ->).
    destruct (snaps_Revert _ _ _ _ _ Hr) as (t' & u & Ht' & Htu & HQ & Hr2 & Hn').
    rewrite Ht in Ht'. simplify_eq. apply Forall_app in Hgr as [_ [HgQ Hgr]%Forall_cons].
    split; [eapply good_agree; [symmetry; exact Htu|]; by apply HgQ|]. split; [lia|].
    exists r2. split; [done|]. split; [done|]. intros y v Hy. apply HP. set_solver.
  - destruct (exec_extends s x t) as [He Hgt]; [naive_solver..|]. split; [done|].
    split; [by rewrite (ext_next _ _ He)|]. exists r. split; [by eapply snaps_extends|]. done.
Qed.

Lemma exec_all_tracked id P l s t : tracked id P s -> exec_all s l = Done t -> tracked id P t.
Proof.
  revert s. induction l as [|x l IH]; intros s Hs Ht; simpl in Ht; [by simplify_eq|].
  apply bind_Done in Ht as (u & Hu & Ht). eapply IH; [|done]. by eapply exec_tracked.
Qed.

(** C15: snapshots.  Reverting to a snapshot undoes whatever was done to the
    state since it was taken: any sequence of creations, destructions, balance,
    nonce, code and storage changes, refunds, logs, preimages, reads, nested
    snapshots and reverts to them leads, if the snapshot is still on the stack,
    to a state that RevertToSnapshot turns, without a panic, into one that no
    getter can tell from the original, and on which the same holds again. *)
Theorem RevertToSnapshot_restores s l t :
  wf s -> exec_all (fst (SDB.Snapshot s)) l = Done t ->
  snd (SDB.Snapshot s) ∈ rev_id <$> validRevisions t ->
  exists u, SDB.RevertToSnapshot keccak t (snd (SDB.Snapshot s)) = Done u /\ agree s u /\ wf u.
Proof.
  intros (Hg & r & Hr & Hgr) Ht Hin.
  assert (tracked (snd (SDB.Snapshot s)) (agree s) (fst (SDB.Snapshot s))) as Htr.
  { split; [by destruct Hg|]. split; [simpl; lia|].
    exists ((nextRevisionId s, agree s) :: r). split; [by apply (snaps_Snapshot s r (agree s))|].
    split; [constructor; [|done]; intros u Hu; by eapply good_agree|].
    intros y u [->|Hy]%elem_of_cons; [done|]. intros Hid _.
    assert (fst y ∈ rev_id <$> validRevisions s) as (rv & Hrv & Hin')%list_elem_of_fmap
      by (rewrite (snaps_valid _ _ _ Hr); by apply list_elem_of_fmap_2).
    pose proof (snaps_next _ _ Hr) as Hlt. rewrite Forall_forall in Hlt. specialize (Hlt _ Hin').
    simpl in Hid. lia. }
  apply (exec_all_tracked _ _ _ _ _ Htr) in Ht as (_ & _ & r' & Hr' & Hgr' & HP).
  rewrite (snaps_valid _ _ _ Hr') in Hin. apply list_elem_of_fmap in Hin as ([i Q] & Hi & Hin).
  apply list_elem_of_split in Hin as (r1 & r2 & ->). simpl in Hi.
  destruct (snaps_Revert _ _ _ _ _ Hr') as (u & v & Hu & Huv & HQ & Hr2 & _). change (snd (SDB.Snapshot s)) with (nextRevisionId s). rewrite Hi.
  assert (agree s v) as Hsv by (apply (HP (i, Q)); [set_solver|done|done]).
  exists u. split; [done|]. apply Forall_app in Hgr' as [_ [_ Hgr']%Forall_cons]. split; [by rewrite Huv|].
  split; [|by eauto]. eapply good_agree; [|exact Hg]. by rewrite Huv.
Qed.
End Snap.
