(* ===== verification/StateRefine.v ===== *)
(** * core/state: the state database implements the world
    A StateDB represents the world its getters show, with the snapshots that
    can be reverted to: the contract [StateRefines] of World.v.  The theorems
    on the interpreter then hold of the interpreter run on a StateDB. *)

From S2P Require Import Prelude MathUtil VmBase VmEnv World Rlp RlpStream RlpRaw.
From S2P Require Import StateDB StateView StateJournal StateSnap.

#[local] Arguments be_bytes : simpl never.

Section Refine.
Context {keccak : bytes -> Hash} {D T : Type} `{StoreReads keccak D T}.
Implicit Types (s t u : StateDB D T) (o p : stateObject T) (a : Address) (w : World).

#[local] Abbreviation newobj := (StateJournal.newobj (keccak:=keccak) (T:=T)).

(** ** The world a state shows *)

Record acct_view (d : D) o (x : Acct) : Prop := mkAcctView {
  av_nonce : Nonce (o_data o) = a_nonce x;
  av_balance : Balance (o_data o) = a_balance x;
  av_codeHash : hash_of (CodeHash (o_data o)) = a_codeHash x;
  av_code : default [] (code_of (keccak:=keccak) d o) = a_code x;
  av_suicided : suicided o = a_suicided x;
  av_state k : state_of (keccak:=keccak) d o k = slot (a_storage x) k;
  av_committed k : committed_of (keccak:=keccak) d o k = slot (a_committed x) k }.

Record view s w : Prop := mkView {
  view_good : good s;
  view_acct a : option_Forall2 (acct_view (db s)) (live s a) (accts w !! a);
  view_refund : refund s = w_refund w;
  view_logs : W.raw_log <$> logs_of s (thash s) = w_logs w;
  view_preimages : preimages s = w_preimages w }.

Lemma acct_view_same d o p x : same d o p -> acct_view d o x -> acct_view d p x.
Proof.
  intros [] []. split; congruence.
Qed.

Lemma view_agree s t w : agree s t -> view s w -> view t w.
Proof.
  intros Hs [Hg Ha Hr Hl Hp]. split.
  - by eapply good_agree.
  - intros a. specialize (Ha a). rewrite <-(agree_db _ _ Hs).
    destruct (live_agree _ _ a Hs) as [o p Hop|]; inversion Ha; subst; constructor.
    by eapply acct_view_same.
  - by rewrite <-(agree_refund _ _ Hs).
  - by rewrite <-(agree_thash _ _ Hs), <-(agree_logs _ _ Hs).
  - by rewrite <-(agree_preimages _ _ Hs).
Qed.

Lemma live_set s o a :
  live (SO.setStateObject s o) a =
  if decide (a = o_address o) then (if deleted o then None else Some o) else live s a.
Proof. unfold live. rewrite load_set. by destruct (decide _). Qed.

Lemma view_put s w a o x :
  view s w -> obj_good a o -> deleted o = false -> acct_view (db s) o x ->
  view (SO.setStateObject s o) (W.put w a x).
Proof.
  intros [] Ho Hd Hx. split; try done.
  - by eapply good_set.
  - intros b. simpl. rewrite live_set, (good_address _ _ Ho), Hd.
    destruct (decide _) as [->|]; simplify_map_eq; [by constructor|auto].
Qed.

Lemma acct_view_new d a : acct_view d (newobj a) (W.new keccak).
Proof.
  assert (Root (o_data (newobj a)) = emptyRoot) as Hroot by done.
  assert (CodeHash (o_data (newobj a)) = SO.emptyCodeHash keccak) as Hch by done.
  assert (forall k, committed_of (keccak:=keccak) d (newobj a) k = 0) as Hc.
  { intros k. unfold committed_of. cbn [fakeStorage pendingStorage originStorage StateJournal.newobj SO.newObject].
    rewrite !lookup_empty. unfold trie_of. cbn [o_trie StateJournal.newobj SO.newObject]. rewrite Hroot.
    destruct (OpenStorageTrie_empty d (o_addrHash (newobj a))) as (t & -> & Ht).
    unfold stored. by rewrite Ht. }
  split; try done.
  unfold code_of. rewrite Hch. cbn [o_code StateJournal.newobj SO.newObject]. by rewrite bool_decide_eq_true_2.
Qed.

Lemma view_get s w a : view s w -> acct_view (db s) (obj_or_new s a) (W.get keccak w a).
Proof.
  intros [_ Ha _ _ _]. unfold obj_or_new, W.get. destruct (Ha a); [done|]. apply acct_view_new.
Qed.

(** The world after a journaled change. *)
Lemma view_changes s t w a o x :
  view s w -> changes s t o -> obj_good a o -> deleted o = false -> acct_view (db s) o x -> view t (W.put w a x).
Proof. intros Hv [_ Hc] Ho Hd Hx. eapply view_agree; [exact Hc|]. by eapply view_put. Qed.

Definition represents s w (r : list (Z * World)) : Prop :=
  view s w /\ snaps s ((fun x => (x.1, fun u => view u x.2)) <$> r).

Lemma represents_extends s t w w' r : represents s w r -> extends s t -> view t w' -> represents t w' r.
Proof. intros [_ Hs] He Hv. split; [done|]. by eapply snaps_extends. Qed.

Lemma represents_changes s t w a o x r :
  represents s w r -> changes s t o -> obj_good a o -> deleted o = false -> acct_view (db s) o x ->
  represents t (W.put w a x) r.
Proof.
  intros Hr Hc Ho Hd Hx. eapply represents_extends; [exact Hr|apply Hc|]. eapply view_changes; [apply Hr|done..].
Qed.

(** *** The getters *)

Lemma getStateObject_view s w a : view s w ->
  snd (SDB.getStateObject keccak s a) = live s a /\ db (fst (SDB.getStateObject keccak s a)) = db s /\
  option_Forall2 (acct_view (db s)) (live s a) (accts w !! a).
Proof.
  intros Hv. destruct (getStateObject_live s a) as [Hl Hk]. split; [done|].
  split; [symmetry; apply (agree_db _ _ (kept_agree _ _ Hk))|apply Hv].
Qed.

Ltac getter s a Hv :=
  destruct (getStateObject_view s _ a Hv) as (Hl & Hdb & Ha);
  destruct (SDB.getStateObject keccak s a) as [t so]; simpl in Hl, Hdb; subst so; unfold W.get;
  destruct Ha as [o x Hox|]; simpl; try done.

Lemma GetBalance_view s w a : view s w -> snd (SDB.GetBalance keccak s a) = a_balance (W.get keccak w a).
Proof. intros Hv. unfold SDB.GetBalance. getter s a Hv. apply Hox. Qed.

Lemma GetNonce_view s w a : view s w -> snd (SDB.GetNonce keccak s a) = a_nonce (W.get keccak w a).
Proof. intros Hv. unfold SDB.GetNonce. getter s a Hv. apply Hox. Qed.

Lemma GetCodeHash_view s w a : view s w -> snd (SDB.GetCodeHash keccak s a) = W.GetCodeHash w a.
Proof. intros Hv. unfold SDB.GetCodeHash, W.GetCodeHash. getter s a Hv. apply Hox. Qed.

Lemma HasSuicided_view s w a : view s w -> snd (SDB.HasSuicided keccak s a) = a_suicided (W.get keccak w a).
Proof. intros Hv. unfold SDB.HasSuicided. getter s a Hv. apply Hox. Qed.

Lemma Exist_view s w a : view s w -> snd (SDB.Exist keccak s a) = W.Exist w a.
Proof. intros Hv. unfold SDB.Exist, W.Exist. getter s a Hv. Qed.

Lemma GetCode_view s w a : view s w -> default [] (snd (SDB.GetCode keccak s a)) = a_code (W.get keccak w a).
Proof.
  intros Hv. unfold SDB.GetCode. getter s a Hv. destruct (Code_same (db t) o) as [Hc _].
  destruct (SO.Code keccak (db t) o). simpl in *. rewrite Hc, Hdb. apply Hox.
Qed.

Lemma GetState_view s w a k : view s w -> snd (SDB.GetState keccak s a k) = slot (a_storage (W.get keccak w a)) k.
Proof.
  intros Hv. unfold SDB.GetState. getter s a Hv. destruct (GetState_same (db t) o k) as [Hc _].
  destruct (SO.GetState (db t) o k). simpl in *. rewrite Hc, Hdb. apply Hox.
Qed.

Lemma GetCommittedState_view s w a k :
  view s w -> snd (SDB.GetCommittedState keccak s a k) = slot (a_committed (W.get keccak w a)) k.
Proof.
  intros Hv. unfold SDB.GetCommittedState. getter s a Hv. destruct (GetCommittedState_same (db t) o k) as [Hc _].
  destruct (SO.GetCommittedState (db t) o k). simpl in *. rewrite Hc, Hdb. apply Hox.
Qed.

(** The size is asked of the code store even when there is no code. *)
Lemma GetCodeSize_view s w a : view s w -> snd (SDB.GetCodeSize keccak s a) = zlen (a_code (W.get keccak w a)).
Proof.
  intros Hv. unfold SDB.GetCodeSize. getter s a Hv. rewrite <-(av_code _ _ _ Hox). unfold code_of.
  destruct (o_code o) as [c|]; [done|].
  pose proof (ContractCodeSize_len (db t) (o_addrHash o) (hash_of (CodeHash (o_data o)))) as Hlen.
  destruct (ContractCodeSize _ _ _) as [n err]. simpl in *. rewrite Hlen, Hdb.
  destruct (bool_decide_reflect (CodeHash (o_data o) = SO.emptyCodeHash keccak)) as [He|]; [|done].
  rewrite He. change (hash_of (SO.emptyCodeHash keccak)) with (keccak []). by rewrite (ContractCode_empty (db s) (o_addrHash o)).
Qed.

Lemma empty_view d o x : acct_view d o x -> CodeHash (o_data o) = HashBytes (hash_of (CodeHash (o_data o))) ->
  SO.empty keccak o = W.is_empty keccak x.
Proof.
  intros Hox Hc. unfold SO.empty, W.is_empty.
  rewrite (av_nonce _ _ _ Hox), (av_balance _ _ _ Hox), <-(av_codeHash _ _ _ Hox). f_equal.
  destruct (bool_decide_reflect (CodeHash (o_data o) = SO.emptyCodeHash keccak)) as [He|He].
  - rewrite He. symmetry. apply Z.eqb_refl.
  - symmetry. apply Z.eqb_neq. intros Hk. apply He. by rewrite Hc, Hk.
Qed.

Lemma Empty_view s w a : view s w -> snd (SDB.Empty keccak s a) = W.Empty keccak w a.
Proof.
  intros Hv. assert (forall o, live s a = Some o -> CodeHash (o_data o) = HashBytes (hash_of (CodeHash (o_data o)))) as Hc.
  { intros o [Ho _]%live_load. apply (good_CodeHash _ _ (good_load _ (view_good _ _ Hv) _ _ Ho)). }
  revert Hc. unfold SDB.Empty, W.Empty. getter s a Hv; intros Hc.
  - by apply (empty_view (db s)); [|apply Hc].
  - unfold W.is_empty; simpl. by rewrite Z.eqb_refl.
Qed.

(** *** The setters *)

Lemma acct_view_setBalance d o x v :
  acct_view d o x -> acct_view d (SO.setBalance o v) (set_a_balance x v).
Proof. by intros []. Qed.

Lemma acct_view_setState d o x k v : fakeStorage o = None ->
  acct_view d o x -> acct_view d (SO.setState o k v) (set_a_storage x (set_slot (a_storage x) k v)).
Proof.
  intros Hf []. split; try done. intros k'. rewrite setState_id by done. simpl. unfold slot, set_slot.
  destruct (Z.eqb_spec v 0) as [->|]; (destruct (decide (k' = k)) as [->|]; simplify_map_eq; [done|apply av_state0]).
Qed.

Lemma acct_view_setCode d o x c : fakeStorage o = None ->
  acct_view d o x -> acct_view d (SO.setCode o (keccak c) (Some c)) (set_a_code x (keccak c) c).
Proof.
  intros Hf []. by split.
Qed.

(** A deleted object has no balance to carry over. *)
Lemma load_balance s w a : view s w ->
  match load s a with Some p => Balance (o_data p) | None => 0 end = a_balance (W.get keccak w a).
Proof.
  intros Hv. pose proof (view_acct _ _ Hv a) as Ha. unfold live in Ha. unfold W.get.
  destruct (load s a) as [p|] eqn:Hp; [|by inversion Ha].
  destruct (deleted p) eqn:Hd; inversion Ha as [? x Hx Hpx|]; subst; simpl; [|apply Hx].
  by apply (good_deleted _ _ (good_load _ (view_good _ _ Hv) _ _ Hp)).
Qed.

Lemma CreateAccount_represents s w r a :
  represents s w r -> represents (SDB.CreateAccount keccak s a) (W.CreateAccount keccak w a) r.
Proof.
  intros Hr. eapply represents_changes; [done|by apply CreateAccount_changes, Hr| |done|].
  - destruct (newobj_good (keccak:=keccak) (T:=T) a). by split.
  - rewrite (load_balance _ _ _ (proj1 Hr)). apply acct_view_setBalance, acct_view_new.
Qed.

(** A setter on an account: the object it writes and the account it stands for. *)
Lemma setter_represents s t w r a f g :
  represents s w r -> changes s t (f (obj_or_new s a)) ->
  obj_good a (f (obj_or_new s a)) -> deleted (f (obj_or_new s a)) = false ->
  (forall o x, fakeStorage o = None -> acct_view (db s) o x -> acct_view (db s) (f o) (g x)) ->
  represents t (W.put w a (g (W.get keccak w a))) r.
Proof.
  intros Hr Hc Ho Hd Hfg. eapply represents_changes; [done..|]. apply Hfg; [|apply view_get, Hr].
  apply (good_fake a), obj_or_new_good, Hr.
Qed.

Lemma AddLog_view s w l : view s w -> view (SDB.AddLog s l) (W.AddLog w l).
Proof.
  intros [Hg Ha Hr Hl Hp]. split; try done.
  - destruct Hg. split; [done|]. apply u64_range.
  - unfold logs_of. simpl. rewrite lookup_insert_eq. simpl. rewrite fmap_app. by rewrite <-Hl.
Qed.

Lemma AddPreimage_view s w h c : view s w -> view (SDB.AddPreimage s h c) (W.AddPreimage w h c).
Proof.
  intros [Hg Ha Hr Hl Hp]. unfold SDB.AddPreimage, W.AddPreimage. rewrite <-Hp.
  destruct (preimages s !! h) eqn:E; [by split|]. split; try done. by destruct Hg.
Qed.

Lemma refund_view s w j g : view s w -> view (with_refund (with_journal s j) g) (W.set_refund w g).
Proof. intros [Hg Ha Hr Hl Hp]. split; try done. by destruct Hg. Qed.

Lemma Suicide_represents s w r a :
  represents s w r -> represents (fst (SDB.Suicide keccak s a)) (W.Suicide w a) r.
Proof.
  intros Hr. pose proof (view_good _ _ (proj1 Hr)) as Hg. pose proof (Suicide_changes s a Hg) as Hs.
  pose proof (view_acct _ _ (proj1 Hr) a) as Ha. unfold W.Suicide.
  destruct (live s a) as [o|] eqn:Ho; inversion Ha as [? x Hx|]; subst.
  - apply live_load in Ho as [Ho Hd]. pose proof (good_load _ Hg _ _ Ho) as Hgo.
    eapply represents_changes; [done|exact Hs| |done|].
    + destruct Hgo. by split.
    + by destruct Hx.
  - eapply represents_extends; [done|by apply kept_extends|]. eapply view_agree; [apply Hs|apply Hr].
Qed.

Lemma SetNonce_represents s w r a n :
  represents s w r -> represents (SDB.SetNonce keccak s a n) (W.SetNonce keccak w a n) r.
Proof.
  intros Hr. pose proof (view_good _ _ (proj1 Hr)) as Hg.
  apply (setter_represents s _ w r a (fun o => SO.setNonce o n) (fun x => set_a_nonce x n));
    [done|by apply SetNonce_changes|by destruct (obj_or_new_good s a Hg)|apply obj_or_new_alive|].
  by intros o x _ [].
Qed.

(** Any change of a balance computed from the old one. *)
Lemma balance_represents s t w r a (f : Z -> Z) :
  represents s w r -> changes s t (SO.setBalance (obj_or_new s a) (f (Balance (o_data (obj_or_new s a))))) ->
  represents t (W.put w a (set_a_balance (W.get keccak w a) (f (a_balance (W.get keccak w a))))) r.
Proof.
  intros Hr Hc. pose proof (view_good _ _ (proj1 Hr)) as Hg.
  apply (setter_represents s _ w r a (fun o => SO.setBalance o (f (Balance (o_data o))))
    (fun x => set_a_balance x (f (a_balance x)))); [done|done|by apply obj_good_setBalance|apply obj_or_new_alive|].
  intros o x _ Hx. rewrite (av_balance _ _ _ Hx). by apply acct_view_setBalance.
Qed.

Lemma SubBalance_represents s w r a v :
  represents s w r -> represents (SDB.SubBalance keccak s a v) (W.SubBalance keccak w a v) r.
Proof. intros Hr. apply (balance_represents s _ w r a (fun b => b - v)); [done|by apply SubBalance_changes, Hr]. Qed.

Lemma AddBalance_represents s w r a v :
  represents s w r -> represents (SDB.AddBalance keccak s a v) (W.AddBalance keccak w a v) r.
Proof. intros Hr. apply (balance_represents s _ w r a (fun b => b + v)); [done|by apply AddBalance_changes, Hr]. Qed.

Lemma AddRefund_represents s w r g : represents s w r -> represents (SDB.AddRefund s g) (W.AddRefund w g) r.
Proof.
  intros Hr. eapply represents_extends; [done|apply AddRefund_extends|].
  unfold W.AddRefund. rewrite <-(view_refund _ _ (proj1 Hr)). apply refund_view, Hr.
Qed.

Lemma AddLog_represents s w r l : represents s w r -> represents (SDB.AddLog s l) (W.AddLog w l) r.
Proof. intros Hr. eapply represents_extends; [done|apply AddLog_extends, Hr|]. apply AddLog_view, Hr. Qed.

Lemma AddPreimage_represents s w r h c :
  represents s w r -> represents (SDB.AddPreimage s h c) (W.AddPreimage w h c) r.
Proof. intros Hr. eapply represents_extends; [done|apply AddPreimage_extends|]. apply AddPreimage_view, Hr. Qed.

Lemma SetCode_represents s w r a c :
  represents s w r -> represents (SDB.SetCode keccak s a (Some c)) (W.SetCode keccak w a c) r.
Proof.
  intros Hr. pose proof (view_good _ _ (proj1 Hr)) as Hg.
  apply (setter_represents s _ w r a (fun o => SO.setCode o (keccak c) (Some c)) (fun x => set_a_code x (keccak c) c));
    [done|by apply SetCode_changes|by apply obj_good_setCode|apply obj_or_new_alive|].
  intros o x. apply acct_view_setCode.
Qed.

Lemma SetState_represents s w r a k v :
  represents s w r -> represents (SDB.SetState keccak s a k v) (W.SetState keccak w a k v) r.
Proof.
  intros Hr. pose proof (view_good _ _ (proj1 Hr)) as Hg.
  apply (setter_represents s _ w r a (fun o => SO.setState o k v)
    (fun x => set_a_storage x (set_slot (a_storage x) k v)));
    [done|by apply SetState_changes|by destruct (obj_or_new_good s a Hg)|apply obj_or_new_alive|].
  intros o x. apply acct_view_setState.
Qed.

Lemma SubRefund_represents s w r g :
  represents s w r -> g <= w_refund w ->
  exists t, SDB.SubRefund s g = Done t /\ represents t (W.SubRefund w g) r.
Proof.
  intros Hr Hle. pose proof (SubRefund_extends s g) as He. unfold SDB.SubRefund in *. simpl in *.
  rewrite (view_refund _ _ (proj1 Hr)) in *. rewrite (proj2 (Z.ltb_ge _ _)) in * by lia.
  eexists. split; [done|]. eapply represents_extends; [done|by apply He|]. apply refund_view, Hr.
Qed.

Lemma Snapshot_represents s w r :
  represents s w r -> represents (fst (SDB.Snapshot s)) w ((snd (SDB.Snapshot s), w) :: r).
Proof.
  intros [Hv Hs]. split; [eapply view_agree; [apply agree_with_revisions|done]|].
  rewrite fmap_cons. by apply (snaps_Snapshot s _ (fun u => view u w)).
Qed.

Lemma Revert_represents s w r1 id w0 r2 :
  represents s w (r1 ++ (id, w0) :: r2) ->
  exists t, SDB.RevertToSnapshot keccak s id = Done t /\ represents t w0 r2.
Proof.
  intros [Hv Hs]. rewrite fmap_app, fmap_cons in Hs.
  destruct (snaps_Revert _ _ _ _ _ Hs) as (t & u & Ht & Htu & Hu & Hr & _).
  exists t. split; [done|]. split; [|done]. eapply view_agree; [symmetry; exact Htu|done].
Qed.

(** ** The refinement *)
Definition StateDB_refines : @StateRefines keccak (StateDB D T) (StateDB_vm keccak).
Proof.
  refine (Build_StateRefines keccak (StateDB D T) (StateDB_vm keccak) represents _ _ _ _ _ _ _ _ _ _ _ _ _ _ _ _ _ _ _ _ _ _ _ _);
    intros s w r; simpl.
  - intros a [Hv _]. by apply GetBalance_view.
  - intros a [Hv _]. by apply GetNonce_view.
  - intros a [Hv _]. by apply GetCodeHash_view.
  - intros a [Hv _]. by apply GetCode_view.
  - intros a [Hv _]. by apply GetCodeSize_view.
  - intros [Hv _]. apply Hv.
  - intros a k [Hv _]. by apply GetState_view.
  - intros a k [Hv _]. by apply GetCommittedState_view.
  - intros a [Hv _]. by apply HasSuicided_view.
  - intros a [Hv _]. by apply Exist_view.
  - intros a [Hv _]. by apply Empty_view.
  - intros a. apply CreateAccount_represents.
  - intros a v. apply SubBalance_represents.
  - intros a v. apply AddBalance_represents.
  - intros a n. apply SetNonce_represents.
  - intros a c. apply SetCode_represents.
  - intros a k v. apply SetState_represents.
  - intros a. apply Suicide_represents.
  - intros g. apply AddRefund_represents.
  - intros g. apply SubRefund_represents.
  - intros l. apply AddLog_represents.
  - intros h c. apply AddPreimage_represents.
  - apply Snapshot_represents.
  - intros id w0 r2. apply Revert_represents.
Defined.
End Refine.

(** ** Calls of the interface, on any implementation *)

Inductive vmcall :=
  | CCreateAccount (a : Address)
  | CSubBalance (a : Address) (v : Z)
  | CAddBalance (a : Address) (v : Z)
  | CGetBalance (a : Address)
  | CGetNonce (a : Address)
  | CSetNonce (a : Address) (n : Z)
  | CGetCodeHash (a : Address)
  | CGetCode (a : Address)
  | CSetCode (a : Address) (c : bytes)
  | CGetCodeSize (a : Address)
  | CAddRefund (g : Z)
  | CSubRefund (g : Z)
  | CGetRefund
  | CGetCommittedState (a : Address) (k : Hash)
  | CGetState (a : Address) (k : Hash)
  | CSetState (a : Address) (k v : Hash)
  | CSuicide (a : Address)
  | CHasSuicided (a : Address)
  | CExist (a : Address)
  | CEmpty (a : Address)
  | CRevertToSnapshot (id : Z)
  | CSnapshot
  | CAddLog (l : Log)
  | CAddPreimage (h : Hash) (p : bytes).

Inductive vmresult := RUnit | RZ (z : Z) | RBool (b : bool) | RBytes (b : bytes).

Section Calls.
Context {S : Type} `{vmStateDB S}.

Definition vm_call (s : S) (x : vmcall) : outcome (S * vmresult) :=
  match x with
  | CCreateAccount a => Done (CreateAccount s a, RUnit)
  | CSubBalance a v => Done (SubBalance s a v, RUnit)
  | CAddBalance a v => Done (AddBalance s a v, RUnit)
  | CGetBalance a => Done (s, RZ (GetBalance s a))
  | CGetNonce a => Done (s, RZ (GetNonce s a))
  | CSetNonce a n => Done (SetNonce s a n, RUnit)
  | CGetCodeHash a => Done (s, RZ (GetCodeHash s a))
  | CGetCode a => Done (s, RBytes (GetCode s a))
  | CSetCode a c => Done (SetCode s a c, RUnit)
  | CGetCodeSize a => Done (s, RZ (GetCodeSize s a))
  | CAddRefund g => Done (AddRefund s g, RUnit)
  | CSubRefund g => let! s := SubRefund s g in Done (s, RUnit)
  | CGetRefund => Done (s, RZ (GetRefund s))
  | CGetCommittedState a k => Done (s, RZ (GetCommittedState s a k))
  | CGetState a k => Done (s, RZ (GetState s a k))
  | CSetState a k v => Done (SetState s a k v, RUnit)
  | CSuicide a => let '(s, b) := Suicide s a in Done (s, RBool b)
  | CHasSuicided a => Done (s, RBool (HasSuicided s a))
  | CExist a => Done (s, RBool (Exist s a))
  | CEmpty a => Done (s, RBool (Empty s a))
  | CRevertToSnapshot id => let! s := RevertToSnapshot s id in Done (s, RUnit)
  | CSnapshot => let '(s, id) := Snapshot s in Done (s, RZ id)
  | CAddLog l => Done (AddLog s l, RUnit)
  | CAddPreimage h p => Done (AddPreimage s h p, RUnit)
  end.

Fixpoint vm_calls (s : S) (l : list vmcall) : outcome (S * list vmresult) :=
  match l with
  | [] => Done (s, [])
  | x :: l =>
      let! '(s, r) := vm_call s x in
      let! '(s, rs) := vm_calls s l in
      Done (s, r :: rs)
  end.
End Calls.

Section Reference.
Context {keccak : bytes -> Hash} {D T : Type} `{StoreReads keccak D T}.

#[local] Instance state_vm : vmStateDB (StateDB D T) := StateDB_vm keccak.

(** The state represents the world of the reference implementation, with the
    same snapshots. *)
Definition matches (s : StateDB D T) (q : Ref.t) : Prop :=
  represents s (Ref.world q) (Ref.revisions q) /\ nextRevisionId s = Ref.nextRevisionId q.

Lemma find_revision_split id r w0 r2 :
  Ref.find_revision id r = Some (w0, r2) -> exists r1, r = r1 ++ (id, w0) :: r2.
Proof.
  induction r as [|[i w] r IH]; simpl; [done|]. destruct (Z.eqb_spec i id) as [->|].
  - intros [= -> ->]. by exists [].
  - intros [r1 ->]%IH. by exists ((i, w) :: r1).
Qed.

Lemma find_revision_none id r : Ref.find_revision id r = None -> id ∉ r.*1.
Proof.
  induction r as [|[i w] r IH]; simpl; [set_solver|]. destruct (Z.eqb_spec i id) as [->|]; [done|].
  intros Hn%IH. set_solver.
Qed.

Lemma setter_matches s q x t w' :
  matches s q -> x <> OSnapshot -> (forall id, x <> ORevert id) -> exec (keccak:=keccak) s x = Done t ->
  represents t w' (Ref.revisions q) -> matches t (Ref.with_world q w').
Proof.
  intros [Hr Hn] Hx1 Hx2 Ht Hw. split; [done|]. simpl. rewrite <-Hn.
  destruct (exec_extends s x t) as [He _]; [apply Hr|done..|]. apply He.
Qed.

Lemma Suicide_result s w a : view s w -> snd (SDB.Suicide keccak s a) = W.Exist w a.
Proof.
  intros Hv. unfold SDB.Suicide, W.Exist. destruct (getStateObject_view s w a Hv) as (Hl & _ & Ha).
  destruct (SDB.getStateObject keccak s a) as [t so]. simpl in Hl. subst so. by destruct Ha.
Qed.

Lemma Revert_matches s q id : matches s q ->
  match Ref.find_revision id (Ref.revisions q) with
  | Some (w, r) => exists t, SDB.RevertToSnapshot keccak s id = Done t /\
                     matches t (Ref.mk w r (Ref.nextRevisionId q))
  | None => SDB.RevertToSnapshot keccak s id = Panic InvalidRevision
  end.
Proof.
  intros [Hr Hn]. destruct (Ref.find_revision id (Ref.revisions q)) as [[w r]|] eqn:Hf.
  - apply find_revision_split in Hf as [r1 Hf]. destruct Hr as [Hv Hs].
    rewrite Hf, fmap_app, fmap_cons in Hs. destruct (snaps_Revert _ _ _ _ _ Hs) as (t & u & Ht & Htu & Hu & Hr2 & Hnt).
    exists t. split; [done|]. split; [|by rewrite Hnt]. split; [|done]. eapply view_agree; [symmetry; exact Htu|done].
  - apply Revert_invalid. rewrite (snaps_valid _ _ _ (proj2 Hr)), <-list_fmap_compose.
    apply find_revision_none in Hf. done.
Qed.

(** Getters, and setters on a world, in the simulation below. *)
Ltac get_case L := eexists; split; [by rewrite L|done].
Ltac set_case Hset x L := eexists; split; [done|]; eapply (Hset x); [done..|]; apply L.

Lemma call_matches s q x : matches s q ->
  match vm_call (H:=Ref.ops keccak) q x with
  | Done (q', r) => exists s', vm_call s x = Done (s', r) /\ matches s' q'
  | Panic p => vm_call s x = Panic p
  | OutOfFuel => False
  end.
Proof.
  intros Hm. pose proof Hm as [Hr Hn]. pose proof (proj1 Hr) as Hv.
  pose proof (fun y t w' => setter_matches s q y t w' Hm) as Hset.
  destruct x; cbn -[SDB.Suicide SDB.Snapshot SDB.SubRefund].
  - set_case Hset (OCreateAccount a) @CreateAccount_represents; done.
  - set_case Hset (OSubBalance a v) @SubBalance_represents; done.
  - set_case Hset (OAddBalance a v) @AddBalance_represents; done.
  - get_case (GetBalance_view s _ a Hv).
  - get_case (GetNonce_view s _ a Hv).
  - set_case Hset (OSetNonce a n) @SetNonce_represents; done.
  - get_case (GetCodeHash_view s _ a Hv).
  - get_case (GetCode_view s _ a Hv).
  - set_case Hset (OSetCode a (Some c)) @SetCode_represents; done.
  - get_case (GetCodeSize_view s _ a Hv).
  - set_case Hset (OAddRefund g) @AddRefund_represents; done.
  - destruct (Z.ltb_spec (w_refund (Ref.world q)) g); simpl.
    + unfold SDB.SubRefund. cbn [refund SO.journal_append with_journal]. rewrite (view_refund _ _ Hv).
      by rewrite (proj2 (Z.ltb_lt _ _)).
    + destruct (SubRefund_represents s _ _ g Hr) as (t & Ht & Hrt); [done|]. rewrite Ht. eexists. split; [done|].
      by eapply (Hset (OSubRefund g)).
  - eexists. split; [by rewrite (view_refund _ _ Hv)|done].
  - get_case (GetCommittedState_view s _ a k Hv).
  - get_case (GetState_view s _ a k Hv).
  - set_case Hset (OSetState a k v) @SetState_represents; done.
  - rewrite <-(Suicide_result _ _ _ Hv). pose proof (Suicide_represents _ _ _ a Hr) as Hs.
    apply (Hset (OSuicide a)) in Hs; [|done..]. destruct (SDB.Suicide keccak s a) as [t b]. by eexists.
  - get_case (HasSuicided_view s _ a Hv).
  - get_case (Exist_view s _ a Hv).
  - get_case (Empty_view s _ a Hv).
  - pose proof (Revert_matches s q id Hm) as Hrev. destruct (Ref.find_revision _ _) as [[w r]|]; simpl.
    + destruct Hrev as (t & -> & Ht). by eexists.
    + by rewrite Hrev.
  - pose proof (Snapshot_represents _ _ _ Hr) as Hs. simpl in *. rewrite Hn. eexists. split; [done|].
    split; [|simpl; lia]. by rewrite Hn in Hs.
  - set_case Hset (OAddLog l) @AddLog_represents; done.
  - set_case Hset (OAddPreimage h p) @AddPreimage_represents; done.
Qed.

(** C2: the state database implements the world.  A sequence of calls of the
    vm.StateDB interface on a StateDB (with its caches, its tries and its
    journal) returns the same results, panics in the same cases and ends in a
    corresponding state as on the reference implementation, which keeps whole
    copies of the world as snapshots.  What the tries return when a read fails
    is not assumed. *)
Theorem StateDB_refines_reference s q l : matches s q ->
  match vm_calls (H:=Ref.ops keccak) q l with
  | Done (q', rs) => exists s', vm_calls s l = Done (s', rs) /\ matches s' q'
  | Panic p => vm_calls s l = Panic p
  | OutOfFuel => False
  end.
Proof.
  revert s q. induction l as [|x l IH]; intros s q Hm; simpl; [by eauto|].
  pose proof (call_matches s q x Hm) as Hx. destruct (vm_call q x) as [[q1 r]|p|]; simpl; [|by rewrite Hx|done].
  destruct Hx as (s1 & -> & Hm1). simpl. specialize (IH s1 q1 Hm1).
  destruct (vm_calls q1 l) as [[q2 rs]|p|]; simpl; [|by rewrite IH|done].
  destruct IH as (s2 & -> & Hm2). simpl. by eauto.
Qed.
End Reference.
