(* ===== verification/StateFinal.v ===== *)
(** * core/state: the end of a transaction
    The dirty counters of the journal cover every account that changed since
    the transaction began, reverts included, so that Finalise visits all of
    them; Finalise then makes the current storage the committed one and drops
    the destructed (and, with EIP 158, the empty) accounts it visits. *)

From S2P Require Import Prelude MathUtil VmBase VmEnv World Rlp RlpStream RlpRaw.
From S2P Require Import StateDB StateView StateJournal StateSnap StateRefine.

#[local] Arguments be_bytes : simpl never.

Section Dirty.
Context {keccak : bytes -> Hash} {D T : Type} `{StoreReads keccak D T}.
Implicit Types (s t u : StateDB D T) (o p : stateObject T) (a : Address) (e : journalEntry T) (j : journal T).

(** ** Counting dirty entries *)

Fixpoint count a (es : list (journalEntry T)) : Z :=
  match es with
  | [] => 0
  | e :: es => (if decide (dirtied e = Some a) then 1 else 0) + count a es
  end.

Definition dirt j a : Z := default 0 (dirties j !! a).

(** The counter is exact but for the address of the RIPEMD-160 contract, where
    it is a bound. *)
Definition journal_ok j : Prop := forall a, count a (entries j) <= dirt j a.

Lemma count_nonneg a es : 0 <= count a es.
Proof. induction es as [|e es IH]; simpl; [lia|]. destruct (decide _); lia. Qed.

Lemma count_app a es1 es2 : count a (es1 ++ es2) = count a es1 + count a es2.
Proof. induction es1 as [|e es1 IH]; simpl; [done|]. rewrite IH. lia. Qed.

Lemma dirt_dirty j b a : dirt (dirty j b) a = dirt j a + (if decide (b = a) then 1 else 0).
Proof.
  unfold dirt, dirty; simpl. destruct (decide (b = a)) as [->|].
  - by rewrite lookup_insert_eq.
  - rewrite lookup_insert_ne by done. lia.
Qed.

Lemma journal_ok_append j e : journal_ok j -> journal_ok (append j e).
Proof.
  intros Hj a. specialize (Hj a). rewrite entries_append. simpl. unfold append.
  destruct (dirtied e) as [b|]; [|rewrite decide_False by done; done].
  rewrite dirt_dirty. change (dirt (mkJournal T (e :: entries j) (dirties j)) a) with (dirt j a).
  destruct (decide (Some b = Some a)), (decide (b = a)); naive_solver lia.
Qed.

Lemma journal_ok_dirty j a : journal_ok j -> journal_ok (dirty j a).
Proof. intros Hj b. rewrite dirt_dirty. specialize (Hj b). simpl. destruct (decide _); lia. Qed.

Lemma dirt_undirty j e a : dirt (undirty j e) a = dirt j a - (if decide (dirtied e = Some a) then 1 else 0).
Proof.
  unfold undirty. destruct (dirtied e) as [b|]; [|rewrite decide_False by done; lia].
  unfold dirt; simpl. destruct (decide (b = a)) as [->|Hne].
  - rewrite decide_True by done. destruct (Z.eqb_spec (default 0 (dirties j !! a) - 1) 0) as [Hz|].
    + rewrite lookup_delete_eq, Hz. done.
    + by rewrite lookup_insert_eq.
  - rewrite decide_False by naive_solver. destruct (_ =? 0); simplify_map_eq; lia.
Qed.

(** Undoing an entry does not touch the journal. *)
Lemma getStateObject_journal s a : journal_ (fst (SDB.getStateObject keccak s a)) = journal_ s.
Proof. destruct (getStateObject_live s a) as [_ Hk]. apply Hk. Qed.

Lemma revert_entry_journal e s t : SDB.revert_entry keccak e s = Done t -> journal_ t = journal_ s.
Proof.
  assert (forall a f, SDB.on_object keccak s a f = Done t -> journal_ t = journal_ s) as Hobj.
  { intros a f. unfold SDB.on_object. pose proof (getStateObject_journal s a) as Hr.
    destruct (SDB.getStateObject keccak s a) as [u [o|]]; intros; simplify_eq. done. }
  destruct e; cbn [SDB.revert_entry]; intros Ht; simplify_eq; eauto.
  - pose proof (getStateObject_journal s account) as Hr.
    destruct (SDB.getStateObject keccak s account) as [u [o|]]; simplify_eq; done.
  - destruct (default _ _) as [|? [|]]; simplify_eq; done.
Qed.

Lemma revert_loop_dirt es s t a :
  SDB.revert_loop keccak es s = Done t -> dirt (journal_ t) a = dirt (journal_ s) a - count a es.
Proof.
  revert s. induction es as [|e es IH]; intros s Ht; simpl in Ht; [simplify_eq; simpl; lia|].
  apply bind_Done in Ht as (u & Hu & Ht). apply revert_entry_journal in Hu. apply IH in Ht. rewrite Ht. simpl.
  rewrite dirt_undirty, Hu. lia.
Qed.

Lemma journal_ok_revert s idx t : journal_ok (journal_ s) -> SDB.journal_revert keccak s idx = Done t -> journal_ok (journal_ t).
Proof.
  unfold SDB.journal_revert. intros Hj Ht. apply bind_Done in Ht as (u & Hu & Ht). simplify_eq/=.
  intros a. specialize (Hj a). simpl. rewrite <-(take_drop (Z.to_nat (zlen (entries (journal_ s)) - idx)) (entries (journal_ s))), count_app in Hj.
  pose proof (revert_loop_dirt _ _ _ a Hu) as Hd.
  unfold dirt in *. simpl. rewrite Hd. lia.
Qed.

(** *** Operations only append to the journal *)

Definition jstep j j' : Prop := (exists e, j' = append j e) \/ exists a, j' = dirty j a.

Lemma journal_ok_steps j j' : rtc jstep j j' -> journal_ok j -> journal_ok j'.
Proof.
  induction 1 as [|j1 j2 j3 [[e ->]|[a ->]] _ IH]; intros Hj; [done|..]; apply IH;
    [by apply journal_ok_append|by apply journal_ok_dirty].
Qed.

Lemma jstep_append j e : rtc jstep j (append j e).
Proof. apply rtc_once. left. eauto. Qed.

Lemma createObject_journal s a : rtc jstep (journal_ s) (journal_ (fst (fst (SDB.createObject keccak s a)))).
Proof.
  unfold SDB.createObject. destruct (getDeleted_load s a) as [_ Hk].
  destruct (SDB.getDeletedStateObject keccak s a) as [t prev]. simpl. rewrite <-(kept_journal _ _ Hk). apply jstep_append.
Qed.

Lemma GetOrNew_journal s a : rtc jstep (journal_ s) (journal_ (fst (SDB.GetOrNewStateObject keccak s a))).
Proof.
  unfold SDB.GetOrNewStateObject. pose proof (getStateObject_journal s a) as Hg.
  destruct (SDB.getStateObject keccak s a) as [t [o|]]; simpl in *; [by rewrite Hg|].
  pose proof (createObject_journal t a) as Hc. destruct (SDB.createObject keccak t a) as [[u o] prev]. simpl in *.
  by rewrite <-Hg.
Qed.

Lemma SetBalance_journal s o v : rtc jstep (journal_ s) (journal_ (SO.SetBalance s o v)).
Proof. apply jstep_append. Qed.

Lemma AddBalance_journal s o v : rtc jstep (journal_ s) (journal_ (SO.AddBalance keccak s o v)).
Proof.
  unfold SO.AddBalance, SO.touch. destruct (_ =? 0); [|apply SetBalance_journal].
  destruct (SO.empty keccak o); [|done]. destruct (_ =? ripemd); [|apply jstep_append].
  eapply rtc_r; [apply jstep_append|]. right. by eexists.
Qed.

Lemma SetState_journal s o k v : rtc jstep (journal_ s) (journal_ (SO.SetState s o k v)).
Proof.
  unfold SO.SetState. destruct (fakeStorage o); [done|]. destruct (SO.GetState (db s) o k) as [p x].
  destruct (x =? v); [done|apply jstep_append].
Qed.

Lemma SetCode_journal s o h c : rtc jstep (journal_ s) (journal_ (SO.SetCode keccak s o h c)).
Proof. unfold SO.SetCode. destruct (SO.Code keccak (db s) o). apply jstep_append. Qed.

Lemma exec_journal s x t : good s -> (forall id, x <> ORevert id) -> exec (keccak:=keccak) s x = Done t ->
  rtc jstep (journal_ s) (journal_ t).
Proof.
  intros Hg Hx Ht.
  assert (forall a (f : StateDB D T * stateObject T -> StateDB D T),
    (forall u o, rtc jstep (journal_ u) (journal_ (f (u, o)))) ->
    rtc jstep (journal_ s) (journal_ (f (SDB.GetOrNewStateObject keccak s a)))) as Hset.
  { intros a f Hf. etrans; [apply (GetOrNew_journal s a)|].
    destruct (SDB.GetOrNewStateObject keccak s a) as [u o]. apply Hf. }
  destruct x; cbn [exec] in Ht; simplify_eq; try solve [by destruct (Hx id)].
  - pose proof (createObject_journal s a) as Hc. unfold SDB.CreateAccount.
    by destruct (SDB.createObject keccak s a) as [[u o] [p|]].
  - apply (Hset a (fun uo => let '(u, o) := uo in SO.AddBalance keccak u o v)). intros. apply AddBalance_journal.
  - apply (Hset a (fun uo => let '(u, o) := uo in SO.SubBalance u o v)). intros. unfold SO.SubBalance.
    destruct (_ =? 0); [done|apply SetBalance_journal].
  - apply (Hset a (fun uo => let '(u, o) := uo in SO.SetBalance u o v)). intros. apply SetBalance_journal.
  - apply (Hset a (fun uo => let '(u, o) := uo in SO.SetNonce u o n)). intros. apply jstep_append.
  - apply (Hset a (fun uo => let '(u, o) := uo in SO.SetCode keccak u o (keccak (default [] c)) c)).
    intros. apply SetCode_journal.
  - apply (Hset a (fun uo => let '(u, o) := uo in SO.SetState u o k v)). intros. apply SetState_journal.
  - unfold SDB.Suicide. pose proof (getStateObject_journal s a) as Hj.
    destruct (SDB.getStateObject keccak s a) as [u [o|]]; simpl in *; rewrite <-Hj; [apply jstep_append|done].
  - apply jstep_append.
  - unfold SDB.SubRefund in Ht. destruct (_ <? _); simplify_eq. apply jstep_append.
  - apply jstep_append.
  - unfold SDB.AddPreimage. destruct (_ !! h); [done|apply jstep_append].
  - by rewrite (kept_journal _ _ (GetCode_kept s a Hg)).
  - by rewrite (kept_journal _ _ (GetState_kept s a k Hg)).
  - done.
Qed.

(** ** Undoing entries on other accounts *)

Definition mentions a e : Prop :=
  dirtied e = Some a \/ exists p, e = resetObjectChange p /\ o_address p = a.

Definition addr_ok s : Prop := forall a o, load s a = Some o -> o_address o = a.

Lemma good_addr_ok s : good s -> addr_ok s.
Proof. intros Hg a o Ho. apply (good_address _ _ (good_load _ Hg _ _ Ho)). Qed.

(** The accounts of [t] are those of [s], but for [b]. *)
Definition others s t b : Prop :=
  db t = db s /\ addr_ok t /\ forall a, a <> b -> option_Forall2 (same (db s)) (load s a) (load t a).

Lemma others_set s t b o : kept s t -> addr_ok t -> o_address o = b -> others s (SO.setStateObject t o) b.
Proof.
  intros Hk Ht Ho. pose proof (kept_agree _ _ Hk) as Ha. split; [symmetry; apply Ha|]. split.
  - intros a p. rewrite load_set. destruct (decide _) as [->|]; [by intros [= <-]|apply Ht].
  - intros a Hab. rewrite load_set, decide_False by congruence. apply Ha.
Qed.

Lemma kept_addr_ok s t : kept s t -> addr_ok s -> addr_ok t.
Proof.
  intros Hk Hs a o Ho. destruct (load_agree_some t s a o) as (p & Hp & Hop); [symmetry; apply Hk|done|].
  rewrite (same_address _ _ _ Hop). by apply Hs.
Qed.

Lemma on_object_others s a f t : addr_ok s -> (forall o, o_address (f o) = o_address o) ->
  SDB.on_object keccak s a f = Done t -> others s t a.
Proof.
  intros Hs Hf. unfold SDB.on_object. destruct (getStateObject_live s a) as [Hl Hk].
  destruct (SDB.getStateObject keccak s a) as [u so]. simpl in *. subst so.
  destruct (live s a) as [o|] eqn:Ho; [|done]. intros [= <-]. apply live_load in Ho as [Ho _].
  apply others_set; [done|by eapply kept_addr_ok|]. rewrite Hf. by apply Hs.
Qed.

Lemma revert_entry_others e s t : addr_ok s -> SDB.revert_entry keccak e s = Done t ->
  db t = db s /\ addr_ok t /\ forall a, ~ mentions a e -> option_Forall2 (same (db s)) (load s a) (load t a).
Proof.
  intros Hs Ht.
  assert (forall b, others s t b -> mentions b e ->
    db t = db s /\ addr_ok t /\ forall a, ~ mentions a e -> option_Forall2 (same (db s)) (load s a) (load t a)) as Hoth.
  { intros b (Hd & Ha & Hl) Hm. split; [done|]. split; [done|]. intros a Hna. apply Hl. by intros ->. }
  destruct e; cbn [SDB.revert_entry] in Ht; simplify_eq; try done.
  - split; [done|]. assert (forall b, b <> account -> load (with_objects s (delete account (stateObjects s))
      (stateObjectsPending s) (stateObjectsDirty s ∖ {[account]})) b = load s b) as Hl.
    { intros b Hb. unfold load; simpl. by rewrite lookup_delete_ne. }
    split.
    + intros b o Ho. destruct (decide (b = account)) as [->|Hb]; [|rewrite Hl in Ho by done; by apply Hs].
      unfold load in Ho; simpl in Ho. rewrite lookup_delete_eq in Ho. unfold from_trie in Ho.
      destruct (_ =? _)%nat; [done|]. destruct (decodeAccount _); simplify_eq. done.
    + intros b Hb. rewrite Hl; [done|]. intros ->. apply Hb. by left.
  - eapply (Hoth (o_address prev)); [|right; eauto]. by apply others_set.
  - destruct (getStateObject_live s account) as [Hl Hk]. destruct (SDB.getStateObject keccak s account) as [u so].
    simpl in *. subst so. destruct (live s account) as [o|] eqn:Ho; simplify_eq.
    + apply live_load in Ho as [Ho _]. eapply (Hoth account); [|by left].
      apply others_set; [done|by eapply kept_addr_ok|]. exact (Hs _ _ Ho).
    + pose proof (kept_agree _ _ Hk) as Ha. split; [symmetry; apply Ha|]. split; [by eapply kept_addr_ok|]. intros; apply Ha.
  - eapply Hoth; [eapply on_object_others; [done| |exact Ht]; done|by left].
  - eapply Hoth; [eapply on_object_others; [done| |exact Ht]; done|by left].
  - eapply Hoth; [eapply on_object_others; [done| |exact Ht]; done|by left].
  - eapply Hoth; [eapply on_object_others; [done| |exact Ht]; done|by left].
  - destruct (default _ _) as [|? [|]]; simplify_eq; done.
Qed.

Lemma revert_loop_others es s t a : addr_ok s -> SDB.revert_loop keccak es s = Done t ->
  Forall (fun e => ~ mentions a e) es -> db t = db s /\ option_Forall2 (same (db s)) (load s a) (load t a).
Proof.
  revert s. induction es as [|e es IH]; intros s Hs Ht Ha; simpl in Ht; [by simplify_eq|].
  apply bind_Done in Ht as (u & Hu & Ht). apply Forall_cons in Ha as [Hae Ha].
  destruct (revert_entry_others _ _ _ Hs Hu) as (Hd & Hu' & Hl).
  destruct (IH (with_journal u (undirty (journal_ u) e))) as [Hd' Hl']; [done..|]. split; [by rewrite Hd'|].
  etrans; [by apply Hl|]. simpl in Hl'. by rewrite <-Hd.
Qed.

(** ** The dirty set is complete *)

(** The state at the start of a transaction. *)
Record tx_start s : Prop := mkTxStart {
  ts_good : good s;
  ts_entries : entries (journal_ s) = [];
  ts_dirties : journal_ok (journal_ s);
  ts_revisions : validRevisions s = [];
  ts_refund : refund s = 0 }.

(** A state the transaction that started at [s] can lead to. *)
Record in_tx s t : Prop := mkInTx {
  it_wf : wf (keccak:=keccak) t;
  it_journal : journal_ok (journal_ t);
  it_back : revertible (keccak:=keccak) (agree s) t 0 }.

Lemma exec_wf s x t : wf (keccak:=keccak) s -> exec (keccak:=keccak) s x = Done t -> wf (keccak:=keccak) t.
Proof.
  intros (Hg & r & Hr & Hgr) Ht.
  assert (tracked (keccak:=keccak) (nextRevisionId s - 1) (fun _ => True) s) as Hs.
  { split; [done|]. split; [lia|]. exists r. done. }
  apply (exec_tracked _ _ _ _ _ Hs) in Ht as (Hg' & _ & r' & Hr' & Hgr' & _). split; [done|]. eauto.
Qed.

Lemma wf_start s : tx_start s -> wf (keccak:=keccak) s.
Proof.
  intros [Hg He Hd Hr _]. split; [done|]. exists []. split; [|constructor]. split; rewrite Hr; constructor.
Qed.

Lemma exec_in_tx s t x u : in_tx s t -> exec (keccak:=keccak) t x = Done u -> in_tx s u.
Proof.
  intros [Hw Hj Hb] Hu. pose proof (exec_wf _ _ _ Hw Hu) as Hwu. pose proof Hw as [Hg (r & Hr & _)].
  assert (x = OSnapshot \/ (exists i, x = ORevert i) \/ x <> OSnapshot /\ (forall i, x <> ORevert i))
    as [->|[[i ->]|[Hx1 Hx2]]] by (destruct x; naive_solver).
  - cbn [exec] in Hu. simplify_eq. split; [done..|]. eapply revertible_agree; [apply agree_with_revisions|done|done].
  - cbn [exec] in Hu. destruct (decide (i ∈ rev_id <$> validRevisions t)) as [Hi|Hi];
      [|by rewrite Revert_invalid in Hu].
    destruct (Revert_back _ _ _ _ Hr Hi Hu) as (idx & v & Hv & Huv & Hidx & Hback).
    assert (agree v u /\ journal_ u = journal_ v) as [Hag Hju]
      by (rewrite Huv; split; [apply agree_with_revisions|done]).
    split; [done|rewrite Hju; by apply (journal_ok_revert t idx v)|].
    apply (revertible_agree _ v); [done|by rewrite Hju|]. by apply Hback.
  - destruct (exec_extends t x u) as [He _]; [done..|]. split; [done| |by eapply revertible_extends].
    eapply journal_ok_steps; [|done]. by eapply exec_journal.
Qed.

Lemma exec_all_in_tx s l t : tx_start s -> exec_all (keccak:=keccak) s l = Done t -> in_tx s t.
Proof.
  intros Hs. assert (in_tx s s) as Hi.
  { split; [by apply wf_start|apply Hs|]. exists [], []. split; [apply Hs|]. split; [done|]. by exists s, s. }
  revert Hi. generalize s at 2 3 as u. induction l as [|x l IH]; intros u Hi Ht; simpl in Ht; [by simplify_eq|].
  apply bind_Done in Ht as (v & Hv & Ht). eapply IH; [|done]. by eapply exec_in_tx.
Qed.

(** Undoing the whole journal leads back to the start. *)
Lemma in_tx_back s t : in_tx s t ->
  exists u, SDB.revert_loop keccak (entries (journal_ t)) t = Done u /\ agree u s.
Proof.
  intros [_ _ (es1 & es2 & He & Hi & u & v & Hu & Huv & Hsv)].
  assert (es2 = []) as -> by (destruct es2; [done|simpl in Hi; lia]). rewrite app_nil_r in He.
  exists u. rewrite He. split; [done|]. by rewrite Huv.
Qed.

Lemma count_zero a es e : count a es = 0 -> e ∈ es -> dirtied e <> Some a.
Proof.
  induction es as [|e' es IH]; simpl; [by intros _ ?%elem_of_nil|]. pose proof (count_nonneg a es).
  intros Hc [->|He]%elem_of_cons; destruct (decide _); [lia|done|lia|]. apply IH; [lia|done].
Qed.

(** Accounts set aside by createObject. *)
Definition resets s a : Prop := exists p, resetObjectChange p ∈ entries (journal_ s) /\ o_address p = a.

Lemma untouched_same s t a : in_tx s t -> a ∉ dom (dirties (journal_ t)) -> ~ resets t a ->
  db t = db s /\ option_Forall2 (same (db s)) (load s a) (load t a).
Proof.
  intros Hi Ha Hr. destruct (in_tx_back _ _ Hi) as (u & Hu & Hus). pose proof (it_wf _ _ Hi) as [Hg _].
  destruct (revert_loop_others (entries (journal_ t)) t u a) as [Hd Hl]; [by apply good_addr_ok|done| |].
  - apply Forall_forall. intros e He [Hm|(p & -> & Hp)]; [|apply Hr; by exists p].
    apply (count_zero a) in He; [done|]. pose proof (it_journal _ _ Hi a) as Hj.
    pose proof (count_nonneg a (entries (journal_ t))). apply not_elem_of_dom in Ha.
    unfold dirt in Hj. rewrite Ha in Hj. simpl in Hj. lia.
  - pose proof (agree_db _ _ Hus) as Hdb. split; [congruence|]. rewrite <-Hdb, Hd. symmetry.
    etrans; [exact Hl|]. rewrite <-Hd. apply Hus.
Qed.
End Dirty.

(** ** What Finalise does to the world *)

Section Finalise_.
Context {keccak : bytes -> Hash} {D T : Type} `{StoreReads keccak D T}.
Implicit Types (s t u : StateDB D T) (o p : stateObject T) (a : Address) (w : World).

Definition set_a_committed (x : Acct) : Acct :=
  mkAcct (a_nonce x) (a_balance x) (a_codeHash x) (a_code x) (a_suicided x) (a_storage x) (a_storage x).

(** The accounts in [touched] are settled; the others stay as they are. *)
Definition finalise_acct (del : bool) (touched : gset Address) a (x : Acct) : option Acct :=
  if decide (a ∈ touched) then
    if a_suicided x || (del && W.is_empty keccak x) then None else Some (set_a_committed x)
  else Some x.

Definition finalise_world (del : bool) (touched : gset Address) w : World :=
  mkWorld (map_imap (finalise_acct del touched) (accts w)) 0 (w_logs w) (w_preimages w).

(** The accounts Finalise visits. *)
Definition touched s : gset Address := dom (dirties (journal_ s)) ∩ dom (stateObjects s).

Definition finalise_obj (del : bool) o : stateObject T :=
  if suicided o || (del && SO.empty keccak o) then with_flags o (suicided o) true else SO.finalise o.

(** [t] is [s] with the objects at [l] settled and scheduled to be written. *)
Record settled_at del s (l : list Address) t : Prop := mkSettledAt {
  sa_rest : t = with_objects s (stateObjects t) (stateObjectsPending t) (stateObjectsDirty t);
  sa_in a : a ∈ l -> stateObjects t !! a = finalise_obj del <$> stateObjects s !! a;
  sa_out a : a ∉ l -> stateObjects t !! a = stateObjects s !! a;
  sa_pending a : a ∈ stateObjectsPending t <-> a ∈ stateObjectsPending s \/ a ∈ l /\ is_Some (stateObjects s !! a);
  sa_dirty a : a ∈ stateObjectsDirty t <-> a ∈ stateObjectsDirty s \/ a ∈ l /\ is_Some (stateObjects s !! a) }.

Lemma settled_one del s b : settled_at del s [b] (SDB.finalise_account keccak del s b).
Proof.
  unfold SDB.finalise_account. destruct (stateObjects s !! b) as [o|] eqn:Hb.
  - split; [done|..]; simpl.
    + intros a ->%list_elem_of_singleton. by rewrite lookup_insert_eq, Hb.
    + intros a Ha. rewrite lookup_insert_ne; set_solver.
    + intros a. rewrite elem_of_union, elem_of_singleton, list_elem_of_singleton. naive_solver.
    + intros a. rewrite elem_of_union, elem_of_singleton, list_elem_of_singleton. naive_solver.
  - split; [by destruct s|..].
    + intros a ->%list_elem_of_singleton. by rewrite Hb.
    + done.
    + intros a. rewrite list_elem_of_singleton. split; [by left|]. intros [|[-> []]]; [done|]; congruence.
    + intros a. rewrite list_elem_of_singleton. split; [by left|]. intros [|[-> []]]; [done|]; congruence.
Qed.

Lemma settled_all del l s : NoDup l -> settled_at del s l (foldl (SDB.finalise_account keccak del) s l).
Proof.
  revert s. induction l as [|b l IH]; intros s Hnd; simpl.
  - split; [by destruct s|set_solver..].
  - apply NoDup_cons in Hnd as [Hb Hnd]. specialize (IH (SDB.finalise_account keccak del s b) Hnd).
    pose proof (settled_one del s b) as [H1 H2 H3 H4 H5]. set (u := SDB.finalise_account keccak del s b) in *.
    set (t := foldl _ _ _) in *. clearbody t u. destruct IH as [K1 K2 K3 K4 K5].
    assert (forall a, is_Some (stateObjects u !! a) <-> is_Some (stateObjects s !! a)) as Hs.
    { intros a. destruct (decide (a ∈ [b])); [rewrite H2 by done; by rewrite fmap_is_Some|by rewrite H3]. }
    split.
    + rewrite K1 at 1. by rewrite H1.
    + intros a [->|Ha]%elem_of_cons; [rewrite K3 by done; apply H2; set_solver|].
      rewrite K2, H3; [done|set_solver|done].
    + intros a Ha. rewrite K3, H3; set_solver.
    + intros a. rewrite K4, H4, Hs, list_elem_of_singleton, elem_of_cons. naive_solver.
    + intros a. rewrite K5, H5, Hs, list_elem_of_singleton, elem_of_cons. naive_solver.
Qed.

Lemma load_settled del s l t a : settled_at del s l t ->
  load t a = if decide (a ∈ l /\ is_Some (stateObjects s !! a)) then finalise_obj del <$> stateObjects s !! a else load s a.
Proof.
  intros [Hr Hin Hout _ _]. unfold load. assert (trie t = trie s) as -> by by rewrite Hr.
  destruct (decide (a ∈ l)) as [Ha|Ha].
  - rewrite Hin by done. destruct (stateObjects s !! a) as [o|]; simpl.
    + by rewrite decide_True by eauto.
    + rewrite decide_False; [done|]. by intros [_ []].
  - rewrite Hout by done. rewrite decide_False by naive_solver. done.
Qed.

Lemma committed_finalise d o k : fakeStorage o = None ->
  committed_of (keccak:=keccak) d (SO.finalise o) k = state_of (keccak:=keccak) d o k.
Proof.
  intros Hf. unfold committed_of, state_of. simpl. rewrite Hf.
  rewrite lookup_union. destruct (dirtyStorage o !! k) eqn:E; rewrite ?E.
  - by rewrite union_Some_l.
  - rewrite (left_id_L None (∪)). unfold committed_of. by rewrite Hf.
Qed.

Lemma state_finalise d o k : fakeStorage o = None ->
  state_of (keccak:=keccak) d (SO.finalise o) k = state_of (keccak:=keccak) d o k.
Proof.
  intros Hf. rewrite <-(committed_finalise d o k Hf). unfold state_of at 1. simpl. by rewrite Hf, lookup_empty.
Qed.

Lemma finalise_obj_good del a o :
  obj_good a o -> (suicided o = true -> Balance (o_data o) = 0) -> obj_good a (finalise_obj del o).
Proof.
  intros [Ha Hf Hc Hd] Hs. unfold finalise_obj. destruct (suicided o) eqn:Es; simpl; [by split; auto|].
  destruct del; simpl; [|by split]. destruct (SO.empty keccak o) eqn:He; [|by split].
  split; try done. intros _. unfold SO.empty in He. simpl. apply andb_prop in He as [[_ He]%andb_prop _]. lia.
Qed.

Lemma finalise_obj_view d del o x :
  fakeStorage o = None -> CodeHash (o_data o) = HashBytes (hash_of (CodeHash (o_data o))) -> deleted o = false ->
  acct_view (keccak:=keccak) d o x ->
  option_Forall2 (acct_view (keccak:=keccak) d)
    (if deleted (finalise_obj del o) then None else Some (finalise_obj del o))
    (if a_suicided x || (del && W.is_empty keccak x) then None else Some (set_a_committed x)).
Proof.
  intros Hf Hc Hd Hx. unfold finalise_obj. rewrite <-(empty_view _ _ _ Hx Hc), <-(av_suicided _ _ _ Hx).
  destruct (suicided o || _) eqn:E; simpl; [constructor|]. rewrite Hd. constructor.
  destruct Hx. split; try done; intros k; simpl.
  - by rewrite state_finalise.
  - by rewrite committed_finalise.
Qed.

(** The fields of a cleared state. *)
Lemma clear_agree s : entries (journal_ s) <> [] \/ refund s = 0 ->
  agree (with_refund s 0) (SDB.clearJournalAndRefund s) /\
  entries (journal_ (SDB.clearJournalAndRefund s)) = [] /\
  validRevisions (SDB.clearJournalAndRefund s) = [] /\
  (journal_ok (journal_ s) -> journal_ok (journal_ (SDB.clearJournalAndRefund s))).
Proof.
  unfold SDB.clearJournalAndRefund. intros Hr. destruct (entries (journal_ s)) as [|e es] eqn:E; simpl.
  - destruct Hr as [?|Hr]; [done|]. split; [|done]. destruct s; simpl in *; subst. by split.
  - split; [by split|]. split; [done|]. split; [done|]. intros _ a. simpl. unfold dirt; simpl.
    by rewrite lookup_empty.
Qed.

Lemma in_tx_refund s t : tx_start s -> in_tx s t -> entries (journal_ t) <> [] \/ refund t = 0.
Proof.
  intros Hs Hi. destruct (entries (journal_ t)) as [|e es] eqn:E; [right|by left].
  destruct (in_tx_back _ _ Hi) as (u & Hu & Hus). rewrite E in Hu. simpl in Hu. simplify_eq.
  rewrite (agree_refund _ _ Hus). apply Hs.
Qed.

(** No account that destructed itself holds funds. *)
Definition no_stranded w : Prop :=
  forall a x, accts w !! a = Some x -> a_suicided x = true -> a_balance x = 0.

Lemma finalise_obj_deleted del o : deleted o = true -> deleted (finalise_obj del o) = true.
Proof. unfold finalise_obj. by destruct (suicided o || _). Qed.

Lemma settled_view del t u w :
  settled_at del t (elements (dom (dirties (journal_ t)))) u -> view t w -> no_stranded w ->
  view (with_refund u 0) (finalise_world del (touched t) w).
Proof.
  intros Hset Hv Hns. pose proof (view_good _ _ Hv) as Hg. pose proof (sa_rest _ _ _ _ Hset) as Hu.
  assert (forall a, a ∈ touched t <->
    a ∈ elements (dom (dirties (journal_ t))) /\ is_Some (stateObjects t !! a)) as Hin.
  { intros a. unfold touched. rewrite elem_of_intersection, elem_of_elements, !elem_of_dom. done. }
  assert (forall a, load (with_refund u 0) a = _) as Hl by exact (fun a => load_settled del t _ u a Hset).
  assert (forall a o, stateObjects t !! a = Some o -> load t a = Some o) as Hlo by (intros a o Ho; unfold load; by rewrite Ho).
  split.
  - split; [|by rewrite Hu; apply Hg]. intros a o. rewrite Hl.
    destruct (decide _) as [[_ [p Hp]]|_]; [|apply Hg]. rewrite Hp. intros [= <-].
    pose proof (good_load _ Hg _ _ (Hlo _ _ Hp)) as Hgp. apply finalise_obj_good; [done|]. intros Hsu.
    destruct (deleted p) eqn:Hd; [by apply Hgp|].
    pose proof (view_acct _ _ Hv a) as Ha. unfold live in Ha. rewrite (Hlo _ _ Hp), Hd in Ha.
    inversion Ha as [? x Hx Hpx|]; subst. rewrite (av_balance _ _ _ Hx). eapply Hns; [done|]. by rewrite <-(av_suicided _ _ _ Hx).
  - intros a. change (db (with_refund u 0)) with (db u). replace (db u) with (db t) by by rewrite Hu.
    unfold live. rewrite Hl. simpl. rewrite map_lookup_imap. pose proof (view_acct _ _ Hv a) as Ha.
    unfold finalise_acct. destruct (decide (a ∈ elements _ /\ _)) as [Hd|Hd].
    + pose proof (proj2 (Hin a) Hd) as Ht. destruct Hd as [_ [o Ho]]. rewrite Ho. simpl.
      unfold live in Ha. rewrite (Hlo _ _ Ho) in Ha. pose proof (good_load _ Hg _ _ (Hlo _ _ Ho)) as Hgo.
      destruct (deleted o) eqn:Hdo; inversion Ha as [? x Hx|]; subst; simpl.
      * rewrite finalise_obj_deleted by done. constructor.
      * rewrite decide_True by done. by apply finalise_obj_view; try apply Hgo.
    + fold (live t a). destruct Ha as [o x Hx|]; simpl; [|constructor].
      rewrite decide_False by (by rewrite Hin). by constructor.
  - done.
  - rewrite Hu. apply Hv.
  - rewrite Hu. apply Hv.
Qed.

Lemma Finalise_view s t del w :
  tx_start s -> in_tx s t -> view t w -> no_stranded w ->
  view (SDB.Finalise keccak t del) (finalise_world del (touched t) w) /\ tx_start (SDB.Finalise keccak t del).
Proof.
  intros Hs Hi Hv Hns. pose proof (view_good _ _ Hv) as Hg.
  assert (settled_at del t (elements (dom (dirties (journal_ t))))
    (foldl (SDB.finalise_account keccak del) t (elements (dom (dirties (journal_ t)))))) as Hset
    by apply settled_all, NoDup_elements.
  unfold SDB.Finalise. set (u := foldl _ _ _) in *. clearbody u. pose proof (sa_rest _ _ _ _ Hset) as Hu.
  assert (journal_ u = journal_ t /\ refund u = refund t) as [Hju Hru] by by rewrite Hu.
  destruct (clear_agree u) as (Hag & He & Hval & Hok); [rewrite Hju, Hru; by eapply in_tx_refund|].
  assert (db u = db t) as Hdb by by rewrite Hu.
  pose proof (settled_view _ _ _ _ Hset Hv Hns) as Hview.
  assert (view (SDB.clearJournalAndRefund u) (finalise_world del (touched t) w)) as Hfin by by eapply view_agree.
  split; [done|]. split; [apply Hfin|done| |done|].
  - apply Hok. rewrite Hju. apply Hi.
  - by rewrite <-(agree_refund _ _ Hag).
Qed.

(** No account is about to be destructed, and the storage the getters show is
    the committed one. *)
Definition settled_world w : Prop :=
  forall a x, accts w !! a = Some x ->
    a_suicided x = false /\ forall k, slot (a_storage x) k = slot (a_committed x) k.

Definition settled_obj d o : Prop :=
  suicided o = false /\ forall k, state_of (keccak:=keccak) d o k = committed_of (keccak:=keccak) d o k.

Lemma settled_acct d o x : acct_view (keccak:=keccak) d o x ->
  settled_obj d o <-> a_suicided x = false /\ forall k, slot (a_storage x) k = slot (a_committed x) k.
Proof.
  intros []. unfold settled_obj. rewrite av_suicided. setoid_rewrite av_state. by setoid_rewrite av_committed.
Qed.

Lemma settled_same d o p : same (keccak:=keccak) d o p -> settled_obj d o -> settled_obj d p.
Proof. intros [] [Hs Hk]. split; congruence. Qed.

Lemma from_trie_settled d (tr : T) a o : from_trie (keccak:=keccak) tr a = Some o -> settled_obj d o.
Proof.
  unfold from_trie. destruct (_ =? _)%nat; [done|]. destruct (decodeAccount _); [|done]. intros [= <-].
  split; [done|]. intros k. unfold state_of. simpl. by rewrite lookup_empty.
Qed.

(** An account the transaction left out is as settled as it was. *)
Lemma untouched_settled s t w0 a o :
  in_tx s t -> view s w0 -> settled_world w0 -> (resets t a -> a ∈ dom (dirties (journal_ t))) ->
  a ∉ touched t -> live t a = Some o -> settled_obj (db t) o.
Proof.
  intros Hi Hv Hw Hr Ha Ho. apply live_load in Ho as [Ho Hd]. unfold load in Ho.
  destruct (stateObjects t !! a) as [p|] eqn:Hp; [simplify_eq|by eapply from_trie_settled].
  assert (a ∉ dom (dirties (journal_ t))) as Hna.
  { intros Hin. apply Ha. unfold touched. apply elem_of_intersection. split; [done|]. by eapply elem_of_dom_2. }
  destruct (untouched_same s t a Hi Hna) as [Hdb Hl]; [naive_solver|]. rewrite Hdb.
  assert (load t a = Some o) as Hlt by (unfold load; by rewrite Hp). rewrite Hlt in Hl.
  inversion Hl as [q ? Hq Hlq|]; subst. eapply settled_same; [exact Hq|].
  pose proof (view_acct _ _ Hv a) as Hacct. unfold live in Hacct. rewrite <-Hlq, (same_deleted _ _ _ Hq), Hd in Hacct.
  inversion Hacct as [? x Hx Hx'|]; subst. apply (settled_acct _ _ _ Hx). by eapply Hw.
Qed.

Lemma finalise_settles s t del w0 w :
  in_tx s t -> view s w0 -> settled_world w0 -> view t w ->
  (forall a, resets t a -> a ∈ dom (dirties (journal_ t))) -> settled_world (finalise_world del (touched t) w).
Proof.
  intros Hi Hv0 Hw0 Hv Hr a x Hx. simpl in Hx. rewrite map_lookup_imap in Hx.
  destruct (accts w !! a) as [y|] eqn:Hy; [|done]. simpl in Hx. unfold finalise_acct in Hx.
  destruct (decide (a ∈ touched t)) as [Ha|Ha].
  - destruct (a_suicided y || _) eqn:E; simplify_eq. simpl. apply orb_false_iff in E as [-> _]. done.
  - simplify_eq. pose proof (view_acct _ _ Hv a) as Hacct. rewrite Hy in Hacct.
    inversion Hacct as [o ? Ho Hlive|]; subst. apply (settled_acct _ _ _ Ho).
    eapply (untouched_settled s t); [done..| |done|done]. apply Hr.
Qed.

(** C33: the end of a transaction.  Whatever a transaction does to the state
    between its start and Finalise (snapshots and reverts included), Finalise
    removes the accounts it touched that destructed themselves or, with EIP 158,
    are empty, makes the current storage of the others the committed one, clears
    the journal, the snapshots and the refund counter, and leaves a state in
    which every account is settled, ready for the next transaction.  Accounts
    that destructed themselves must hold no funds, and an account created over
    an existing one must have been changed after its creation, which alone does
    not mark it. *)
Theorem Finalise_settles s l t del w0 w :
  tx_start s -> view s w0 -> settled_world w0 -> exec_all (keccak:=keccak) s l = Done t -> view t w ->
  no_stranded w -> (forall a, resets t a -> a ∈ dom (dirties (journal_ t))) ->
  view (SDB.Finalise keccak t del) (finalise_world del (touched t) w) /\
  tx_start (SDB.Finalise keccak t del) /\ settled_world (finalise_world del (touched t) w).
Proof.
  intros Hs Hv0 Hw0 Ht Hv Hns Hr. pose proof (exec_all_in_tx _ _ _ Hs Ht) as Hi.
  destruct (Finalise_view s t del w) as [Hf Hts]; [done..|]. split; [done|]. split; [done|].
  by eapply finalise_settles.
Qed.
End Finalise_.
