(* ===== verification/VmOnState.v ===== *)
(** * core/vm on core/state
    The interpreter's theorems are proved against the contract of a state; the
    state database satisfies it, so that they hold of the interpreter running
    on the journaled state over its tries. *)

From S2P Require Import Prelude MathUtil VmBase VmEnv VmGas VmInstr VmTable VmInterp VmAnalysis.
From S2P Require Import World VmInv VmStep VmTableOk VmSafe VmMain StateDB StateView StateJournal StateSnap StateRefine.

Section On.
Context (env : Env) {D T : Type} `{HSt : Store D T} `{!StoreReads (keccak256 env) D T}.

#[local] Instance on_vm : vmStateDB (StateDB.StateDB D T) := StateDB_vm (keccak256 env).
#[local] Instance on_refines : StateRefines (keccak256 env) (StateDB.StateDB D T) := StateDB_refines.

(** What the getters of two states show is the same. *)
Definition same_getters (s t : StateDB.StateDB D T) : Prop :=
  (forall a, GetBalance t a = GetBalance s a /\ GetNonce t a = GetNonce s a /\ GetCode t a = GetCode s a /\
             GetCodeHash t a = GetCodeHash s a /\ GetCodeSize t a = GetCodeSize s a /\
             HasSuicided t a = HasSuicided s a /\ Exist t a = Exist s a /\ Empty t a = Empty s a) /\
  (forall a k, GetState t a k = GetState s a k /\ GetCommittedState t a k = GetCommittedState s a k) /\
  GetRefund t = GetRefund s.

Lemma repr_same_getters s t w r r' : repr s w r -> repr t w r' -> same_getters s t.
Proof.
  intros Hs Ht. split; [|split].
  - intros a. rewrite !(repr_GetBalance _ _ _ a Hs), !(repr_GetBalance _ _ _ a Ht).
    rewrite !(repr_GetNonce _ _ _ a Hs), !(repr_GetNonce _ _ _ a Ht).
    rewrite !(repr_GetCode _ _ _ a Hs), !(repr_GetCode _ _ _ a Ht).
    rewrite !(repr_GetCodeHash _ _ _ a Hs), !(repr_GetCodeHash _ _ _ a Ht).
    rewrite !(repr_GetCodeSize _ _ _ a Hs), !(repr_GetCodeSize _ _ _ a Ht).
    rewrite !(repr_HasSuicided _ _ _ a Hs), !(repr_HasSuicided _ _ _ a Ht).
    rewrite !(repr_Exist _ _ _ a Hs), !(repr_Exist _ _ _ a Ht).
    by rewrite !(repr_Empty _ _ _ a Hs), !(repr_Empty _ _ _ a Ht).
  - intros a k. rewrite !(repr_GetState _ _ _ a k Hs), !(repr_GetState _ _ _ a k Ht).
    by rewrite !(repr_GetCommittedState _ _ _ a k Hs), !(repr_GetCommittedState _ _ _ a k Ht).
  - by rewrite (repr_GetRefund _ _ _ Hs), (repr_GetRefund _ _ _ Ht).
Qed.

(** C16: the interpreter on the state database.  A message call returns without
    a panic of the interpreter, the journal or the snapshot stack; if it
    reports an error, every getter of the state database returns what it
    returned before the call, whatever the call (and the calls it made) did in
    between; and the snapshots taken before the call can still be reverted to. *)
Theorem Call_on_StateDB n e caller addr input gas v w r :
  env_ok env -> call_pre env (net_metered (chainRules env)) e caller gas w r ->
  0 <= addr -> 0 <= v -> zlen input < 2 ^ 62 -> gas < Z.of_nat n ->
  exists e' res, Call (vm env n) e caller addr input gas v = Done (e', res) /\
    0 <= leftOverGas res <= gas /\
    (err res <> None -> same_getters (VmEnv.StateDB e) (VmEnv.StateDB e')) /\
    (forall r1 id w0 r2, r = r1 ++ (id, w0) :: r2 ->
       exists t, RevertToSnapshot (VmEnv.StateDB e') id = Done t /\ view t w0).
Proof.
  intros Henv Hp Ha Hv Hi Hn. pose proof (cp_repr _ _ _ _ _ _ _ Hp) as Hr.
  destruct (wp_returns _ _ _ (ck_Call _ _ _ _ (vm_ok env n Henv) e caller addr input gas v w r Hp Ha Hv Hi))
    as ([e' res] & Hc & w' & r' & Hr' & [] & ? & ? & ? & ? & _ & Hex); [lia|].
  exists e', res. split; [done|]. split; [done|]. split.
  - intros Herr. apply Hex in Herr as ->; [|done]. by eapply repr_same_getters.
  - intros r1 id w0 r2 ->. rewrite app_assoc in Hr'. destruct (repr_Revert _ _ _ _ _ _ Hr') as (t & Ht & Hvt & _).
    by exists t.
Qed.
End On.
