(* ===== verification/StateExample.v ===== *)
(** * core/state: concrete states
    A store that keeps the content of tries as maps, on which the theorems
    about the state database are applied, and a run in which an account that
    was destructed gets its balance back. *)

From S2P Require Import Prelude MathUtil VmBase VmEnv VmGas VmInstr VmTable VmInterp VmAnalysis.
From S2P Require Import World VmInv VmStep VmTableOk VmSafe VmMain VmExample Rlp RlpStream RlpRaw.
From S2P Require Import StateDB StateView StateJournal StateSnap StateRefine StateFinal VmOnState.

(** ** A store in memory *)

Record mem := mkMem { mem_tries : gmap Hash (gmap Z bytes); mem_codes : gmap Hash bytes }.

(** An injective stand-in for the root hash of a trie. *)
Definition mem_root (m : gmap Z bytes) : Hash :=
  if decide (m = ∅) then emptyRoot else emptyRoot + Z.pos (encode ((fun kv => (kv.1, SetBytes (Byte.x01 :: kv.2))) <$> map_to_list m)).

Definition mem_put (m : gmap Z bytes) (k : Z) (v : bytes) : gmap Z bytes :=
  match v with [] => delete k m | _ => <[k := v]> m end.

Definition mem_open (d : mem) (root : Hash) : gmap Z bytes * option dbError :=
  if (root =? 0) || (root =? emptyRoot) then (∅, None)
  else match mem_tries d !! root with Some m => (m, None) | None => (∅, Some MissingNodeError) end.

(** No code is stored for the hash of the empty code. *)
Definition mem_code (d : mem) (h : Hash) : option bytes :=
  if h =? ex_keccak [] then None else mem_codes d !! h.

#[export] Instance mem_store : Store mem (gmap Z bytes) := {|
  TryGet m k := (m, (default [] (m !! k), None));
  TryUpdate m k v := (mem_put m k v, None);
  TryDelete m k := (delete k m, None);
  TrieHash m := (m, mem_root m);
  TrieCommit d m := (mkMem (<[mem_root m := m]> (mem_tries d)) (mem_codes d), m, (mem_root m, None));
  OpenTrie d root := mem_open d root;
  OpenStorageTrie d _ root := mem_open d root;
  CopyTrie m := m;
  ContractCode d _ h := match mem_code d h with Some c => (Some c, None) | None => (None, Some ErrNotFound) end;
  ContractCodeSize d _ h := match mem_code d h with Some c => (zlen c, None) | None => (0, Some ErrNotFound) end;
  InsertBlob d h c := mkMem (mem_tries d) (<[h := c]> (mem_codes d)) |}.

#[export] Instance mem_reads : StoreReads ex_keccak mem (gmap Z bytes).
Proof.
  refine (Build_StoreReads _ _ _ _ (fun m k => (default [] (m !! k), None)) _ _ _ _ _); try done.
  - intros d h. exists ∅. split; [done|]. intros k. by rewrite lookup_empty.
  - intros d h c. simpl. by destruct (mem_code d c).
Defined.

Definition mem_empty : mem := mkMem ∅ ∅.
Abbreviation DB := (StateDB.StateDB mem (gmap Z bytes)).

(** The state of an empty store. *)
Definition S0 : DB := mkStateDB _ _ mem_empty ∅ ∅ ∅ ∅ None 0 0 0 0 ∅ 0 ∅ newJournal [] 0.

Example S0_new : SDB.New emptyRoot mem_empty = inr S0.
Proof. reflexivity. Qed.

Definition W00 : World := mkWorld ∅ 0 [] ∅.

Lemma load_S0 a : load (keccak:=ex_keccak) S0 a = None.
Proof. unfold load, from_trie. simpl. by rewrite !lookup_empty. Qed.

Lemma S0_good : good (keccak:=ex_keccak) S0.
Proof. split; [|by unfold is_u64]. intros a o. by rewrite load_S0. Qed.

Lemma S0_view : view (keccak:=ex_keccak) S0 W00.
Proof.
  split; [apply S0_good| |done..]. intros a. unfold live. rewrite load_S0. simpl. rewrite lookup_empty. constructor.
Qed.

Lemma S0_start : tx_start (keccak:=ex_keccak) S0.
Proof. split; [apply S0_good|done| |done..]. intros a. simpl. unfold dirt. simpl. by rewrite lookup_empty. Qed.

Lemma S0_matches : matches (keccak:=ex_keccak) S0 (Ref.mk W00 [] 0).
Proof. split; [|done]. split; [apply S0_view|]. by split; simpl; constructor. Qed.

(** ** Witnesses *)

(** A sequence of calls with a snapshot, a revert and an invalid revert. *)
Definition ex_calls : list vmcall :=
  [CAddBalance 5 100; CSetState 5 1 7; CSnapshot; CSetState 5 1 9; CSuicide 5; CGetState 5 1; CGetBalance 5;
   CRevertToSnapshot 0; CGetState 5 1; CGetBalance 5; CSetCode 5 [Byte.x60]; CGetCodeSize 5; CGetCommittedState 5 1].

Lemma StateDB_refines_reference_witness :
  match vm_calls (H:=Ref.ops ex_keccak) (Ref.mk W00 [] 0) ex_calls with
  | Done (q', rs) =>
      exists s', vm_calls (H:=StateDB_vm ex_keccak) S0 ex_calls = Done (s', rs) /\ matches (keccak:=ex_keccak) s' q'
  | Panic p => vm_calls (H:=StateDB_vm ex_keccak) S0 ex_calls = Panic p
  | OutOfFuel => False
  end.
Proof. exact (StateDB_refines_reference S0 (Ref.mk W00 [] 0) ex_calls S0_matches). Defined.

(** The results are the expected ones, on the state database itself. *)
Example ex_calls_results :
  match vm_calls (H:=StateDB_vm ex_keccak) S0 ex_calls with
  | Done (_, rs) => Some rs
  | _ => None
  end = Some [RUnit; RUnit; RZ 0; RUnit; RBool true; RZ 9; RZ 0; RUnit; RZ 7; RZ 100; RUnit; RZ 1; RZ 0].
Proof. vm_compute. reflexivity. Qed.

Definition ex_ops : list op :=
  [OAddBalance 5 100; OSetState 5 1 7; OSetCode 6 (Some [Byte.x60]); OSnapshot; OCreateAccount 5; OSetNonce 5 1; ORevert 1;
   OSuicide 5; OAddRefund 3; OAddLog (mkLog 5 [] [] 0 0 0 0 0); OGetState 5 1].

Definition ex_after : DB :=
  match exec_all (keccak:=ex_keccak) (fst (SDB.Snapshot S0)) ex_ops with Done t => t | _ => S0 end.

Lemma RevertToSnapshot_restores_witness :
  exists u, SDB.RevertToSnapshot ex_keccak ex_after 0 = Done u /\ agree (keccak:=ex_keccak) S0 u /\ wf (keccak:=ex_keccak) u.
Proof.
  apply (RevertToSnapshot_restores S0 ex_ops ex_after).
  - apply wf_start, S0_start.
  - unfold ex_after. vm_compute. reflexivity.
  - vm_compute. left.
Defined.

Definition ex_tx : list op := [OAddBalance 5 100; OSetState 5 1 7; OAddBalance 6 0].
Definition ex_tx_end : DB :=
  SDB.AddBalance ex_keccak (SDB.SetState ex_keccak (SDB.AddBalance ex_keccak S0 5 100) 5 1 7) 6 0.
Definition ex_tx_world : World :=
  W.AddBalance ex_keccak (W.SetState ex_keccak (W.AddBalance ex_keccak W00 5 100) 5 1 7) 6 0.

(** The new account 6 is empty and goes, 5 stays. *)
Lemma Finalise_settles_witness :
  view (keccak:=ex_keccak) (SDB.Finalise ex_keccak ex_tx_end true)
    (finalise_world (keccak:=ex_keccak) true (touched ex_tx_end) ex_tx_world) /\
  tx_start (keccak:=ex_keccak) (SDB.Finalise ex_keccak ex_tx_end true) /\
  settled_world (finalise_world (keccak:=ex_keccak) true (touched ex_tx_end) ex_tx_world).
Proof.
  apply (Finalise_settles S0 ex_tx ex_tx_end true W00 ex_tx_world).
  - apply S0_start.
  - apply S0_view.
  - intros a x Hx. simpl in Hx. by rewrite lookup_empty in Hx.
  - reflexivity.
  - assert (represents (keccak:=ex_keccak) S0 W00 []) as Hr by apply S0_matches.
    apply (AddBalance_represents _ _ [] 6 0), (SetState_represents _ _ [] 5 1 7), (AddBalance_represents _ _ [] 5 100), Hr.
  - assert (map_Forall (fun _ x => a_suicided x = false) (accts ex_tx_world)) as Hf
      by (apply (bool_decide_unpack _); vm_compute; exact I).
    intros a x Hx Hs. apply Hf in Hx. congruence.
  - assert (Forall (fun e => match e with resetObjectChange _ => false | _ => true end = true)
      (entries (journal_ ex_tx_end))) as Hf by (vm_compute; repeat constructor).
    intros a (p & Hp & _). rewrite Forall_forall in Hf. by apply Hf in Hp.
Defined.

(** *** The interpreter on the state database *)

#[local] Instance ex_on_vm : vmStateDB DB := StateDB_vm ex_keccak.

(** The account 21 runs code that writes its storage and reverts. *)
Definition ex_state : DB := SDB.SetCode ex_keccak (SDB.AddBalance ex_keccak S0 7 1000) 21 (Some reverter).
Definition ex_state_world : World := W.SetCode ex_keccak (W.AddBalance ex_keccak W00 7 1000) 21 reverter.
Definition ex_state_evm : EVM DB := mkEVM ex_state 0 0 false (RVal []) ∅.

Lemma ex_state_represents : represents (keccak:=ex_keccak) ex_state ex_state_world [].
Proof.
  assert (represents (keccak:=ex_keccak) S0 W00 []) as Hr by apply S0_matches.
  apply (SetCode_represents _ _ [] 21 reverter), (AddBalance_represents _ _ [] 7 1000), Hr.
Qed.

Lemma ex_state_world_ok net : world_ok ex_keccak net ex_state_world.
Proof.
  assert (forall b, 0 <= ex_keccak b) as Hk by (intros; apply SetBytes_range).
  apply world_ok_SetCode; [done|vm_compute; reflexivity|]. apply world_ok_AddBalance; [lia|].
  apply (ex_world_ok net []). constructor.
Qed.

Lemma Call_on_StateDB_witness :
  exists e' res, Call (vm (HS:=StateDB_vm ex_keccak) ex_env (Z.to_nat 60000)) ex_state_evm (AccountRef 7) 21 [] 50000 0 = Done (e', res) /\
    0 <= leftOverGas res <= 50000 /\
    (err res <> None -> same_getters ex_env (VmEnv.StateDB ex_state_evm) (VmEnv.StateDB e')) /\
    (forall r1 id w0 r2, [] = r1 ++ (id, w0) :: r2 ->
       exists t, RevertToSnapshot (VmEnv.StateDB e') id = Done t /\ view (keccak:=ex_keccak) t w0).
Proof.
  apply (Call_on_StateDB ex_env (D:=mem) (T:=gmap Z bytes) (Z.to_nat 60000) ex_state_evm (AccountRef 7) 21 [] 50000 0 ex_state_world []).
  - apply ex_env_ok.
  - split; simpl; try done; try lia.
    + apply ex_state_represents.
    + apply ex_state_world_ok.
  - lia.
  - lia.
  - done.
  - lia.
Defined.

(** The call does fail, and left nothing behind. *)
Example ex_state_reverted :
  match Call (vm (HS:=StateDB_vm ex_keccak) ex_env (Z.to_nat 60000)) ex_state_evm (AccountRef 7) 21 [] 50000 0 with
  | Done (e', res) => Some (bool_decide (is_Some (err res)), GetState (VmEnv.StateDB e') 21 0)
  | _ => None
  end = Some (true, 0).
Proof. vm_compute. reflexivity. Qed.

(** ** Balances of destructed accounts *)

(** One transaction funds the account 5; the next destructs it and then sends
    it 3 wei. *)
Definition funded : DB := SDB.Finalise ex_keccak (SDB.AddBalance ex_keccak S0 5 10) true.
Definition destructed : DB :=
  SDB.Finalise ex_keccak (SDB.AddBalance ex_keccak (fst (SDB.Suicide ex_keccak funded 5)) 5 3) true.

(** Creating an account gives it a balance out of nothing when an earlier
    transaction of the block destructed the address and sent it funds: after
    that transaction the account does not exist and has no balance, but
    createObject hands CreateAccount the deleted object, whose balance is
    carried over to the new account. *)
Theorem CreateAccount_resurrects_balance :
  snd (SDB.Exist ex_keccak destructed 5) = false /\ snd (SDB.GetBalance ex_keccak destructed 5) = 0 /\
  snd (SDB.GetBalance ex_keccak (SDB.CreateAccount ex_keccak destructed 5) 5) = 3.
Proof. vm_compute. split_and!; reflexivity. Qed.
