(* ===== verification/Solidity.v ===== *)
(** * Solidity: what the contracts use of the language and of SafeMath
    A call that reverts is [None].  Arithmetic wraps at the width of the type,
    as in the versions of Solidity the contracts are written in. *)

From S2P Require Import Prelude.

Abbreviation two128 := 340282366920938463463374607431768211456.
Definition u256 (z : Z) : Z := z mod two256.
Definition u128 (z : Z) : Z := z mod two128.

(** A mapping reads as zero where nothing was written. *)
Definition at_ {K} `{Countable K} (m : gmap K Z) (k : K) : Z := default 0 (m !! k).

Definition require {A} (b : bool) (k : option A) : option A := if b then k else None.
Notation "'require!' b ; k" := (require b k) (at level 100, b at level 99, k at level 200, format "require!  b ; '/' k").

(** ** lib/SafeMath.sol and lib/Math.sol *)

Module SafeMath.
Definition add (a b : Z) : option Z := let c := u256 (a + b) in require! a <=? c; Some c.
Definition sub (a b : Z) : option Z := require! b <=? a; Some (a - b).
Definition add64 (a b : Z) : option Z := let c := u64 (a + b) in require! a <=? c; Some c.
Definition sub64 (a b : Z) : option Z := require! b <=? a; Some (a - b).
End SafeMath.

(** The ceiling of n/d. *)
Definition divCeil (n d : Z) : Z := if n mod d =? 0 then n / d else n / d + 1.

(** ** Lemmas *)

Lemma require_Some {A} b (k : option A) x : require b k = Some x <-> b = true /\ k = Some x.
Proof. destruct b; simpl; naive_solver. Qed.

Ltac guards :=
  repeat match goal with H : require _ _ = Some _ |- _ => apply require_Some in H as [? H] end;
  rewrite ?Z.ltb_lt, ?Z.leb_le, ?Z.eqb_eq, ?negb_true_iff in *.

Ltac requires :=
  repeat match goal with
         | H : require _ _ = Some _ |- _ => apply require_Some in H as [? H]
         | H : Some _ = Some _ |- _ => injection H as <-
         end;
  rewrite ?Z.ltb_lt, ?Z.leb_le, ?Z.eqb_eq in *.

Lemma at_insert {K} `{Countable K} (m : gmap K Z) k x j : at_ (<[k := x]> m) j = if decide (j = k) then x else at_ m j.
Proof. unfold at_. case_decide; subst; [by rewrite lookup_insert_eq|by rewrite lookup_insert_ne]. Qed.

Lemma u256_small a : 0 <= a < two256 -> u256 a = a.
Proof. apply Z.mod_small. Qed.

Lemma u128_small a : 0 <= a < two128 -> u128 a = a.
Proof. apply Z.mod_small. Qed.

Lemma add_Some a b : 0 <= a -> 0 <= b -> a + b < two256 -> SafeMath.add a b = Some (a + b).
Proof. intros. unfold SafeMath.add. rewrite u256_small by lia. unfold require. by rewrite (proj2 (Z.leb_le _ _)) by lia. Qed.

Lemma add64_Some a b : 0 <= a -> 0 <= b -> a + b < two64 -> SafeMath.add64 a b = Some (a + b).
Proof. intros. unfold SafeMath.add64. rewrite u64_small by (unfold is_u64; lia). unfold require. by rewrite (proj2 (Z.leb_le _ _)) by lia. Qed.

Lemma divCeil_spec n d : 0 < d -> 0 <= n -> n <= d * divCeil n d < n + d.
Proof.
  intros Hd Hn. unfold divCeil. pose proof (Z.div_mod n d ltac:(lia)). pose proof (Z.mod_pos_bound n d Hd).
  destruct (Z.eqb_spec (n mod d) 0); lia.
Qed.
