(* ===== verification/Stamina.v ===== *)
(** * contracts/stamina: the contract that lets others pay for gas
    Stamina.sol as a state machine: deposits give a delegatee stamina, which
    the chain spends on the gas of its delegators and gives back with the gas
    that was not used (core/state_transition.go).  A call that reverts is
    [None]; arithmetic wraps at 256 bits, as in the version of Solidity the
    contract is written in.  The genesis state is that of core/genesis.go. *)

From S2P Require Import Prelude MathUtil Solidity.

(** ** Sums over maps *)

Section Sum.
Context {K : Type} `{Countable K}.

Definition msum {A} (f : K -> A -> Z) (m : gmap K A) : Z := map_fold (fun k x acc => f k x + acc) 0 m.

Lemma msum_insert_new {A} (f : K -> A -> Z) m k x : m !! k = None -> msum f (<[k := x]> m) = f k x + msum f m.
Proof. intros Hk. unfold msum. rewrite map_fold_insert_L; [done| |done]. intros. lia. Qed.

Lemma msum_insert {A} (f : K -> A -> Z) m k x :
  msum f (<[k := x]> m) = msum f m + f k x - match m !! k with Some y => f k y | None => 0 end.
Proof.
  destruct (m !! k) as [y|] eqn:Hk; [|rewrite msum_insert_new by done; lia].
  rewrite <-(insert_id m k y Hk) at 2. rewrite <-(insert_delete_eq m), <-(insert_delete_eq m k y).
  rewrite !msum_insert_new by apply lookup_delete_eq. lia.
Qed.

Lemma msum_nonneg {A} (f : K -> A -> Z) m : (forall k x, m !! k = Some x -> 0 <= f k x) -> 0 <= msum f m.
Proof.
  induction m as [|k x m Hk IH] using map_ind; intros Hf; [done|]. rewrite msum_insert_new by done.
  assert (0 <= f k x) by (apply Hf; by rewrite lookup_insert_eq).
  enough (0 <= msum f m) by lia. apply IH. intros k' x' Hx. apply Hf. rewrite lookup_insert_ne; congruence.
Qed.

Lemma msum_lookup {A} (f : K -> A -> Z) m k x :
  (forall k x, m !! k = Some x -> 0 <= f k x) -> m !! k = Some x -> f k x <= msum f m.
Proof.
  intros Hf Hk. rewrite <-(insert_id m k x Hk), <-insert_delete_eq, msum_insert_new by apply lookup_delete_eq.
  enough (0 <= msum f (delete k m)) by lia. apply msum_nonneg. intros k' x' Hx. apply Hf.
  by apply lookup_delete_Some in Hx as [_ Hx].
Qed.
End Sum.

(** ** The state of the contract *)

Record Withdrawal := mkWithdrawal {
  w_amount : Z;
  w_requestBlockNumber : Z;
  w_delegatee : Address;
  w_processed : bool }.

(** [balance] is the Ether the contract holds. *)
Record Stamina := mkStamina {
  _delegatee : gmap Address Address;
  _stamina : gmap Address Z;
  _total_deposit : gmap Address Z;
  _deposit : gmap (Address * Address) Z;
  _last_recovery_block : gmap Address Z;
  _withdrawal : gmap Address (list Withdrawal);
  _last_processed_withdrawal : gmap Address Z;
  _num_recovery : gmap Address Z;
  initialized : bool;
  MIN_DEPOSIT : Z;
  RECOVER_EPOCH_LENGTH : Z;
  WITHDRAWAL_DELAY : Z;
  development : bool;
  balance : Z }.

(** [msg.sender], [msg.value] and [block.number]. *)
Record Msg := mkMsg { msg_sender : Address; msg_value : Z; block_number : Z }.

Definition withdrawals (s : Stamina) (a : Address) : list Withdrawal := default [] (_withdrawal s !! a).

Definition with_deposits (s : Stamina) stamina total deposit : Stamina :=
  mkStamina (_delegatee s) stamina total deposit (_last_recovery_block s) (_withdrawal s)
    (_last_processed_withdrawal s) (_num_recovery s) (initialized s) (MIN_DEPOSIT s) (RECOVER_EPOCH_LENGTH s)
    (WITHDRAWAL_DELAY s) (development s) (balance s).
Definition with_recovery (s : Stamina) block num : Stamina :=
  mkStamina (_delegatee s) (_stamina s) (_total_deposit s) (_deposit s) block (_withdrawal s)
    (_last_processed_withdrawal s) num (initialized s) (MIN_DEPOSIT s) (RECOVER_EPOCH_LENGTH s)
    (WITHDRAWAL_DELAY s) (development s) (balance s).
Definition with_withdrawal (s : Stamina) ws last : Stamina :=
  mkStamina (_delegatee s) (_stamina s) (_total_deposit s) (_deposit s) (_last_recovery_block s) ws
    last (_num_recovery s) (initialized s) (MIN_DEPOSIT s) (RECOVER_EPOCH_LENGTH s)
    (WITHDRAWAL_DELAY s) (development s) (balance s).
Definition with_balance (s : Stamina) b : Stamina :=
  mkStamina (_delegatee s) (_stamina s) (_total_deposit s) (_deposit s) (_last_recovery_block s) (_withdrawal s)
    (_last_processed_withdrawal s) (_num_recovery s) (initialized s) (MIN_DEPOSIT s) (RECOVER_EPOCH_LENGTH s)
    (WITHDRAWAL_DELAY s) (development s) b.

(** ** The functions of the contract *)

Definition onlyChain (s : Stamina) (m : Msg) : bool := development s || (msg_sender m =? 0).

Definition init (m : Msg) (minDeposit recoveryEpochLength withdrawalDelay : Z) (s : Stamina) : option Stamina :=
  require! negb (initialized s);
  require! 0 <? minDeposit;
  require! 0 <? recoveryEpochLength;
  require! 0 <? withdrawalDelay;
  require! u256 (recoveryEpochLength * 2) <? withdrawalDelay;
  Some (mkStamina (_delegatee s) (_stamina s) (_total_deposit s) (_deposit s) (_last_recovery_block s) (_withdrawal s)
    (_last_processed_withdrawal s) (_num_recovery s) true minDeposit recoveryEpochLength withdrawalDelay
    (development s) (balance s)).

Definition setDelegator (m : Msg) (delegator : Address) (s : Stamina) : option Stamina :=
  require! initialized s;
  Some (mkStamina (<[delegator := msg_sender m]> (_delegatee s)) (_stamina s) (_total_deposit s) (_deposit s)
    (_last_recovery_block s) (_withdrawal s) (_last_processed_withdrawal s) (_num_recovery s) (initialized s)
    (MIN_DEPOSIT s) (RECOVER_EPOCH_LENGTH s) (WITHDRAWAL_DELAY s) (development s) (balance s)).

(** The value of the call is in the balance when the function starts. *)
Definition deposit (m : Msg) (delegatee : Address) (s : Stamina) : option Stamina :=
  let s := with_balance s (balance s + msg_value m) in
  require! initialized s;
  require! MIN_DEPOSIT s <=? msg_value m;
  let totalDeposit := at_ (_total_deposit s) delegatee in
  let deposit := at_ (_deposit s) (msg_sender m, delegatee) in
  let stamina := at_ (_stamina s) delegatee in
  require! totalDeposit <? u256 (totalDeposit + msg_value m);
  require! deposit <? u256 (deposit + msg_value m);
  require! stamina <? u256 (stamina + msg_value m);
  let s := with_deposits s
    (<[delegatee := u256 (stamina + msg_value m)]> (_stamina s))
    (<[delegatee := u256 (totalDeposit + msg_value m)]> (_total_deposit s))
    (<[(msg_sender m, delegatee) := u256 (deposit + msg_value m)]> (_deposit s)) in
  Some (if at_ (_last_recovery_block s) delegatee =? 0
        then with_recovery s (<[delegatee := block_number m]> (_last_recovery_block s)) (_num_recovery s) else s).

Definition requestWithdrawal (m : Msg) (delegatee : Address) (amount : Z) (s : Stamina) : option Stamina :=
  require! initialized s;
  require! 0 <? amount;
  let totalDeposit := at_ (_total_deposit s) delegatee in
  let deposit := at_ (_deposit s) (msg_sender m, delegatee) in
  let stamina := at_ (_stamina s) delegatee in
  require! 0 <? deposit;
  require! u256 (totalDeposit - amount) <? totalDeposit;
  require! u256 (deposit - amount) <? deposit;
  let s := with_deposits s
    (<[delegatee := if amount <? stamina then stamina - amount else 0]> (_stamina s))
    (<[delegatee := u256 (totalDeposit - amount)]> (_total_deposit s))
    (<[(msg_sender m, delegatee) := u256 (deposit - amount)]> (_deposit s)) in
  let w := mkWithdrawal (u128 amount) (u128 (block_number m)) delegatee false in
  Some (with_withdrawal s (<[msg_sender m := withdrawals s (msg_sender m) ++ [w]]> (_withdrawal s))
          (_last_processed_withdrawal s)).

(** Which withdrawal is processed next. *)
Definition withdrawalIndex (s : Stamina) (a : Address) : option Z :=
  let ws := withdrawals s a in
  let last := at_ (_last_processed_withdrawal s) a in
  match ws with
  | [] => None
  | w :: _ =>
      if (last =? 0) && negb (w_processed w) then Some 0
      else if last =? 0 then (require! 2 <=? zlen ws; Some 1)
      else Some (u256 (last + 1))
  end.

(** [accepts]: whether the sender takes the Ether that is sent to it. *)
Definition withdraw (m : Msg) (accepts : bool) (s : Stamina) : option Stamina :=
  let ws := withdrawals s (msg_sender m) in
  match withdrawalIndex s (msg_sender m) with
  | None => None
  | Some i =>
      match ws !! Z.to_nat i with
      | None => None
      | Some w =>
          require! negb (w_processed w);
          require! u256 (w_requestBlockNumber w + WITHDRAWAL_DELAY s) <=? block_number m;
          let s := with_withdrawal s
            (<[msg_sender m := <[Z.to_nat i := mkWithdrawal (w_amount w) (w_requestBlockNumber w) (w_delegatee w) true]> ws]>
               (_withdrawal s))
            (<[msg_sender m := i]> (_last_processed_withdrawal s)) in
          require! accepts && (w_amount w <=? balance s);
          Some (with_balance s (balance s - w_amount w))
      end
  end.

Definition addStamina (m : Msg) (delegatee : Address) (amount : Z) (s : Stamina) : option Stamina :=
  require! onlyChain s m;
  if u256 (at_ (_last_recovery_block s) delegatee + RECOVER_EPOCH_LENGTH s) <=? block_number m then
    let s := with_deposits s (<[delegatee := at_ (_total_deposit s) delegatee]> (_stamina s)) (_total_deposit s) (_deposit s) in
    Some (with_recovery s (<[delegatee := block_number m]> (_last_recovery_block s))
            (<[delegatee := u256 (at_ (_num_recovery s) delegatee + 1)]> (_num_recovery s)))
  else
    let totalDeposit := at_ (_total_deposit s) delegatee in
    let stamina := at_ (_stamina s) delegatee in
    require! stamina <? u256 (stamina + amount);
    let targetBalance := u256 (stamina + amount) in
    Some (with_deposits s
      (<[delegatee := if totalDeposit <? targetBalance then totalDeposit else targetBalance]> (_stamina s))
      (_total_deposit s) (_deposit s)).

Definition subtractStamina (m : Msg) (delegatee : Address) (amount : Z) (s : Stamina) : option Stamina :=
  require! onlyChain s m;
  let stamina := at_ (_stamina s) delegatee in
  require! u256 (stamina - amount) <? stamina;
  Some (with_deposits s (<[delegatee := u256 (stamina - amount)]> (_stamina s)) (_total_deposit s) (_deposit s)).

Definition getDelegatee (delegator : Address) (s : Stamina) : Address := at_ (_delegatee s) delegator.
Definition getStamina (addr : Address) (s : Stamina) : Z := at_ (_stamina s) addr.

Definition getWithdrawal (depositor : Address) (withdrawalIndex : Z) (s : Stamina) : option Withdrawal :=
  require! withdrawalIndex <? zlen (withdrawals s depositor);
  withdrawals s depositor !! Z.to_nat withdrawalIndex.

(** The calls of the contract that change its state, and Ether that reaches
    it without a call (a block reward or a self-destruct). *)
Inductive call :=
| Init (minDeposit recoveryEpochLength withdrawalDelay : Z)
| SetDelegator (delegator : Address)
| Deposit (delegatee : Address)
| RequestWithdrawal (delegatee : Address) (amount : Z)
| Withdraw (accepts : bool)
| AddStamina (delegatee : Address) (amount : Z)
| SubtractStamina (delegatee : Address) (amount : Z)
| Receive.

(** Only [deposit] is payable. *)
Definition exec (m : Msg) (c : call) (s : Stamina) : option Stamina :=
  match c with
  | Deposit d => deposit m d s
  | Receive => Some (with_balance s (balance s + msg_value m))
  | _ =>
      require! msg_value m =? 0;
      match c with
      | Init x y z => init m x y z s
      | SetDelegator d => setDelegator m d s
      | RequestWithdrawal d x => requestWithdrawal m d x s
      | Withdraw accepts => withdraw m accepts s
      | AddStamina d x => addStamina m d x s
      | SubtractStamina d x => subtractStamina m d x s
      | Deposit _ | Receive => None
      end
  end.

(** ** What holds in every state *)

Fixpoint pending (ws : list Withdrawal) : Z :=
  match ws with
  | [] => 0
  | w :: ws => (if w_processed w then 0 else w_amount w) + pending ws
  end.

Definition liabilities (s : Stamina) : Z :=
  msum (fun _ x => x) (_total_deposit s) + msum (fun _ ws => pending ws) (_withdrawal s).

Definition deposits_of (s : Stamina) (d : Address) : Z :=
  msum (fun k x => if k.2 =? d then x else 0) (_deposit s).

(** The first [n] requests have been paid, in the order of the requests. *)
Definition paid_below (n : nat) (ws : list Withdrawal) : Prop :=
  forall i w, ws !! i = Some w -> w_processed w = bool_decide (i < n)%nat.

Record paid (s : Stamina) (a : Address) (n : nat) : Prop := {
  paid_bound : (n <= length (withdrawals s a))%nat;
  paid_prefix : paid_below n (withdrawals s a);
  paid_last : at_ (_last_processed_withdrawal s) a = Z.of_nat (pred n) }.

Definition request_ok (w : Withdrawal) : Prop := 0 <= w_amount w /\ 0 <= w_requestBlockNumber w < two128.

(** [excess d]: stamina that [d] was given without a deposit. *)
Record inv (excess : Address -> Z) (s : Stamina) : Prop := {
  inv_deposit : forall k x, _deposit s !! k = Some x -> 0 <= x;
  inv_total : forall d, at_ (_total_deposit s) d = deposits_of s d;
  inv_stamina : forall d, 0 <= at_ (_stamina s) d <= at_ (_total_deposit s) d + excess d;
  inv_paid : forall a, exists n, paid s a n;
  inv_count : forall a, zlen (withdrawals s a) < two256;
  inv_request : forall a w, w ∈ withdrawals s a -> request_ok w;
  inv_solvent : liabilities s <= balance s;
  inv_supply : balance s < two128 }.

(** What the chain guarantees of a call: machine-width arguments, less than
    2^128 wei in the contract, less than 2^256 requests. *)
Definition call_ok (m : Msg) (c : call) (s : Stamina) : Prop :=
  0 <= msg_value m /\ balance s + msg_value m < two128 /\ 0 <= block_number m < two128 /\
  match c with
  | RequestWithdrawal _ x => 0 <= x < two256 /\ zlen (withdrawals s (msg_sender m)) + 1 < two256
  | AddStamina _ x | SubtractStamina _ x => 0 <= x < two256
  | _ => True
  end.

Inductive step (s s' : Stamina) : Prop :=
| step_call m c : call_ok m c s -> exec m c s = Some s' -> step s s'.

(** ** The genesis state (core/genesis.go) *)

Record StaminaConfig := mkStaminaConfig {
  Initialized : bool; OperatorAmount : Z; MinDeposit : Z; RecoverEpochLength : Z; WithdrawalDelay : Z }.

Definition Ether : Z := 1000000000000000000.
Definition DefaultOperatorStamina : Z := 1 * Ether.

Definition DefaultStaminaConfig : StaminaConfig :=
  mkStaminaConfig true DefaultOperatorStamina 500000000000000000 (7 * 86400 / 5) (3 * (7 * 86400) / 5).

(** The storage slots 0x8 to 0xb and the entries of the operator in the
    mappings at positions 0 and 1. *)
Definition GenesisStaminaAccount (operator : Address) (c : StaminaConfig) : Stamina :=
  mkStamina {[operator := operator]} {[operator := DefaultOperatorStamina]} ∅ ∅ ∅ ∅ ∅ ∅
    (Initialized c) (u256 (MinDeposit c)) (u256 (RecoverEpochLength c)) (u256 (WithdrawalDelay c)) false 0.

Definition genesis_excess (operator d : Address) : Z := if d =? operator then DefaultOperatorStamina else 0.

(** ** Lemmas *)

Lemma msum_set {K} `{Countable K} (f : K -> Z -> Z) m k x :
  f k 0 = 0 -> msum f (<[k := x]> m) = msum f m + f k x - f k (at_ m k).
Proof. intros H0. rewrite msum_insert. unfold at_. destruct (m !! k); simpl; lia. Qed.

Lemma u256_add_lt a b : 0 <= a < two256 -> 0 <= b < two256 -> a < u256 (a + b) <-> 0 < b /\ a + b < two256.
Proof.
  intros Ha Hb. unfold u256. destruct (decide (a + b < two256)).
  - rewrite Z.mod_small by lia. lia.
  - replace (a + b) with (a + b - two256 + 1 * two256) by lia. rewrite Z.mod_add, Z.mod_small by lia. lia.
Qed.

Lemma u256_sub_lt a b : 0 <= a < two256 -> 0 <= b < two256 -> u256 (a - b) < a <-> 0 < b <= a.
Proof.
  intros Ha Hb. unfold u256. destruct (decide (b <= a)).
  - rewrite Z.mod_small by lia. lia.
  - replace (a - b) with (a - b + two256 + (-1) * two256) by lia. rewrite Z.mod_add, Z.mod_small by lia. lia.
Qed.

Lemma pending_app ws ws' : pending (ws ++ ws') = pending ws + pending ws'.
Proof. induction ws as [|w ws IH]; simpl; lia. Qed.

Lemma pending_nonneg ws : (forall w, w ∈ ws -> request_ok w) -> 0 <= pending ws.
Proof.
  induction ws as [|w ws IH]; simpl; intros H; [done|].
  assert (request_ok w) as [] by (apply H; set_solver). assert (0 <= pending ws) by (apply IH; set_solver).
  destruct (w_processed w); lia.
Qed.

Section Facts.
Context (excess : Address -> Z) (s : Stamina) (Hs : inv excess s).

Lemma deposits_of_nonneg d : 0 <= deposits_of s d.
Proof. apply msum_nonneg. intros k x Hk. destruct (k.2 =? d); [|done]. by eapply inv_deposit. Qed.

Lemma deposit_le a d : 0 <= at_ (_deposit s) (a, d) <= at_ (_total_deposit s) d.
Proof.
  rewrite (inv_total _ _ Hs). unfold at_. destruct (_deposit s !! (a, d)) as [x|] eqn:Hx; simpl;
    [|pose proof (deposits_of_nonneg d); lia].
  split; [by eapply inv_deposit|].
  assert (Hx' := msum_lookup (fun k x => if k.2 =? d then x else 0) (_deposit s) (a, d) x).
  simpl in Hx'. rewrite Z.eqb_refl in Hx'. apply Hx'; [|done].
  intros k y Hk. destruct (k.2 =? d); [|done]. by eapply inv_deposit.
Qed.

Lemma total_nonneg d x : _total_deposit s !! d = Some x -> 0 <= x.
Proof.
  intros Hx. pose proof (inv_total _ _ Hs d) as Hd. unfold at_ in Hd. rewrite Hx in Hd. simpl in Hd.
  rewrite Hd. apply deposits_of_nonneg.
Qed.

Lemma totals_nonneg : 0 <= msum (fun _ x => x) (_total_deposit s).
Proof. apply msum_nonneg, total_nonneg. Qed.

Lemma pending_map_nonneg a ws : _withdrawal s !! a = Some ws -> 0 <= pending ws.
Proof. intros Ha. apply pending_nonneg. intros w Hw. apply (inv_request _ _ Hs a). unfold withdrawals. by rewrite Ha. Qed.

Lemma pendings_nonneg : 0 <= msum (fun _ ws => pending ws) (_withdrawal s).
Proof. apply msum_nonneg, pending_map_nonneg. Qed.

Lemma total_le d : 0 <= at_ (_total_deposit s) d <= balance s.
Proof.
  pose proof (inv_solvent _ _ Hs). pose proof pendings_nonneg. pose proof totals_nonneg. unfold liabilities in *.
  unfold at_. destruct (_total_deposit s !! d) as [x|] eqn:Hx; simpl; [|lia].
  pose proof (total_nonneg d x Hx). pose proof (msum_lookup (fun _ x => x) _ d x total_nonneg Hx). simpl in *. lia.
Qed.

Lemma pending_le a : 0 <= pending (withdrawals s a) <= balance s.
Proof.
  pose proof (inv_solvent _ _ Hs). pose proof pendings_nonneg. pose proof totals_nonneg. unfold liabilities in *.
  unfold withdrawals. destruct (_withdrawal s !! a) as [ws|] eqn:Ha; simpl; [|lia].
  pose proof (pending_map_nonneg a ws Ha).
  pose proof (msum_lookup (fun _ ws => pending ws) _ a ws pending_map_nonneg Ha). simpl in *. lia.
Qed.
End Facts.

(** *** Payment in order *)

Lemma paid_below_lookup n ws w : paid_below n ws -> ws !! n = Some w -> w_processed w = false.
Proof. intros H Hw. rewrite (H n w Hw). apply bool_decide_eq_false. lia. Qed.

Lemma withdrawalIndex_paid s a n :
  paid s a n -> zlen (withdrawals s a) < two256 ->
  (n < length (withdrawals s a))%nat -> withdrawalIndex s a = Some (Z.of_nat n).
Proof.
  intros [_ Hp Hl] Hc Hn. unfold withdrawalIndex. rewrite Hl.
  destruct (withdrawals s a) as [|w ws] eqn:Hw; [simpl in Hn; lia|].
  pose proof (Hp 0%nat w eq_refl) as H0. rewrite H0. destruct n as [|[|n]]; simpl.
  - done.
  - simpl in Hn. unfold require. rewrite (proj2 (Z.leb_le 2 _)) by lia. done.
  - rewrite u256_small by (simpl in *; lia). do 2 f_equal. lia.
Qed.

(** No request is left: the index lies behind the last one, or there is none. *)
Lemma withdrawalIndex_done s a :
  paid s a (length (withdrawals s a)) -> zlen (withdrawals s a) < two256 ->
  forall i, withdrawalIndex s a = Some i -> withdrawals s a !! Z.to_nat i = None.
Proof.
  intros [_ Hp Hl] Hc i. unfold withdrawalIndex. rewrite Hl.
  destruct (withdrawals s a) as [|w ws] eqn:Hw; [done|].
  pose proof (Hp 0%nat w eq_refl) as H0. rewrite H0. rewrite bool_decide_eq_true_2 by (simpl; lia).
  rewrite andb_false_r. unfold require. destruct ws as [|w' ws]; [done|].
  destruct (Z.eqb_spec (Z.of_nat (pred (length (w :: w' :: ws)))) 0) as [E|E]; [simpl in E; lia|].
  intros [= <-]. rewrite u256_small by (simpl in *; lia). apply lookup_ge_None. simpl. lia.
Qed.

Lemma paid_below_insert n ws w :
  paid_below n ws -> w_processed w = true -> (n < length ws)%nat -> paid_below (S n) (<[n := w]> ws).
Proof.
  intros H Hw Hn i w'. destruct (decide (i = n)) as [->|Hne].
  - rewrite list_lookup_insert_eq by done. intros [= <-]. rewrite Hw. symmetry. apply bool_decide_eq_true. lia.
  - rewrite list_lookup_insert_ne by done. intros Hi. rewrite (H i w' Hi). apply bool_decide_ext. lia.
Qed.

Lemma paid_below_app n ws w :
  paid_below n ws -> w_processed w = false -> (n <= length ws)%nat -> paid_below n (ws ++ [w]).
Proof.
  intros H Hw Hn i w' Hi. apply lookup_app_Some in Hi as [Hi|[Hge Hi]]; [by apply H|].
  apply list_lookup_singleton_Some in Hi as [Hi <-]. rewrite Hw. symmetry. apply bool_decide_eq_false. lia.
Qed.

Lemma pending_insert ws n w w' :
  ws !! n = Some w -> w_processed w = false -> w_processed w' = true ->
  pending (<[n := w']> ws) = pending ws - w_amount w.
Proof.
  revert n. induction ws as [|x ws IH]; intros [|n] Hn Hw Hw'; simplify_eq/=; [rewrite Hw, Hw'; lia|].
  rewrite (IH n) by done. lia.
Qed.

Lemma elem_of_insert_inv {A} (l : list A) n x y : x ∈ <[n := y]> l -> x = y \/ x ∈ l.
Proof.
  intros [i Hi]%list_elem_of_lookup. apply list_lookup_insert_Some in Hi as [(_ & -> & _)|[_ Hi]]; [by left|].
  right. by eapply list_elem_of_lookup_2.
Qed.

Lemma withdrawals_insert s ws last a b :
  withdrawals (with_withdrawal s (<[a := ws]> (_withdrawal s)) last) b = if decide (b = a) then ws else withdrawals s b.
Proof.
  unfold withdrawals; simpl. case_decide; subst; [by rewrite lookup_insert_eq|by rewrite lookup_insert_ne].
Qed.

(** *** Preservation *)

Section Preserve.
Context (excess : Address -> Z) (excess_ok : forall d, 0 <= excess d < two128).

Lemma inv_frame s s' :
  inv excess s ->
  (_stamina s', _total_deposit s', _deposit s', _withdrawal s', _last_processed_withdrawal s') =
  (_stamina s, _total_deposit s, _deposit s, _withdrawal s, _last_processed_withdrawal s) ->
  balance s <= balance s' < two128 -> inv excess s'.
Proof.
  intros Hs E Hb. injection E as E1 E2 E3 E4 E5.
  assert (Ew : forall a, withdrawals s' a = withdrawals s a) by (intros a; unfold withdrawals; by rewrite E4).
  split; unfold deposits_of, liabilities; rewrite ?E1, ?E2, ?E3, ?E4; try apply Hs; try lia.
  - intros a. destruct (inv_paid _ _ Hs a) as [n [H1 H2 H3]]. exists n. split; by rewrite ?Ew, ?E5.
  - intros a. rewrite Ew. apply Hs.
  - intros a. rewrite Ew. apply Hs.
  - pose proof (inv_solvent _ _ Hs). unfold liabilities in *. lia.
Qed.

Lemma inv_set_stamina s d x :
  inv excess s -> 0 <= x <= at_ (_total_deposit s) d + excess d ->
  inv excess (with_deposits s (<[d := x]> (_stamina s)) (_total_deposit s) (_deposit s)).
Proof.
  intros Hs Hx. split; try apply Hs.
  - intros d'. cbn [_stamina _total_deposit with_deposits]. rewrite at_insert.
    case_decide; [by subst|by apply Hs].
  - intros a. destruct (inv_paid _ _ Hs a) as [n [H1 H2 H3]]. by exists n.
Qed.

(** The deposits move by [v] (down for a withdrawal). *)
Lemma inv_move s a d x v b :
  inv excess s -> 0 <= at_ (_deposit s) (a, d) + v ->
  0 <= x <= at_ (_total_deposit s) d + v + excess d -> liabilities s + v <= b < two128 ->
  let s' := with_deposits (with_balance s b) (<[d := x]> (_stamina s))
    (<[d := at_ (_total_deposit s) d + v]> (_total_deposit s))
    (<[(a, d) := at_ (_deposit s) (a, d) + v]> (_deposit s)) in
  inv excess s' /\ liabilities s' = liabilities s + v.
Proof.
  intros Hs Hd Hx Hb s'.
  assert (El : liabilities s' = liabilities s + v) by (unfold liabilities; simpl; rewrite msum_set by done; lia).
  split; [|done]. split; try apply Hs; try (simpl; lia).
  - intros k y. simpl. destruct (decide (k = (a, d))) as [->|]; [|rewrite lookup_insert_ne by done; apply Hs].
    rewrite lookup_insert_eq. by intros [= <-].
  - intros d'. unfold deposits_of; simpl. rewrite msum_set by (simpl; by destruct (_ =? _)). simpl.
    rewrite at_insert. pose proof (inv_total _ _ Hs d') as Hd'. unfold deposits_of in Hd'.
    case_decide; subst; [rewrite Z.eqb_refl; lia|]. rewrite (proj2 (Z.eqb_neq d d')) by done. lia.
  - intros d'. simpl. rewrite !at_insert. case_decide; [by subst|apply Hs].
  - intros a'. destruct (inv_paid _ _ Hs a') as [n [H1 H2 H3]]. by exists n.
Qed.

Lemma deposit_inv s s' m d :
  inv excess s -> call_ok m (Deposit d) s -> deposit m d s = Some s' -> inv excess s'.
Proof.
  intros Hs (Hv & Hb & Hn & _) H. unfold deposit in H.
  cbn [with_balance initialized MIN_DEPOSIT _total_deposit _deposit _stamina _last_recovery_block] in H. requires.
  pose proof (total_le excess s Hs d) as Ht. pose proof (deposit_le excess s Hs (msg_sender m) d) as Hd.
  pose proof (inv_stamina _ _ Hs d) as Hst. pose proof (excess_ok d).
  rewrite !(u256_small (_ + _)) by lia.
  destruct (inv_move s (msg_sender m) d (at_ (_stamina s) d + msg_value m) (msg_value m) (balance s + msg_value m))
    as [Hi _]; try (pose proof (inv_solvent _ _ Hs); lia); [done|].
  match goal with |- inv _ (if ?c then _ else _) => destruct c end; [|exact Hi].
  eapply (inv_frame _ _ Hi); [done|]. simpl. lia.
Qed.

Lemma inv_push s a w :
  inv excess s -> request_ok w -> w_processed w = false -> zlen (withdrawals s a) + 1 < two256 ->
  liabilities s + w_amount w <= balance s ->
  inv excess (with_withdrawal s (<[a := withdrawals s a ++ [w]]> (_withdrawal s)) (_last_processed_withdrawal s)).
Proof.
  intros Hs Hw Hp Hc Hl. split; try apply Hs.
  - intros b. destruct (inv_paid _ _ Hs b) as [n [H1 H2 H3]]. exists n. split; [..|done]; rewrite withdrawals_insert;
      case_decide; subst; try done; [rewrite length_app; lia|by apply paid_below_app].
  - intros b. rewrite withdrawals_insert. case_decide; [|apply Hs]. rewrite length_app. simpl. lia.
  - intros b x. rewrite withdrawals_insert. case_decide; [|apply Hs].
    intros [Hx|Hx%list_elem_of_singleton]%elem_of_app; [by apply (inv_request _ _ Hs a)|by subst].
  - unfold liabilities in *; simpl. rewrite msum_insert, pending_app. simpl. rewrite Hp.
    unfold withdrawals. destruct (_withdrawal s !! a); simpl; lia.
Qed.

Lemma requestWithdrawal_inv s s' m d x :
  inv excess s -> call_ok m (RequestWithdrawal d x) s -> requestWithdrawal m d x s = Some s' -> inv excess s'.
Proof.
  intros Hs (_ & _ & Hn & Hx & Hc) H. unfold requestWithdrawal in H. requires.
  pose proof (total_le excess s Hs d) as Ht. pose proof (deposit_le excess s Hs (msg_sender m) d) as Hd.
  pose proof (inv_stamina _ _ Hs d) as Hst. pose proof (excess_ok d). pose proof (inv_supply _ _ Hs).
  match goal with H : u256 (at_ (_deposit s) _ - x) < _ |- _ => apply u256_sub_lt in H; [|lia..] end.
  rewrite !(u256_small (_ - _)) by lia. rewrite !u128_small by lia.
  destruct (inv_move s (msg_sender m) d (if x <? at_ (_stamina s) d then at_ (_stamina s) d - x else 0) (- x) (balance s))
    as [Hi Hl]; try (pose proof (inv_solvent _ _ Hs); lia); [done|destruct (Z.ltb_spec x (at_ (_stamina s) d)); lia|].
  apply (inv_push _ _ _ Hi); simpl; try done; [split; simpl; lia|].
  rewrite Hl. simpl. pose proof (inv_solvent _ _ Hs). lia.
Qed.

Lemma withdraw_next s m n w :
  inv excess s -> paid s (msg_sender m) n -> withdrawals s (msg_sender m) !! n = Some w ->
  forall accepts, withdraw m accepts s = (
    require! u256 (w_requestBlockNumber w + WITHDRAWAL_DELAY s) <=? block_number m;
    require! accepts;
    Some (with_balance (with_withdrawal s
      (<[msg_sender m := <[n := mkWithdrawal (w_amount w) (w_requestBlockNumber w) (w_delegatee w) true]>
           (withdrawals s (msg_sender m))]> (_withdrawal s))
      (<[msg_sender m := Z.of_nat n]> (_last_processed_withdrawal s))) (balance s - w_amount w))).
Proof.
  intros Hs Hp Hw accepts. pose proof (lookup_lt_Some _ _ _ Hw). unfold withdraw.
  rewrite (withdrawalIndex_paid s _ n) by (try done; by apply (inv_count _ _ Hs)). rewrite Nat2Z.id, Hw.
  rewrite (paid_below_lookup n _ w (paid_prefix _ _ _ Hp) Hw). simpl.
  f_equal. f_equal. rewrite (proj2 (Z.leb_le _ _)), andb_true_r; [done|].
  pose proof (pending_le excess s Hs (msg_sender m)).
  pose proof (pending_insert _ n w (mkWithdrawal 0 0 0 true) Hw (paid_below_lookup n _ w (paid_prefix _ _ _ Hp) Hw) eq_refl).
  enough (0 <= pending (<[n:=mkWithdrawal 0 0 0 true]> (withdrawals s (msg_sender m)))) by (simpl in *; lia).
  apply pending_nonneg. intros x Hx. apply elem_of_insert_inv in Hx as [->|Hx]; [by split|by apply (inv_request _ _ Hs _ _ Hx)].
Qed.

Lemma withdraw_none s m accepts :
  inv excess s -> paid s (msg_sender m) (length (withdrawals s (msg_sender m))) -> withdraw m accepts s = None.
Proof.
  intros Hs Hp. unfold withdraw. destruct (withdrawalIndex s (msg_sender m)) as [i|] eqn:Hi; [|done].
  by rewrite (withdrawalIndex_done s _ Hp (inv_count _ _ Hs _) i Hi).
Qed.

Lemma inv_pay s a n w :
  inv excess s -> paid s a n -> withdrawals s a !! n = Some w ->
  let s' := with_balance (with_withdrawal s
      (<[a := <[n := mkWithdrawal (w_amount w) (w_requestBlockNumber w) (w_delegatee w) true]> (withdrawals s a)]> (_withdrawal s))
      (<[a := Z.of_nat n]> (_last_processed_withdrawal s))) (balance s - w_amount w) in
  inv excess s' /\ paid s' a (S n).
Proof.
  intros Hs Hp Hw s'. pose proof (lookup_lt_Some _ _ _ Hw) as Hn.
  pose proof (paid_below_lookup n _ w (paid_prefix _ _ _ Hp) Hw) as Hf.
  assert (Hr : request_ok w) by (apply (inv_request _ _ Hs a); by eapply list_elem_of_lookup_2).
  set (w' := mkWithdrawal _ _ _ true) in s'.
  assert (Ews : forall b, withdrawals s' b = if decide (b = a) then <[n := w']> (withdrawals s a) else withdrawals s b)
    by (intros b; apply (withdrawals_insert s)).
  assert (Hp' : paid s' a (S n)).
  { split; rewrite ?Ews, ?decide_True by done; [rewrite length_insert; lia| |].
    - apply paid_below_insert; [apply Hp|done..].
    - simpl. rewrite at_insert. by rewrite decide_True by done. }
  split; [|done]. split; try apply Hs.
  - intros b. destruct (decide (b = a)) as [->|Hb]; [by exists (S n)|].
    destruct (inv_paid _ _ Hs b) as [k [H1 H2 H3]]. exists k.
    split; rewrite ?Ews, ?(decide_False (P := b = a)) by done; [done..|].
    simpl. rewrite at_insert. by rewrite decide_False by done.
  - intros b. rewrite Ews. case_decide; [rewrite length_insert|]; apply Hs.
  - intros b x. rewrite Ews. case_decide; [|apply Hs]. intros [->|Hx]%elem_of_insert_inv; [done|]. by apply (inv_request _ _ Hs a).
  - pose proof (inv_solvent _ _ Hs). unfold liabilities in *; simpl. rewrite msum_insert, (pending_insert _ n w w' Hw Hf eq_refl).
    unfold withdrawals. destruct (_withdrawal s !! a) eqn:Ha; simpl; [lia|]. unfold withdrawals in Hw. rewrite Ha in Hw. done.
  - simpl. pose proof (inv_supply _ _ Hs). destruct Hr. lia.
Qed.

Lemma withdraw_inv s s' m accepts : inv excess s -> withdraw m accepts s = Some s' -> inv excess s'.
Proof.
  intros Hs H. destruct (inv_paid _ _ Hs (msg_sender m)) as [n Hp].
  destruct (withdrawals s (msg_sender m) !! n) as [w|] eqn:Hw.
  - rewrite (withdraw_next s m n w Hs Hp Hw) in H. requires. by apply inv_pay.
  - apply lookup_ge_None in Hw. pose proof (paid_bound _ _ _ Hp).
    replace n with (length (withdrawals s (msg_sender m))) in Hp by lia. by rewrite withdraw_none in H.
Qed.

Lemma addStamina_inv s s' m d x :
  inv excess s -> 0 <= x < two256 -> addStamina m d x s = Some s' -> inv excess s'.
Proof.
  intros Hs Hx H. unfold addStamina in H. requires. pose proof (total_le excess s Hs d). pose proof (inv_stamina _ _ Hs d).
  pose proof (excess_ok d). pose proof (inv_supply _ _ Hs).
  match goal with H : (if ?c then _ else _) = _ |- _ => destruct c end; requires.
  - eapply inv_frame; [apply (inv_set_stamina s d (at_ (_total_deposit s) d) Hs); lia|done|simpl; lia].
  - apply inv_set_stamina; [done|]. match goal with H : _ < u256 _ |- _ => apply u256_add_lt in H; [|lia..] end.
    rewrite u256_small by lia. destruct (Z.ltb_spec (at_ (_total_deposit s) d) (at_ (_stamina s) d + x)); lia.
Qed.

Lemma subtractStamina_inv s s' m d x :
  inv excess s -> 0 <= x < two256 -> subtractStamina m d x s = Some s' -> inv excess s'.
Proof.
  intros Hs Hx H. unfold subtractStamina in H. requires. pose proof (total_le excess s Hs d). pose proof (inv_stamina _ _ Hs d).
  pose proof (excess_ok d). pose proof (inv_supply _ _ Hs).
  apply inv_set_stamina; [done|]. match goal with H : u256 _ < _ |- _ => apply u256_sub_lt in H; [|lia..] end.
  rewrite u256_small by lia. lia.
Qed.

Lemma step_inv s s' : inv excess s -> step s s' -> inv excess s'.
Proof.
  intros Hs [m c Hok H]. pose proof (inv_supply _ _ Hs).
  destruct c; simpl in H; [..|by eapply deposit_inv| | | | |]; requires.
  - unfold init in H. requires. by eapply inv_frame; [done|done|simpl; lia].
  - unfold setDelegator in H. requires. by eapply inv_frame; [done|done|simpl; lia].
  - by eapply requestWithdrawal_inv.
  - by eapply withdraw_inv.
  - eapply addStamina_inv; [done|apply Hok|done].
  - eapply subtractStamina_inv; [done|apply Hok|done].
  - destruct Hok as (? & ? & _). by eapply inv_frame; [done|done|simpl; lia].
Qed.

Lemma steps_inv s s' : inv excess s -> rtc step s s' -> inv excess s'.
Proof. induction 2; [done|]. eauto using step_inv. Qed.
End Preserve.

Lemma genesis_excess_ok operator d : 0 <= genesis_excess operator d < two128.
Proof. unfold genesis_excess, DefaultOperatorStamina, Ether. destruct (d =? operator); lia. Qed.

Lemma genesis_inv operator c : inv (genesis_excess operator) (GenesisStaminaAccount operator c).
Proof.
  split; try done; simpl.
  - intros d. unfold at_, genesis_excess. rewrite lookup_empty. simpl. destruct (Z.eqb_spec d operator) as [->|Hd].
    + rewrite lookup_singleton_eq. simpl. unfold DefaultOperatorStamina, Ether. lia.
    + rewrite lookup_singleton_ne by done. simpl. lia.
  - intros a. exists 0%nat. split; [simpl; lia| |done]. intros i w. unfold withdrawals; simpl. by rewrite lookup_empty.
  - intros a w. unfold withdrawals; simpl. rewrite lookup_empty. by intros ?%elem_of_nil.
Qed.

Lemma genesis_reachable operator c s : rtc step (GenesisStaminaAccount operator c) s -> inv (genesis_excess operator) s.
Proof. apply steps_inv; [apply genesis_excess_ok|apply genesis_inv]. Qed.

(** [k] calls of [withdraw]. *)
Fixpoint withdraws (k : nat) (m : Msg) (s : Stamina) : option Stamina :=
  match k with
  | O => Some s
  | S k => s' ← withdraw m true s; withdraws k m s'
  end.

Lemma pending_paid ws : paid_below (length ws) ws -> pending ws = 0.
Proof.
  intros H. assert (Hall : forall w, w ∈ ws -> w_processed w = true).
  { intros w [i Hi]%list_elem_of_lookup. rewrite (H i w Hi). apply bool_decide_eq_true. by eapply lookup_lt_Some. }
  clear H. induction ws as [|w ws IH]; [done|]. simpl. rewrite Hall by set_solver. rewrite IH; [done|]. set_solver.
Qed.

Lemma withdraws_ok excess m k : forall s n, inv excess s ->
  paid s (msg_sender m) n -> (n + k = length (withdrawals s (msg_sender m)))%nat ->
  (forall w, w ∈ withdrawals s (msg_sender m) -> u256 (w_requestBlockNumber w + WITHDRAWAL_DELAY s) <= block_number m) ->
  exists s', withdraws k m s = Some s' /\ inv excess s' /\
    paid s' (msg_sender m) (length (withdrawals s' (msg_sender m))) /\
    balance s' = balance s - pending (withdrawals s (msg_sender m)) /\
    (forall a, a <> msg_sender m -> withdrawals s' a = withdrawals s a) /\
    (_total_deposit s', _deposit s', _stamina s') = (_total_deposit s, _deposit s, _stamina s).
Proof.
  induction k as [|k IH]; intros s n Hs Hp Hk Hd; simpl.
  - replace n with (length (withdrawals s (msg_sender m))) in Hp by lia. exists s.
    rewrite (pending_paid _ (paid_prefix _ _ _ Hp)), Z.sub_0_r. done.
  - destruct (lookup_lt_is_Some_2 (withdrawals s (msg_sender m)) n) as [w Hw]; [lia|].
    assert (Hin : w ∈ withdrawals s (msg_sender m)) by by eapply list_elem_of_lookup_2.
    rewrite (withdraw_next excess s m n w Hs Hp Hw). unfold require. rewrite (proj2 (Z.leb_le _ _) (Hd w Hin)). simpl.
    destruct (inv_pay excess s _ n w Hs Hp Hw) as [Hs1 Hp1].
    set (w' := mkWithdrawal _ _ _ true) in *. set (s1 := with_balance _ _) in *.
    assert (Ews : forall b, withdrawals s1 b = if decide (b = msg_sender m) then <[n := w']> (withdrawals s (msg_sender m))
      else withdrawals s b) by (intros b; apply (withdrawals_insert s)).
    assert (E1 := Ews (msg_sender m)). rewrite decide_True in E1 by done.
    destruct (IH s1 (S n) Hs1 Hp1) as (s' & -> & Hs' & Hp' & Hb & Ho & Heq).
    + rewrite E1, length_insert. lia.
    + rewrite E1. intros x [->|Hx]%elem_of_insert_inv; simpl; by apply Hd.
    + exists s'. do 3 (split; [done|]). rewrite Hb, E1.
      rewrite (pending_insert _ n w w' Hw (paid_below_lookup n _ w (paid_prefix _ _ _ Hp) Hw) eq_refl).
      simpl. split; [lia|]. split; [|done]. intros a Ha. rewrite (Ho a Ha), Ews. by rewrite decide_False.
Qed.

(** ** Properties *)

(** C18: in every state reached from the genesis state, by any calls in any
    order, the total deposit of a delegatee is the sum of what the
    depositors hold for it, the contract holds at least all deposits and all
    unpaid withdrawals, the stamina of a delegatee is at most its total
    deposit (plus what the genesis gave the operator), and the withdrawals
    of each depositor have been paid exactly once, in the order of the requests. *)
Theorem stamina_solvent operator c s :
  rtc step (GenesisStaminaAccount operator c) s ->
  (forall d, at_ (_total_deposit s) d = deposits_of s d) /\
  msum (fun _ x => x) (_total_deposit s) + msum (fun _ ws => pending ws) (_withdrawal s) <= balance s /\
  (forall d, 0 <= at_ (_stamina s) d <= at_ (_total_deposit s) d + genesis_excess operator d) /\
  (forall a, exists n, paid s a n).
Proof. intros Hs%genesis_reachable. split_and!; apply Hs. Qed.

(** C37: whoever asked for withdrawals gets them.  Once the delay of every
    request has passed, a depositor that accepts the Ether can call
    [withdraw] until all requests are paid: no call reverts, the contract
    pays the sum of what was pending and nothing else changes; a further
    call reverts. *)
Theorem withdrawals_paid operator c s m :
  rtc step (GenesisStaminaAccount operator c) s -> 0 <= WITHDRAWAL_DELAY s -> block_number m < two256 ->
  (forall w, w ∈ withdrawals s (msg_sender m) -> w_requestBlockNumber w + WITHDRAWAL_DELAY s <= block_number m) ->
  exists k s', withdraws k m s = Some s' /\
    (forall w, w ∈ withdrawals s' (msg_sender m) -> w_processed w = true) /\
    balance s' = balance s - pending (withdrawals s (msg_sender m)) /\
    (forall a, a <> msg_sender m -> withdrawals s' a = withdrawals s a) /\
    (_total_deposit s', _deposit s', _stamina s') = (_total_deposit s, _deposit s, _stamina s) /\
    withdraw m true s' = None.
Proof.
  intros Hs%genesis_reachable Hd0 Hb Hd. destruct (inv_paid _ _ Hs (msg_sender m)) as [n Hp].
  exists (length (withdrawals s (msg_sender m)) - n)%nat.
  destruct (withdraws_ok (genesis_excess operator) m (length (withdrawals s (msg_sender m)) - n) s n)
    as (s' & Hw & Hs' & Hp' & Hrest); try done.
  - pose proof (paid_bound _ _ _ Hp). lia.
  - intros w Hw. specialize (Hd w Hw). destruct (inv_request _ _ Hs _ _ Hw) as [_ ?]. rewrite u256_small by lia. done.
  - exists s'. destruct Hrest as (? & ? & ?). split_and!; try done; [|by eapply withdraw_none].
    intros w [i Hi]%list_elem_of_lookup. rewrite (paid_prefix _ _ _ Hp' i w Hi).
    apply bool_decide_eq_true. by eapply lookup_lt_Some.
Qed.

(** What a transaction does to the stamina of its payer.  The chain
    takes [x] before the execution and gives [r] back after it; with enough
    stamina and outside a recovery neither call fails, and the payer has lost
    exactly the difference, unless a withdrawal has lowered its deposit. *)
Theorem stamina_charge_refund operator c s m d x r :
  rtc step (GenesisStaminaAccount operator c) s -> msg_sender m = 0 ->
  0 < r <= x -> x <= at_ (_stamina s) d ->
  block_number m < u256 (at_ (_last_recovery_block s) d + RECOVER_EPOCH_LENGTH s) ->
  exists s1 s2, subtractStamina m d x s = Some s1 /\ addStamina m d r s1 = Some s2 /\
    at_ (_stamina s2) d = Z.min (at_ (_stamina s) d - (x - r)) (at_ (_total_deposit s) d) /\
    (forall d', d' <> d -> at_ (_stamina s2) d' = at_ (_stamina s) d').
Proof.
  intros Hs%genesis_reachable Hm Hr Hx Hb. pose proof (inv_stamina _ _ Hs d). pose proof (total_le _ s Hs d).
  pose proof (inv_supply _ _ Hs). pose proof (genesis_excess_ok operator d).
  eexists _, _. unfold subtractStamina, addStamina, onlyChain. rewrite Hm. cbn [Z.eqb]. rewrite orb_true_r. cbn [require].
  rewrite (u256_small (_ - _)), (proj2 (Z.ltb_lt _ _)) by lia. cbn [require]. split; [done|]. simpl.
  rewrite orb_true_r. cbn [require]. rewrite (proj2 (Z.leb_gt _ _)) by lia.
  rewrite at_insert, decide_True by done. rewrite (u256_small (_ + _)), (proj2 (Z.ltb_lt _ (_ + _))) by lia.
  split; [done|]. simpl. split.
  - rewrite at_insert, decide_True by done. destruct (Z.ltb_spec (at_ (_total_deposit s) d) (at_ (_stamina s) d - x + r)); lia.
  - intros d' Hd. by rewrite !at_insert, !decide_False.
Qed.

(** The stamina the genesis block gives the operator has no deposit
    behind it.  It is the default amount whatever the configuration says, and
    the first refund that reaches the operator sets it to zero. *)
Theorem genesis_operator_stamina operator c m r :
  msg_sender m = 0 -> 0 < r -> DefaultOperatorStamina + r < two256 ->
  at_ (_stamina (GenesisStaminaAccount operator c)) operator = DefaultOperatorStamina /\
  exists s', addStamina m operator r (GenesisStaminaAccount operator c) = Some s' /\ at_ (_stamina s') operator = 0.
Proof.
  intros Hm Hr Hb. split; [unfold at_; simpl; by rewrite lookup_singleton_eq|].
  unfold addStamina, onlyChain. rewrite Hm. cbn [Z.eqb]. rewrite orb_true_r. cbn [require].
  match goal with |- context [if ?b then _ else _] => destruct b end.
  - eexists. split; [done|]. simpl. by rewrite at_insert, decide_True.
  - replace (at_ (_stamina (GenesisStaminaAccount operator c)) operator) with DefaultOperatorStamina
      by (unfold at_; simpl; by rewrite lookup_singleton_eq).
    rewrite u256_small, (proj2 (Z.ltb_lt _ _)) by (unfold DefaultOperatorStamina, Ether in *; lia). cbn [require].
    eexists. split; [done|]. simpl. rewrite at_insert, decide_True by done.
    change (at_ ∅ operator) with 0. rewrite (proj2 (Z.ltb_lt _ _)); [done|]. unfold DefaultOperatorStamina, Ether in *; lia.
Qed.

(** ** Witnesses: a deposit and a request for half of it *)

Module StaminaExample.
Definition start : Stamina := GenesisStaminaAccount 1 DefaultStaminaConfig.
Definition deposited : Stamina := default start (exec (mkMsg 5 Ether 10) (Deposit 7) start).
Definition requested : Stamina := default start (exec (mkMsg 5 0 20) (RequestWithdrawal 7 (Ether / 2)) deposited).

Lemma requested_reachable : rtc step start requested.
Proof.
  apply (rtc_l _ _ deposited).
  { apply (step_call _ _ (mkMsg 5 Ether 10) (Deposit 7)); [vm_compute; intuition congruence|vm_compute; reflexivity]. }
  apply rtc_once.
  apply (step_call _ _ (mkMsg 5 0 20) (RequestWithdrawal 7 (Ether / 2)));
    [vm_compute; intuition congruence|vm_compute; reflexivity].
Qed.

Lemma stamina_solvent_witness :
  (forall d, at_ (_total_deposit requested) d = deposits_of requested d) /\
  (forall d, 0 <= at_ (_stamina requested) d <= at_ (_total_deposit requested) d + genesis_excess 1 d).
Proof.
  pose proof (stamina_solvent 1 DefaultStaminaConfig requested requested_reachable) as (H1 & _ & H2 & _). by split.
Defined.

Lemma withdrawals_paid_witness :
  exists k s', withdraws k (mkMsg 5 0 1000000) requested = Some s' /\ balance s' = Ether / 2.
Proof.
  destruct (withdrawals_paid 1 DefaultStaminaConfig requested (mkMsg 5 0 1000000)) as (k & s' & Hw & _ & Hb & _).
  - apply requested_reachable.
  - vm_compute. congruence.
  - vm_compute. congruence.
  - intros w Hw. vm_compute in Hw. apply list_elem_of_singleton in Hw as ->. vm_compute. congruence.
  - exists k, s'. split; [done|]. rewrite Hb. vm_compute. reflexivity.
Defined.

Lemma stamina_charge_refund_witness :
  exists s1 s2, subtractStamina (mkMsg 0 0 30) 7 1000 requested = Some s1 /\
    addStamina (mkMsg 0 0 30) 7 400 s1 = Some s2 /\ getStamina 7 s2 = Ether / 2 - 600.
Proof.
  destruct (stamina_charge_refund 1 DefaultStaminaConfig requested (mkMsg 0 0 30) 7 1000 400) as (s1 & s2 & H1 & H2 & H3 & _).
  - apply requested_reachable.
  - reflexivity.
  - lia.
  - vm_compute. congruence.
  - vm_compute. congruence.
  - exists s1, s2. split; [done|]. split; [done|]. unfold getStamina. rewrite H3. vm_compute. reflexivity.
Defined.

Lemma genesis_operator_stamina_witness :
  exists s', addStamina (mkMsg 0 0 30) 1 21000 start = Some s' /\ getStamina 1 s' = 0.
Proof. apply (genesis_operator_stamina 1 DefaultStaminaConfig (mkMsg 0 0 30) 21000); vm_compute; congruence. Defined.
End StaminaExample.
