(* ===== verification/Transition.v ===== *)
(** * core: applying a message to the state
    state_transition.go, stamina.go and gaspool.go: a message is paid for by
    the stamina of its sender's delegatee, if that covers the upfront cost, and
    by the sender otherwise; then its code runs, the gas left over is given
    back and the rest is the coinbase's.  The stamina is kept by a contract
    (Stamina.v), which the chain calls through the EVM. *)

From S2P Require Import Prelude MathUtil Abi VmBase VmEnv VmGas VmInstr VmTable VmInterp VmAnalysis.
From S2P Require Import World VmInv VmMemory VmGasSpec VmStep VmOps VmTableOk VmSafe VmFuel VmMain.

(** ** Gas pool (gaspool.go) *)

Module GasPool.
Definition AddGas (gp amount : Z) : outcome Z :=
  if MaxUint64 - amount <? gp then Panic GasPoolOverflow else Done (gp + amount).

(** [None] is ErrGasLimitReached. *)
Definition SubGas (gp amount : Z) : option Z := if gp <? amount then None else Some (gp - amount).
End GasPool.

(** ** Intrinsic gas *)

(** The loop that counts the non-zero bytes. *)
Fixpoint nonZero (data : bytes) : Z :=
  match data with
  | [] => 0
  | b :: data => (if bool_decide (b = Byte.x00) then 0 else 1) + nonZero data
  end.

(** [None] is ErrOutOfGas. *)
Definition IntrinsicGas (data : bytes) (contractCreation isHomestead isEIP2028 : bool) : option Z :=
  let gas := if contractCreation && isHomestead then Params.TxGasContractCreation else Params.TxGas in
  if 0 <? zlen data then
    let nz := nonZero data in
    let nonZeroGas := if isEIP2028 then Params.TxDataNonZeroGasEIP2028 else Params.TxDataNonZeroGasFrontier in
    if (MaxUint64 - gas) / nonZeroGas <? nz then None
    else
      let gas := u64 (gas + u64 (nz * nonZeroGas)) in
      let z := u64 (zlen data - nz) in
      if (MaxUint64 - gas) / Params.TxDataZeroGas <? z then None
      else Some (u64 (gas + u64 (z * Params.TxDataZeroGas)))
  else Some gas.

(** ** Messages and transitions *)

Record Message := mkMessage {
  From : Address;
  To : option Address;
  MsgGasPrice : Z;
  MsgGas : Z;
  Value : Z;
  Nonce : Z;
  CheckNonce : bool;
  Data : bytes }.

Inductive coreError :=
| ErrNonceTooHigh
| ErrNonceTooLow
| errInsufficientBalanceForGas
| ErrGasLimitReached
| VmError (e : vmError).

Record StateTransition (S : Type) := mkST {
  gp : Z;
  gas : Z;
  initialGas : Z;
  st_evm : EVM S }.
Arguments mkST {S}.
Arguments gp {S}.
Arguments gas {S}.
Arguments initialGas {S}.
Arguments st_evm {S}.

Section Transition.
Context {S : Type} `{HS : vmStateDB S} (env : Env) (cs : Calls S).
Implicit Types (e : EVM S) (st : StateTransition S).

(** *** The stamina contract as the chain sees it (stamina.go) *)

(** [abi.Pack] of a method whose arguments are static words. *)
Definition ID (sig : bytes) : bytes := take 4 (be_bytes 32 (keccak256 env sig)).
Definition pack_address (a : Address) : bytes := Abi.packElement Abi.AddressTy (Abi.VBytes (be_bytes 20 a)).

Definition sig_getDelegatee : bytes := String.list_byte_of_string "getDelegatee(address)".
Definition sig_getStamina : bytes := String.list_byte_of_string "getStamina(address)".
Definition sig_addStamina : bytes := String.list_byte_of_string "addStamina(address,uint256)".
Definition sig_subtractStamina : bytes := String.list_byte_of_string "subtractStamina(address,uint256)".

Definition BlockchainAccount : ContractRef := AccountRef Params.NullAddress.

Definition GetDelegatee (e : EVM S) (from : Address) : outcome (EVM S * Address * option vmError) :=
  let! '(e, res) := StaticCall cs e BlockchainAccount Params.StaminaAddress (ID sig_getDelegatee ++ pack_address from) 1000000 in
  match err res with
  | Some er => Done (e, 0, Some er)
  | None => Done (e, BytesToAddress (ret_bytes (ret res)), None)
  end.

Definition GetStamina (e : EVM S) (delegatee : Address) : outcome (EVM S * Z * option vmError) :=
  let! '(e, res) := StaticCall cs e BlockchainAccount Params.StaminaAddress (ID sig_getStamina ++ pack_address delegatee) 1000000 in
  match err res with
  | Some er => Done (e, 0, Some er)
  | None => Done (e, SetBytes (ret_bytes (ret res)), None)
  end.

Inductive staminaError := errUpdateStamina | StaminaVmError (e : vmError).

(** The call that [AddStamina] and [SubtractStamina] make. *)
Definition updateStamina (sig : bytes) (e : EVM S) (delegatee : Address) (gas : Z) : outcome (EVM S * option staminaError) :=
  let! '(e, res) := Call cs e BlockchainAccount Params.StaminaAddress
                      (ID sig ++ pack_address delegatee ++ Abi.packNum gas) 1000000 0 in
  if negb (SetBytes (ret_bytes (ret res)) =? 1) then Done (e, Some errUpdateStamina)
  else Done (e, StaminaVmError <$> err res).

Definition AddStamina : EVM S -> Address -> Z -> outcome (EVM S * option staminaError) := updateStamina sig_addStamina.
Definition SubtractStamina : EVM S -> Address -> Z -> outcome (EVM S * option staminaError) := updateStamina sig_subtractStamina.

(** *** The transition (state_transition.go) *)

Definition NewStateTransition (e : EVM S) (gp : Z) : StateTransition S := mkST gp 0 0 e.

Definition with_evm st e : StateTransition S := mkST (gp st) (gas st) (initialGas st) e.
Definition with_gas st g : StateTransition S := mkST (gp st) g (initialGas st) (st_evm st).
Definition state st : S := StateDB (st_evm st).
Definition with_state st (s : S) : StateTransition S := with_evm st (set_StateDB (st_evm st) s).

Definition to_ (msg : Message) : Address := match To msg with None => 0 | Some a => a end.

(** [None] is ErrOutOfGas. *)
Definition useGas st (amount : Z) : option (StateTransition S) :=
  if gas st <? amount then None else Some (with_gas st (gas st - amount)).

Definition gasUsed st : Z := u64 (initialGas st - gas st).

Definition buyGas (msg : Message) st : StateTransition S * option coreError :=
  if From msg =? Params.NullAddress then
    (mkST (gp st) (u64 (gas st + MsgGas msg)) (MsgGas msg) (st_evm st), None)
  else
    let mgval := MsgGas msg * MsgGasPrice msg in
    if GetBalance (state st) (From msg) <? mgval then (st, Some errInsufficientBalanceForGas)
    else
      match GasPool.SubGas (gp st) (MsgGas msg) with
      | None => (st, Some ErrGasLimitReached)
      | Some gp =>
          let st := mkST gp (u64 (gas st + MsgGas msg)) (MsgGas msg) (st_evm st) in
          (with_state st (SubBalance (state st) (From msg) mgval), None)
      end.

Definition buyDelegateeGas (msg : Message) st (delegatee : Address) : outcome (StateTransition S * option coreError) :=
  let mgval := MsgGas msg * MsgGasPrice msg in
  let! '(e, balance, er) := GetStamina (st_evm st) delegatee in
  let st := with_evm st e in
  match er with
  | Some er => Done (st, Some (VmError er))
  | None =>
      if balance <? mgval then Done (st, Some errInsufficientBalanceForGas)
      else
        match GasPool.SubGas (gp st) (MsgGas msg) with
        | None => Done (st, Some ErrGasLimitReached)
        | Some gp =>
            let st := mkST gp (u64 (gas st + MsgGas msg)) (MsgGas msg) (st_evm st) in
            (* the error of SubtractStamina is not looked at *)
            let! '(e, _) := SubtractStamina (st_evm st) delegatee mgval in
            Done (with_evm st e, None)
        end
  end.

(** The nonce check of both [preCheck] and [preDelegateeCheck]. *)
Definition checkNonce (msg : Message) st : option coreError :=
  if CheckNonce msg then
    let nonce := GetNonce (state st) (From msg) in
    if nonce <? Nonce msg then Some ErrNonceTooHigh
    else if Nonce msg <? nonce then Some ErrNonceTooLow else None
  else None.

Definition preCheck (msg : Message) st : StateTransition S * option coreError :=
  match checkNonce msg st with
  | Some er => (st, Some er)
  | None => buyGas msg st
  end.

Definition preDelegateeCheck (msg : Message) st (delegatee : Address) : outcome (StateTransition S * option coreError) :=
  match checkNonce msg st with
  | Some er => Done (st, Some er)
  | None => buyDelegateeGas msg st delegatee
  end.

(** The gas that is given back: half of what was used, at most the counter. *)
Definition refund st : Z :=
  let refund := gasUsed st / 2 in
  if GetRefund (state st) <? refund then GetRefund (state st) else refund.

Definition refundGas (msg : Message) st : outcome (StateTransition S) :=
  let st := with_gas st (u64 (gas st + refund st)) in
  let remaining := gas st * MsgGasPrice msg in
  let st := with_state st (AddBalance (state st) (From msg) remaining) in
  let! gp := GasPool.AddGas (gp st) (gas st) in
  Done (mkST gp (gas st) (initialGas st) (st_evm st)).

Definition refundDelegateeGas (msg : Message) st (delegatee : Address) : outcome (StateTransition S) :=
  let st := with_gas st (u64 (gas st + refund st)) in
  let remaining := gas st * MsgGasPrice msg in
  let! '(e, _) := AddStamina (st_evm st) delegatee remaining in
  let st := with_evm st e in
  let! gp := GasPool.AddGas (gp st) (gas st) in
  Done (mkST gp (gas st) (initialGas st) (st_evm st)).

(** What [TransitionDb] returns. *)
Record txResult := mkTxResult { tx_ret : bytes; tx_usedGas : Z; tx_failed : bool; tx_err : option coreError }.
Definition tx_error (er : coreError) : txResult := mkTxResult [] 0 false (Some er).

(** Pay the intrinsic gas and run the message: [inl] when the transition ends
    with an error, otherwise the result of the EVM. *)
Definition execute (msg : Message) st : outcome (StateTransition S * (coreError + bytes * option vmError)) :=
  let contractCreation := bool_decide (To msg = None) in
  match IntrinsicGas (Data msg) contractCreation (IsHomestead (chainRules env)) (IsIstanbul (chainRules env)) with
  | None => Done (st, inl (VmError ErrOutOfGas))
  | Some g =>
      match useGas st g with
      | None => Done (st, inl (VmError ErrOutOfGas))
      | Some st =>
          let! '(st, ret, vmerr) :=
            if contractCreation then
              let! '(e, res) := Create cs (st_evm st) (AccountRef (From msg)) (Data msg) (gas st) (Value msg) in
              Done (with_gas (with_evm st e) (create_leftOverGas res), create_ret res, create_err res)
            else
              let st := with_state st (SetNonce (state st) (From msg) (u64 (GetNonce (state st) (From msg) + 1))) in
              let! '(e, res) := Call cs (st_evm st) (AccountRef (From msg)) (to_ msg) (Data msg) (gas st) (Value msg) in
              Done (with_gas (with_evm st e) (leftOverGas res), ret_bytes (VmInstr.ret res), err res) in
          if bool_decide (vmerr = Some ErrInsufficientBalance) then Done (st, inl (VmError ErrInsufficientBalance))
          else Done (st, inr (ret, vmerr))
      end
  end.

(** The fee goes to the coinbase. *)
Definition finish (msg : Message) st (ret : bytes) (vmerr : option vmError) : StateTransition S * txResult :=
  let st := with_state st (AddBalance (state st) (Coinbase (ctx env)) (gasUsed st * MsgGasPrice msg)) in
  (st, mkTxResult ret (gasUsed st) (bool_decide (vmerr <> None)) None).

Definition TransitionDb (msg : Message) st : outcome (StateTransition S * txResult) :=
  let! '(e, delegatee, _) := GetDelegatee (st_evm st) (From msg) in
  let! '(e, availableStamina, _) := GetStamina e delegatee in
  let st := with_evm st e in
  let upfrontGasCost := MsgGasPrice msg * Int64 (MsgGas msg) in
  if upfrontGasCost <=? availableStamina then
    let! '(st, er) := preDelegateeCheck msg st delegatee in
    match er with
    | Some er => Done (st, tx_error er)
    | None =>
        let! '(st, res) := execute msg st in
        match res with
        | inl er => Done (st, tx_error er)
        | inr (ret, vmerr) =>
            let! st := refundDelegateeGas msg st delegatee in
            Done (finish msg st ret vmerr)
        end
    end
  else
    let '(st, er) := preCheck msg st in
    match er with
    | Some er => Done (st, tx_error er)
    | None =>
        let! '(st, res) := execute msg st in
        match res with
        | inl er => Done (st, tx_error er)
        | inr (ret, vmerr) =>
            let! st := if negb (From msg =? Params.NullAddress) then refundGas msg st else Done st in
            Done (finish msg st ret vmerr)
        end
    end.
End Transition.

(** ** Intrinsic gas *)

Lemma nonZero_range data : 0 <= nonZero data <= zlen data.
Proof. induction data as [|b data IH]; simpl; [lia|]. case_bool_decide; lia. Qed.

(** The price as it is meant: per zero and per non-zero byte, without bounds. *)
Definition intrinsic (data : bytes) (contractCreation isHomestead isEIP2028 : bool) : Z :=
  (if contractCreation && isHomestead then 53000 else 21000) +
  (if isEIP2028 then 16 else 68) * nonZero data + 4 * (zlen data - nonZero data).

Lemma intrinsic_min data c h i : 21000 <= intrinsic data c h i.
Proof. pose proof (nonZero_range data). unfold intrinsic. destruct (c && h), i; lia. Qed.

Lemma IntrinsicGas_exact data c h i :
  zlen data < two64 ->
  IntrinsicGas data c h i = if intrinsic data c h i <? two64 then Some (intrinsic data c h i) else None.
Proof.
  intros Hl. pose proof (nonZero_range data) as Hn. unfold IntrinsicGas, intrinsic.
  change Params.TxGasContractCreation with 53000. change Params.TxGas with 21000.
  change Params.TxDataNonZeroGasEIP2028 with 16. change Params.TxDataNonZeroGasFrontier with 68.
  change Params.TxDataZeroGas with 4.
  set (base := if c && h then 53000 else 21000). assert (21000 <= base <= 53000) by (unfold base; destruct (c && h); lia).
  set (p := if i then 16 else 68). assert (16 <= p <= 68) by (unfold p; destruct i; lia). clearbody base p.
  destruct (Z.ltb_spec 0 (zlen data)) as [Hd|Hd].
  2:{ replace (nonZero data) with 0 by lia. replace (zlen data) with 0 by lia. rewrite (proj2 (Z.ltb_lt _ _)) by lia. f_equal. lia. }
  destruct (Z.ltb_spec ((MaxUint64 - base) / p) (nonZero data)) as [H1|H1].
  { rewrite (proj2 (Z.ltb_ge _ _)); [done|].
    pose proof (Z.mul_succ_div_gt (MaxUint64 - base) p). nia. }
  assert (H1' : p * nonZero data <= MaxUint64 - base).
  { pose proof (Z.mul_div_le (MaxUint64 - base) p). nia. }
  rewrite !(u64_small (nonZero data * p)), (u64_small (base + _)), (u64_small (zlen data - _))
    by (unfold is_u64; lia).
  destruct (Z.ltb_spec ((MaxUint64 - (base + nonZero data * p)) / 4) (zlen data - nonZero data)) as [H2|H2].
  - rewrite (proj2 (Z.ltb_ge _ _)); [done|]. pose proof (Z.mul_succ_div_gt (MaxUint64 - (base + nonZero data * p)) 4). lia.
  - pose proof (Z.mul_div_le (MaxUint64 - (base + nonZero data * p)) 4).
    rewrite (u64_small (_ * 4)) by (unfold is_u64; lia). rewrite u64_small by (unfold is_u64; lia).
    rewrite (proj2 (Z.ltb_lt _ _)) by lia. f_equal. lia.
Qed.

(** ** Transitions *)

Section Proofs.
Context {S : Type} `{HS : vmStateDB S} (env : Env) `{!StateRefines (keccak256 env) S}.
Context (Henv : env_ok env) (n : nat) (Hn : 1000000 < Z.of_nat n).
Implicit Types (e : EVM S) (st : StateTransition S) (w : World) (r : list (Z * World)).

Abbreviation net := (net_metered (chainRules env)).
Abbreviation wok := (world_ok (keccak256 env) net).
Abbreviation cs := (vm env n).

(** What holds of the EVM between calls: [b] bounds the refund counter. *)
Record evm_ok (b : Z) e w r : Prop := {
  ev_repr : repr (StateDB e) w r;
  ev_world : wok w;
  ev_jumpdests : jumpdests_ok (keccak256 env) (jumpdests e);
  ev_depth : 0 <= depth e;
  ev_refund : 0 <= w_refund w <= b }.

Lemma evm_ok_pre b e w r caller g :
  evm_ok b e w r -> ref_ok caller -> 0 <= g -> b + 1000 * g + 24000 < two64 -> call_pre env net e caller g w r.
Proof. intros [] Hc Hg Hb. split; try done. unfold potential. lia. Qed.

Lemma evm_ok_weaken b b' e w r : evm_ok b e w r -> b <= b' -> evm_ok b' e w r.
Proof. intros [] Hb. split; try done. lia. Qed.

Lemma call_post_ok b e w r g isStatic exact e' left er :
  evm_ok b e w r -> call_post env net e g w r isStatic exact e' left er ->
  exists w' r', evm_ok (b + 1000 * g + 24000) e' w' (r' ++ r) /\ 0 <= left <= g /\
    (isStatic -> static (keccak256 env) w w') /\ (exact -> er <> None -> w' = w).
Proof.
  intros [] (w' & r' & ? & [] & ? & ? & Hw & Hp & ? & ?). exists w', r'. split; [|done].
  pose proof (proj1 (wo_refund _ _ _ Hw)) as Hu. unfold is_u64, potential in *. split; try done; [congruence|lia].
Qed.

(** The cost of a call by the chain, on the bound of the refund counter. *)
Abbreviation sys := 1000024000.

Definition reads e w r b (e' : EVM S) : Prop :=
  exists w' r', evm_ok (b + sys) e' w' (r' ++ r) /\
    (IsByzantium (chainRules env) = true -> static (keccak256 env) w w').

Lemma ID_length sig : zlen (ID env sig) = 4.
Proof. unfold ID. rewrite length_take, length_be_bytes. lia. Qed.

Lemma pack_address_length a : zlen (pack_address a) = 32.
Proof. unfold pack_address, Abi.packElement. rewrite LeftPadBytes_length, length_be_bytes. lia. Qed.

Lemma static_read b e w r sig a :
  evm_ok b e w r -> b + sys < two64 ->
  wp (Z.of_nat n <= 1000000)
    (StaticCall cs e BlockchainAccount Params.StaminaAddress (ID env sig ++ pack_address a) 1000000)
    (fun x => reads e w r b (fst x)).
Proof.
  intros He Hb. eapply (wp_mono (Z.of_nat n <= 1000000)); [|done|].
  - apply (ck_StaticCall _ _ _ _ (vm_ok env n Henv) e BlockchainAccount _ _ 1000000 w r); [|done|].
    + eapply evm_ok_pre; [done|by unfold BlockchainAccount|lia..].
    + rewrite length_app, Nat2Z.inj_add, ID_length, pack_address_length. lia.
  - intros [e' res] Hp. destruct (call_post_ok _ _ _ _ _ _ _ _ _ _ He Hp) as (w' & r' & Hw & _ & ? & _).
    exists w', r'. split; [|done]. by replace (b + sys) with (b + 1000 * 1000000 + 24000) by lia.
Qed.

Lemma GetDelegatee_ok b e w r a :
  evm_ok b e w r -> b + sys < two64 ->
  wp (Z.of_nat n <= 1000000) (GetDelegatee env cs e a) (fun x => reads e w r b (fst (fst x)) /\ 0 <= snd (fst x)).
Proof.
  intros He Hb. eapply wp_bind; [by apply static_read|]. intros [e' res] Hr. simpl in *.
  destruct (err res); simpl; split; try done. apply SetBytes_range.
Qed.

Lemma GetStamina_ok b e w r a :
  evm_ok b e w r -> b + sys < two64 ->
  wp (Z.of_nat n <= 1000000) (GetStamina env cs e a) (fun x => reads e w r b (fst (fst x))).
Proof.
  intros He Hb. eapply wp_bind; [by apply static_read|]. intros [e' res] Hr. simpl in *. by destruct (err res).
Qed.

Lemma updateStamina_ok b e w r sig a x :
  evm_ok b e w r -> b + sys < two64 ->
  wp (Z.of_nat n <= 1000000) (updateStamina env cs sig e a x)
    (fun y => exists w' r', evm_ok (b + sys) (fst y) w' (r' ++ r)).
Proof.
  intros He Hb. eapply wp_bind.
  - apply (ck_Call _ _ _ _ (vm_ok env n Henv) e BlockchainAccount _ _ 1000000 0 w r); [|done|done|].
    + eapply evm_ok_pre; [done|by unfold BlockchainAccount|lia..].
    + rewrite !length_app, !Nat2Z.inj_add, ID_length, pack_address_length, Abi.packNum_length. lia.
  - intros [e' res] Hp. simpl. destruct (call_post_ok _ _ _ _ _ _ _ _ _ _ He Hp) as (w' & r' & Hw & _).
    replace (b + 1000 * 1000000 + 24000) with (b + sys) in Hw by lia. destruct (negb _); simpl; eauto.
Qed.

Lemma evm_ok_state b e w r s' w' r' :
  evm_ok b e w r -> repr s' w' r' -> wok w' -> w_refund w' = w_refund w -> evm_ok b (set_StateDB e s') w' r'.
Proof. intros [] Hr Hw Hu. split; simpl; try done. by rewrite Hu. Qed.

(** *** Execution *)

(** Messages as they come out of a transaction. *)
Record msg_ok (msg : Message) : Prop := {
  mo_From : 0 <= From msg;
  mo_To : forall a, To msg = Some a -> 0 <= a;
  mo_price : 0 <= MsgGasPrice msg;
  mo_gas : 0 <= MsgGas msg;
  mo_value : 0 <= Value msg;
  mo_data : zlen (Data msg) < 2 ^ 62 }.

Abbreviation intrinsicGas msg := (intrinsic (Data msg) (bool_decide (To msg = None))
  (IsHomestead (chainRules env)) (IsIstanbul (chainRules env))).

(** What [execute] promises: the pool and the initial gas are kept; unless it
    fails, at least the intrinsic gas is used. *)
Definition execute_post (b : Z) (msg : Message) st r (x : StateTransition S * (coreError + bytes * option vmError)) : Prop :=
  exists w' r', evm_ok (b + 1000 * MsgGas msg + 24000) (st_evm (fst x)) w' (r' ++ r) /\
    gp (fst x) = gp st /\ initialGas (fst x) = initialGas st /\
    match snd x with
    | inl er => er = VmError ErrOutOfGas \/ er = VmError ErrInsufficientBalance
    | inr _ => 0 <= gas (fst x) <= gas st - intrinsicGas msg
    end.

Lemma execute_ok b msg st w r :
  msg_ok msg -> evm_ok b (st_evm st) w r -> gas st = MsgGas msg -> MsgGas msg < two64 ->
  b + 1000 * MsgGas msg + 24000 < two64 -> MsgGas msg < Z.of_nat n ->
  wp False (execute env cs msg st) (execute_post b msg st r).
Proof.
  intros Hm He Hg Hg64 Hb Hfuel. unfold execute. rewrite IntrinsicGas_exact by (destruct Hm; lia).
  pose proof (intrinsic_min (Data msg) (bool_decide (To msg = None)) (IsHomestead (chainRules env)) (IsIstanbul (chainRules env))).
  assert (Hfail : execute_post b msg st r (st, inl (VmError ErrOutOfGas))).
  { exists w, []. destruct He. split_and!; try done; [|by left]. split; try done. destruct Hm; lia. }
  destruct (Z.ltb_spec (intrinsicGas msg) two64); [|exact Hfail]. unfold useGas.
  destruct (Z.ltb_spec (gas st) (intrinsicGas msg)); [exact Hfail|].
  set (st1 := with_gas st _). set (g := gas st1).
  assert (Hg1 : 0 <= g <= MsgGas msg /\ g = gas st - intrinsicGas msg) by (unfold g, st1; simpl; lia).
  eapply (wp_bind _ _ _ (fun y => exists w' r', evm_ok (b + 1000 * MsgGas msg + 24000) (st_evm (fst (fst y))) w' (r' ++ r) /\
    gp (fst (fst y)) = gp st /\ initialGas (fst (fst y)) = initialGas st /\ 0 <= gas (fst (fst y)) <= g)).
  2:{ intros [[st2 rt] vmerr] (w' & r' & ? & ? & ? & ?). simpl in *. destruct (bool_decide (vmerr = _)); exists w', r'; simpl;
        split_and!; first [done|by right|lia]. }
  case_bool_decide as Hto.
  - eapply wp_bind.
    { eapply (wp_mono (Z.of_nat n <= g)); [|lia|intros x Hx; exact Hx].
      apply (ck_Create _ _ _ _ (vm_ok env n Henv) _ _ _ _ _ w r); [|apply (mo_value _ Hm)|apply (mo_data _ Hm)].
      eapply evm_ok_pre; [done|apply (mo_From _ Hm)|lia..]. }
    intros [e' res] [Hp _]. destruct (call_post_ok _ _ _ _ _ _ _ _ _ _ He Hp) as (w' & r' & Hw & Hl & _).
    exists w', r'. cbn in Hw, Hl |- *. split_and!; try done; [|lia..]. by apply (evm_ok_weaken (b + 1000 * g + 24000)); [|lia].
  - pose proof (ev_repr _ _ _ _ He) as Hr. rewrite (repr_GetNonce _ _ _ _ Hr).
    set (nonce := u64 _).
    assert (He1 : evm_ok b (set_StateDB (st_evm st1) (SetNonce (state st1) (From msg) nonce))
                    (W.SetNonce (keccak256 env) w (From msg) nonce) r).
    { apply (evm_ok_state _ _ w r); [done|by apply repr_SetNonce| |done]. apply world_ok_SetNonce; [apply u64_range|apply He]. }
    eapply wp_bind.
    { eapply (wp_mono (Z.of_nat n <= g)); [|lia|intros x Hx; exact Hx].
      eapply (ck_Call _ _ _ _ (vm_ok env n Henv)); [eapply evm_ok_pre; [exact He1|apply (mo_From _ Hm)|simpl; lia..]| |
        apply (mo_value _ Hm)|apply (mo_data _ Hm)].
      unfold to_. destruct (To msg) eqn:E; [by eapply mo_To|lia]. }
    intros [e' res] Hp. destruct (call_post_ok _ _ _ _ _ _ _ _ _ _ He1 Hp) as (w' & r' & Hw & Hl & _).
    exists w', r'. cbn in Hw, Hl |- *. split_and!; try done; [|lia..]. by apply (evm_ok_weaken (b + 1000 * g + 24000)); [|lia].
Qed.

(** *** Refunds *)

Lemma gasUsed_small st : 0 <= gas st <= initialGas st -> initialGas st < two64 -> gasUsed st = initialGas st - gas st.
Proof. intros. unfold gasUsed. apply u64_small. unfold is_u64. lia. Qed.

(** At most half of the gas that was used is given back. *)
Lemma refund_ok b st w r :
  evm_ok b (st_evm st) w r -> 0 <= gas st <= initialGas st -> initialGas st < two64 ->
  0 <= refund st /\ 2 * refund st <= initialGas st - gas st.
Proof.
  intros He Hg Hi. unfold refund, state. rewrite (repr_GetRefund _ _ _ (ev_repr _ _ _ _ He)), gasUsed_small by done.
  pose proof (ev_refund _ _ _ _ He). pose proof (Z.mul_div_le (initialGas st - gas st) 2).
  pose proof (Z.div_pos (initialGas st - gas st) 2). destruct (Z.ltb_spec (w_refund w) ((initialGas st - gas st) / 2)); lia.
Qed.

(** The gas of [st'], after the refund, is between that of [st] and what
    was bought, and goes back to the pool. *)
Definition refunded st st' : Prop :=
  initialGas st' = initialGas st /\ gp st' = gp st + gas st' /\
  gas st <= gas st' <= initialGas st /\ initialGas st - gas st <= 2 * (initialGas st - gas st').

Lemma refundGas_ok b msg st w r :
  msg_ok msg -> evm_ok b (st_evm st) w r -> 0 <= gas st <= initialGas st -> initialGas st < two64 ->
  0 <= gp st -> gp st + initialGas st < two64 ->
  wp False (refundGas msg st) (fun st' => refunded st st' /\
    evm_ok b (st_evm st') (W.AddBalance (keccak256 env) w (From msg) (gas st' * MsgGasPrice msg)) r).
Proof.
  intros Hm He Hg Hi Hp Hpi. destruct (refund_ok b st w r He Hg Hi). unfold refundGas. simpl.
  rewrite u64_small by (unfold is_u64; lia). unfold GasPool.AddGas. rewrite (proj2 (Z.ltb_ge _ _)) by lia. simpl.
  split; [split_and!; simpl; lia|]. apply (evm_ok_state _ _ w r); [done|apply repr_AddBalance, He| |done].
  apply world_ok_AddBalance; [|apply He]. pose proof (mo_price _ Hm). nia.
Qed.

Lemma refundDelegateeGas_ok b msg st w r d :
  evm_ok b (st_evm st) w r -> b + sys < two64 -> 0 <= gas st <= initialGas st -> initialGas st < two64 ->
  0 <= gp st -> gp st + initialGas st < two64 ->
  wp False (refundDelegateeGas env cs msg st d) (fun st' => refunded st st' /\
    exists w' r', evm_ok (b + sys) (st_evm st') w' (r' ++ r)).
Proof.
  intros He Hb Hg Hi Hp Hpi. destruct (refund_ok b st w r He Hg Hi). unfold refundDelegateeGas. simpl.
  rewrite u64_small by (unfold is_u64; lia). eapply wp_bind.
  { eapply (wp_mono (Z.of_nat n <= 1000000)); [eapply updateStamina_ok; done|lia|intros x Hx; exact Hx]. }
  intros [e' er] (w' & r' & He'). unfold GasPool.AddGas; simpl. rewrite (proj2 (Z.ltb_ge _ _)) by lia. simpl.
  split; [split_and!; simpl; lia|]. by exists w', r'.
Qed.

(** *** Payment *)

(** Nothing has been bought yet: the pool and every account are as before. *)
Definition unpaid w (p : Z) st w' : Prop :=
  gp st = p /\ (IsByzantium (chainRules env) = true -> static (keccak256 env) w w').

Lemma buyGas_ok b msg st w r :
  msg_ok msg -> evm_ok b (st_evm st) w r -> gas st = 0 -> MsgGas msg < two64 ->
  let '(st', er) := buyGas msg st in
  match er with
  | Some er => st' = st /\ forall v, er <> VmError v
  | None => initialGas st' = MsgGas msg /\ gas st' = MsgGas msg /\
      (if From msg =? Params.NullAddress then gp st' = gp st /\ st_evm st' = st_evm st
       else gp st' = gp st - MsgGas msg /\ 0 <= gp st' /\
            MsgGas msg * MsgGasPrice msg <= a_balance (W.get (keccak256 env) w (From msg)) /\
            evm_ok b (st_evm st') (W.SubBalance (keccak256 env) w (From msg) (MsgGas msg * MsgGasPrice msg)) r)
  end.
Proof.
  intros Hm He Hg Hg64. pose proof (mo_gas _ Hm). unfold buyGas, GasPool.SubGas. rewrite Hg, u64_small by (unfold is_u64; lia).
  destruct (From msg =? Params.NullAddress); [done|]. unfold state.
  rewrite (repr_GetBalance _ _ _ _ (ev_repr _ _ _ _ He)). simpl.
  destruct (Z.ltb_spec (a_balance (W.get (keccak256 env) w (From msg))) (MsgGas msg * MsgGasPrice msg)); [by split|].
  destruct (Z.ltb_spec (gp st) (MsgGas msg)); [by split|]. simpl. split_and!; try done; [lia|].
  apply (evm_ok_state _ _ w r); [done|apply repr_SubBalance, He| |done]. apply world_ok_SubBalance; [done|apply He].
Qed.

Lemma buyDelegateeGas_ok b msg st d w r :
  msg_ok msg -> evm_ok b (st_evm st) w r -> b + 2 * sys < two64 -> gas st = 0 -> MsgGas msg < two64 ->
  wp False (buyDelegateeGas env cs msg st d) (fun x => exists w' r', evm_ok (b + 2 * sys) (st_evm (fst x)) w' (r' ++ r) /\
    match snd x with
    | Some er => unpaid w (gp st) (fst x) w'
    | None => initialGas (fst x) = MsgGas msg /\ gas (fst x) = MsgGas msg /\
        gp (fst x) = gp st - MsgGas msg /\ 0 <= gp (fst x)
    end).
Proof.
  intros Hm He Hb Hg Hg64. pose proof (mo_gas _ Hm). unfold buyDelegateeGas. eapply wp_bind.
  { eapply (wp_mono (Z.of_nat n <= 1000000)); [eapply GetStamina_ok; [done|lia]|lia|intros x Hx; exact Hx]. }
  intros [[e1 bal] er] (w1 & r1 & He1 & Hst). simpl in He1.
  assert (Hun : forall er, exists w' r', evm_ok (b + 2 * sys) (st_evm (fst (with_evm st e1, Some er))) w' (r' ++ r) /\
    unpaid w (gp st) (fst (with_evm st e1, er : coreError)) w').
  { intros er'. exists w1, r1. split; [|done]. eapply evm_ok_weaken; [done|lia]. }
  destruct er as [er|]; [by apply Hun|]. simpl. destruct (bal <? _); [by apply Hun|]. unfold GasPool.SubGas.
  destruct (Z.ltb_spec (gp st) (MsgGas msg)); [by apply Hun|]. rewrite Hg, u64_small by (unfold is_u64; lia). eapply wp_bind.
  { eapply (wp_mono (Z.of_nat n <= 1000000)); [eapply updateStamina_ok; [done|lia]|lia|intros x Hx; exact Hx]. }
  intros [e2 er] (w2 & r2 & He2). exists w2, (r2 ++ r1). rewrite <-app_assoc. simpl in *.
  replace (b + 2 * sys) with (b + sys + sys) by lia. split_and!; try done; lia.
Qed.

(** *** The transition *)

Lemma static_trans w1 w2 w3 (P : Prop) :
  (P -> static (keccak256 env) w1 w2) -> (P -> static (keccak256 env) w2 w3) -> P -> static (keccak256 env) w1 w3.
Proof. intros H1 H2 H. etrans; [by apply H1|by apply H2]. Qed.

(** A message that the EVM refuses after its gas was bought. *)
Definition bought_post (msg : Message) (p : Z) (v : vmError) st : Prop :=
  (v = ErrOutOfGas \/ v = ErrInsufficientBalance) /\ (gp st = p - MsgGas msg \/ From msg = Params.NullAddress /\ gp st = p).

Definition transition_post (msg : Message) (p : Z) w r (x : StateTransition S * txResult) : Prop :=
  exists w' r', repr (state (fst x)) w' (r' ++ r) /\ wok w' /\
    match tx_err (snd x) with
    | None => intrinsicGas msg <= 2 * tx_usedGas (snd x) /\ 0 <= tx_usedGas (snd x) <= MsgGas msg /\
        (gp (fst x) = p - tx_usedGas (snd x) \/ From msg = Params.NullAddress /\ gp (fst x) = p)
    | Some (VmError v) => unpaid w p (fst x) w' \/ bought_post msg p v (fst x)
    | Some _ => unpaid w p (fst x) w'
    end.

Lemma finish_ok b msg st w r rt vmerr p w0 r0 :
  msg_ok msg -> evm_ok b (st_evm st) w (r0 ++ r) -> initialGas st = MsgGas msg -> 0 <= gas st <= MsgGas msg ->
  MsgGas msg < two64 -> intrinsicGas msg <= 2 * (MsgGas msg - gas st) ->
  (gp st = p - (MsgGas msg - gas st) \/ From msg = Params.NullAddress /\ gp st = p) ->
  transition_post msg p w0 r (finish env msg st rt vmerr).
Proof.
  intros Hm He Hi Hg Hg64 Hin Hp. unfold finish, transition_post. simpl.
  assert (Hu : gasUsed st = MsgGas msg - gas st) by (rewrite gasUsed_small; lia).
  eexists _, r0. split; [apply repr_AddBalance, He|]. split.
  - apply world_ok_AddBalance; [|apply He]. pose proof (mo_price _ Hm). rewrite Hu. nia.
  - unfold gasUsed in *; simpl. rewrite Hu. split_and!; [lia..|done].
Qed.

Lemma unpaid_post msg p w r st w' r' b er :
  evm_ok b (st_evm st) w' (r' ++ r) -> unpaid w p st w' -> transition_post msg p w r (st, tx_error er).
Proof. intros He Hu. exists w', r'. split_and!; [apply He..|]. destruct er; simpl; try done. by left. Qed.

Lemma failed_post msg p w r st w' r' b v :
  evm_ok b (st_evm st) w' (r' ++ r) -> bought_post msg p v st -> transition_post msg p w r (st, tx_error (VmError v)).
Proof. intros He Hu. exists w', r'. split_and!; [apply He..|]. by right. Qed.

Lemma refused_post msg p w r st w' r' b er :
  evm_ok b (st_evm st) w' (r' ++ r) -> er = VmError ErrOutOfGas \/ er = VmError ErrInsufficientBalance ->
  gp st = p - MsgGas msg \/ From msg = Params.NullAddress /\ gp st = p -> transition_post msg p w r (st, tx_error er).
Proof. intros He [-> | ->] Hp; (eapply failed_post; [exact He|]); (split; [by (left + right)|done]). Qed.

Section Main.
Context (msg : Message) (p : Z) (Hm : msg_ok msg) (Hp : is_u64 p) (Hfuel : MsgGas msg < Z.of_nat n).
Context (b : Z) (Hb : b + 3 * sys + 1000 * MsgGas msg + 24000 < two64) (Hb0 : 0 <= b).

Lemma delegated_ok st w r d w0 r0 :
  evm_ok b (st_evm st) w (r0 ++ r) -> gas st = 0 -> gp st = p ->
  (IsByzantium (chainRules env) = true -> static (keccak256 env) w0 w) ->
  wp False
    (let! '(st, er) := preDelegateeCheck env cs msg st d in
     match er with
     | Some er => Done (st, tx_error er)
     | None =>
         let! '(st, res) := execute env cs msg st in
         match res with
         | inl er => Done (st, tx_error er)
         | inr (ret, vmerr) =>
             let! st := refundDelegateeGas env cs msg st d in
             Done (finish env msg st ret vmerr)
         end
     end) (transition_post msg p w0 r).
Proof.
  intros He Hg Hgp Hst. pose proof (mo_gas _ Hm).
  pose proof (intrinsic_min (Data msg) (bool_decide (To msg = None)) (IsHomestead (chainRules env)) (IsIstanbul (chainRules env))).
  unfold preDelegateeCheck, is_u64 in *.
  destruct (checkNonce msg st) as [er|]; [by eapply unpaid_post|].
  eapply wp_bind; [by apply (buyDelegateeGas_ok b _ _ _ w (r0 ++ r)); try lia|].
  intros [st1 er] (w1 & r1 & He1 & Hx). simpl in He1, Hx. rewrite app_assoc in He1. destruct er as [er|].
  { eapply unpaid_post; [done|]. destruct Hx as [Hx1 Hx2]. split; [congruence|]. by eapply static_trans. }
  destruct Hx as (Hi1 & Hg1 & Hp1 & Hp1').
  eapply wp_bind; [apply (execute_ok (b + 2 * sys) _ _ w1 ((r1 ++ r0) ++ r)); try done; lia|].
  intros [st2 res] (w2 & r2 & He2 & Hp2 & Hi2 & Hr2). simpl in *. rewrite app_assoc in He2. destruct res as [er|[rt vmerr]].
  { eapply refused_post; [done|done|]. left. congruence. }
  eapply wp_bind; [apply (refundDelegateeGas_ok (b + 2 * sys + 1000 * MsgGas msg + 24000) _ _ w2 ((r2 ++ r1 ++ r0) ++ r));
    try done; lia|].
  intros st3 [(Hi3 & Hp3 & Hg3 & Hg3') (w3 & r3 & He3)]. rewrite app_assoc in He3.
  eapply finish_ok; [done|exact He3|lia..|]. left. lia.
Qed.

(** What a sender that pays for itself pays: from the world [w] the whole gas
    is bought, the message is executed, the gas that is left is given back and
    the fee of the gas that was used goes to the coinbase. *)
Definition own_fees w r (x : StateTransition S * txResult) : Prop :=
  tx_err (snd x) = None -> From msg <> Params.NullAddress ->
  let used := tx_usedGas (snd x) in
  exists st1 st2 rt vmerr w2 r2,
    MsgGas msg * MsgGasPrice msg <= a_balance (W.get (keccak256 env) w (From msg)) /\
    repr (state st1) (W.SubBalance (keccak256 env) w (From msg) (MsgGas msg * MsgGasPrice msg)) r /\
    execute env cs msg st1 = Done (st2, inr (rt, vmerr)) /\ repr (state st2) w2 r2 /\
    repr (state (fst x)) (W.AddBalance (keccak256 env)
      (W.AddBalance (keccak256 env) w2 (From msg) ((MsgGas msg - used) * MsgGasPrice msg))
      (Coinbase (ctx env)) (used * MsgGasPrice msg)) r2.

Definition own_path st : outcome (StateTransition S * txResult) :=
  let '(st, er) := preCheck msg st in
  match er with
  | Some er => Done (st, tx_error er)
  | None =>
      let! '(st, res) := execute env cs msg st in
      match res with
      | inl er => Done (st, tx_error er)
      | inr (ret, vmerr) =>
          let! st := if negb (From msg =? Params.NullAddress) then refundGas msg st else Done st in
          Done (finish env msg st ret vmerr)
      end
  end.

Lemma own_null_ok st w r w0 r0 :
  evm_ok b (st_evm st) w (r0 ++ r) -> gas st = 0 -> gp st = p -> From msg = Params.NullAddress ->
  (IsByzantium (chainRules env) = true -> static (keccak256 env) w0 w) ->
  wp False (own_path st) (transition_post msg p w0 r).
Proof.
  intros He Hg Hgp Hz Hst. pose proof (mo_gas _ Hm).
  pose proof (intrinsic_min (Data msg) (bool_decide (To msg = None)) (IsHomestead (chainRules env)) (IsIstanbul (chainRules env))).
  unfold own_path, preCheck, is_u64 in *. destruct (checkNonce msg st) as [er|]; [by eapply unpaid_post|].
  unfold buyGas. rewrite Hz, Z.eqb_refl, Hg, u64_small by (unfold is_u64; lia).
  eapply wp_bind; [apply (execute_ok b _ _ w (r0 ++ r)); try done; simpl; lia|].
  intros [st2 res] (w2 & r2 & He2 & Hp2 & Hi2 & Hr2). simpl in *. rewrite app_assoc in He2. destruct res as [er|[rt vmerr]].
  - eapply refused_post; [done|done|]. right. split; [done|congruence].
  - eapply finish_ok; [done|exact He2|lia..|]. right. split; [done|congruence].
Qed.

Lemma own_paid_ok st w r w0 r0 :
  evm_ok b (st_evm st) w (r0 ++ r) -> gas st = 0 -> gp st = p -> From msg <> Params.NullAddress ->
  (IsByzantium (chainRules env) = true -> static (keccak256 env) w0 w) ->
  wp False (own_path st) (fun x => transition_post msg p w0 r x /\ own_fees w (r0 ++ r) x).
Proof.
  intros He Hg Hgp Hz Hst. pose proof (mo_gas _ Hm).
  pose proof (intrinsic_min (Data msg) (bool_decide (To msg = None)) (IsHomestead (chainRules env)) (IsIstanbul (chainRules env))).
  unfold own_path, preCheck, is_u64 in *. destruct (checkNonce msg st) as [er|]; [split; [by eapply unpaid_post|done]|].
  pose proof (buyGas_ok b msg st w (r0 ++ r) Hm He Hg ltac:(lia)) as Hbuy. destruct (buyGas msg st) as [st1 er].
  destruct er as [er|]; [destruct Hbuy as [-> _]; split; [by eapply unpaid_post|done]|].
  rewrite (proj2 (Z.eqb_neq _ _) Hz) in *. destruct Hbuy as (Hi1 & Hg1 & Hp1 & Hp1' & Hbal & He1).
  pose proof (execute_ok b msg st1 _ (r0 ++ r) Hm He1 Hg1 ltac:(lia) ltac:(lia) Hfuel) as Hx.
  destruct (execute env cs msg st1) as [[st2 res]| |] eqn:Hexec; [|done..].
  destruct Hx as (w2 & r2 & He2 & Hp2 & Hi2 & Hr2). simpl in *. destruct res as [er|[rt vmerr]].
  { split; [|done]. rewrite app_assoc in He2. eapply refused_post; [done|done|]. left. congruence. }
  eapply wp_bind; [apply (refundGas_ok (b + 1000 * MsgGas msg + 24000) _ _ w2 (r2 ++ r0 ++ r)); try done; lia|].
  intros st3 [(Hi3 & Hp3 & Hg3 & Hg3') He3]. split.
  - rewrite app_assoc in He3. eapply finish_ok; [done|exact He3|lia..|]. left. lia.
  - intros _ _. exists st1, st2, rt, vmerr, w2, (r2 ++ r0 ++ r). split_and!; try done; [apply He1|apply He2|].
    unfold finish; simpl. replace (MsgGas msg - gasUsed (with_state st3 _)) with (gas st3)
      by (unfold gasUsed; simpl; rewrite u64_small; unfold is_u64; lia).
    apply repr_AddBalance, He3.
Qed.
End Main.

(** The two reads with which the transition starts. *)
Lemma reads_ok b e w r a :
  evm_ok b e w r -> b + 2 * sys < two64 ->
  exists e1 d er1 e2 stamina er2 w2 r2,
    GetDelegatee env cs e a = Done (e1, d, er1) /\ GetStamina env cs e1 d = Done (e2, stamina, er2) /\
    evm_ok (b + 2 * sys) e2 w2 (r2 ++ r) /\ (IsByzantium (chainRules env) = true -> static (keccak256 env) w w2).
Proof.
  intros He Hb. pose proof (GetDelegatee_ok b e w r a He ltac:(lia)) as H1.
  destruct (GetDelegatee env cs e a) as [[[e1 d] er1]| |]; [|done|simpl in H1; lia].
  destruct H1 as [(w1 & r1 & He1 & Hs1) _]. simpl in He1.
  pose proof (GetStamina_ok (b + sys) e1 w1 (r1 ++ r) d He1 ltac:(lia)) as H2.
  destruct (GetStamina env cs e1 d) as [[[e2 x] er2]| |] eqn:E2; [|done|simpl in H2; lia].
  destruct H2 as (w2 & r2 & He2 & Hs2). simpl in He2. rewrite app_assoc in He2.
  replace (b + sys + sys) with (b + 2 * sys) in He2 by lia.
  eexists e1, d, er1, e2, x, er2, w2, (r2 ++ r1). split_and!; try done. by eapply static_trans.
Qed.

(** C5: applying a message returns without a panic of the EVM, the state or the
    gas pool.  The state it leaves is well formed.  If the message is
    accepted, it uses at most the gas it asked for and at least half of its
    intrinsic gas, and the pool has lost exactly the gas it used (nothing, if
    the null address pays for itself).  If it is refused before its gas is bought,
    for its nonce, its payer's funds, the pool or an error of the stamina contract,
    the pool is as before and, from Byzantium on, so is every account.  The only
    later refusals are too little gas for the intrinsic gas and too little balance
    for the value: the gas stays bought, and the pool has lost all of it (again
    nothing, if the null address pays for itself). *)
Theorem TransitionDb_safe msg e p w r :
  msg_ok msg -> evm_ok (w_refund w) e w r -> is_u64 p ->
  w_refund w + 1000 * MsgGas msg + 6000000000 < two64 -> MsgGas msg < Z.of_nat n ->
  exists st res w' r', TransitionDb env cs msg (NewStateTransition e p) = Done (st, res) /\
    repr (state st) w' (r' ++ r) /\ wok w' /\
    match tx_err res with
    | None => intrinsicGas msg <= 2 * tx_usedGas res /\ 0 <= tx_usedGas res <= MsgGas msg /\
        (gp st = p - tx_usedGas res \/ From msg = Params.NullAddress /\ gp st = p)
    | Some (VmError v) =>
        gp st = p /\ (IsByzantium (chainRules env) = true -> static (keccak256 env) w w') \/
        (v = ErrOutOfGas \/ v = ErrInsufficientBalance) /\ (gp st = p - MsgGas msg \/ From msg = Params.NullAddress /\ gp st = p)
    | Some _ => gp st = p /\ (IsByzantium (chainRules env) = true -> static (keccak256 env) w w')
    end.
Proof.
  intros Hm He Hp Hb Hf. pose proof (mo_gas _ Hm). pose proof (ev_refund _ _ _ _ He).
  destruct (reads_ok _ _ _ _ (From msg) He ltac:(lia)) as (e1 & d & er1 & e2 & x & er2 & w2 & r2 & E1 & E2 & He2 & Hst).
  assert (Hwp : wp False (TransitionDb env cs msg (NewStateTransition e p)) (transition_post msg p w r)).
  { unfold TransitionDb. simpl. rewrite E1. simpl. rewrite E2. simpl.
    destruct (_ <=? x).
    - apply (delegated_ok msg p Hm Hp Hf (w_refund w + 2 * sys) ltac:(lia) ltac:(lia) (mkST p 0 0 e2) w2 r d w r2); done.
    - destruct (decide (From msg = Params.NullAddress)) as [Hz|Hz].
      + apply (own_null_ok msg p Hm Hf (w_refund w + 2 * sys) ltac:(lia) ltac:(lia) (mkST p 0 0 e2) w2 r w r2); done.
      + eapply (wp_mono False); [apply (own_paid_ok msg p Hm Hp Hf (w_refund w + 2 * sys) ltac:(lia) ltac:(lia)
          (mkST p 0 0 e2) w2 r w r2); done|done|by intros ? []]. }
  destruct (wp_returns _ _ _ Hwp) as ([st res] & -> & w' & r' & ? & ? & Hpost); [by intros []|].
  exists st, res, w', r'. do 3 (split; [done|]). exact Hpost.
Qed.

End Proofs.

(** The intrinsic gas is the price of the message, or an error where that
    does not fit 64 bits: no sum or product on the way wraps around. *)
Theorem IntrinsicGas_spec data contractCreation isHomestead isEIP2028 :
  zlen data < two64 ->
  IntrinsicGas data contractCreation isHomestead isEIP2028 =
    let price := (if contractCreation && isHomestead then 53000 else 21000) +
      (if isEIP2028 then 16 else 68) * nonZero data + 4 * (zlen data - nonZero data) in
    if price <? two64 then Some price else None.
Proof. apply IntrinsicGas_exact. Qed.
