(* ===== verification/TransitionExample.v ===== *)
(** * core: transitions on a concrete state
    Messages applied to the reference state of VmExample.v: a call of a
    contract that writes a slot, paid for by its sender. *)

From S2P Require Import Prelude MathUtil VmBase VmEnv VmGas VmInstr VmTable VmInterp VmAnalysis.
From S2P Require Import World VmInv VmMemory VmStep VmTableOk VmSafe VmMain VmExample Transition.

Definition tx_world : World := W.AddBalance ex_keccak W0 7 1000000.
Definition tx_evm : EVM Ref.t := ex_evm tx_world.
Definition tx_msg : Message := mkMessage 7 (Some 20) 2 100000 5 1 true [].
Definition tx_fuel : nat := Z.to_nat 2000000.

Lemma tx_fuel_enough : 1000000 < Z.of_nat tx_fuel.
Proof. unfold tx_fuel. rewrite Z2Nat.id; lia. Qed.

Lemma tx_msg_ok : msg_ok tx_msg.
Proof. split; simpl; try lia; try done. intros a [= <-]. lia. Qed.

Lemma tx_evm_ok : evm_ok ex_env (w_refund tx_world) tx_evm tx_world [].
Proof.
  split; try done.
  - split_and!; try done. constructor.
  - apply world_ok_AddBalance; [lia|]. apply ex_world_ok. by repeat constructor.
Qed.

(** What the transition returns, for the witnesses. *)
Definition tx_done : option (StateTransition Ref.t * txResult) :=
  match TransitionDb ex_env (EVM_ tx_fuel) tx_msg (NewStateTransition tx_evm 1000000) with
  | Done x => Some x
  | _ => None
  end.

Definition summary (x : StateTransition Ref.t * txResult) :=
  (gp (fst x), tx_usedGas (snd x), tx_failed (snd x), tx_err (snd x),
   GetBalance (state (fst x)) 7, GetBalance (state (fst x)) 8, GetNonce (state (fst x)) 7, GetState (state (fst x)) 20 0).

Lemma tx_done_ok : match tx_done with Some (_, x) => tx_err x | None => Some ErrNonceTooLow end = None.
Proof. vm_compute. reflexivity. Qed.

Lemma TransitionDb_safe_witness :
  exists st res, TransitionDb ex_env (EVM_ tx_fuel) tx_msg (NewStateTransition tx_evm 1000000) = Done (st, res) /\
    tx_err res = None /\ gp st = 1000000 - tx_usedGas res.
Proof.
  destruct (TransitionDb_safe ex_env ex_env_ok tx_fuel tx_fuel_enough tx_msg tx_evm 1000000 tx_world [] tx_msg_ok tx_evm_ok)
    as (st & res & w' & r' & Ht & _ & _ & Hpost).
  - unfold is_u64. lia.
  - simpl. lia.
  - pose proof tx_fuel_enough. simpl. lia.
  - exists st, res. split; [done|].
    assert (Herr : tx_err res = None).
    { pose proof tx_done_ok as He. unfold tx_done in He. rewrite Ht in He. exact He. }
    split; [done|]. rewrite Herr in Hpost. by destruct Hpost as (_ & _ & [?|[? _]]).
Defined.




Lemma IntrinsicGas_spec_witness :
  IntrinsicGas [Byte.x00; Byte.x01] true true true = Some 53020.
Proof. rewrite (IntrinsicGas_spec [Byte.x00; Byte.x01] true true true); [reflexivity|]. simpl. lia. Defined.
