(* ===== verification/TrieBase.v ===== *)
(** * trie: keys, nodes and the node database
    encoding.go (the three encodings of keys), node.go (nodes and their RLP
    form) and the part of database.go that stores and finds nodes.  Cached
    metrics, reference counts and the flush list of the database only serve
    garbage collection and are left out; its read cache holds copies of what
    is on disk. *)

From S2P Require Import Prelude MathUtil Rlp RlpEncode RlpStream RlpDecode RlpRaw.
Import Raw.

#[export] Instance byte_countable : Countable byte.
Proof.
  refine (inj_countable Byte.to_N Byte.of_N _). intros b. apply Byte.of_to_N.
Defined.

(** ** Key encodings (encoding.go) *)

Definition term : byte := Byte.x10.

Definition hasTerm (s : bytes) : bool := match last s with Some b => bool_decide (b = term) | None => false end.

(** Two nibbles make a byte; both callers pass an even number of nibbles. *)
Fixpoint decodeNibbles (nibbles : bytes) : bytes :=
  match nibbles with
  | a :: b :: nibbles => byte_of_Z (Z.lor (Z.shiftl (Z_of_byte a) 4) (Z_of_byte b)) :: decodeNibbles nibbles
  | _ => []
  end.

Definition hexToCompact (hex : bytes) : bytes :=
  let '(terminator, hex) := if hasTerm hex then (1, removelast hex) else (0, hex) in
  let flag := Z.shiftl terminator 5 in
  if Nat.odd (length hex) then
    match hex with
    | h :: hex => byte_of_Z (Z.lor (Z.lor flag (Z.shiftl 1 4)) (Z_of_byte h)) :: decodeNibbles hex
    | [] => []
    end
  else byte_of_Z flag :: decodeNibbles hex.

Definition nibbles_of (b : byte) : bytes := [byte_of_Z (Z_of_byte b / 16); byte_of_Z (Z_of_byte b mod 16)].
Definition keybytesToHex (str : bytes) : bytes := concat (map nibbles_of str) ++ [term].

Definition compactToHex (compact : bytes) : bytes :=
  match compact with
  | [] => []
  | _ =>
      let base := keybytesToHex compact in
      let b0 := Z_of_byte (default Byte.x00 (head base)) in
      let base := if b0 <? 2 then removelast base else base in
      drop (Z.to_nat (2 - Z.land b0 1)) base
  end.

Definition hexToKeybytes (hex : bytes) : outcome bytes :=
  let hex := if hasTerm hex then removelast hex else hex in
  if Nat.odd (length hex) then Panic OddHexKey else Done (decodeNibbles hex).

Fixpoint prefixLen (a b : bytes) : nat :=
  match a, b with
  | x :: a, y :: b => if bool_decide (x = y) then S (prefixLen a b) else 0
  | _, _ => 0
  end.

(** ** Nodes (node.go) *)

Record nodeFlag := mkFlag { flag_hash : option bytes; flag_dirty : bool }.

(** [nilNode] is the nil interface; a full node has 17 children. *)
Inductive node :=
| nilNode
| fullNode (children : list node) (flags : nodeFlag)
| shortNode (key : bytes) (val : node) (flags : nodeFlag)
| hashNode (h : bytes)
| valueNode (v : bytes).

Definition is_nil (n : node) : bool := match n with nilNode => true | _ => false end.

Definition cache (n : node) : option bytes * bool :=
  match n with
  | fullNode _ f | shortNode _ _ f => (flag_hash f, flag_dirty f)
  | _ => (None, true)
  end.

(** What [rlp.Encode] sees of a node: the exported fields of a short node, and
    for a full node the list of its children with nil replaced by an empty string. *)
Fixpoint node_val (n : node) : Rlp.val :=
  match n with
  | nilNode => VNil
  | fullNode cs _ => VList (map (fun c => if is_nil c then VBytes [] else node_val c) cs)
  | shortNode k v _ => VList [VBytes k; node_val v]
  | hashNode b | valueNode b => VBytes b
  end.

Definition rlp_Encode (n : node) : outcome bytes :=
  match EncodeToBytes TIface (node_val n) with inr b => Done b | inl _ => Panic CannotEncode end.

(** *** Decoding *)

Inductive nodeError :=
| NodeUnexpectedEOF
| NodeDecode (e : derr)
| NodeElements (c : Z)
| OversizedEmbedded (size : Z)
| InvalidStringSize (size : Z).

Definition hashLen : Z := 32.

Section Decode.
(** [decodeNode], for the embedded nodes, which are shorter. *)
Variable decodeNode : option bytes -> bytes -> outcome (nodeError + node).

Definition decodeRef (buf : bytes) : outcome (nodeError + node * bytes) :=
  match Split buf with
  | inl e => Done (inl (NodeDecode e))
  | inr (Kind.List, v, rest) =>
      let size := zlen buf - zlen rest in
      if hashLen <? size then Done (inl (OversizedEmbedded size))
      else
        let! n := decodeNode None buf in
        match n with inl e => Done (inl e) | inr n => Done (inr (n, rest)) end
  | inr (kind, v, rest) =>
      if bool_decide (kind = Kind.String) && (zlen v =? 0) then Done (inr (nilNode, rest))
      else if bool_decide (kind = Kind.String) && (zlen v =? 32) then Done (inr (hashNode v, rest))
      else Done (inl (InvalidStringSize (zlen v)))
  end.

Definition decodeShort (hash : option bytes) (elems : bytes) : outcome (nodeError + node) :=
  match SplitString elems with
  | inl e => Done (inl (NodeDecode e))
  | inr (kbuf, rest) =>
      let flag := mkFlag hash false in
      let key := compactToHex kbuf in
      if hasTerm key then
        match SplitString rest with
        | inl e => Done (inl (NodeDecode e))
        | inr (v, _) => Done (inr (shortNode key (valueNode v) flag))
        end
      else
        let! r := decodeRef rest in
        match r with
        | inl e => Done (inl e)
        | inr (r, _) => Done (inr (shortNode key r flag))
        end
  end.

(** The loop over the sixteen references. *)
Fixpoint decodeRefs (i : nat) (elems : bytes) : outcome (nodeError + list node * bytes) :=
  match i with
  | O => Done (inr ([], elems))
  | S i =>
      let! r := decodeRef elems in
      match r with
      | inl e => Done (inl e)
      | inr (cld, rest) =>
          let! cs := decodeRefs i rest in
          match cs with
          | inl e => Done (inl e)
          | inr (cs, rest) => Done (inr (cld :: cs, rest))
          end
      end
  end.

Definition decodeFull (hash : option bytes) (elems : bytes) : outcome (nodeError + node) :=
  let! cs := decodeRefs 16 elems in
  match cs with
  | inl e => Done (inl e)
  | inr (cs, elems) =>
      match SplitString elems with
      | inl e => Done (inl (NodeDecode e))
      | inr (v, _) =>
          let last := if 0 <? zlen v then valueNode v else nilNode in
          Done (inr (fullNode (cs ++ [last]) (mkFlag hash false)))
      end
  end.
End Decode.

(** [CountValues] reports zero values along with its error. *)
Fixpoint decodeNode (fuel : nat) (hash : option bytes) (buf : bytes) : outcome (nodeError + node) :=
  match fuel with
  | O => OutOfFuel
  | S fuel =>
      if zlen buf =? 0 then Done (inl NodeUnexpectedEOF)
      else
        match SplitList buf with
        | inl e => Done (inl (NodeDecode e))
        | inr (elems, _) =>
            let! c := CountValues elems in
            let c := match c with inr c => c | inl _ => 0 end in
            if c =? 2 then decodeShort (decodeNode fuel) hash elems
            else if c =? 17 then decodeFull (decodeNode fuel) hash elems
            else Done (inl (NodeElements c))
        end
  end.

(** An embedded node is inside the buffer, which is thus deep enough. *)
Definition mustDecodeNode (hash : option bytes) (buf : bytes) : outcome node :=
  let! r := decodeNode (S (length buf)) hash buf in
  match r with inl _ => Panic MustDecode | inr n => Done n end.

(** ** The database (database.go) *)

(** A node without caches and flags, with its key in compact form, or a blob. *)
Inductive rawnode :=
| rawBlob (b : bytes)
| rawNil
| rawFullNode (children : list rawnode)
| rawShortNode (key : bytes) (val : rawnode)
| rawHash (h : bytes)
| rawValue (v : bytes).

Fixpoint simplifyNode (n : node) : rawnode :=
  match n with
  | nilNode => rawNil
  | shortNode k v _ => rawShortNode k (simplifyNode v)
  | fullNode cs _ => rawFullNode (map simplifyNode cs)
  | hashNode h => rawHash h
  | valueNode v => rawValue v
  end.

Fixpoint expandNode (hash : option bytes) (n : rawnode) : node :=
  match n with
  | rawNil | rawBlob _ => nilNode
  | rawShortNode k v => shortNode (compactToHex k) (expandNode None v) (mkFlag hash false)
  | rawFullNode cs => fullNode (map (expandNode None) cs) (mkFlag hash false)
  | rawHash h => hashNode h
  | rawValue v => valueNode v
  end.

(** [dirties]: nodes in memory, by hash; [diskdb]: encoded nodes on disk. *)
Record Database := mkDB { dirties : gmap bytes rawnode; diskdb : gmap bytes bytes }.

Definition db_insert (db : Database) (hash : bytes) (n : rawnode) : Database :=
  match dirties db !! hash with
  | Some _ => db
  | None => mkDB (<[hash := n]> (dirties db)) (diskdb db)
  end.

Definition InsertBlob (db : Database) (hash blob : bytes) : Database := db_insert db hash (rawBlob blob).

Definition obj (hash : bytes) (n : rawnode) : outcome node :=
  match n with
  | rawBlob b => mustDecodeNode (Some hash) b
  | _ => Done (expandNode (Some hash) n)
  end.

(** [None]: the node is neither in memory nor on disk. *)
Definition db_node (db : Database) (hash : bytes) : outcome (option node) :=
  match dirties db !! hash with
  | Some n => let! n := obj hash n in Done (Some n)
  | None =>
      match diskdb db !! hash with
      | Some enc => let! n := mustDecodeNode (Some hash) enc in Done (Some n)
      | None => Done None
      end
  end.
