(* ===== verification/Trie.v ===== *)
(** * trie: the Merkle Patricia trie (trie.go, hasher.go, secure_trie.go)
    Reading, updating, hashing and committing, on nodes that are partly in
    memory and partly in the database.  The recursions through the database
    are bounded by fuel, computed from the length of the key (a node that is
    found in the database is not itself a reference). *)

From S2P Require Import Prelude MathUtil Rlp RlpEncode RlpStream RlpDecode RlpRaw TrieBase.

Record MissingNodeError := mkMissing { NodeHash : bytes; Path : bytes }.

(** [common.BytesToHash] *)
Definition toHash (b : bytes) : bytes := be_bytes 32 (BytesToHash b).

Definition newFlag : nodeFlag := mkFlag None true.

(** The index of a nibble in the children of a full node. *)
Definition idx (b : byte) : nat := Z.to_nat (Z_of_byte b).

Section Ops.
Variable db : Database.

Definition resolveHash (n : bytes) (prefix : bytes) : outcome (MissingNodeError + node) :=
  let hash := toHash n in
  let! r := db_node db hash in
  match r with
  | Some nilNode | None => Done (inl (mkMissing hash prefix))
  | Some n => Done (inr n)
  end.

Definition resolve (n : node) (prefix : bytes) : outcome (MissingNodeError + node) :=
  match n with hashNode h => resolveHash h prefix | _ => Done (inr n) end.

(** Indexing the seventeen children; [Panic] beyond them. *)
Definition child (cs : list node) (b : byte) : outcome node := or_panic IndexOutOfRange (cs !! idx b).

(** *** Reading *)

(** The value ([None] is nil), the node to replace the old one with, whether
    anything was loaded, and the error. *)
Definition getResult : Type := option bytes * node * bool * option MissingNodeError.

Fixpoint tryGet (fuel : nat) (origNode : node) (key : bytes) (pos : nat) : outcome getResult :=
  match fuel with
  | O => OutOfFuel
  | S fuel =>
      match origNode with
      | nilNode => Done (None, nilNode, false, None)
      | valueNode v => Done (Some v, origNode, false, None)
      | shortNode k v fl =>
          if (length key - pos <? length k)%nat || negb (bool_decide (k = take (length k) (drop pos key)))
          then Done (None, origNode, false, None)
          else
            let! '(value, newnode, didResolve, err) := tryGet fuel v key (pos + length k) in
            let n := match err with
                     | None => if didResolve then shortNode k newnode fl else origNode
                     | Some _ => origNode
                     end in
            Done (value, n, didResolve, err)
      | fullNode cs fl =>
          let! k := or_panic IndexOutOfRange (key !! pos) in
          let! c := child cs k in
          let! '(value, newnode, didResolve, err) := tryGet fuel c key (pos + 1) in
          let n := match err with
                   | None => if didResolve then fullNode (<[idx k := newnode]> cs) fl else origNode
                   | Some _ => origNode
                   end in
          Done (value, n, didResolve, err)
      | hashNode h =>
          let! c := resolveHash h (take pos key) in
          match c with
          | inl e => Done (None, origNode, true, Some e)
          | inr c =>
              let! '(value, newnode, _, err) := tryGet fuel c key pos in
              Done (value, newnode, true, err)
          end
      end
  end.

(** *** Insertion *)

(** Whether anything changed, and the new node. *)
Definition updateResult : Type := MissingNodeError + bool * node.

Fixpoint insert (fuel : nat) (n : node) (prefix key : bytes) (value : node) : outcome updateResult :=
  match fuel with
  | O => OutOfFuel
  | S fuel =>
      match key with
      | [] =>
          match n with
          | valueNode v =>
              match value with
              | valueNode v' => Done (inr (negb (bool_decide (v = v')), value))
              | _ => Panic BadTypeAssertion
              end
          | _ => Done (inr (true, value))
          end
      | k0 :: ks =>
          match n with
          | shortNode nkey nval fl =>
              let matchlen := prefixLen key nkey in
              if (matchlen =? length nkey)%nat then
                let! r := insert fuel nval (prefix ++ take matchlen key) (drop matchlen key) value in
                match r with
                | inl e => Done (inl e)
                | inr (dirty, nn) =>
                    if negb dirty then Done (inr (false, n)) else Done (inr (true, shortNode nkey nn newFlag))
                end
              else
                let! a := or_panic IndexOutOfRange (nkey !! matchlen) in
                let! b := or_panic IndexOutOfRange (key !! matchlen) in
                let cs := replicate 17 nilNode in
                let! r := insert fuel nilNode (prefix ++ take (matchlen + 1) nkey) (drop (matchlen + 1) nkey) nval in
                match r with
                | inl e => Done (inl e)
                | inr (_, c1) =>
                    let! cs := or_panic IndexOutOfRange (if decide (idx a < 17)%nat then Some (<[idx a := c1]> cs) else None) in
                    let! r := insert fuel nilNode (prefix ++ take (matchlen + 1) key) (drop (matchlen + 1) key) value in
                    match r with
                    | inl e => Done (inl e)
                    | inr (_, c2) =>
                        let! cs := or_panic IndexOutOfRange (if decide (idx b < 17)%nat then Some (<[idx b := c2]> cs) else None) in
                        let branch := fullNode cs newFlag in
                        if (matchlen =? 0)%nat then Done (inr (true, branch))
                        else Done (inr (true, shortNode (take matchlen key) branch newFlag))
                    end
                end
          | fullNode cs fl =>
              let! c := child cs k0 in
              let! r := insert fuel c (prefix ++ [k0]) ks value in
              match r with
              | inl e => Done (inl e)
              | inr (dirty, nn) =>
                  if negb dirty then Done (inr (false, n)) else Done (inr (true, fullNode (<[idx k0 := nn]> cs) newFlag))
              end
          | nilNode => Done (inr (true, shortNode key value newFlag))
          | hashNode h =>
              let! r := resolveHash h prefix in
              match r with
              | inl e => Done (inl e)
              | inr rn =>
                  let! r := insert fuel rn prefix key value in
                  match r with
                  | inl e => Done (inl e)
                  | inr (dirty, nn) => if negb dirty then Done (inr (false, rn)) else Done (inr (true, nn))
                  end
              end
          | valueNode _ => Panic InvalidNode
          end
      end
  end.

(** *** Deletion *)

(** The position of the only child, -1 if there is none, -2 if there are more. *)
Fixpoint only_child (i : Z) (pos : Z) (cs : list node) : Z :=
  match cs with
  | [] => pos
  | c :: cs =>
      if is_nil c then only_child (i + 1) pos cs
      else if pos =? -1 then only_child (i + 1) i cs else -2
  end.

(** A full node with children [cs], as a short node if it has only one. *)
Definition reduce (prefix : bytes) (cs : list node) : outcome updateResult :=
  let pos := only_child 0 (-1) cs in
  if 0 <=? pos then
    let! cld := or_panic IndexOutOfRange (cs !! Z.to_nat pos) in
    let one := shortNode [byte_of_Z pos] cld newFlag in
    if negb (pos =? 16) then
      let! r := resolve cld prefix in
      match r with
      | inl e => Done (inl e)
      | inr (shortNode ckey cval _) => Done (inr (true, shortNode (byte_of_Z pos :: ckey) cval newFlag))
      | inr _ => Done (inr (true, one))
      end
    else Done (inr (true, one))
  else Done (inr (true, fullNode cs newFlag)).

Fixpoint delete (fuel : nat) (n : node) (prefix key : bytes) : outcome updateResult :=
  match fuel with
  | O => OutOfFuel
  | S fuel =>
      match n with
      | shortNode nkey nval fl =>
          let matchlen := prefixLen key nkey in
          if (matchlen <? length nkey)%nat then Done (inr (false, n))
          else if (matchlen =? length key)%nat then Done (inr (true, nilNode))
          else
            let! r := delete fuel nval (prefix ++ take (length nkey) key) (drop (length nkey) key) in
            match r with
            | inl e => Done (inl e)
            | inr (dirty, child) =>
                if negb dirty then Done (inr (false, n))
                else
                  match child with
                  | shortNode ckey cval _ => Done (inr (true, shortNode (nkey ++ ckey) cval newFlag))
                  | _ => Done (inr (true, shortNode nkey child newFlag))
                  end
            end
      | fullNode cs fl =>
          match key with
          | [] => Panic IndexOutOfRange
          | k0 :: ks =>
              let! c := child cs k0 in
              let! r := delete fuel c (prefix ++ [k0]) ks in
              match r with
              | inl e => Done (inl e)
              | inr (dirty, nn) =>
                  if negb dirty then Done (inr (false, n))
                  else reduce prefix (<[idx k0 := nn]> cs)
              end
          end
      | valueNode _ => Done (inr (true, nilNode))
      | nilNode => Done (inr (false, nilNode))
      | hashNode h =>
          let! r := resolveHash h prefix in
          match r with
          | inl e => Done (inl e)
          | inr rn =>
              let! r := delete fuel rn prefix key in
              match r with
              | inl e => Done (inl e)
              | inr (dirty, nn) => if negb dirty then Done (inr (false, rn)) else Done (inr (true, nn))
              end
          end
      end
  end.

(** Each nibble costs at most a reference and a node. *)
Definition key_fuel (key : bytes) : nat := 2 * length key + 2.

Definition TryGet (root : node) (key : bytes) : outcome (node * option bytes * option MissingNodeError) :=
  let key := keybytesToHex key in
  let! '(value, newroot, didResolve, err) := tryGet (key_fuel key) root key 0 in
  let root := match err with None => if didResolve then newroot else root | Some _ => root end in
  Done (root, value, err).

Definition TryDelete (root : node) (key : bytes) : outcome (node * option MissingNodeError) :=
  let k := keybytesToHex key in
  let! r := delete (key_fuel k) root [] k in
  match r with
  | inl e => Done (root, Some e)
  | inr (_, n) => Done (n, None)
  end.

Definition TryUpdate (root : node) (key value : bytes) : outcome (node * option MissingNodeError) :=
  let k := keybytesToHex key in
  if negb (zlen value =? 0) then
    let! r := insert (key_fuel k) root [] k (valueNode value) in
    match r with
    | inl e => Done (root, Some e)
    | inr (_, n) => Done (n, None)
    end
  else
    let! r := delete (key_fuel k) root [] k in
    match r with
    | inl e => Done (root, Some e)
    | inr (_, n) => Done (n, None)
    end.
End Ops.

(** ** Hashing and committing (hasher.go) *)

Definition emptyRoot : bytes := be_bytes 32 0x56e81f171bcc55a6ff8345e692c0f86e5b48e01b996cadc001622fb5e363b421.

Section Hasher.
(** [makeHashNode]: Keccak-256. *)
Variable keccak : bytes -> bytes.
(** Whether nodes are written to the database (its pointer is not nil). *)
Variable commit : bool.

(** Calling the callback for leaves is left out: it registers references. *)
Definition store (n : node) (db : Database) (force : bool) : outcome (node * Database) :=
  match n with
  | hashNode _ | nilNode => Done (n, db)
  | _ =>
      let! tmp := rlp_Encode n in
      if (zlen tmp <? 32) && negb force then Done (n, db)
      else
        let hash := match fst (cache n) with Some h => h | None => keccak tmp end in
        Done (hashNode hash, if commit then db_insert db (toHash hash) (simplifyNode n) else db)
  end.

(** Caching the hash; in commit mode the node is clean afterwards. *)
Definition with_hash (cached hashed : node) : node :=
  let cachedHash := match hashed with hashNode h => Some h | _ => None end in
  let flag (f : nodeFlag) := mkFlag cachedHash (if commit then false else flag_dirty f) in
  match cached with
  | shortNode k v f => shortNode k v (flag f)
  | fullNode cs f => fullNode cs (flag f)
  | _ => cached
  end.

(** The loop over the children of a full node; it leaves the last one, the
    value, alone. *)
Fixpoint hash_children (hash : node -> bool -> Database -> outcome (node * node * Database)) (i : nat) (cs : list node)
    (db : Database) : outcome (list node * list node * Database) :=
  match cs with
  | [] => Done ([], [], db)
  | c :: cs =>
      let! '(h, c', db) := if (i <? 16)%nat && negb (is_nil c) then hash c false db else Done (c, c, db) in
      let! '(hs, cs', db) := hash_children hash (S i) cs db in
      Done (h :: hs, c' :: cs', db)
  end.

(** The node to refer to, the node to keep, and the database. *)
Fixpoint hash (n : node) (force : bool) (db : Database) : outcome (node * node * Database) :=
  let walk :=
    let! '(collapsed, cached, db) :=
      match n with
      | shortNode k v f =>
          match v with
          | valueNode _ => Done (shortNode (hexToCompact k) v f, n, db)
          | _ =>
              let! '(h, c, db) := hash v false db in
              Done (shortNode (hexToCompact k) h f, shortNode k c f, db)
          end
      | fullNode cs f =>
          let! '(hs, cs', db) := hash_children hash O cs db in
          Done (fullNode hs f, fullNode cs' f, db)
      | _ => Done (n, n, db)
      end in
    let! '(hashed, db) := store collapsed db force in
    Done (hashed, with_hash cached hashed, db) in
  match cache n with
  | (Some h, dirty) =>
      if negb commit then Done (hashNode h, n, db)
      else if negb dirty then Done (hashNode h, hashNode h, db)
      else walk
  | (None, _) => walk
  end.

Definition hashRoot (root : node) (db : Database) : outcome (node * node * Database) :=
  match root with
  | nilNode => Done (hashNode emptyRoot, nilNode, db)
  | _ => hash root true db
  end.

(** [Hash] and [Commit]: the root hash, the new root and the database. *)
Definition root_hash (root : node) (db : Database) : outcome (bytes * node * Database) :=
  let! '(h, cached, db) := hashRoot root db in
  match h with
  | hashNode h => Done (toHash h, cached, db)
  | _ => Panic BadTypeAssertion
  end.
End Hasher.

Definition Hash (keccak : bytes -> bytes) (root : node) : outcome (bytes * node) :=
  let! '(h, root, _) := root_hash keccak false root (mkDB ∅ ∅) in Done (h, root).

Definition Commit (keccak : bytes -> bytes) (root : node) (db : Database) : outcome (bytes * node * Database) :=
  root_hash keccak true root db.

Definition New (root : bytes) (db : Database) : outcome (MissingNodeError + node) :=
  if negb (bool_decide (root = replicate 32 Byte.x00)) && negb (bool_decide (root = emptyRoot))
  then resolveHash db root []
  else Done (inr nilNode).
