(* ===== verification/TrieSpec.v ===== *)
(** * trie: what a trie stands for
    A [tree] is a trie that is wholly in memory, without caches; [get] reads
    it.  A trie in minimal form ([wf]: no empty or nested short nodes, at
    least two children in a full node) is determined by its content: [wf_unique]. *)

From S2P Require Import Prelude MathUtil Rlp RlpEncode RlpStream RlpDecode RlpRaw TrieBase Trie.

Inductive tree :=
| TNil
| TVal (v : bytes)
| TShort (key : bytes) (t : tree)
| TFull (cs : list tree).

(** What remains of [k] behind the prefix [p]. *)
Fixpoint strip (p k : bytes) : option bytes :=
  match p, k with
  | [], _ => Some k
  | x :: p, y :: k => if bool_decide (x = y) then strip p k else None
  | _ :: _, [] => None
  end.

Fixpoint get (t : tree) (k : bytes) : option bytes :=
  match t with
  | TNil => None
  | TVal v => match k with [] => Some v | _ => None end
  | TShort key t => match strip key k with Some k => get t k | None => None end
  | TFull cs =>
      match k with
      | [] => None
      | x :: k => match map get cs !! idx x with Some f => f k | None => None end
      end
  end.

(** Nibbles, with the terminator at the end only. *)
Definition nibs (k : bytes) : Prop :=
  forall i b, k !! i = Some b -> (idx b < 16)%nat \/ b = term /\ Datatypes.S i = length k.

(** The keys below a node: empty behind the terminator ([fin]), otherwise
    nibbles up to the terminator. *)
Definition okkey (fin : bool) (k : bytes) : Prop :=
  if fin then k = [] else nibs k /\ hasTerm k = true.

Definition is_short (t : tree) : bool := match t with TShort _ _ => true | _ => false end.
Definition is_full (t : tree) : bool := match t with TFull _ => true | _ => false end.

Definition two_children (cs : list tree) : Prop :=
  exists i j a b, i <> j /\ cs !! i = Some a /\ cs !! j = Some b /\ a <> TNil /\ b <> TNil.

#[export] Instance is_TNil_dec t : Decision (t = TNil).
Proof. destruct t; by (left; reflexivity) || by right. Defined.

Inductive wf : bool -> tree -> Prop :=
| wf_nil fin : wf fin TNil
| wf_val v : v <> [] -> wf true (TVal v)
| wf_short key t :
    key <> [] -> nibs key -> wf (hasTerm key) t -> t <> TNil -> is_short t = false -> wf false (TShort key t)
| wf_full cs :
    length cs = 17%nat -> (forall i c, cs !! i = Some c -> wf (bool_decide (i = 16%nat)) c) -> two_children cs ->
    wf false (TFull cs).

(** ** Keys *)

Lemma idx_inj a b : idx a = idx b -> a = b.
Proof.
  unfold idx. pose proof (Z_of_byte_range a). pose proof (Z_of_byte_range b). intros H'.
  apply Z_of_byte_inj. lia.
Qed.

Lemma idx_term : idx term = 16%nat.
Proof. reflexivity. Qed.

Lemma idx_byte_of_Z i : (i < 256)%nat -> idx (byte_of_Z (Z.of_nat i)) = i.
Proof. intros Hi. unfold idx. rewrite Z_of_byte_of_Z, Z.mod_small by lia. lia. Qed.

Lemma hasTerm_cons x y k : hasTerm (x :: y :: k) = hasTerm (y :: k).
Proof. done. Qed.

Lemma hasTerm_app k k' : k' <> [] -> hasTerm (k ++ k') = hasTerm k'.
Proof.
  intros Hk. unfold hasTerm. destruct (exists_last Hk) as (l & x & ->). rewrite app_assoc, !last_snoc. done.
Qed.

Lemma nibs_cons x k : nibs (x :: k) <-> ((idx x < 16)%nat \/ x = term /\ k = []) /\ nibs k.
Proof.
  split.
  - intros H. split.
    + destruct (H 0%nat x eq_refl) as [?|[-> Hl]]; [by left|]. right. split; [done|]. simpl in Hl. destruct k; [done|simpl in Hl; lia].
    + intros i b Hi. destruct (H (Datatypes.S i) b Hi) as [?|[-> Hl]]; [by left|]. right. simpl in Hl. split; [done|lia].
  - intros [Hx Hk] [|i] b Hi; simplify_eq/=.
    + destruct Hx as [?|[-> ->]]; [by left|by right].
    + destruct (Hk i b Hi) as [?|[-> Hl]]; [by left|]. right. split; [done|lia].
Qed.

Lemma nibs_nil : nibs [].
Proof. intros i b. by rewrite lookup_nil. Qed.

Lemma nibs_app k k' : nibs (k ++ k') <-> nibs k' /\ (k' <> [] -> hasTerm k = false) /\ nibs k.
Proof.
  induction k as [|x k IH]; simpl.
  - split; [|tauto]. intros H. split_and!; [done..|apply nibs_nil].
  - rewrite !nibs_cons, IH. destruct k as [|y k].
    + simpl. unfold hasTerm. simpl. rewrite bool_decide_eq_false. split.
      * intros [Hx [Hk' _]]. split; [done|]. split.
        -- intros Hne ->. destruct Hx as [Hx|[_ Hx]]; [rewrite idx_term in Hx; lia|done].
        -- split; [|apply nibs_nil]. destruct Hx as [Hx|[-> _]]; [by left|by right].
      * intros (Hk' & Ht & Hx & _). split; [|split_and!; [done|done|apply nibs_nil]].
        destruct Hx as [Hx|[-> _]]; [by left|]. right. split; [done|]. destruct k'; [done|]. exfalso. by apply Ht.
    + rewrite hasTerm_cons. assert (y :: k <> []) by done. assert ((y :: k) ++ k' <> []) by done. tauto.
Qed.

Lemma strip_Some p k k' : strip p k = Some k' <-> k = p ++ k'.
Proof.
  revert k. induction p as [|x p IH]; intros k; simpl; [split; congruence|].
  destruct k as [|y k]; [done|]. case_bool_decide as Hxy; [rewrite IH; naive_solver|]. naive_solver.
Qed.

Lemma strip_app p k : strip p (p ++ k) = Some k.
Proof. by apply strip_Some. Qed.

Lemma okkey_cons x k : okkey false (x :: k) <-> (idx x < 17)%nat /\ okkey (bool_decide (idx x = 16%nat)) k.
Proof.
  unfold okkey. rewrite nibs_cons. destruct (decide (idx x = 16%nat)) as [Hx|Hx].
  - rewrite bool_decide_eq_true_2 by done. apply (idx_inj x term) in Hx as ->. rewrite idx_term. split.
    + intros [[[?|[_ ->]] _] _]; [lia|]. split; [lia|done].
    + intros [_ ->]. split; [|done]. split; [by right|apply nibs_nil].
  - rewrite bool_decide_eq_false_2 by done. destruct k as [|y k].
    + unfold hasTerm; simpl. rewrite bool_decide_eq_true. split; [|intros [_ [_ ?]]; done].
      intros [_ ->]. by rewrite idx_term in Hx.
    + rewrite hasTerm_cons. split; [|intros [? [? ?]]; split; [split; [left; lia|done]|done]].
      intros [[[?|[-> _]] ?] ?]; [split; [lia|done]|]. by rewrite idx_term in Hx.
Qed.

Lemma okkey_nil : ~ okkey false [].
Proof. by intros [_ ?]. Qed.

Lemma okkey_app p k : p <> [] -> nibs p -> okkey false (p ++ k) <-> okkey (hasTerm p) k.
Proof.
  intros Hp Hn. unfold okkey. destruct (decide (k = [])) as [->|Hk].
  - rewrite app_nil_r. destruct (hasTerm p); [by split|]. split; [by intros [_ ?]|by intros [_ ?]].
  - rewrite nibs_app, hasTerm_app by done. destruct (hasTerm p); [split; [intros [[_ [H _]] _]; by apply H in Hk|done]|tauto].
Qed.

Lemma okkey_nibs fin k : okkey fin k -> nibs k.
Proof. destruct fin; simpl; [intros ->; apply nibs_nil|by intros []]. Qed.

Lemma nibbles_of_idx b x : x ∈ nibbles_of b -> (idx x < 16)%nat.
Proof.
  pose proof (Z_of_byte_range b). pose proof (Z.div_lt_upper_bound (Z_of_byte b) 16 16). pose proof (Z.div_pos (Z_of_byte b) 16).
  pose proof (Z.mod_pos_bound (Z_of_byte b) 16). unfold idx.
  intros [->|[->|[]%elem_of_nil]%elem_of_cons]%elem_of_cons; rewrite Z_of_byte_of_Z, Z.mod_small by lia; lia.
Qed.

Lemma keybytesToHex_ok k : okkey false (keybytesToHex k).
Proof.
  unfold keybytesToHex. split; [|by rewrite hasTerm_app].
  apply nibs_app. split_and!.
  - apply nibs_cons. split; [by right|apply nibs_nil].
  - intros _. induction k as [|b k IH]; [done|]. simpl. rewrite hasTerm_cons. destruct (concat _) as [|y l] eqn:E.
    + unfold hasTerm; simpl. apply bool_decide_eq_false. intros Ht.
      assert (Hi : (idx (byte_of_Z (Z_of_byte b mod 16)) < 16)%nat) by (apply (nibbles_of_idx b); unfold nibbles_of; set_solver).
      rewrite Ht, idx_term in Hi. lia.
    + rewrite hasTerm_cons. done.
  - intros i x Hx. left. apply list_elem_of_lookup_2 in Hx. apply list_elem_of_In, in_concat in Hx as (l & Hl & Hx).
    apply in_map_iff in Hl as (b & <- & _). apply (nibbles_of_idx b). by apply list_elem_of_In.
Qed.

Lemma keybytesToHex_inj k k' : keybytesToHex k = keybytesToHex k' -> k = k'.
Proof.
  unfold keybytesToHex. intros H%app_inj_tail. destruct H as [H _]. revert k' H.
  induction k as [|b k IH]; intros [|b' k'] H; try done. injection H as H1 H2 H. f_equal; [|by apply IH].
  apply (f_equal Z_of_byte) in H1, H2. rewrite !Z_of_byte_of_Z in H1, H2.
  pose proof (Z_of_byte_range b). pose proof (Z_of_byte_range b'). apply Z_of_byte_inj.
  rewrite (Z.div_mod (Z_of_byte b) 16), (Z.div_mod (Z_of_byte b') 16) by lia.
  pose proof (Z.div_lt_upper_bound (Z_of_byte b) 16 16). pose proof (Z.div_lt_upper_bound (Z_of_byte b') 16 16).
  pose proof (Z.div_pos (Z_of_byte b) 16). pose proof (Z.div_pos (Z_of_byte b') 16).
  pose proof (Z.mod_pos_bound (Z_of_byte b) 16). pose proof (Z.mod_pos_bound (Z_of_byte b') 16).
  rewrite !(Z.mod_small (_ / 16)) in H1 by lia. rewrite !(Z.mod_small (_ mod 16) 256) in H2 by lia. lia.
Qed.

(** ** Content *)

Lemma get_short p t k : get (TShort p t) (p ++ k) = get t k.
Proof. simpl. by rewrite strip_app. Qed.

Lemma get_full cs x k : get (TFull cs) (x :: k) = match cs !! idx x with Some c => get c k | None => None end.
Proof. simpl. rewrite list_lookup_fmap. by destruct (cs !! idx x). Qed.

Lemma get_short_inv p t k v : get (TShort p t) k = Some v -> exists k', k = p ++ k' /\ get t k' = Some v.
Proof. simpl. destruct (strip p k) as [k'|] eqn:E; [|done]. apply strip_Some in E. eauto. Qed.

Lemma wf_full_child cs x c :
  wf false (TFull cs) -> cs !! idx x = Some c -> wf (bool_decide (idx x = 16%nat)) c.
Proof. inversion 1; auto. Qed.

Lemma wf_full_lookup (cs : list tree) x : length cs = 17%nat -> (idx x < 17)%nat -> exists c, cs !! idx x = Some c.
Proof. intros Hl Hx. apply lookup_lt_is_Some_2. lia. Qed.

(** The child at index [i], as seen from above. *)
Lemma get_child cs i c k v :
  length cs = 17%nat -> cs !! i = Some c -> okkey (bool_decide (i = 16%nat)) k -> get c k = Some v ->
  exists x, idx x = i /\ okkey false (x :: k) /\ get (TFull cs) (x :: k) = Some v.
Proof.
  intros Hl Hc Hk Hv. pose proof (lookup_lt_Some _ _ _ Hc). exists (byte_of_Z (Z.of_nat i)).
  assert (Hi : idx (byte_of_Z (Z.of_nat i)) = i) by (apply idx_byte_of_Z; lia).
  split; [done|]. split; [apply okkey_cons; rewrite Hi; split; [lia|done]|]. by rewrite get_full, Hi, Hc.
Qed.

Lemma wf_nonempty fin t : wf fin t -> t <> TNil -> exists k v, okkey fin k /\ get t k = Some v.
Proof.
  induction 1 as [|v Hv|key t Hk Hn Hw IH Ht Hs|cs Hl Hc IH (i & j & a & b & Hij & Ha & Hb & Hna & Hnb)]; intros Hne.
  - done.
  - by exists [], v.
  - destruct (IH Ht) as (k & v & Hok & Hv). exists (key ++ k), v. rewrite get_short, okkey_app by done. done.
  - destruct (IH i a Ha Hna) as (k & v & Hok & Hv). destruct (get_child cs i a k v Hl Ha Hok Hv) as (x & _ & ? & ?). eauto.
Qed.

Lemma wf_full_two cs :
  wf false (TFull cs) ->
  exists x y k k' v v', x <> y /\ okkey false (x :: k) /\ okkey false (y :: k') /\
    get (TFull cs) (x :: k) = Some v /\ get (TFull cs) (y :: k') = Some v'.
Proof.
  inversion 1 as [| | |? Hl Hc (i & j & a & b & Hij & Ha & Hb & Hna & Hnb)]; subst.
  destruct (wf_nonempty _ _ (Hc i a Ha) Hna) as (k & v & Hok & Hv).
  destruct (wf_nonempty _ _ (Hc j b Hb) Hnb) as (k' & v' & Hok' & Hv').
  destruct (get_child cs i a k v Hl Ha Hok Hv) as (x & Hx & ? & ?).
  destruct (get_child cs j b k' v' Hl Hb Hok' Hv') as (y & Hy & ? & ?).
  exists x, y, k, k', v, v'. split_and!; try done. intros ->. congruence.
Qed.

(** Below a full node there is no nibble that all keys share. *)
Lemma full_not_prefixed cs p :
  p <> [] -> wf false (TFull cs) -> ~ (forall k v, okkey false k -> get (TFull cs) k = Some v -> exists k', k = p ++ k').
Proof.
  intros Hp Hw Hall. destruct (wf_full_two cs Hw) as (x & y & k & k' & v & v' & Hxy & Hk & Hk' & Hv & Hv').
  destruct (Hall _ _ Hk Hv) as [z Hz]. destruct (Hall _ _ Hk' Hv') as [z' Hz']. destruct p; [done|]. simplify_eq/=.
Qed.

(** A short node whose child is not a value leads to a full node. *)
Lemma wf_short_child key t : wf false (TShort key t) -> hasTerm key = false -> exists cs, t = TFull cs /\ wf false (TFull cs).
Proof.
  inversion 1 as [| |? ? Hk Hn Hw Ht Hs|]; subst. intros E. rewrite E in Hw.
  inversion Hw; subst; try done. eauto.
Qed.

(** If all keys of a short node go through the prefix [p], so does its key. *)
Lemma short_prefixed key t p :
  wf false (TShort key t) ->
  (forall k v, okkey false k -> get (TShort key t) k = Some v -> exists k', k = p ++ k') -> exists key', key = p ++ key'.
Proof.
  intros Hw Hall. inversion Hw as [| |? ? Hk Hn Hwt Ht Hs|]; subst.
  destruct (wf_nonempty _ _ Hwt Ht) as (k & v & Hok & Hv).
  destruct (Hall (key ++ k) v) as [k' Hk']; [by apply okkey_app|by rewrite get_short|].
  apply app_eq_inv in Hk' as [(l & -> & ->)|(l & -> & ->)]; [by exists l|].
  destruct l as [|x l]; [exists []; by rewrite !app_nil_r|]. exfalso.
  assert (Hterm : hasTerm key = false).
  { destruct (hasTerm key); [discriminate Hok|done]. }
  destruct (wf_short_child _ _ Hw Hterm) as (cs & -> & Hcs). apply (full_not_prefixed cs (x :: l)); [done|done|].
  intros k0 v0 Hk0 Hv0. destruct (Hall (key ++ k0) v0) as [k1 Hk1]; [apply okkey_app; [done..|by rewrite Hterm]|by rewrite get_short|].
  rewrite <-app_assoc in Hk1. apply app_inv_head in Hk1 as ->. by exists k1.
Qed.

Lemma short_covers key t k v : get (TShort key t) k = Some v -> exists k', k = key ++ k'.
Proof. intros (k' & -> & _)%get_short_inv. eauto. Qed.

Lemma wf_unique fin t1 : wf fin t1 -> forall t2, wf fin t2 -> (forall k, okkey fin k -> get t1 k = get t2 k) -> t1 = t2.
Proof.
  induction 1 as [fin|v Hv|key t Hk Hn Hw IH Ht Hs|cs Hl Hc IH H2]; intros t2 Hw2 Heq.
  - destruct (decide (t2 = TNil)) as [->|Hne]; [done|].
    destruct (wf_nonempty _ _ Hw2 Hne) as (k & v & Hok & Hv). specialize (Heq k Hok). simpl in Heq. congruence.
  - specialize (Heq [] eq_refl). inversion Hw2; subst; simpl in Heq; congruence.
  - assert (Hw1 : wf false (TShort key t)) by by constructor. inversion Hw2 as [| |key2 t2' Hk2 Hn2 Hwt2 Ht2 Hs2|cs2 Hl2 Hc2 H22]; subst.
    + destruct (wf_nonempty _ _ Hw1) as (k & v & Hok & Hv); [done|]. rewrite Heq in Hv by done. done.
    + destruct (short_prefixed key t key2 Hw1) as [a Ha].
      { intros k v Hok Hv. rewrite Heq in Hv by done. by eapply short_covers. }
      destruct (short_prefixed key2 t2' key Hw2) as [b Hb].
      { intros k v Hok Hv. rewrite <-Heq in Hv by done. by eapply short_covers. }
      assert (key2 = key) as ->.
      { rewrite Ha in Hb. rewrite <-app_assoc in Hb. rewrite <-(app_nil_r key2) in Hb at 1. apply app_inv_head in Hb.
        symmetry in Hb. apply app_eq_nil in Hb as [-> _]. by rewrite app_nil_r in Ha. }
      f_equal. apply IH; [done|]. intros k Hok. specialize (Heq (key ++ k)). rewrite !get_short in Heq.
      apply Heq. by apply okkey_app.
    + exfalso. apply (full_not_prefixed cs2 key Hk Hw2). intros k v Hok Hv. rewrite <-Heq in Hv by done. by eapply short_covers.
  - assert (Hw1 : wf false (TFull cs)) by by constructor. inversion Hw2 as [| |key2 t2' Hk2 Hn2 Hwt2 Ht2 Hs2|cs2 Hl2 Hc2 H22]; subst.
    + destruct (wf_nonempty _ _ Hw1) as (k & v & Hok & Hv); [done|]. rewrite Heq in Hv by done. done.
    + exfalso. apply (full_not_prefixed cs key2 Hk2 Hw1). intros k v Hok Hv. rewrite Heq in Hv by done. by eapply short_covers.
    + f_equal. apply (list_eq_same_length _ _ 17); [done..|]. intros i a b Hi Ha Hb. apply (IH i a Ha b (Hc2 i b Hb)).
      intros k Hok. specialize (Heq (byte_of_Z (Z.of_nat i) :: k)).
      rewrite !get_full, idx_byte_of_Z, Ha, Hb in Heq by lia. apply Heq. apply okkey_cons. by rewrite idx_byte_of_Z by lia.
Qed.
