(* ===== verification/TrieOps.v ===== *)
(** * trie: reading and updating are correct
    [rep db n t]: the node [n], whose missing parts are in the database [db],
    stands for the tree [t].  Reading returns the content, insertion and
    deletion change it at one key, and the minimal form is kept; none of them
    fails or panics while the database has the nodes. *)

From S2P Require Import Prelude MathUtil Rlp RlpEncode RlpStream RlpDecode RlpRaw TrieBase Trie TrieSpec.

(** A node as it is found in the database. *)
Definition is_stored (n : node) : bool := match n with shortNode _ _ _ | fullNode _ _ => true | _ => false end.
Definition is_hash (n : node) : bool := match n with hashNode _ => true | _ => false end.

Section Rep.
Variable db : Database.
(** What is asked of the flags of a node and of a reference that stand for a
    given tree, at the root or below it; nothing, for the content.  TrieHash.v
    asks that hashes are right. *)
Variables (P : bool -> nodeFlag -> tree -> Prop) (Q : bool -> bytes -> tree -> Prop).

Inductive rep : bool -> node -> tree -> Prop :=
| rep_nil r : rep r nilNode TNil
| rep_val r v : rep r (valueNode v) (TVal v)
| rep_short r k n t f : rep false n t -> P r f (TShort k t) -> rep r (shortNode k n f) (TShort k t)
| rep_full r ns ts f :
    length ns = length ts -> (forall i n t, ns !! i = Some n -> ts !! i = Some t -> rep false n t) ->
    P r f (TFull ts) -> rep r (fullNode ns f) (TFull ts)
| rep_hash r h n t :
    db_node db (toHash h) = Done (Some n) -> is_stored n = true -> rep r n t -> Q r h t -> rep r (hashNode h) t.

(** The children of a full node. *)
Definition reps (ns : list node) (ts : list tree) : Prop :=
  length ns = length ts /\ forall i n t, ns !! i = Some n -> ts !! i = Some t -> rep false n t.

Lemma rep_stored r n t : rep r n t -> is_stored n = true -> is_short t || is_full t = true.
Proof. by destruct 1. Qed.

Hypothesis P_new : forall r t, P r newFlag t.

Lemma wf_true_inv t : wf true t -> t = TNil \/ exists v, t = TVal v /\ v <> [].
Proof. inversion 1; subst; eauto. Qed.

Lemma resolveHash_stored h n prefix :
  db_node db (toHash h) = Done (Some n) -> is_stored n = true -> resolveHash db h prefix = Done (inr n).
Proof. intros Hdb Hs. unfold resolveHash. rewrite Hdb. simpl. by destruct n. Qed.

Lemma reps_insert ns ts i n t : reps ns ts -> rep false n t -> reps (<[i := n]> ns) (<[i := t]> ts).
Proof.
  intros [Hl Hc] Hn. split; [by rewrite !length_insert|].
  intros j a b Ha Hb. apply list_lookup_insert_Some in Ha as [(-> & <- & Hj)|[Hne Ha]].
  - rewrite list_lookup_insert_eq in Hb by lia. by injection Hb as <-.
  - rewrite list_lookup_insert_ne in Hb by done. eauto.
Qed.

(** The fuel a step at node [n] with key [k] needs. *)
Definition need (n : node) (k : bytes) : nat := 2 * length k + (if is_hash n then 2 else 1).

Lemma strip_take p k :
  strip p k = if (length k <? length p)%nat || negb (bool_decide (p = take (length p) k)) then None else Some (drop (length p) k).
Proof.
  destruct (Nat.ltb_spec (length k) (length p)) as [Hl|Hl]; simpl.
  - destruct (strip p k) eqn:E; [|done]. apply strip_Some in E as ->. rewrite length_app in Hl. lia.
  - case_bool_decide as Hp; simpl.
    + apply strip_Some. rewrite <-(take_drop (length p) k) at 1. by rewrite <-Hp.
    + destruct (strip p k) eqn:E; [|done]. apply strip_Some in E as ->. by rewrite take_app_length in Hp.
Qed.

Lemma strip_self p : strip p p = Some [].
Proof. apply strip_Some. by rewrite app_nil_r. Qed.

Lemma strip_app_app p q k : strip (p ++ q) (p ++ k) = strip q k.
Proof. induction p as [|x p IH]; [done|]. simpl. by rewrite bool_decide_eq_true_2. Qed.

Lemma strip_app_None p q k : strip p k = None -> strip (p ++ q) k = None.
Proof.
  intros Hp. destruct (strip (p ++ q) k) eqn:E; [|done]. apply strip_Some in E as ->. by rewrite <-app_assoc, strip_app in Hp.
Qed.

Lemma rep_full' r ns ts f : reps ns ts -> P r f (TFull ts) -> rep r (fullNode ns f) (TFull ts).
Proof. intros [Hl Hc] HP. by constructor. Qed.

Lemma tryGet_ok fuel : forall r n t fin key pos,
  rep r n t -> wf fin t -> okkey fin (drop pos key) -> (pos <= length key)%nat -> (need n (drop pos key) <= fuel)%nat ->
  exists n' did, tryGet db fuel n key pos = Done (get t (drop pos key), n', did, None) /\ rep r n' t.
Proof.
  induction fuel as [|fuel IH]; intros r n t fin key pos Hr Hw Hk Hp Hf; [unfold need in Hf; destruct (is_hash n); lia|].
  assert (Hnext : forall c tc f k rest, rep false c tc -> wf f tc -> drop pos key = k ++ rest -> k <> [] -> okkey f rest ->
    exists n' did, tryGet db fuel c key (pos + length k) = Done (get tc rest, n', did, None) /\ rep false n' tc).
  { intros c tc f k rest Hc Hwc E Hne Hok.
    assert (El : length (drop pos key) = (length k + length rest)%nat) by (rewrite E; apply length_app).
    rewrite length_drop in El. assert (length k <> 0)%nat by (by destruct k).
    assert (Ed : drop (pos + length k) key = rest) by (by rewrite <-drop_drop, E, drop_app_length).
    rewrite <-Ed. apply (IH false c tc f); rewrite ?Ed; try done; [lia|]. unfold need in *. rewrite length_drop in Hf.
    destruct (is_hash n), (is_hash c); lia. }
  cbn [tryGet]. destruct Hr as [|r v|r k n t f Hr HP|r ns ts f Hl Hc HP|r h n t Hdb Hst Hr HQ].
  - exists nilNode, false. split; [done|constructor].
  - inversion Hw; subst. simpl in Hk. rewrite Hk. exists (valueNode v), false. split; [done|constructor].
  - rewrite <-length_drop. cbn [get]. rewrite (strip_take k (drop pos key)).
    destruct (_ || _) eqn:Eb; [exists (shortNode k n f), false; by split; [|constructor]|].
    assert (E : drop pos key = k ++ drop (length k) (drop pos key)).
    { apply strip_Some. by rewrite strip_take, Eb. }
    inversion Hw; subst. rewrite E in Hk. apply okkey_app in Hk; [|done..].
    destruct (Hnext n t (hasTerm k) k (drop (length k) (drop pos key))) as (n' & did & -> & Hn'); try done.
    simpl. eexists _, did. split; [done|]. destruct did; by constructor.
  - destruct fin; [inversion Hw|]. destruct (drop pos key) as [|x rest] eqn:E; [by apply okkey_nil in Hk|].
    assert (Hx : key !! pos = Some x) by (rewrite <-(Nat.add_0_r pos), <-lookup_drop, E; done). rewrite Hx. simpl.
    apply okkey_cons in Hk as [Hx17 Hk]. inversion Hw; subst.
    destruct (wf_full_lookup ts x) as [tc Htc]; [done..|].
    destruct (lookup_lt_is_Some_2 ns (idx x)) as [c Hcx]; [lia|].
    unfold child. rewrite Hcx. simpl. rewrite list_lookup_fmap, Htc. simpl.
    destruct (Hnext c tc _ [x] rest (Hc _ _ _ Hcx Htc) (wf_full_child _ _ _ Hw Htc)) as (n' & did & Hget & Hn'); try done.
    simpl in Hget. rewrite Hget. simpl. eexists _, did. split; [done|]. destruct did; [|by constructor].
    destruct (reps_insert ns ts (idx x) n' tc) as [Hl' Hc']; [by split|done|].
    rewrite (list_insert_id ts (idx x) tc) in Hl', Hc' by done. by constructor.
  - rewrite (resolveHash_stored h n) by done. simpl.
    destruct (IH r n t fin key pos) as (n' & did & -> & Hn'); try done; [unfold need in *; destruct n; simpl in *; (done || lia)|].
    simpl. by exists n', true.
Qed.

(** *** Insertion *)

Lemma prefixLen_spec a b : exists p a' b', a = p ++ a' /\ b = p ++ b' /\ prefixLen a b = length p /\
  match a', b' with x :: _, y :: _ => x <> y | _, _ => True end.
Proof.
  revert b. induction a as [|x a IH]; intros b; [by exists [], [], b|].
  destruct b as [|y b]; [by exists [], (x :: a), []|]. simpl. case_bool_decide as E.
  - subst y. destruct (IH b) as (p & a' & b' & -> & -> & -> & Hd). by exists (x :: p), a', b'.
  - by exists [], (x :: a), (y :: b).
Qed.

Definition updates (fin : bool) (key : bytes) (o : option bytes) (t t' : tree) : Prop :=
  wf fin t' /\ forall k, okkey fin k -> get t' k = if decide (k = key) then o else get t k.

(** A leaf, or what is left of one behind a branch. *)
Definition TShort' (k : bytes) (t : tree) : tree := match k with [] => t | _ => TShort k t end.

Lemma get_TShort' p t k : get (TShort' p t) k = match strip p k with Some k => get t k | None => None end.
Proof. by destruct p. Qed.

Lemma wf_TShort' x p t :
  nibs (x :: p) -> wf (hasTerm (x :: p)) t -> t <> TNil -> is_short t = false ->
  wf (bool_decide (idx x = 16%nat)) (TShort' p t) /\ TShort' p t <> TNil.
Proof.
  intros Hn Hw Ht Hs. apply nibs_cons in Hn as [Hx Hn]. destruct p as [|y p]; simpl.
  - split; [|done]. unfold hasTerm in Hw. simpl in Hw. erewrite bool_decide_ext; [exact Hw|]. split; [apply (idx_inj x term)|by intros ->].
  - split; [|done]. rewrite bool_decide_eq_false_2; [by constructor|]. destruct Hx as [?|[_ [=]]]. lia.
Qed.

Lemma two_children_insert cs i c : two_children cs -> c <> TNil -> two_children (<[i := c]> cs).
Proof.
  intros (j & k & a & b & Hjk & Ha & Hb & Hna & Hnb) Hc.
  assert (Hl : forall j x, cs !! j = Some x -> x <> TNil -> exists y, <[i := c]> cs !! j = Some y /\ y <> TNil).
  { intros j' x Hx Hnx. destruct (decide (i = j')) as [->|]; [|rewrite list_lookup_insert_ne by done; eauto].
    rewrite list_lookup_insert_eq by (by eapply lookup_lt_Some). eauto. }
  destruct (Hl j a Ha Hna) as (a' & ? & ?), (Hl k b Hb Hnb) as (b' & ? & ?). by exists j, k, a', b'.
Qed.

Lemma wf_full_insert cs i c :
  length cs = 17%nat -> (forall i c, cs !! i = Some c -> wf (bool_decide (i = 16%nat)) c) ->
  wf (bool_decide (i = 16%nat)) c -> two_children (<[i := c]> cs) -> wf false (TFull (<[i := c]> cs)).
Proof.
  intros Hl Hc Hw H2. constructor; [by rewrite length_insert| |done]. intros j d Hj.
  apply list_lookup_insert_Some in Hj as [(-> & <- & _)|[_ Hj]]; auto.
Qed.

Lemma get_full_insert cs x c y k :
  length cs = 17%nat -> (idx x < 17)%nat ->
  get (TFull (<[idx x := c]> cs)) (y :: k) = if decide (y = x) then get c k else get (TFull cs) (y :: k).
Proof.
  intros Hl Hx. rewrite !get_full. case_decide as E.
  - subst y. by rewrite list_lookup_insert_eq by lia.
  - rewrite list_lookup_insert_ne; [done|]. intros Hi. by apply E, idx_inj.
Qed.

(** The update of a child is the update of its parent. *)
Lemma updates_short p t t' key o :
  wf false (TShort p t) -> updates (hasTerm p) key o t t' -> t' <> TNil -> (is_full t = true -> is_full t' = true) ->
  updates false (p ++ key) o (TShort p t) (TShort p t').
Proof.
  intros Hw [Hw' Hg] Hne Hf. inversion Hw as [| |? ? Hp Hn Hwt Ht Hs|]; subst. split.
  - constructor; try done. destruct (hasTerm p) eqn:E; [by destruct (wf_true_inv _ Hw') as [->|(v & -> & _)]|].
    destruct (wf_short_child _ _ Hw E) as (cs & -> & _). specialize (Hf eq_refl). by destruct t'.
  - intros k Hk. simpl. destruct (strip p k) as [r|] eqn:E.
    + apply strip_Some in E as ->. apply okkey_app in Hk; [|done..]. rewrite (Hg r Hk).
      destruct (decide (r = key)) as [->|Hne']; [by rewrite decide_True|]. rewrite decide_False; [done|].
      intros ?%app_inv_head. done.
    + rewrite decide_False; [done|]. intros ->. by rewrite strip_app in E.
Qed.

Lemma updates_full cs x c c' key o :
  wf false (TFull cs) -> cs !! idx x = Some c -> updates (bool_decide (idx x = 16%nat)) key o c c' ->
  two_children (<[idx x := c']> cs) -> updates false (x :: key) o (TFull cs) (TFull (<[idx x := c']> cs)).
Proof.
  intros Hw Hx [Hw' Hg] H2. inversion Hw as [| | |? Hl Hc _]; subst. pose proof (lookup_lt_Some _ _ _ Hx).
  split; [by apply wf_full_insert|]. intros [|y k] Hk; [by apply okkey_nil in Hk|].
  rewrite get_full_insert by lia. destruct (decide (y = x)) as [->|Hy].
  - apply okkey_cons in Hk as [_ Hk]. rewrite (Hg k Hk), get_full, Hx.
    destruct (decide (k = key)) as [->|]; [by rewrite decide_True|]. rewrite decide_False; [done|congruence].
  - rewrite decide_False; [done|congruence].
Qed.

Lemma updates_leaf key v : okkey false key -> v <> [] -> updates false key (Some v) TNil (TShort key (TVal v)).
Proof.
  intros [Hn Ht] Hv. assert (key <> []) by (by intros ->). split.
  - constructor; try done. rewrite Ht. by constructor.
  - intros k Hk. simpl. destruct (strip key k) as [r|] eqn:E.
    + apply strip_Some in E as ->. apply okkey_app in Hk; [|done..]. rewrite Ht in Hk. simpl in Hk. subst r.
      by rewrite app_nil_r, decide_True.
    + rewrite decide_False; [done|]. intros ->. by rewrite strip_self in E.
Qed.

Definition branch (a b : byte) (ta tb : tree) : tree := TFull (<[idx b := tb]> (<[idx a := ta]> (replicate 17 TNil))).

Lemma get_branch a b ta tb x k :
  (idx a < 17)%nat -> (idx b < 17)%nat ->
  get (branch a b ta tb) (x :: k) = if decide (x = b) then get tb k else if decide (x = a) then get ta k else None.
Proof.
  intros Ha Hb. unfold branch. rewrite !get_full_insert by (rewrite ?length_insert; done).
  destruct (decide (x = b)), (decide (x = a)); try done.
  rewrite get_full. destruct (replicate 17 TNil !! idx x) eqn:E; [|done]. by apply lookup_replicate_1 in E as [-> _].
Qed.

Lemma wf_branch a b ta tb :
  a <> b -> (idx a < 17)%nat -> (idx b < 17)%nat -> ta <> TNil -> tb <> TNil ->
  wf (bool_decide (idx a = 16%nat)) ta -> wf (bool_decide (idx b = 16%nat)) tb -> wf false (branch a b ta tb).
Proof.
  intros Hab Ha Hb Hta Htb Hwa Hwb. assert (Hi : idx a <> idx b) by (intros ?%idx_inj; done). unfold branch.
  apply wf_full_insert; [by rewrite length_insert|..|done|].
  - intros i c Hc. apply list_lookup_insert_Some in Hc as [(Hia & <- & _)|[_ Hc]]; [by rewrite <-Hia|].
    apply lookup_replicate_1 in Hc as [-> _]. constructor.
  - exists (idx a), (idx b), ta, tb. split_and!; try done.
    + rewrite list_lookup_insert_ne by done. by apply list_lookup_insert_eq.
    + apply list_lookup_insert_eq. by rewrite length_insert.
Qed.

Lemma nibs_idx k i b : nibs k -> k !! i = Some b -> (idx b < 17)%nat.
Proof. intros Hk Hi. destruct (Hk i b Hi) as [?|[-> _]]; [lia|]. rewrite idx_term. lia. Qed.

Lemma updates_branch p a ra b rb tc v :
  wf false (TShort (p ++ a :: ra) tc) -> okkey false (p ++ b :: rb) -> a <> b -> v <> [] ->
  updates false (p ++ b :: rb) (Some v) (TShort (p ++ a :: ra) tc)
    (TShort' p (branch a b (TShort' ra tc) (TShort' rb (TVal v)))).
Proof.
  intros Hw Hk Hab Hv. inversion Hw as [| |? ? Hp Hn Hwt Ht Hs|]; subst.
  pose proof (proj1 (nibs_app p (a :: ra)) Hn) as (Hna & Hpt & Hnp).
  assert (hasTerm p = false) as Hpf by by apply Hpt. clear Hpt.
  assert (okkey false (b :: rb)) as [Hnb Htb].
  { destruct p; [done|]. apply okkey_app in Hk; [|done..]. by rewrite Hpf in Hk. }
  assert (Ha : (idx a < 17)%nat) by by apply (nibs_idx _ 0 _ Hna).
  assert (Hb : (idx b < 17)%nat) by by apply (nibs_idx _ 0 _ Hnb).
  rewrite hasTerm_app in Hwt by done.
  destruct (wf_TShort' a ra tc Hna Hwt Ht Hs) as [Hwa Hta].
  destruct (wf_TShort' b rb (TVal v) Hnb) as [Hwb Htb']; [by rewrite Htb; constructor|done..|].
  pose proof (wf_branch a b _ _ Hab Ha Hb Hta Htb' Hwa Hwb) as Hbr.
  assert (Hget : forall k, okkey false k -> get (branch a b (TShort' ra tc) (TShort' rb (TVal v))) k =
    if decide (k = b :: rb) then Some v else match strip (a :: ra) k with Some r => get tc r | None => None end).
  { intros [|x k] Hkx; [by apply okkey_nil in Hkx|]. rewrite get_branch, !get_TShort' by done. cbn [strip].
    apply okkey_cons in Hkx as [_ Hkx]. destruct (decide (x = b)) as [->|Hxb].
    - rewrite (bool_decide_eq_false_2 (a = b)) by done. destruct (strip rb k) as [r|] eqn:E.
      + apply strip_Some in E as ->. assert (r = []) as ->; [|by rewrite app_nil_r, decide_True].
        assert (Hok : okkey false ((b :: rb) ++ r)) by by apply okkey_cons. apply okkey_app in Hok; [|done..].
        by rewrite Htb in Hok.
      + rewrite decide_False; [done|]. intros [= ->]. by rewrite strip_self in E.
    - rewrite (decide_False (P := x :: k = b :: rb)) by congruence. destruct (decide (x = a)) as [->|Hxa].
      + by rewrite bool_decide_eq_true_2.
      + by rewrite (bool_decide_eq_false_2 (a = x)). }
  destruct p as [|x p].
  { split; [done|]. exact Hget. }
  split.
  - constructor; try done. by rewrite Hpf.
  - intros k Hkk. cbn [get TShort']. destruct (strip (x :: p) k) as [r|] eqn:E.
    + apply strip_Some in E as ->. apply okkey_app in Hkk; [|done..]. rewrite Hpf in Hkk. rewrite (Hget r Hkk), strip_app_app.
      destruct (decide (r = b :: rb)) as [->|]; [by rewrite decide_True|]. rewrite decide_False; [done|]. by intros ?%app_inv_head.
    + rewrite decide_False by (intros ->; by rewrite strip_app in E). by rewrite strip_app_None.
Qed.

(** Below no node: the key that remains is a leaf of its own. *)
Lemma insert_nil fuel prefix key value :
  insert db (S fuel) nilNode prefix key value =
  Done (inr (true, match key with [] => value | _ => shortNode key value newFlag end)).
Proof. by destruct key. Qed.

Lemma rep_TShort' k n t : rep false n t -> rep false (match k with [] => n | _ => shortNode k n newFlag end) (TShort' k t).
Proof. intros Hr. destruct k; [done|]. by constructor. Qed.

Lemma reps_replicate n : reps (replicate n nilNode) (replicate n TNil).
Proof.
  split; [by rewrite !length_replicate|]. intros i a b Ha Hb.
  apply lookup_replicate_1 in Ha as [-> _]. apply lookup_replicate_1 in Hb as [-> _]. constructor.
Qed.

Definition inserted (r fin : bool) (key v : bytes) (t : tree) (dirty : bool) (n' : node) : Prop :=
  exists t', rep r n' t' /\ updates fin key (Some v) t t' /\ t' <> TNil /\ (is_full t = true -> is_full t' = true) /\
    (dirty = false -> t' = t).

(** The short node and the key part ways behind the prefix [p]. *)
Lemma insert_branch r fuel p a ra b rb nval fl tc prefix v :
  rep false nval tc -> wf false (TShort (p ++ a :: ra) tc) -> okkey false (p ++ b :: rb) -> a <> b -> v <> [] ->
  exists n', insert db (S (S fuel)) (shortNode (p ++ a :: ra) nval fl) prefix (p ++ b :: rb) (valueNode v) = Done (inr (true, n')) /\
    inserted r false (p ++ b :: rb) v (TShort (p ++ a :: ra) tc) true n'.
Proof.
  intros Hr Hw Hk Hab Hv. remember (S fuel) as fuel' eqn:Ef. cbn [insert].
  destruct (p ++ b :: rb) as [|k0 ks] eqn:E; [by destruct p|]. rewrite <-E in *. clear k0 ks E.
  assert (Hpl : prefixLen (p ++ b :: rb) (p ++ a :: ra) = length p).
  { clear -Hab. induction p as [|x p IH]; simpl; [by rewrite bool_decide_eq_false_2 by congruence|].
    by rewrite bool_decide_eq_true_2, IH. }
  assert (Ht : forall x l, drop (length p + 1) (p ++ x :: l) = l).
  { intros x l. rewrite <-drop_drop, drop_app_length. done. }
  rewrite Hpl, (proj2 (Nat.eqb_neq _ _)) by (rewrite length_app; simpl; lia).
  rewrite !list_lookup_middle by done. cbn [or_panic obind]. rewrite !Ht. subst fuel'. rewrite insert_nil. cbn [obind].
  inversion Hw as [| |? ? Hp Hn Hwt Htc Hs|]; subst.
  assert (Ha : (idx a < 17)%nat) by (eapply nibs_idx; [apply Hn|by apply list_lookup_middle]).
  assert (Hb : (idx b < 17)%nat) by (eapply nibs_idx; [apply (okkey_nibs _ _ Hk)|by apply list_lookup_middle]).
  rewrite (decide_True (P := (idx a < 17)%nat)) by done. cbn [or_panic obind]. rewrite insert_nil. cbn [obind].
  rewrite (decide_True (P := (idx b < 17)%nat)) by done. cbn [or_panic obind]. rewrite take_app_length.
  match goal with |- context [fullNode ?cs newFlag] => set (bn := fullNode cs newFlag) end.
  assert (Hbn : forall r, rep r bn (branch a b (TShort' ra tc) (TShort' rb (TVal v)))).
  { intros r'. apply rep_full'; [|done]. apply reps_insert; [apply reps_insert; [apply reps_replicate|]|]; apply rep_TShort'; [done|constructor]. }
  pose proof (updates_branch p a ra b rb tc v Hw Hk Hab Hv) as Hu. destruct p as [|x p]; simpl.
  - exists bn. split; [done|]. exists (branch a b (TShort' ra tc) (TShort' rb (TVal v))). split_and!; try done; apply Hu.
  - exists (shortNode (x :: p) bn newFlag). split; [done|].
    exists (TShort (x :: p) (branch a b (TShort' ra tc) (TShort' rb (TVal v)))). split_and!; try done; [by constructor|apply Hu..].
Qed.

Lemma insert_ok fuel : forall r n t fin prefix key v,
  rep r n t -> wf fin t -> okkey fin key -> v <> [] -> (need n key <= fuel)%nat ->
  exists dirty n', insert db fuel n prefix key (valueNode v) = Done (inr (dirty, n')) /\ inserted r fin key v t dirty n'.
Proof.
  induction fuel as [|fuel IH]; intros r n t fin prefix key v Hr Hw Hk Hv Hf; [unfold need in Hf; destruct (is_hash n); lia|].
  destruct key as [|k0 ks].
  { destruct fin; [|by apply okkey_nil in Hk].
    assert (Hu : updates true [] (Some v) t (TVal v)).
    { split; [by constructor|]. intros k ->. done. }
    destruct (wf_true_inv _ Hw) as [->|(v0 & -> & Hv0)]; destruct n; inversion Hr; subst;
      try match goal with H : is_stored ?n = true, H' : rep _ ?n _ |- _ => apply (rep_stored _ _ _ H') in H; done end.
    - exists true, (valueNode v). split; [done|]. exists (TVal v). split; [apply rep_val|]. by do 2 (split; [done|]).
    - eexists _, (valueNode v). split; [done|]. exists (TVal v). split; [apply rep_val|]. do 3 (split; [done|]).
      intros E. apply negb_false_iff, bool_decide_eq_true in E. by subst. }
  destruct fin; [done|]. destruct Hr as [|r v0|r nkey nval tc f Hr HP|r ns ts f Hl Hc HP|r h n t Hdb Hst Hr HQ].
  - exists true, (shortNode (k0 :: ks) (valueNode v) newFlag). split; [done|].
    exists (TShort (k0 :: ks) (TVal v)). split; [apply rep_short; [constructor|done]|].
    by split; [apply updates_leaf|].
  - inversion Hw.
  - inversion Hw as [| |? ? Hp Hn Hwt Ht Hs|]; simplify_eq.
    destruct (prefixLen_spec (k0 :: ks) nkey) as (p & key' & nkey' & Ek & En & Hpl & Hd).
    destruct nkey' as [|a ra].
    + rewrite app_nil_r in En. subst p. cbn [insert]. rewrite Hpl, Nat.eqb_refl, Ek, drop_app_length.
      rewrite Ek in Hk. apply okkey_app in Hk; [|done..].
      destruct (IH false nval tc (hasTerm nkey) (prefix ++ take (length nkey) (nkey ++ key')) key' v)
        as (dirty & nn & -> & (tc' & Hr' & Hu & Hne & Hfull & Hsame)); try done.
      { unfold need in *. rewrite Ek, length_app in Hf. simpl in Hf. assert (length nkey <> 0)%nat by (by destruct nkey).
        destruct (is_hash nval); lia. }
      assert (Hu' : updates false (nkey ++ key') (Some v) (TShort nkey tc) (TShort nkey tc')) by by apply updates_short.
      simpl. destruct dirty; simpl.
      * eexists true, _. split; [done|]. exists (TShort nkey tc'). split; [by constructor|]. by do 3 (split; [done|]).
      * eexists false, _. split; [done|]. rewrite (Hsame eq_refl) in *. exists (TShort nkey tc). split; [by constructor|].
        by do 3 (split; [done|]).
    + destruct key' as [|b rb].
      { exfalso. rewrite app_nil_r in Ek. rewrite Ek in Hk. rewrite En in Hn. apply nibs_app in Hn as (_ & Hterm & _).
        destruct Hk as [_ Hk]. rewrite Hterm in Hk; done. }
      rewrite Ek, En in *. destruct fuel as [|fuel]; [unfold need in Hf; rewrite length_app in Hf; simpl in Hf; lia|].
      destruct (insert_branch r fuel p a ra b rb nval f tc prefix v) as (n' & -> & Hi); try done; try congruence.
      by exists true, n'.
  - inversion Hw as [| | |? Hl17 Hwc H2]; simplify_eq. apply okkey_cons in Hk as [Hx Hk]. cbn [insert].
    destruct (wf_full_lookup ts k0) as [tc Htc]; [done..|]. destruct (lookup_lt_is_Some_2 ns (idx k0)) as [c Hcx]; [lia|].
    unfold child. rewrite Hcx. cbn [or_panic obind].
    destruct (IH false c tc _ (prefix ++ [k0]) ks v (Hc _ _ _ Hcx Htc) (Hwc _ _ Htc) Hk Hv)
      as (dirty & nn & -> & (tc' & Hr' & Hu & Hne & Hfull & Hsame)).
    { unfold need in *. simpl in Hf. destruct (is_hash c); lia. }
    assert (Hu' : updates false (k0 :: ks) (Some v) (TFull ts) (TFull (<[idx k0 := tc']> ts)))
      by (eapply updates_full; try done; by apply two_children_insert).
    simpl. destruct dirty; simpl.
    + eexists true, _. split; [done|]. exists (TFull (<[idx k0 := tc']> ts)).
      split; [apply rep_full'; [by apply reps_insert|done]|]. by do 3 (split; [done|]).
    + eexists false, _. split; [done|]. rewrite (Hsame eq_refl), list_insert_id in * by done.
      exists (TFull ts). split; [by constructor|]. by do 3 (split; [done|]).
  - cbn [insert]. rewrite (resolveHash_stored h n) by done. cbn [obind].
    destruct (IH r n t false prefix (k0 :: ks) v Hr Hw Hk Hv) as (dirty & nn & -> & Hi).
    { unfold need in *. destruct n; try done; simpl in *; lia. }
    destruct dirty; simpl; [by exists true, nn|]. exists false, n. split; [done|].
    destruct Hi as (t' & Hr' & Hu & Hne & Hfull & Hsame). rewrite (Hsame eq_refl) in *. by exists t.
Qed.

(** *** Deletion *)

(** A prefix in front of a trie: short nodes are merged. *)
Definition join (p : bytes) (t : tree) : tree := match t with TShort q t => TShort (p ++ q) t | _ => TShort p t end.

Lemma get_join p t k : get (join p t) k = get (TShort p t) k.
Proof.
  destruct t; try done. simpl. destruct (strip p k) as [r|] eqn:E; [|by rewrite strip_app_None].
  apply strip_Some in E as ->. by rewrite strip_app_app.
Qed.

Lemma wf_join p t : p <> [] -> nibs p -> wf (hasTerm p) t -> t <> TNil -> wf false (join p t).
Proof.
  intros Hp Hn Hw Ht. destruct t as [|v|q t|cs]; try done; try by constructor.
  destruct (hasTerm p) eqn:E; [by inversion Hw|]. inversion Hw; subst. simpl.
  constructor; try done; [by destruct p|by apply nibs_app|by rewrite hasTerm_app].
Qed.

Lemma rep_join r p n t :
  rep false n t -> is_hash n = false ->
  rep r (match n with shortNode ck cv _ => shortNode (p ++ ck) cv newFlag | _ => shortNode p n newFlag end) (join p t).
Proof. intros Hr Hh. inversion Hr; subst; try done; simpl; by apply rep_short. Qed.

Lemma rep_is_nil r n t : rep r n t -> is_nil n = bool_decide (t = TNil).
Proof.
  intros Hr. destruct Hr as [| | | |r h n t Hdb Hst Hr HQ]; try done. simpl. apply rep_stored in Hr; [|done]. by destruct t.
Qed.

Lemma only_child_found cs : forall i pos, 0 <= pos -> only_child i pos cs = if forallb is_nil cs then pos else -2.
Proof.
  induction cs as [|c cs IH]; intros i pos Hp; simpl; [done|]. destruct (is_nil c); simpl; [by apply IH|].
  by rewrite (proj2 (Z.eqb_neq _ _)) by lia.
Qed.

Lemma forallb_nil cs : forallb is_nil cs = true <-> forall j c, cs !! j = Some c -> is_nil c = true.
Proof.
  rewrite forallb_forall. split; intros H.
  - intros j c Hj. apply H, list_elem_of_In. by eapply list_elem_of_lookup_2.
  - intros c [j Hj]%list_elem_of_In%list_elem_of_lookup. by eapply H.
Qed.

Inductive only_child_case (cs : list node) (i : Z) : Z -> Prop :=
| oc_none : (forall j c, cs !! j = Some c -> is_nil c = true) -> only_child_case cs i (-1)
| oc_one j c : cs !! j = Some c -> is_nil c = false -> (forall k d, cs !! k = Some d -> k <> j -> is_nil d = true) ->
    only_child_case cs i (i + Z.of_nat j)
| oc_more j k a b : j <> k -> cs !! j = Some a -> cs !! k = Some b -> is_nil a = false -> is_nil b = false ->
    only_child_case cs i (-2).

Lemma only_child_spec cs : forall i, 0 <= i -> only_child_case cs i (only_child i (-1) cs).
Proof.
  induction cs as [|c cs IH]; intros i Hi; simpl; [by constructor|]. destruct (is_nil c) eqn:Hc.
  - destruct (IH (i + 1)) as [H|j d Hj Hd Ho|j k a b Hjk Ha Hb Hna Hnb]; [lia|..].
    + apply oc_none. intros [|j] d Hj; simplify_eq/=; eauto.
    + replace (i + 1 + Z.of_nat j) with (i + Z.of_nat (S j)) by lia. apply (oc_one _ _ _ d); try done.
      intros [|k] e Hk Hne; simplify_eq/=; [done|]. eapply Ho; [done|congruence].
    + apply (oc_more _ _ (S j) (S k) a b); try done. congruence.
  - rewrite only_child_found by done. destruct (forallb is_nil cs) eqn:Hf.
    + rewrite forallb_nil in Hf. replace i with (i + Z.of_nat 0) at 2 by lia. apply (oc_one _ _ _ c); try done.
      intros [|k] d Hk Hne; simplify_eq/=; eauto.
    + assert (exists j d, cs !! j = Some d /\ is_nil d = false) as (j & d & Hj & Hd).
      { clear -Hf. induction cs as [|d cs IH]; [done|]. simpl in Hf. destruct (is_nil d) eqn:E; [|by exists 0%nat, d].
        destruct (IH Hf) as (j & e & ? & ?). by exists (S j), e. }
      by apply (oc_more _ _ 0 (S j) c d).
Qed.

Definition deleted (r fin : bool) (key : bytes) (t : tree) (dirty : bool) (n' : node) : Prop :=
  exists t', rep r n' t' /\ updates fin key None t t' /\ (is_full t = true -> t' <> TNil) /\
    (dirty = false -> t' = t) /\ (dirty = true -> is_hash n' = false).

Lemma updates_none fin key t : wf fin t -> get t key = None -> updates fin key None t t.
Proof. intros Hw Hg. split; [done|]. intros k _. by case_decide; [subst|]. Qed.

(** The node with a single child, which is behind the nibble [x]. *)
Lemma reduce_one r prefix ns ts x c tc :
  reps ns ts -> length ts = 17%nat -> (forall i t, ts !! i = Some t -> wf (bool_decide (i = 16%nat)) t) ->
  ns !! idx x = Some c -> ts !! idx x = Some tc -> tc <> TNil ->
  only_child 0 (-1) ns = Z_of_byte x -> byte_of_Z (Z_of_byte x) = x ->
  exists n', reduce db prefix ns = Done (inr (true, n')) /\ rep r n' (join [x] tc) /\ is_hash n' = false.
Proof.
  intros Hr Hl Hwc Hc Htc Hne Hoc Hx. pose proof (Z_of_byte_range x) as Hb. unfold reduce.
  destruct Hr as [Hlen Hrc]. pose proof (Hrc _ _ _ Hc Htc) as Hrct.
  rewrite Hoc, (proj2 (Z.leb_le 0 _)) by lia. fold (idx x). rewrite Hc, Hx. cbn [or_panic obind].
  assert (Hkeep : is_short tc = false -> rep r (shortNode [x] c newFlag) (join [x] tc))
    by (intros Hs; destruct tc; try done; by constructor).
  destruct (Z.eqb_spec (Z_of_byte x) 16) as [E|E]; simpl.
  - eexists. split; [done|]. split; [|done]. apply Hkeep. specialize (Hwc _ _ Htc).
    replace (idx x) with 16%nat in Hwc by (unfold idx; lia). by destruct (wf_true_inv _ Hwc) as [->|(v & -> & _)].
  - remember false as r0 eqn:Er0 in Hrct.
    destruct Hrct as [|r' v|r' k n t f' Hr' HP|r' ns' ts' f' Hl' Hc' HP|r' h n t Hdb Hst Hr' HQ]; simpl; try done.
    + eexists. split; [done|]. split; [by apply Hkeep|done].
    + eexists. split; [done|]. split; [by constructor|done].
    + eexists. split; [done|]. split; [by apply Hkeep|done].
    + rewrite (resolveHash_stored h n) by done. simpl. destruct Hr' as [| |r' k n t f' Hr' HP|r' ns' ts' f' Hl' Hc' HP|]; try done.
      * eexists. split; [done|]. split; [by constructor|done].
      * eexists. split; [done|]. split; [by apply Hkeep|done].
Qed.

Lemma join_not_nil p t : join p t <> TNil.
Proof. by destruct t. Qed.

Lemma reduce_ok r prefix ns ts :
  reps ns ts -> length ts = 17%nat -> (forall i t, ts !! i = Some t -> wf (bool_decide (i = 16%nat)) t) ->
  (exists i t, ts !! i = Some t /\ t <> TNil) ->
  exists n' t', reduce db prefix ns = Done (inr (true, n')) /\ rep r n' t' /\ is_hash n' = false /\ wf false t' /\ t' <> TNil /\
    forall k, okkey false k -> get t' k = get (TFull ts) k.
Proof.
  intros Hr Hl Hwc (i & ti & Hi & Hti). pose proof Hr as [Hlen Hrc].
  assert (Hnt : forall j t, ts !! j = Some t -> exists n, ns !! j = Some n /\ is_nil n = bool_decide (t = TNil)).
  { intros j t Hj. destruct (lookup_lt_is_Some_2 ns j) as [n Hn]; [apply lookup_lt_Some in Hj; lia|].
    exists n. split; [done|]. by apply (rep_is_nil false), (Hrc j). }
  assert (Htn : forall j n, ns !! j = Some n -> exists t, ts !! j = Some t /\ is_nil n = bool_decide (t = TNil)).
  { intros j n Hj. destruct (lookup_lt_is_Some_2 ts j) as [t Ht]; [apply lookup_lt_Some in Hj; lia|].
    exists t. split; [done|]. by apply (rep_is_nil false), (Hrc j). }
  pose proof (only_child_spec ns 0 ltac:(lia)) as Hoc. remember (only_child 0 (-1) ns) as pos eqn:Er.
  destruct Hoc as [Hall|j c Hj Hc Ho|j k a b Hjk Ha Hb Hna Hnb].
  - destruct (Hnt i ti Hi) as (n & Hn & E). rewrite (Hall i n Hn) in E. symmetry in E. by apply bool_decide_eq_true in E.
  - destruct (Htn j c Hj) as (tc & Htc & E). rewrite Hc in E. symmetry in E. apply bool_decide_eq_false in E.
    pose proof (lookup_lt_Some _ _ _ Htc). set (x := byte_of_Z (Z.of_nat j)).
    assert (Hx : idx x = j) by (apply idx_byte_of_Z; lia). assert (Hzx : Z_of_byte x = Z.of_nat j) by (unfold idx in Hx; pose proof (Z_of_byte_range x); lia).
    assert (Hbx : byte_of_Z (Z_of_byte x) = x) by by rewrite Hzx. clearbody x. rewrite <-Hx in Hj, Htc.
    destruct (reduce_one r prefix ns ts x c tc) as (n' & Hred & Hrep & Hh); try done; [by rewrite <-Er, Hzx|].
    exists n', (join [x] tc). split_and!; try done; [apply wf_join|apply join_not_nil|]; try done.
    + apply nibs_cons. split; [|apply nibs_nil]. destruct (decide (j = 16%nat)); [right|left; lia].
      split; [|done]. apply idx_inj. by rewrite idx_term, Hx.
    + specialize (Hwc _ _ Htc). unfold hasTerm; simpl. erewrite bool_decide_ext; [exact Hwc|].
      rewrite <-idx_term. split; [by intros ->|apply idx_inj].
    + intros [|y k] Hk; [by apply okkey_nil in Hk|]. rewrite get_join, get_full. cbn [get strip].
      destruct (decide (x = y)) as [<-|Hxy]; [by rewrite bool_decide_eq_true_2, Htc|]. rewrite bool_decide_eq_false_2 by done.
      destruct (ts !! idx y) as [ty|] eqn:Hy; [|done]. destruct (Hnt _ _ Hy) as (n & Hn & En).
      rewrite (Ho _ _ Hn) in En by (intros Hjy; apply Hxy, idx_inj; congruence).
      symmetry in En. apply bool_decide_eq_true in En. by subst.
  - destruct (Htn j a Ha) as (ta & Hta & Ea). destruct (Htn k b Hb) as (tb & Htb & Eb).
    rewrite Hna in Ea. rewrite Hnb in Eb. symmetry in Ea, Eb. apply bool_decide_eq_false in Ea, Eb.
    exists (fullNode ns newFlag), (TFull ts). unfold reduce. rewrite <-Er. split_and!; try done; [by apply rep_full'|].
    constructor; try done. by exists j, k, ta, tb.
Qed.

(** A child of a full node has changed. *)
Lemma delete_full_ok r prefix ns ts k0 ks c tc nn tc' :
  reps ns ts -> wf false (TFull ts) -> ns !! idx k0 = Some c -> ts !! idx k0 = Some tc ->
  rep false nn tc' -> wf (bool_decide (idx k0 = 16%nat)) tc' ->
  (forall k, okkey (bool_decide (idx k0 = 16%nat)) k -> get tc' k = if decide (k = ks) then None else get tc k) ->
  exists dirty n', reduce db prefix (<[idx k0 := nn]> ns) = Done (inr (dirty, n')) /\ deleted r false (k0 :: ks) (TFull ts) dirty n'.
Proof.
  intros Hr Hw Hc Htc Hr' Hw' Hg. inversion Hw as [| | |? Hl17 Hwc H2]; subst. pose proof (lookup_lt_Some _ _ _ Htc).
  destruct (reduce_ok r prefix (<[idx k0 := nn]> ns) (<[idx k0 := tc']> ts)) as (n' & t' & -> & Hrep & Hh & Hwt & Hne & Hget).
  - by apply reps_insert.
  - by rewrite length_insert.
  - intros i t Ht. apply list_lookup_insert_Some in Ht as [(<- & <- & _)|[_ Ht]]; auto.
  - destruct H2 as (i & j & a & b & Hij & Ha & Hb & Hna & Hnb). destruct (decide (i = idx k0)) as [->|Hi].
    + exists j, b. by rewrite list_lookup_insert_ne.
    + exists i, a. by rewrite list_lookup_insert_ne.
  - exists true, n'. split; [done|]. exists t'. split; [done|]. split; [|done]. split; [done|]. intros k Hk. rewrite (Hget k Hk).
    destruct k as [|y k]; [by apply okkey_nil in Hk|]. rewrite get_full_insert by lia. apply okkey_cons in Hk as [Hy Hk].
    destruct (decide (y = k0)) as [->|Hyk].
    + rewrite (Hg k Hk), get_full, Htc. destruct (decide (k = ks)) as [->|]; [by rewrite decide_True|].
      rewrite decide_False; [done|congruence].
    + rewrite decide_False; [done|congruence].
Qed.

(** Deletion below a short node, given deletion from its child. *)
Lemma delete_short_ok r fuel nkey nval f tc fin prefix key :
  rep false nval tc -> P r f (TShort nkey tc) -> wf fin (TShort nkey tc) -> okkey fin key ->
  (forall rest, key = nkey ++ rest -> okkey (hasTerm nkey) rest ->
     exists dirty n', delete db fuel nval (prefix ++ take (length nkey) key) rest = Done (inr (dirty, n')) /\
       deleted false (hasTerm nkey) rest tc dirty n') ->
  exists dirty n', delete db (S fuel) (shortNode nkey nval f) prefix key = Done (inr (dirty, n')) /\
    deleted r fin key (TShort nkey tc) dirty n'.
Proof.
  intros Hr HP Hw Hk IH. destruct fin; [inversion Hw|]. inversion Hw as [| |? ? Hp Hn Hwt Ht Hs|]; subst. cbn [delete].
  destruct (prefixLen_spec key nkey) as (p & key' & nkey' & Ek & En & Hpl & Hd). rewrite Hpl.
  assert (Hrep : rep r (shortNode nkey nval f) (TShort nkey tc)) by by constructor.
  destruct (Nat.ltb_spec (length p) (length nkey)) as [Hlt|Hge].
  { exists false, (shortNode nkey nval f). split; [done|]. exists (TShort nkey tc). split; [done|]. split; [|done].
    apply updates_none; [done|]. simpl. destruct (strip nkey key) as [q|] eqn:E; [|done]. exfalso. apply strip_Some in E.
    destruct nkey' as [|a nkey']; [rewrite app_nil_r in En; subst; lia|]. rewrite Ek, En, <-app_assoc in E.
    apply app_inv_head in E. subst key'. simpl in Hd. done. }
  destruct nkey' as [|? ?]; [|rewrite En, length_app in Hge; simpl in Hge; lia]. rewrite app_nil_r in En. subst p.
  assert (Hok : okkey (hasTerm nkey) key') by (apply okkey_app; [done..|congruence]).
  destruct (Nat.eqb_spec (length nkey) (length key)) as [El|El].
  { assert (key' = []) as -> by (rewrite Ek, length_app in El; destruct key'; [done|simpl in El; lia]).
    rewrite app_nil_r in Ek. subst key. destruct Hk as [_ Hterm]. exists true, nilNode. split; [done|]. exists TNil.
    split; [constructor|]. split; [|done]. split; [constructor|]. intros k Hk. case_decide as E; [done|]. simpl.
    destruct (strip nkey k) as [q|] eqn:Es; [|done]. apply strip_Some in Es as ->. apply okkey_app in Hk; [|done..].
    rewrite Hterm in Hk. simpl in Hk. subst q. by rewrite app_nil_r in E. }
  destruct (IH key' Ek Hok) as (dirty & nn & Hdel & (tc' & Hr' & [Hw' Hg'] & Hne & Hsame & Hh)).
  assert (hasTerm nkey = false) as Hterm.
  { destruct (hasTerm nkey); [|done]. simpl in Hok. subst key'. by rewrite app_nil_r in Ek; subst. }
  destruct (wf_short_child _ _ Hw Hterm) as (cs & -> & Hwcs).
  assert (Hget : forall k, okkey false k -> get (TShort nkey tc') k = if decide (k = key) then None else get (TShort nkey (TFull cs)) k).
  { intros k Hkk. cbn [get]. destruct (strip nkey k) as [q|] eqn:E.
    - apply strip_Some in E as ->. apply okkey_app in Hkk; [|done..]. rewrite (Hg' q Hkk), Ek.
      destruct (decide (q = key')) as [->|Hrk]; [by rewrite decide_True|]. rewrite decide_False; [done|]. by intros ?%app_inv_head.
    - by case_decide. }
  rewrite Ek, drop_app_length in *. rewrite Hdel. cbn [obind]. destruct dirty; simpl.
  - exists true, (match nn with shortNode ck cv _ => shortNode (nkey ++ ck) cv newFlag | _ => shortNode nkey nn newFlag end).
    split; [by destruct nn|]. exists (join nkey tc'). split; [by apply rep_join; auto|]. split; [|by destruct nn].
    split; [apply wf_join; by auto|]. intros k Hkk. rewrite get_join. by apply Hget.
  - exists false, (shortNode nkey nval f). split; [done|]. rewrite (Hsame eq_refl) in *. exists (TShort nkey (TFull cs)).
    split; [done|]. split; [|done]. split; [done|]. exact Hget.
Qed.

Lemma delete_ok fuel : forall r n t fin prefix key,
  rep r n t -> wf fin t -> okkey fin key -> (need n key <= fuel)%nat ->
  exists dirty n', delete db fuel n prefix key = Done (inr (dirty, n')) /\ deleted r fin key t dirty n'.
Proof.
  induction fuel as [|fuel IH]; intros r n t fin prefix key Hr Hw Hk Hf; [unfold need in Hf; destruct (is_hash n); lia|].
  cbn [delete]. destruct Hr as [|r v|r nkey nval tc f Hr HP|r ns ts f Hl Hc HP|r h n t Hdb Hst Hr HQ].
  - exists false, nilNode. split; [done|]. exists TNil. split; [constructor|]. split; [by apply updates_none|done].
  - inversion Hw; subst. simpl in Hk. subst key. exists true, nilNode. split; [done|]. exists TNil. split; [constructor|].
    split; [|done]. split; [constructor|]. intros k ->. done.
  - apply (delete_short_ok r fuel nkey nval f tc fin); try done. intros rest Hrest Hok.
    apply (IH false nval tc _ _ rest Hr); [|done|]; [by inversion Hw|]. unfold need in *. rewrite Hrest, length_app in Hf.
    inversion Hw; subst. assert (length nkey <> 0)%nat by (by destruct nkey). simpl in Hf. destruct (is_hash nval); lia.
  - destruct fin; [inversion Hw|]. inversion Hw as [| | |? Hl17 Hwc H2]; simplify_eq.
    destruct key as [|k0 ks]; [by apply okkey_nil in Hk|]. apply okkey_cons in Hk as [Hx Hk].
    destruct (wf_full_lookup ts k0) as [tc Htc]; [done..|]. destruct (lookup_lt_is_Some_2 ns (idx k0)) as [c Hcx]; [lia|].
    unfold child. rewrite Hcx. cbn [or_panic obind].
    destruct (IH false c tc _ (prefix ++ [k0]) ks (Hc _ _ _ Hcx Htc) (Hwc _ _ Htc) Hk)
      as (dirty & nn & -> & (tc' & Hr' & [Hw' Hg'] & Hne & Hsame & Hh)).
    { unfold need in *. simpl in Hf. destruct (is_hash c); lia. }
    destruct dirty; simpl.
    + by apply (delete_full_ok r prefix ns ts k0 ks c tc nn tc').
    + exists false, (fullNode ns f). split; [done|]. rewrite (Hsame eq_refl) in *. exists (TFull ts). split; [by constructor|].
      split; [|done]. apply updates_none; [done|]. rewrite get_full, Htc, (Hg' ks Hk). by rewrite decide_True.
  - rewrite (resolveHash_stored h n) by done. cbn [obind].
    destruct (IH r n t fin prefix key Hr Hw Hk) as (dirty & nn & -> & Hi).
    { unfold need in *. destruct n; try done; simpl in *; lia. }
    destruct dirty; simpl; [by exists true, nn|]. exists false, n. split; [done|].
    destruct Hi as (t' & Hr' & Hu & Hne & Hsame & Hh). rewrite (Hsame eq_refl) in *. by exists t.
Qed.

(** ** The trie as a map *)

(** The content of [t] is the map [M] from keys to values. *)
Record holds (t : tree) (M : gmap bytes bytes) : Prop := {
  holds_get : forall k, get t (keybytesToHex k) = M !! k;
  holds_only : forall k v, okkey false k -> get t k = Some v -> exists kb, k = keybytesToHex kb }.

Definition trie_ok (root : node) (M : gmap bytes bytes) : Prop := exists t, rep true root t /\ wf false t /\ holds t M.

Definition set_value (k v : bytes) (M : gmap bytes bytes) : gmap bytes bytes :=
  if bool_decide (v = []) then base.delete k M else <[k := v]> M.

Lemma holds_update t t' key v M :
  holds t M -> updates false (keybytesToHex key) (if bool_decide (v = []) then None else Some v) t t' -> holds t' (set_value key v M).
Proof.
  intros [Hg Ho] [_ Hu]. unfold set_value. split.
  - intros k. rewrite Hu by apply keybytesToHex_ok. destruct (decide (k = key)) as [->|Hne].
    + rewrite decide_True by done. case_bool_decide; [by rewrite lookup_delete_eq|by rewrite lookup_insert_eq].
    + rewrite decide_False by (by intros ?%keybytesToHex_inj). rewrite Hg.
      case_bool_decide; [by rewrite lookup_delete_ne|by rewrite lookup_insert_ne].
  - intros k x Hk. rewrite Hu by done. case_decide; [by eauto|]. by apply Ho.
Qed.

Lemma need_key_fuel n k : (need n k <= key_fuel k)%nat.
Proof. unfold need, key_fuel. destruct (is_hash n); lia. Qed.

Lemma TryGet_ok root M key :
  trie_ok root M -> exists root', TryGet db root key = Done (root', M !! key, None) /\ trie_ok root' M.
Proof.
  intros (t & Hr & Hw & Hh). unfold TryGet.
  destruct (tryGet_ok (key_fuel (keybytesToHex key)) true root t false (keybytesToHex key) 0) as (n' & did & -> & Hn'); try done;
    [apply keybytesToHex_ok|lia|apply need_key_fuel|].
  rewrite drop_0, (holds_get _ _ Hh). simpl. eexists. split; [done|]. destruct did; by exists t.
Qed.

Lemma delete_root_ok root M key :
  trie_ok root M -> exists dirty root', delete db (key_fuel (keybytesToHex key)) root [] (keybytesToHex key) = Done (inr (dirty, root')) /\
    trie_ok root' (base.delete key M).
Proof.
  intros (t & Hr & Hw & Hh).
  destruct (delete_ok (key_fuel (keybytesToHex key)) true root t false [] (keybytesToHex key)) as (dirty & n' & -> & Hi); try done;
    [apply keybytesToHex_ok|apply need_key_fuel|].
  destruct Hi as (t' & Hr' & Hu & _). exists dirty, n'. split; [done|]. exists t'. split; [done|]. split; [apply Hu|].
  apply (holds_update t t' key [] M Hh Hu).
Qed.

Lemma TryDelete_ok root M key :
  trie_ok root M -> exists root', TryDelete db root key = Done (root', None) /\ trie_ok root' (base.delete key M).
Proof.
  intros Hr. unfold TryDelete. destruct (delete_root_ok root M key Hr) as (dirty & n' & -> & Hn'). simpl. eauto.
Qed.

Lemma TryUpdate_ok root M key v :
  trie_ok root M -> exists root', TryUpdate db root key v = Done (root', None) /\ trie_ok root' (set_value key v M).
Proof.
  intros Hok. unfold TryUpdate, set_value. case_bool_decide as Hv.
  - subst v. simpl. destruct (delete_root_ok root M key Hok) as (dirty & n' & -> & Hn'). simpl. eauto.
  - destruct v as [|x v]; [done|]. simpl. destruct Hok as (t & Hr & Hw & Hh).
    destruct (insert_ok (key_fuel (keybytesToHex key)) true root t false [] (keybytesToHex key) (x :: v)) as (dirty & n' & -> & Hi);
      try done; [apply keybytesToHex_ok|apply need_key_fuel|].
    destruct Hi as (t' & Hr' & Hu & _). simpl. exists n'. split; [done|]. exists t'. split; [done|]. split; [apply Hu|].
    pose proof (holds_update t t' key (x :: v) M Hh Hu) as H. unfold set_value in H. by rewrite bool_decide_eq_false_2 in H.
Qed.
End Rep.
