(* ===== verification/TrieHash.v ===== *)
(** * trie: the root hash
    The encoding of a trie is defined on trees ([enc_tree]); the hasher, which
    works on nodes with cached hashes and partly in the database, is shown to
    compute the hash of that encoding.  With the uniqueness of minimal forms
    the root hash is a function of the content. *)

From S2P Require Import Prelude MathUtil Rlp RlpEncode RlpStream RlpDecode RlpRaw TrieBase Trie TrieSpec TrieOps.

(** ** The encoding of nodes *)

Fixpoint enc_node (n : node) : bytes :=
  match n with
  | nilNode => enc_list []
  | hashNode b | valueNode b => enc_string b
  | shortNode k v _ => enc_list (enc_string k ++ enc_node v)
  | fullNode cs _ => enc_list (concat (map (fun c => if is_nil c then enc_string [] else enc_node c) cs))
  end.

Definition node_nested_ind (P : node -> Prop)
  (Hnil : P nilNode) (Hfull : forall cs f, Forall P cs -> P (fullNode cs f))
  (Hshort : forall k v f, P v -> P (shortNode k v f)) (Hhash : forall h, P (hashNode h)) (Hval : forall v, P (valueNode v)) :
  forall n, P n :=
  fix F n := match n with
  | nilNode => Hnil
  | fullNode cs f => Hfull cs f ((fix G cs := match cs return Forall P cs with
                                   | [] => Forall_nil_2 P
                                   | c :: cs => Forall_cons_2 P c cs (F c) (G cs) end) cs)
  | shortNode k v f => Hshort k v f (F v)
  | hashNode h => Hhash h
  | valueNode v => Hval v
  end.

Lemma enc_iface_node_val n : enc_iface (node_val n) = Some (enc_node n) /\ typed_iface (node_val n).
Proof.
  induction n as [|cs f IH|k v f [IH1 IH2]|h|v] using node_nested_ind; simpl; try done.
  - assert (enc_elems enc_iface (map (fun c => if is_nil c then VBytes [] else node_val c) cs) =
      Some (concat (map (fun c => if is_nil c then enc_string [] else enc_node c) cs)) /\
      foldr (fun v P => typed_iface v /\ P) True (map (fun c => if is_nil c then VBytes [] else node_val c) cs)) as [-> ?].
    { induction IH as [|c cs [Hc1 Hc2] _ [IH1 IH2]]; simpl; [done|]. rewrite IH1. destruct (is_nil c); simpl; [done|]. by rewrite Hc1. }
    done.
  - rewrite IH1. simpl. by rewrite app_nil_r.
Qed.

Lemma rlp_Encode_ok n : zlen (enc_node n) < two64 -> rlp_Encode n = Done (enc_node n).
Proof.
  intros Hl. destruct (enc_iface_node_val n) as [He Ht]. unfold rlp_Encode.
  rewrite EncodeToBytes_spec; simpl; [by rewrite He|done|]. rewrite He. by intros b [= <-].
Qed.

Section Hash.
Variable keccak : bytes -> bytes.

(** ** The encoding of trees *)

(** How a parent refers to a trie whose encoding is [e]. *)
Definition ref_of (t : tree) (e : bytes) : bytes :=
  match t with
  | TNil | TVal _ => e
  | _ => if zlen e <? 32 then e else enc_string (keccak e)
  end.

Fixpoint enc_tree (t : tree) : bytes :=
  match t with
  | TNil => enc_string []
  | TVal v => enc_string v
  | TShort k c => enc_list (enc_string (hexToCompact k) ++ ref_of c (enc_tree c))
  | TFull cs => enc_list (concat (map (fun c => ref_of c (enc_tree c)) cs))
  end.

Definition root_of (t : tree) : bytes := match t with TNil => emptyRoot | _ => keccak (enc_tree t) end.

(** Every node fits the 64-bit lengths of the encoder. *)
Inductive small : tree -> Prop :=
| small_nil : small TNil
| small_val v : zlen v < 2 ^ 32 -> small (TVal v)
| small_short k t : zlen k < 2 ^ 32 -> small t -> small (TShort k t)
| small_full cs : length cs = 17%nat -> (forall i c, cs !! i = Some c -> small c) -> small (TFull cs).

Hypothesis keccak_length : forall b, length (keccak b) = 32%nat.

Lemma puthead_length s l n : 0 <= n < two64 -> zlen (puthead s l n) <= 9.
Proof.
  intros Hn. unfold puthead. destruct (Z.ltb_spec n 56); [simpl; lia|]. simpl.
  pose proof (intsize_putint n ltac:(lia)). destruct (size_class n) as (k & Hk & Hr); [lia|]. rewrite (putint_be k) by done.
  rewrite length_be_bytes. lia.
Qed.

Lemma enc_string_bound b : zlen b < two64 -> zlen (enc_string b) <= zlen b + 9.
Proof.
  intros Hb. assert (zlen (puthead 128 183 (zlen b) ++ b) <= zlen b + 9) as H.
  { rewrite length_app. pose proof (puthead_length 128 183 (zlen b)). lia. }
  unfold enc_string. destruct b as [|x [|y b]]; try done. destruct (_ <? _); [simpl; lia|done].
Qed.

Lemma enc_list_bound b : zlen b < two64 -> zlen (enc_list b) <= zlen b + 9.
Proof. intros Hb. unfold enc_list. rewrite length_app. pose proof (puthead_length 192 247 (zlen b)). lia. Qed.

Lemma decodeNibbles_length k : (length (decodeNibbles k) <= length k)%nat.
Proof.
  assert (forall n k, (length k <= n)%nat -> (length (decodeNibbles k) <= length k)%nat) as H; [|by eapply H].
  clear. induction n as [|n IH]; intros [|a [|b k]] Hk; simpl in *; try lia. pose proof (IH k ltac:(lia)). lia.
Qed.

Lemma hexToCompact_length k : zlen (hexToCompact k) <= zlen k + 1.
Proof.
  unfold hexToCompact. destruct (hasTerm k).
  - assert (length (removelast k) <= length k)%nat by (rewrite List.removelast_firstn_len, List.length_firstn; lia).
    destruct (Nat.odd _); [|simpl; pose proof (decodeNibbles_length (removelast k)); lia].
    destruct (removelast k) as [|h l]; [simpl; lia|]. simpl in *. pose proof (decodeNibbles_length l). lia.
  - destruct (Nat.odd _); [|simpl; pose proof (decodeNibbles_length k); lia].
    destruct k as [|h l]; [simpl; lia|]. simpl. pose proof (decodeNibbles_length l). lia.
Qed.

Lemma enc_string_nil : enc_string [] = [Byte.x80].
Proof. reflexivity. Qed.

Lemma ref_length t : small t -> zlen (enc_tree t) < two64 -> zlen (ref_of t (enc_tree t)) <= 2 ^ 32 + 9.
Proof.
  intros Hs He. destruct Hs as [|v Hv|k t Hk Ht|cs Hl Hc]; unfold ref_of.
  - simpl. lia.
  - cbn [enc_tree]. pose proof (enc_string_bound v ltac:(lia)). lia.
  - destruct (Z.ltb_spec (zlen (enc_tree (TShort k t))) 32); [lia|].
    pose proof (enc_string_bound (keccak (enc_tree (TShort k t)))) as H'. rewrite keccak_length in H'. specialize (H' ltac:(lia)). lia.
  - destruct (Z.ltb_spec (zlen (enc_tree (TFull cs))) 32); [lia|].
    pose proof (enc_string_bound (keccak (enc_tree (TFull cs)))) as H'. rewrite keccak_length in H'. specialize (H' ltac:(lia)). lia.
Qed.

Lemma concat_length_le {A} (f : A -> bytes) l b :
  0 <= b -> (forall x, x ∈ l -> zlen (f x) <= b) -> zlen (concat (map f l)) <= b * zlen l.
Proof.
  intros Hb. induction l as [|x l IH]; intros Hf; simpl; [lia|]. rewrite length_app.
  pose proof (Hf x ltac:(set_solver)). assert (zlen (concat (map f l)) <= b * zlen l) by (apply IH; intros; apply Hf; set_solver). lia.
Qed.

Lemma enc_small t : small t -> zlen (enc_tree t) < 2 ^ 40.
Proof.
  induction 1 as [|v Hv|k t Hk Ht IH|cs Hl Hc IH].
  - simpl. lia.
  - cbn [enc_tree]. pose proof (enc_string_bound v ltac:(lia)). lia.
  - cbn [enc_tree]. pose proof (ref_length t Ht ltac:(lia)). pose proof (hexToCompact_length k).
    pose proof (enc_string_bound (hexToCompact k) ltac:(lia)).
    pose proof (enc_list_bound (enc_string (hexToCompact k) ++ ref_of t (enc_tree t))) as H'. rewrite length_app in H'.
    specialize (H' ltac:(lia)). lia.
  - cbn [enc_tree]. assert (zlen (concat (map (fun c => ref_of c (enc_tree c)) cs)) <= (2 ^ 32 + 9) * zlen cs) as Hcl.
    { apply concat_length_le; [lia|]. intros c [i Hi]%list_elem_of_lookup. apply ref_length; [by eapply Hc|].
      specialize (IH i c Hi). lia. }
    rewrite Hl in Hcl. pose proof (enc_list_bound (concat (map (fun c => ref_of c (enc_tree c)) cs)) ltac:(lia)). lia.
Qed.

End Hash.
