(* ===== verification/TrieDecode.v ===== *)
(** * trie: nodes read back
    The compact form of a key and the encoding of a node lose nothing:
    [decodeNode] on the encoding of a trie in minimal form gives the node with
    the references, the embedded nodes and the keys of the trie, and so does
    [expandNode] on what [Commit] puts in the database. *)

From S2P Require Import Prelude MathUtil Rlp RlpEncode RlpStream RlpDecode RlpRaw TrieBase Trie TrieSpec TrieOps TrieHash.
Import Raw.

(** ** Keys *)

Definition nibble (b : byte) : Prop := (idx b < 16)%nat.

Lemma nibble_range b : nibble b -> 0 <= Z_of_byte b < 16.
Proof. unfold nibble, idx. pose proof (Z_of_byte_range b). lia. Qed.

Lemma nibbles_of_join a b : nibble a -> nibble b -> nibbles_of (byte_of_Z (Z.lor (Z.shiftl (Z_of_byte a) 4) (Z_of_byte b))) = [a; b].
Proof.
  intros Ha%nibble_range Hb%nibble_range.
  assert (Z.lor (Z.shiftl (Z_of_byte a) 4) (Z_of_byte b) = Z_of_byte a * 16 + Z_of_byte b) as ->.
  { rewrite lor_shiftl_small by lia. lia. }
  unfold nibbles_of. rewrite Z_of_byte_of_Z, (Z.mod_small (_ + _)) by lia.
  rewrite (Z.add_comm (_ * _)), Z.div_add, Z.div_small, Z.mod_add, Z.mod_small by lia. rewrite Z.add_0_l.
  by rewrite !byte_of_Z_of_byte.
Qed.

Lemma nibbles_decodeNibbles k : Nat.even (length k) = true -> Forall nibble k -> concat (map nibbles_of (decodeNibbles k)) = k.
Proof.
  assert (forall n k, (length k <= n)%nat -> Nat.even (length k) = true -> Forall nibble k ->
    concat (map nibbles_of (decodeNibbles k)) = k) as H; [|by eapply H].
  clear. induction n as [|n IH]; intros [|a [|b k]] Hl He Hk; simpl in *; try done; try lia.
  apply Forall_cons in Hk as [Ha [Hb Hk]%Forall_cons]. rewrite <-(IH k) at 2 by (done || lia).
  pose proof (nibbles_of_join a b Ha Hb) as H. unfold nibbles_of in H. injection H as -> ->. done.
Qed.

(** A key is a run of nibbles with or without the terminator behind. *)
Lemma nibs_split k : nibs k -> exists k0, Forall nibble k0 /\
  (hasTerm k = false /\ k = k0 \/ hasTerm k = true /\ k = k0 ++ [term]).
Proof.
  induction k as [|x k IH] using rev_ind; intros Hk; [by exists []; split; [|left]|].
  apply nibs_app in Hk as (Hx & Ht & Hk). specialize (Ht ltac:(done)). destruct (IH Hk) as (k0 & Hk0 & [[_ ->]|[Ht' _]]); [|congruence].
  rewrite hasTerm_app by done. apply nibs_cons in Hx as [[Hx|[-> _]] _].
  - exists (k0 ++ [x]). split; [apply Forall_app; split; [done|by constructor]|]. left. split; [|done].
    unfold hasTerm. simpl. apply bool_decide_eq_false. intros ->. rewrite idx_term in Hx. lia.
  - exists k0. split; [done|]. by right.
Qed.

Lemma hasTerm_nibbles k : Forall nibble k -> hasTerm k = false.
Proof.
  intros Hk. unfold hasTerm. destruct (last k) as [b|] eqn:E; [|done]. apply last_Some in E as (l & ->).
  apply Forall_app in Hk as [_ [Hb _]%Forall_cons]. apply bool_decide_eq_false. intros ->. unfold nibble in Hb. rewrite idx_term in Hb. lia.
Qed.

Lemma keybytesToHex_cons b k : keybytesToHex (b :: k) = nibbles_of b ++ keybytesToHex k.
Proof. unfold keybytesToHex. simpl. done. Qed.

(** The first byte of a compact key: two bits and, if the length is odd, a nibble. *)
Lemma compact_flag (t : Z) (b : byte) : t = 0 \/ t = 1 -> nibble b ->
  nibbles_of (byte_of_Z (Z.shiftl t 5)) = [byte_of_Z (2 * t); Byte.x00] /\
  nibbles_of (byte_of_Z (Z.lor (Z.lor (Z.shiftl t 5) (Z.shiftl 1 4)) (Z_of_byte b))) = [byte_of_Z (2 * t + 1); b].
Proof.
  intros Ht Hb. split; [by destruct Ht; subst t|].
  rewrite <-(nibbles_of_join (byte_of_Z (2 * t + 1)) b) by (done || by destruct Ht; subst t; vm_compute; lia).
  do 4 f_equal. by destruct Ht; subst t.
Qed.

Lemma compactToHex_hexToCompact k : nibs k -> compactToHex (hexToCompact k) = k.
Proof.
  intros (k0 & Hk0 & Hk)%nibs_split.
  assert (exists t, (t = 0 \/ t = 1) /\ (if hasTerm k then (1, removelast k) else (0, k)) = (t, k0) /\ k = k0 ++ (if t =? 0 then [] else [term]))
    as (t & Ht & Hsplit & Hkt).
  { destruct Hk as [[-> ->]|[-> ->]].
    - exists 0. split_and!; [by left|done|by rewrite app_nil_r].
    - exists 1. split_and!; [by right|by rewrite removelast_last|done]. }
  unfold hexToCompact. rewrite Hsplit, Hkt. clear Hk Hsplit Hkt. destruct (Nat.odd (length k0)) eqn:Hodd.
  - destruct k0 as [|h k0]; [done|]. apply Forall_cons in Hk0 as [Hh Hk0].
    simpl in Hodd. rewrite Nat.odd_succ in Hodd. unfold compactToHex.
    rewrite keybytesToHex_cons, (proj2 (compact_flag t h Ht Hh)). unfold keybytesToHex.
    rewrite nibbles_decodeNibbles by done. destruct Ht; subst t; simpl; [|done].
    destruct (k0 ++ [term]) eqn:E; [by destruct k0|]. rewrite <-E. by rewrite removelast_last, app_nil_r.
  - rewrite <-Nat.negb_even in Hodd. apply negb_false_iff in Hodd. unfold compactToHex.
    rewrite keybytesToHex_cons, (proj1 (compact_flag t Byte.x00 Ht ltac:(vm_compute; lia))). unfold keybytesToHex.
    rewrite nibbles_decodeNibbles by done. destruct Ht; subst t; simpl; [|done].
    destruct (k0 ++ [term]) eqn:E; [by destruct k0|]. rewrite <-E. by rewrite removelast_last, app_nil_r.
Qed.

Lemma decodeNibbles_nibbles k : decodeNibbles (concat (map nibbles_of k)) = k.
Proof.
  induction k as [|b k IH]; [done|]. simpl. f_equal; [|done]. pose proof (Z_of_byte_range b).
  pose proof (Z.mod_pos_bound (Z_of_byte b) 16 ltac:(lia)). pose proof (Z.div_mod (Z_of_byte b) 16 ltac:(lia)).
  pose proof (Z.div_pos (Z_of_byte b) 16). pose proof (Z.div_lt_upper_bound (Z_of_byte b) 16 16).
  rewrite !Z_of_byte_of_Z, !Z.mod_small, lor_shiftl_small by lia.
  rewrite <-(byte_of_Z_of_byte b) at 3. f_equal. lia.
Qed.

Lemma hexToKeybytes_keybytesToHex k : hexToKeybytes (keybytesToHex k) = Done k.
Proof.
  unfold hexToKeybytes, keybytesToHex. rewrite hasTerm_app by done. simpl. rewrite removelast_last, decodeNibbles_nibbles.
  assert (Nat.odd (length (concat (map nibbles_of k))) = false) as ->; [|done]. by induction k.
Qed.

(** ** Strings and lists as list items *)

Definition str_item (v : bytes) : Kind.t * bytes :=
  match v with [x] => if Z_of_byte x <? 128 then (Kind.Byte, v) else (Kind.String, v) | _ => (Kind.String, v) end.

Lemma str_item_ok v : raw_ok (str_item v).1 (str_item v).2 /\ enc_raw (str_item v).1 (str_item v).2 = enc_string v /\
  (str_item v).2 = v /\ (str_item v).1 <> Kind.List.
Proof.
  destruct v as [|x [|y v]]; [done| |done]. cbn [str_item]. destruct (Z.ltb_spec (Z_of_byte x) 128); cbn [fst snd]; split_and!; try done. by exists x.
Qed.

Lemma Split_string v rest : zlen (enc_string v ++ rest) < two63 -> Split (enc_string v ++ rest) = inr ((str_item v).1, v, rest).
Proof.
  destruct (str_item_ok v) as (Ho & He & Hv & _). rewrite <-He. intros Hl. rewrite Split_complete by done. by rewrite Hv.
Qed.

Lemma SplitString_enc v rest : zlen (enc_string v ++ rest) < two63 -> SplitString (enc_string v ++ rest) = inr (v, rest).
Proof.
  intros Hl. unfold SplitString. rewrite Split_string by done. pose proof (str_item_ok v) as (_ & _ & _ & Hk).
  by destruct (str_item v) as [[] ?].
Qed.

Lemma Split_list c rest : zlen (enc_list c ++ rest) < two63 -> Split (enc_list c ++ rest) = inr (Kind.List, c, rest).
Proof. intros Hl. by apply (Split_complete Kind.List c rest). Qed.

(** ** Nodes *)

Section Decoded.
Variable keccak : bytes -> bytes.
Hypothesis keccak_length : forall b, length (keccak b) = 32%nat.
Abbreviation enc_tree := (enc_tree keccak).
Abbreviation ref_of := (ref_of keccak).

Definition is_node (t : tree) : bool := is_short t || is_full t.

(** A node as the database keeps it: [raw], and as it is read: [load]; a node
    of 32 bytes or more is referred to by its hash. *)
Definition raw_ref (t : tree) (r : rawnode) : rawnode :=
  if is_node t && negb (zlen (enc_tree t) <? 32) then rawHash (keccak (enc_tree t)) else r.

Fixpoint raw (t : tree) : rawnode :=
  match t with
  | TNil => rawNil
  | TVal v => rawValue v
  | TShort k c => rawShortNode (hexToCompact k) (raw_ref c (raw c))
  | TFull cs => rawFullNode (map (fun c => raw_ref c (raw c)) cs)
  end.

Definition load_ref (t : tree) (n : node) : node :=
  if is_node t && negb (zlen (enc_tree t) <? 32) then hashNode (keccak (enc_tree t)) else n.

Fixpoint load (h : option bytes) (t : tree) : node :=
  match t with
  | TNil => nilNode
  | TVal v => valueNode v
  | TShort k c => shortNode k (load_ref c (load None c)) (mkFlag h false)
  | TFull cs => fullNode (map (fun c => load_ref c (load None c)) cs) (mkFlag h false)
  end.

Lemma ref_of_node t : ref_of t (enc_tree t) = if is_node t && negb (zlen (enc_tree t) <? 32) then enc_string (keccak (enc_tree t)) else enc_tree t.
Proof. unfold TrieHash.ref_of, is_node. destruct t; simpl; try done; by destruct (_ <? 32). Qed.

Lemma expand_raw fin t h : wf fin t -> expandNode h (raw t) = load h t.
Proof.
  intros Hw. revert h. induction Hw as [| |k t Hk Hn Hw IH Ht Hs|cs Hl Hc IH Htwo]; intros h; simpl; try done.
  - rewrite compactToHex_hexToCompact by done. f_equal. unfold raw_ref, load_ref. by destruct (_ && _).
  - f_equal. rewrite map_map. apply map_ext_in. intros c Hin. apply list_elem_of_In, list_elem_of_lookup in Hin as [i Hi].
    unfold raw_ref, load_ref. destruct (_ && _); [done|]. by eapply IH.
Qed.

(** The encoding only depends on what is kept. *)
Lemma enc_simplify n fin t : wf fin t -> t <> TNil -> simplifyNode n = raw t -> enc_node n = enc_tree t.
Proof.
  intros Hw. revert n. induction Hw as [|v|k t Hk Hn Hw IH Ht Hs|cs Hl Hc IH Htwo]; intros n Hne Hn'; try done.
  - destruct n; try done. by injection Hn' as ->.
  - destruct n; try done. injection Hn' as -> Hv. cbn [enc_node TrieHash.enc_tree]. do 2 f_equal. rewrite ref_of_node.
    unfold raw_ref in Hv. destruct (_ && _); [|by apply IH]. destruct n; try done. by injection Hv as ->.
  - destruct n as [|ns f| | |]; try done. injection Hn' as Hv. cbn [enc_node TrieHash.enc_tree]. f_equal.
    clear Hl Htwo Hne Hc. revert ns Hv. induction cs as [|c cs IHcs]; intros [|n ns] Hv; try done. simpl.
    injection Hv as Hc Hv. f_equal; [|by apply IHcs; [intros i; apply (IH (S i))|]].
    rewrite ref_of_node. unfold raw_ref in Hc. destruct (_ && _); [destruct n; try done; by injection Hc as ->|].
    destruct (decide (c = TNil)) as [->|Hnil]; [by destruct n|]. specialize (IH 0%nat c eq_refl n Hnil Hc).
    destruct n; try done. by destruct c.
Qed.

(** What the encoding of a node is the list of. *)
Definition content (t : tree) : bytes :=
  match t with
  | TShort k c => enc_string (hexToCompact k) ++ ref_of c (enc_tree c)
  | TFull cs => concat (map (fun c => ref_of c (enc_tree c)) cs)
  | _ => []
  end.

Lemma enc_content t : is_node t = true -> enc_tree t = enc_list (content t).
Proof. by destruct t. Qed.

Definition ref_item (t : tree) : Kind.t * bytes :=
  match t with
  | TNil => (Kind.String, [])
  | TVal v => str_item v
  | _ => if zlen (enc_tree t) <? 32 then (Kind.List, content t) else (Kind.String, keccak (enc_tree t))
  end.

Lemma keccak_item b : raw_ok Kind.String (keccak b) /\ enc_raw Kind.String (keccak b) = enc_string (keccak b).
Proof. split; [|done]. pose proof (keccak_length b). destruct (keccak b) as [|x [|y k]]; done. Qed.

Lemma ref_item_ok t : raw_ok (ref_item t).1 (ref_item t).2 /\ enc_raw (ref_item t).1 (ref_item t).2 = ref_of t (enc_tree t).
Proof.
  rewrite ref_of_node. destruct t as [|v|k t|cs]; try done.
  - destruct (str_item_ok v) as (? & ? & _). done.
  - unfold ref_item. destruct (_ <? 32); [done|apply keccak_item].
  - unfold ref_item. destruct (_ <? 32); [done|apply keccak_item].
Qed.

Lemma enc_list_longer c : (length c < length (enc_list c))%nat.
Proof. unfold enc_list. rewrite length_app. unfold puthead. destruct (_ <? 56); simpl; lia. Qed.

Lemma concat_elem_length {A} (f : A -> bytes) l x : x ∈ l -> (length (f x) <= length (concat (map f l)))%nat.
Proof.
  induction l as [|y l IH]; intros Hx; [set_solver|]. simpl. rewrite length_app.
  apply elem_of_cons in Hx as [->|Hx]; [lia|]. specialize (IH Hx). lia.
Qed.

(** An embedded node is shorter than its parent. *)
Definition embedded (t : tree) : bool := is_node t && (zlen (enc_tree t) <? 32).

Lemma ref_of_embedded t : embedded t = true -> ref_of t (enc_tree t) = enc_tree t.
Proof. rewrite ref_of_node. unfold embedded. intros [-> ->]%andb_true_iff. done. Qed.

Section Fuel.
Variable fuel : nat.

Definition decodes (t : tree) : Prop := forall rest, zlen (enc_tree t ++ rest) < 2 ^ 62 ->
  decodeNode fuel None (enc_tree t ++ rest) = Done (inr (load None t)).

Lemma decodeRef_enc t rest :
  wf false t -> (embedded t = true -> decodes t) -> zlen (ref_of t (enc_tree t) ++ rest) < 2 ^ 62 ->
  decodeRef (decodeNode fuel) (ref_of t (enc_tree t) ++ rest) = Done (inr (load_ref t (load None t), rest)).
Proof.
  intros Hw Hd Hl. destruct (decide (t = TNil)) as [->|Hne].
  { change (ref_of TNil _) with (enc_string []) in *. unfold decodeRef. by rewrite Split_string by lia. }
  assert (is_node t = true) as Hn by (inversion Hw; by subst).
  revert Hd. unfold load_ref, embedded. rewrite ref_of_node, Hn in *. simpl in *. intros Hd.
  destruct (Z.ltb_spec (zlen (enc_tree t)) 32) as [Hs|Hs]; simpl in *.
  - unfold decodeRef. rewrite enc_content, Split_list by (done || rewrite <-enc_content by done; lia).
    rewrite <-enc_content by done. rewrite length_app. unfold hashLen. rewrite (proj2 (Z.ltb_ge _ _)) by lia.
    rewrite Hd by done. done.
  - unfold decodeRef. rewrite Split_string by lia. pose proof (keccak_length (enc_tree t)) as Hk.
    assert ((str_item (keccak (enc_tree t))).1 = Kind.String) as -> by (by destruct (keccak (enc_tree t)) as [|x [|y k]]).
    by rewrite Hk.
Qed.

Lemma decodeRefs_enc ts rest :
  Forall (fun t => wf false t /\ (embedded t = true -> decodes t)) ts ->
  zlen (concat (map (fun t => ref_of t (enc_tree t)) ts) ++ rest) < 2 ^ 62 ->
  decodeRefs (decodeNode fuel) (length ts) (concat (map (fun t => ref_of t (enc_tree t)) ts) ++ rest) =
  Done (inr (map (fun t => load_ref t (load None t)) ts, rest)).
Proof.
  induction 1 as [|t ts [Hw Hd] _ IH]; intros Hl; [done|]. simpl in *. rewrite <-app_assoc in *.
  rewrite decodeRef_enc by done. simpl. rewrite IH by (rewrite length_app in Hl; lia). done.
Qed.

Lemma decodeShort_enc h k t :
  wf false (TShort k t) -> (embedded t = true -> decodes t) -> zlen (content (TShort k t)) < 2 ^ 62 ->
  decodeShort (decodeNode fuel) h (content (TShort k t)) = Done (inr (load h (TShort k t))).
Proof.
  intros Hw Hd Hl. inversion Hw; subst. cbn [content load] in *. unfold decodeShort. rewrite SplitString_enc by lia.
  rewrite compactToHex_hexToCompact by done. destruct (hasTerm k) eqn:Ht.
  - destruct (wf_true_inv t) as [|(v & -> & Hv)]; try done. simpl. rewrite <-(app_nil_r (enc_string v)), SplitString_enc; [done|].
    rewrite app_nil_r. rewrite length_app in Hl. simpl in Hl. lia.
  - rewrite <-(app_nil_r (ref_of t _)), decodeRef_enc; try done. rewrite app_nil_r. rewrite length_app in Hl. lia.
Qed.

Lemma decodeFull_enc h cs :
  wf false (TFull cs) -> (forall c, c ∈ cs -> embedded c = true -> decodes c) -> zlen (content (TFull cs)) < 2 ^ 62 ->
  decodeFull (decodeNode fuel) h (content (TFull cs)) = Done (inr (load h (TFull cs))).
Proof.
  intros Hw Hd Hl. inversion Hw as [| | |? Hlen Hc _]; subst. cbn [content load] in *. unfold decodeFull.
  destruct (last cs) as [v|] eqn:E; [|by apply last_None in E as ->]. apply last_Some in E as (ts & ->).
  rewrite length_app in Hlen. simpl in Hlen. assert (length ts = 16%nat) as Hts by lia. rewrite map_app, concat_app in *. cbn [map concat] in *.
  rewrite app_nil_r in *. rewrite <-Hts, decodeRefs_enc; [simpl| |done].
  - specialize (Hc 16%nat v). rewrite lookup_app_r, Hts in Hc by lia. specialize (Hc eq_refl). simpl in Hc.
    assert (exists b, ref_of v (enc_tree v) = enc_string b /\ load_ref v (load None v) = if 0 <? zlen b then valueNode b else nilNode)
      as (b & Hb & Hv).
    { destruct (wf_true_inv v Hc) as [->|(b & -> & Hb)]; [by exists []|]. exists b. split; [done|]. by destruct b. }
    rewrite map_app. simpl. rewrite Hv, Hb in *. rewrite length_app in Hl.
    rewrite <-(app_nil_r (enc_string b)), SplitString_enc; [done|]. rewrite app_nil_r. lia.
  - apply Forall_forall. intros c Hin. split; [|by apply Hd; set_solver].
    apply list_elem_of_lookup in Hin as [i Hi]. pose proof (lookup_lt_Some _ _ _ Hi).
    specialize (Hc i c). rewrite lookup_app_l, bool_decide_eq_false_2 in Hc by lia. by apply Hc.
Qed.
End Fuel.

Lemma decodeNode_short fuel h k t rest :
  wf false (TShort k t) -> (embedded t = true -> decodes fuel t) -> zlen (enc_tree (TShort k t) ++ rest) < 2 ^ 62 ->
  decodeNode (S fuel) h (enc_tree (TShort k t) ++ rest) = Done (inr (load h (TShort k t))).
Proof.
  intros Hw Hd Hl. rewrite enc_content in * by done. pose proof (enc_list_longer (content (TShort k t))). rewrite length_app in Hl.
  cbn [decodeNode]. rewrite length_app, (proj2 (Z.eqb_neq _ 0)) by lia. unfold SplitList. rewrite Split_list by (rewrite length_app; lia).
  assert (CountValues (content (TShort k t)) = Done (inr 2)) as ->.
  { pose proof (CountValues_exact [str_item (hexToCompact k); ref_item t]) as Hc. simpl in Hc.
    destruct (str_item_ok (hexToCompact k)) as (Ho & He & _), (ref_item_ok t) as (Ho' & He'). rewrite app_nil_r, He, He' in Hc.
    apply Hc; [by repeat constructor|]. cbn [content] in *. lia. }
  simpl. apply decodeShort_enc; [done..|lia].
Qed.

Lemma decodeNode_full fuel h cs rest :
  wf false (TFull cs) -> (forall c, c ∈ cs -> embedded c = true -> decodes fuel c) -> zlen (enc_tree (TFull cs) ++ rest) < 2 ^ 62 ->
  decodeNode (S fuel) h (enc_tree (TFull cs) ++ rest) = Done (inr (load h (TFull cs))).
Proof.
  intros Hw Hd Hl. rewrite enc_content in * by done. pose proof (enc_list_longer (content (TFull cs))). rewrite length_app in Hl.
  cbn [decodeNode]. rewrite length_app, (proj2 (Z.eqb_neq _ 0)) by lia. unfold SplitList. rewrite Split_list by (rewrite length_app; lia).
  assert (CountValues (content (TFull cs)) = Done (inr 17)) as ->.
  { pose proof (CountValues_exact (map ref_item cs)) as Hc. rewrite map_map, length_map in Hc.
    rewrite (map_ext _ (fun c => ref_of c (enc_tree c))) in Hc by (intros c; apply ref_item_ok).
    assert (length cs = 17%nat) as Hlen by (by inversion Hw). rewrite Hlen in Hc. apply Hc; [|cbn [content] in *; lia].
    apply Forall_forall. intros x (c & -> & _)%list_elem_of_fmap. apply ref_item_ok. }
  simpl. apply decodeFull_enc; [done..|lia].
Qed.

Lemma decodeNode_enc fuel : forall t h rest,
  wf false t -> is_node t = true -> (length (enc_tree t) <= fuel)%nat -> zlen (enc_tree t ++ rest) < 2 ^ 62 ->
  decodeNode fuel h (enc_tree t ++ rest) = Done (inr (load h t)).
Proof.
  induction fuel as [|fuel IH]; intros t h rest Hw Hn Hf Hl;
    rewrite enc_content in Hf by done; pose proof (enc_list_longer (content t)); [lia|].
  assert (forall c, wf false c -> embedded c = true -> (length (ref_of c (enc_tree c)) <= length (content t))%nat -> decodes fuel c) as Hd.
  { intros c Hwc Hc Hlc rest' Hl'. rewrite ref_of_embedded in Hlc by done. unfold embedded in Hc. apply andb_true_iff in Hc as [Hc _].
    apply IH; [done..|lia|done]. }
  destruct t as [| |k t|cs]; try done.
  - apply decodeNode_short; [done| |done]. intros He. apply Hd; [|done|cbn [content]; rewrite length_app; lia].
    inversion Hw; subst. destruct (hasTerm k); [|done]. destruct (wf_true_inv t) as [->|(v & -> & _)]; done.
  - apply decodeNode_full; [done| |done]. intros c Hc He. apply Hd; [|done|by apply (concat_elem_length (fun c => ref_of c (enc_tree c)))].
    apply list_elem_of_lookup in Hc as [i Hi]. inversion Hw as [| | |? _ Hcs _]; subst. specialize (Hcs i c Hi).
    destruct (bool_decide _); [|done]. destruct (wf_true_inv c Hcs) as [->|(v & -> & _)]; done.
Qed.

Lemma mustDecodeNode_enc t h : wf false t -> is_node t = true -> zlen (enc_tree t) < 2 ^ 62 -> mustDecodeNode h (enc_tree t) = Done (load h t).
Proof.
  intros Hw Hn Hl. unfold mustDecodeNode. rewrite <-(app_nil_r (enc_tree t)) at 2.
  by rewrite decodeNode_enc by (done || rewrite ?app_nil_r; lia).
Qed.
End Decoded.
