(* ===== verification/TrieCommit.v ===== *)
(** * trie: hashing and committing
    The hasher works on nodes with cached hashes that are partly in the
    database.  It is shown to compute the hash of the encoding of the trie
    ([hash_ok]), and in commit mode to leave in the database what is needed to
    read the whole trie back from its root hash. *)

From S2P Require Import Prelude MathUtil Rlp RlpEncode RlpStream RlpDecode RlpRaw TrieBase Trie TrieSpec TrieOps TrieHash TrieDecode.
Import Raw.

Section Commit.
Variable keccak : bytes -> bytes.
Hypothesis keccak_length : forall b, length (keccak b) = 32%nat.
Abbreviation enc_tree := (enc_tree keccak).
Abbreviation load := (load keccak).
Abbreviation raw := (raw keccak).

(** The encodings that are hashed; in commit mode there is no collision among them. *)
Variable K : bytes -> Prop.

(** ** What the database knows *)

Record hashable (t : tree) : Prop := {
  hashable_wf : wf false t; hashable_node : is_node t = true; hashable_K : K (enc_tree t); hashable_small : zlen (enc_tree t) < 2 ^ 62 }.

Definition knows (db : Database) (t : tree) : Prop :=
  hashable t /\ db_node db (keccak (enc_tree t)) = Done (Some (load (Some (keccak (enc_tree t))) t)).

(** A node is referred to by its hash at the root, and if it is not small. *)
Definition hashed (r : bool) (t : tree) : bool := r || (32 <=? zlen (enc_tree t)).

(** All of a trie that is referred to by hash is in the database. *)
Inductive stored (db : Database) : bool -> tree -> Prop :=
| stored_nil r : stored db r TNil
| stored_val r v : stored db r (TVal v)
| stored_short r k t :
    stored db false t -> (hashed r (TShort k t) = true -> knows db (TShort k t)) -> stored db r (TShort k t)
| stored_full r cs :
    (forall i c, cs !! i = Some c -> stored db false c) -> (hashed r (TFull cs) = true -> knows db (TFull cs)) -> stored db r (TFull cs).

Definition db_le (db db' : Database) : Prop := forall t, knows db t -> knows db' t.

#[global] Instance db_le_preorder : PreOrder db_le.
Proof. split; [by intros db t|intros a b c H1 H2 t Ht; by apply H2, H1]. Qed.

Lemma stored_mono db db' r t : db_le db db' -> stored db r t -> stored db' r t.
Proof. intros Hle. induction 1; constructor; eauto. Qed.

Lemma stored_knows db r t : stored db r t -> is_node t = true -> hashed r t = true -> knows db t.
Proof. destruct 1; try done; eauto. Qed.

(** ** Cached hashes *)

(** A cached hash is right; a clean node is in the database, unless it is so
    small that it is part of its parent. *)
Definition flag_ok (db : Database) (r : bool) (f : nodeFlag) (t : tree) : Prop :=
  match flag_hash f with
  | Some h => h = keccak (enc_tree t) /\ hashed r t = true /\ (flag_dirty f = false -> stored db r t)
  | None => flag_dirty f = false -> hashed r t = false
  end.

Definition ref_ok (db : Database) (r : bool) (h : bytes) (t : tree) : Prop :=
  h = keccak (enc_tree t) /\ hashed r t = true /\ stored db r t.

Definition hrep (db : Database) : bool -> node -> tree -> Prop := rep db (flag_ok db) (ref_ok db).

Lemma flag_ok_new db r t : flag_ok db r newFlag t.
Proof. done. Qed.

Lemma toHash_id h : length h = 32%nat -> toHash h = h.
Proof. intros Hl. unfold toHash, BytesToHash. rewrite Hl. change (32 - HashLength)%nat with 0%nat. rewrite drop_0, <-Hl. apply be_bytes_SetBytes. Qed.

Lemma toHash_keccak b : toHash (keccak b) = keccak b.
Proof. by apply toHash_id. Qed.

Lemma hashed_spec r t : hashed r t = r || negb (zlen (enc_tree t) <? 32).
Proof. unfold hashed. by rewrite Z.leb_antisym. Qed.

Lemma load_ref_hashed t n : is_node t = true -> load_ref keccak t n = if hashed false t then hashNode (keccak (enc_tree t)) else n.
Proof. intros Ht. unfold load_ref. by rewrite Ht, hashed_spec. Qed.

Lemma is_stored_load h t : is_stored (load h t) = is_node t.
Proof. by destruct t. Qed.

(** ** A stored trie, read back *)

Lemma hashNode_rep db r t h :
  stored db r t -> is_node t = true -> hashed r t = true -> h = keccak (enc_tree t) -> hrep db r (load (Some h) t) t ->
  hrep db r (hashNode h) t.
Proof.
  intros Hs Hn Hh -> Hr. apply rep_hash with (n := load (Some (keccak (enc_tree t))) t); [|by rewrite is_stored_load|done|done].
  rewrite toHash_keccak. by apply (stored_knows db r).
Qed.

Definition load_hash (r : bool) (t : tree) : option bytes := if hashed r t then Some (keccak (enc_tree t)) else None.

Lemma load_flag_ok db r t : stored db r t -> flag_ok db r (mkFlag (load_hash r t) false) t.
Proof. intros Hs. unfold flag_ok, load_hash. simpl. by destruct (hashed r t). Qed.

Lemma load_ref_rep db fin t :
  wf fin t -> stored db false t -> (is_node t = true -> hrep db false (load (load_hash false t) t) t) ->
  hrep db false (load_ref keccak t (load None t)) t.
Proof.
  intros Hw Hs Hl. destruct (is_node t) eqn:Hn.
  - specialize (Hl eq_refl). unfold load_hash in Hl. rewrite load_ref_hashed by done.
    destruct (hashed false t) eqn:Hh; [by apply hashNode_rep|done].
  - unfold load_ref. rewrite Hn. simpl. destruct t; try done; constructor.
Qed.

Lemma load_rep db r t : stored db r t -> forall fin, wf fin t -> is_node t = true -> hrep db r (load (load_hash r t) t) t.
Proof.
  induction 1 as [| |r k t Hs IH Hk|r cs Hs IH Hk]; intros fin Hw Hn; try done; inversion Hw as [| |? ? ? ? Hwt|? Hl Hwc]; subst.
  - cbn [TrieDecode.load]. apply rep_short; [by eapply load_ref_rep; eauto|]. apply load_flag_ok. by constructor.
  - cbn [TrieDecode.load]. apply rep_full; [by rewrite length_map| |apply load_flag_ok; by constructor].
    intros i n t Hi Ht. apply list_lookup_fmap_Some in Hi as (c & -> & Hc). simplify_eq. eapply load_ref_rep; eauto.
Qed.

Lemma stored_ref_rep db fin t : wf fin t -> stored db false t -> hrep db false (load_ref keccak t (load None t)) t.
Proof. intros Hw Hs. eapply load_ref_rep; [done..|]. by eapply load_rep. Qed.

Lemma stored_root_rep db r t :
  wf false t -> stored db r t -> is_node t = true -> hashed r t = true ->
  hrep db r (load (Some (keccak (enc_tree t))) t) t /\ hrep db r (hashNode (keccak (enc_tree t))) t.
Proof.
  intros Hw Hs Hn Hh. pose proof (load_rep db r t Hs false Hw Hn) as Hr. unfold load_hash in Hr. rewrite Hh in Hr.
  split; [done|]. by apply hashNode_rep.
Qed.

Lemma flag_ok_mono db db' r f t : db_le db db' -> flag_ok db r f t -> flag_ok db' r f t.
Proof.
  intros Hle. unfold flag_ok. destruct (flag_hash f); [|done]. intros (? & ? & H). split_and!; [done..|]. intros Hd.
  by eapply stored_mono; eauto.
Qed.

Lemma hrep_mono db db' r n t fin : db_le db db' -> hrep db r n t -> wf fin t -> hrep db' r n t.
Proof.
  intros Hle Hr. revert fin.
  induction Hr as [| |r k n t f Hr IH Hf|r ns ts f Hl Hr IH Hf|r h n t Hdb Hst Hr IH (-> & Hh & Hs)]; intros fin Hw; try by constructor.
  - inversion Hw; subst. apply rep_short; [by eapply IH|by eapply flag_ok_mono].
  - inversion Hw as [| | |? ? Hc]; subst. apply rep_full; [done| |by eapply flag_ok_mono]. intros; eapply IH; eauto.
  - assert (is_node t = true) as Hn by (by eapply rep_stored).
    apply hashNode_rep; try done; [by eapply stored_mono|].
    pose proof (load_rep db' r t (stored_mono _ _ _ _ Hle Hs) fin Hw Hn) as H. unfold load_hash in H. by rewrite Hh in H.
Qed.

(** ** Storing a node *)

(** What the database has for an encoding is the node. *)
Definition db_ok (db : Database) : Prop := forall t, hashable t ->
  db_node db (keccak (enc_tree t)) = Done None \/ knows db t.

(** References below [t] are to encodings in [K]. *)
Inductive inK : bool -> tree -> Prop :=
| inK_nil r : inK r TNil
| inK_val r v : inK r (TVal v)
| inK_short r k t : inK false t -> (hashed r (TShort k t) = true -> K (enc_tree (TShort k t))) -> inK r (TShort k t)
| inK_full r cs :
    (forall i c, cs !! i = Some c -> inK false c) -> (hashed r (TFull cs) = true -> K (enc_tree (TFull cs))) -> inK r (TFull cs).

Lemma inK_enc r t : inK r t -> is_node t = true -> hashed r t = true -> K (enc_tree t).
Proof. destruct 1; try done; eauto. Qed.

Lemma load_enc t t' h : hashable t -> hashable t' -> enc_tree t = enc_tree t' -> load h t = load h t'.
Proof.
  intros [Hw Hn _ Hl] [Hw' Hn' _ Hl'] He. pose proof (mustDecodeNode_enc keccak keccak_length t h Hw Hn Hl) as H1.
  pose proof (mustDecodeNode_enc keccak keccak_length t' h Hw' Hn' Hl') as H2. congruence.
Qed.

Lemma db_insert_node db h n h' :
  db_node (db_insert db h n) h' =
  if decide (h' = h) then match dirties db !! h with Some m => let! m := obj h m in Done (Some m) | None => let! n := obj h n in Done (Some n) end
  else db_node db h'.
Proof.
  unfold db_insert, db_node. case_decide as Hh; [subst h'|].
  - destruct (dirties db !! h) eqn:E; [by rewrite E|]. simpl. by rewrite lookup_insert_eq.
  - destruct (dirties db !! h) eqn:E; [done|]. simpl. by rewrite lookup_insert_ne.
Qed.

Lemma obj_raw h t : wf false t -> is_node t = true -> obj h (raw t) = Done (load (Some h) t).
Proof. intros Hw Hn. rewrite <-(expand_raw keccak false t (Some h)) by done. by destruct t. Qed.

Lemma insert_knows db t : db_ok db -> hashable t -> knows (db_insert db (keccak (enc_tree t)) (raw t)) t.
Proof.
  intros Hdb Ht. split; [done|]. rewrite db_insert_node, decide_True by done.
  destruct (dirties db !! keccak (enc_tree t)) as [m|] eqn:E; [|by rewrite obj_raw by apply Ht].
  destruct (Hdb t Ht) as [H|[_ H]]; unfold db_node in H; rewrite E in H; [|done]. by destruct (obj _ m).
Qed.

(** Storing a node changes nothing else, as hashes do not collide. *)
Lemma db_insert_ok db t :
  (forall a b, K a -> K b -> keccak a = keccak b -> a = b) ->
  db_ok db -> hashable t -> let db' := db_insert db (keccak (enc_tree t)) (raw t) in db_ok db' /\ db_le db db' /\ knows db' t.
Proof.
  intros K_inj Hdb Ht db'. pose proof (insert_knows db t Hdb Ht) as Hk. fold db' in Hk.
  assert (forall t', hashable t' -> db_node db' (keccak (enc_tree t')) = db_node db (keccak (enc_tree t')) \/ knows db' t') as Hother.
  { intros t' Ht'. destruct (decide (keccak (enc_tree t') = keccak (enc_tree t))) as [He|Hne].
    - right. split; [done|]. apply K_inj in He; [|apply Ht'|apply Ht]. rewrite He, (load_enc t' t) by done. apply Hk.
    - left. unfold db'. by rewrite db_insert_node, decide_False. }
  split_and!; [intros t' Ht'..|done].
  - destruct (Hother t' Ht') as [H|H]; [|by right]. destruct (Hdb t' Ht') as [H'|[_ H']]; [left|right; split; [done|]]; congruence.
  - destruct Ht' as [Ht' Hn]. destruct (Hother t' Ht') as [H|H]; [|done]. split; [done|congruence].
Qed.

(** ** The hasher *)

Section Hasher.
Variable commit : bool.
(** The nodes at hand refer to [db0]; in commit mode they are also written. *)
Variable db0 : Database.
Hypothesis K_inj : commit = true -> forall a b, K a -> K b -> keccak a = keccak b -> a = b.

(** The database that goes with the result. *)
Definition out (db : Database) : Database := if commit then db else db0.
Definition pre (db : Database) : Prop := db_le db0 (out db) /\ (commit = true -> db_ok db).

(** The result of a step on [db] that leaves [db']. *)
Definition ext (db db' : Database) : Prop := pre db' /\ db_le (out db) (out db') /\ (commit = false -> db' = db).

Lemma ext_refl db : pre db -> ext db db.
Proof. done. Qed.

Lemma ext_trans db db' db'' : ext db db' -> ext db' db'' -> ext db db''.
Proof.
  intros (_ & H1 & E1) (Hp & H2 & E2). split_and!; [done|by etrans|]. intros Hc. by rewrite E2, E1.
Qed.

(** What [hash] returns as the reference to a node that stands for [t]. *)
Definition ref_node (r : bool) (h : node) (t : tree) : Prop :=
  if hashed r t then h = hashNode (keccak (enc_tree t)) else simplifyNode h = raw t.

Lemma ref_node_raw h t : is_node t = true -> ref_node false h t -> simplifyNode h = raw_ref keccak t (raw t).
Proof. unfold ref_node, raw_ref. intros ->. rewrite hashed_spec. simpl. destruct (_ <? 32); [done|by intros ->]. Qed.

(** Everything needed of a trie before it is hashed. *)
Record hashing (r : bool) (t : tree) : Prop := {
  hashing_wf : wf false t; hashing_node : is_node t = true; hashing_small : small t; hashing_K : commit = true -> inK r t }.

Lemma hashing_hashable r t : hashing r t -> hashed r t = true -> commit = true -> hashable t.
Proof.
  intros [Hw Hn Hs HK] Hh Hc. split; try done; [by eapply inK_enc; eauto|]. pose proof (enc_small keccak keccak_length t Hs). lia.
Qed.

Lemma insert_ext r t db :
  hashing r t -> hashed r t = true -> pre db ->
  let db' := if commit then db_insert db (keccak (enc_tree t)) (raw t) else db in
  ext db db' /\ (commit = true -> knows db' t).
Proof.
  intros Ht Hh [Hle Hok]. unfold ext, pre, out in *. destruct (Bool.bool_dec commit true) as [Hc|Hc%not_true_is_false]; rewrite Hc in *; [|done].
  destruct (db_insert_ok db t (K_inj eq_refl) (Hok eq_refl)) as (H1 & H2 & H3); [by eapply hashing_hashable|].
  split_and!; try done. by etrans.
Qed.

Lemma store_eq cn r t db :
  hashing r t -> simplifyNode cn = raw t -> (forall h, fst (cache cn) = Some h -> h = keccak (enc_tree t)) ->
  store keccak commit cn db r = if hashed r t
    then Done (hashNode (keccak (enc_tree t)), if commit then db_insert db (keccak (enc_tree t)) (raw t) else db) else Done (cn, db).
Proof.
  intros [Hw Hn Hs _] Hcn Hcache. assert (t <> TNil) as Hnil by (by intros ->).
  pose proof (enc_simplify keccak cn false t Hw Hnil Hcn) as He. pose proof (enc_small keccak keccak_length t Hs).
  assert (store keccak commit cn db r =
    let! tmp := rlp_Encode cn in
    if (zlen tmp <? 32) && negb r then Done (cn, db)
    else
      let hash := match fst (cache cn) with Some h => h | None => keccak tmp end in
      Done (hashNode hash, if commit then db_insert db (toHash hash) (simplifyNode cn) else db)) as ->.
  { destruct t; try done; by destruct cn. }
  rewrite rlp_Encode_ok, He, hashed_spec by (rewrite He; lia). simpl.
  assert (match fst (cache cn) with Some h => h | None => keccak (enc_tree t) end = keccak (enc_tree t)) as ->.
  { destruct (fst (cache cn)) eqn:E; [by apply Hcache|done]. }
  rewrite toHash_keccak, Hcn. by destruct (_ <? 32), r.
Qed.

Lemma store_ok cn r t db :
  hashing r t -> simplifyNode cn = raw t -> (forall h, fst (cache cn) = Some h -> h = keccak (enc_tree t)) -> pre db ->
  exists h db', store keccak commit cn db r = Done (h, db') /\ ref_node r h t /\ ext db db' /\
    (commit = true -> hashed r t = true -> knows db' t).
Proof.
  intros Ht Hcn Hcache Hpre. rewrite (store_eq cn r t) by done. unfold ref_node. destruct (hashed r t) eqn:Hh; [|by exists cn, db; split_and!; [..|apply ext_refl|]].
  destruct (insert_ext r t db Ht Hh Hpre) as [? ?]. eexists _, _. split; [done|]. by auto.
Qed.

(** The cached hash of the node that is kept. *)
Lemma with_hash_flag r f t h db :
  flag_ok db0 r f t -> (commit = false -> flag_hash f = None) -> is_node t = true -> ref_node r h t -> (commit = true -> stored (out db) r t) ->
  flag_ok (out db) r (mkFlag (match h with hashNode h => Some h | _ => None end) (if commit then false else flag_dirty f)) t.
Proof.
  intros Hf Hnone Hn Hr Hs. unfold ref_node in Hr. destruct (hashed r t) eqn:Hh.
  - subst h. unfold flag_ok. simpl. split_and!; [done..|]. destruct (Bool.bool_dec commit true) as [Hc|Hc%not_true_is_false]; rewrite Hc in *; [by auto|].
    intros Hd. unfold flag_ok in Hf. rewrite Hnone in Hf by done. specialize (Hf Hd). congruence.
  - assert (match h with hashNode h => Some h | _ => None end = None) as -> by (destruct t; try done; by destruct h). by intros _.
Qed.

Definition hash_post (r : bool) (t : tree) (db : Database) (res : outcome (node * node * Database)) : Prop :=
  exists h c db', res = Done (h, c, db') /\ ref_node r h t /\ ext db db' /\ hrep (out db') r c t /\ (commit = true -> stored db' r t).

Definition hash_good (n : node) : Prop := forall r t db,
  hrep db0 r n t -> hashing r t -> pre db -> hash_post r t db (hash keccak commit n r db).

(** [hash] on a stored node: the cached hash, or the walk below it. *)
Definition after_walk (r : bool) (res : outcome (node * node * Database)) : outcome (node * node * Database) :=
  let! '(collapsed, cached, db) := res in
  let! '(hashed, db) := store keccak commit collapsed db r in
  Done (hashed, with_hash commit cached hashed, db).

(** The end of the walk: the collapsed node is stored, the other one kept. *)
Lemma walk_finish_ok r t db db' cn c f :
  hashing r t -> ext db db' -> simplifyNode cn = raw t -> cache cn = (flag_hash f, flag_dirty f) ->
  flag_ok db0 r f t -> (commit = false -> flag_hash f = None) ->
  (commit = true -> forall db'', db_le (out db') (out db'') -> (hashed r t = true -> knows db'' t) -> stored db'' r t) ->
  (forall f' db'', db_le (out db') (out db'') -> flag_ok (out db'') r f' t ->
     hrep (out db'') r (match c with shortNode k v _ => shortNode k v f' | fullNode cs _ => fullNode cs f' | _ => c end) t) ->
  match c with shortNode _ _ f' | fullNode _ f' => f' = f | _ => False end ->
  hash_post r t db (after_walk r (Done (cn, c, db'))).
Proof.
  unfold after_walk. cbn [obind]. intros Ht Hext Hcn Hcache Hf Hnone Hs Hc Hcf.
  destruct (store_ok cn r t db' Ht Hcn) as (h & db'' & -> & Hr & Hext' & Hk); [|apply Hext|].
  { rewrite Hcache. simpl. intros h Hh. unfold flag_ok in Hf. rewrite Hh in Hf. apply Hf. }
  simpl. exists h, (with_hash commit c h), db''. split; [done|]. split; [done|]. split; [by eapply ext_trans|].
  assert (commit = true -> stored db'' r t) as Hst by (intros Hct; apply Hs; [done|apply Hext'|by apply Hk]).
  split; [|done]. unfold with_hash. assert (flag_ok (out db'') r
    (mkFlag (match h with hashNode h => Some h | _ => None end) (if commit then false else flag_dirty f)) t) as Hf'.
  { apply with_hash_flag; try done; [apply Ht|]. intros Hct. unfold out. rewrite Hct. by apply Hst. }
  specialize (Hc _ db'' (proj1 (proj2 Hext')) Hf'). destruct c; try done; by subst.
Qed.

Definition with_cache (n : node) (f : nodeFlag) (db : Database) (walk : outcome (node * node * Database)) : outcome (node * node * Database) :=
  match flag_hash f with
  | Some h =>
      if negb commit then Done (hashNode h, n, db)
      else if negb (flag_dirty f) then Done (hashNode h, hashNode h, db)
      else walk
  | None => walk
  end.

Lemma hash_short_eq k v f r db :
  hash keccak commit (shortNode k v f) r db = with_cache (shortNode k v f) f db (after_walk r
    match v with
    | valueNode _ => Done (shortNode (hexToCompact k) v f, shortNode k v f, db)
    | _ => let! '(h, c, db) := hash keccak commit v false db in Done (shortNode (hexToCompact k) h f, shortNode k c f, db)
    end).
Proof. by destruct v. Qed.

Lemma hash_full_eq cs f r db :
  hash keccak commit (fullNode cs f) r db = with_cache (fullNode cs f) f db (after_walk r
    (let! '(hs, cs', db) := hash_children (hash keccak commit) O cs db in Done (fullNode hs f, fullNode cs' f, db))).
Proof. done. Qed.

(** A cached hash is used if nothing has to be written. *)
Lemma cached_ok r n t f db (walk : outcome (node * node * Database)) :
  hrep db0 r n t -> flag_ok db0 r f t -> hashing r t -> pre db ->
  ((commit = false -> flag_hash f = None) -> hash_post r t db walk) ->
  hash_post r t db (with_cache n f db walk).
Proof.
  intros Hr Hf Ht Hpre Hwalk. unfold flag_ok in Hf. unfold with_cache. destruct (flag_hash f) as [h|]; [|by apply Hwalk]. destruct Hf as (-> & Hh & Hs).
  assert (ref_node r (hashNode (keccak (enc_tree t))) t) as Href by (unfold ref_node; by rewrite Hh).
  destruct (Bool.bool_dec commit true) as [Hc|Hc%not_true_is_false].
  - destruct (flag_dirty f); [rewrite Hc; apply Hwalk; congruence|]. rewrite Hc. simpl.
    assert (stored (out db) r t) as Hst by (eapply stored_mono; [apply Hpre|by apply Hs]).
    eexists _, _, db. split; [done|]. split; [done|]. split; [by apply ext_refl|]. split.
    + by apply stored_root_rep; try apply Ht.
    + intros _. unfold out in Hst. by rewrite Hc in Hst.
  - rewrite Hc. simpl. eexists _, n, db. split; [done|]. split; [done|]. split; [by apply ext_refl|]. split; [|congruence].
    unfold out. by rewrite Hc.
Qed.

Lemma hash_hashNode h : hash_good (hashNode h).
Proof.
  intros r t db Hr Ht Hpre. inversion Hr as [| | | |? ? n ? Hdb Hst Hn (-> & Hh & Hs)]; subst. cbn.
  assert (stored (out db) r t) as Hs' by (eapply stored_mono; [apply Hpre|done]).
  eexists _, _, db. split; [done|]. split; [unfold ref_node; by rewrite Hh|]. split; [by apply ext_refl|]. split.
  - apply stored_root_rep; try done; apply Ht.
  - intros Hc. unfold out in Hs'. by rewrite Hc in Hs'.
Qed.

Lemma hashing_child r k t : hashing r (TShort k t) -> is_node t = true -> hashing false t.
Proof.
  intros [Hw _ Hs HK] Hn. inversion Hw; subst. inversion Hs; subst. split; try done.
  - destruct (hasTerm k); [|done]. destruct (wf_true_inv t) as [->|(v & -> & _)]; done.
  - intros Hc. specialize (HK Hc). by inversion HK.
Qed.

Lemma hash_shortNode k v f : hash_good v -> hash_good (shortNode k v f).
Proof.
  intros IH r t db Hr Ht Hpre. pose proof Hr as Hr'. inversion Hr as [| |? ? ? tc ? Hv Hf| |]; subst.
  pose proof (hashing_wf _ _ Ht) as Hw. inversion Hw as [| |? ? Hk Hnk Hwc Hne Hsh|]; subst.
  rewrite hash_short_eq. apply cached_ok; try done. intros Hnone. destruct (is_node tc) eqn:Hn.
  - assert (match v with valueNode _ => False | _ => True end) as Hnv by (destruct v; try done; by inversion Hv; subst).
    destruct (IH false tc db Hv (hashing_child _ _ _ Ht Hn) Hpre) as (h & c & db' & Hh & Href & Hext & Hc & Hst).
    assert (forall A B, match v with valueNode _ => A | _ => B end = B :> outcome (node * node * Database)) as -> by (by intros; destruct v).
    rewrite Hh. cbn [obind]. eapply walk_finish_ok; try done.
    + simpl. by rewrite (ref_node_raw h tc).
    + intros Hct db'' Hle Hk''. constructor; [|done]. unfold out in Hle. rewrite Hct in Hle. eapply stored_mono; [done|by apply Hst].
    + intros f' db'' Hle Hf'. apply rep_short; [|done]. by eapply hrep_mono.
  - assert (exists b, tc = TVal b /\ v = valueNode b) as (b & -> & ->).
    { destruct tc; try done. inversion Hv as [| | | |? ? n ? ? Hst Hn']; subst; [by eauto|]. by apply rep_stored in Hn'. }
    eapply walk_finish_ok; try done.
    + intros _ db'' _ Hk''. by constructor; [constructor|].
    + intros f' db'' _ Hf'. apply rep_short; [constructor|done].
Qed.

(** *** Full nodes *)

(** A child of a full node, at position [i]. *)
Record child_ok (i : nat) (n : node) (t : tree) : Prop := {
  child_rep : hrep db0 false n t; child_wf : wf (bool_decide (i = 16%nat)) t; child_small : small t;
  child_K : commit = true -> inK false t }.

Lemma rep_leaf db i n t :
  hrep db false n t -> wf (bool_decide (i = 16%nat)) t -> (i = 16%nat \/ is_nil n = true) ->
  (n = nilNode /\ t = TNil) \/ exists v, n = valueNode v /\ t = TVal v.
Proof.
  intros Hr Hw [->|Hn].
  - destruct (wf_true_inv t Hw) as [->|(v & -> & Hv)].
    + inversion Hr as [| | | |? ? n' ? ? Hst Hn']; subst; [by left|]. by apply rep_stored in Hn'.
    + inversion Hr as [| | | |? ? n' ? ? Hst Hn']; subst; [by eauto|]. by apply rep_stored in Hn'.
  - destruct n; try done. inversion Hr. by left.
Qed.

Lemma hash_child_ok i n t db :
  hash_good n -> child_ok i n t -> (i < 17)%nat -> pre db ->
  exists h c db', (if (i <? 16)%nat && negb (is_nil n) then hash keccak commit n false db else Done (n, n, db)) = Done (h, c, db') /\
    simplifyNode h = raw_ref keccak t (raw t) /\ ext db db' /\ hrep (out db') false c t /\ (commit = true -> stored db' false t).
Proof.
  intros IH [Hr Hw Hs HK] Hi Hpre. destruct (Nat.ltb_spec i 16) as [Hlt|Hge]; simpl.
  - destruct (is_nil n) eqn:Hn; simpl.
    + destruct n; try done. inversion Hr; subst. exists nilNode, nilNode, db. split_and!; try done; constructor.
    + rewrite bool_decide_eq_false_2 in Hw by lia. rewrite (rep_is_nil db0 (flag_ok db0) (ref_ok db0) false n t Hr) in Hn.
      apply bool_decide_eq_false in Hn. assert (is_node t = true) as Hnt by (inversion Hw; by subst).
      destruct (IH false t db Hr) as (h & c & db' & ? & Href & ? & ? & ?); [by split|done|].
      exists h, c, db'. split; [done|]. by split; [apply ref_node_raw|].
  - exists n, n, db. split; [done|]. destruct (rep_leaf db0 i n t Hr Hw) as [[-> ->]|(v & -> & ->)]; [left; lia|..];
      split_and!; try done; constructor.
Qed.

Lemma hash_children_ok ns : forall ts i db,
  Forall hash_good ns -> length ns = length ts -> (forall j n t, ns !! j = Some n -> ts !! j = Some t -> child_ok (i + j) n t) ->
  (i + length ns <= 17)%nat -> pre db ->
  exists hs cs db', hash_children (hash keccak commit) i ns db = Done (hs, cs, db') /\
    map simplifyNode hs = map (fun c => raw_ref keccak c (raw c)) ts /\ ext db db' /\ length cs = length ts /\
    (forall j c t, cs !! j = Some c -> ts !! j = Some t -> hrep (out db') false c t) /\
    (commit = true -> forall j t, ts !! j = Some t -> stored db' false t).
Proof.
  induction ns as [|n ns IHns]; intros [|t ts] i db HF Hl Hc Hi Hpre; try done.
  { exists [], [], db. by split_and!. }
  apply Forall_cons in HF as [Hn HF]. simpl in Hi, Hl. pose proof (Hc 0%nat n t eq_refl eq_refl) as Hc0. rewrite Nat.add_0_r in Hc0.
  destruct (hash_child_ok i n t db Hn Hc0) as (h & c & db1 & He & Hraw & Hext & Hrep & Hst); [lia|done|].
  destruct (IHns ts (S i) db1 HF ltac:(lia)) as (hs & cs & db2 & He2 & Hraw2 & Hext2 & Hlen & Hrep2 & Hst2); [|lia|apply Hext|].
  { intros j n' t' Hj Ht'. replace (S i + j)%nat with (i + S j)%nat by lia. by apply (Hc (S j)). }
  cbn [hash_children]. rewrite He. cbn [obind]. rewrite He2. exists (h :: hs), (c :: cs), db2. cbn [obind map length].
  split; [done|]. split; [by rewrite Hraw, Hraw2|]. split; [by eapply ext_trans|]. split; [by rewrite Hlen|].
  assert (db_le (out db1) (out db2)) as Hle by apply Hext2. split.
  - intros [|j] c' t' Hc' Ht'; [|by apply (Hrep2 j)]. simplify_eq/=. eapply hrep_mono; [done..|apply Hc0].
  - intros Hct [|j] t' Ht'; [|by apply (Hst2 Hct j)]. simplify_eq/=. unfold out in Hle. rewrite Hct in Hle.
    eapply stored_mono; [done|by apply Hst].
Qed.

Lemma hash_fullNode ns f : Forall hash_good ns -> hash_good (fullNode ns f).
Proof.
  intros IH r t db Hr Ht Hpre. pose proof Hr as Hr'. inversion Hr as [| | |? ? ts ? Hl Hreps Hf|]; subst.
  pose proof (hashing_wf _ _ Ht) as Hw. inversion Hw as [| | |? Hlen Hwc Htwo]; subst.
  pose proof (hashing_small _ _ Ht) as Hs. inversion Hs as [| | |? _ Hsc]; subst.
  rewrite hash_full_eq. apply cached_ok; try done. intros Hnone.
  destruct (hash_children_ok ns ts 0 db IH Hl) as (hs & cs & db' & -> & Hraw & Hext & Hlc & Hrep & Hst); [|lia|done|].
  { intros j n t Hn Htj. split; [by eapply Hreps|by apply Hwc|by eapply Hsc|]. intros Hct.
    pose proof (hashing_K _ _ Ht Hct) as HK. inversion HK; subst. eauto. }
  cbn [obind]. eapply walk_finish_ok; try done.
  - simpl. by rewrite Hraw.
  - intros Hct db'' Hle Hk. constructor; [|done]. intros i c Hi. unfold out in Hle. rewrite Hct in Hle.
    eapply stored_mono; [done|by eapply Hst].
  - intros f' db'' Hle Hf'. apply rep_full; [done| |done]. intros i c t Hi Hti. eapply hrep_mono; eauto.
Qed.

Lemma hash_ok n : hash_good n.
Proof.
  induction n as [|ns f IH|k v f IH|h|v] using node_nested_ind.
  - intros r t db Hr Ht. inversion Hr; subst. by destruct Ht.
  - by apply hash_fullNode.
  - by apply hash_shortNode.
  - apply hash_hashNode.
  - intros r t db Hr Ht. inversion Hr; subst. by destruct Ht.
Qed.
End Hasher.

End Commit.
