(* ===== verification/TriePatricia.v ===== *)
(** * trie: the trie of a map
    The trie a map should have, by recursion on the set of its keys as in
    appendix D of the Yellow Paper: nothing for no key, a leaf for one key, an
    extension for a prefix that all keys share, otherwise a branch.  It is the
    only trie in minimal form with that content ([patricia_unique]). *)

From S2P Require Import Prelude MathUtil Rlp RlpEncode RlpStream RlpDecode RlpRaw TrieBase Trie TrieSpec TrieOps.

(** ** The construction *)

(** What all of [l] begins with. *)
Fixpoint lcp (l : list bytes) : bytes :=
  match l with
  | [] => []
  | [k] => k
  | k :: l => take (prefixLen k (lcp l)) k
  end.

(** The pairs whose key begins with [p], which is dropped. *)
Definition below (p : bytes) (l : list (bytes * bytes)) : list (bytes * bytes) :=
  omap (fun kv => k ← strip p kv.1; Some (k, kv.2)) l.

Definition nibble_byte (i : nat) : byte := byte_of_Z (Z.of_nat i).

Fixpoint build (fuel : nat) (l : list (bytes * bytes)) : tree :=
  match fuel with
  | O => TNil
  | S fuel =>
      match l with
      | [] => TNil
      | [(k, v)] => TShort' k (TVal v)
      | _ =>
          match lcp l.*1 with
          | [] => TFull (map (fun i => build fuel (below [nibble_byte i] l)) (seq 0 17))
          | p => TShort p (build fuel (below p l))
          end
      end
  end.

Definition hex_pairs (M : gmap bytes bytes) : list (bytes * bytes) := prod_map keybytesToHex id <$> map_to_list M.

Definition max_length (l : list bytes) : nat := foldr (fun k n => Nat.max (length k) n) O l.

Definition patricia (M : gmap bytes bytes) : tree := build (S (max_length (hex_pairs M).*1)) (hex_pairs M).

(** ** Common prefixes *)

Lemma take_prefixLen a b : exists r r', a = take (prefixLen a b) a ++ r /\ b = take (prefixLen a b) a ++ r'.
Proof.
  destruct (prefixLen_spec a b) as (p & a' & b' & Ha & Hb & Hl & _). exists a', b'.
  rewrite Hl, Ha, take_app_length. by rewrite <-Hb.
Qed.

Lemma prefixLen_app p a b : take (prefixLen (p ++ a) (p ++ b)) (p ++ a) = p ++ take (prefixLen a b) a.
Proof. induction p as [|x p IH]; [done|]. simpl. rewrite bool_decide_eq_true_2 by done. simpl. by rewrite IH. Qed.

Lemma lcp_cons x y l : lcp (x :: y :: l) = take (prefixLen x (lcp (y :: l))) x.
Proof. done. Qed.

Lemma lcp_prefix l k : k ∈ l -> exists r, k = lcp l ++ r.
Proof.
  revert k. induction l as [|x [|y l] IH]; intros k Hk.
  - set_solver.
  - apply list_elem_of_singleton in Hk as ->. exists []. by rewrite app_nil_r.
  - rewrite lcp_cons. destruct (take_prefixLen x (lcp (y :: l))) as (r & r' & Hx & Hl).
    apply elem_of_cons in Hk as [->|Hk]; [by exists r|]. destruct (IH k Hk) as [s Hs]. exists (r' ++ s). rewrite Hs, Hl at 1.
    by rewrite <-app_assoc.
Qed.

Lemma lcp_greatest l p : l <> [] -> (forall k, k ∈ l -> exists r, k = p ++ r) -> exists r, lcp l = p ++ r.
Proof.
  induction l as [|x [|y l] IH]; intros Hne Hp; [done|apply Hp; set_solver|].
  destruct IH as [r Hr]; [done|intros; apply Hp; set_solver|]. destruct (Hp x) as [s Hs]; [set_solver|].
  rewrite lcp_cons. rewrite Hr, Hs, prefixLen_app. eauto.
Qed.

(** ** Below a prefix *)

Lemma elem_of_below p l k v : (k, v) ∈ below p l <-> (p ++ k, v) ∈ l.
Proof.
  unfold below. rewrite list_elem_of_omap. split.
  - intros ([k0 v0] & Hin & H). simpl in H. destruct (strip p k0) as [k'|] eqn:E; [|done]. apply strip_Some in E as ->. by simplify_eq/=.
  - intros Hin. exists (p ++ k, v). split; [done|]. simpl. by rewrite strip_app.
Qed.

Lemma below_NoDup p l : NoDup l.*1 -> NoDup (below p l).*1.
Proof.
  induction l as [|[k v] l IH]; intros Hnd; [done|]. apply NoDup_cons in Hnd as [Hk Hnd]. unfold below. cbn [omap list_omap].
  simpl. destruct (strip p k) as [k'|] eqn:E; simpl; [|by apply IH]. apply NoDup_cons. split; [|by apply IH].
  apply strip_Some in E as ->. intros ([k0 v0] & -> & Hin)%list_elem_of_fmap. apply elem_of_below in Hin. apply Hk.
  apply list_elem_of_fmap. by exists (p ++ k0, v0).
Qed.

Lemma below_length p l : (forall k, k ∈ l.*1 -> exists r, k = p ++ r) -> length (below p l) = length l.
Proof.
  induction l as [|[k v] l IH]; intros Hp; [done|]. destruct (Hp k) as [r ->]; [set_solver|]. unfold below. simpl.
  rewrite strip_app. simpl. f_equal. apply IH. intros k' Hk'. apply Hp. set_solver.
Qed.

Lemma lcp_below l : (2 <= length l)%nat -> lcp (below (lcp l.*1) l).*1 = [].
Proof.
  intros Hl. set (p := lcp l.*1). assert (below p l <> []) as Hne.
  { intros E. pose proof (below_length p l) as H. rewrite E in H. simpl in H. rewrite H in Hl; [lia|]. apply lcp_prefix. }
  destruct (lcp_greatest l.*1 (p ++ lcp (below p l).*1)) as [r Hr]; [by destruct l| |].
  - intros k Hk. apply list_elem_of_fmap in Hk as ([k0 v] & -> & Hin). simpl.
    destruct (lcp_prefix l.*1 k0) as [s Hs]; [by apply list_elem_of_fmap; exists (k0, v)|]. fold p in Hs.
    destruct (lcp_prefix (below p l).*1 s) as [s' Hs'].
    { apply list_elem_of_fmap. exists (s, v). split; [done|]. apply elem_of_below. by rewrite <-Hs. }
    exists s'. by rewrite <-app_assoc, <-Hs'.
  - fold p in Hr. apply (f_equal length) in Hr. rewrite !length_app in Hr. apply length_zero_iff_nil. lia.
Qed.

(** ** It is in minimal form and has the content *)

Record pairs_ok (fin : bool) (fuel : nat) (l : list (bytes * bytes)) : Prop := {
  pairs_NoDup : NoDup l.*1;
  pairs_key : forall k v, (k, v) ∈ l -> okkey fin k /\ v <> [] /\ (length k < fuel)%nat }.

Definition built (fin : bool) (l : list (bytes * bytes)) (t : tree) : Prop :=
  wf fin t /\ forall k v, okkey fin k -> get t k = Some v <-> (k, v) ∈ l.

Lemma built_not_nil fin l t : built fin l t -> l <> [] -> (forall k v, (k, v) ∈ l -> okkey fin k) -> t <> TNil.
Proof.
  intros [_ Hg] Hl Hk ->. destruct l as [|[k v] l]; [done|]. assert ((k, v) ∈ (k, v) :: l) as Hin by set_solver.
  apply Hg in Hin; [done|]. by eapply Hk.
Qed.

Lemma built_leaf fin k v : okkey fin k -> v <> [] -> built fin [(k, v)] (TShort' k (TVal v)).
Proof.
  intros Hk Hv. split.
  - destruct fin; [rewrite Hk; by constructor|]. destruct k as [|x k]; [by apply okkey_nil in Hk|].
    destruct Hk as [Hn Ht]. constructor; try done. rewrite Ht. by constructor.
  - intros k' v' _. rewrite get_TShort', list_elem_of_singleton. destruct (strip k k') as [r|] eqn:E.
    + apply strip_Some in E as ->. destruct r; simpl; [rewrite app_nil_r; naive_solver|]. split; [done|]. intros [= H _].
      apply (f_equal length) in H. rewrite length_app in H. simpl in H. lia.
    + split; [done|]. intros [= -> _]. by rewrite strip_self in E.
Qed.

Lemma built_short p l t :
  p <> [] -> nibs p -> (forall k, k ∈ l.*1 -> exists r, k = p ++ r) -> built (hasTerm p) (below p l) t -> t <> TNil -> is_short t = false ->
  built false l (TShort p t).
Proof.
  intros Hp Hn Hall [Hw Hg] Hne Hs. split; [by constructor|]. intros k v Hk. split.
  - intros (k' & -> & Hv)%get_short_inv. apply elem_of_below, Hg; [|done]. by apply okkey_app in Hk.
  - intros Hin. destruct (Hall k) as [r ->]; [apply list_elem_of_fmap; by exists (k, v)|]. rewrite get_short. apply Hg.
    + by apply okkey_app in Hk.
    + by apply elem_of_below.
Qed.

Lemma nibble_byte_idx x : (idx x < 17)%nat -> nibble_byte (idx x) = x.
Proof. intros Hx. apply idx_inj. apply idx_byte_of_Z. lia. Qed.

(** Two of the keys differ in their first nibble. *)
Lemma lcp_nil_two l :
  l <> [] -> lcp l = [] -> (forall k, k ∈ l -> k <> []) -> exists x k y k', x <> y /\ x :: k ∈ l /\ y :: k' ∈ l.
Proof.
  intros Hne Hlcp Hk. destruct l as [|[|x k] l]; [done|by destruct (Hk []); set_solver|].
  destruct (decide (Forall (fun k' => head k' = Some x) l)) as [Hall|Hnot].
  - exfalso. destruct (lcp_greatest ((x :: k) :: l) [x]) as [r Hr]; [done| |by rewrite Hlcp in Hr].
    intros k' [->|Hin]%elem_of_cons; [by exists k|]. rewrite Forall_forall in Hall. specialize (Hall k' Hin).
    destruct k' as [|x' k']; simplify_eq/=. by exists k'.
  - apply not_Forall_Exists in Hnot; [|apply _]. apply Exists_exists in Hnot as (k' & Hin & Hh).
    destruct k' as [|y k']; [by destruct (Hk []); set_solver|]. exists x, k, y, k'. split; [|set_solver]. intros ->. by apply Hh.
Qed.

Lemma built_full l ts :
  length ts = 17%nat -> (forall i t, ts !! i = Some t -> built (bool_decide (i = 16%nat)) (below [nibble_byte i] l) t) ->
  (forall k v, (k, v) ∈ l -> okkey false k) -> l <> [] -> lcp l.*1 = [] -> built false l (TFull ts).
Proof.
  intros Hl Hts Hok Hne Hlcp.
  assert (forall x k v, okkey false (x :: k) -> exists t, ts !! idx x = Some t /\ (get t k = Some v <-> (x :: k, v) ∈ l)) as Hget.
  { intros x k v [Hx Hk]%okkey_cons. destruct (wf_full_lookup ts x Hl Hx) as [t Ht]. exists t. split; [done|].
    destruct (Hts _ _ Ht) as [_ Hg]. rewrite Hg, elem_of_below, nibble_byte_idx by done. done. }
  split.
  - constructor; [done|intros i t Hi; by apply (Hts i t Hi)|].
    destruct (lcp_nil_two l.*1) as (x & k & y & k' & Hxy & Hx & Hy); [by destruct l|done| |].
    { intros k ([k0 v] & -> & Hin)%list_elem_of_fmap. apply Hok in Hin. simpl. intros ->. by apply okkey_nil in Hin. }
    apply list_elem_of_fmap in Hx as ([k0 v] & E & Hx), Hy as ([k1 v'] & E' & Hy). simpl in E, E'. subst k0 k1.
    destruct (Hget x k v) as (t & Ht & Hg); [by eapply Hok|]. destruct (Hget y k' v') as (t' & Ht' & Hg'); [by eapply Hok|].
    exists (idx x), (idx y), t, t'. split; [by intros ?%idx_inj|]. split_and!; try done.
    + intros ->. apply Hg in Hx. done.
    + intros ->. apply Hg' in Hy. done.
  - intros [|x k] v Hk; [by apply okkey_nil in Hk|]. destruct (Hget x k v Hk) as (t & Ht & Hg). by rewrite get_full, Ht.
Qed.

Lemma pairs_below fin p l fuel :
  pairs_ok false (S fuel) l -> p <> [] -> (forall k, okkey false (p ++ k) -> okkey fin k) -> pairs_ok fin fuel (below p l).
Proof.
  intros [Hnd Hk] Hp Happ. split; [by apply below_NoDup|]. intros k v Hin%elem_of_below.
  destruct (Hk _ _ Hin) as (H1 & H2 & H3). split_and!; [by apply Happ|done|]. rewrite length_app in H3. destruct p; [done|]. simpl in H3. lia.
Qed.

Lemma pairs_two fin fuel l : pairs_ok fin fuel l -> (2 <= length l)%nat -> fin = false.
Proof.
  intros [Hnd Hk] Hl. destruct fin; [|done]. destruct l as [|[k v] [|[k' v'] l]]; simpl in Hl; try lia.
  destruct (Hk k v) as [-> _]; [set_solver|]. destruct (Hk k' v') as [-> _]; [set_solver|].
  apply NoDup_cons in Hnd as [Hnd _]. simpl in Hnd. set_solver.
Qed.

Lemma build_two fuel l : (2 <= length l)%nat -> build (S fuel) l =
  match lcp l.*1 with
  | [] => TFull (map (fun i => build fuel (below [nibble_byte i] l)) (seq 0 17))
  | p => TShort p (build fuel (below p l))
  end.
Proof. intros Hl. destruct l as [|[k v] [|kv l]]; simpl in Hl; try lia. done. Qed.

Lemma build_ok fuel : forall fin l, pairs_ok fin fuel l -> (0 < fuel)%nat -> built fin l (build fuel l).
Proof.
  induction fuel as [|fuel IH]; intros fin l Hl Hf; [lia|]. destruct (Nat.le_gt_cases 2 (length l)) as [H2|H2].
  - pose proof (pairs_two _ _ _ Hl H2) as ->. rewrite build_two by done. pose proof (lcp_prefix l.*1) as Hpre.
    pose proof (lcp_below l H2) as Hlb. pose proof (below_length _ _ Hpre) as Hlen.
    assert (Hf' : (0 < fuel)%nat).
    { destruct l as [|[k v] l]; [simpl in H2; lia|]. destruct (pairs_key _ _ _ Hl k v) as (Hk & _ & Hlk); [set_solver|].
      destruct k; [by apply okkey_nil in Hk|simpl in Hlk; lia]. }
    destruct (lcp l.*1) as [|x p] eqn:E.
    + apply built_full; [by rewrite length_map, length_seq| |by intros k v [? _]%(pairs_key _ _ _ Hl)|by intros ->; simpl in H2; lia|done].
      intros i t Hi. apply list_lookup_fmap_Some in Hi as (j & -> & Hj). apply lookup_seq in Hj as [Hj Hj']. simpl in Hj. subst j.
      apply IH; [|done]. eapply pairs_below; [done..|]. intros k Hk. apply okkey_cons in Hk as [_ Hk].
      unfold nibble_byte in Hk. by rewrite idx_byte_of_Z in Hk by lia.
    + set (q := x :: p) in *. assert (nibs q) as Hn.
      { destruct l as [|[k v] l]; [simpl in H2; lia|]. destruct (pairs_key _ _ _ Hl k v) as (Hk & _); [set_solver|].
        destruct (Hpre k) as [r ->]; [set_solver|]. by apply okkey_nibs, nibs_app in Hk as (_ & _ & ?). }
      assert (pairs_ok (hasTerm q) fuel (below q l)) as Hb.
      { eapply pairs_below; [done..|]. intros k Hk. by apply okkey_app in Hk. }
      pose proof (IH _ _ Hb Hf') as Hbt. apply built_short; try done.
      * eapply built_not_nil; [done|by intros Hnil; rewrite Hnil in Hlen; simpl in Hlen; lia|]. by intros k v [? _]%(pairs_key _ _ _ Hb).
      * destruct fuel as [|fuel]; [lia|]. rewrite build_two by lia. by rewrite Hlb.
  - destruct l as [|[k v] [|]]; [|destruct (pairs_key _ _ _ Hl k v) as (? & ? & _); [set_solver|by apply built_leaf]|simpl in H2; lia].
    split; [constructor|]. intros k v _. simpl. set_solver.
Qed.

(** ** The trie of a map *)

(** A trie holds no empty values: writing one deletes the key. *)
Definition nonempty_values (M : gmap bytes bytes) : Prop := map_Forall (fun _ v => v <> []) M.

Lemma elem_of_hex_pairs M k v : (k, v) ∈ hex_pairs M <-> exists kb, k = keybytesToHex kb /\ M !! kb = Some v.
Proof.
  unfold hex_pairs. rewrite list_elem_of_fmap. split.
  - intros ([kb v'] & E & Hin). simplify_eq/=. exists kb. split; [done|]. by apply elem_of_map_to_list.
  - intros (kb & -> & Hkb). exists (kb, v). split; [done|]. by apply elem_of_map_to_list.
Qed.

Lemma max_length_elem l k : k ∈ l -> (length k <= max_length l)%nat.
Proof. induction l as [|x l IH]; [set_solver|]. intros [->|Hk]%elem_of_cons; simpl; [lia|]. specialize (IH Hk). lia. Qed.

Lemma hex_pairs_ok M : nonempty_values M -> pairs_ok false (S (max_length (hex_pairs M).*1)) (hex_pairs M).
Proof.
  intros Hv. split.
  - unfold hex_pairs. assert ((prod_map keybytesToHex id <$> map_to_list M).*1 = keybytesToHex <$> (map_to_list M).*1) as ->.
    { by rewrite <-!list_fmap_compose. }
    apply (NoDup_fmap_2_strong keybytesToHex); [intros a b _ _; apply keybytesToHex_inj|]. apply NoDup_fst_map_to_list.
  - intros k v Hin. pose proof Hin as (kb & -> & Hkb)%elem_of_hex_pairs. split_and!; [apply keybytesToHex_ok|exact (Hv kb v Hkb)|].
    apply Nat.lt_succ_r, max_length_elem, list_elem_of_fmap. by exists (keybytesToHex kb, v).
Qed.

Lemma patricia_ok M : nonempty_values M -> wf false (patricia M) /\ holds (patricia M) M.
Proof.
  intros Hv. destruct (build_ok _ false (hex_pairs M) (hex_pairs_ok M Hv) ltac:(lia)) as [Hw Hg]. fold (patricia M) in Hw, Hg.
  split; [done|]. split.
  - intros k. apply option_eq. intros v. rewrite Hg by apply keybytesToHex_ok. rewrite elem_of_hex_pairs. split; [|eauto].
    by intros (kb & <-%keybytesToHex_inj & H).
  - intros k v Hk. rewrite Hg by done. intros (kb & -> & _)%elem_of_hex_pairs. eauto.
Qed.

Lemma holds_nonempty t M : wf false t -> holds t M -> nonempty_values M.
Proof.
  intros Hw [Hg _] k v Hk. rewrite <-Hg in Hk. clear Hg. revert Hk. generalize (keybytesToHex k). clear k M. intros k Hk.
  assert (forall fin, wf fin t -> get t k = Some v -> v <> []) as H; [|by eapply H].
  clear Hw Hk. intros fin Hw. revert k. induction Hw as [|v' Hv|p t Hp Hn Hw IH Ht Hs|cs Hl Hc IH Htwo]; intros k; try done.
  - destruct k; [by intros [= <-]|done].
  - intros (k' & -> & Hk')%get_short_inv. by eapply IH.
  - destruct k as [|x k]; [done|]. rewrite get_full. destruct (cs !! idx x) eqn:E; [|done]. by eapply IH.
Qed.

Lemma patricia_unique t M : wf false t -> holds t M -> t = patricia M.
Proof.
  intros Hw Hh. pose proof (holds_nonempty t M Hw Hh) as Hv. destruct (patricia_ok M Hv) as [Hw' Hh'].
  apply (wf_unique false); [done..|]. intros k Hk. apply option_eq. intros v. split; intros Hg.
  - destruct (holds_only _ _ Hh k v Hk Hg) as [kb ->]. by rewrite (holds_get _ _ Hh'), <-(holds_get _ _ Hh).
  - destruct (holds_only _ _ Hh' k v Hk Hg) as [kb ->]. by rewrite (holds_get _ _ Hh), <-(holds_get _ _ Hh').
Qed.
