(* ===== verification/TrieSession.v ===== *)
(** * trie: a trie in use
    A trie with its database is used through [TryGet], [TryUpdate],
    [TryDelete], [Hash], [Commit] and [New].  Any sequence of these behaves as
    on a finite map, the hashes being those of the Yellow Paper: the
    specification is [spec_op]. *)

From S2P Require Import Prelude MathUtil Rlp RlpEncode RlpStream RlpDecode RlpRaw TrieBase Trie TrieSpec TrieOps TrieHash TrieDecode TrieCommit TriePatricia.

(** ** Sessions *)

Record session := mkSession { s_root : node; s_db : Database; s_commits : list bytes }.

Inductive trie_op :=
| OpGet (k : bytes)
| OpUpdate (k v : bytes)
| OpDelete (k : bytes)
| OpHash
| OpCommit
(** [New] on the hash that the [i]-th [Commit] returned. *)
| OpOpen (i : nat).

Inductive reply := RUnit | RValue (o : option bytes) | RHash (h : bytes) | RMissing (e : MissingNodeError).

Definition answer (e : option MissingNodeError) (r : reply) : reply := match e with Some e => RMissing e | None => r end.

Definition run_op (keccak : bytes -> bytes) (s : session) (op : trie_op) : outcome (session * reply) :=
  let '(mkSession root db commits) := s in
  match op with
  | OpGet k => let! '(root, v, err) := TryGet db root k in Done (mkSession root db commits, answer err (RValue v))
  | OpUpdate k v => let! '(root, err) := TryUpdate db root k v in Done (mkSession root db commits, answer err RUnit)
  | OpDelete k => let! '(root, err) := TryDelete db root k in Done (mkSession root db commits, answer err RUnit)
  | OpHash => let! '(h, root) := Hash keccak root in Done (mkSession root db commits, RHash h)
  | OpCommit => let! '(h, root, db) := Commit keccak root db in Done (mkSession root db (commits ++ [h]), RHash h)
  | OpOpen i =>
      match commits !! i with
      | None => Done (s, RUnit)
      | Some h =>
          let! r := New h db in
          match r with inl e => Done (s, RMissing e) | inr root => Done (mkSession root db commits, RUnit) end
      end
  end.

Fixpoint run_ops (keccak : bytes -> bytes) (s : session) (ops : list trie_op) : outcome (session * list reply) :=
  match ops with
  | [] => Done (s, [])
  | op :: ops =>
      let! '(s, r) := run_op keccak s op in
      let! '(s, rs) := run_ops keccak s ops in
      Done (s, r :: rs)
  end.

(** ** The specification *)

(** The root hash of a map. *)
Definition trie_root (keccak : bytes -> bytes) (M : gmap bytes bytes) : bytes := root_of keccak (patricia M).

(** The current map, and those that were committed. *)
Definition maps : Type := gmap bytes bytes * list (gmap bytes bytes).

Definition spec_op (keccak : bytes -> bytes) (a : maps) (op : trie_op) : maps * reply :=
  let '(M, Ms) := a in
  match op with
  | OpGet k => (a, RValue (M !! k))
  | OpUpdate k v => ((set_value k v M, Ms), RUnit)
  | OpDelete k => ((base.delete k M, Ms), RUnit)
  | OpHash => (a, RHash (trie_root keccak M))
  | OpCommit => ((M, Ms ++ [M]), RHash (trie_root keccak M))
  | OpOpen i => ((default M (Ms !! i), Ms), RUnit)
  end.

Fixpoint spec_ops (keccak : bytes -> bytes) (a : maps) (ops : list trie_op) : maps * list reply :=
  match ops with
  | [] => (a, [])
  | op :: ops =>
      let '(a, r) := spec_op keccak a op in
      let '(a, rs) := spec_ops keccak a ops in
      (a, r :: rs)
  end.

(** The maps that are hashed on the way. *)
Fixpoint hashed_maps (keccak : bytes -> bytes) (a : maps) (ops : list trie_op) : list (gmap bytes bytes) :=
  match ops with
  | [] => []
  | op :: ops =>
      match op with OpHash | OpCommit => [a.1] | _ => [] end ++ hashed_maps keccak (spec_op keccak a op).1 ops
  end.

(** ** Hashes *)

(** The encodings of all nodes of a trie. *)
Fixpoint node_encs (keccak : bytes -> bytes) (t : tree) : list bytes :=
  match t with
  | TShort _ c => enc_tree keccak t :: node_encs keccak c
  | TFull cs => enc_tree keccak t :: concat (map (node_encs keccak) cs)
  | _ => []
  end.

(** What is assumed of Keccak-256 on the set [K] of what is hashed. *)
Record HashModel (keccak : bytes -> bytes) (K : bytes -> Prop) : Prop := {
  hm_length : forall b, length (keccak b) = 32%nat;
  hm_collision_free : forall a b, K a -> K b -> keccak a = keccak b -> a = b;
  hm_not_zero : forall b, K b -> keccak b <> replicate 32 Byte.x00;
  hm_empty_root : K [Byte.x80] /\ keccak [Byte.x80] = emptyRoot }.

(** Keys and values fit the lengths of the encoder. *)
Definition fits (M : gmap bytes bytes) : Prop := map_Forall (fun k v => zlen k < 2 ^ 30 /\ zlen v < 2 ^ 32) M.

Definition hashable_map (keccak : bytes -> bytes) (K : bytes -> Prop) (M : gmap bytes bytes) : Prop :=
  fits M /\ Forall K (node_encs keccak (patricia M)).

(** ** Tries of maps *)

Section Root.
Context (keccak : bytes -> bytes) (K : bytes -> Prop).
Hypothesis HM : HashModel keccak K.

Lemma wf_small t : forall fin, wf fin t -> (forall k v, okkey fin k -> get t k = Some v -> zlen k < 2 ^ 32 /\ zlen v < 2 ^ 32) -> small t.
Proof.
  intros fin. induction 1 as [|v Hv|key t Hk Hn Hw IH Ht Hs|cs Hl Hc IH Htwo]; intros Hb; try by constructor.
  - constructor. by apply (Hb [] v).
  - assert (forall k v, okkey (hasTerm key) k -> get t k = Some v -> zlen (key ++ k) < 2 ^ 32 /\ zlen v < 2 ^ 32) as Hb'.
    { intros k v Hok Hv. apply Hb; [by apply okkey_app|by rewrite get_short]. }
    destruct (wf_nonempty _ _ Hw Ht) as (k & v & Hok & Hv). destruct (Hb' k v Hok Hv) as [Hl _]. rewrite length_app in Hl.
    constructor; [lia|]. apply IH. intros k' v' Hok' Hv'. destruct (Hb' k' v' Hok' Hv') as [H1 H2]. rewrite length_app in H1. lia.
  - constructor; [done|]. intros i c Hi. apply (IH i c Hi). intros k v Hok Hv.
    destruct (get_child cs i c k v Hl Hi Hok Hv) as (x & _ & Hok' & Hv'). destruct (Hb _ _ Hok' Hv') as [H1 H2]. simpl in H1. lia.
Qed.

Lemma keybytesToHex_length k : length (keybytesToHex k) = (2 * length k + 1)%nat.
Proof. unfold keybytesToHex. rewrite length_app. simpl. induction k as [|b k IH]; simpl; lia. Qed.

Lemma patricia_small M t : wf false t -> holds t M -> fits M -> small t.
Proof.
  intros Hw Hh Hf. apply (wf_small t false Hw). intros k v Hok Hv. destruct (holds_only _ _ Hh k v Hok Hv) as [kb ->].
  rewrite (holds_get _ _ Hh) in Hv. destruct (Hf kb v Hv) as [H1 H2]. rewrite keybytesToHex_length. lia.
Qed.

Lemma node_encs_inK t fin : wf fin t -> forall r, Forall K (node_encs keccak t) -> inK keccak K r t.
Proof.
  induction 1 as [|v Hv|key t Hk Hn Hw IH Ht Hs|cs Hl Hc IH Htwo]; intros r HF; try by constructor.
  - apply Forall_cons in HF as [H1 H2]. constructor; [by apply IH|done].
  - apply Forall_cons in HF as [H1 H2]. constructor; [|done]. intros i c Hi. apply (IH i c Hi).
    apply Forall_forall. intros b Hb. rewrite Forall_forall in H2. apply H2. apply list_elem_of_In, in_concat.
    exists (node_encs keccak c). split; [apply in_map, list_elem_of_In; by eapply list_elem_of_lookup_2|by apply list_elem_of_In].
Qed.

(** ** The operations on the root *)

Abbreviation trie_at db := (trie_ok db (flag_ok keccak K db) (ref_ok keccak K db)).
Abbreviation keccak_length := (hm_length keccak K HM).

Lemma trie_at_tree db root M : trie_at db root M -> hrep keccak K db true root (patricia M) /\ wf false (patricia M) /\ holds (patricia M) M.
Proof. intros (t & Hr & Hw & Hh). pose proof (patricia_unique t M Hw Hh) as ->. done. Qed.

Lemma root_of_node t : is_node t = true -> root_of keccak t = keccak (enc_tree keccak t).
Proof. by destruct t. Qed.

Lemma wf_is_node t : wf false t -> t <> TNil -> is_node t = true.
Proof. inversion 1; by subst. Qed.

(** [Hash] and [Commit] on a trie that is not empty. *)
Lemma root_hash_node commit root t db dbx :
  hrep keccak K db true root t -> hashing keccak K commit true t -> pre keccak K commit db dbx ->
  exists root' db', root_hash keccak commit root dbx = Done (root_of keccak t, root', db') /\ ext keccak K commit db dbx db' /\
    hrep keccak K (out commit db db') true root' t /\ (commit = true -> stored keccak K db' true t).
Proof.
  intros Hr Ht Hpre. pose proof (hashing_node _ _ _ _ _ Ht) as Hn.
  destruct (hash_ok keccak keccak_length K commit db ltac:(intros _; apply (hm_collision_free _ _ HM)) root true t dbx Hr Ht Hpre)
    as (h & c & db' & Hh & Href & Hext & Hc & Hst).
  exists c, db'. unfold root_hash, hashRoot.
  assert (match root with nilNode => Done (hashNode emptyRoot, nilNode, dbx) | _ => hash keccak commit root true dbx end = Done (h, c, db')) as ->.
  { destruct root; try done. by inversion Hr; subst. }
  unfold ref_node in Href. simpl in Href. subst h. simpl. rewrite toHash_keccak by apply keccak_length. by rewrite root_of_node.
Qed.

Lemma root_hash_nil commit root db dbx :
  hrep keccak K db true root TNil -> root = nilNode /\ root_hash keccak commit root dbx = Done (root_of keccak TNil, nilNode, dbx).
Proof.
  intros Hr. assert (root = nilNode) as ->.
  { inversion Hr as [| | | |? ? n ? Hdb Hst Hn]; subst; [done|]. by apply rep_stored in Hn. }
  split; [done|]. unfold root_hash. simpl. reflexivity.
Qed.

Lemma Hash_at db root M :
  trie_at db root M -> fits M -> exists root', Hash keccak root = Done (trie_root keccak M, root') /\ trie_at db root' M.
Proof.
  intros (Hr & Hw & Hh)%trie_at_tree Hf. unfold Hash, trie_root. destruct (decide (patricia M = TNil)) as [E|Hne].
  - rewrite E in *. destruct (root_hash_nil false root db (mkDB ∅ ∅) Hr) as [-> ->]. exists nilNode. split; [done|]. by exists TNil.
  - destruct (root_hash_node false root (patricia M) db (mkDB ∅ ∅) Hr) as (root' & db' & -> & _ & Hr' & _).
    + split; [done|by apply wf_is_node|by eapply patricia_small|done].
    + by split.
    + exists root'. split; [done|]. by exists (patricia M).
Qed.

Lemma Commit_at db root M :
  trie_at db root M -> db_ok keccak K db -> hashable_map keccak K M ->
  exists root' db', Commit keccak root db = Done (trie_root keccak M, root', db') /\ trie_at db' root' M /\
    db_ok keccak K db' /\ db_le keccak K db db' /\ stored keccak K db' true (patricia M).
Proof.
  intros (Hr & Hw & Hh)%trie_at_tree Hdb [Hf HK]. unfold Commit, trie_root. destruct (decide (patricia M = TNil)) as [E|Hne].
  - rewrite E in *. destruct (root_hash_nil true root db db Hr) as [-> ->]. exists nilNode, db. split; [done|].
    split; [by exists TNil|]. split; [done|]. split; [done|constructor].
  - destruct (root_hash_node true root (patricia M) db db Hr) as (root' & db' & -> & (Hpre & Hle & _) & Hr' & Hst).
    + split; [done|by apply wf_is_node|by eapply patricia_small|]. intros _. by eapply node_encs_inK.
    + split; [done|by intros _].
    + exists root', db'. split; [done|]. split; [by exists (patricia M)|]. split; [by apply Hpre|]. by auto.
Qed.

Lemma enc_node_not_empty t : is_node t = true -> enc_tree keccak t <> [Byte.x80].
Proof.
  intros Hn He. pose proof (Split_list (content keccak t) []) as H. rewrite app_nil_r, <-(enc_content keccak t Hn), He in H.
  by specialize (H eq_refl).
Qed.

Lemma New_at db M :
  db_ok keccak K db -> nonempty_values M -> stored keccak K db true (patricia M) ->
  exists root, New (trie_root keccak M) db = Done (inr root) /\ trie_at db root M.
Proof.
  intros Hdb Hv Hs. destruct (patricia_ok M Hv) as [Hw Hh]. unfold New, trie_root. destruct (decide (patricia M = TNil)) as [E|Hne].
  - rewrite E in *. cbn [root_of]. rewrite (bool_decide_eq_true_2 (emptyRoot = emptyRoot)) by reflexivity. rewrite andb_false_r.
    exists nilNode. split; [done|]. exists TNil. split; [constructor|]. done.
  - pose proof (wf_is_node _ Hw Hne) as Hn. rewrite root_of_node by done.
    destruct (stored_knows keccak K db true _ Hs Hn eq_refl) as [Hk Hdbn]. pose proof (hashable_K _ _ _ Hk) as HK.
    rewrite (bool_decide_eq_false_2 (_ = replicate _ _)) by (by apply (hm_not_zero _ _ HM)).
    rewrite (bool_decide_eq_false_2 (_ = emptyRoot)); simpl.
    + rewrite (resolveHash_stored db _ (load keccak (Some (keccak (enc_tree keccak (patricia M)))) (patricia M)));
        [|by rewrite toHash_keccak by apply keccak_length|by rewrite is_stored_load].
      eexists. split; [done|]. exists (patricia M). split; [|done]. by apply stored_root_rep; try apply keccak_length.
    + destruct (hm_empty_root _ _ HM) as [He <-]. intros Hc. apply (hm_collision_free _ _ HM) in Hc; [|done..].
      by apply enc_node_not_empty in Hc.
Qed.

(** ** Sessions refine maps *)

Record session_ok (s : session) (a : maps) : Prop := {
  so_trie : trie_at (s_db s) (s_root s) a.1;
  so_db : db_ok keccak K (s_db s);
  so_commits : Forall2 (fun h M => h = trie_root keccak M /\ nonempty_values M /\ stored keccak K (s_db s) true (patricia M))
    (s_commits s) a.2 }.

Definition op_hashable (a : maps) (op : trie_op) : Prop :=
  match op with OpHash | OpCommit => hashable_map keccak K a.1 | _ => True end.

Lemma commit_session_ok s M Ms :
  session_ok s (M, Ms) -> hashable_map keccak K M ->
  exists s', run_op keccak s OpCommit = Done (s', RHash (trie_root keccak M)) /\ session_ok s' (M, Ms ++ [M]).
Proof.
  destruct s as [root db commits]. intros [Ht Hdb Hc] Hh. simpl in *.
  destruct (Commit_at db root M Ht Hdb Hh) as (root' & db' & -> & Ht' & Hdb' & Hle & Hst). simpl.
  eexists. split; [done|]. split; [done..|]. simpl. apply Forall2_app.
  - eapply Forall2_impl; [done|]. intros h M' (? & ? & ?). split_and!; [done..|]. by eapply stored_mono.
  - constructor; [|done]. split_and!; [done| |done]. apply trie_at_tree in Ht as (_ & Hw & Hho). by eapply holds_nonempty.
Qed.

Lemma open_session_ok s M Ms i :
  session_ok s (M, Ms) ->
  exists s', run_op keccak s (OpOpen i) = Done (s', RUnit) /\ session_ok s' (default M (Ms !! i), Ms).
Proof.
  destruct s as [root db commits]. intros Hs. pose proof Hs as [Ht Hdb Hc]. simpl in *.
  destruct (commits !! i) as [h|] eqn:E.
  - destruct (Forall2_lookup_l _ _ _ _ _ Hc E) as (M' & -> & -> & Hv & Hst).
    destruct (New_at db M' Hdb Hv Hst) as (root' & -> & Ht'). simpl. eexists. split; [done|]. by split.
  - assert (Ms !! i = None) as ->; [|by eexists; split].
    apply lookup_ge_None. apply lookup_ge_None in E. by rewrite <-(Forall2_length _ _ _ Hc).
Qed.

Lemma run_op_ok s a op :
  session_ok s a -> op_hashable a op ->
  exists s', run_op keccak s op = Done (s', (spec_op keccak a op).2) /\ session_ok s' (spec_op keccak a op).1.
Proof.
  destruct a as [M Ms], s as [root db commits] eqn:Es. intros Hs Hh. pose proof Hs as [Ht Hdb Hc].
  pose proof (flag_ok_new keccak K db) as Hnew. destruct op as [k|k v|k| | |i]; [| | | |by apply commit_session_ok|by apply open_session_ok].
  - destruct (TryGet_ok db _ (ref_ok keccak K db) root M k Ht) as (root' & He & Ht'). simpl. rewrite He. eexists. split; [done|]. by split.
  - destruct (TryUpdate_ok db _ (ref_ok keccak K db) Hnew root M k v Ht) as (root' & He & Ht'). simpl. rewrite He. eexists. split; [done|]. by split.
  - destruct (TryDelete_ok db _ (ref_ok keccak K db) Hnew root M k Ht) as (root' & He & Ht'). simpl. rewrite He. eexists. split; [done|]. by split.
  - destruct Hh as [Hf _]. destruct (Hash_at db root M Ht Hf) as (root' & He & Ht'). simpl. rewrite He. eexists. split; [done|]. by split.
Qed.

Lemma run_ops_ok ops : forall s a,
  session_ok s a -> Forall (hashable_map keccak K) (hashed_maps keccak a ops) ->
  exists s', run_ops keccak s ops = Done (s', (spec_ops keccak a ops).2) /\ session_ok s' (spec_ops keccak a ops).1.
Proof.
  induction ops as [|op ops IH]; intros s a Hs HF; [by exists s|]. cbn [hashed_maps] in HF. apply Forall_app in HF as [H1 H2].
  destruct (run_op_ok s a op Hs) as (s1 & He & Hs1); [unfold op_hashable; destruct op; try done; by apply Forall_singleton|].
  destruct (IH s1 _ Hs1 H2) as (s2 & He2 & Hs2). cbn [run_ops spec_ops]. rewrite He. simpl. rewrite He2. simpl. exists s2.
  destruct (spec_op keccak a op) as [a' r]. simpl in *. by destruct (spec_ops keccak a' ops).
Qed.

(** A new trie on an empty database. *)
Definition empty_session : session := mkSession nilNode (mkDB ∅ ∅) [].

Lemma empty_session_ok : session_ok empty_session (∅, []).
Proof.
  split; simpl; [|by left|done]. exists TNil. split; [constructor|]. split; [constructor|].
  split; [intros k; by rewrite lookup_empty|done].
Qed.
End Root.

(** C3: a trie opened on an empty database behaves, under any sequence of
    reads, updates, deletions, hashes, commits and reopenings of committed
    roots, as a map from keys to values: no operation fails or panics, reads
    return what the map has, reopening a committed root gives back the map at
    that commit, and every hash is the root hash that the Yellow Paper defines
    for the current map. *)
Theorem trie_refines_map keccak K ops :
  HashModel keccak K -> Forall (hashable_map keccak K) (hashed_maps keccak (∅, []) ops) ->
  exists s', run_ops keccak empty_session ops = Done (s', (spec_ops keccak (∅, []) ops).2).
Proof.
  intros HM HF. destruct (run_ops_ok keccak K HM ops empty_session (∅, [])) as (s' & He & _); [|done|by exists s'].
  apply empty_session_ok.
Qed.
