(* ===== verification/TrieProof.v ===== *)
(** * trie: Merkle proofs (proof.go)
    [Prove] writes the nodes on the path to a key, by hash; [VerifyProof] reads
    the path from a root hash.  [VerifyProof] trusts the database of the proof
    to keep its nodes by their hashes.  Then it returns nothing but the content
    of the trie with that root, and on what [Prove] wrote it does return it. *)

From S2P Require Import Prelude MathUtil Rlp RlpEncode RlpStream RlpDecode RlpRaw TrieBase Trie TrieSpec TrieOps TrieHash TrieDecode TrieCommit TriePatricia TrieSession.

(** ** Reading a proof *)

(** The node behind the part of [key] that leads through [tn] (its [get]). *)
Fixpoint proof_get (tn : node) (key : bytes) : outcome (bytes * node) :=
  match tn with
  | shortNode k v _ =>
      if (length key <? length k)%nat || negb (bool_decide (k = take (length k) key)) then Done ([], nilNode)
      else proof_get v (drop (length k) key)
  | fullNode cs _ =>
      match key with
      | [] => Panic IndexOutOfRange
      | x :: key =>
          match map proof_get cs !! idx x with
          | Some get => get key
          | None => Panic IndexOutOfRange
          end
      end
  | hashNode _ | nilNode => Done (key, tn)
  | valueNode _ => Done ([], tn)
  end.

Inductive proofError := ProofMissing (i : Z) (hash : bytes) | BadProofNode (i : Z) (e : nodeError).

(** [copy(wantHash[:], cld)] *)
Definition copy_hash (wantHash cld : bytes) : bytes := take 32 cld ++ drop (length cld) wantHash.

(** The value, [None] if the key is absent, and the number of nodes. *)
Fixpoint VerifyProof_loop (fuel : nat) (i : Z) (wantHash key : bytes) (proofDb : gmap bytes bytes)
    : outcome (proofError + option bytes * Z) :=
  match fuel with
  | O => OutOfFuel
  | S fuel =>
      match proofDb !! wantHash with
      | None => Done (inl (ProofMissing i wantHash))
      | Some buf =>
          let! n := decodeNode (S (length buf)) (Some wantHash) buf in
          match n with
          | inl e => Done (inl (BadProofNode i e))
          | inr n =>
              let! '(keyrest, cld) := proof_get n key in
              match cld with
              | nilNode => Done (inr (None, i))
              | hashNode h => VerifyProof_loop fuel (i + 1) (copy_hash wantHash h) keyrest proofDb
              | valueNode v => Done (inr (Some v, i + 1))
              | _ => VerifyProof_loop fuel (i + 1) wantHash key proofDb
              end
          end
      end
  end.

(** One node for each nibble is enough, in a proof made of nodes of a trie. *)
Definition VerifyProof (rootHash key : bytes) (proofDb : gmap bytes bytes) : outcome (proofError + option bytes * Z) :=
  let key := keybytesToHex key in
  VerifyProof_loop (S (length key)) 0 rootHash key proofDb.

(** ** Making a proof *)

(** The nodes on the path to [key]. *)
Fixpoint prove_path (db : Database) (fuel : nat) (tn : node) (key : bytes) : outcome (MissingNodeError + list node) :=
  match fuel with
  | O => OutOfFuel
  | S fuel =>
      match key, tn with
      | [], _ | _, nilNode => Done (inr [])
      | _, shortNode k v _ =>
          if (length key <? length k)%nat || negb (bool_decide (k = take (length k) key)) then Done (inr [tn])
          else
            let! r := prove_path db fuel v (drop (length k) key) in
            match r with inl e => Done (inl e) | inr ns => Done (inr (tn :: ns)) end
      | x :: key, fullNode cs _ =>
          let! c := child cs x in
          let! r := prove_path db fuel c key in
          match r with inl e => Done (inl e) | inr ns => Done (inr (tn :: ns)) end
      | _, hashNode h =>
          let! r := resolveHash db h [] in
          match r with inl e => Done (inl e) | inr n => prove_path db fuel n key end
      | _, valueNode _ => Panic InvalidNode
      end
  end.

(** [hashChildren] without a database: the node with references for children. *)
Definition hashChildren (keccak : bytes -> bytes) (n : node) : outcome (node * node) :=
  let db := mkDB ∅ ∅ in
  match n with
  | shortNode k v f =>
      match v with
      | valueNode _ => Done (shortNode (hexToCompact k) v f, n)
      | _ => let! '(h, c, _) := hash keccak false v false db in Done (shortNode (hexToCompact k) h f, shortNode k c f)
      end
  | fullNode cs f => let! '(hs, cs', _) := hash_children (hash keccak false) O cs db in Done (fullNode hs f, fullNode cs' f)
  | _ => Done (n, n)
  end.

Fixpoint prove_nodes (keccak : bytes -> bytes) (first : bool) (nodes : list node) (fromLevel : Z) (proofDb : gmap bytes bytes)
    : outcome (gmap bytes bytes) :=
  match nodes with
  | [] => Done proofDb
  | n :: nodes =>
      let! '(n, _) := hashChildren keccak n in
      let! '(hn, _) := store keccak false n (mkDB ∅ ∅) false in
      let hash := match hn with hashNode h => Some h | _ => None end in
      if bool_decide (is_Some hash) || first then
        if 0 <? fromLevel then prove_nodes keccak false nodes (fromLevel - 1) proofDb
        else
          let! enc := rlp_Encode n in
          prove_nodes keccak false nodes fromLevel (<[default (keccak enc) hash := enc]> proofDb)
      else prove_nodes keccak false nodes fromLevel proofDb
  end.

Definition Prove (keccak : bytes -> bytes) (db : Database) (root : node) (key : bytes) (fromLevel : Z) (proofDb : gmap bytes bytes)
    : outcome (MissingNodeError + gmap bytes bytes) :=
  let key := keybytesToHex key in
  let! r := prove_path db (key_fuel key) root key in
  match r with
  | inl e => Done (inl e)
  | inr nodes => let! p := prove_nodes keccak true nodes fromLevel proofDb in Done (inr p)
  end.

(** ** Paths *)

Section Paths.
Variable keccak : bytes -> bytes.
Abbreviation enc_tree := (enc_tree keccak).
Abbreviation hashed := (hashed keccak).

(** The nodes below [t] that are referred to by hash on the path to [key]. *)
Definition by_hash (t : tree) : list tree := if is_node t && hashed false t then [t] else [].

Fixpoint hashed_path (t : tree) (key : bytes) : list tree :=
  match t with
  | TShort p c => match strip p key with Some key => by_hash c ++ hashed_path c key | None => [] end
  | TFull cs =>
      match key with
      | [] => []
      | x :: key => match map (fun c key => by_hash c ++ hashed_path c key) cs !! idx x with Some f => f key | None => [] end
      end
  | _ => []
  end.

Lemma hashed_path_full cs x key c : cs !! idx x = Some c -> hashed_path (TFull cs) (x :: key) = by_hash c ++ hashed_path c key.
Proof. intros Hc. simpl. by rewrite list_lookup_fmap, Hc. Qed.

(** What [proof_get] finds on a node read from a proof. *)
Inductive found (t : tree) (key : bytes) : bytes * node -> Prop :=
| found_nil rest : get t key = None -> found t key (rest, nilNode)
| found_val rest v : get t key = Some v -> found t key (rest, valueNode v)
| found_hash rest c :
    c ∈ hashed_path t key -> (forall x, x ∈ hashed_path c rest -> x ∈ hashed_path t key) -> get t key = get c rest ->
    okkey false rest -> wf false c -> is_node c = true -> (length rest < length key)%nat ->
    found t key (rest, hashNode (keccak (enc_tree c))).

(** The same for what a parent has in the place of [t]. *)
Lemma found_ref t fin key :
  wf fin t -> okkey fin key -> (is_node t = true -> forall h, exists r, proof_get (load keccak h t) key = Done r /\ found t key r) ->
  exists r, proof_get (load_ref keccak t (load keccak None t)) key = Done r /\
    (found t key r \/ r = (key, hashNode (keccak (enc_tree t))) /\ by_hash t = [t] /\ is_node t = true).
Proof.
  intros Hw Hk Hl. destruct (is_node t) eqn:Hn.
  - rewrite load_ref_hashed by done. destruct (hashed false t) eqn:Hh.
    + eexists. split; [done|]. right. unfold by_hash. by rewrite Hn, Hh.
    + destruct (Hl eq_refl None) as (r & Hr & Hf). by exists r; split; [|left].
  - unfold load_ref. rewrite Hn. simpl. destruct t as [|v| |]; try done; simpl.
    + eexists. split; [done|]. left. by constructor.
    + eexists. split; [done|]. left. constructor. inversion Hw; subst. by rewrite Hk.
Qed.

(** From the child at the end of [p] to the node. *)
Lemma found_up t c p key r :
  p <> [] -> wf false c \/ is_node c = false -> get t (p ++ key) = get c key -> hashed_path t (p ++ key) = by_hash c ++ hashed_path c key ->
  (okkey false key \/ is_node c = false) ->
  (found c key r \/ r = (key, hashNode (keccak (enc_tree c))) /\ by_hash c = [c] /\ is_node c = true) -> found t (p ++ key) r.
Proof.
  intros Hp Hw Hg Hh Hok [Hf|(-> & Hb & Hn)].
  - destruct Hf as [rest Hf|rest v Hf|rest d Hd Hsub Hgd Hokd Hwd Hnd Hl]; [constructor; congruence..|].
    apply found_hash; try done.
    + rewrite Hh. set_solver.
    + intros x Hx. rewrite Hh. apply elem_of_app. right. by apply Hsub.
    + congruence.
    + rewrite length_app. lia.
  - destruct Hw as [Hw|Hw]; [|congruence]. destruct Hok as [Hok|Hok]; [|congruence]. apply found_hash; try done.
    + rewrite Hh, Hb. set_solver.
    + intros x Hx. rewrite Hh. set_solver.
    + rewrite length_app. destruct p; [done|]. simpl. lia.
Qed.

Lemma wf_true_not_node t : wf true t -> is_node t = false.
Proof. by intros [->|(v & -> & _)]%wf_true_inv. Qed.

Lemma proof_get_load t fin : wf fin t -> is_node t = true -> forall key h, okkey fin key ->
  exists r, proof_get (load keccak h t) key = Done r /\ found t key r.
Proof.
  induction 1 as [|v Hv|p c Hp Hn Hw IH Hc Hs|cs Hl Hc IH Htwo]; intros Hnode key h Hk; try done.
  - cbn [load proof_get]. pose proof (strip_take p key) as Hst. destruct (_ || _) eqn:E.
    + eexists. split; [done|]. constructor. simpl. by rewrite Hst.
    + apply strip_Some in Hst. set (rest := drop (length p) key) in *. rewrite Hst in Hk |- *. apply okkey_app in Hk; [|done..].
      destruct (found_ref c (hasTerm p) rest Hw Hk) as (r & Hr & Hf).
      { intros Hnc h'. by apply IH. }
      exists r. split; [done|]. apply (found_up _ c); try done.
      * destruct (hasTerm p); [right; by apply wf_true_not_node|by left].
      * by rewrite get_short.
      * simpl. by rewrite strip_app.
      * destruct (hasTerm p); [right; by apply wf_true_not_node|by left].
  - destruct key as [|x key]; [by apply okkey_nil in Hk|]. apply okkey_cons in Hk as [Hx Hk].
    destruct (wf_full_lookup cs x Hl Hx) as [c Hcx]. cbn [load proof_get].
    rewrite map_map, (list_lookup_fmap (fun c => proof_get (load_ref keccak c (load keccak None c)))), Hcx. simpl.
    destruct (found_ref c _ key (Hc _ _ Hcx) Hk) as (r & Hr & Hf).
    { intros Hnc h'. by apply (IH _ _ Hcx). }
    exists r. split; [done|]. apply (found_up _ c [x] key); try done.
    + specialize (Hc _ _ Hcx). destruct (bool_decide _); [right; by apply wf_true_not_node|by left].
    + cbn [app]. by rewrite get_full, Hcx.
    + by apply hashed_path_full.
    + specialize (Hc _ _ Hcx). destruct (bool_decide _); [right; by apply wf_true_not_node|by left].
Qed.
End Paths.

(** ** Verification *)

Section Verify.
Variable keccak : bytes -> bytes.
Hypothesis keccak_length : forall b, length (keccak b) = 32%nat.
Abbreviation enc_tree := (enc_tree keccak).
Abbreviation hashed_path := (hashed_path keccak).

Lemma small_path t key c : small t -> c ∈ hashed_path t key -> small c.
Proof.
  intros Hs. revert key. induction Hs as [|v Hv|k t Hk Ht IH|cs Hl Hc IH]; intros key; try set_solver.
  - simpl. destruct (strip k key) as [key'|]; [|set_solver]. intros [Hin|Hin]%elem_of_app; [|by eapply IH].
    unfold by_hash in Hin. destruct (_ && _); set_solver.
  - destruct key as [|x key]; [set_solver|]. simpl. rewrite list_lookup_fmap. destruct (cs !! idx x) as [d|] eqn:E; [|set_solver]. simpl.
    intros [Hin|Hin]%elem_of_app; [|by eapply IH]. unfold by_hash in Hin. destruct (_ && _); [|set_solver].
    apply list_elem_of_singleton in Hin as ->. by eapply Hc.
Qed.

Lemma copy_hash_keccak a b : copy_hash (keccak a) (keccak b) = keccak b.
Proof.
  unfold copy_hash. rewrite keccak_length, drop_ge by (by rewrite keccak_length). rewrite take_ge by (by rewrite keccak_length).
  apply app_nil_r.
Qed.

(** The nodes a verification of [key] asks for. *)
Definition asked (t : tree) (key : bytes) : list tree := t :: hashed_path t key.

Definition proof_sound (proofDb : gmap bytes bytes) (t : tree) (key : bytes) : Prop :=
  forall c b, c ∈ asked t key -> proofDb !! keccak (enc_tree c) = Some b -> b = enc_tree c.

Definition verified (proofDb : gmap bytes bytes) (t : tree) (key : bytes) (r : proofError + option bytes * Z) : Prop :=
  match r with
  | inr (v, _) => v = get t key
  | inl (ProofMissing _ h) => exists c, c ∈ asked t key /\ h = keccak (enc_tree c) /\ proofDb !! h = None
  | inl (BadProofNode _ _) => False
  end.

Lemma verify_ok fuel : forall i t key proofDb,
  wf false t -> is_node t = true -> small t -> okkey false key -> proof_sound proofDb t key -> (length key < fuel)%nat ->
  exists r, VerifyProof_loop fuel i (keccak (enc_tree t)) key proofDb = Done r /\ verified proofDb t key r.
Proof.
  induction fuel as [|fuel IH]; intros i t key proofDb Hw Hn Hs Hk Hp Hf; [lia|]. cbn [VerifyProof_loop].
  destruct (proofDb !! keccak (enc_tree t)) as [b|] eqn:E.
  2: { eexists. split; [done|]. exists t. split; [left|done]. }
  assert (b = enc_tree t) as -> by (apply (Hp t b); [left|done]).
  pose proof (enc_small keccak keccak_length t Hs) as Hl.
  pose proof (decodeNode_enc keccak keccak_length (S (length (enc_tree t))) t (Some (keccak (enc_tree t))) []) as Hd.
  rewrite app_nil_r in Hd. rewrite Hd by (done || lia). clear Hd. cbn [obind].
  destruct (proof_get_load keccak t false Hw Hn key (Some (keccak (enc_tree t))) Hk) as (r & -> & Hr).
  cbn [obind]. destruct Hr as [rest Hg|rest v Hg|rest c Hc Hsub Hg Hok Hwc Hnc Hlen].
  - eexists. by split.
  - eexists. by split.
  - rewrite copy_hash_keccak. destruct (IH (i + 1) c rest proofDb Hwc Hnc (small_path t key c Hs Hc) Hok) as (r & Hr & Hv); [|lia|].
    { intros d b [->|Hd]%elem_of_cons; [apply Hp; by right|]. apply Hp. right. by apply Hsub. }
    exists r. split; [done|]. destruct r as [[j h|j e]|[v j]]; simpl in Hv |- *; [|done|by rewrite Hg].
    destruct Hv as (d & Hd & -> & Hnone). exists d. split_and!; try done. unfold asked in *.
    apply elem_of_cons in Hd as [->|Hd]; [by right|]. right. by apply Hsub.
Qed.
End Verify.

(** ** Construction *)

Section Construct.
Variable keccak : bytes -> bytes.
Hypothesis keccak_length : forall b, length (keccak b) = 32%nat.
Variable K : bytes -> Prop.
Abbreviation enc_tree := (enc_tree keccak).
Abbreviation hrep := (hrep keccak K).

(** All nodes on the path. *)
Fixpoint path (t : tree) (key : bytes) : list tree :=
  match t with
  | TShort p c => t :: match strip p key with Some key => path c key | None => [] end
  | TFull cs => t :: match key with [] => [] | x :: key => match map path cs !! idx x with Some f => f key | None => [] end end
  | _ => []
  end.

Definition stands (db : Database) (n : node) (t : tree) : Prop := is_stored n = true /\ exists r, hrep db r n t.

Lemma prove_path_ok db fuel : forall r n t fin key,
  hrep db r n t -> wf fin t -> okkey fin key -> (need n key <= fuel)%nat ->
  exists ns, prove_path db fuel n key = Done (inr ns) /\ Forall2 (stands db) ns (path t key).
Proof.
  induction fuel as [|fuel IH]; intros r n t fin key Hr Hw Hk Hf; [unfold need in Hf; destruct (is_hash n); lia|].
  destruct key as [|x key].
  { exists []. split; [by destruct n|]. destruct fin; [|by apply okkey_nil in Hk]. destruct (wf_true_inv t Hw) as [->|(v & -> & _)]; constructor. }
  destruct fin; [done|].
  inversion Hr as [|? v|? p v c f Hv Hflag|? ns ts f Hl Hcs Hflag|? h m ? Hdb Hst Hm HQ]; subst.
  - exists []. by split; [|constructor].
  - inversion Hw.
  - inversion Hw as [| |? ? Hp Hn Hwc Hc Hs|]; subst. cbn [prove_path path]. pose proof (strip_take p (x :: key)) as Hstrip.
    assert (stands db (shortNode p v f) (TShort p c)) as Hst by (split; [done|by exists r]).
    destruct (_ || _) eqn:E; rewrite Hstrip; [exists [shortNode p v f]; split; [done|by constructor; [|constructor]]|].
    apply strip_Some in Hstrip. set (rest := drop (length p) (x :: key)) in *. rewrite Hstrip in Hk. apply okkey_app in Hk; [|done..].
    destruct (IH false v c _ rest Hv Hwc Hk) as (ns & -> & Hns).
    { unfold need in *. apply (f_equal length) in Hstrip. rewrite length_app in Hstrip. destruct p; [done|]. simpl in *. destruct (is_hash v); lia. }
    eexists. split; [done|]. by constructor.
  - inversion Hw as [| | |? Hlen Hwc Htwo]; subst. apply okkey_cons in Hk as [Hx Hk].
    destruct (wf_full_lookup ts x Hlen Hx) as [c Hc].
    destruct (lookup_lt_is_Some_2 ns (idx x)) as [cn Hcn]; [rewrite Hl; lia|].
    cbn [prove_path path]. unfold child. rewrite Hcn. cbn [or_panic obind].
    destruct (IH false cn c _ key (Hcs _ _ _ Hcn Hc) (Hwc _ _ Hc) Hk) as (ms & -> & Hms).
    { unfold need in *. simpl in *. destruct (is_hash cn); lia. }
    rewrite list_lookup_fmap, Hc. eexists. split; [done|]. constructor; [|done]. split; [done|by exists r].
  - cbn [prove_path]. rewrite (resolveHash_stored db h m) by done. cbn [obind]. apply (IH r m t false); try done.
    unfold need in *. simpl in *. destruct m; simpl in *; try done; lia.
Qed.

Lemma hashChildren_ok db n t :
  stands db n t -> wf false t -> small t ->
  exists cn c f, hashChildren keccak n = Done (cn, c) /\ simplifyNode cn = raw keccak t /\ cache cn = (flag_hash f, flag_dirty f) /\
    (forall h, flag_hash f = Some h -> h = keccak (enc_tree t)).
Proof.
  intros [Hst [r Hr]] Hw Hs. assert (forall n, hash_good keccak K false db n) as Hgood by (intros m; by apply hash_ok).
  inversion Hr as [| |? p v c f Hv Hflag|? ns ts f Hl Hcs Hflag|]; subst; try done.
  - assert (forall h, flag_hash f = Some h -> h = keccak (enc_tree (TShort p c))) as Hcache.
    { intros h Hh. unfold flag_ok in Hflag. rewrite Hh in Hflag. apply Hflag. }
    inversion Hw as [| |? ? Hp Hn Hwc Hc Hsh|]; subst. inversion Hs as [| |? ? Hp' Hsc|]; subst. destruct (is_node c) eqn:Hnc.
    + destruct (Hgood v false c (mkDB ∅ ∅) Hv) as (h & c' & db' & He & Href & _).
      { eapply (hashing_child keccak K false r p); [|done]. by split. }
      { by split. }
      exists (shortNode (hexToCompact p) h f), (shortNode p c' f), f. split_and!; [|simpl; by rewrite (ref_node_raw keccak h c)|done|done].
      destruct v; try done; cbn [hashChildren]; try by rewrite He. inversion Hv; by subst.
    + assert (exists b, c = TVal b /\ v = valueNode b) as (b & -> & ->).
      { destruct c; try done. inversion Hv as [| | | |? ? n ? ? Hstn Hn']; subst; [by eauto|]. by apply rep_stored in Hn'. }
      by eexists _, _, f.
  - inversion Hw as [| | |? Hlen Hwc Htwo]; subst. inversion Hs as [| | |? _ Hsc]; subst.
    destruct (hash_children_ok keccak keccak_length K false db ns ts 0 (mkDB ∅ ∅)) as (hs & cs & db' & He & Hraw & _); try done; [by apply Forall_forall|..].
    { intros j n t Hn Ht. split; [by eapply Hcs|by apply Hwc|by eapply Hsc|done]. }
    { lia. }
    exists (fullNode hs f), (fullNode cs f), f. cbn [hashChildren]. rewrite He. split_and!; [done|simpl; by rewrite Hraw|done|].
    intros h Hh. unfold flag_ok in Hflag. rewrite Hh in Hflag. apply Hflag.
Qed.

(** The nodes that become elements of a proof. *)
Fixpoint elems (first : bool) (ts : list tree) : list tree :=
  match ts with
  | [] => []
  | t :: ts => (if hashed keccak false t || first then [t] else []) ++ elems false ts
  end.

Definition put (m : gmap bytes bytes) (t : tree) : gmap bytes bytes := <[keccak (enc_tree t) := enc_tree t]> m.

Lemma prove_nodes_ok db ns ts : Forall2 (stands db) ns ts -> Forall (fun t => wf false t /\ small t) ts ->
  forall first level m, 0 <= level ->
  prove_nodes keccak first ns level m = Done (foldl put m (drop (Z.to_nat level) (elems first ts))).
Proof.
  induction 1 as [|n t ns ts Hn Hns IH]; intros HF first level m Hlevel; [by destruct (Z.to_nat level)|].
  apply Forall_cons in HF as [[Hw Hs] HF]. specialize (IH HF). cbn [prove_nodes elems].
  destruct (hashChildren_ok db n t Hn Hw Hs) as (cn & c & f & -> & Hraw & Hcache & Hh). cbn [obind].
  assert (is_node t = true) as Hnt by (destruct Hn as [Hst [r Hr]]; by eapply rep_stored).
  assert (enc_node cn = enc_tree t) as He by (apply (enc_simplify keccak cn false); [done|by intros ->|done]).
  rewrite (store_eq keccak keccak_length K false cn false t) by (done || by rewrite Hcache). cbn [negb].
  pose proof (enc_small keccak keccak_length t Hs).
  destruct (hashed keccak false t) eqn:Hht; cbn [obind orb app].
  - rewrite bool_decide_eq_true_2 by (by eexists). cbn [orb]. destruct (Z.ltb_spec 0 level) as [Hl|Hl].
    + rewrite IH by lia. by replace (Z.to_nat level) with (S (Z.to_nat (level - 1))) by lia.
    + replace level with 0 by lia. rewrite rlp_Encode_ok, He by (rewrite He; lia). cbn [obind default]. by rewrite IH.
  - assert (match cn with hashNode h => Some h | _ => None end = None) as -> by (destruct cn, t; done).
    rewrite bool_decide_eq_false_2 by (by intros [? ?]). destruct first; cbn [orb app]; [|by apply IH].
    destruct (Z.ltb_spec 0 level) as [Hl|Hl].
    + rewrite IH by lia. by replace (Z.to_nat level) with (S (Z.to_nat (level - 1))) by lia.
    + replace level with 0 by lia. rewrite rlp_Encode_ok, He by (rewrite He; lia). cbn [obind default]. by rewrite IH.
Qed.

Lemma elems_path t fin key : wf fin t -> elems false (path t key) = by_hash keccak t ++ hashed_path keccak t key.
Proof.
  intros Hw. revert key. induction Hw as [| |p c Hp Hn Hw IH Hc Hs|cs Hl Hwc IH Htwo]; intros key; try done.
  - cbn [path elems hashed_path]. unfold by_hash at 1. cbn [is_node is_short is_full orb andb]. rewrite orb_false_r. f_equal.
    destruct (strip p key); [apply IH|done].
  - cbn [path elems hashed_path]. unfold by_hash at 1. cbn [is_node is_short is_full orb andb]. rewrite orb_false_r. f_equal.
    destruct key as [|x key]; [done|]. rewrite !list_lookup_fmap. destruct (cs !! idx x) as [c|] eqn:E; [|done]. simpl. by eapply IH.
Qed.

Lemma elems_asked t key : wf false t -> is_node t = true -> elems true (path t key) = asked keccak t key.
Proof.
  intros Hw Hn. pose proof (elems_path t false key Hw) as H. unfold asked. unfold by_hash in H. rewrite Hn in H.
  destruct t as [| |p c|cs]; try done; cbn [path elems] in *; rewrite orb_true_r; rewrite orb_false_r in H; cbn [app andb] in *; f_equal;
    by apply app_inv_head in H.
Qed.

Lemma path_ok t fin key : wf fin t -> small t -> Forall (fun c => wf false c /\ small c) (path t key).
Proof.
  intros Hw. revert key. induction Hw as [| |p c Hp Hn Hw IH Hc Hs|cs Hl Hwc IH Htwo]; intros key Hsm; try constructor.
  - split; [by constructor|done].
  - inversion Hsm; subst. destruct (strip p key); [by apply IH|constructor].
  - split; [by constructor|done].
  - inversion Hsm as [| | |? _ Hsc]; subst. destruct key as [|x key]; [constructor|]. rewrite list_lookup_fmap.
    destruct (cs !! idx x) as [c|] eqn:E; [|constructor]. simpl. by eapply IH; [|eapply Hsc].
Qed.

Lemma foldl_put ts : forall m h b, foldl put m ts !! h = Some b -> m !! h = Some b \/ exists t, t ∈ ts /\ h = keccak (enc_tree t) /\ b = enc_tree t.
Proof.
  induction ts as [|t ts IH]; intros m h b Hb; simpl in Hb; [by left|]. destruct (IH _ _ _ Hb) as [H|(t' & H & ? & ?)].
  - unfold put in H. apply lookup_insert_Some in H as [[<- <-]|[_ H]]; [|by left]. right. exists t. by split; [left|].
  - right. exists t'. by split; [right|].
Qed.

Lemma foldl_put_dom ts t : forall m, t ∈ ts \/ is_Some (m !! keccak (enc_tree t)) -> is_Some (foldl put m ts !! keccak (enc_tree t)).
Proof.
  induction ts as [|t' ts IH]; intros m H; simpl; [by destruct H as [H%elem_of_nil|H]|]. apply IH. unfold put.
  destruct H as [[->|H]%elem_of_cons|H]; [right; by rewrite lookup_insert_eq|by left|]. right. by apply lookup_insert_is_Some'; right.
Qed.
End Construct.

(** ** Proofs of the content of a trie *)

Section Theorems.
Context (keccak : bytes -> bytes) (K : bytes -> Prop).
Hypothesis HM : HashModel keccak K.
Abbreviation keccak_length := (hm_length keccak K HM).

Lemma by_hash_encs t c : c ∈ by_hash keccak t -> enc_tree keccak c ∈ node_encs keccak t.
Proof.
  unfold by_hash. destruct (is_node t) eqn:Hn; cbn [andb]; [|by intros ?%elem_of_nil]. destruct (hashed keccak false t); [|by intros ?%elem_of_nil].
  intros ->%list_elem_of_singleton. destruct t; try done; cbn [node_encs]; left.
Qed.

Lemma hashed_path_encs t fin key c : wf fin t -> c ∈ hashed_path keccak t key -> enc_tree keccak c ∈ node_encs keccak t.
Proof.
  intros Hw. revert key. induction Hw as [|v|p d Hp Hn Hw IH Hd Hs|cs Hl Hwc IH Htwo]; intros key Hin; try by apply elem_of_nil in Hin.
  - simpl in Hin. destruct (strip p key) as [k|]; [|by apply elem_of_nil in Hin]. cbn [node_encs]. right.
    apply elem_of_app in Hin as [Hin|Hin]; [by apply by_hash_encs|by eapply IH].
  - destruct key as [|x key]; [by apply elem_of_nil in Hin|]. simpl in Hin. rewrite list_lookup_fmap in Hin. destruct (cs !! idx x) as [d|] eqn:E; [|by apply elem_of_nil in Hin].
    simpl in Hin. cbn [node_encs]. right. apply list_elem_of_In, in_concat. exists (node_encs keccak d).
    split; [apply in_map, list_elem_of_In; by eapply list_elem_of_lookup_2|]. apply list_elem_of_In.
    apply elem_of_app in Hin as [Hin|Hin]; [by apply by_hash_encs|by eapply IH].
Qed.

Lemma asked_K M t key c : t = patricia M -> wf false t -> is_node t = true -> hashable_map keccak K M -> c ∈ asked keccak t key -> K (enc_tree keccak c).
Proof.
  intros -> Hw Hn [_ HF] Hc. rewrite Forall_forall in HF. apply HF. apply elem_of_cons in Hc as [->|Hc]; [|by eapply hashed_path_encs].
  destruct (patricia M); try done; cbn [node_encs]; left.
Qed.

Lemma map_node M : nonempty_values M -> M <> ∅ -> is_node (patricia M) = true.
Proof.
  intros Hv Hne. destruct (patricia_ok M Hv) as [Hw Hh]. apply wf_is_node; [done|]. intros E. apply Hne. apply map_eq. intros k.
  rewrite <-(holds_get _ _ Hh), E, lookup_empty. done.
Qed.

(** A proof database that keeps its nodes by their hashes. *)
Definition keyed_by_hash (proofDb : gmap bytes bytes) : Prop := forall h b, proofDb !! h = Some b -> h = keccak b /\ K b.

Lemma verify_map M key proofDb :
  hashable_map keccak K M -> nonempty_values M -> M <> ∅ -> keyed_by_hash proofDb ->
  exists r, VerifyProof (trie_root keccak M) key proofDb = Done r /\ verified keccak proofDb (patricia M) (keybytesToHex key) r.
Proof.
  intros HMK Hv Hne Hp. destruct (patricia_ok M Hv) as [Hw Hh]. pose proof (map_node M Hv Hne) as Hn.
  unfold VerifyProof, trie_root. rewrite root_of_node by done.
  apply (verify_ok keccak keccak_length); try done; [by eapply patricia_small; [..|apply HMK]|apply keybytesToHex_ok| |lia].
  intros c b Hc Hb. destruct (Hp _ _ Hb) as [Hk Kb]. apply (hm_collision_free _ _ HM); [done|by eapply asked_K|done].
Qed.

(** The empty trie has a root hash but no node. *)
Lemma verify_empty key proofDb :
  keyed_by_hash proofDb -> exists e, VerifyProof emptyRoot key proofDb = Done (inl e) /\
    match e with ProofMissing _ h => proofDb !! h = None | _ => True end.
Proof.
  intros Hp. unfold VerifyProof. cbn [VerifyProof_loop]. destruct (proofDb !! emptyRoot) as [b|] eqn:E; [|eexists; by split].
  destruct (Hp _ _ E) as [Hk Kb]. destruct (hm_empty_root _ _ HM) as [Ke Ee]. rewrite <-Ee in Hk.
  apply (hm_collision_free _ _ HM) in Hk as <-; [|done..]. simpl. eexists. by split.
Qed.
(** The proof made of all nodes a verification asks for. *)
Definition full_proof (M : gmap bytes bytes) (key : bytes) : gmap bytes bytes :=
  foldl (put keccak) ∅ (asked keccak (patricia M) (keybytesToHex key)).

Lemma full_proof_ok M key :
  hashable_map keccak K M -> nonempty_values M -> M <> ∅ ->
  keyed_by_hash (full_proof M key) /\ exists n, VerifyProof (trie_root keccak M) key (full_proof M key) = Done (inr (M !! key, n)).
Proof.
  intros HMK Hv Hne. destruct (patricia_ok M Hv) as [Hw Hh]. pose proof (map_node M Hv Hne) as Hn. set (p := full_proof M key).
  assert (keyed_by_hash p) as Hkeyed.
  { intros h b [H|(t & Hin & -> & ->)]%foldl_put; [done|]. split; [done|]. by eapply (asked_K M (patricia M)). }
  split; [done|]. destruct (verify_map M key p HMK Hv Hne Hkeyed) as (r & Hr & Hver). exists (match r with inr (_, n) => n | _ => 0 end).
  rewrite Hr. destruct r as [[i h|i e]|[v i]]; simpl in Hver; [|done|by rewrite Hver, (holds_get _ _ Hh)].
  destruct Hver as (c & Hc & -> & Hnone). destruct (foldl_put_dom keccak _ c ∅ (or_introl Hc)) as [b Hb].
  unfold p, full_proof in Hnone. by rewrite Hnone in Hb.
Qed.

Lemma Prove_at db root M key :
  hashable_map keccak K M -> M <> ∅ -> trie_ok db (flag_ok keccak K db) (ref_ok keccak K db) root M ->
  Prove keccak db root key 0 ∅ = Done (inr (full_proof M key)).
Proof.
  intros HMK Hne Ht. pose proof (trie_at_tree keccak K db root M Ht) as (Hr & Hw & Hh). pose proof (holds_nonempty _ _ Hw Hh) as Hv.
  pose proof (map_node M Hv Hne) as Hn. pose proof (patricia_small M _ Hw Hh (proj1 HMK)) as Hs. set (k := keybytesToHex key).
  destruct (prove_path_ok keccak K db (key_fuel k) true root _ false k Hr Hw (keybytesToHex_ok key) (need_key_fuel root k)) as (ns & Hns & HF).
  unfold Prove. fold k. rewrite Hns. cbn [obind].
  rewrite (prove_nodes_ok keccak keccak_length K db ns _ HF) by (done || by eapply path_ok). by rewrite elems_asked.
Qed.
End Theorems.

(** C11: a Merkle proof proves nothing false: whatever nodes a proof contains, as
    long as each is kept under its hash, checking it against the root hash of a
    map neither panics nor loops, and if it succeeds the answer, a value or the
    absence of the key, is what the map has. *)
Theorem VerifyProof_sound keccak K M key proofDb :
  HashModel keccak K -> hashable_map keccak K M -> nonempty_values M -> keyed_by_hash keccak K proofDb ->
  exists r, VerifyProof (trie_root keccak M) key proofDb = Done r /\
    match r with
    | inr (v, _) => v = M !! key
    | inl (ProofMissing _ h) => proofDb !! h = None
    | inl (BadProofNode _ _) => M = ∅
    end.
Proof.
  intros HM HMK Hv Hp. destruct (decide (M = ∅)) as [->|Hne].
  - unfold trie_root. change (root_of keccak (patricia ∅)) with emptyRoot.
    destruct (verify_empty keccak K HM key proofDb Hp) as (e & Hr & He). exists (inl e). split; [done|]. by destruct e.
  - destruct (verify_map keccak K HM M key proofDb HMK Hv Hne Hp) as (r & Hr & Hver). exists r. split; [done|].
    destruct r as [[i h|i e]|[v i]]; simpl in Hver; [by destruct Hver as (c & _ & _ & ?)|done|].
    destruct (patricia_ok M Hv) as [_ Hh]. by rewrite (holds_get _ _ Hh) in Hver.
Qed.

(** C39: in any state with at least one entry that a trie can be brought to, the
    proof that [Prove] writes for a key, present or absent, keeps its nodes by
    hash, and is accepted by [VerifyProof] against the root hash with the answer
    the map has (an empty trie has no node to prove anything with). *)
Theorem Prove_complete keccak K ops key :
  HashModel keccak K -> Forall (hashable_map keccak K) (hashed_maps keccak (∅, []) ops) ->
  let M := (spec_ops keccak (∅, []) ops).1.1 in
  hashable_map keccak K M -> M <> ∅ ->
  exists s rs proofDb n, run_ops keccak empty_session ops = Done (s, rs) /\
    Prove keccak (s_db s) (s_root s) key 0 ∅ = Done (inr proofDb) /\ keyed_by_hash keccak K proofDb /\
    VerifyProof (trie_root keccak M) key proofDb = Done (inr (M !! key, n)).
Proof.
  intros HM HF M HMK Hne. destruct (run_ops_ok keccak K HM ops empty_session (∅, [])) as (s & Hs & Hok); [apply empty_session_ok|done|].
  pose proof (so_trie _ _ _ _ Hok) as Ht. fold M in Ht. pose proof (trie_at_tree _ _ _ _ _ Ht) as (_ & Hw & Hh).
  destruct (full_proof_ok keccak K HM M key HMK (holds_nonempty _ _ Hw Hh) Hne) as (Hk & n & Hv).
  eexists s, _, (full_proof keccak M key), n. split_and!; try done. by eapply Prove_at.
Qed.

(** A root hash stands for one map only. *)
Theorem trie_root_binding keccak K M1 M2 :
  HashModel keccak K -> hashable_map keccak K M1 -> hashable_map keccak K M2 -> nonempty_values M1 -> nonempty_values M2 ->
  trie_root keccak M1 = trie_root keccak M2 -> M1 = M2.
Proof.
  intros HM HM1 HM2 Hv1 Hv2 He. destruct (decide (M1 = ∅)) as [E1|E1], (decide (M2 = ∅)) as [E2|E2]; [congruence|exfalso..|].
  - destruct (full_proof_ok keccak K HM M2 [] HM2 Hv2 E2) as (Hk & n & Hv). rewrite <-He, E1 in Hv.
    destruct (verify_empty keccak K HM [] _ Hk) as (e & Hr & _). unfold trie_root in Hv. change (root_of keccak (patricia ∅)) with emptyRoot in Hv. congruence.
  - destruct (full_proof_ok keccak K HM M1 [] HM1 Hv1 E1) as (Hk & n & Hv). rewrite He, E2 in Hv.
    destruct (verify_empty keccak K HM [] _ Hk) as (e & Hr & _). unfold trie_root in Hv. change (root_of keccak (patricia ∅)) with emptyRoot in Hv. congruence.
  - apply map_eq. intros k. destruct (full_proof_ok keccak K HM M1 k HM1 Hv1 E1) as (Hk & n & Hv). rewrite He in Hv.
    destruct (verify_map keccak K HM M2 k _ HM2 Hv2 E2 Hk) as (r & Hr & Hver). rewrite Hv in Hr. injection Hr as <-. simpl in Hver.
    destruct (patricia_ok M2 Hv2) as [_ Hh]. by rewrite (holds_get _ _ Hh) in Hver.
Qed.
