(* ===== verification/TrieExample.v ===== *)
(** * trie: concrete runs
    Instances of the theorems on tries, with a stand-in for Keccak-256 that
    has no collisions on what is hashed. *)

From S2P Require Import Prelude MathUtil Rlp RlpEncode RlpStream RlpDecode RlpRaw TrieBase Trie TrieSpec TrieOps TrieHash TrieDecode TrieCommit TriePatricia TrieSession TrieProof.

Module TrieExample.

Definition toy_keccak (b : bytes) : bytes :=
  if bool_decide (b = [Byte.x80]) then emptyRoot
  else be_bytes 32 (1 + foldl (fun h x => Z.land (h * 263 + Z_of_byte x + 1) (two256 - 1)) 7 b).

(** The model of hashing on a list of encodings, checked by evaluation. *)
Definition model_check (l : list bytes) : bool :=
  let hs := map (fun b => (toy_keccak b, b)) l in
  forallb (fun x => negb (bool_decide (x.1 = replicate 32 Byte.x00))) hs &&
  forallb (fun x => forallb (fun y => implb (bool_decide (x.1 = y.1)) (bool_decide (x.2 = y.2))) hs) hs.

Lemma model_ok l : [Byte.x80] ∈ l -> model_check l = true -> HashModel toy_keccak (fun b => b ∈ l).
Proof.
  intros Hin [Hz Hc]%andb_true_iff. rewrite forallb_forall in Hz, Hc.
  assert (forall a, a ∈ l -> In (toy_keccak a, a) (map (fun b => (toy_keccak b, b)) l)) as Hmap.
  { intros a Ha%list_elem_of_In. by apply (in_map (fun b => (toy_keccak b, b))). }
  split.
  - intros b. unfold toy_keccak. destruct (bool_decide _); apply length_be_bytes.
  - intros a b Ha%Hmap Hb%Hmap He. specialize (Hc _ Ha). rewrite forallb_forall in Hc. specialize (Hc _ Hb). simpl in Hc.
    rewrite (bool_decide_eq_true_2 _ He) in Hc. by apply bool_decide_eq_true in Hc.
  - intros b Hb%Hmap. specialize (Hz _ Hb). by apply negb_true_iff, bool_decide_eq_false in Hz.
  - split; [done|]. reflexivity.
Qed.

Definition key1 : bytes := [Byte.x12; Byte.x34].
Definition key2 : bytes := [Byte.x12; Byte.x35].
Definition key3 : bytes := [Byte.x12].
Definition key4 : bytes := [Byte.xf0; Byte.x00; Byte.x01].
Definition big_value : bytes := replicate 40 Byte.xab.

Definition example_ops : list trie_op :=
  [OpHash; OpUpdate key1 [Byte.x01]; OpUpdate key2 big_value; OpUpdate key3 [Byte.x03]; OpCommit; OpGet key2;
   OpUpdate key4 big_value; OpDelete key1; OpUpdate key3 []; OpHash; OpCommit; OpGet key1; OpOpen 0; OpGet key1; OpGet key4;
   OpUpdate key1 [Byte.x02]; OpCommit; OpOpen 1; OpGet key3; OpGet key4; OpCommit].

Definition example_encs : list bytes :=
  [Byte.x80] :: concat (map (fun M => node_encs toy_keccak (patricia M)) (hashed_maps toy_keccak (∅, []) example_ops)).

Definition fits_check (M : gmap bytes bytes) : bool :=
  forallb (fun kv => (zlen kv.1 <? 2 ^ 30) && (zlen kv.2 <? 2 ^ 32)) (map_to_list M).

Lemma fits_check_ok M : fits_check M = true -> fits M.
Proof.
  unfold fits_check. rewrite forallb_forall. intros H k v Hk. apply elem_of_map_to_list, list_elem_of_In in Hk.
  specialize (H _ Hk). simpl in H. lia.
Qed.

Lemma maps_ok Ms (l : list bytes) :
  forallb fits_check Ms = true -> (forall b, b ∈ concat (map (fun M => node_encs toy_keccak (patricia M)) Ms) -> b ∈ l) ->
  Forall (hashable_map toy_keccak (fun b => b ∈ l)) Ms.
Proof.
  rewrite forallb_forall. intros Hf Hl. apply Forall_forall. intros M HM. split; [by apply fits_check_ok, Hf, list_elem_of_In|].
  apply Forall_forall. intros b Hb. apply Hl, list_elem_of_In, in_concat. eexists. split; [|by apply list_elem_of_In].
  by apply (in_map (fun M => node_encs toy_keccak (patricia M))), list_elem_of_In.
Qed.

Lemma trie_refines_map_witness : exists s', run_ops toy_keccak empty_session example_ops =
  Done (s', (spec_ops toy_keccak (∅, []) example_ops).2).
Proof.
  apply (trie_refines_map toy_keccak (fun b => b ∈ example_encs)).
  - apply model_ok; [by left|]. vm_compute. reflexivity.
  - apply maps_ok; [vm_compute; reflexivity|]. intros b Hb. by right.
Defined.

(** ** Proofs *)

Definition example_map : gmap bytes bytes := list_to_map [(key1, [Byte.x01]); (key2, big_value); (key3, [Byte.x03]); (key4, big_value)].
Definition other_map : gmap bytes bytes := base.delete [Byte.x77] (list_to_map [(key4, big_value); (key3, [Byte.x03]); ([Byte.x77], [Byte.x07]); (key2, big_value); (key1, [Byte.x01])]).

(** Nodes of the trie, not all of them, and something else. *)
Definition proof_nodes : list bytes := [Byte.xc1; Byte.x01] :: take 4 (node_encs toy_keccak (patricia example_map)).
Definition proof_encs : list bytes := [Byte.x80] :: [Byte.xc1; Byte.x01] :: node_encs toy_keccak (patricia example_map).
Definition proof_db : gmap bytes bytes := list_to_map (map (fun b => (toy_keccak b, b)) proof_nodes).

Lemma proof_db_keyed : keyed_by_hash toy_keccak (fun b => b ∈ proof_encs) proof_db.
Proof.
  intros h b Hb. apply elem_of_list_to_map_2, list_elem_of_In, in_map_iff in Hb as (b' & [= <- <-] & Hin). split; [done|].
  apply list_elem_of_In in Hin as Hin'. unfold proof_nodes in Hin'. unfold proof_encs.
  apply elem_of_cons in Hin' as [->|Hin']; [right; left|]. right. right. by eapply elem_of_take in Hin' as (i & ? & _); eapply list_elem_of_lookup_2.
Qed.

Definition encs_check (M : gmap bytes bytes) (l : list bytes) : bool :=
  forallb (fun b => bool_decide (b ∈ l)) (node_encs toy_keccak (patricia M)).

Lemma one_map_ok M l : fits_check M = true -> encs_check M l = true -> hashable_map toy_keccak (fun b => b ∈ l) M.
Proof.
  intros Hf Hb. split; [by apply fits_check_ok|]. apply Forall_forall. intros b Hin%list_elem_of_In.
  unfold encs_check in Hb. rewrite forallb_forall in Hb. specialize (Hb b Hin). by apply bool_decide_eq_true in Hb.
Qed.

Definition nonempty_check (M : gmap bytes bytes) : bool := forallb (fun kv => 0 <? zlen kv.2) (map_to_list M).

Lemma nonempty_check_ok M : nonempty_check M = true -> nonempty_values M.
Proof.
  unfold nonempty_check. rewrite forallb_forall. intros H k v Hk. apply elem_of_map_to_list, list_elem_of_In in Hk. specialize (H _ Hk).
  intros ->. discriminate H.
Qed.

Lemma VerifyProof_sound_witness : exists r, VerifyProof (trie_root toy_keccak example_map) key2 proof_db = Done r /\
  match r with inr (v, _) => v = example_map !! key2 | inl (ProofMissing _ h) => proof_db !! h = None | inl (BadProofNode _ _) => example_map = ∅ end.
Proof.
  apply (VerifyProof_sound toy_keccak (fun b => b ∈ proof_encs)).
  - apply model_ok; [by left|]. vm_compute. reflexivity.
  - apply one_map_ok; vm_compute; reflexivity.
  - apply nonempty_check_ok. vm_compute. reflexivity.
  - apply proof_db_keyed.
Defined.

Lemma trie_root_binding_witness : example_map = other_map.
Proof.
  apply (trie_root_binding toy_keccak (fun b => b ∈ proof_encs)).
  - apply model_ok; [by left|]. vm_compute. reflexivity.
  - apply one_map_ok; vm_compute; reflexivity.
  - apply one_map_ok; vm_compute; reflexivity.
  - apply nonempty_check_ok. vm_compute. reflexivity.
  - apply nonempty_check_ok. vm_compute. reflexivity.
  - vm_compute. reflexivity.
Defined.

Lemma Prove_complete_witness : exists s rs proofDb n, run_ops toy_keccak empty_session example_ops = Done (s, rs) /\
  Prove toy_keccak (s_db s) (s_root s) key2 0 ∅ = Done (inr proofDb) /\ keyed_by_hash toy_keccak (fun b => b ∈ example_encs) proofDb /\
  VerifyProof (trie_root toy_keccak (spec_ops toy_keccak (∅, []) example_ops).1.1) key2 proofDb =
    Done (inr ((spec_ops toy_keccak (∅, []) example_ops).1.1 !! key2, n)).
Proof.
  apply (Prove_complete toy_keccak (fun b => b ∈ example_encs)).
  - apply model_ok; [by left|]. vm_compute. reflexivity.
  - apply maps_ok; [vm_compute; reflexivity|]. intros b Hb. by right.
  - apply one_map_ok; vm_compute; reflexivity.
  - intros H. apply (f_equal (fun m : gmap bytes bytes => m !! key2)) in H. vm_compute in H. discriminate H.
Defined.
End TrieExample.
