(* ===== verification/RecordUpdate.v ===== *)
(** * Updating fields of records
    [r <| f := v |>] is [r] with [v] for its field [f].  A record type takes
    part by an instance of [Eta], which rebuilds a record from its fields; the
    update of a field replaces the projection in it. *)

From S2P Require Import Prelude.

Class Eta (R : Type) := eta : R -> R.
Class Update {R T : Type} (f : R -> T) := update : (T -> T) -> R -> R.
Arguments update {R T} f {_} _ _ /.

Ltac derive_update :=
  match goal with
  | |- @Update ?R ?T ?f =>
      let inst := constr:(ltac:(typeclasses eauto) : Eta R) in
      let e := eval cbv beta delta [eta] in inst in
      let e := eval cbv beta in e in
      let e := eval red in e in
      let e := eval pattern f in e in
      match e with
      | ?F _ => exact (fun (g : T -> T) => F (fun r => g (f r)))
      end
  end.

#[export] Hint Extern 1 (Update _) => derive_update : typeclass_instances.

Declare Scope update_scope.
Notation "r <| f := v |>" := (update f (fun _ => v) r)
  (at level 1, f at next level, left associativity, format "r  <| f  :=  v |>") : update_scope.
#[global] Open Scope update_scope.
