(* ===== verification/BinaryMerkle.v ===== *)
(** * Binary Merkle trees (core/types/derive_sha.go, contracts/plasma lib/BMT.sol)
    The child chain commits to the transactions and receipts of a block with a
    binary Merkle tree and hands out membership proofs; the root chain contract
    computes the same root and checks the proofs.  The two are written in Go
    and in Solidity and have to agree. *)

From S2P Require Import Prelude MathUtil Rlp Trie.

Section Go.
Variable keccak : bytes -> bytes.

(** ** The child chain (derive_sha.go) *)

(** The level above; the last hash of a level of odd length is paired with itself. *)
Fixpoint nextlevel (level : list bytes) : list bytes :=
  match level with
  | a :: b :: level => keccak (a ++ b) :: nextlevel level
  | [a] => [keccak (a ++ a)]
  | [] => []
  end.

(** The recursion halves the level. *)
Fixpoint getBinaryMerkleRoot (fuel : nat) (level : list bytes) : outcome bytes :=
  match fuel with
  | O => OutOfFuel
  | S fuel =>
      match level with
      | [] => Done emptyRoot
      | [root] => Done root
      | _ => getBinaryMerkleRoot fuel (nextlevel level)
      end
  end.

(** [items] is what [GetRlp] returns for each element. *)
Definition DeriveShaFromBMT (items : list bytes) : outcome bytes :=
  let level := map keccak items in
  getBinaryMerkleRoot (S (length level)) level.

(** All levels, from the leaves to the root. *)
Fixpoint create_tree (fuel : nat) (level : list bytes) : outcome (list (list bytes)) :=
  match fuel with
  | O => OutOfFuel
  | S fuel =>
      if (length level <=? 1)%nat then Done [level]
      else let! tree := create_tree fuel (nextlevel level) in Done (level :: tree)
  end.

(** The sibling of a node. *)
Definition siblingIndex (len nodeIndex : nat) : nat :=
  if Nat.even nodeIndex then if (len =? S nodeIndex)%nat then nodeIndex else S nodeIndex
  else (nodeIndex - 1)%nat.

(** The siblings on the way up, on all levels but the last. *)
Fixpoint merkle_siblings (tree : list (list bytes)) (nodeIndex : nat) : outcome (list bytes) :=
  match tree with
  | [] | [_] => Done []
  | level :: tree =>
      let! s := or_panic IndexOutOfRange (level !! siblingIndex (length level) nodeIndex) in
      let! proof := merkle_siblings tree (nodeIndex / 2) in
      Done (s :: proof)
  end.

Definition GetMerkleProof (items : list bytes) (index : nat) : outcome (list bytes) :=
  if (length items =? 1)%nat then Done []
  else
    let leafLevel := map keccak items in
    let! tree := create_tree (S (length leafLevel)) leafLevel in
    merkle_siblings tree index.

End Go.

(** ** The root chain (BMT.sol) *)

Module BMT.
Section BMT.
Variable keccak : bytes -> bytes.

(** The loop and the odd element of [getRoot], by index. *)
Fixpoint nextLevel_loop (fuel : nat) (i : nat) (level : list bytes) : list bytes :=
  match fuel with
  | O => []
  | S fuel =>
      match level !! i, level !! S i with
      | Some a, Some b => keccak (a ++ b) :: nextLevel_loop fuel (S (S i)) level
      | Some a, None => [keccak (a ++ a)]
      | None, _ => []
      end
  end.
Definition nextLevel (level : list bytes) : list bytes := nextLevel_loop (length level) 0 level.

(** On an empty level the recursion never ends. *)
Fixpoint getRoot (fuel : nat) (level : list bytes) : outcome bytes :=
  match fuel with
  | O => OutOfFuel
  | S fuel =>
      match level with
      | [root] => Done root
      | _ => getRoot fuel (nextLevel level)
      end
  end.

(** The words of a byte string whose length is a multiple of 32. *)
Fixpoint words (n : nat) (proof : bytes) : list bytes :=
  match n with
  | O => []
  | S n => take 32 proof :: words n (drop 32 proof)
  end.

Fixpoint computed_hash (computedHash : bytes) (index : Z) (proof : list bytes) : bytes :=
  match proof with
  | [] => computedHash
  | proofElement :: proof =>
      computed_hash (if index mod 2 =? 0 then keccak (computedHash ++ proofElement) else keccak (proofElement ++ computedHash))
        (index / 2) proof
  end.

(** [None]: the call reverts. *)
Definition checkMembership (leaf : bytes) (index : Z) (rootHash proof : bytes) : option bool :=
  if negb (zlen proof mod 32 =? 0) then None
  else
    let numElements := zlen proof / 32 in
    if negb (numElements <? 16) then None
    else Some (bool_decide (computed_hash leaf index (words (Z.to_nat numElements) proof) = rootHash)).
End BMT.
End BMT.

(** ** Levels *)

(** Two steps at a time. *)
Lemma list_pair_ind {A} (P : list A -> Prop) :
  P [] -> (forall a, P [a]) -> (forall a b l, P l -> P (a :: b :: l)) -> forall l, P l.
Proof.
  intros H0 H1 H2 l. assert (P l /\ forall a, P (a :: l)) as [H _]; [|done].
  induction l as [|x l [IH1 IH2]]; split; auto.
Qed.

Section Proofs.
Variable keccak : bytes -> bytes.
Hypothesis keccak_length : forall b, length (keccak b) = 32%nat.

Lemma nextlevel_length l : length (nextlevel keccak l) = Nat.div2 (S (length l)).
Proof. induction l as [| |a b l IH] using list_pair_ind; [done..|]. cbn [nextlevel length]. by rewrite IH. Qed.

Lemma div2_lt n : (2 <= n)%nat -> (1 <= Nat.div2 (S n) < n)%nat.
Proof. intros Hn. pose proof (Nat.div2_div (S n)). pose proof (Nat.div_mod (S n) 2). pose proof (Nat.mod_upper_bound (S n) 2). lia. Qed.

(** Both contracts and nodes climb to the same level. *)
Lemma nextLevel_eq l : BMT.nextLevel keccak l = nextlevel keccak l.
Proof.
  unfold BMT.nextLevel. assert (forall fuel i pre, (length l <= fuel)%nat -> length pre = i ->
    BMT.nextLevel_loop keccak fuel i (pre ++ l) = nextlevel keccak l) as H; [|by apply (H (length l) 0%nat [])].
  induction l as [|a|a b l IH] using list_pair_ind; intros fuel i pre Hf Hi.
  - destruct fuel; [done|]. cbn [BMT.nextLevel_loop]. by rewrite app_nil_r, (lookup_ge_None_2 pre i) by lia.
  - destruct fuel; [simpl in Hf; lia|]. cbn [BMT.nextLevel_loop]. subst i. rewrite list_lookup_middle by done.
    by rewrite lookup_ge_None_2 by (rewrite length_app; simpl; lia).
  - destruct fuel; [simpl in Hf; lia|]. cbn [BMT.nextLevel_loop]. subst i. rewrite list_lookup_middle by done.
    assert ((pre ++ a :: b :: l) !! S (length pre) = Some b) as ->.
    { rewrite lookup_app_r by lia. by replace (S (length pre) - length pre)%nat with 1%nat by lia. }
    cbn [nextlevel]. f_equal. change (a :: b :: l) with ([a; b] ++ l). rewrite app_assoc. apply IH.
    + simpl in Hf. lia.
    + rewrite length_app. simpl. lia.
Qed.

Lemma even_SS i : Nat.even (S (S i)) = Nat.even i.
Proof. done. Qed.

Lemma siblingIndex_SS n i : siblingIndex (S (S n)) (S (S i)) = S (S (siblingIndex n i)).
Proof.
  unfold siblingIndex. rewrite even_SS. destruct (Nat.even i) eqn:E.
  - cbn [Nat.eqb]. by destruct (n =? S i)%nat.
  - destruct i; [done|]. lia.
Qed.

(** The parent of a node. *)
Lemma nextlevel_lookup l : forall i x, l !! i = Some x ->
  exists s, l !! siblingIndex (length l) i = Some s /\
    nextlevel keccak l !! Nat.div2 i = Some (if Nat.even i then keccak (x ++ s) else keccak (s ++ x)).
Proof.
  induction l as [|a|a b l IH] using list_pair_ind; intros i x Hi; [done|..].
  - destruct i; [|done]. injection Hi as ->. by exists x.
  - destruct i as [|[|i]].
    + injection Hi as ->. by exists b.
    + injection Hi as ->. by exists a.
    + cbn [length]. rewrite siblingIndex_SS. destruct (IH i x Hi) as (s & Hs & Hn). by exists s.
Qed.

(** ** Membership *)

Lemma half_of n : Z.of_nat n mod 2 = 0 <-> Nat.even n = true.
Proof.
  rewrite Nat.even_spec. split.
  - intros H. exists (n / 2)%nat. pose proof (Nat2Z.inj_mod n 2) as Hm. change (Z.of_nat 2) with 2 in Hm.
    rewrite H in Hm. pose proof (Nat.div_mod n 2 ltac:(lia)). lia.
  - intros [k ->]. rewrite Nat2Z.inj_mul, Z.mul_comm. apply Z.mod_mul. lia.
Qed.

Lemma computed_hash_cons x i s proof :
  BMT.computed_hash keccak x (Z.of_nat i) (s :: proof) =
  BMT.computed_hash keccak (if Nat.even i then keccak (x ++ s) else keccak (s ++ x)) (Z.of_nat (Nat.div2 i)) proof.
Proof.
  cbn [BMT.computed_hash]. f_equal.
  - destruct (Nat.even i) eqn:E; [by rewrite (proj2 (half_of i) E)|].
    destruct (Z.eqb_spec (Z.of_nat i mod 2) 0) as [H%half_of|_]; [congruence|done].
  - rewrite Nat.div2_div. by rewrite Nat2Z.inj_div.
Qed.

Lemma nextlevel_words l : Forall (fun h => length h = 32%nat) (nextlevel keccak l).
Proof.
  induction l as [|a|a b l IH] using list_pair_ind; cbn [nextlevel]; [apply Forall_nil_2|..].
  - apply Forall_singleton, keccak_length.
  - apply Forall_cons. split; [apply keccak_length|done].
Qed.

Lemma merkle_siblings_cons level l0 tree i :
  merkle_siblings (level :: l0 :: tree) i =
  let! s := or_panic IndexOutOfRange (level !! siblingIndex (length level) i) in
  let! proof := merkle_siblings (l0 :: tree) (Nat.div2 i) in Done (s :: proof).
Proof. by rewrite Nat.div2_div. Qed.

Lemma create_tree_not_nil fuel level : create_tree keccak fuel level <> Done [].
Proof. destruct fuel; [done|]. cbn [create_tree]. destruct (_ <=? _)%nat; [done|]. by destruct (create_tree keccak _ _). Qed.

(** What [GetMerkleProof] collects leads from each node to the root. *)
Lemma tree_membership fuel : forall level i x,
  level !! i = Some x -> (length level < fuel)%nat -> Forall (fun h => length h = 32%nat) level ->
  exists tree proof root, create_tree keccak fuel level = Done tree /\ merkle_siblings tree i = Done proof /\
    getBinaryMerkleRoot keccak fuel level = Done root /\ BMT.computed_hash keccak x (Z.of_nat i) proof = root /\
    Forall (fun h => length h = 32%nat) proof /\ (forall k, (length level <= 2 ^ k)%nat -> (length proof <= k)%nat).
Proof.
  induction fuel as [|fuel IH]; intros level i x Hi Hf Hl; [lia|]. cbn [create_tree getBinaryMerkleRoot].
  destruct (Nat.leb_spec (length level) 1) as [H1|H1].
  - destruct level as [|y [|]]; [done| |simpl in H1; lia]. destruct i; [|done]. injection Hi as ->.
    exists [[x]], [], x. split_and!; try done. intros; simpl; lia.
  - destruct (nextlevel_lookup level i x Hi) as (s & Hs & Hn). pose proof (div2_lt (length level) ltac:(lia)) as Hd.
    destruct (IH (nextlevel keccak level) (Nat.div2 i) _ Hn) as (tree & proof & root & Ht & Hp & Hr & Hc & Hpl & Hk).
    { rewrite nextlevel_length. lia. }
    { apply nextlevel_words. }
    exists (level :: tree), (s :: proof), root. rewrite Ht. cbn [obind]. split_and!; try done.
    + destruct tree as [|l0 tree]; [by apply create_tree_not_nil in Ht|]. rewrite merkle_siblings_cons.
      rewrite Hs. cbn [or_panic obind]. by rewrite Hp.
    + destruct level as [|a [|b l]]; [simpl in H1; lia..|done].
    + by rewrite computed_hash_cons.
    + constructor; [|done]. rewrite Forall_lookup in Hl. by eapply Hl.
    + intros [|k] Hlk; [simpl in Hlk; lia|]. cbn [length]. apply le_n_S, Hk. rewrite nextlevel_length, Nat.div2_div.
      apply Nat.lt_succ_r, Nat.Div0.div_lt_upper_bound. rewrite Nat.pow_succ_r' in Hlk. lia.
Qed.

Lemma words_concat (proof : list bytes) : Forall (fun h => length h = 32%nat) proof -> BMT.words (length proof) (concat proof) = proof.
Proof.
  induction 1 as [|h proof Hh _ IH]; [done|]. cbn [length BMT.words concat]. rewrite take_app_length' by done. f_equal.
  by rewrite drop_app_length'.
Qed.

Lemma concat_words_length (proof : list bytes) : Forall (fun h => length h = 32%nat) proof -> zlen (concat proof) = 32 * zlen proof.
Proof. induction 1 as [|h proof Hh _ IH]; [done|]. cbn [concat length]. rewrite length_app. lia. Qed.

Lemma checkMembership_ok leaf i root proof :
  Forall (fun h => length h = 32%nat) proof -> (length proof <= 15)%nat -> BMT.computed_hash keccak leaf (Z.of_nat i) proof = root ->
  BMT.checkMembership keccak leaf (Z.of_nat i) root (concat proof) = Some true.
Proof.
  intros Hl Hn Hc. unfold BMT.checkMembership. rewrite concat_words_length by done.
  rewrite (Z.mul_comm 32), Z.mod_mul, Z.div_mul by lia. cbn [Z.eqb negb]. rewrite (proj2 (Z.ltb_lt _ _)) by lia. cbn [negb].
  rewrite Nat2Z.id, words_concat by done. by rewrite bool_decide_eq_true_2.
Qed.

Lemma GetMerkleProof_tree items i :
  (i < length items)%nat -> exists tree, create_tree keccak (S (length items)) (map keccak items) = Done tree /\ GetMerkleProof keccak items i = merkle_siblings tree i.
Proof.
  intros Hi. unfold GetMerkleProof. rewrite length_map. destruct (Nat.eqb_spec (length items) 1) as [H1|H1].
  - destruct items as [|x [|]]; simpl in H1; try lia. by exists [[keccak x]].
  - destruct (lookup_lt_is_Some_2 items i Hi) as [x Hx].
    destruct (tree_membership (S (length items)) (map keccak items) i (keccak x)) as (tree & _ & _ & Ht & _).
    + by rewrite list_lookup_fmap, Hx.
    + rewrite length_map. lia.
    + apply Forall_forall. intros h (b & -> & _)%list_elem_of_fmap. apply keccak_length.
    + exists tree. by rewrite Ht.
Qed.
Lemma getRoot_eq fuel : forall level, level <> [] -> BMT.getRoot keccak fuel level = getBinaryMerkleRoot keccak fuel level.
Proof.
  induction fuel as [|fuel IH]; intros level Hl; [done|]. cbn [BMT.getRoot getBinaryMerkleRoot].
  destruct level as [|a [|b l]]; [done..|]. rewrite nextLevel_eq. by apply IH.
Qed.

(** ** Soundness *)

(** What is hashed to build the tree, and to check a proof. *)
Fixpoint pair_inputs (level : list bytes) : list bytes :=
  match level with
  | a :: b :: level => (a ++ b) :: pair_inputs level
  | [a] => [a ++ a]
  | [] => []
  end.

Fixpoint tree_inputs (fuel : nat) (level : list bytes) : list bytes :=
  match fuel with
  | O => []
  | S fuel => if (length level <=? 1)%nat then [] else pair_inputs level ++ tree_inputs fuel (nextlevel keccak level)
  end.

Fixpoint path_inputs (x : bytes) (i : nat) (proof : list bytes) : list bytes :=
  match proof with
  | [] => []
  | s :: proof => let b := if Nat.even i then x ++ s else s ++ x in b :: path_inputs (keccak b) (Nat.div2 i) proof
  end.

Lemma pair_inputs_lookup l : forall i x s, l !! i = Some x -> l !! siblingIndex (length l) i = Some s ->
  (if Nat.even i then x ++ s else s ++ x) ∈ pair_inputs l.
Proof.
  induction l as [|a|a b l IH] using list_pair_ind; intros i x s Hi Hs; [done|..].
  - destruct i; [|done]. simplify_eq/=. left.
  - destruct i as [|[|i]]; [simplify_eq/=; left..|]. cbn [length] in Hs. rewrite siblingIndex_SS in Hs. right. by apply (IH i).
Qed.

Lemma path_unique fuel : forall level i x x' proof proof' tree root,
  level !! i = Some x' -> (length level < fuel)%nat -> Forall (fun h => length h = 32%nat) level ->
  length x = 32%nat -> Forall (fun h => length h = 32%nat) proof ->
  create_tree keccak fuel level = Done tree -> merkle_siblings tree i = Done proof' -> length proof = length proof' ->
  getBinaryMerkleRoot keccak fuel level = Done root -> BMT.computed_hash keccak x (Z.of_nat i) proof = root ->
  (forall a b, a ∈ path_inputs x i proof -> b ∈ tree_inputs fuel level -> keccak a = keccak b -> a = b) -> x = x' /\ proof = proof'.
Proof.
  induction fuel as [|fuel IH]; intros level i x x' proof proof' tree root Hi Hf Hl Hx Hp Ht Hs Hlen Hr Hc Hinj; [lia|].
  cbn [create_tree getBinaryMerkleRoot tree_inputs] in *.
  destruct (Nat.leb_spec (length level) 1) as [H1|H1].
  - injection Ht as <-. injection Hs as <-. destruct proof; [|done]. destruct level as [|y [|]]; [done| |simpl in H1; lia].
    destruct i; [|done]. simpl in *. split; [congruence|done].
  - destruct (nextlevel_lookup level i x' Hi) as (s' & Hs' & Hn). pose proof (div2_lt (length level) ltac:(lia)) as Hd.
    destruct (create_tree keccak fuel (nextlevel keccak level)) as [tree'| |] eqn:Ht'; cbn [obind] in Ht; try done. injection Ht as <-. rename Hs into Hms.
    destruct tree' as [|l0 tree'].
    { by apply create_tree_not_nil in Ht'. }
    rewrite merkle_siblings_cons, Hs' in Hms. cbn [or_panic obind] in Hms.
    destruct (merkle_siblings (l0 :: tree') (Nat.div2 i)) as [pr'| |] eqn:Hms'; cbn [obind] in Hms; try done. injection Hms as <-.
    destruct proof as [|s proof]; [done|]. apply Forall_cons in Hp as [Hs32 Hp]. cbn [path_inputs] in Hinj.
    set (b := if Nat.even i then x ++ s else s ++ x) in *. rewrite computed_hash_cons in Hc.
    assert ((if Nat.even i then keccak (x ++ s) else keccak (s ++ x)) = keccak b) as Hb by (unfold b; by destruct (Nat.even i)).
    rewrite Hb in Hc. set (b' := if Nat.even i then x' ++ s' else s' ++ x').
    assert (keccak b = keccak b' /\ proof = pr') as [Hk Hpr].
    { replace (keccak b') with (if Nat.even i then keccak (x' ++ s') else keccak (s' ++ x')) by (unfold b'; by destruct (Nat.even i)).
      apply (IH (nextlevel keccak level) (Nat.div2 i) (keccak b) _ proof pr' (l0 :: tree') root); try done.
      - rewrite nextlevel_length. lia.
      - apply nextlevel_words.
      - simpl in Hlen. lia.
      - destruct level as [|y [|z l]]; [simpl in H1; lia..|done].
      - intros a c Ha Hc'. apply Hinj; [by right|]. apply elem_of_app. by right. }
    assert (b = b') as Hbb.
    { apply Hinj; [left| |done]. apply elem_of_app. left. by apply pair_inputs_lookup. }
    assert (length x' = 32%nat) as Hx' by (rewrite Forall_lookup in Hl; by eapply Hl).
    assert (length s' = 32%nat) as Hs'' by (rewrite Forall_lookup in Hl; by eapply Hl).
    unfold b, b' in Hbb. destruct (Nat.even i); apply app_inj_1 in Hbb as [? ?]; try lia; split; congruence.
Qed.

Lemma words_words n : forall proof, length proof = (32 * n)%nat -> Forall (fun h => length h = 32%nat) (BMT.words n proof) /\ length (BMT.words n proof) = n.
Proof.
  induction n as [|n IH]; intros proof Hl; [done|]. cbn [BMT.words length].
  destruct (IH (drop 32 proof)) as [H1 H2]; [rewrite length_drop; lia|]. rewrite H2. split; [|done]. apply Forall_cons.
  split; [|done]. rewrite length_take. lia.
Qed.

Lemma root_fuel fuel : forall fuel' level, (length level < fuel)%nat -> (length level < fuel')%nat ->
  getBinaryMerkleRoot keccak fuel level = getBinaryMerkleRoot keccak fuel' level.
Proof.
  induction fuel as [|fuel IH]; intros [|fuel'] level Hf Hf'; try lia. cbn [getBinaryMerkleRoot].
  destruct level as [|a [|b l]]; [done..|]. pose proof (nextlevel_length (a :: b :: l)). pose proof (div2_lt (length (a :: b :: l))).
  cbn [length] in *. apply IH; lia.
Qed.

Lemma root_step fuel level : (2 <= length level)%nat -> getBinaryMerkleRoot keccak (S fuel) level = getBinaryMerkleRoot keccak fuel (nextlevel keccak level).
Proof. intros Hl. destruct level as [|a [|b l]]; simpl in Hl; try lia. done. Qed.

Lemma nextlevel_snoc l x : Nat.odd (length l) = true -> last l = Some x -> nextlevel keccak (l ++ [x]) = nextlevel keccak l.
Proof.
  induction l as [|a|a b l IH] using list_pair_ind; intros Ho Hx; [done|by injection Hx as ->|].
  cbn [app nextlevel]. f_equal. apply IH; [done|]. by destruct l.
Qed.

Lemma leaves_32 (items : list bytes) : Forall (fun h => length h = 32%nat) (map keccak items).
Proof. apply Forall_forall. intros h (b & -> & _)%list_elem_of_fmap. apply keccak_length. Qed.
End Proofs.

(** C25: for every element of a list of at most 2^15 items the proof that the
    child chain hands out is accepted by the root chain against the root the
    child chain computes, which is also the root the root chain computes. *)
Theorem merkle_membership keccak items i x :
  (forall b, length (keccak b) = 32%nat) -> items !! i = Some x -> (length items <= 2 ^ 15)%nat ->
  exists root proof, DeriveShaFromBMT keccak items = Done root /\ GetMerkleProof keccak items i = Done proof /\
    BMT.getRoot keccak (S (length items)) (map keccak items) = Done root /\
    BMT.checkMembership keccak (keccak x) (Z.of_nat i) root (concat proof) = Some true.
Proof.
  intros Hk Hx Hl. destruct (GetMerkleProof_tree keccak Hk items i) as (tree & Ht & ->); [by eapply lookup_lt_Some|].
  destruct (tree_membership keccak Hk (S (length items)) (map keccak items) i (keccak x)) as (tree' & proof & root & Ht' & Hp & Hr & Hc & Hpl & Hb).
  - by rewrite list_lookup_fmap, Hx.
  - rewrite length_map. lia.
  - by apply leaves_32.
  - exists root, proof. unfold DeriveShaFromBMT. rewrite length_map. assert (tree' = tree) as -> by congruence. split_and!; try done.
    + rewrite getRoot_eq; [done|]. by destruct items.
    + apply checkMembership_ok; try done. apply Hb. by rewrite length_map.
Qed.

(** Two different strings with the same hash, one hashed along the proof and
    one in the tree. *)
Definition collision (keccak : bytes -> bytes) (l1 l2 : list bytes) : Prop := exists a b, a ∈ l1 /\ b ∈ l2 /\ a <> b /\ keccak a = keccak b.

Lemma collision_or_not keccak l1 l2 : collision keccak l1 l2 \/ forall a b, a ∈ l1 -> b ∈ l2 -> keccak a = keccak b -> a = b.
Proof.
  destruct (decide (Exists (fun a => Exists (fun b => a <> b /\ keccak a = keccak b) l2) l1)) as [He|Hne].
  - left. apply Exists_exists in He as (a & Ha & (b & Hb & Hab)%Exists_exists). by exists a, b.
  - right. intros a b Ha Hb Hk. destruct (decide (a = b)) as [|Hab]; [done|]. exfalso. apply Hne, Exists_exists. exists a. split; [done|]. apply Exists_exists. by exists b.
Qed.

Lemma concat_words n : forall proof, length proof = (32 * n)%nat -> concat (BMT.words n proof) = proof.
Proof.
  induction n as [|n IH]; intros proof Hl; [by destruct proof|]. cbn [BMT.words concat]. rewrite IH by (rewrite length_drop; lia). apply take_drop.
Qed.

(** C26: a proof of the right length proves membership: if the root chain accepts
    a leaf and a proof at an index of the list, the leaf is the hash of the item
    there and the proof is the one that the node makes for it, or else the leaf and
    the proof exhibit a collision of the hash function with the tree. *)
Theorem merkle_sound keccak items i x leaf proof root genuine :
  (forall b, length (keccak b) = 32%nat) -> items !! i = Some x -> length leaf = 32%nat ->
  DeriveShaFromBMT keccak items = Done root -> GetMerkleProof keccak items i = Done genuine -> length proof = (32 * length genuine)%nat ->
  BMT.checkMembership keccak leaf (Z.of_nat i) root proof = Some true ->
  leaf = keccak x /\ proof = concat genuine \/
  collision keccak (path_inputs keccak leaf i (BMT.words (length genuine) proof)) (tree_inputs keccak (S (length items)) (map keccak items)).
Proof.
  intros Hk Hx Hleaf Hr Hg Hlen Hc. destruct (collision_or_not keccak (path_inputs keccak leaf i (BMT.words (length genuine) proof)) (tree_inputs keccak (S (length items)) (map keccak items))) as [|Hinj]; [by right|left].
  destruct (GetMerkleProof_tree keccak Hk items i) as (tree & Ht & Hg'); [by eapply lookup_lt_Some|].
  rewrite Hg' in Hg. destruct (words_words (length genuine) proof Hlen) as [Hw Hn]. unfold BMT.checkMembership in Hc.
  destruct (negb (zlen proof mod 32 =? 0)); [done|]. destruct (negb (_ <? 16)); [done|]. injection Hc as Hc%bool_decide_eq_true.
  assert (Z.to_nat (zlen proof / 32) = length genuine) as Hz.
  { rewrite Hlen, Nat2Z.inj_mul, Z.mul_comm, Z.div_mul by lia. apply Nat2Z.id. }
  rewrite Hz in Hc. unfold DeriveShaFromBMT in Hr. rewrite length_map in Hr.
  destruct (path_unique keccak Hk (S (length items)) (map keccak items) i leaf (keccak x) (BMT.words (length genuine) proof) genuine tree root) as [-> Hpr]; try done.
  - by rewrite list_lookup_fmap, Hx.
  - rewrite length_map. lia.
  - by apply leaves_32.
  - split; [done|]. by rewrite <-Hpr, concat_words.
Qed.

(** The length of a proof is not checked against the size of the tree: with
    the first element taken off, the proof of any leaf of a list of two or more
    makes the root chain accept, as the data of a leaf at half the index, the two
    hashes below an inner node. *)
Theorem merkle_inner_node keccak items i x :
  (forall b, length (keccak b) = 32%nat) -> items !! i = Some x -> (2 <= length items <= 2 ^ 15)%nat ->
  exists root s proof, DeriveShaFromBMT keccak items = Done root /\ GetMerkleProof keccak items i = Done (s :: proof) /\
    BMT.checkMembership keccak (keccak (if Nat.even i then keccak x ++ s else s ++ keccak x)) (Z.of_nat (Nat.div2 i)) root (concat proof) = Some true.
Proof.
  intros Hk Hx Hl. destruct (GetMerkleProof_tree keccak Hk items i) as (tree & Ht & ->); [by eapply lookup_lt_Some|].
  destruct (tree_membership keccak Hk (S (length items)) (map keccak items) i (keccak x)) as (tree' & proof & root & Ht' & Hp & Hr & Hc & Hpl & Hb).
  - by rewrite list_lookup_fmap, Hx.
  - rewrite length_map. lia.
  - by apply leaves_32.
  - assert (tree' = tree) as -> by congruence. assert (length proof <= 15)%nat as H15 by (apply Hb; rewrite length_map; apply Hl).
    destruct proof as [|s proof].
    { exfalso. cbn [create_tree] in Ht. rewrite length_map in Ht. destruct (Nat.leb_spec (length items) 1); [lia|].
      destruct (create_tree keccak (length items) _) as [tr| |] eqn:E; cbn [obind] in Ht; try done. simplify_eq. destruct tr as [|l0 tr].
      - by apply create_tree_not_nil in E.
      - rewrite merkle_siblings_cons in Hp. destruct (or_panic _ _); cbn [obind] in Hp; try done. by destruct (merkle_siblings _ _). }
    exists root, s, proof. unfold DeriveShaFromBMT. rewrite length_map. split_and!; try done. rewrite computed_hash_cons in Hc.
    apply Forall_cons in Hpl as [_ Hpl]. apply checkMembership_ok; [done|simpl in H15; lia|]. by destruct (Nat.even i).
Qed.

(** The root does not determine the list: repeating the last item of a list
    of odd length, three or more, gives the same root. *)
Theorem merkle_root_repeated keccak items x :
  Nat.odd (length items) = true -> (3 <= length items)%nat -> last items = Some x ->
  DeriveShaFromBMT keccak (items ++ [x]) = DeriveShaFromBMT keccak items.
Proof.
  intros Ho Hl Hx. unfold DeriveShaFromBMT. rewrite map_app, length_app, length_map. cbn [map length].
  rewrite Nat.add_1_r, (root_step keccak _ (map keccak items ++ _)), (root_step keccak _ (map keccak items))
    by (rewrite ?length_app, length_map; cbn [length]; lia).
  assert (nextlevel keccak (map keccak items ++ [keccak x]) = nextlevel keccak (map keccak items)) as He.
  { apply nextlevel_snoc; [by rewrite length_map|]. change (map keccak items) with (keccak <$> items). by rewrite fmap_last, Hx. }
  rewrite He. pose proof (nextlevel_length keccak (map keccak items)) as Hn. rewrite length_map in Hn. pose proof (div2_lt (length items)).
  apply root_fuel; lia.
Qed.

(** ** Concrete trees *)

Module MerkleExample.
Definition toy_keccak (b : bytes) : bytes :=
  be_bytes 32 (1 + foldl (fun h x => Z.land (h * 263 + Z_of_byte x + 1) (two256 - 1)) 7 b).

Lemma toy_length b : length (toy_keccak b) = 32%nat.
Proof. apply length_be_bytes. Qed.

Definition items : list bytes := [[Byte.x01]; [Byte.x02; Byte.x03]; []; [Byte.x04]; [Byte.x05]].
Definition item_root : bytes := match DeriveShaFromBMT toy_keccak items with Done r => r | _ => [] end.
Definition item_proof : list bytes := match GetMerkleProof toy_keccak items 3 with Done p => p | _ => [] end.

Lemma merkle_membership_witness :
  exists root proof, DeriveShaFromBMT toy_keccak items = Done root /\ GetMerkleProof toy_keccak items 4 = Done proof /\
    BMT.getRoot toy_keccak 6 (map toy_keccak items) = Done root /\
    BMT.checkMembership toy_keccak (toy_keccak [Byte.x05]) 4 root (concat proof) = Some true.
Proof.
  apply (merkle_membership toy_keccak items 4 [Byte.x05]); [apply toy_length|reflexivity|].
  apply Nat.leb_le. vm_compute. reflexivity.
Defined.

Lemma merkle_inner_node_witness :
  exists root s proof, DeriveShaFromBMT toy_keccak items = Done root /\ GetMerkleProof toy_keccak items 3 = Done (s :: proof) /\
    BMT.checkMembership toy_keccak (toy_keccak (s ++ toy_keccak [Byte.x04])) 1 root (concat proof) = Some true.
Proof.
  apply (merkle_inner_node toy_keccak items 3 [Byte.x04]); [apply toy_length|reflexivity|].
  split; apply Nat.leb_le; vm_compute; reflexivity.
Defined.

Lemma merkle_root_repeated_witness : DeriveShaFromBMT toy_keccak (items ++ [[Byte.x05]]) = DeriveShaFromBMT toy_keccak items.
Proof. apply (merkle_root_repeated toy_keccak items [Byte.x05]); [reflexivity| |reflexivity]. apply Nat.leb_le. reflexivity. Defined.

(** A leaf and a proof put together by hand. *)
Definition claimed_leaf : bytes := toy_keccak (rev [Byte.x04]).
Definition claimed_proof : bytes :=
  let h := toy_keccak in let last := h (h [Byte.x05] ++ h [Byte.x05]) in
  h [] ++ h (h [Byte.x01] ++ h [Byte.x02; Byte.x03]) ++ h (last ++ last).

Lemma merkle_sound_witness : claimed_leaf = toy_keccak [Byte.x04] /\ claimed_proof = concat item_proof \/
  collision toy_keccak (path_inputs toy_keccak claimed_leaf 3 (BMT.words (length item_proof) claimed_proof)) (tree_inputs toy_keccak 6 (map toy_keccak items)).
Proof.
  apply (merkle_sound toy_keccak items 3 [Byte.x04] claimed_leaf claimed_proof item_root item_proof);
    [apply toy_length|reflexivity|apply toy_length|vm_compute; reflexivity..].
Defined.
End MerkleExample.
