(* ===== verification/PlasmaTx.v ===== *)
(** * Request transactions (lib/RLPEncode.sol, lib/Data.sol, pls/rootchain_manager.go)
    A request of the root chain becomes a transaction of the child chain.  The
    contract computes the bytes of that transaction to commit to its hash
    (Data.sol with RLPEncode.sol), the operator's node builds it from the same
    request with the Go types (rootchain_manager.go, transaction.go, the ABI
    and RLP packages).  The two have to agree byte for byte. *)

From S2P Require Import Prelude MathUtil Abi AbiCodec Rlp RlpEncode Solidity RecordUpdate.

(** ** lib/RLPEncode.sol *)

Module RLPEncode.
Definition STRING_OFFSET : Z := 128.
Definition LIST_OFFSET : Z := 192.

Definition mergeBytes (param1 param2 : bytes) : bytes := param1 ++ param2.

(** The loop that finds the first non-zero byte. *)
Fixpoint first_nonzero (b : bytes) : nat :=
  match b with
  | [] => O
  | x :: b => if Z_of_byte x =? 0 then S (first_nonzero b) else O
  end.
Definition toBinary (x : Z) : bytes := let b := be_bytes 32 x in drop (first_nonzero b) b.

Definition encodeLength (length offset : Z) : option bytes :=
  require! length <? 256 ^ 8;
  if length <=? 55 then Some [byte_of_Z (length + offset)]
  else
    let bl := toBinary length in
    Some (mergeBytes [byte_of_Z (zlen bl + offset + 55)] bl).

Definition encodeBytes (self : bytes) : option bytes :=
  match self with
  | [x] => if Z_of_byte x <=? 127 then Some self else l ← encodeLength 1 STRING_OFFSET; Some (mergeBytes l self)
  | _ => l ← encodeLength (zlen self) STRING_OFFSET; Some (mergeBytes l self)
  end.

(** The twenty bytes of the address, put together in fresh memory. *)
Definition encodeAddress (self : Address) : option bytes := encodeBytes (be_bytes 20 self).

Definition encodeUint (self : Z) : option bytes := encodeBytes (toBinary self).

Definition encodeList (self : list bytes) : option bytes :=
  let payload := foldl mergeBytes [] self in
  l ← encodeLength (zlen payload) LIST_OFFSET; Some (mergeBytes l payload).
End RLPEncode.

(** ** Requests and transactions (lib/Data.sol) *)

Record TX := mkTX {
  tx_nonce : Z;
  tx_gasPrice : Z;
  tx_gasLimit : Z;
  tx_to : Address;
  tx_value : Z;
  tx_data : bytes;
  tx_v : Z;
  tx_r : Z;
  tx_s : Z }.

Record Request := mkRequest {
  r_timestamp : Z;
  isExit : bool;
  isTransfer : bool;
  r_finalized : bool;
  r_challenged : bool;
  r_value : Z;
  requestor : Address;
  r_to : Address;
  trieKey : bytes;
  r_hash : bytes;
  trieValue : bytes }.

Definition zero32 : bytes := replicate 32 Byte.x00.
Definition zeroRequest : Request := mkRequest 0 false false false false 0 0 0 zero32 zero32 [].

#[export] Instance eta_Request : Eta Request :=
  fun r => mkRequest (r_timestamp r) (isExit r) (isTransfer r) (r_finalized r) (r_challenged r) (r_value r) (requestor r) (r_to r)
    (trieKey r) (r_hash r) (trieValue r).

Definition NA_TX_GAS_PRICE : Z := 1000000000.
Definition NA_TX_GAS_LIMIT : Z := 100000.

Definition sig_applyRequestInChildChain : bytes :=
  String.list_byte_of_string "applyRequestInChildChain(bool,uint256,address,bytes32,bytes)".
Definition sig_applyRequestInRootChain : bytes :=
  String.list_byte_of_string "applyRequestInRootChain(bool,uint256,address,bytes32,bytes)".

Section Contract.
Variable keccak : bytes -> bytes.

(** [past] is what the memory holds after the bytes of the value, which the
    load of a word reaches when they are fewer than 32. *)
Definition toChildChainRequest (self : Request) (_to : Address) (past : bytes) : option Request :=
  let out := zeroRequest <| isExit := isExit self |> <| isTransfer := isTransfer self |> <| requestor := requestor self |> in
  if negb (isExit self) && isTransfer self then
    let v := u128 (SetBytes (take 32 (trieValue self ++ past))) in
    require! 0 <? v;
    Some (out <| r_to := requestor self |> <| r_value := v |>)
  else Some (out <| r_to := _to |> <| r_value := r_value self |> <| trieKey := trieKey self |> <| trieValue := trieValue self |>).

(** [abi.encode] of four words and a byte array. *)
Definition abi_encode (w1 w2 w3 w4 data : bytes) : bytes :=
  w1 ++ w2 ++ w3 ++ w4 ++ be_bytes 32 160 ++ be_bytes 32 (zlen data) ++ data ++ replicate (Z.to_nat ((- zlen data) mod 32)) Byte.x00.

Definition Request_getData (self : Request) (_requestId : Z) (_rootchain : bool) : bytes :=
  if isTransfer self && negb (isExit self) then []
  else
    let funcSig := take 4 (keccak (if _rootchain then sig_applyRequestInRootChain else sig_applyRequestInChildChain)) in
    funcSig ++ abi_encode (be_bytes 32 (if isExit self then 1 else 0)) (be_bytes 32 _requestId) (be_bytes 32 (requestor self)) (trieKey self)
      (trieValue self).

Definition toTX (self : Request) (_requestId : Z) (_rootchain : bool) : TX :=
  mkTX 0 NA_TX_GAS_PRICE NA_TX_GAS_LIMIT (r_to self) (r_value self) (Request_getData self _requestId _rootchain) 0 0 0.

Definition TX_toBytes (self : TX) : option bytes :=
  p0 ← RLPEncode.encodeUint (tx_nonce self);
  p1 ← RLPEncode.encodeUint (tx_gasPrice self);
  p2 ← RLPEncode.encodeUint (tx_gasLimit self);
  p3 ← RLPEncode.encodeAddress (tx_to self);
  p4 ← RLPEncode.encodeUint (tx_value self);
  p5 ← RLPEncode.encodeBytes (tx_data self);
  p6 ← RLPEncode.encodeUint (tx_v self);
  p7 ← RLPEncode.encodeUint (tx_r self);
  p8 ← RLPEncode.encodeUint (tx_s self);
  RLPEncode.encodeList [p0; p1; p2; p3; p4; p5; p6; p7; p8].

Definition TX_hash (self : TX) : option bytes := txBytes ← TX_toBytes self; Some (keccak txBytes).
End Contract.

(** ** The operator's node *)

Section Node.
Variable keccak : bytes -> bytes.

(** transaction.go: txdata, with the fields that are serialised. *)
Definition txdata : typ :=
  TStruct [TUint 64; TBig; TUint 64; TNilPtr Kind.String (TByteArray 20); TBig; TBytes; TBig; TBig; TBig] None.

Definition NewTransaction (nonce : Z) (to : Address) (amount gasLimit gasPrice : Z) (data : bytes) : Rlp.val :=
  VList [VUint nonce; VBig gasPrice; VUint gasLimit; VPtr (VBytes (be_bytes 20 to)); VBig amount; VBytes data; VBig 0; VBig 0; VBig 0].

Definition RequestTxGasPrice : Z := 1000000000.
Definition RequestTxGasLimit : Z := 100000.

Definition applyRequest_inputs : list Abi.Type_ :=
  [Abi.BoolTy; Abi.UintTy 256; Abi.AddressTy; Abi.FixedBytesTy 32; Abi.BytesTy].

(** [requestableContractABI.Pack("applyRequestInChildChain", ...)]; an error is
    logged and the input stays empty. *)
Definition pack_applyRequest (isExit : bool) (requestId : Z) (requestor : Address) (trieKey trieValue : bytes) : outcome bytes :=
  let! r := Abi.Pack applyRequest_inputs
    [Abi.VBool isExit; Abi.VInt (Int64 requestId); Abi.VBytes (be_bytes 20 requestor); Abi.VBytes trieKey; Abi.VBytes trieValue] in
  Done (match r with inr arguments => take 4 (keccak sig_applyRequestInChildChain) ++ arguments | inl _ => [] end).

(** The transaction of a request, in the handler of a prepared epoch;
    [requestableContracts] is what the contract answers for the mapping. *)
Definition request_tx (requestableContracts : Address -> Address) (requestId : Z) (request : Request) : outcome Rlp.val :=
  if isTransfer request && negb (isExit request) then
    Done (NewTransaction 0 (requestor request) (SetBytes (trieValue request)) RequestTxGasLimit RequestTxGasPrice [])
  else
    let! input := pack_applyRequest (isExit request) requestId (requestor request) (trieKey request) (trieValue request) in
    Done (NewTransaction 0 (requestableContracts (r_to request)) (r_value request) RequestTxGasLimit RequestTxGasPrice input).
End Node.

(** ** The two encodings agree *)

Lemma first_nonzero_spec b : SetBytes (drop (RLPEncode.first_nonzero b) b) = SetBytes b /\ no_leading_zero (drop (RLPEncode.first_nonzero b) b).
Proof.
  induction b as [|x b [IH1 IH2]]; [done|]. cbn [RLPEncode.first_nonzero]. destruct (Z.eqb_spec (Z_of_byte x) 0) as [Hx|Hx].
  - cbn [drop]. rewrite SetBytes_cons, Hx, IH1. split; [lia|done].
  - split; [done|]. cbn [drop no_leading_zero]. intros Hb. apply Hx. by rewrite Hb.
Qed.

Lemma toBinary_BigBytes x : 0 <= x < two256 -> RLPEncode.toBinary x = BigBytes x.
Proof.
  intros Hx. unfold RLPEncode.toBinary. destruct (first_nonzero_spec (be_bytes 32 x)) as [Hs Hn].
  rewrite <-(BigBytes_SetBytes (drop _ _) Hn), Hs, SetBytes_be_bytes. change (256 ^ Z.of_nat 32) with two256. by rewrite Z.mod_small.
Qed.

Lemma encodeLength_puthead n offset : 0 <= n < two64 -> 0 <= offset ->
  RLPEncode.encodeLength n offset = Some (puthead offset (offset + 55) n).
Proof.
  intros Hn Ho. unfold RLPEncode.encodeLength, puthead, require. change (256 ^ 8) with two64. rewrite (proj2 (Z.ltb_lt _ _)) by lia.
  destruct (Z.leb_spec n 55), (Z.ltb_spec n 56); try lia; [do 3 f_equal; lia|].
  rewrite toBinary_BigBytes, putint_BigBytes by lia. unfold RLPEncode.mergeBytes. cbn [app]. do 3 f_equal. lia.
Qed.

Lemma encodeBytes_enc b : zlen b < two64 -> RLPEncode.encodeBytes b = Some (enc_string b).
Proof.
  intros Hb. unfold RLPEncode.encodeBytes, enc_string, RLPEncode.STRING_OFFSET. destruct b as [|x [|y b]].
  - done.
  - rewrite encodeLength_puthead by lia. cbn [mbind option_bind]. destruct (Z.leb_spec (Z_of_byte x) 127), (Z.ltb_spec (Z_of_byte x) 128); try lia; done.
  - rewrite encodeLength_puthead by (simpl in *; lia). done.
Qed.

Lemma BigBytes_length_256 x : 0 <= x < two256 -> zlen (BigBytes x) <= 32.
Proof.
  intros Hx. rewrite <-toBinary_BigBytes by done. unfold RLPEncode.toBinary. rewrite length_drop, length_be_bytes. lia.
Qed.

Lemma encodeUint_enc x : 0 <= x < two256 -> RLPEncode.encodeUint x = Some (enc_string (BigBytes x)).
Proof.
  intros Hx. unfold RLPEncode.encodeUint. rewrite toBinary_BigBytes by done. apply encodeBytes_enc. pose proof (BigBytes_length_256 x Hx). lia.
Qed.

Lemma encodeList_enc l : zlen (concat l) < two64 -> RLPEncode.encodeList l = Some (enc_list (concat l)).
Proof.
  intros Hl. assert (forall acc, foldl RLPEncode.mergeBytes acc l = acc ++ concat l) as Hf.
  { clear. induction l as [|b l IH]; intros acc; cbn [foldl concat]; [by rewrite app_nil_r|]. rewrite IH. unfold RLPEncode.mergeBytes. by rewrite app_assoc. }
  unfold RLPEncode.encodeList. rewrite Hf. cbn [app]. unfold RLPEncode.LIST_OFFSET. by rewrite encodeLength_puthead by lia.
Qed.

Lemma puthead_len s l n : zlen (puthead s l n) <= 9.
Proof.
  unfold puthead. destruct (_ <? 56); [simpl; lia|]. cbn [length]. enough (length (putint n) <= 8)%nat by lia.
  unfold putint. repeat destruct (_ <? _); simpl; lia.
Qed.

Lemma enc_string_len b : zlen (enc_string b) <= zlen b + 9.
Proof.
  unfold enc_string. destruct b as [|x [|y b]]; [done|destruct (_ <? _); [simpl; lia|]|]; rewrite length_app, Nat2Z.inj_add;
    [pose proof (puthead_len 128 183 1)|pose proof (puthead_len 128 183 (zlen (x :: y :: b)))]; lia.
Qed.

Lemma enc_uint_len x : 0 <= x < two256 -> zlen (enc_string (BigBytes x)) <= 41.
Proof. intros Hx. pose proof (enc_string_len (BigBytes x)). pose proof (BigBytes_length_256 x Hx). lia. Qed.

(** A transaction of the contract has the encoding of the Go transaction. *)
Lemma TX_toBytes_enc nonce price limit to value data :
  0 <= nonce < two64 -> 0 <= price < two256 -> 0 <= limit < two64 -> 0 <= value < two256 -> zlen data < 2 ^ 32 ->
  exists b, TX_toBytes (mkTX nonce price limit to value data 0 0 0) = Some b /\
    EncodeToBytes txdata (NewTransaction nonce to value limit price data) = inr b.
Proof.
  intros Hn Hp Hl Hv Hd. set (parts := [enc_string (BigBytes nonce); enc_string (BigBytes price); enc_string (BigBytes limit); enc_string (be_bytes 20 to);
    enc_string (BigBytes value); enc_string data; enc_string (BigBytes 0); enc_string (BigBytes 0); enc_string (BigBytes 0)]).
  assert (zlen (concat parts) < 2 ^ 33) as Hlen.
  { pose proof (enc_uint_len nonce ltac:(lia)). pose proof (enc_uint_len price ltac:(lia)). pose proof (enc_uint_len limit ltac:(lia)).
    pose proof (enc_uint_len value ltac:(lia)). pose proof (enc_uint_len 0 ltac:(lia)). pose proof (enc_string_len (be_bytes 20 to)) as Ha.
    rewrite length_be_bytes in Ha. pose proof (enc_string_len data). unfold parts. cbn [concat]. rewrite !length_app. simpl (length []). lia. }
  exists (enc_list (concat parts)). split.
  - unfold TX_toBytes. cbn [tx_nonce tx_gasPrice tx_gasLimit tx_to tx_value tx_data tx_v tx_r tx_s].
    rewrite !encodeUint_enc, encodeBytes_enc by lia. unfold RLPEncode.encodeAddress. rewrite encodeBytes_enc by (rewrite length_be_bytes; lia).
    cbn [mbind option_bind]. apply encodeList_enc. fold parts. lia.
  - assert (enc txdata (NewTransaction nonce to value limit price data) = Some (enc_list (concat parts))) as He.
    { unfold txdata, NewTransaction, parts. cbn [enc map enc_fields mbind option_bind]. rewrite !(proj2 (Z.ltb_ge _ _)) by lia. done. }
    rewrite EncodeToBytes_spec, He; [done| |].
    + unfold txdata, NewTransaction. cbn [typed map Rlp.typed Rlp.typed_fields]. split_and!; try done; try lia; try (by simpl; auto 10).
    + rewrite He. intros b Hb. assert (b = enc_list (concat parts)) as -> by congruence. unfold enc_list. rewrite length_app.
      pose proof (puthead_len 192 247 (zlen (concat parts))). lia.
Qed.

(** Zero bytes up to a multiple of 32. *)
Lemma RightPadBytes_words b : RightPadBytes b ((zlen b + 31) / 32 * 32) = b ++ replicate (Z.to_nat ((- zlen b) mod 32)) Byte.x00.
Proof.
  unfold RightPadBytes. pose proof (Z.div_mod (zlen b + 31) 32 ltac:(lia)). pose proof (Z.mod_pos_bound (zlen b + 31) 32 ltac:(lia)).
  assert ((- zlen b) mod 32 = (zlen b + 31) / 32 * 32 - zlen b) as Hm.
  { symmetry. apply (Z.mod_unique_pos _ _ (- ((zlen b + 31) / 32))); lia. }
  rewrite Hm. destruct (Z.leb_spec ((zlen b + 31) / 32 * 32) (zlen b)).
  - replace ((zlen b + 31) / 32 * 32 - zlen b) with 0 by lia. by rewrite app_nil_r.
  - do 2 f_equal. lia.
Qed.

Lemma be_bytes_small n k z : 0 <= z < 256 ^ Z.of_nat n -> be_bytes (k + n) z = replicate k Byte.x00 ++ be_bytes n z.
Proof.
  intros Hz. apply SetBytes_inj; [rewrite length_app, length_replicate, !length_be_bytes; lia|].
  rewrite SetBytes_app, SetBytes_zeros, !SetBytes_be_bytes. rewrite !Z.mod_small; [lia|done|]. split; [lia|].
  eapply Z.lt_le_trans; [apply Hz|]. apply Z.pow_le_mono_r; lia.
Qed.

Lemma LeftPad_address a : is_addr a -> LeftPadBytes (be_bytes 20 a) 32 = be_bytes 32 a.
Proof.
  intros Ha. rewrite (be_bytes_small 20 12) by (unfold is_addr in Ha; simpl; lia). unfold LeftPadBytes. by rewrite length_be_bytes.
Qed.

Lemma pack_applyRequest_data keccak isExit requestId requestor trieKey trieValue :
  0 <= requestId < two63 -> is_addr requestor -> length trieKey = 32%nat -> zlen trieValue < two256 ->
  pack_applyRequest keccak isExit requestId requestor trieKey trieValue =
  Done (take 4 (keccak sig_applyRequestInChildChain) ++
        abi_encode (be_bytes 32 (if isExit then 1 else 0)) (be_bytes 32 requestId) (be_bytes 32 requestor) trieKey trieValue).
Proof.
  intros Hid Hr Hk Hv. unfold pack_applyRequest. rewrite Int64_small by done.
  assert (forall x, 0 <= x < two256 -> Abi.packNum x = be_bytes 32 x) as Hnum by (intros x Hx; by rewrite Abi.packNum_bytes, Z.mod_small).
  unfold Abi.Pack, applyRequest_inputs. cbn [length Nat.eqb negb zip_with Abi.pack Abi.typeCheck Abi.ebind obind Abi.isDynamicType].
  rewrite Hk. cbn [Nat.eqb negb obind foldr Abi.getTypeSize Abi.pack_seq Abi.ebind Abi.packElement]. unfold Abi.packBytesSlice.
  rewrite RightPadBytes_words, LeftPad_address, !Hnum by (done || lia).
  assert (RightPadBytes trieKey 32 = trieKey) as -> by (unfold RightPadBytes; by rewrite Hk).
  unfold abi_encode. do 2 f_equal. rewrite <-!app_assoc. by destruct isExit; rewrite PaddedBigBytes_word by lia.
Qed.

(** What the contract ensures of a stored request, and the requestable contract
    of an enter request of Ether: the value is one word and not zero. *)
Definition request_ok (r : Request) : Prop :=
  0 <= r_value r < two128 /\ is_addr (requestor r) /\ length (trieKey r) = 32%nat /\ zlen (trieValue r) <= 1024 /\
  (isTransfer r = true -> isExit r = false -> length (trieValue r) = 32%nat /\ 0 < SetBytes (trieValue r) < two128).

Lemma request_tx_bytes keccak contracts requestId r past :
  request_ok r -> 0 <= requestId < two63 ->
  exists child tx b, toChildChainRequest r (contracts (r_to r)) past = Some child /\
    request_tx keccak contracts requestId r = Done tx /\
    TX_toBytes (toTX keccak child requestId false) = Some b /\ EncodeToBytes txdata tx = inr b.
Proof.
  intros (Hval & Hreq & Hkey & Htv & Heth) Hid. unfold toChildChainRequest, request_tx. destruct (isTransfer r && negb (isExit r)) eqn:Ht.
  - apply andb_true_iff in Ht as [Ht He%negb_true_iff]. destruct (Heth Ht He) as [H32 Hpos]. rewrite Ht, He. cbn [andb negb].
    rewrite take_app_length' by done. unfold u128. rewrite Z.mod_small by lia. unfold require. rewrite (proj2 (Z.ltb_lt _ _)) by lia.
    destruct (TX_toBytes_enc 0 NA_TX_GAS_PRICE NA_TX_GAS_LIMIT (requestor r) (SetBytes (trieValue r)) []) as (b & Hb1 & Hb2); try done; try lia.
    do 3 eexists. split_and!; [reflexivity|reflexivity| |exact Hb2]. unfold toTX, Request_getData. simpl. exact Hb1.
  - rewrite (andb_comm (negb _)), Ht. rewrite pack_applyRequest_data by (done || lia). cbn [obind].
    set (data := _ ++ _). assert (zlen data < 2 ^ 32) as Hd.
    { unfold data, abi_encode. rewrite !length_app, length_take, !length_be_bytes, length_replicate.
      pose proof (Z.mod_pos_bound (- zlen (trieValue r)) 32 ltac:(lia)). lia. }
    destruct (TX_toBytes_enc 0 NA_TX_GAS_PRICE NA_TX_GAS_LIMIT (contracts (r_to r)) (r_value r) data) as (b & Hb1 & Hb2); try done; try lia.
    do 3 eexists. split_and!; [reflexivity|reflexivity| |exact Hb2]. unfold toTX, Request_getData. simpl. rewrite Ht. exact Hb1.
Qed.

(** C24: the contract and the operator's node make the same transaction of a
    request with fields in the ranges that the contract stores: the bytes the
    contract hashes are the RLP encoding of the Go transaction, for exits, for
    enters and for enters of Ether whose value is one word between 1 and 2^128 -
    1. *)
Theorem request_tx_agrees keccak contracts requestId r past :
  request_ok r -> 0 <= requestId < two63 ->
  exists child tx b, toChildChainRequest r (contracts (r_to r)) past = Some child /\
    request_tx keccak contracts requestId r = Done tx /\
    TX_toBytes (toTX keccak child requestId false) = Some b /\ EncodeToBytes txdata tx = inr b.
Proof. apply request_tx_bytes. Qed.
