(* ===== verification/RootChainData.v ===== *)
(** * The root chain contract: its storage and the operations on forks
    RootChainStorage.sol, the structures of lib/Data.sol with the operations on
    a fork, and the reading of receipts (lib/RLP.sol).  A mapping is a finite
    map that reads as zero elsewhere; a call that reverts is [None]. *)

From S2P Require Import Prelude MathUtil Solidity RecordUpdate BinaryMerkle PlasmaTx.

(** ** Storage *)

Record RequestBlock := mkRequestBlock {
  submitted : bool;
  numEnter : Z;
  rb_epochNumber : Z;
  requestStart : Z;
  requestEnd : Z }.

#[export] Instance eta_RequestBlock : Eta RequestBlock :=
  fun r => mkRequestBlock (submitted r) (numEnter r) (rb_epochNumber r) (requestStart r) (requestEnd r).

Definition zeroRequestBlock : RequestBlock := mkRequestBlock false 0 0 0 0.

(** The fields of RequestEpochMeta have the prefix RE, those of
    NonRequestEpochMeta the prefix NRE. *)
Record Epoch := mkEpoch {
  startBlockNumber : Z;
  endBlockNumber : Z;
  e_timestamp : Z;
  isEmpty : bool;
  e_initialized : bool;
  e_isRequest : bool;
  e_userActivated : bool;
  rebase : bool;
  RE_requestStart : Z;
  RE_requestEnd : Z;
  RE_firstRequestBlockId : Z;
  RE_numEnter : Z;
  RE_nextEnterEpoch : Z;
  RE_nextEpoch : Z;
  NRE_epochStateRoot : bytes;
  NRE_epochTransactionsRoot : bytes;
  NRE_epochReceiptsRoot : bytes;
  NRE_submittedAt : Z;
  NRE_finalizedAt : Z;
  NRE_finalized : bool;
  NRE_challenging : bool;
  NRE_challenged : bool }.

#[export] Instance eta_Epoch : Eta Epoch :=
  fun e => mkEpoch (startBlockNumber e) (endBlockNumber e) (e_timestamp e) (isEmpty e) (e_initialized e) (e_isRequest e) (e_userActivated e)
    (rebase e) (RE_requestStart e) (RE_requestEnd e) (RE_firstRequestBlockId e) (RE_numEnter e) (RE_nextEnterEpoch e) (RE_nextEpoch e)
    (NRE_epochStateRoot e) (NRE_epochTransactionsRoot e) (NRE_epochReceiptsRoot e) (NRE_submittedAt e) (NRE_finalizedAt e) (NRE_finalized e)
    (NRE_challenging e) (NRE_challenged e).

Definition zeroEpoch : Epoch :=
  mkEpoch 0 0 0 false false false false false 0 0 0 0 0 0 zero32 zero32 zero32 0 0 false false false.

Record PlasmaBlock := mkPlasmaBlock {
  b_epochNumber : Z;
  requestBlockId : Z;
  b_timestamp : Z;
  b_finalizedAt : Z;
  referenceBlock : Z;
  statesRoot : bytes;
  transactionsRoot : bytes;
  receiptsRoot : bytes;
  b_isRequest : bool;
  b_userActivated : bool;
  b_challenged : bool;
  b_challenging : bool;
  b_finalized : bool }.

#[export] Instance eta_PlasmaBlock : Eta PlasmaBlock :=
  fun b => mkPlasmaBlock (b_epochNumber b) (requestBlockId b) (b_timestamp b) (b_finalizedAt b) (referenceBlock b) (statesRoot b)
    (transactionsRoot b) (receiptsRoot b) (b_isRequest b) (b_userActivated b) (b_challenged b) (b_challenging b) (b_finalized b).

Definition zeroBlock : PlasmaBlock := mkPlasmaBlock 0 0 0 0 0 zero32 zero32 zero32 false false false false false.

Record Fork := mkFork {
  forkedBlock : Z;
  firstEpoch : Z;
  lastEpoch : Z;
  firstBlock : Z;
  lastBlock : Z;
  lastFinalizedEpoch : Z;
  lastFinalizedBlock : Z;
  f_timestamp : Z;
  firstEnterEpoch : Z;
  lastEnterEpoch : Z;
  nextBlockToRebase : Z;
  rebased : bool;
  epochs : gmap Z Epoch;
  blocks : gmap Z PlasmaBlock }.

#[export] Instance eta_Fork : Eta Fork :=
  fun f => mkFork (forkedBlock f) (firstEpoch f) (lastEpoch f) (firstBlock f) (lastBlock f) (lastFinalizedEpoch f) (lastFinalizedBlock f)
    (f_timestamp f) (firstEnterEpoch f) (lastEnterEpoch f) (nextBlockToRebase f) (rebased f) (epochs f) (blocks f).

Definition zeroFork : Fork := mkFork 0 0 0 0 0 0 0 0 0 0 0 false ∅ ∅.

Definition epoch (f : Fork) (n : Z) : Epoch := default zeroEpoch (epochs f !! n).
Definition block (f : Fork) (n : Z) : PlasmaBlock := default zeroBlock (blocks f !! n).
Definition set_epoch (n : Z) (g : Epoch -> Epoch) (f : Fork) : Fork := f <| epochs := <[n := g (epoch f n)]> (epochs f) |>.
Definition set_block (n : Z) (g : PlasmaBlock -> PlasmaBlock) (f : Fork) : Fork := f <| blocks := <[n := g (block f n)]> (blocks f) |>.

(** ** lib/Data.sol *)

Definition MAX_REQUESTS : Z := 20.

Definition decodePos (_pos : Z) : Z * Z := (_pos / 2 ^ 128, Z.land _pos (2 ^ 128 - 1)).

(** [now] is [block.timestamp]. *)
Definition insertBlock (now : Z) (_statesRoot _transactionsRoot _receiptsRoot : bytes) (_isRequest _userActivated _rebase : bool) (_f : Fork)
    : option (Fork * (Z * Z)) :=
  let epochNumber := lastEpoch _f in
  blockNumber ← SafeMath.add (lastBlock _f) 1;
  let '(_f, epochNumber) :=
    if blockNumber =? u64 (endBlockNumber (epoch _f epochNumber) + 1)
    then (_f <| lastEpoch := u64 (epochNumber + 1) |>, u256 (epochNumber + 1)) else (_f, epochNumber) in
  let e := epoch _f epochNumber in
  require! startBlockNumber e <=? blockNumber;
  require! _rebase || (blockNumber <=? endBlockNumber e);
  require! eqb (e_isRequest e) _isRequest;
  require! eqb (e_userActivated e) _userActivated;
  let _f := set_block blockNumber (fun b =>
    let b := b <| b_epochNumber := u64 epochNumber |> <| statesRoot := _statesRoot |> <| transactionsRoot := _transactionsRoot |>
               <| receiptsRoot := _receiptsRoot |> <| b_timestamp := u64 now |> <| b_isRequest := _isRequest |>
               <| b_userActivated := _userActivated |> in
    if _isRequest then b <| requestBlockId := u64 (RE_firstRequestBlockId e + blockNumber - startBlockNumber e) |> else b) _f in
  Some (_f <| lastBlock := u64 blockNumber |>, (epochNumber, blockNumber)).

Definition insertNRE (now _epochNumber : Z) (_epochStateRoot _epochTransactionsRoot _epochReceiptsRoot : bytes)
    (_startBlockNumber _endBlockNumber : Z) (_f : Fork) : option Fork :=
  nextEpoch ← SafeMath.add (lastEpoch _f) 1;
  require! nextEpoch =? _epochNumber;
  nextBlock ← SafeMath.add (lastBlock _f) 1;
  require! nextBlock =? _startBlockNumber;
  let e := epoch _f _epochNumber in
  require! negb (e_isRequest e);
  require! negb (e_userActivated e);
  require! negb (rebase e);
  require! startBlockNumber e =? _startBlockNumber;
  require! endBlockNumber e =? _endBlockNumber;
  let _f := set_epoch _epochNumber (fun e =>
    e <| NRE_epochStateRoot := _epochStateRoot |> <| NRE_epochTransactionsRoot := _epochTransactionsRoot |>
      <| NRE_epochReceiptsRoot := _epochReceiptsRoot |> <| NRE_submittedAt := u64 now |>) _f in
  Some (_f <| lastEpoch := u64 _epochNumber |> <| lastBlock := u64 _endBlockNumber |>).

(** The hashes of the requests [i .. e] of a request block, without those of
    exits if [_skipExit]. *)
Fixpoint request_hashes (count : nat) (i : Z) (_rs : list Request) (_skipExit : bool) : option (list bytes) :=
  match count with
  | O => Some []
  | S count =>
      r ← _rs !! Z.to_nat i;
      hashes ← request_hashes count (i + 1) _rs _skipExit;
      Some (if negb _skipExit || negb (isExit r) then r_hash r :: hashes else hashes)
  end.

Section CheckTxRoot.
Variable keccak : bytes -> bytes.

(** The array of hashes has [n] elements, those not assigned are zero; an
    array of 2^64 words cannot be paid for. *)
Definition _checkTxRoot (_transactionsRoot : bytes) (_rb : RequestBlock) (_rs : list Request) (_skipExit : bool) : option unit :=
  let s := requestStart _rb in
  let e := requestEnd _rb in
  let n := if _skipExit then numEnter _rb else u256 (e - s + 1) in
  require! 0 <? n;
  require! n <? two64;
  hashes ← request_hashes (Z.to_nat (e - s + 1)) s _rs _skipExit;
  require! zlen hashes <=? n;
  let hashes := hashes ++ replicate (Z.to_nat n - length hashes) zero32 in
  match BMT.getRoot keccak (S (length hashes)) hashes with
  | Done root => require! bool_decide (root = _transactionsRoot); Some tt
  | _ => None
  end.
End CheckTxRoot.

(** ** lib/RLP.sol *)

Module RLP.
Definition mload (mem : bytes) (ptr : Z) : bytes := take 32 (drop (Z.to_nat ptr) mem ++ zero32).
Definition byte0 (mem : bytes) (ptr : Z) : Z := Z_of_byte (default Byte.x00 (head (mload mem ptr))).

(** An item is its position and its length. *)
Record RLPItem := mkRLPItem { _unsafeMemPtr : Z; _unsafeLength : Z }.

Definition _payloadOffset (mem : bytes) (self : RLPItem) : Z :=
  let b0 := byte0 mem (_unsafeMemPtr self) in
  if b0 <? 128 then 0
  else if (b0 <? 184) || (192 <=? b0) && (b0 <? 248) then 1
  else if b0 <? 192 then b0 - 183 + 1
  else b0 - 247 + 1.

Definition _itemLength (mem : bytes) (memPtr : Z) : Z :=
  let b0 := byte0 mem memPtr in
  if b0 <? 128 then 1 else if b0 <? 184 then b0 - 128 + 1 else 0.

(** [numItems] calls of next, from [ptr] on. *)
Fixpoint toList_loop (mem : bytes) (numItems : nat) (ptr : Z) : list RLPItem :=
  match numItems with
  | O => []
  | S numItems => let itemLength := _itemLength mem ptr in mkRLPItem ptr itemLength :: toList_loop mem numItems (ptr + itemLength)
  end.
Definition toList (mem : bytes) (self : RLPItem) (numItems : nat) : list RLPItem :=
  toList_loop mem numItems (_unsafeMemPtr self + _payloadOffset mem self).

Definition _decode (mem : bytes) (self : RLPItem) : Z * Z :=
  let start := _unsafeMemPtr self in
  let b0 := byte0 mem start in
  if b0 <? 128 then (start, 1)
  else if b0 <? 184 then (start + 1, u256 (_unsafeLength self - 1))
  else let bLen := b0 - 183 in (start + bLen + 1, u256 (_unsafeLength self - 1 - bLen)).

(** The power of 256 is zero modulo 2^256 from the exponent 32 on, and a
    division by zero gives zero. *)
Definition toUint (mem : bytes) (self : RLPItem) : Z :=
  let '(rStartPos, len) := _decode mem self in
  let e := u256 (32 - len) in
  if e <? 32 then SetBytes (mload mem rStartPos) / 256 ^ e else 0.

(** Data.sol: [self.toRLPItem().toList(4)[0].toUint()]; the memory has [past]
    after the bytes. *)
Definition toReceiptStatus (self past : bytes) : option Z :=
  let mem := self ++ past in
  item ← toList mem (mkRLPItem 0 (zlen self)) 4 !! 0%nat;
  Some (toUint mem item).
End RLP.
