(* ===== verification/RootChain.v ===== *)
(** * The root chain contract
    RootChain.sol with its handlers EpochHandler.sol and SubmitHandler.sol, to
    which it delegates (the handlers work on the storage of the contract), and
    the roles.  [Ctx] is what a call sees of the chain around the contract:
    the sender, the time, and the answers of the contracts it calls.  Those
    contracts are taken not to call back.  The functions that start a user
    activated fork revert; the code after such a fork is translated where
    submitORB can call it.  Events and the Ether that calls carry are left out. *)

From S2P Require Import Prelude MathUtil Solidity RecordUpdate BinaryMerkle PlasmaTx RootChainData.

Record RootChain := mkRootChain {
  development : bool;
  operator : Address;
  etherToken : Address;
  seigManager : Address;
  NRELength : Z;
  currentFork : Z;
  firstFilledORENumber : gmap Z Z;
  forks : gmap Z Fork;
  EROs : list Request;
  ERUs : list Request;
  ORBs : list RequestBlock;
  URBs : list RequestBlock;
  numEnterForORB : Z;
  lastNonEmptyRequestEpoch : gmap Z Z;
  firstNonEmptyRequestEpoch : gmap Z Z;
  lastAppliedForkNumber : Z;
  lastAppliedEpochNumber : Z;
  lastAppliedBlockNumber : Z;
  EROIdToFinalize : Z;
  ERUIdToFinalize : Z;
  requestableContracts : gmap Address Address;
  mappers : gset Address;
  submitters : gset Address }.

#[export] Instance eta_RootChain : Eta RootChain :=
  fun s => mkRootChain (development s) (operator s) (etherToken s) (seigManager s) (NRELength s) (currentFork s) (firstFilledORENumber s) (forks s)
    (EROs s) (ERUs s) (ORBs s) (URBs s) (numEnterForORB s) (lastNonEmptyRequestEpoch s) (firstNonEmptyRequestEpoch s)
    (lastAppliedForkNumber s) (lastAppliedEpochNumber s) (lastAppliedBlockNumber s) (EROIdToFinalize s) (ERUIdToFinalize s)
    (requestableContracts s) (mappers s) (submitters s).

(** [apply] is a call of applyRequestInRootChain and [None] if it reverts,
    [accepts] tells whether an account takes a transfer, [onCommit] is the
    answer of the seigniorage manager.  [gas] bounds the iterations of loops:
    a call that needs more reverts. *)
Record Ctx := mkCtx {
  sender : Address;
  now : Z;
  isContract : Address -> bool;
  apply : Request -> Z -> option bool;
  accepts : Address -> bool;
  onCommit : option bool;
  past : bytes;
  gas : nat }.

(** What a call finalises: the identifier, whether it is an ERU, and whether it
    was applied. *)
Record finalization := mkFinalization { fin_user : bool; fin_id : Z; fin_applied : bool }.

Definition CP_COMPUTATION : Z := 15.
Definition CP_WITHHOLDING : Z := 20.
Definition CP_EXIT : Z := 10.

Definition fork (s : RootChain) (n : Z) : Fork := default zeroFork (forks s !! n).
Definition set_fork (n : Z) (f : Fork) (s : RootChain) : RootChain := s <| forks := <[n := f]> (forks s) |>.

Section RootChain.
Variable keccak : bytes -> bytes.
Implicit Types (c : Ctx) (s : RootChain).

(** ** handlers/EpochHandler.sol *)

Definition prepareNRE c s : option RootChain :=
  let f := fork s (currentFork s) in
  require! (currentFork s =? 0) || rebased f;
  let epochNumber := u64 (lastEpoch f + 1) in
  let startBlock := if epochNumber =? 1 then 1 else u64 (endBlockNumber (epoch f (lastEpoch f)) + 1) in
  let f := set_epoch epochNumber (fun e =>
    e <| e_initialized := true |> <| e_timestamp := u64 (now c) |> <| startBlockNumber := u64 startBlock |>
      <| endBlockNumber := u64 (startBlock + NRELength s - 1) |>) f in
  Some (set_fork (currentFork s) f s).

(** Its first part: the block numbers of the request epoch [n], whose requests
    were chosen two epochs ago. *)
Definition ore_numbers (n : Z) (f : Fork) : option (Fork * Z) :=
  let e := epoch f n in
  let numBlocks := if isEmpty e then 0 else u64 (divCeil (u64 (RE_requestEnd e - RE_requestStart e + 1)) MAX_REQUESTS) in
  let previousEnd := endBlockNumber (epoch f (u64 (n - 1))) in
  if isEmpty e then Some (set_epoch n (fun e => e <| startBlockNumber := previousEnd |> <| endBlockNumber := previousEnd |>) f, numBlocks)
  else
    start ← SafeMath.add64 previousEnd 1;
    Some (set_epoch n (fun e => e <| startBlockNumber := start |> <| endBlockNumber := u64 (start + numBlocks - 1) |>) f, numBlocks).

(** Its second part: the requests of the next request epoch, [e] being the
    current one. *)
Definition next_ore (e : Epoch) (n filled numBlocks numEROs : Z) (next : Epoch) : Epoch :=
  let next := if (numEROs =? 0) || (numEROs - 1 =? RE_requestEnd e) then next <| isEmpty := true |> else next in
  if negb (isEmpty next) then
    if (filled =? n) && rebase e then
      next <| RE_requestStart := u64 (RE_requestEnd e + 1) |> <| RE_firstRequestBlockId := u64 (RE_firstRequestBlockId e + 1) |>
    else if filled =? 0 then
      next <| RE_requestStart := RE_requestEnd e |> <| RE_firstRequestBlockId := RE_firstRequestBlockId e |>
    else if negb (isEmpty e) then
      next <| RE_requestStart := u64 (RE_requestEnd e + 1) |> <| RE_firstRequestBlockId := u64 (RE_firstRequestBlockId e + numBlocks) |>
    else next <| RE_requestStart := u64 (RE_requestEnd e + 1) |> <| RE_firstRequestBlockId := u64 (RE_firstRequestBlockId e + 1) |>
  else
    let next := next <| RE_requestStart := RE_requestEnd e |> in
    if negb (isEmpty e) then next <| RE_firstRequestBlockId := u64 (RE_firstRequestBlockId e + numBlocks - 1) |>
    else next <| RE_firstRequestBlockId := RE_firstRequestBlockId e |>.

(** The list of epochs with enter requests. *)
Definition link_enter (n : Z) (f : Fork) : Fork :=
  if 0 <? RE_numEnter (epoch f n) then
    let f := if firstEnterEpoch f =? 0 then f <| firstEnterEpoch := n |>
             else set_epoch (lastEnterEpoch f) (fun e => e <| RE_nextEnterEpoch := n |>) f in
    f <| lastEnterEpoch := n |>
  else f.

(** The last part: the last request, and no more requests for the last ORB. *)
Definition seal_next (m : Z) (f : Fork) s : option (Fork * list RequestBlock) :=
  if isEmpty (epoch f m) then Some (set_epoch m (fun e => e <| RE_requestEnd := RE_requestStart e |>) f, ORBs s)
  else
    last ← SafeMath.sub (zlen (ORBs s)) 1;
    orb ← ORBs s !! Z.to_nat last;
    Some (set_epoch m (fun e => e <| RE_requestEnd := u64 (zlen (EROs s) - 1) |>) f,
          <[Z.to_nat last := orb <| submitted := true |>]> (ORBs s)).

Definition prepareORE c s : option RootChain :=
  let cur := currentFork s in
  let f := fork s cur in
  require! (cur =? 0) || rebased f;
  let n := u64 (lastEpoch f + 1) in
  let m := u64 (n + 2) in
  let f := set_epoch n (fun e => e <| e_initialized := true |> <| e_timestamp := u64 (now c) |>) f in
  let f := set_epoch m (fun e => e <| e_isRequest := true |> <| RE_numEnter := u64 (numEnterForORB s) |>) f in
  let f := link_enter n f in
  let filled := if (at_ (firstFilledORENumber s) cur =? 0) && negb (isEmpty (epoch f n)) then n else at_ (firstFilledORENumber s) cur in
  '(f, numBlocks) ← ore_numbers n f;
  let f := set_epoch m (next_ore (epoch f n) n filled numBlocks (zlen (EROs s))) f in
  let empty := isEmpty (epoch f n) in
  let lastNonEmpty := at_ (lastNonEmptyRequestEpoch s) cur in
  let f := if negb empty && negb (lastNonEmpty =? 0) then set_epoch lastNonEmpty (fun e => e <| RE_nextEpoch := n |>) f else f in
  '(f, orbs) ← seal_next m f s;
  let s := s <| numEnterForORB := 0 |> <| firstFilledORENumber := <[cur := filled]> (firstFilledORENumber s) |> <| ORBs := orbs |> in
  let s := if negb empty then
    s <| firstNonEmptyRequestEpoch :=
          (if at_ (firstNonEmptyRequestEpoch s) cur =? 0 then <[cur := n]> (firstNonEmptyRequestEpoch s) else firstNonEmptyRequestEpoch s) |>
      <| lastNonEmptyRequestEpoch := <[cur := n]> (lastNonEmptyRequestEpoch s) |> else s in
  if isEmpty (epoch f n) then prepareNRE c (set_fork cur (f <| lastEpoch := n |>) s)
  else Some (set_fork cur f s).

(** *** After a user activated fork *)

(** [_prepareNREAfterURE], on the current fork and the one before. *)
Definition _prepareNREAfterURE c (_cur _pre : Fork) : option (Fork * bool) :=
  require! negb (rebased _cur);
  let e := epoch _cur (lastEpoch _cur) in
  require! rebase e && e_isRequest e && negb (e_userActivated e);
  let _cur := set_epoch (lastEpoch _cur) (fun e => e <| endBlockNumber := lastBlock _cur |>) _cur in
  let epochNumber := u64 (lastEpoch _cur + 1) in
  let forkedEpochNumber := b_epochNumber (block _pre (forkedBlock _pre)) in
  let _cur := set_epoch epochNumber (fun e => e <| e_initialized := true |> <| rebase := true |> <| e_timestamp := u64 (now c) |>) _cur in
  let previousNRENumber := if negb (e_isRequest (epoch _pre forkedEpochNumber)) then forkedEpochNumber else forkedEpochNumber + 1 in
  if negb (e_initialized (epoch _pre previousNRENumber)) then
    let _cur := set_epoch epochNumber (fun e =>
      e <| startBlockNumber := lastBlock _cur |> <| endBlockNumber := lastBlock _cur |> <| isEmpty := true |>) _cur in
    Some (_cur <| rebased := true |>, true)
  else
    require! negb (e_isRequest (epoch _pre previousNRENumber));
    start ← SafeMath.add64 (lastBlock _cur) 1;
    let _cur := set_epoch epochNumber (fun e => e <| startBlockNumber := start |>) _cur in
    let next := if previousNRENumber =? forkedEpochNumber then forkedBlock _pre else startBlockNumber (epoch _pre previousNRENumber) in
    require! forkedBlock _pre <=? next;
    Some (_cur <| nextBlockToRebase := next |>, false).

Definition prepareNREAfterURE c s : option RootChain :=
  let cur := currentFork s in
  previous ← SafeMath.sub cur 1;
  '(f, isNREEmpty) ← _prepareNREAfterURE c (fork s cur) (fork s previous);
  let epochNumber := u64 (lastEpoch f + 1) in
  if (isNREEmpty : bool) then
    let f := set_epoch epochNumber (fun e => e <| endBlockNumber := lastBlock f |>) f in
    prepareNRE c (set_fork cur (f <| lastEpoch := epochNumber |> <| rebased := true |>) s)
  else Some (set_fork cur f s).

(** Data.sol: the inner loops of checkNextORBToRebase, over epochs without
    enter requests and over blocks without them. *)
Fixpoint skip_epochs (gas : nat) (_pre : Fork) (epochNumber blockNumber : Z) : option (Z * Z) :=
  match gas with
  | O => None
  | S gas =>
      let e := epoch _pre epochNumber in
      if (RE_numEnter e =? 0) && e_initialized e then
        let epochNumber := u256 (epochNumber + 2) in
        skip_epochs gas _pre epochNumber (startBlockNumber (epoch _pre epochNumber))
      else Some (epochNumber, blockNumber)
  end.

Fixpoint skip_blocks (gas : nat) (_pre : Fork) (_rbs : list RequestBlock) (endBlock blockNumber : Z) : option Z :=
  match gas with
  | O => None
  | S gas =>
      if blockNumber <=? endBlock then
        rb ← _rbs !! Z.to_nat (requestBlockId (block _pre blockNumber));
        if 0 <? numEnter rb then Some blockNumber else skip_blocks gas _pre _rbs endBlock (u256 (blockNumber + 1))
      else Some blockNumber
  end.

(** [None] for the next block: all ORBs are rebased. *)
Fixpoint next_orb (gas : nat) (_pre : Fork) (_rbs : list RequestBlock) (epochNumber blockNumber : Z) : option (option Z) :=
  match gas with
  | O => None
  | S gas =>
      if e_initialized (epoch _pre epochNumber) then
        let '(epochNumber, blockNumber) :=
          if endBlockNumber (epoch _pre epochNumber) <=? blockNumber
          then (u256 (epochNumber + 2), startBlockNumber (epoch _pre (u256 (epochNumber + 2)))) else (epochNumber, blockNumber) in
        '(epochNumber, blockNumber) ← skip_epochs gas _pre epochNumber blockNumber;
        if negb (e_initialized (epoch _pre epochNumber)) then Some None
        else
          let endBlock := endBlockNumber (epoch _pre epochNumber) in
          blockNumber ← skip_blocks gas _pre _rbs endBlock blockNumber;
          if endBlock <? blockNumber then
            let epochNumber := u256 (epochNumber + 2) in
            next_orb gas _pre _rbs epochNumber (startBlockNumber (epoch _pre epochNumber))
          else Some (Some blockNumber)
      else Some None
  end.

Definition checkNextORBToRebase c (_cur _pre : Fork) (_rbs : list RequestBlock) : option (Fork * bool) :=
  next ← next_orb (gas c) _pre _rbs (b_epochNumber (block _pre (nextBlockToRebase _cur))) (nextBlockToRebase _cur);
  Some (match next with Some b => (_cur <| nextBlockToRebase := u64 b |>, false) | None => (_cur, true) end).

(** ** handlers/SubmitHandler.sol *)

Definition commit c s : option RootChain :=
  if seigManager s =? 0 then Some s else ok ← onCommit c; require! ok; Some s.

Definition handleSubmitNRE c (_pos1 _pos2 : Z) (_epochStateRoot _epochTransactionsRoot _epochReceiptsRoot : bytes) s : option RootChain :=
  let '(forkNumber, epochNumber) := decodePos _pos1 in
  require! currentFork s =? forkNumber;
  let '(startBlock, endBlock) := decodePos _pos2 in
  f ← insertNRE (now c) epochNumber _epochStateRoot _epochTransactionsRoot _epochReceiptsRoot startBlock endBlock (fork s forkNumber);
  s ← prepareORE c (set_fork forkNumber f s);
  commit c s.

Definition handleSubmitORB c (_pos : Z) (_statesRoot _transactionsRoot _receiptsRoot : bytes) s : option RootChain :=
  let '(forkNumber, blockNumber) := decodePos _pos in
  require! currentFork s =? forkNumber;
  let curFork := fork s forkNumber in
  require! u64 (lastBlock curFork + 1) =? blockNumber;
  if (forkNumber =? 0) || negb (forkedBlock (fork s (forkNumber - 1)) =? 0) && rebased curFork then
    '(curFork, (epochNumber, blockNumber)) ← insertBlock (now c) _statesRoot _transactionsRoot _receiptsRoot true false false curFork;
    _ ← (if development s then Some tt
         else orb ← ORBs s !! Z.to_nat (requestBlockId (block curFork (lastBlock curFork)));
              _checkTxRoot keccak _transactionsRoot orb (EROs s) false);
    orb ← ORBs s !! Z.to_nat (requestBlockId (block curFork blockNumber));
    let curFork := set_epoch epochNumber (fun e => e <| RE_numEnter := u64 (RE_numEnter e + numEnter orb) |>) curFork in
    let s := set_fork forkNumber curFork s in
    s ← (if blockNumber =? endBlockNumber (epoch curFork epochNumber) then prepareNRE c s else Some s);
    commit c s
  else
    '(curFork, (epochNumber, blockNumber)) ← insertBlock (now c) _statesRoot _transactionsRoot _receiptsRoot true false true curFork;
    let preFork := fork s (forkNumber - 1) in
    let curFork := set_block blockNumber (fun b =>
      b <| referenceBlock := nextBlockToRebase curFork |>
        <| requestBlockId := requestBlockId (block preFork (nextBlockToRebase curFork)) |>) curFork in
    _ ← (if development s then Some tt
         else orb ← ORBs s !! Z.to_nat (requestBlockId (block curFork blockNumber));
              _checkTxRoot keccak _transactionsRoot orb (EROs s) true);
    '(curFork, finished) ← checkNextORBToRebase c curFork preFork (ORBs s);
    s ← (if (finished : bool) then
           prepareNREAfterURE c (set_fork forkNumber (set_epoch epochNumber (fun e => e <| endBlockNumber := u64 blockNumber |>) curFork) s)
         else Some (set_fork forkNumber curFork s));
    commit c s.

(** ** Finalising blocks (RootChain.sol) *)

Definition _doFinalizeBlock c (_blockNumber : Z) (_f : Fork) : Fork :=
  let _f := set_block _blockNumber (fun b => b <| b_finalized := true |> <| b_finalizedAt := u64 (now c) |>) _f in
  _f <| lastFinalizedBlock := u64 _blockNumber |> <| lastFinalizedEpoch := u64 (b_epochNumber (block _f _blockNumber)) |>.

Definition _doFinalizeNRE c (_epochNumber : Z) (_f : Fork) : Fork :=
  let _f := set_epoch _epochNumber (fun e => e <| NRE_finalized := true |> <| NRE_finalizedAt := u64 (now c) |>) _f in
  _f <| lastFinalizedBlock := u64 (endBlockNumber (epoch _f _epochNumber)) |> <| lastFinalizedEpoch := u64 _epochNumber |>.

Definition _checkFinalizableNRE c (f : Fork) (_epochNumber : Z) : bool :=
  let e := epoch f _epochNumber in
  if lastEpoch f <? _epochNumber then false
  else if negb (e_initialized e) then false
  else if e_isRequest e then false
  else if NRE_challenging e || NRE_challenged e then false
  else NRE_submittedAt e + CP_WITHHOLDING <=? now c.

(** The loop over request epochs. *)
Fixpoint next_nre (gas : nat) (f : Fork) (nextEpochNumber : Z) : option Z :=
  match gas with
  | O => None
  | S gas => if e_isRequest (epoch f nextEpochNumber) then next_nre gas f (u256 (nextEpochNumber + 1)) else Some nextEpochNumber
  end.

Definition _finalizeBlock c s : option (RootChain * bool) :=
  let f := fork s (currentFork s) in
  if negb (forkedBlock f =? 0) then Some (s, false)
  else
    let blockNumber := Z.max (firstBlock f) (u64 (lastFinalizedBlock f + 1)) in
    if lastBlock f <? blockNumber then Some (s, false)
    else
      let pb := block f blockNumber in
      if b_challenging pb then Some (s, false)
      else if b_isRequest pb then
        if now c <? b_timestamp pb + CP_COMPUTATION then Some (s, false)
        else Some (set_fork (currentFork s) (_doFinalizeBlock c blockNumber f) s, true)
      else
        nextEpochNumber ← next_nre (gas c) f (u64 (lastFinalizedEpoch f + 1));
        if _checkFinalizableNRE c f nextEpochNumber then Some (set_fork (currentFork s) (_doFinalizeNRE c nextEpochNumber f) s, true)
        else Some (s, false).

(** The modifier of the submissions. *)
Definition finalizeBlocks c s : option RootChain :=
  if development s then Some s else '(s, _) ← _finalizeBlock c s; Some s.

Definition finalizeBlock c s : option RootChain :=
  '(s, success) ← _finalizeBlock c s;
  require! success;
  Some s.

(** ** Roles *)

Definition has (role : gset Address) (account : Address) : option bool :=
  require! negb (account =? 0); Some (bool_decide (account ∈ role)).

Definition role_add (role : gset Address) (account : Address) : option (gset Address) :=
  b ← has role account; require! negb b; Some ({[account]} ∪ role).

Definition role_remove (role : gset Address) (account : Address) : option (gset Address) :=
  b ← has role account; require! b; Some (role ∖ {[account]}).

Definition changeOperator c (_operator : Address) s : option RootChain :=
  require! sender c =? operator s; Some (s <| operator := _operator |>).

Definition addSubmitter c (account : Address) s : option RootChain :=
  require! sender c =? operator s; r ← role_add (submitters s) account; Some (s <| submitters := r |>).

Definition addMapper c (account : Address) s : option RootChain :=
  require! sender c =? operator s; r ← role_add (mappers s) account; Some (s <| mappers := r |>).

Definition renounceSubmitter c s : option RootChain :=
  r ← role_remove (submitters s) (sender c); Some (s <| submitters := r |>).

Definition renounceMapper c s : option RootChain :=
  r ← role_remove (mappers s) (sender c); Some (s <| mappers := r |>).

Definition setSeigManager c (account : Address) s : option RootChain :=
  require! sender c =? operator s; Some (s <| seigManager := account |>).

Definition mapRequestableContractByOperator c (_rootchain _childchain : Address) s : option RootChain :=
  b ← has (mappers s) (sender c);
  require! b;
  require! isContract c _rootchain;
  require! at_ (requestableContracts s) _rootchain =? 0;
  Some (s <| requestableContracts := <[_rootchain := _childchain]> (requestableContracts s) |>).

(** ** Submissions *)

Definition submitNRE c (_pos1 _pos2 : Z) (_epochStateRoot _epochTransactionsRoot _epochReceiptsRoot : bytes) s : option RootChain :=
  b ← has (submitters s) (sender c);
  require! b;
  s ← finalizeBlocks c s;
  handleSubmitNRE c _pos1 _pos2 _epochStateRoot _epochTransactionsRoot _epochReceiptsRoot s.

Definition submitORB c (_pos : Z) (_statesRoot _transactionsRoot _receiptsRoot : bytes) s : option RootChain :=
  b ← has (submitters s) (sender c);
  require! b;
  s ← finalizeBlocks c s;
  handleSubmitORB c _pos _statesRoot _transactionsRoot _receiptsRoot s.

(** The functions that start a fork are disabled. *)
Definition prepareToSubmitURB c s : option RootChain := None.
Definition submitURB c (_pos : Z) (_statesRoot _transactionsRoot _receiptsRoot : bytes) s : option RootChain := None.

(** ** Requests *)

(** [applyRequestInRootChain] of Data.sol. *)
Definition applyRequestInRootChain c (r : Request) (requestId : Z) : option bool := apply c r requestId.

(** The request block that takes the request [requestId], and its position;
    [_rbs] is the list with that block in place. *)
Definition open_block (_rbs : list RequestBlock) (requestId : Z) : option (list RequestBlock * nat) :=
  let _rbs := if (length _rbs =? 0)%nat then [zeroRequestBlock] else _rbs in
  let requestBlockId := (length _rbs - 1)%nat in
  rb ← _rbs !! requestBlockId;
  if submitted rb || (u64 (requestEnd rb - requestStart rb + 1) =? MAX_REQUESTS) then
    Some (<[requestBlockId := rb <| submitted := true |>]> _rbs ++ [zeroRequestBlock <| requestStart := u64 requestId |>], length _rbs)
  else Some (_rbs, requestBlockId).

Definition _storeRequest c (_to : Address) (_weiAmount : Z) (_trieKey _trieValue : bytes) (_isExit : bool) s
    (_requests : list Request) (_rbs : list RequestBlock) : option (list Request * list RequestBlock) :=
  require! zlen _trieValue <=? 1024;
  let isTransfer := _to =? etherToken s in
  require! isTransfer && negb _isExit || negb (at_ (requestableContracts s) _to =? 0);
  let requestId := zlen _requests in
  let r := mkRequest (u64 (now c)) _isExit isTransfer false false (u128 _weiAmount) (sender c) _to _trieKey zero32 _trieValue in
  _ ← (if negb _isExit then ok ← applyRequestInRootChain c r requestId; require! ok; Some tt else Some tt);
  '(_rbs, i) ← open_block _rbs requestId;
  rb ← _rbs !! i;
  let rb := rb <| requestEnd := u64 requestId |> in
  let rb := if negb _isExit then rb <| numEnter := u64 (numEnter rb + 1) |> else rb in
  child ← toChildChainRequest r (if isTransfer && negb _isExit then sender c else at_ (requestableContracts s) _to) (past c);
  hash ← TX_hash keccak (toTX keccak child requestId false);
  Some (_requests ++ [r <| r_hash := hash |>], <[i := rb]> _rbs).

Definition startExit c (_to : Address) (_trieKey _trieValue : bytes) s : option RootChain :=
  '(requests, rbs) ← _storeRequest c _to 0 _trieKey _trieValue true s (EROs s) (ORBs s);
  Some (s <| EROs := requests |> <| ORBs := rbs |>).

(** [value] is [msg.value]. *)
Definition startEnter c (value : Z) (_to : Address) (_trieKey _trieValue : bytes) s : option RootChain :=
  '(requests, rbs) ← _storeRequest c _to value _trieKey _trieValue false s (EROs s) (ORBs s);
  Some (s <| EROs := requests |> <| ORBs := rbs |> <| numEnterForORB := u256 (numEnterForORB s + 1) |>).

Definition makeERU c (_to : Address) (_trieKey _trieValue : bytes) s : option RootChain :=
  '(requests, rbs) ← _storeRequest c _to 0 _trieKey _trieValue true s (ERUs s) (URBs s);
  Some (s <| ERUs := requests |> <| URBs := rbs |>).

Definition getEROBytes c (_requestId : Z) s : option bytes :=
  ERO ← EROs s !! Z.to_nat _requestId;
  child ← toChildChainRequest ERO (at_ (requestableContracts s) (r_to ERO)) (past c);
  TX_toBytes (toTX keccak child _requestId false).

(** The value of ERUs is read and dropped. *)
Definition getRequestFinalized (_requestId : Z) (_userActivated : bool) s : option bool :=
  _ ← (if _userActivated then _ ← ERUs s !! Z.to_nat _requestId; Some tt else Some tt);
  ERO ← EROs s !! Z.to_nat _requestId;
  Some (r_finalized ERO).

(** *** Challenges *)

Definition _doChallengeExit c (_pb : PlasmaBlock) (_rb : RequestBlock) (_rs : list Request) (_index : Z) (_receiptData _proof : bytes) s
    : option (list Request) :=
  let requestId := u256 (requestStart _rb + _index) in
  require! requestId <=? requestEnd _rb;
  r ← _rs !! Z.to_nat requestId;
  require! now c <? b_finalizedAt _pb + CP_EXIT;
  require! b_finalized _pb;
  require! negb (r_challenged r);
  require! negb (r_finalized r);
  let leaf := keccak _receiptData in
  status ← RLP.toReceiptStatus _receiptData (past c);
  require! status =? 0;
  _ ← (if development s then Some tt
       else ok ← BMT.checkMembership keccak leaf _index (receiptsRoot _pb) _proof; require! ok; Some tt);
  Some (<[Z.to_nat requestId := r <| r_challenged := true |>]> _rs).

Definition challengeExit c (_forkNumber _blockNumber _index : Z) (_receiptData _proof : bytes) s : option RootChain :=
  let pb := block (fork s _forkNumber) _blockNumber in
  require! b_isRequest pb;
  require! b_finalized pb;
  s ← (if b_userActivated pb then
         rb ← URBs s !! Z.to_nat (requestBlockId pb);
         rs ← _doChallengeExit c pb rb (ERUs s) _index _receiptData _proof s;
         Some (s <| ERUs := rs |>)
       else
         rb ← ORBs s !! Z.to_nat (requestBlockId pb);
         rs ← _doChallengeExit c pb rb (EROs s) _index _receiptData _proof s;
         Some (s <| EROs := rs |>));
  require! accepts c (sender c);
  Some s.

(** It checks the block and changes nothing. *)
Definition challengeNullAddress c (_blockNumber : Z) s : option RootChain :=
  let pb := block (fork s (currentFork s)) _blockNumber in
  require! negb (b_isRequest pb);
  require! now c <? b_timestamp pb + CP_COMPUTATION;
  Some s.

(** *** Finalising requests *)

(** An exit that was not challenged is applied and its requestor paid; the
    answer of the requestable contract is dropped, a revert is not.  The result
    tells whether the request was applied. *)
Definition apply_exit c (r : Request) (requestId : Z) : option bool :=
  if isExit r && negb (r_challenged r) then
    _ ← applyRequestInRootChain c r requestId;
    require! accepts c (requestor r);
    Some true
  else Some false.

(** The request block to look at: where the last one left off, or the first
    block of the next request epoch. *)
Definition next_request_block s : option (Z * Fork * Z * Z) :=
  let forkNumber := lastAppliedForkNumber s in
  let f := fork s forkNumber in
  require! lastAppliedBlockNumber s <=? lastBlock f;
  let '(forkNumber, f, epochNumber, blockNumber) :=
    if negb (forkedBlock f =? 0) && (forkedBlock f <=? lastAppliedBlockNumber s) then
      let forkNumber := u256 (forkNumber + 1) in
      let f := fork s forkNumber in
      (forkNumber, f, firstEpoch f, firstBlock f)
    else (forkNumber, f, lastAppliedEpochNumber s, lastAppliedBlockNumber s) in
  let pb := block f blockNumber in
  if negb (b_isRequest pb) then
    let epochNumber := if epochNumber =? 0 then at_ (firstNonEmptyRequestEpoch s) forkNumber else RE_nextEpoch (epoch f epochNumber) in
    require! negb (epochNumber =? 0);
    Some (forkNumber, f, epochNumber, startBlockNumber (epoch f epochNumber))
  else Some (forkNumber, f, b_epochNumber pb, blockNumber).

(** After the last request of a block: the fork and the block to go on with. *)
Definition advance (forkNumber : Z) (f : Fork) (blockNumber : Z) (last : bool) : Z * Z :=
  if last then
    (if (0 <? forkedBlock f) && (blockNumber =? forkedBlock f - 1) then u256 (forkNumber + 1) else forkNumber, u256 (blockNumber + 1))
  else (forkNumber, blockNumber).

Definition finalizeRequest c s : option (RootChain * finalization) :=
  '(forkNumber, f, epochNumber, blockNumber) ← next_request_block s;
  let e := epoch f epochNumber in
  let pb := block f blockNumber in
  require! negb (isEmpty e);
  require! e_isRequest e;
  require! b_isRequest pb;
  require! b_finalized pb;
  require! b_finalizedAt pb + CP_EXIT <=? now c;
  let s := s <| lastAppliedEpochNumber := epochNumber |> in
  if b_userActivated pb then
    let requestId := ERUIdToFinalize s in
    ERU ← ERUs s !! Z.to_nat requestId;
    URB ← URBs s !! Z.to_nat (requestBlockId pb);
    require! (requestStart URB <=? requestId) && (requestId <=? requestEnd URB);
    let '(forkNumber, blockNumber) := advance forkNumber f blockNumber (requestId =? requestEnd URB) in
    applied ← apply_exit c ERU requestId;
    Some (s <| lastAppliedForkNumber := forkNumber |> <| lastAppliedBlockNumber := blockNumber |> <| ERUIdToFinalize := u256 (requestId + 1) |>
            <| ERUs := <[Z.to_nat requestId := ERU <| r_finalized := true |>]> (ERUs s) |>, mkFinalization true requestId applied)
  else
    let requestId := EROIdToFinalize s in
    ERO ← EROs s !! Z.to_nat requestId;
    ORB ← ORBs s !! Z.to_nat (requestBlockId pb);
    require! (requestStart ORB <=? requestId) && (requestId <=? requestEnd ORB);
    let '(forkNumber, blockNumber) := advance forkNumber f blockNumber (requestId =? requestEnd ORB) in
    let ERO := ERO <| r_finalized := true |> in
    applied ← apply_exit c ERO requestId;
    Some (s <| lastAppliedForkNumber := forkNumber |> <| lastAppliedBlockNumber := blockNumber |> <| EROIdToFinalize := u256 (requestId + 1) |>
            <| EROs := <[Z.to_nat requestId := ERO]> (EROs s) |>, mkFinalization false requestId applied).

Fixpoint finalizeRequests c (n : nat) s : option (RootChain * list finalization) :=
  match n with
  | O => Some (s, [])
  | S n =>
      '(s, x) ← finalizeRequest c s;
      '(s, l) ← finalizeRequests c n s;
      Some (s, x :: l)
  end.

(** ** The constructor *)

Definition constructor c (_epochHandler _submitHandler _etherToken : Address) (_development : bool) (_NRELength : Z)
    (_statesRoot _transactionsRoot _receiptsRoot : bytes) : option RootChain :=
  mappers ← role_add ∅ (sender c);
  submitters ← role_add ∅ (sender c);
  require! isContract c _epochHandler;
  require! isContract c _submitHandler;
  require! isContract c _etherToken;
  let f := set_block 0 (fun b => b <| statesRoot := _statesRoot |> <| transactionsRoot := _transactionsRoot |> <| receiptsRoot := _receiptsRoot |>) zeroFork in
  let f := set_epoch 0 (fun e => e <| e_timestamp := u64 (now c) |> <| e_initialized := true |>) f in
  let f := set_epoch 2 (fun e => e <| isEmpty := true |> <| e_isRequest := true |>) f in
  let f := _doFinalizeBlock c 0 f in
  let f := _doFinalizeNRE c 0 f in
  prepareNRE c (mkRootChain _development (sender c) _etherToken 0 _NRELength 0 ∅ {[0 := f]} [] [] [] [] 0 ∅ ∅ 0 0 0 0 0 ∅ mappers submitters).

(** ** Calls *)

Inductive call :=
  | ChangeOperator (_operator : Address)
  | AddSubmitter (account : Address)
  | AddMapper (account : Address)
  | RenounceSubmitter
  | RenounceMapper
  | SetSeigManager (account : Address)
  | MapRequestableContract (_rootchain _childchain : Address)
  | PrepareToSubmitURB
  | SubmitNRE (_pos1 _pos2 : Z) (_epochStateRoot _epochTransactionsRoot _epochReceiptsRoot : bytes)
  | SubmitORB (_pos : Z) (_statesRoot _transactionsRoot _receiptsRoot : bytes)
  | SubmitURB (_pos : Z) (_statesRoot _transactionsRoot _receiptsRoot : bytes)
  | FinalizeBlock
  | ChallengeExit (_forkNumber _blockNumber _index : Z) (_receiptData _proof : bytes)
  | ChallengeNullAddress (_blockNumber : Z)
  | StartExit (_to : Address) (_trieKey _trieValue : bytes)
  | StartEnter (value : Z) (_to : Address) (_trieKey _trieValue : bytes)
  | MakeERU (_to : Address) (_trieKey _trieValue : bytes)
  | FinalizeRequest
  | FinalizeRequests (n : nat).

Definition quiet (o : option RootChain) : option (RootChain * list finalization) := s ← o; Some (s, []).

Definition exec c (x : call) s : option (RootChain * list finalization) :=
  match x with
  | ChangeOperator a => quiet (changeOperator c a s)
  | AddSubmitter a => quiet (addSubmitter c a s)
  | AddMapper a => quiet (addMapper c a s)
  | RenounceSubmitter => quiet (renounceSubmitter c s)
  | RenounceMapper => quiet (renounceMapper c s)
  | SetSeigManager a => quiet (setSeigManager c a s)
  | MapRequestableContract a b => quiet (mapRequestableContractByOperator c a b s)
  | PrepareToSubmitURB => quiet (prepareToSubmitURB c s)
  | SubmitNRE pos1 pos2 r1 r2 r3 => quiet (submitNRE c pos1 pos2 r1 r2 r3 s)
  | SubmitORB pos r1 r2 r3 => quiet (submitORB c pos r1 r2 r3 s)
  | SubmitURB pos r1 r2 r3 => quiet (submitURB c pos r1 r2 r3 s)
  | FinalizeBlock => quiet (finalizeBlock c s)
  | ChallengeExit f b i receipt proof => quiet (challengeExit c f b i receipt proof s)
  | ChallengeNullAddress b => quiet (challengeNullAddress c b s)
  | StartExit to key v => quiet (startExit c to key v s)
  | StartEnter value to key v => quiet (startEnter c value to key v s)
  | MakeERU to key v => quiet (makeERU c to key v s)
  | FinalizeRequest => '(s, x) ← finalizeRequest c s; Some (s, [x])
  | FinalizeRequests n => finalizeRequests c n s
  end.

(** What holds of the arguments by their types. *)
Definition ctx_ok c : Prop := is_addr (sender c) /\ 0 <= now c < two63.
Definition call_ok (x : call) : Prop :=
  match x with
  | StartExit to key v | MakeERU to key v => is_addr to /\ length key = 32%nat
  | StartEnter value to key v => is_addr to /\ length key = 32%nat /\ 0 <= value < two256
  | ChallengeExit f b i receipt proof => 0 <= i < two256
  | MapRequestableContract a b => is_addr a /\ is_addr b
  | _ => True
  end.

(** The states after a number of calls, with what they finalised.  A call that
    reverts changes nothing. *)
Inductive reachable : nat -> RootChain -> list finalization -> Prop :=
  | reach_init c a1 a2 a3 dev len r1 r2 r3 s :
      ctx_ok c -> 1 <= len < 2 ^ 32 -> constructor c a1 a2 a3 dev len r1 r2 r3 = Some s -> reachable 0 s []
  | reach_call n s tr c x s' tr' :
      reachable n s tr -> ctx_ok c -> call_ok x -> exec c x s = Some (s', tr') -> reachable (S n) s' (tr ++ tr').
End RootChain.
