(* ===== verification/RootChainLayout.v ===== *)
(** * The root chain contract: where epochs, blocks and requests are
    The request epochs of the chain are the even ones; the number of requests
    in each, a list, determines the numbers of all epochs, blocks and request
    blocks.  [Layout] says that the storage agrees with such a list, and every
    call keeps it. *)

From S2P Require Import Prelude MathUtil Solidity RecordUpdate BinaryMerkle PlasmaTx RootChainData RootChain.

(** ** Numbers *)

Definition zsum (l : list Z) : Z := foldr Z.add 0 l.

(** The blocks for [x] requests. *)
Definition nb (x : Z) : Z := divCeil x MAX_REQUESTS.

(** [z] has the numbers of requests of the request epochs 2, 4, ...; [C z k]
    requests and [B z k] request blocks are in the first [k] of them, and [EB]
    is the last block number of the epoch 2k. *)
Definition C (z : list Z) (k : nat) : Z := zsum (take k z).
Definition B (z : list Z) (k : nat) : Z := zsum (map nb (take k z)).
Definition EB (L : Z) (z : list Z) (k : nat) : Z := Z.of_nat k * L + B z k.

Lemma zsum_app l1 l2 : zsum (l1 ++ l2) = zsum l1 + zsum l2.
Proof. induction l1 as [|x l1 IH]; simpl; lia. Qed.

Lemma nb_spec x : 0 <= x -> x <= 20 * nb x < x + 20.
Proof. intros Hx. apply (divCeil_spec x 20); lia. Qed.

Lemma nb_0 : nb 0 = 0.
Proof. done. Qed.

Lemma nb_bounds x : 0 <= x -> 0 <= nb x <= x.
Proof. intros Hx. pose proof (nb_spec x Hx). lia. Qed.

Lemma C_S z k x : z !! k = Some x -> C z (S k) = C z k + x.
Proof. intros Hk. unfold C. rewrite (take_S_r z k x Hk), zsum_app. simpl. lia. Qed.

Lemma B_S z k x : z !! k = Some x -> B z (S k) = B z k + nb x.
Proof. intros Hk. unfold B. rewrite (take_S_r z k x Hk), map_app, zsum_app. simpl. lia. Qed.

Lemma EB_S L z k x : z !! k = Some x -> EB L z (S k) = EB L z k + L + nb x.
Proof. intros Hk. unfold EB. rewrite (B_S z k x Hk). lia. Qed.

Lemma C_app z y k : (k <= length z)%nat -> C (z ++ y) k = C z k.
Proof. intros Hk. unfold C. by rewrite take_app_le. Qed.

Lemma B_app z y k : (k <= length z)%nat -> B (z ++ y) k = B z k.
Proof. intros Hk. unfold B. by rewrite take_app_le. Qed.

Lemma EB_app L z y k : (k <= length z)%nat -> EB L (z ++ y) k = EB L z k.
Proof. intros Hk. unfold EB. by rewrite B_app. Qed.

Lemma C_0 z : C z 0 = 0.
Proof. done. Qed.
Lemma B_0 z : B z 0 = 0.
Proof. done. Qed.
Lemma EB_0 L z : EB L z 0 = 0.
Proof. unfold EB. by rewrite B_0. Qed.

Definition nonneg (z : list Z) : Prop := Forall (fun x => 0 <= x) z.

Lemma nonneg_lookup z k x : nonneg z -> z !! k = Some x -> 0 <= x.
Proof. intros Hz Hk. unfold nonneg in Hz. rewrite Forall_lookup in Hz. by eapply Hz. Qed.

Lemma lookup_lt z k : (k < length z)%nat -> exists x : Z, z !! k = Some x.
Proof. apply lookup_lt_is_Some_2. Qed.

(** Prefixes grow. *)
Lemma prefix_mono (F : list Z -> nat -> Z) (g : Z -> Z) z :
  (forall k x, z !! k = Some x -> F z (S k) = F z k + g x) -> (forall x, 0 <= x -> 0 <= g x) -> nonneg z ->
  forall k k', (k <= k' <= length z)%nat -> F z k <= F z k'.
Proof.
  intros HF Hg Hz k k'. induction k' as [|k' IH]; intros Hk; [replace k with O by lia; lia|].
  destruct (decide (k = S k')) as [->|]; [lia|]. destruct (lookup_lt z k') as [x Hx]; [lia|]. rewrite (HF _ _ Hx).
  specialize (Hg x (nonneg_lookup _ _ _ Hz Hx)). specialize (IH ltac:(lia)). lia.
Qed.

Lemma C_mono z k k' : nonneg z -> (k <= k' <= length z)%nat -> C z k <= C z k'.
Proof. intros Hz. apply (prefix_mono C (fun x => x) z); auto using C_S. Qed.

Lemma B_mono z k k' : nonneg z -> (k <= k' <= length z)%nat -> B z k <= B z k'.
Proof. intros Hz. apply (prefix_mono B nb z); auto using B_S. intros x Hx. by apply nb_bounds. Qed.

Lemma EB_mono L z k k' : 0 <= L -> nonneg z -> (k <= k' <= length z)%nat -> EB L z k <= EB L z k'.
Proof. intros HL Hz Hk. unfold EB. pose proof (B_mono z k k' Hz Hk). nia. Qed.

Lemma EB_lt L z k k' : 0 <= L -> nonneg z -> (k < k' <= length z)%nat -> EB L z k + L <= EB L z k'.
Proof. intros HL Hz Hk. unfold EB. pose proof (B_mono z k k' Hz ltac:(lia)). nia. Qed.

Lemma B_le_C z k : nonneg z -> (k <= length z)%nat -> 0 <= B z k <= C z k.
Proof.
  intros Hz. induction k as [|k IH]; intros Hk; [by rewrite B_0, C_0|]. destruct (lookup_lt z k) as [x Hx]; [lia|].
  rewrite (B_S _ _ _ Hx), (C_S _ _ _ Hx). pose proof (nb_bounds x (nonneg_lookup _ _ _ Hz Hx)). specialize (IH ltac:(lia)). lia.
Qed.

(** The position of a block number, and of a request, is unique. *)
Lemma prefix_unique (F : list Z -> nat -> Z) z k k' a b :
  (forall k k', (k <= k' <= length z)%nat -> F z k <= F z k') -> (S k <= length z)%nat -> (S k' <= length z)%nat ->
  F z k <= a < F z (S k) -> F z k' <= b < F z (S k') -> a = b -> k = k'.
Proof.
  intros Hm Hk Hk' Ha Hb ->. destruct (Nat.lt_trichotomy k k') as [Hlt|[|Hlt]]; [|done|].
  - pose proof (Hm (S k) k' ltac:(lia)). lia.
  - pose proof (Hm (S k') k ltac:(lia)). lia.
Qed.

(** ** The layout *)

(** A non-request epoch is to be submitted next, or [t] blocks of the current
    request epoch have been submitted. *)
Inductive phase := Rest | Submitting (t : Z).

(** An epoch without what the layout does not say. *)
Definition core (e : Epoch) : Epoch :=
  e <| e_timestamp := 0 |> <| RE_numEnter := 0 |> <| RE_nextEnterEpoch := 0 |> <| RE_nextEpoch := 0 |> <| NRE_epochStateRoot := zero32 |>
    <| NRE_epochTransactionsRoot := zero32 |> <| NRE_epochReceiptsRoot := zero32 |> <| NRE_submittedAt := 0 |> <| NRE_finalizedAt := 0 |>
    <| NRE_finalized := false |>.

Definition mkCore (start end_ : Z) (empty init isReq : bool) (rs re fb : Z) : Epoch :=
  mkEpoch start end_ 0 empty init isReq false false rs re fb 0 0 0 zero32 zero32 zero32 0 0 false false false.

(** The last epoch that has block numbers. *)
Definition prepared (z : list Z) (ph : phase) : Z :=
  match ph with Rest => 2 * zlen z - 1 | Submitting _ => 2 * zlen z - 2 end.

(** The epoch 2k+1. *)
Definition nre_at (L : Z) (z : list Z) (p : Z) (k : nat) : Epoch :=
  if 2 * Z.of_nat k + 1 <=? p then mkCore (EB L z k + 1) (EB L z k + L) false true false 0 0 0 else zeroEpoch.

(** The epoch 2(k+1). *)
Definition ore_at (L : Z) (z : list Z) (p : Z) (k : nat) : Epoch :=
  match z !! k with
  | Some x =>
      let pr := 2 * Z.of_nat (S k) <=? p in
      mkCore (if pr then EB L z k + L + (if x =? 0 then 0 else 1) else 0) (if pr then EB L z (S k) else 0) (x =? 0) pr true
        (if x =? 0 then Z.max 0 (C z (S k) - 1) else C z k) (Z.max 0 (C z (S k) - 1)) (if x =? 0 then Z.max 0 (B z k - 1) else B z k)
  | None => zeroEpoch
  end.

(** The requests, of [N], that no epoch has yet. *)
Definition rest (z : list Z) (N : Z) : Z := N - C z (length z).

Definition block_at (k : nat) (j : Z) (z : list Z) (b : PlasmaBlock) : Prop :=
  b_isRequest b = true /\ b_userActivated b = false /\ b_epochNumber b = 2 * Z.of_nat (S k) /\ requestBlockId b = B z k + j.

Definition orb_at (k : nat) (j : Z) (z : list Z) (rb : RequestBlock) : Prop :=
  requestStart rb = C z k + 20 * j /\ requestEnd rb = Z.min (C z k + 20 * j + 19) (C z (S k) - 1).

Record epochs_ok (L : Z) (z : list Z) (ph : phase) (f : Fork) : Prop := {
  lay_genesis : core (epoch f 0) = mkCore 0 0 false true false 0 0 0;
  lay_nre : forall k, core (epoch f (2 * Z.of_nat k + 1)) = nre_at L z (prepared z ph) k;
  lay_ore : forall k, core (epoch f (2 * Z.of_nat (S k))) = ore_at L z (prepared z ph) k }.

(** The last epoch and block submitted. *)
Definition last_ok (L : Z) (z : list Z) (ph : phase) (f : Fork) : Prop :=
  let q := (length z - 1)%nat in
  match ph with
  | Rest => lastEpoch f = 2 * Z.of_nat q /\ lastBlock f = EB L z q
  | Submitting t =>
      exists x, (0 < q)%nat /\ z !! (q - 1)%nat = Some x /\ 0 <= t < nb x /\ lastBlock f = EB L z (q - 1) + L + t /\
        lastEpoch f = (if t =? 0 then 2 * Z.of_nat q - 1 else 2 * Z.of_nat q)
  end.

Record blocks_ok (L : Z) (z : list Z) (f : Fork) : Prop := {
  lay_block : forall k x j, z !! k = Some x -> 0 <= j < nb x -> EB L z k + L + 1 + j <= lastBlock f ->
    block_at k j z (block f (EB L z k + L + 1 + j));
  lay_only : forall b, b_isRequest (block f b) = true ->
    exists k x j, z !! k = Some x /\ 0 <= j < nb x /\ b = EB L z k + L + 1 + j /\ b <= lastBlock f;
  lay_unchallenged : forall b, b_challenging (block f b) = false }.

(** The request blocks, those of the requests without an epoch included. *)
Record orbs_ok (z : list Z) (N : Z) (rbs : list RequestBlock) : Prop := {
  lay_rest : 0 <= rest z N;
  lay_orbs : forall k x j, (z ++ [rest z N]) !! k = Some x -> 0 <= j < nb x ->
    exists rb, rbs !! Z.to_nat (B (z ++ [rest z N]) k + j) = Some rb /\ orb_at k j (z ++ [rest z N]) rb;
  lay_count : zlen rbs = B (z ++ [rest z N]) (S (length z));
  lay_sealed : forall rb, last rbs = Some rb -> submitted rb = (rest z N =? 0) }.

(** The chain of request epochs that are not empty: [ff], [fn] and [ln] are the
    first filled, the first and the last of them. *)
Record links_ok (z : list Z) (ff fn ln : Z) (f : Fork) : Prop := {
  lay_filled : ff = 0 <-> C z (length z - 1) = 0;
  lay_first : (fn = 0 /\ C z (length z - 1) = 0) \/
    exists k x, fn = 2 * Z.of_nat (S k) /\ (S k < length z)%nat /\ z !! k = Some x /\ 0 < x /\ C z k = 0;
  lay_lastne : (ln = 0 /\ C z (length z - 1) = 0) \/
    exists k x, ln = 2 * Z.of_nat (S k) /\ (S k < length z)%nat /\ z !! k = Some x /\ 0 < x /\ C z (S k) = C z (length z - 1);
  lay_next : forall k x, z !! k = Some x -> 0 < x -> (S k < length z)%nat ->
    (RE_nextEpoch (epoch f (2 * Z.of_nat (S k))) = 0 /\ C z (S k) = C z (length z - 1)) \/
    exists k' x', RE_nextEpoch (epoch f (2 * Z.of_nat (S k))) = 2 * Z.of_nat (S k') /\ (k < k')%nat /\ (S k' < length z)%nat /\ z !! k' = Some x' /\ 0 < x' /\
      C z k' = C z (S k);
  lay_next0 : forall i, 2 * zlen z - 2 < i -> RE_nextEpoch (epoch f i) = 0 }.

Record Layout (s : RootChain) (z : list Z) (ph : phase) : Prop := {
  lay_fork : currentFork s = 0 /\ forkedBlock (fork s 0) = 0 /\ firstBlock (fork s 0) = 0;
  lay_z : (0 < length z)%nat /\ nonneg z;
  lay_epochs : epochs_ok (NRELength s) z ph (fork s 0);
  lay_last : last_ok (NRELength s) z ph (fork s 0);
  lay_blocks : blocks_ok (NRELength s) z (fork s 0);
  lay_requests : orbs_ok z (zlen (EROs s)) (ORBs s);
  lay_links : links_ok z (at_ (firstFilledORENumber s) 0) (at_ (firstNonEmptyRequestEpoch s) 0) (at_ (lastNonEmptyRequestEpoch s) 0) (fork s 0) }.

(** Nothing comes near the width of the integers. *)
Definition small (s : RootChain) (z : list Z) : Prop :=
  1 <= NRELength s < 2 ^ 32 /\ zlen z <= 2 ^ 28 /\ zlen (EROs s) <= 2 ^ 28.

(** ** Reading the layout *)

Lemma core_fields e : startBlockNumber e = startBlockNumber (core e) /\ endBlockNumber e = endBlockNumber (core e) /\ isEmpty e = isEmpty (core e) /\
  e_initialized e = e_initialized (core e) /\ e_isRequest e = e_isRequest (core e) /\ e_userActivated e = e_userActivated (core e) /\
  rebase e = rebase (core e) /\ RE_requestStart e = RE_requestStart (core e) /\ RE_requestEnd e = RE_requestEnd (core e) /\
  RE_firstRequestBlockId e = RE_firstRequestBlockId (core e) /\ NRE_challenging e = NRE_challenging (core e) /\ NRE_challenged e = NRE_challenged (core e).
Proof. done. Qed.

(** Rewrite the fields of an epoch whose core is known. *)
Ltac use_core H :=
  let e := match type of H with core ?e = _ => e end in
  let F := fresh "F" in
  pose proof (core_fields e) as F; rewrite !H in F; cbn in F;
  destruct F as (?Fstart & ?Fend & ?Fempty & ?Finit & ?Freq & ?Fuser & ?Frebase & ?Frs & ?Fre & ?Ffb & ?Fchg & ?Fchd).

Lemma epoch_set n g f i : epoch (set_epoch n g f) i = if decide (i = n) then g (epoch f n) else epoch f i.
Proof. unfold epoch at 1, set_epoch. simpl. case_decide; subst; [by rewrite lookup_insert_eq|by rewrite lookup_insert_ne]. Qed.

Lemma block_set n g f i : block (set_block n g f) i = if decide (i = n) then g (block f n) else block f i.
Proof. unfold block at 1, set_block. simpl. case_decide; subst; [by rewrite lookup_insert_eq|by rewrite lookup_insert_ne]. Qed.

Lemma fork_set n f s i : fork (set_fork n f s) i = if decide (i = n) then f else fork s i.
Proof. unfold fork, set_fork. simpl. case_decide; subst; [by rewrite lookup_insert_eq|by rewrite lookup_insert_ne]. Qed.

Section Bounds.
Context (s : RootChain) (z : list Z) (ph : phase) (Hl : Layout s z ph) (Hs : small s z).

Lemma C_bound k : (k <= length z)%nat -> 0 <= C z k <= 2 ^ 28.
Proof.
  intros Hk. destruct (lay_z _ _ _ Hl) as [_ Hz]. pose proof (C_mono z 0 k Hz ltac:(lia)). pose proof (C_mono z k (length z) Hz ltac:(lia)).
  pose proof (lay_rest _ _ _ (lay_requests _ _ _ Hl)). unfold rest in *. destruct Hs as (_ & _ & ?). rewrite C_0 in *. lia.
Qed.

Lemma B_bound k : (k <= length z)%nat -> 0 <= B z k <= 2 ^ 28.
Proof. intros Hk. destruct (lay_z _ _ _ Hl) as [_ Hz]. pose proof (B_le_C z k Hz Hk). pose proof (C_bound k Hk). lia. Qed.

Lemma EB_bound k : (k <= length z)%nat -> 0 <= EB (NRELength s) z k < 2 ^ 61.
Proof. intros Hk. pose proof (B_bound k Hk). unfold EB. destruct Hs as (? & ? & _). nia. Qed.

Lemma size_bound k x : z !! k = Some x -> 0 <= x <= 2 ^ 28.
Proof.
  intros Hk. apply lookup_lt_Some in Hk as Hlt. pose proof (C_bound k ltac:(lia)). pose proof (C_bound (S k) ltac:(lia)).
  rewrite (C_S _ _ _ Hk) in *. destruct (lay_z _ _ _ Hl) as [_ Hz]. pose proof (nonneg_lookup _ _ _ Hz Hk). lia.
Qed.
End Bounds.

(** ** Storing a request *)

Lemma nb_succ x : 0 <= x -> nb (x + 1) = if x mod 20 =? 0 then nb x + 1 else nb x.
Proof.
  intros Hx. pose proof (nb_spec x Hx). pose proof (nb_spec (x + 1) ltac:(lia)). pose proof (Z.div_mod x 20 ltac:(lia)).
  pose proof (Z.mod_pos_bound x 20 ltac:(lia)). destruct (Z.eqb_spec (x mod 20) 0); lia.
Qed.

Lemma B_zero z k : nonneg z -> (k <= length z)%nat -> B z k = 0 -> C z k = 0.
Proof.
  intros Hz. induction k as [|k IH]; intros Hk HB; [done|]. destruct (lookup_lt z k) as [x Hx]; [lia|].
  rewrite (B_S _ _ _ Hx) in HB. rewrite (C_S _ _ _ Hx). pose proof (nonneg_lookup _ _ _ Hz Hx). pose proof (nb_spec x ltac:(lia)).
  pose proof (B_le_C z k Hz ltac:(lia)). rewrite IH by lia. lia.
Qed.

Section Store.
Context (z : list Z) (N : Z) (rbs : list RequestBlock) (Hz : nonneg z) (Ho : orbs_ok z N rbs).
Abbreviation n := (length z).
Abbreviation R := (rest z N).

Lemma rest_succ : rest z (N + 1) = R + 1.
Proof. unfold rest. lia. Qed.

Lemma tail_lookup y : (z ++ [y]) !! n = Some y.
Proof. by rewrite list_lookup_middle. Qed.

Lemma tail_C y : C (z ++ [y]) (S n) = C z n + y.
Proof. rewrite (C_S _ _ _ (tail_lookup y)), C_app by done. done. Qed.

Lemma tail_B y : B (z ++ [y]) (S n) = B z n + nb y.
Proof. rewrite (B_S _ _ _ (tail_lookup y)), B_app by done. done. Qed.

(** The request blocks of the epochs do not change. *)
Lemma orb_at_tail k j y y' rb : (k < n)%nat -> orb_at k j (z ++ [y]) rb -> orb_at k j (z ++ [y']) rb.
Proof. intros Hk. unfold orb_at. by rewrite !C_app by lia. Qed.

(** Where the last request block is. *)
Lemma last_orb : 0 < R -> exists rb, last rbs = Some rb /\ rbs !! (length rbs - 1)%nat = Some rb /\
  requestStart rb = C z n + 20 * (nb R - 1) /\ requestEnd rb = N - 1 /\ submitted rb = false.
Proof.
  intros HR. pose proof (nb_spec R ltac:(lia)). destruct (lay_orbs _ _ _ Ho n R (nb R - 1)) as (rb & Hrb & Hs & He); [apply tail_lookup|lia|].
  pose proof (lay_count _ _ _ Ho) as Hc. rewrite tail_B in Hc. rewrite B_app in Hrb by done. rewrite C_app in Hs, He by done. rewrite tail_C in He.
  assert (Z.to_nat (B z n + (nb R - 1)) = (length rbs - 1)%nat) as Hi by lia. rewrite Hi in Hrb.
  assert (last rbs = Some rb) as Hlast by (rewrite last_lookup; replace (pred (length rbs)) with (length rbs - 1)%nat by lia; done).
  exists rb. split_and!; try done.
  - unfold rest in *. lia.
  - rewrite (lay_sealed _ _ _ Ho rb Hlast). lia.
Qed.

(** A new request block at the end, for the request [N]. *)
Lemma orbs_push rbs1 rb : R mod 20 = 0 -> length rbs1 = length rbs ->
  (forall i r, rbs !! i = Some r -> exists r1, rbs1 !! i = Some r1 /\ requestStart r1 = requestStart r /\ requestEnd r1 = requestEnd r) ->
  requestStart rb = N -> requestEnd rb = N -> submitted rb = false -> orbs_ok z (N + 1) (rbs1 ++ [rb]).
Proof.
  intros Hmod Hlen Hsame Hs He Hsub. pose proof (lay_rest _ _ _ Ho) as HR. pose proof (lay_count _ _ _ Ho) as Hc. rewrite tail_B in Hc.
  pose proof (nb_succ R HR) as Hnb. rewrite Hmod in Hnb. cbn [Z.eqb] in Hnb. pose proof (nb_spec R HR). pose proof (Z.div_mod R 20 ltac:(lia)).
  pose proof (B_le_C z n Hz ltac:(done)).
  split; rewrite ?rest_succ.
  - lia.
  - intros k x j Hk Hj. destruct (decide (k < n)%nat) as [Hlt|Hge].
    + rewrite lookup_app_l in Hk by done. destruct (lay_orbs _ _ _ Ho k x j) as (r & Hr & Hat); [by rewrite lookup_app_l|done|].
      rewrite !B_app in * by lia. destruct (Hsame _ _ Hr) as (r1 & Hr1 & Hs1 & He1). exists r1.
      rewrite lookup_app_l by (apply lookup_lt_Some in Hr1; done). split; [done|]. apply (orb_at_tail k j R); [done|].
      unfold orb_at in *. by rewrite Hs1, He1.
    + assert (k = n) as -> by (apply lookup_lt_Some in Hk; rewrite length_app in Hk; simpl in Hk; lia). rewrite tail_lookup in Hk. injection Hk as <-.
      rewrite B_app by done. destruct (decide (j < nb R)) as [Hlt|Hge'].
      * destruct (lay_orbs _ _ _ Ho n R j) as (r & Hr & Hat); [apply tail_lookup|lia|]. rewrite B_app in Hr by done.
        destruct (Hsame _ _ Hr) as (r1 & Hr1 & Hs1 & He1). exists r1. rewrite lookup_app_l by (apply lookup_lt_Some in Hr1; done). split; [done|].
        unfold orb_at in *. rewrite Hs1, He1, tail_C, C_app in * by done. lia.
      * exists rb. rewrite lookup_app_r by lia. replace (Z.to_nat (B z n + j) - length rbs1)%nat with 0%nat by lia. split; [done|].
        unfold orb_at. rewrite Hs, He, tail_C, C_app by done. unfold rest in *. lia.
  - rewrite length_app, tail_B. simpl. lia.
  - intros r. rewrite last_snoc. intros [= <-]. rewrite Hsub. lia.
Qed.

(** One more request in the last request block. *)
Lemma orbs_extend rb : R mod 20 <> 0 -> requestStart rb = C z n + 20 * (nb R - 1) -> requestEnd rb = N -> submitted rb = false ->
  orbs_ok z (N + 1) (<[(length rbs - 1)%nat := rb]> rbs).
Proof.
  intros Hmod Hs He Hsub. pose proof (lay_rest _ _ _ Ho) as HR. pose proof (lay_count _ _ _ Ho) as Hc. rewrite tail_B in Hc.
  pose proof (nb_succ R HR) as Hnb. destruct (Z.eqb_spec (R mod 20) 0) as [?|_]; [done|]. pose proof (nb_spec R HR). pose proof (nb_spec (R + 1) ltac:(lia)).
  assert (0 < R) by (destruct (decide (R = 0)) as [E|]; [by rewrite E in Hmod|lia]). pose proof (B_le_C z n Hz ltac:(done)).
  split; rewrite ?rest_succ.
  - lia.
  - intros k x j Hk Hj. destruct (decide (k < n)%nat) as [Hlt|Hge].
    + rewrite lookup_app_l in Hk by done. destruct (lay_orbs _ _ _ Ho k x j) as (r & Hr & Hat); [by rewrite lookup_app_l|done|].
      rewrite !B_app in * by lia. exists r. pose proof (B_mono z (S k) n Hz ltac:(lia)). rewrite (B_S _ _ _ Hk) in *.
      pose proof (B_le_C z k Hz ltac:(lia)). rewrite list_lookup_insert_ne by lia. split; [done|]. by apply (orb_at_tail k j R).
    + assert (k = n) as -> by (apply lookup_lt_Some in Hk; rewrite length_app in Hk; simpl in Hk; lia). rewrite tail_lookup in Hk. injection Hk as <-.
      rewrite B_app by done. destruct (decide (j = nb R - 1)) as [->|Hne].
      * exists rb. replace (Z.to_nat (B z n + (nb R - 1))) with (length rbs - 1)%nat by lia. rewrite list_lookup_insert_eq by lia. split; [done|].
        unfold orb_at. rewrite Hs, He, tail_C, C_app by done. unfold rest in *. lia.
      * destruct (lay_orbs _ _ _ Ho n R j) as (r & Hr & Hat); [apply tail_lookup|lia|]. rewrite B_app in Hr by done. exists r.
        rewrite list_lookup_insert_ne by lia. split; [done|]. unfold orb_at in *. rewrite tail_C, C_app in * by done. lia.
  - rewrite length_insert, tail_B. lia.
  - intros r Hr. rewrite last_lookup, length_insert in Hr. replace (pred (length rbs)) with (length rbs - 1)%nat in Hr by lia.
    rewrite list_lookup_insert_eq in Hr by lia. injection Hr as <-. rewrite Hsub. lia.
Qed.
End Store.

Lemma orbs_push_sealed z N rbs last x rb :
  nonneg z -> orbs_ok z N rbs -> rest z N mod 20 = 0 -> rbs !! (length rbs - 1)%nat = Some last ->
  requestStart rb = N -> requestEnd rb = N -> submitted rb = false ->
  orbs_ok z (N + 1) (<[length rbs := rb]> (<[(length rbs - 1)%nat := last <| submitted := true |>]> rbs ++ [x])).
Proof.
  intros Hz Ho HR Hlast Hs He Hsub. rewrite insert_app_r_alt by (rewrite length_insert; lia). rewrite length_insert, Nat.sub_diag. cbn [insert list_insert].
  apply (orbs_push z N rbs Hz Ho); try done; [by rewrite length_insert|].
  intros k r Hr. destruct (decide (k = length rbs - 1)%nat) as [->|Hne].
  - apply lookup_lt_Some in Hlast as Hlt. rewrite list_lookup_insert_eq by lia. eexists. split; [done|]. rewrite Hlast in Hr. by injection Hr as ->.
  - rewrite list_lookup_insert_ne by done. by exists r.
Qed.

(** The request block that takes the next request, with it. *)
Lemma open_block_ok z (reqs : list Request) rbs rbs1 i rb rb' :
  nonneg z -> orbs_ok z (zlen reqs) rbs -> zlen reqs < two64 -> open_block rbs (zlen reqs) = Some (rbs1, i) -> rbs1 !! i = Some rb ->
  requestStart rb' = requestStart rb -> requestEnd rb' = zlen reqs -> submitted rb' = submitted rb -> orbs_ok z (zlen reqs + 1) (<[i := rb']> rbs1).
Proof.
  intros Hz Ho HN Hop Hi Hs He Hsub. pose proof (lay_rest _ _ _ Ho) as HR. pose proof (lay_count _ _ _ Ho) as Hc. rewrite tail_B in Hc.
  pose proof (nb_spec _ HR). pose proof (B_le_C z (length z) Hz ltac:(done)) as HBC. set (R := rest z (zlen reqs)) in *. unfold open_block in Hop.
  destruct (Nat.eqb_spec (length rbs) 0) as [H0|H0].
  - assert (rbs = []) as -> by (by destruct rbs). simpl in Hop. injection Hop as <- <-. simpl in Hi. injection Hi as <-. simpl in Hs, Hsub, Hc.
    assert (C z (length z) = 0) by (apply (B_zero z _ Hz); [done|lia]). assert (R = 0) by lia. unfold R, rest in *.
    apply (orbs_push z (zlen reqs) [] Hz Ho []); try done. { unfold rest. by replace (zlen reqs - C z (length z)) with 0 by lia. } lia.
  - destruct (decide (R = 0)) as [HR0|HR0].
    + destruct (lookup_lt_is_Some_2 rbs (length rbs - 1)) as [last Hlast]; [lia|]. rewrite Hlast in Hop. cbn [mbind option_bind] in Hop.
      assert (submitted last = true) as Hsl.
      { rewrite (lay_sealed _ _ _ Ho last) by (rewrite last_lookup; by replace (pred (length rbs)) with (length rbs - 1)%nat by lia). fold R. lia. }
      rewrite Hsl in Hop. cbn [orb] in Hop. injection Hop as <- <-. rewrite list_lookup_middle in Hi by (by rewrite length_insert). injection Hi as <-.
      simpl in Hs, Hsub. rewrite u64_small in Hs by (unfold is_u64; lia).
      eapply orbs_push_sealed; try done. by fold R; rewrite HR0.
    + destruct (last_orb z (zlen reqs) rbs Ho) as (last & _ & Hlast & Hls & Hle & Hlsub); [fold R; lia|]. fold R in Hls.
      rewrite Hlast in Hop. cbn [mbind option_bind] in Hop. rewrite Hlsub, Hle, Hls in Hop. cbn [orb] in Hop.
      rewrite u64_small in Hop by (unfold is_u64; unfold R, rest in *; lia). unfold MAX_REQUESTS in Hop. pose proof (nb_succ R HR) as Hnb.
      destruct (Z.eqb_spec (zlen reqs - 1 - (C z (length z) + 20 * (nb R - 1)) + 1) 20) as [Hfull|Hfull].
      * injection Hop as <- <-. rewrite list_lookup_middle in Hi by (by rewrite length_insert). injection Hi as <-.
        simpl in Hs, Hsub. rewrite u64_small in Hs by (unfold is_u64; lia).
        eapply orbs_push_sealed; try done. fold R. replace R with (nb R * 20) by (unfold R, rest in *; lia). apply Z.mod_mul. lia.
      * injection Hop as <- <-. rewrite Hlast in Hi. injection Hi as <-. apply (orbs_extend z (zlen reqs) rbs Hz Ho); [|by rewrite Hs|done|by rewrite Hsub].
        fold R. intros Hm. pose proof (Z.div_mod R 20 ltac:(lia)). unfold R, rest in *. lia.
Qed.

(** ** Epochs *)

Lemma core_set n g f i : core (epoch (set_epoch n g f) i) = if decide (i = n) then core (g (epoch f n)) else core (epoch f i).
Proof. rewrite epoch_set. by case_decide. Qed.

(** Updates that the layout does not see. *)
Lemma core_set_frame n g f i : (forall e, core (g e) = core e) -> core (epoch (set_epoch n g f) i) = core (epoch f i).
Proof. intros Hg. rewrite core_set. case_decide; subst; auto. Qed.

Lemma next_set_frame n g f i : (forall e, RE_nextEpoch (g e) = RE_nextEpoch e) -> RE_nextEpoch (epoch (set_epoch n g f) i) = RE_nextEpoch (epoch f i).
Proof. intros Hg. rewrite epoch_set. case_decide; subst; auto. Qed.

Lemma epochs_ok_frame L z ph f f' : (forall i, core (epoch f' i) = core (epoch f i)) -> epochs_ok L z ph f -> epochs_ok L z ph f'.
Proof. intros Hc [H0 H1 H2]. split; intros; rewrite Hc; auto. Qed.

Lemma link_enter_core n f i : core (epoch (link_enter n f) i) = core (epoch f i).
Proof.
  unfold link_enter. destruct (0 <? _); [|done]. destruct (_ =? 0); [done|].
  by apply (core_set_frame (lastEnterEpoch f) (fun e => e <| RE_nextEnterEpoch := n |>) f i).
Qed.

Lemma link_enter_next n f i : RE_nextEpoch (epoch (link_enter n f) i) = RE_nextEpoch (epoch f i).
Proof.
  unfold link_enter. destruct (0 <? _); [|done]. destruct (_ =? 0); [done|].
  transitivity (RE_nextEpoch (epoch (set_epoch (lastEnterEpoch f) (fun e => e <| RE_nextEnterEpoch := n |>) f) i)); [done|].
  rewrite epoch_set. by case_decide; subst.
Qed.

(** The fields of a fork that preparing an epoch leaves. *)
Definition fork_frame (f : Fork) : Z * Z * Z * Z * Z * gmap Z PlasmaBlock :=
  (forkedBlock f, firstBlock f, lastBlock f, lastFinalizedEpoch f, lastFinalizedBlock f, blocks f).

Lemma link_enter_frame n f : fork_frame (link_enter n f) = fork_frame f /\ lastEpoch (link_enter n f) = lastEpoch f.
Proof. unfold link_enter. destruct (0 <? _); [|done]. by destruct (_ =? 0). Qed.

(** The non-request epoch after the last request epoch. *)
Lemma nre_step L z t c f : (0 < length z)%nat -> epochs_ok L z (Submitting t) f ->
  epochs_ok L z Rest (set_epoch (2 * zlen z - 1) (fun e => e <| e_initialized := true |> <| e_timestamp := u64 (now c) |>
    <| startBlockNumber := EB L z (length z - 1) + 1 |> <| endBlockNumber := EB L z (length z - 1) + L |>) f).
Proof.
  intros Hz [H0 H1 H2]. unfold prepared in *. split.
  - rewrite core_set. case_decide; [lia|done].
  - intros k. rewrite core_set. unfold nre_at, prepared. case_decide as Hk.
    + assert (k = length z - 1)%nat as -> by lia. rewrite (proj2 (Z.leb_le _ _)) by lia. specialize (H1 (length z - 1)%nat). rewrite Hk in H1.
      unfold nre_at in H1. rewrite (proj2 (Z.leb_gt _ _)) in H1 by lia.
      transitivity ((core (epoch f (2 * zlen z - 1))) <| e_initialized := true |> <| startBlockNumber := EB L z (length z - 1) + 1 |>
        <| endBlockNumber := EB L z (length z - 1) + L |>); [done|by rewrite H1].
    + rewrite H1. unfold nre_at. destruct (Z.leb_spec (2 * Z.of_nat k + 1) (2 * zlen z - 2)), (Z.leb_spec (2 * Z.of_nat k + 1) (2 * zlen z - 1)); done || lia.
  - intros k. rewrite core_set. case_decide; [lia|]. rewrite H2. unfold ore_at, prepared. destruct (z !! k) as [x|] eqn:Hk; [|done].
    apply lookup_lt_Some in Hk. destruct (Z.leb_spec (2 * Z.of_nat (S k)) (2 * zlen z - 2)), (Z.leb_spec (2 * Z.of_nat (S k)) (2 * zlen z - 1)); done || lia.
Qed.

Lemma prepareNRE_ok c s z t :
  (0 < length z)%nat -> currentFork s = 0 -> epochs_ok (NRELength s) z (Submitting t) (fork s 0) -> lastEpoch (fork s 0) = 2 * zlen z - 2 ->
  0 <= EB (NRELength s) z (length z - 1) -> EB (NRELength s) z (length z - 1) + NRELength s < two63 -> 1 <= NRELength s -> zlen z < 2 ^ 62 ->
  exists f', prepareNRE c s = Some (set_fork 0 f' s) /\ epochs_ok (NRELength s) z Rest f' /\ fork_frame f' = fork_frame (fork s 0) /\
    lastEpoch f' = lastEpoch (fork s 0) /\ forall i, RE_nextEpoch (epoch f' i) = RE_nextEpoch (epoch (fork s 0) i).
Proof.
  intros Hz Hcur He Hlast HE0 HE HL Hz62. set (f := fork s 0) in *. eexists. split; [|split; [by eapply (nre_step _ _ t c f)|split_and!; try done]].
  - unfold prepareNRE. rewrite Hcur. cbn [Z.eqb orb require]. fold f. rewrite Hlast. rewrite (u64_small (2 * zlen z - 2 + 1)) by (unfold is_u64; lia).
    replace (2 * zlen z - 2 + 1) with (2 * zlen z - 1) by lia.
    assert ((if 2 * zlen z - 1 =? 1 then 1 else u64 (endBlockNumber (epoch f (2 * zlen z - 2)) + 1)) = EB (NRELength s) z (length z - 1) + 1) as ->.
    { destruct (Z.eqb_spec (2 * zlen z - 1) 1) as [H1|H1]; [replace (length z - 1)%nat with 0%nat by lia; by rewrite EB_0|].
      destruct (length z - 1)%nat as [|k] eqn:Hk; [lia|]. pose proof (lay_ore _ _ _ _ He k) as Hc.
      replace (2 * Z.of_nat (S k)) with (2 * zlen z - 2) in Hc by lia. unfold ore_at in Hc. destruct (lookup_lt z k) as [x Hx]; [lia|].
      rewrite Hx in Hc. unfold prepared in Hc. replace (2 * Z.of_nat (S k)) with (2 * zlen z - 2) in Hc by lia. rewrite Z.leb_refl in Hc.
      use_core Hc. rewrite Fend. apply u64_small. unfold is_u64. lia. }
    rewrite !u64_small by (unfold is_u64; lia). by replace (EB (NRELength s) z (length z - 1) + 1 + NRELength s - 1) with (EB (NRELength s) z (length z - 1) + NRELength s) by lia.
  - intros i. rewrite epoch_set. by case_decide; subst.
Qed.

(** ** The requests of the next request epoch *)

(** All that have no epoch yet; a single first request waits for another one. *)
Definition next_size (z : list Z) (N : Z) : Z :=
  if (N =? 0) || (N - 1 =? Z.max 0 (C z (length z) - 1)) then 0 else rest z N.

Lemma next_size_cases z N : 0 <= C z (length z) <= N ->
  next_size z N = rest z N \/ (next_size z N = 0 /\ C z (length z) = 0 /\ N = 1).
Proof. intros H. unfold next_size, rest. destruct (Z.eqb_spec N 0), (Z.eqb_spec (N - 1) (Z.max 0 (C z (length z) - 1))); simpl; lia. Qed.

Lemma rest_app z x N : rest (z ++ [x]) N = rest z N - x.
Proof. unfold rest. rewrite length_app, Nat.add_1_r, (C_S _ _ x), C_app by (done || apply list_lookup_middle; done). lia. Qed.

(** The requests that wait are in the same request blocks when an empty epoch
    comes before them. *)
Lemma orbs_empty z N rbs : nonneg z -> orbs_ok z N rbs -> orbs_ok (z ++ [0]) N rbs.
Proof.
  intros Hz Ho. assert (rest (z ++ [0]) N = rest z N) as HR by (rewrite rest_app; lia). set (R := rest z N) in *.
  assert (C (z ++ [0]) (S (length z)) = C z (length z)) as HC by (rewrite tail_C; lia).
  assert (B (z ++ [0]) (S (length z)) = B z (length z)) as HB by (rewrite tail_B, nb_0; lia).
  pose proof (lay_count _ _ _ Ho) as Hc. fold R in Hc. rewrite tail_B in Hc.
  assert (length (z ++ [0]) = S (length z)) as Hlen by (rewrite length_app; simpl; lia).
  split; rewrite ?HR.
  - apply Ho.
  - intros k x j Hk Hj. destruct (decide (k < length z)%nat) as [Hlt|Hge].
    + rewrite <-app_assoc, lookup_app_l in Hk by done. destruct (lay_orbs _ _ _ Ho k x j) as (rb & Hrb & Hat); [by rewrite lookup_app_l|done|].
      exists rb. fold R in Hrb, Hat. unfold orb_at in *. by rewrite !B_app, !C_app in * by (rewrite ?Hlen; lia).
    + destruct (decide (k = length z)) as [->|Hne].
      * rewrite lookup_app_l in Hk by (rewrite Hlen; lia). rewrite tail_lookup in Hk. injection Hk as <-. rewrite nb_0 in Hj. lia.
      * assert (k = length (z ++ [0])) as -> by (apply lookup_lt_Some in Hk; rewrite length_app in Hk; simpl in Hk; lia).
        rewrite tail_lookup in Hk. injection Hk as <-. destruct (lay_orbs _ _ _ Ho (length z) R j) as (rb & Hrb & Hat); [apply tail_lookup|done|].
        exists rb. fold R in Hrb, Hat. unfold orb_at in *. rewrite tail_C, C_app in Hat by done. rewrite B_app in Hrb by done.
        rewrite tail_C, B_app, C_app, Hlen, HC, HB by done. done.
  - rewrite tail_B, Hlen, HB. done.
  - apply Ho.
Qed.

(** The last request block is closed when its requests get an epoch. *)
Lemma orbs_seal z N rbs : nonneg z -> orbs_ok z N rbs -> 0 < rest z N ->
  exists last, rbs !! (length rbs - 1)%nat = Some last /\ orbs_ok (z ++ [rest z N]) N (<[(length rbs - 1)%nat := last <| submitted := true |>]> rbs).
Proof.
  intros Hz Ho HR. destruct (last_orb z N rbs Ho HR) as (last & _ & Hlast & _). exists last. split; [done|]. apply lookup_lt_Some in Hlast as Hlt.
  assert (rest (z ++ [rest z N]) N = 0) as HR0 by (rewrite rest_app; lia). set (R := rest z N) in *.
  assert (length (z ++ [R]) = S (length z)) as Hlen by (rewrite length_app; simpl; lia).
  split; rewrite ?HR0.
  - lia.
  - intros k x j Hk Hj. destruct (decide (k < S (length z))%nat) as [Hk'|Hge].
    + rewrite lookup_app_l in Hk by (rewrite Hlen; lia). destruct (lay_orbs _ _ _ Ho k x j) as (rb & Hrb & Hat); [done..|]. fold R in Hrb, Hat.
      unfold orb_at in *. rewrite (B_app (z ++ [R]) [0]), !(C_app (z ++ [R]) [0]) by (rewrite Hlen; lia).
      destruct (decide (Z.to_nat (B (z ++ [R]) k + j) = length rbs - 1)%nat) as [Hi|Hi].
      * rewrite Hi in *. rewrite list_lookup_insert_eq by lia. rewrite Hlast in Hrb. injection Hrb as <-.
        eexists. split; [done|]. exact Hat.
      * rewrite list_lookup_insert_ne by lia. by exists rb.
    + assert (k = length (z ++ [R])) as -> by (apply lookup_lt_Some in Hk; rewrite length_app in Hk; simpl in Hk; lia).
      rewrite tail_lookup in Hk. injection Hk as <-. rewrite nb_0 in Hj. lia.
  - rewrite length_insert, tail_B, nb_0, Hlen, (lay_count _ _ _ Ho). fold R. lia.
  - intros rb Hrb. rewrite last_lookup, length_insert in Hrb. replace (pred (length rbs)) with (length rbs - 1)%nat in Hrb by lia.
    rewrite list_lookup_insert_eq in Hrb by lia. by injection Hrb as <-.
Qed.

(** ** Preparing a request epoch *)

Lemma ore_step L z x t f f' : (0 < length z)%nat -> epochs_ok L z Rest f ->
  (forall i, i <> 2 * zlen z -> i <> 2 * zlen z + 2 -> core (epoch f' i) = core (epoch f i)) ->
  core (epoch f' (2 * zlen z)) = ore_at L (z ++ [x]) (2 * zlen z) (length z - 1) ->
  core (epoch f' (2 * zlen z + 2)) = ore_at L (z ++ [x]) (2 * zlen z) (length z) -> epochs_ok L (z ++ [x]) (Submitting t) f'.
Proof.
  intros Hz [H0 H1 H2] Hf Hn Hm. assert (prepared (z ++ [x]) (Submitting t) = 2 * zlen z) as Hp by (unfold prepared; rewrite length_app; simpl; lia).
  split; rewrite ?Hp.
  - rewrite Hf by lia. done.
  - intros k. rewrite Hf by lia. rewrite H1. unfold nre_at, prepared.
    destruct (Z.leb_spec (2 * Z.of_nat k + 1) (2 * zlen z - 1)), (Z.leb_spec (2 * Z.of_nat k + 1) (2 * zlen z)); try lia; [|done].
    by rewrite EB_app by lia.
  - intros k. destruct (decide (k = length z - 1)%nat) as [->|Hk]; [by replace (2 * Z.of_nat (S (length z - 1))) with (2 * zlen z) by lia|].
    destruct (decide (k = length z)) as [->|Hk']; [by replace (2 * Z.of_nat (S (length z))) with (2 * zlen z + 2) by lia|].
    rewrite Hf, H2 by lia. unfold ore_at, prepared. destruct (decide (k < length z)%nat) as [Hlt|Hge].
    + rewrite lookup_app_l by done. destruct (z !! k) as [y|]; [|done]. rewrite !EB_app, !C_app, B_app by lia.
      destruct (Z.leb_spec (2 * Z.of_nat (S k)) (2 * zlen z - 1)), (Z.leb_spec (2 * Z.of_nat (S k)) (2 * zlen z)); done || lia.
    + by rewrite !lookup_ge_None_2 by (rewrite ?length_app; simpl; lia).
Qed.

Lemma next_ore_core e n filled nbk N next : core (next_ore e n filled nbk N next) = next_ore (core e) n filled nbk N (core next).
Proof.
  unfold next_ore. change (RE_requestEnd (core e)) with (RE_requestEnd e). change (rebase (core e)) with (rebase e).
  change (isEmpty (core e)) with (isEmpty e). change (RE_firstRequestBlockId (core e)) with (RE_firstRequestBlockId e).
  destruct ((N =? 0) || _).
  - cbn [isEmpty negb update]. simpl. by destruct (isEmpty e).
  - change (isEmpty (core next)) with (isEmpty next). destruct (negb (isEmpty next)).
    + destruct (_ && _); [done|]. destruct (filled =? 0); [done|]. by destruct (negb (isEmpty e)).
    + by destruct (negb (isEmpty e)).
Qed.

Lemma next_ore_next e n filled nbk N next : RE_nextEpoch (next_ore e n filled nbk N next) = RE_nextEpoch next.
Proof. unfold next_ore. repeat case_match; done. Qed.

Section Links.
Context (z : list Z) (x xq ff fn ln : Z) (f f' : Fork) (Hz : nonneg z) (Hq : z !! (length z - 1)%nat = Some xq) (Hlinks : links_ok z ff fn ln f).
Abbreviation q := (length z - 1)%nat.

(** The last of the chain is the only one without a successor. *)
Lemma last_unique k y : z !! k = Some y -> 0 < y -> (S k < length z)%nat -> C z (S k) = C z q -> ln = 2 * Z.of_nat (S k).
Proof.
  intros Hk Hy Hlt HCk. rewrite (C_S _ _ _ Hk) in HCk. destruct (lay_lastne _ _ _ _ _ Hlinks) as [[_ H0]|(k0 & y0 & -> & Hk0 & Hy0 & Hpos & HC0)].
  - pose proof (C_mono z 0 k Hz ltac:(lia)) as Hm. rewrite C_0 in Hm. lia.
  - rewrite (C_S _ _ _ Hy0) in HC0. destruct (Nat.lt_trichotomy k k0) as [Hlt'|[->|Hlt']]; [|done|].
    + pose proof (C_mono z (S k) k0 Hz ltac:(lia)) as Hm. rewrite (C_S _ _ _ Hk) in Hm. lia.
    + pose proof (C_mono z (S k0) k Hz ltac:(lia)) as Hm. rewrite (C_S _ _ _ Hy0) in Hm. lia.
Qed.

Lemma lookup_old k : (k < length z)%nat -> (z ++ [x]) !! k = z !! k.
Proof. intros Hk. by rewrite lookup_app_l. Qed.

Lemma C_last : C z (length z) = C z q + xq /\ 0 <= C z q /\ 0 <= xq /\ (length (z ++ [x]) - 1 = length z)%nat /\ (0 < length z)%nat.
Proof.
  apply lookup_lt_Some in Hq as Hlen. rewrite <-(C_S z q xq Hq). replace (S q) with (length z) by lia.
  pose proof (C_mono z 0 q Hz ltac:(lia)) as HCq. rewrite C_0 in HCq. pose proof (nonneg_lookup _ _ _ Hz Hq). rewrite length_app. simpl. split_and!; done || lia.
Qed.

Lemma links_step_empty : xq = 0 -> (forall i, RE_nextEpoch (epoch f' i) = RE_nextEpoch (epoch f i)) -> links_ok (z ++ [x]) ff fn ln f'.
Proof.
  intros H0 Hsame. destruct C_last as (HC & HCq & _ & Hl & Hlen). destruct Hlinks as [Hff Hfn Hln Hnext Hnext0].
  split; rewrite ?Hl, ?C_app, ?HC, ?H0, ?Z.add_0_r by done.
  - done.
  - destruct Hfn as [Hfn|(k & y & ? & ? & ? & ? & ?)]; [by left|right]. exists k, y. rewrite lookup_old, C_app, length_app by lia. split_and!; try done. simpl. lia.
  - destruct Hln as [Hln|(k & y & ? & ? & ? & ? & ?)]; [by left|right]. exists k, y. rewrite lookup_old, C_app, length_app by lia. split_and!; try done. simpl. lia.
  - intros k y Hk Hy Hlt. rewrite length_app in Hlt. simpl in Hlt. rewrite lookup_old in Hk by lia.
    assert (S k < length z)%nat as Hlt' by (destruct (decide (k = q)) as [->|]; [rewrite Hq in Hk; injection Hk as <-; lia|lia]). rewrite Hsame, C_app by lia.
    destruct (Hnext k y Hk Hy Hlt') as [?|(k' & y' & ? & ? & ? & ? & ? & ?)]; [by left|right]. exists k', y'.
    rewrite lookup_old, C_app, length_app by lia. split_and!; try done. simpl. lia.
  - intros i Hi. rewrite Hsame. apply Hnext0. rewrite length_app in Hi. simpl in Hi. lia.
Qed.

Lemma links_step_filled : xq <> 0 ->
  (forall i, RE_nextEpoch (epoch f' i) = if decide (ln <> 0 /\ i = ln) then 2 * zlen z else RE_nextEpoch (epoch f i)) ->
  links_ok (z ++ [x]) (if ff =? 0 then 2 * zlen z else ff) (if fn =? 0 then 2 * zlen z else fn) (2 * zlen z) f'.
Proof.
  intros Hne Hf'. destruct C_last as (HC & HCq & Hxq & Hl & Hlen). pose proof last_unique as Huniq. destruct Hlinks as [Hff Hfn Hln Hnext Hnext0].
  assert (2 * zlen z = 2 * Z.of_nat (S q)) as Hn by lia.
  assert (forall i, ln = 2 * Z.of_nat i -> (i < length z)%nat) as Hln' by (intros i Hi; destruct Hln as [[-> _]|(k0 & ? & -> & ? & _)]; lia).
  split; rewrite ?Hl, ?C_app, ?HC by done.
  - destruct (Z.eqb_spec ff 0); lia.
  - right. destruct Hfn as [[-> H0]|(k & y & -> & ? & ? & ? & ?)].
    + exists q, xq. cbn [Z.eqb]. rewrite lookup_old, C_app, length_app by lia. split_and!; try done; simpl; lia.
    + exists k, y. destruct (Z.eqb_spec (2 * Z.of_nat (S k)) 0); [lia|]. rewrite lookup_old, C_app, length_app by lia. split_and!; try done. simpl. lia.
  - right. exists q, xq. rewrite lookup_old, C_app, length_app by lia. split_and!; try done; [simpl; lia|lia|]. rewrite (C_S _ _ _ Hq). done.
  - intros k y Hk Hy Hlt. rewrite length_app in Hlt. simpl in Hlt. rewrite lookup_old in Hk by lia. rewrite C_app by lia. rewrite Hf'.
    destruct (decide (k = q)) as [->|Hkq].
    + left. split; [|rewrite (C_S _ _ _ Hq); done]. rewrite decide_False by (intros [_ Hd]; symmetry in Hd; apply Hln' in Hd; lia). apply Hnext0. lia.
    + right. destruct (Hnext k y Hk Hy ltac:(lia)) as [[Hn0 HCk]|(k' & y' & Hn' & ? & ? & Hy' & ? & HCk)].
      * exists q, xq. rewrite lookup_old, C_app, length_app by lia. rewrite decide_True by (rewrite (Huniq k y); done || lia). split_and!; try done; simpl; lia.
      * exists k', y'. rewrite lookup_old, C_app, length_app by lia. rewrite decide_False; [split_and!; try done; simpl; lia|].
        intros [_ Heq]. destruct Hln as [[-> _]|(k0 & y0 & -> & ? & Hy0 & ? & HC0)]; [lia|]. assert (k0 = k) as -> by lia.
        pose proof (C_mono z (S k') q Hz ltac:(lia)) as Hm. rewrite (C_S _ _ _ Hy') in Hm. lia.
  - intros i Hi. rewrite length_app in Hi. simpl in Hi. rewrite Hf', decide_False; [apply Hnext0; lia|].
    intros [_ ->]. destruct Hln as [[-> _]|(k0 & ? & -> & ? & _)]; lia.
Qed.
End Links.

Section PrepareORE.
Context (z : list Z) (xq N L : Z) (Hz : nonneg z) (Hq : z !! (length z - 1)%nat = Some xq).
Context (HL : 1 <= L < 2 ^ 32) (Hz28 : zlen z <= 2 ^ 28) (HN : 0 <= C z (length z) <= N) (HN28 : N <= 2 ^ 28).
Abbreviation q := (length z - 1)%nat.
Abbreviation n := (2 * zlen z).
Abbreviation x := (next_size z N).

Lemma ore_bounds : 0 <= C z q /\ C z (length z) = C z q + xq /\ 0 <= xq <= 2 ^ 28 /\ 0 <= B z q <= C z q /\ B z (length z) = B z q + nb xq /\
  0 <= nb xq <= xq /\ 0 <= EB L z q < 2 ^ 61 /\ EB L z (length z) = EB L z q + L + nb xq /\ (0 < length z)%nat.
Proof.
  apply lookup_lt_Some in Hq as Hlen. pose proof (nonneg_lookup _ _ _ Hz Hq). pose proof (C_mono z 0 q Hz ltac:(lia)) as H0. rewrite C_0 in H0.
  pose proof (B_le_C z q Hz ltac:(lia)). pose proof (nb_bounds xq ltac:(lia)). assert (length z = S q) as Hlen' by lia.
  pose proof (C_S _ _ _ Hq) as HC. pose proof (B_S _ _ _ Hq) as HB. pose proof (EB_S L _ _ _ Hq) as HEB. rewrite <- Hlen' in HC, HB, HEB.
  split_and!; try done; try lia; unfold EB; nia.
Qed.

(** The epoch [n] before and after it gets its block numbers. *)
Lemma ore_at_old : ore_at L z (n - 1) q =
  mkCore 0 0 (xq =? 0) false true (if xq =? 0 then Z.max 0 (C z (length z) - 1) else C z q) (Z.max 0 (C z (length z) - 1)) (if xq =? 0 then Z.max 0 (B z q - 1) else B z q).
Proof.
  destruct ore_bounds as (_ & _ & _ & _ & _ & _ & _ & _ & Hlen). unfold ore_at. rewrite Hq. replace (S q) with (length z) by lia.
  destruct (Z.leb_spec (2 * zlen z) (n - 1)); [lia|done].
Qed.

Lemma ore_at_new : ore_at L (z ++ [x]) n q =
  mkCore (EB L z q + L + (if xq =? 0 then 0 else 1)) (EB L z (length z)) (xq =? 0) true true (if xq =? 0 then Z.max 0 (C z (length z) - 1) else C z q) (Z.max 0 (C z (length z) - 1)) (if xq =? 0 then Z.max 0 (B z q - 1) else B z q).
Proof.
  destruct ore_bounds as (_ & _ & _ & _ & _ & _ & _ & _ & Hlen). unfold ore_at. rewrite lookup_app_l, Hq by lia. replace (S q) with (length z) by lia.
  rewrite Z.leb_refl, !EB_app, !C_app, B_app by lia. done.
Qed.

Lemma ore_numbers_ok f :
  core (epoch f n) = (ore_at L z (n - 1) q) <| e_initialized := true |> -> endBlockNumber (epoch f (n - 1)) = EB L z q + L ->
  exists g, ore_numbers n f = Some (set_epoch n g f, nb xq) /\ core (g (epoch f n)) = ore_at L (z ++ [x]) n q /\ (forall e, RE_nextEpoch (g e) = RE_nextEpoch e).
Proof.
  intros He Hend. destruct ore_bounds as (? & HC & ? & ? & ? & ? & ? & HEB & Hlen). rewrite ore_at_old in He. use_core He. unfold ore_numbers.
  rewrite (u64_small (n - 1)) by (unfold is_u64; lia). rewrite Fempty, Fre, Frs, Hend, ore_at_new. destruct (Z.eqb_spec xq 0) as [E|E].
  - eexists. split; [by rewrite E|]. split; [|done].
    transitivity ((core (epoch f n)) <| startBlockNumber := EB L z q + L |> <| endBlockNumber := EB L z q + L |>); [done|].
    rewrite He, HEB, E, nb_0, !Z.add_0_r. done.
  - replace (Z.max 0 (C z (length z) - 1) - C z q + 1) with xq by lia. rewrite (u64_small xq) by (unfold is_u64; lia).
    change (divCeil xq MAX_REQUESTS) with (nb xq). rewrite (u64_small (nb xq)) by (unfold is_u64; lia). rewrite add64_Some by lia. cbn [mbind option_bind].
    rewrite u64_small by (unfold is_u64; lia). eexists. split; [done|]. split; [|done].
    transitivity ((core (epoch f n)) <| startBlockNumber := EB L z q + L + 1 |> <| endBlockNumber := EB L z q + L + 1 + nb xq - 1 |>); [done|].
    rewrite He, HEB. by replace (EB L z q + L + 1 + nb xq - 1) with (EB L z q + L + nb xq) by lia.
Qed.

(** The epoch [n + 2] gets the requests that wait. *)
Lemma next_ore_ok e next filled :
  core e = ore_at L (z ++ [x]) n q -> core next = zeroEpoch <| e_isRequest := true |> -> (filled = 0 <-> C z (length z) = 0) ->
  let r := next_ore e n filled (nb xq) N next in
  isEmpty r = (x =? 0) /\
  core (r <| RE_requestEnd := if x =? 0 then RE_requestStart r else u64 (N - 1) |>) = ore_at L (z ++ [x]) n (length z).
Proof.
  intros He Hnext Hfilled r. destruct ore_bounds as (? & HC & ? & ? & HB & ? & ? & _ & Hlen).
  assert (core r = next_ore (core e) n filled (nb xq) N (core next)) as Hr by apply next_ore_core.
  rewrite He, Hnext, ore_at_new in Hr. unfold next_ore in Hr. cbn -[zero32] in Hr.
  assert (ore_at L (z ++ [x]) n (length z) = mkCore 0 0 (x =? 0) false true (if x =? 0 then Z.max 0 (C z (length z) + x - 1) else C z (length z))
    (Z.max 0 (C z (length z) + x - 1)) (if x =? 0 then Z.max 0 (B z (length z) - 1) else B z (length z))) as ->.
  { unfold ore_at. rewrite tail_lookup, tail_C, C_app, B_app by done. destruct (Z.leb_spec (2 * Z.of_nat (S (length z))) n); [lia|done]. }
  assert (core (r <| RE_requestEnd := if x =? 0 then RE_requestStart r else u64 (N - 1) |>) = (core r) <| RE_requestEnd := if x =? 0 then RE_requestStart (core r) else u64 (N - 1) |>) as -> by done.
  change (isEmpty r) with (isEmpty (core r)).
  unfold next_size in *. unfold rest in *. destruct ((N =? 0) || (N - 1 =? Z.max 0 (C z (length z) - 1))) eqn:Hcond.
  - rewrite Hr. cbn -[zero32]. destruct (Z.eqb_spec xq 0) as [E|E]; cbn -[zero32].
    + split; [done|]. rewrite HC, HB, E, nb_0, !Z.add_0_r. done.
    + pose proof (nb_spec xq ltac:(lia)). split; [done|]. rewrite u64_small by (unfold is_u64; lia). rewrite Z.add_0_r, HB.
      replace (Z.max 0 (B z q + nb xq - 1)) with (B z q + nb xq - 1) by lia. done.
  - apply orb_false_iff in Hcond as [HN0 HN1]. apply Z.eqb_neq in HN0, HN1. assert ((N - C z (length z) =? 0) = false) as Hx by lia. rewrite Hx, Hr, (u64_small (N - 1)) by (unfold is_u64; lia). cbn -[zero32].
    rewrite andb_false_r. replace (C z (length z) + (N - C z (length z)) - 1) with (N - 1) by lia. rewrite (Z.max_r 0 (N - 1)) by lia.
    destruct (Z.eqb_spec filled 0) as [Hf|Hf].
    + apply Hfilled in Hf. assert (xq = 0) as E by lia. assert (B z q = 0) as HB0 by lia. cbn -[zero32]. split; [done|]. rewrite Hf, HB, E, HB0, nb_0. done.
    + assert (0 < C z (length z)) by lia. rewrite (u64_small (Z.max 0 (C z (length z) - 1) + 1)) by (unfold is_u64; lia).
      replace (Z.max 0 (C z (length z) - 1) + 1) with (C z (length z)) by lia. destruct (Z.eqb_spec xq 0) as [E|E]; cbn -[zero32].
      * split; [done|]. assert (0 < B z q).
        { destruct (decide (B z q = 0)) as [HB0|]; [|lia]. apply (B_zero z q Hz ltac:(lia)) in HB0. lia. }
        rewrite u64_small by (unfold is_u64; lia). rewrite HB, E, nb_0, Z.add_0_r. by replace (Z.max 0 (B z q - 1) + 1) with (B z q) by lia.
      * split; [done|]. rewrite u64_small by (unfold is_u64; lia). by rewrite HB.
Qed.
End PrepareORE.

(** What preparing an epoch leaves. *)
Definition rc_frame (s : RootChain) : RootChain :=
  s <| forks := ∅ |> <| numEnterForORB := 0 |> <| firstFilledORENumber := ∅ |> <| ORBs := [] |> <| firstNonEmptyRequestEpoch := ∅ |>
    <| lastNonEmptyRequestEpoch := ∅ |>.

(** The epochs [n] and [m] after the first updates. *)
Lemma ore_start n m g1 g2 f : n <> m ->
  (forall e, core (g1 e) = (core e) <| e_initialized := true |>) -> (forall e, core (g2 e) = (core e) <| e_isRequest := true |>) ->
  (forall e, RE_nextEpoch (g1 e) = RE_nextEpoch e) -> (forall e, RE_nextEpoch (g2 e) = RE_nextEpoch e) ->
  let f' := link_enter n (set_epoch m g2 (set_epoch n g1 f)) in
  core (epoch f' n) = (core (epoch f n)) <| e_initialized := true |> /\ core (epoch f' m) = (core (epoch f m)) <| e_isRequest := true |> /\
  (forall i, i <> n -> i <> m -> core (epoch f' i) = core (epoch f i)) /\ (forall i, RE_nextEpoch (epoch f' i) = RE_nextEpoch (epoch f i)) /\
  fork_frame f' = fork_frame f /\ lastEpoch f' = lastEpoch f.
Proof.
  intros Hne Hg1 Hg2 Hn1 Hn2 f'. destruct (link_enter_frame n (set_epoch m g2 (set_epoch n g1 f))) as [Hff Hle].
  split_and!; unfold f'; [..|by rewrite Hff|by rewrite Hle].
  - rewrite link_enter_core, !core_set, decide_False, decide_True by done. apply Hg1.
  - rewrite link_enter_core, core_set, decide_True, Hg2, core_set, decide_False by done. done.
  - intros i Hin Him. rewrite link_enter_core, !core_set, !decide_False by done. done.
  - intros i. rewrite link_enter_next, !epoch_set. repeat case_decide; subst; rewrite ?Hn1, ?Hn2, ?epoch_set; repeat case_decide; subst; rewrite ?Hn1; done.
Qed.

(** The epochs after the last part. *)
Lemma seal_next_ok m f s z : nonneg z -> orbs_ok z (zlen (EROs s)) (ORBs s) -> isEmpty (epoch f m) = (next_size z (zlen (EROs s)) =? 0) ->
  0 <= C z (length z) ->
  exists rbs, seal_next m f s = Some (set_epoch m (fun e => e <| RE_requestEnd := if next_size z (zlen (EROs s)) =? 0 then RE_requestStart e else u64 (zlen (EROs s) - 1) |>) f, rbs) /\
    orbs_ok (z ++ [next_size z (zlen (EROs s))]) (zlen (EROs s)) rbs.
Proof.
  intros Hz Ho Hempty HC. pose proof (lay_rest _ _ _ Ho) as HR. unfold seal_next. rewrite Hempty. destruct (Z.eqb_spec (next_size z (zlen (EROs s))) 0) as [->|Hx].
  - exists (ORBs s). split; [done|]. by apply orbs_empty.
  - destruct (next_size_cases z (zlen (EROs s))) as [Hr|[? _]]; [unfold rest in HR; lia| |done]. rewrite Hr in *.
    destruct (orbs_seal z _ _ Hz Ho) as (last & Hlast & Ho'); [lia|]. apply lookup_lt_Some in Hlast as Hlt. unfold SafeMath.sub.
    destruct (Z.leb_spec 1 (zlen (ORBs s))); [|lia]. cbn [require mbind option_bind].
    replace (Z.to_nat (zlen (ORBs s) - 1)) with (length (ORBs s) - 1)%nat by lia. rewrite Hlast. cbn [mbind option_bind]. by eexists.
Qed.

(** An epoch linked to its successor. *)
Lemma next_link (b : bool) ln n f : let f' := if b && negb (ln =? 0) then set_epoch ln (fun e => e <| RE_nextEpoch := n |>) f else f in
  (forall i, core (epoch f' i) = core (epoch f i)) /\ fork_frame f' = fork_frame f /\ lastEpoch f' = lastEpoch f /\
  (forall i, RE_nextEpoch (epoch f' i) = if decide (b = true /\ ln <> 0 /\ i = ln) then n else RE_nextEpoch (epoch f i)).
Proof.
  destruct b; [destruct (Z.eqb_spec ln 0) as [->|Hln]|]; cbn [andb negb].
  - split_and!; try done; intros i; by rewrite decide_False by naive_solver.
  - split_and!; try done.
    + intros i. by apply (core_set_frame ln (fun e => e <| RE_nextEpoch := n |>) f i).
    + intros i. rewrite epoch_set. destruct (decide (i = ln)) as [->|]; [by rewrite decide_True|by rewrite decide_False by naive_solver].
  - split_and!; try done; intros i; by rewrite decide_False by naive_solver.
Qed.

(** The whole of it on the fork, up to the last epoch. *)
Section OreFork.
Context (c : Ctx) (s : RootChain) (z : list Z) (xq L : Z) (f : Fork).
Context (Hz : nonneg z) (Hq : z !! (length z - 1)%nat = Some xq) (HL : 1 <= L < 2 ^ 32) (Hz28 : zlen z <= 2 ^ 28) (HN28 : zlen (EROs s) <= 2 ^ 28).
Context (He : epochs_ok L z Rest f) (Ho : orbs_ok z (zlen (EROs s)) (ORBs s)).
Context (Hff : at_ (firstFilledORENumber s) 0 = 0 <-> C z (length z - 1) = 0).
Abbreviation n := (2 * zlen z).
Abbreviation m := (2 * zlen z + 2).
Abbreviation N := (zlen (EROs s)).
Abbreviation ff := (at_ (firstFilledORENumber s) 0).
Abbreviation ln := (at_ (lastNonEmptyRequestEpoch s) 0).
Abbreviation filled := (if (ff =? 0) && negb (xq =? 0) then n else ff).
Abbreviation f3 := (link_enter n (set_epoch m (fun e => e <| e_isRequest := true |> <| RE_numEnter := u64 (numEnterForORB s) |>)
    (set_epoch n (fun e => e <| e_initialized := true |> <| e_timestamp := u64 (now c) |>) f))).
Abbreviation f5 f4 := (set_epoch m (next_ore (epoch f4 n) n filled (nb xq) N) f4).
Abbreviation f6 f := (if negb (xq =? 0) && negb (ln =? 0) then set_epoch ln (fun e => e <| RE_nextEpoch := n |>) f else f).

Lemma N_bound : 0 <= C z (length z) <= N.
Proof. pose proof (lay_rest _ _ _ Ho) as HR. unfold rest in HR. pose proof (C_mono z 0 (length z) Hz ltac:(lia)) as Hm. rewrite C_0 in Hm. lia. Qed.

Lemma ore_f3 : core (epoch f3 n) = (ore_at L z (n - 1) (length z - 1)) <| e_initialized := true |> /\ core (epoch f3 m) = zeroEpoch <| e_isRequest := true |> /\
  endBlockNumber (epoch f3 (n - 1)) = EB L z (length z - 1) + L /\ (forall i, i <> n -> i <> m -> core (epoch f3 i) = core (epoch f i)) /\
  (forall i, RE_nextEpoch (epoch f3 i) = RE_nextEpoch (epoch f i)) /\ fork_frame f3 = fork_frame f /\ lastEpoch f3 = lastEpoch f.
Proof.
  destruct (ore_start n m (fun e => e <| e_initialized := true |> <| e_timestamp := u64 (now c) |>)
    (fun e => e <| e_isRequest := true |> <| RE_numEnter := u64 (numEnterForORB s) |>) f) as (Hn & Hm & Hi & Hnx & Hfr & Hle); try done; [lia|].
  apply lookup_lt_Some in Hq as Hlen.
  pose proof (lay_ore _ _ _ _ He (length z - 1)) as Hen. pose proof (lay_ore _ _ _ _ He (length z)) as Hem. pose proof (lay_nre _ _ _ _ He (length z - 1)) as Hep.
  replace (2 * Z.of_nat (S (length z - 1))) with n in Hen by lia. replace (2 * Z.of_nat (S (length z))) with m in Hem by lia.
  replace (2 * Z.of_nat (length z - 1) + 1) with (n - 1) in Hep by lia. change (prepared z Rest) with (n - 1) in *.
  rewrite Hen in Hn. unfold ore_at in Hem. rewrite lookup_ge_None_2 in Hem by lia. rewrite Hem in Hm.
  split_and!; try done. unfold nre_at in Hep. destruct (Z.leb_spec (2 * Z.of_nat (length z - 1) + 1) (n - 1)); [|lia].
  rewrite <-(Hi (n - 1)) in Hep by lia. use_core Hep. done.
Qed.

Lemma ore_f3_empty : isEmpty (epoch f3 n) = (xq =? 0).
Proof. destruct ore_f3 as (Hn & _). unfold ore_at in Hn. rewrite Hq in Hn. use_core Hn. done. Qed.

Lemma ore_f5 : exists f4, ore_numbers n f3 = Some (f4, nb xq) /\
  core (epoch (f5 f4) n) = ore_at L (z ++ [next_size z N]) n (length z - 1) /\ isEmpty (epoch (f5 f4) m) = (next_size z N =? 0) /\
  core ((epoch (f5 f4) m) <| RE_requestEnd := if next_size z N =? 0 then RE_requestStart (epoch (f5 f4) m) else u64 (N - 1) |>) = ore_at L (z ++ [next_size z N]) n (length z) /\
  (forall i, i <> n -> i <> m -> core (epoch (f5 f4) i) = core (epoch f i)) /\
  (forall i, RE_nextEpoch (epoch (f5 f4) i) = RE_nextEpoch (epoch f i)) /\ fork_frame (f5 f4) = fork_frame f /\ lastEpoch (f5 f4) = lastEpoch f.
Proof.
  destruct ore_f3 as (Hn & Hm & Hend & Hi & Hnx & Hfr & Hle). pose proof N_bound as HN.
  destruct (ore_numbers_ok z xq N L Hz Hq HL Hz28 HN HN28 f3 Hn Hend) as (g & -> & Hg & Hgn). eexists. split; [done|]. set (f4 := set_epoch n g f3).
  assert (core (epoch f4 n) = ore_at L (z ++ [next_size z N]) n (length z - 1)) as H4n by (unfold f4; rewrite core_set, decide_True by done; done).
  assert (core (epoch f4 m) = zeroEpoch <| e_isRequest := true |>) as H4m by (unfold f4; rewrite core_set, decide_False by lia; done).
  destruct (next_ore_ok z xq N L Hz Hq HL Hz28 HN HN28 (epoch f4 n) (epoch f4 m) filled H4n H4m) as [Hem Hcm].
  { destruct (ore_bounds z xq N L Hz Hq HL Hz28 HN HN28) as (? & -> & ? & _). apply lookup_lt_Some in Hq as Hlen.
    destruct (Z.eqb_spec ff 0), (Z.eqb_spec xq 0); cbn [andb negb]; lia. }
  split_and!; [..|done|done].
  - rewrite core_set, decide_False by lia. done.
  - rewrite epoch_set, decide_True by done. done.
  - rewrite !epoch_set, !decide_True by done. done.
  - intros i Hin Him. unfold f4. rewrite !core_set, !decide_False by done. auto.
  - intros i. rewrite epoch_set. case_decide as Him.
    + subst i. rewrite next_ore_next. unfold f4. rewrite epoch_set, decide_False by lia. auto.
    + unfold f4. rewrite epoch_set. case_decide; subst; rewrite ?Hgn; auto.
Qed.

Lemma ore_f7 : exists f4, ore_numbers n f3 = Some (f4, nb xq) /\ isEmpty (epoch (f5 f4) n) = (xq =? 0) /\
  exists f7 rbs, seal_next m (f6 (f5 f4)) s = Some (f7, rbs) /\ orbs_ok (z ++ [next_size z N]) N rbs /\
  epochs_ok L (z ++ [next_size z N]) (Submitting 0) f7 /\ isEmpty (epoch f7 n) = (xq =? 0) /\ fork_frame f7 = fork_frame f /\
  lastEpoch f7 = lastEpoch f /\ (forall i, RE_nextEpoch (epoch f7 i) = if decide (negb (xq =? 0) = true /\ ln <> 0 /\ i = ln) then n else RE_nextEpoch (epoch f i)).
Proof.
  destruct ore_f5 as (f4 & Hnum & Hn & Hem & Hm & Hi & Hnx & Hfr & Hle). exists f4. split; [done|]. apply lookup_lt_Some in Hq as Hlen.
  assert (isEmpty (ore_at L (z ++ [next_size z N]) n (length z - 1)) = (xq =? 0)) as Hemn by (unfold ore_at; rewrite lookup_app_l, Hq by lia; done).
  split; [transitivity (isEmpty (core (epoch (f5 f4) n))); [done|by rewrite Hn, Hemn]|]. generalize dependent (f5 f4). intros g Hn Hem Hm Hi Hnx Hfr Hle.
  destruct (next_link (negb (xq =? 0)) ln n g) as (H6c & H6f & H6l & H6n). set (g6 := f6 g) in *. clearbody g6.
  destruct (seal_next_ok m g6 s z Hz Ho) as (rbs & Hseal & Ho').
  { change (isEmpty (epoch g6 m)) with (isEmpty (core (epoch g6 m))). rewrite H6c. done. } { apply N_bound. }
  eexists _, rbs. split; [done|]. split; [done|]. split_and!; [..|by rewrite <-Hfr, <-H6f|by rewrite <-Hle, <-H6l|].
  - apply (ore_step L z _ 0 f); [lia|done|..].
    + intros i Hin Him. rewrite core_set, decide_False, H6c by done. auto.
    + rewrite core_set, decide_False, H6c by lia. done.
    + rewrite core_set, decide_True by done. etransitivity; [|exact Hm].
      transitivity ((core (epoch g6 m)) <| RE_requestEnd := if next_size z N =? 0 then RE_requestStart (core (epoch g6 m)) else u64 (N - 1) |>); [done|]. rewrite H6c. done.
  - rewrite epoch_set, decide_False by lia. change (isEmpty (epoch g6 n)) with (isEmpty (core (epoch g6 n))). rewrite H6c, Hn. done.
  - intros i. rewrite epoch_set. rewrite <-Hnx, <-H6n. destruct (decide (i = m)) as [->|]; done.
Qed.
End OreFork.

(** [prepareORE] gives the requests that wait to the request epoch after the
    next, and block numbers to the next one, or to the epoch after it if the
    next one is empty. *)
Lemma prepareORE_ok c s z xq : let L := NRELength s in let N := zlen (EROs s) in let z' := z ++ [next_size z N] in
  small s z -> nonneg z -> z !! (length z - 1)%nat = Some xq -> currentFork s = 0 -> epochs_ok L z Rest (fork s 0) ->
  lastEpoch (fork s 0) = 2 * zlen z - 1 -> orbs_ok z N (ORBs s) ->
  links_ok z (at_ (firstFilledORENumber s) 0) (at_ (firstNonEmptyRequestEpoch s) 0) (at_ (lastNonEmptyRequestEpoch s) 0) (fork s 0) ->
  exists s', prepareORE c s = Some s' /\ rc_frame s' = rc_frame s /\ epochs_ok L z' (if xq =? 0 then Rest else Submitting 0) (fork s' 0) /\
    fork_frame (fork s' 0) = fork_frame (fork s 0) /\ lastEpoch (fork s' 0) = (if xq =? 0 then 2 * zlen z else 2 * zlen z - 1) /\
    orbs_ok z' N (ORBs s') /\
    links_ok z' (at_ (firstFilledORENumber s') 0) (at_ (firstNonEmptyRequestEpoch s') 0) (at_ (lastNonEmptyRequestEpoch s') 0) (fork s' 0).
Proof.
  intros L N z' (HL & Hz28 & HN28) Hz Hq Hcur He Hlast Ho Hlinks. apply lookup_lt_Some in Hq as Hlen.
  pose proof (lay_filled _ _ _ _ _ Hlinks) as Hff. set (f := fork s 0) in *.
  pose proof (ore_f3_empty c s z xq L f Hq He Hff) as H3. destruct (ore_f7 c s z xq L f Hz Hq HL Hz28 HN28 He Ho Hff) as (f4 & Hnum & H5 & f7 & rbs & Hseal & Ho' & He' & H7 & Hfr & Hle & Hnx).
  fold N in Hseal, Ho', He'. fold z' in Ho', He'.
  unfold prepareORE. rewrite Hcur. cbn [Z.eqb orb require]. fold f N. rewrite Hlast. rewrite (u64_small (2 * zlen z - 1 + 1)) by (unfold is_u64; lia).
  replace (2 * zlen z - 1 + 1) with (2 * zlen z) by lia. rewrite (u64_small (2 * zlen z + 2)) by (unfold is_u64; lia).
  rewrite H3, Hnum. cbn [mbind option_bind]. fold N in H5. rewrite H5, Hseal. cbn [mbind option_bind]. rewrite H7.
  assert (forall y, at_ (<[0 := y]> (firstFilledORENumber s)) 0 = y) as Hat by (intros y; rewrite at_insert; by case_decide).
  destruct (Z.eqb_spec xq 0) as [E|E]; cbn [negb andb] in *.
  - set (s1 := set_fork 0 _ _). assert (fork s1 0 = f7 <| lastEpoch := 2 * zlen z |>) as Hs1 by (unfold s1; rewrite fork_set; by case_decide).
    assert (zlen z' = zlen z + 1 /\ (length z' - 1)%nat = length z) as [Hz' Hz''] by (unfold z'; rewrite length_app; simpl; lia).
    pose proof (B_le_C z (length z) Hz ltac:(done)). pose proof (lay_rest _ _ _ Ho) as HR. unfold rest in HR.
    destruct (prepareNRE_ok c s1 z' 0) as (f' & -> & Hep & Hfr' & Hle' & Hnx'); rewrite ?Hs1, ?Hz', ?Hz''; try done; try lia.
    { change (NRELength s1) with L. by eapply epochs_ok_frame, He'. }
    { cbn. lia. }
    { change (NRELength s1) with L. unfold z'. rewrite EB_app by done. unfold EB. nia. }
    { change (NRELength s1) with L. unfold z'. rewrite EB_app by done. unfold EB. nia. }
    { change (NRELength s1) with (NRELength s). lia. }
    eexists. split; [done|]. rewrite Hs1 in *. rewrite fork_set, decide_True by done. split_and!; [done|done|by rewrite Hfr', <-Hfr|by rewrite Hle'|done|].
    cbn. rewrite Hat, andb_false_r. apply (links_step_empty z _ xq _ _ _ f); try done. intros i. rewrite Hnx'. etransitivity; [apply (Hnx i)|]. by rewrite decide_False by naive_solver.
  - eexists. split; [done|]. rewrite fork_set, decide_True by done. split_and!; [done|done|done|lia|done|].
    cbn. rewrite Hat, at_insert, decide_True, andb_true_r by done.
    assert (at_ (if at_ (firstNonEmptyRequestEpoch s) 0 =? 0 then <[0 := 2 * zlen z]> (firstNonEmptyRequestEpoch s) else firstNonEmptyRequestEpoch s) 0 =
      if at_ (firstNonEmptyRequestEpoch s) 0 =? 0 then 2 * zlen z else at_ (firstNonEmptyRequestEpoch s) 0) as ->.
    { destruct (at_ (firstNonEmptyRequestEpoch s) 0 =? 0); [|done]. rewrite at_insert. by case_decide. }
    apply (links_step_filled z _ xq _ _ (at_ (lastNonEmptyRequestEpoch s) 0) f); try done.
    intros i. rewrite Hnx. apply decide_ext. naive_solver.
Qed.
