(* ===== verification/RootChainCalls.v ===== *)
(** * The root chain contract: submissions keep the layout
    Each submission that succeeds is the one the layout expects, and leaves the
    layout of one more epoch or block; finalising blocks does not change it. *)

From S2P Require Import Prelude MathUtil Solidity RecordUpdate BinaryMerkle PlasmaTx RootChainData RootChain RootChainLayout.

(** ** Frames *)

(** A block without what the layout does not say. *)
Definition block_core (b : PlasmaBlock) : bool * bool * Z * Z * bool * bytes :=
  (b_isRequest b, b_userActivated b, b_epochNumber b, requestBlockId b, b_challenging b, transactionsRoot b).

Lemma block_core_fields b b' : block_core b = block_core b' ->
  b_isRequest b = b_isRequest b' /\ b_userActivated b = b_userActivated b' /\ b_epochNumber b = b_epochNumber b' /\ requestBlockId b = requestBlockId b' /\
  b_challenging b = b_challenging b' /\ transactionsRoot b = transactionsRoot b'.
Proof. unfold block_core. by intros [= -> -> -> -> -> ->]. Qed.

Lemma blocks_ok_frame L z f f' :
  (forall b, block_core (block f' b) = block_core (block f b)) -> lastBlock f' = lastBlock f -> blocks_ok L z f -> blocks_ok L z f'.
Proof.
  intros Hb Hl [H1 H2 H3]. split; rewrite ?Hl.
  - intros k x j Hk Hj Hle. specialize (H1 k x j Hk Hj Hle). destruct (block_core_fields _ _ (Hb (EB L z k + L + 1 + j))) as (? & ? & ? & ? & ? & _).
    unfold block_at in *. naive_solver congruence.
  - intros b Hreq. destruct (block_core_fields _ _ (Hb b)) as (? & ? & ? & ? & ? & _). apply H2. congruence.
  - intros b. destruct (block_core_fields _ _ (Hb b)) as (? & ? & ? & ? & -> & _). done.
Qed.

Lemma links_ok_frame z ff fn ln f f' : (forall i, RE_nextEpoch (epoch f' i) = RE_nextEpoch (epoch f i)) -> links_ok z ff fn ln f -> links_ok z ff fn ln f'.
Proof. intros Hn [H1 H2 H3 H4 H5]. split; try done. { intros k x. rewrite Hn. apply H4. } intros i. rewrite Hn. apply H5. Qed.

(** A fork that differs where the layout does not look. *)
Record fork_like (f f' : Fork) : Prop := {
  like_core : forall i, core (epoch f' i) = core (epoch f i);
  like_next : forall i, RE_nextEpoch (epoch f' i) = RE_nextEpoch (epoch f i);
  like_block : forall b, block_core (block f' b) = block_core (block f b);
  like_last : lastEpoch f' = lastEpoch f /\ lastBlock f' = lastBlock f /\ forkedBlock f' = forkedBlock f /\ firstBlock f' = firstBlock f }.

Lemma fork_like_refl f : fork_like f f.
Proof. by split. Qed.

Lemma last_ok_frame L z ph f f' : lastEpoch f' = lastEpoch f -> lastBlock f' = lastBlock f -> last_ok L z ph f -> last_ok L z ph f'.
Proof. unfold last_ok. by intros -> ->. Qed.

(** A state with the same layout. *)
Record state_like (s s' : RootChain) : Prop := {
  like_fork : fork_like (fork s 0) (fork s' 0);
  like_fields : currentFork s' = currentFork s /\ NRELength s' = NRELength s /\ length (EROs s') = length (EROs s) /\ ORBs s' = ORBs s /\
    firstFilledORENumber s' = firstFilledORENumber s /\ firstNonEmptyRequestEpoch s' = firstNonEmptyRequestEpoch s /\
    lastNonEmptyRequestEpoch s' = lastNonEmptyRequestEpoch s }.

Lemma Layout_like s s' z ph : state_like s s' -> Layout s z ph -> Layout s' z ph.
Proof.
  intros [[Hc Hn Hb (Hle & Hlb & Hfb & Hfi)] (Hcur & HL & HN & Ho & H1 & H2 & H3)] [Lf Lz Le Ll Lb Lr Lk].
  split; rewrite ?Hcur, ?HL, ?HN, ?Ho, ?H1, ?H2, ?H3, ?Hfb, ?Hfi; try done.
  - by eapply epochs_ok_frame.
  - by eapply last_ok_frame.
  - by eapply blocks_ok_frame.
  - by eapply links_ok_frame.
Qed.

(** ** Finalising blocks *)

Lemma doFinalizeBlock_block c b f b' :
  block (_doFinalizeBlock c b f) b' = if decide (b' = b) then (block f b) <| b_finalized := true |> <| b_finalizedAt := u64 (now c) |> else block f b'.
Proof. exact (block_set b (fun b => b <| b_finalized := true |> <| b_finalizedAt := u64 (now c) |>) f b'). Qed.

Lemma doFinalizeBlock_last c b f : 0 <= b < two64 -> lastFinalizedBlock (_doFinalizeBlock c b f) = b.
Proof. intros Hb. change (u64 b = b). by apply u64_small. Qed.

Lemma doFinalizeBlock_epoch c b f : 0 <= b_epochNumber (block f b) < two64 -> lastFinalizedEpoch (_doFinalizeBlock c b f) = b_epochNumber (block f b).
Proof.
  intros Hb. change (u64 (b_epochNumber (block (_doFinalizeBlock c b f) b)) = b_epochNumber (block f b)). rewrite doFinalizeBlock_block, decide_True by done.
  by apply u64_small.
Qed.

Lemma doFinalizeNRE_last c e f : 0 <= endBlockNumber (epoch f e) < two64 -> lastFinalizedBlock (_doFinalizeNRE c e f) = endBlockNumber (epoch f e).
Proof.
  intros He. change (u64 (endBlockNumber (epoch (set_epoch e (fun e => e <| NRE_finalized := true |> <| NRE_finalizedAt := u64 (now c) |>) f) e)) = endBlockNumber (epoch f e)).
  rewrite epoch_set, decide_True by done. by apply u64_small.
Qed.

Lemma doFinalizeBlock_like c b f : fork_like f (_doFinalizeBlock c b f).
Proof.
  split; try done. intros b'. rewrite doFinalizeBlock_block. by destruct (decide (b' = b)) as [->|].
Qed.

Lemma doFinalizeNRE_like c e f : fork_like f (_doFinalizeNRE c e f).
Proof.
  split; try done; intros i.
  - by apply (core_set_frame e (fun e => e <| NRE_finalized := true |> <| NRE_finalizedAt := u64 (now c) |>) f i).
  - transitivity (RE_nextEpoch (epoch (set_epoch e (fun e => e <| NRE_finalized := true |> <| NRE_finalizedAt := u64 (now c) |>) f) i)); [done|].
    rewrite epoch_set. by destruct (decide (i = e)) as [->|].
Qed.

(** The last block that is final, and the epoch it is of. *)
Definition finals_ok (L : Z) (z : list Z) (f : Fork) : Prop :=
  (lastFinalizedEpoch f = 0 /\ lastFinalizedBlock f = 0) \/
  (exists k, (k < length z)%nat /\ lastFinalizedEpoch f = 2 * Z.of_nat k + 1 /\ lastFinalizedBlock f = EB L z k + L /\ EB L z k + L <= lastBlock f) \/
  (exists k x j, z !! k = Some x /\ 0 <= j < nb x /\ lastFinalizedEpoch f = 2 * Z.of_nat (S k) /\ lastFinalizedBlock f = EB L z k + L + 1 + j /\
    EB L z k + L + 1 + j <= lastBlock f).

(** The request blocks up to it are marked. *)
Definition flags_ok (f : Fork) : Prop :=
  forall b, b_isRequest (block f b) = true -> b <= lastFinalizedBlock f -> b_finalized (block f b) = true.

Section Final.
Context (s : RootChain) (z : list Z) (ph : phase) (Hl : Layout s z ph) (Hs : small s z).
Abbreviation L := (NRELength s).
Abbreviation f := (fork s 0).

(** After the blocks of [k] request epochs there is an epoch 2k+1. *)
Lemma next_epoch_pos k : (k <= length z)%nat -> EB L z k < lastBlock f ->
  (k < length z)%nat /\ EB L z k + L <= lastBlock f /\ 2 * Z.of_nat k + 1 <= lastEpoch f /\ 2 * Z.of_nat k + 1 <= prepared z ph.
Proof.
  intros Hk Hlt. destruct (lay_z _ _ _ Hl) as [Hz0 Hz]. destruct Hs as ([HL _] & _).
  assert (forall k', (k' <= length z)%nat -> EB L z k < EB L z k' -> (k < k')%nat) as Hmono.
  { intros k' Hk' Hlt'. destruct (decide (k < k')%nat); [done|]. pose proof (EB_mono L z k' k ltac:(lia) Hz ltac:(lia)). lia. }
  pose proof (lay_last _ _ _ Hl) as Hlast. unfold last_ok in Hlast. destruct ph as [|t]; simpl.
  - destruct Hlast as [-> Hb]. rewrite Hb in *. pose proof (Hmono (length z - 1)%nat ltac:(lia) Hlt). pose proof (EB_lt L z k (length z - 1) ltac:(lia) Hz ltac:(lia)). lia.
  - destruct Hlast as (x & Hq & Hx & Ht & Hb & Hle). pose proof (EB_S L _ _ _ Hx) as HE. replace (S (length z - 1 - 1)) with (length z - 1)%nat in HE by lia.
    pose proof (Hmono (length z - 1)%nat ltac:(lia) ltac:(lia)). pose proof (EB_mono L z k (length z - 1 - 1) ltac:(lia) Hz ltac:(lia)).
    destruct (t =? 0); lia.
Qed.

Lemma nre_block_pos k b : (k < length z)%nat -> EB L z k < b <= EB L z k + L -> b_isRequest (block f b) = false.
Proof.
  intros Hk Hb. destruct (b_isRequest _) eqn:Hreq; [|done]. destruct (lay_only _ _ _ (lay_blocks _ _ _ Hl) _ Hreq) as (k2 & x & j & Hk2 & Hj & Heq & _).
  destruct (lay_z _ _ _ Hl) as [_ Hz]. destruct Hs as ([HL _] & _). apply lookup_lt_Some in Hk2 as Hlt. pose proof (EB_S L _ _ _ Hk2) as HE.
  destruct (decide (k <= k2)%nat).
  - pose proof (EB_mono L z k k2 ltac:(lia) Hz ltac:(lia)). lia.
  - pose proof (EB_mono L z (S k2) k ltac:(lia) Hz ltac:(lia)). lia.
Qed.

Lemma nre_is k : e_isRequest (epoch f (2 * Z.of_nat k + 1)) = false.
Proof. pose proof (lay_nre _ _ _ _ (lay_epochs _ _ _ Hl) k) as Hc. unfold nre_at in Hc. case_match; use_core Hc; done. Qed.

Lemma ore_is k : (k < length z)%nat -> e_isRequest (epoch f (2 * Z.of_nat (S k))) = true.
Proof.
  intros Hk. pose proof (lay_ore _ _ _ _ (lay_epochs _ _ _ Hl) k) as Hc. unfold ore_at in Hc. destruct (lookup_lt z k Hk) as [x Hx]. rewrite Hx in Hc. use_core Hc. done.
Qed.

(** The next block to finalise. *)
Lemma next_final : finals_ok L z f -> lastFinalizedBlock f < lastBlock f ->
  (exists k x j, z !! k = Some x /\ 0 <= j < nb x /\ lastFinalizedBlock f + 1 = EB L z k + L + 1 + j) \/
  (exists k, (k < length z)%nat /\ lastFinalizedBlock f = EB L z k /\ EB L z k + L <= lastBlock f /\ 2 * Z.of_nat k + 1 <= lastEpoch f /\
    2 * Z.of_nat k + 1 <= prepared z ph /\
    (lastFinalizedEpoch f = 2 * Z.of_nat k \/ lastFinalizedEpoch f = 2 * Z.of_nat k - 1 /\ (0 < k)%nat)).
Proof.
  intros Hf Hlt. destruct Hs as ([HL _] & _). destruct Hf as [[He Hb]|[(k & Hk & He & Hb & Hle)|(k & x & j & Hk & Hj & He & Hb & Hle)]].
  - right. exists 0%nat. rewrite EB_0. pose proof (next_epoch_pos 0 ltac:(lia)) as Hn. rewrite EB_0 in Hn. lia.
  - destruct (lookup_lt z k Hk) as [x Hx]. pose proof (EB_S L _ _ _ Hx) as HE. destruct (lay_z _ _ _ Hl) as [_ Hz]. pose proof (nb_bounds x (nonneg_lookup _ _ _ Hz Hx)).
    destruct (decide (0 < nb x)); [left; exists k, x, 0; split; [done|lia]|]. right. exists (S k). pose proof (next_epoch_pos (S k) ltac:(lia) ltac:(lia)). lia.
  - apply lookup_lt_Some in Hk as Hlk. pose proof (EB_S L _ _ _ Hk) as HE. destruct (decide (j + 1 < nb x)); [left; exists k, x, (j + 1); split; [done|lia]|].
    right. exists (S k). pose proof (next_epoch_pos (S k) ltac:(lia) ltac:(lia)). lia.
Qed.

Lemma final_bounds : finals_ok L z f -> 0 <= lastFinalizedBlock f <= lastBlock f /\ lastBlock f < 2 ^ 62 /\ 0 <= lastFinalizedEpoch f < 2 ^ 62.
Proof.
  intros Hf. pose proof (EB_bound s z ph Hl Hs) as HE. assert (0 <= lastBlock f < 2 ^ 62) as Hb.
  { pose proof (lay_last _ _ _ Hl) as Hlast. destruct (lay_z _ _ _ Hl) as [Hz0 _]. unfold last_ok in Hlast. destruct ph as [|t].
    - destruct Hlast as [_ ->]. pose proof (HE (length z - 1)%nat ltac:(lia)). lia.
    - destruct Hlast as (x & Hq & Hx & Ht & -> & _). pose proof (HE (length z - 1 - 1)%nat ltac:(lia)). pose proof (size_bound s z _ Hl Hs _ _ Hx).
      pose proof (nb_bounds x ltac:(lia)). destruct Hs as ([HL HL'] & _). lia. }
  destruct Hs as ([HL HL'] & Hz28 & _). destruct Hf as [[He Hf]|[(k & Hk & He & Hf & Hle)|(k & x & j & Hk & Hj & He & Hf & Hle)]].
  - lia.
  - pose proof (HE k ltac:(lia)). lia.
  - apply lookup_lt_Some in Hk. pose proof (HE k ltac:(lia)). lia.
Qed.

(** The loop finds the epoch 2k+1. *)
Lemma next_nre_ok k gas m : (k < length z)%nat -> zlen z <= 2 ^ 28 ->
  lastFinalizedEpoch f = 2 * Z.of_nat k \/ lastFinalizedEpoch f = 2 * Z.of_nat k - 1 /\ (0 < k)%nat ->
  next_nre gas f (u64 (lastFinalizedEpoch f + 1)) = Some m -> m = 2 * Z.of_nat k + 1.
Proof.
  intros Hk Hz28 Hle Hn. rewrite u64_small in Hn by (unfold is_u64; lia).
  assert (forall gas m, next_nre gas f (2 * Z.of_nat k + 1) = Some m -> m = 2 * Z.of_nat k + 1) as H1.
  { intros [|gas'] m'; simpl; [done|]. rewrite nre_is. congruence. }
  destruct Hle as [Hle|[Hle Hk0]]; rewrite Hle in Hn; [by eapply H1|]. destruct gas as [|gas]; [done|]. cbn [next_nre] in Hn.
  destruct k as [|k]; [lia|]. replace (2 * Z.of_nat (S k) - 1 + 1) with (2 * Z.of_nat (S k)) in Hn by lia. rewrite ore_is, u256_small in Hn by lia.
  by eapply H1.
Qed.

Lemma flags_block c : flags_ok f -> 0 <= lastFinalizedBlock f < 2 ^ 62 -> flags_ok (_doFinalizeBlock c (lastFinalizedBlock f + 1) f).
Proof.
  intros Hfl Hb b' Hreq Hle. rewrite doFinalizeBlock_block in *. rewrite doFinalizeBlock_last in Hle by lia. case_decide; [done|]. apply Hfl; [done|lia].
Qed.

(** What a step of finalisation does. *)
Lemma finalizeBlock_step c s' ok : finals_ok L z f -> flags_ok f -> _finalizeBlock c s = Some (s', ok) ->
  (s' = s /\ ok = false) \/
  (ok = true /\ exists f', s' = set_fork 0 f' s /\ fork_like f f' /\ finals_ok L z f' /\ flags_ok f' /\ lastFinalizedBlock f < lastFinalizedBlock f').
Proof.
  intros Hf Hfl. destruct (final_bounds Hf) as (Hb1 & Hb2 & Hb3). destruct (lay_fork _ _ _ Hl) as (Hcur & Hfk & Hfst). unfold _finalizeBlock. rewrite Hcur, Hfk, Hfst.
  cbn [Z.eqb negb]. rewrite u64_small by (unfold is_u64; lia). rewrite Z.max_r by lia.
  destruct (Z.ltb_spec (lastBlock f) (lastFinalizedBlock f + 1)) as [Hlt|Hge]; [by intros [= <- <-]; left|].
  rewrite (lay_unchallenged _ _ _ (lay_blocks _ _ _ Hl)). destruct (next_final Hf ltac:(lia)) as [(k & x & j & Hk & Hj & Hn)|(k & Hk & Hn & Hle & Hle2 & Hp & He)].
  - destruct (lay_block _ _ _ (lay_blocks _ _ _ Hl) k x j Hk Hj ltac:(lia)) as (Hreq & _ & Hep & _). rewrite <-Hn in Hreq, Hep. rewrite Hreq.
    destruct (now c <? _); [by intros [= <- <-]; left|]. intros [= <- <-]. right. split; [done|]. eexists. split; [done|].
    split; [apply doFinalizeBlock_like|]. apply lookup_lt_Some in Hk as Hlk. destruct Hs as (_ & Hz28 & _).
    split; [|split; [apply flags_block; [done|lia]|rewrite doFinalizeBlock_last by lia; lia]].
    right. right. exists k, x, j. rewrite doFinalizeBlock_last, doFinalizeBlock_epoch by (rewrite ?Hep; lia). change (lastBlock _) with (lastBlock f). split_and!; try done; lia.
  - destruct Hs as (HL & Hz28 & _). rewrite (nre_block_pos k) by (done || lia). destruct (next_nre _ _ _) as [m|] eqn:Hnre; [|done]. cbn [mbind option_bind].
    apply (next_nre_ok k) in Hnre as ->; [|done..]. destruct (_checkFinalizableNRE _ _ _); [|by intros [= <- <-]; left].
    intros [= <- <-]. right. split; [done|]. eexists. split; [done|]. split; [apply doFinalizeNRE_like|].
    pose proof (lay_nre _ _ _ _ (lay_epochs _ _ _ Hl) k) as Hc. unfold nre_at in Hc. destruct (Z.leb_spec (2 * Z.of_nat k + 1) (prepared z ph)); [|lia].
    use_core Hc. split; [|split].
    + right. left. exists k. rewrite doFinalizeNRE_last by lia. split; [done|]. split; [apply u64_small; unfold is_u64; lia|done].
    + intros b Hreq Hb. rewrite doFinalizeNRE_last in Hb by lia. apply Hfl; [done|]. destruct (decide (EB L z k < b)); [|lia].
      change (b_isRequest (block f b) = true) in Hreq. rewrite (nre_block_pos k) in Hreq by (done || lia). done.
    + rewrite doFinalizeNRE_last by lia. lia.
Qed.
End Final.

(** ** Submitting a non-request epoch *)

Section SubmitNRE.
Context (s : RootChain) (z : list Z) (ph : phase) (Hl : Layout s z ph) (Hs : small s z).
Abbreviation L := (NRELength s).
Abbreviation f := (fork s 0).
Abbreviation q := (length z - 1)%nat.

(** The numbers of the last epoch and block. *)
Lemma last_bounds : 0 <= lastEpoch f < 2 ^ 62 /\ 0 <= lastBlock f < 2 ^ 62 /\ 2 * zlen z - 3 <= lastEpoch f <= 2 * zlen z - 2.
Proof.
  destruct (lay_z _ _ _ Hl) as [Hz0 _]. pose proof (EB_bound s z ph Hl Hs) as HE. pose proof (lay_last _ _ _ Hl) as Hlast.
  destruct Hs as ([HL HL'] & Hz28 & _). unfold last_ok in Hlast. destruct ph as [|t].
  - destruct Hlast as [-> ->]. pose proof (HE q ltac:(lia)). lia.
  - destruct Hlast as (x & Hq & Hx & Ht & -> & ->). pose proof (HE (q - 1)%nat ltac:(lia)). pose proof (size_bound s z _ Hl Hs _ _ Hx).
    pose proof (nb_bounds x ltac:(lia)). destruct (t =? 0); lia.
Qed.

Lemma insertNRE_ok now e r1 r2 r3 a b f' : insertNRE now e r1 r2 r3 a b f = Some f' ->
  ph = Rest /\ e = 2 * Z.of_nat q + 1 /\ b = EB L z q + L /\ (forall i, core (epoch f' i) = core (epoch f i)) /\
  (forall i, RE_nextEpoch (epoch f' i) = RE_nextEpoch (epoch f i)) /\ blocks f' = blocks f /\ lastEpoch f' = e /\ lastBlock f' = b /\
  forkedBlock f' = forkedBlock f /\ firstBlock f' = firstBlock f /\ lastFinalizedEpoch f' = lastFinalizedEpoch f /\ lastFinalizedBlock f' = lastFinalizedBlock f.
Proof.
  intros Hi. destruct last_bounds as (He & Hb & _). destruct (lay_z _ _ _ Hl) as [Hz0 _]. unfold insertNRE in Hi. rewrite !add_Some in Hi by lia. cbn [mbind option_bind] in Hi. guards. subst e a. apply (inj Some) in Hi.
  pose proof (lay_last _ _ _ Hl) as Hlast. destruct ph as [|t]; unfold last_ok in Hlast.
  - destruct Hlast as [HlE HlB]. pose proof (lay_nre _ _ _ _ (lay_epochs _ _ _ Hl) q) as Hc. unfold nre_at in Hc. simpl in Hc.
    destruct (Z.leb_spec (2 * Z.of_nat q + 1) (2 * zlen z - 1)); [|lia]. rewrite <-HlE in Hc. use_core Hc. subst b.
    pose proof (EB_bound s z _ Hl Hs q ltac:(lia)). destruct Hs as ([HL HL'] & _). rewrite HlE in *. split_and!; try done; try lia.
    + intros i. rewrite <-Hi. by apply (core_set_frame (2 * Z.of_nat q + 1) (fun e => e <| NRE_epochStateRoot := r1 |> <| NRE_epochTransactionsRoot := r2 |>
        <| NRE_epochReceiptsRoot := r3 |> <| NRE_submittedAt := u64 now |>) f i).
    + intros i. rewrite <-Hi. by apply (next_set_frame (2 * Z.of_nat q + 1) (fun e => e <| NRE_epochStateRoot := r1 |> <| NRE_epochTransactionsRoot := r2 |>
        <| NRE_epochReceiptsRoot := r3 |> <| NRE_submittedAt := u64 now |>) f i).
    + by rewrite <-Hi.
    + rewrite <-Hi. apply u64_small. unfold is_u64. lia.
    + rewrite <-Hi. cbn. rewrite Fend. apply u64_small. unfold is_u64. lia.
    + by rewrite <-Hi.
    + by rewrite <-Hi.
    + by rewrite <-Hi.
    + by rewrite <-Hi.
  - exfalso. destruct Hlast as (x & Hq & Hx & Ht & HlB & HlE). destruct (t =? 0) eqn:Ht0.
    + rewrite HlE in *. replace (2 * Z.of_nat q - 1 + 1) with (2 * Z.of_nat (S (q - 1))) in * by lia. rewrite (ore_is s z _ Hl) in * by lia. done.
    + pose proof (lay_nre _ _ _ _ (lay_epochs _ _ _ Hl) q) as Hc. unfold nre_at in Hc. simpl in Hc.
      destruct (Z.leb_spec (2 * Z.of_nat q + 1) (2 * zlen z - 2)); [lia|]. rewrite <-HlE in Hc. use_core Hc. lia.
Qed.
End SubmitNRE.

Lemma commit_same c s s' : commit c s = Some s' -> s' = s.
Proof. unfold commit. destruct (_ =? 0); [by intros [= <-]|]. destruct (onCommit c); [|done]. cbn [mbind option_bind]. intros H. guards. by injection H as <-. Qed.

Lemma rc_frame_fields s s' : rc_frame s' = rc_frame s ->
  currentFork s' = currentFork s /\ NRELength s' = NRELength s /\ EROs s' = EROs s /\ development s' = development s /\ requestableContracts s' = requestableContracts s /\
  EROIdToFinalize s' = EROIdToFinalize s /\ lastAppliedForkNumber s' = lastAppliedForkNumber s /\ lastAppliedEpochNumber s' = lastAppliedEpochNumber s /\
  lastAppliedBlockNumber s' = lastAppliedBlockNumber s.
Proof.
  intros H. pose proof (f_equal currentFork H). pose proof (f_equal NRELength H). pose proof (f_equal EROs H). pose proof (f_equal development H).
  pose proof (f_equal requestableContracts H). pose proof (f_equal EROIdToFinalize H). pose proof (f_equal lastAppliedForkNumber H).
  pose proof (f_equal lastAppliedEpochNumber H). pose proof (f_equal lastAppliedBlockNumber H). done.
Qed.

(** A longer list of epochs. *)
Lemma finals_ok_app L z y f f' :
  lastFinalizedEpoch f' = lastFinalizedEpoch f -> lastFinalizedBlock f' = lastFinalizedBlock f -> lastBlock f <= lastBlock f' ->
  finals_ok L z f -> finals_ok L (z ++ y) f'.
Proof.
  intros He Hb Hle. unfold finals_ok. rewrite He, Hb. intros [?|[(k & Hk & ? & ? & ?)|(k & x & j & Hk & ? & ? & ? & ?)]]; [by left|..]; right.
  - left. exists k. rewrite EB_app, length_app by lia. split_and!; try done; lia.
  - right. exists k, x, j. apply lookup_lt_Some in Hk as Hlt. rewrite EB_app, lookup_app_l by lia. split_and!; try done; lia.
Qed.

Lemma blocks_ok_nre L z x f f' : 1 <= L -> nonneg z -> 0 <= x -> (0 < length z)%nat -> blocks_ok L z f -> lastBlock f = EB L z (length z - 1) -> blocks f' = blocks f ->
  lastBlock f' = EB L z (length z - 1) + L -> blocks_ok L (z ++ [x]) f'.
Proof.
  intros HL Hz Hx Hz0 [H1 H2 H3] Hb Hbs Hb'. assert (forall b, block f' b = block f b) as Hbl by (intros b; unfold block; by rewrite Hbs).
  assert (nonneg (z ++ [x])) as Hz' by (apply Forall_app; split; [done|by constructor]).
  split; rewrite ?Hb'.
  - intros k y j Hk Hj Hle. rewrite Hbl. destruct (decide (k < length z - 1)%nat) as [Hlt|Hge].
    + rewrite lookup_app_l in Hk by lia. rewrite EB_app in * by lia. unfold block_at. rewrite B_app by lia. apply (H1 k y j Hk Hj).
      pose proof (EB_S L _ _ _ Hk). pose proof (EB_mono L z (S k) (length z - 1) ltac:(lia) Hz ltac:(lia)). lia.
    + apply lookup_lt_Some in Hk as Hlt. pose proof (EB_mono L (z ++ [x]) (length z - 1) k ltac:(lia) Hz' ltac:(lia)) as Hm.
      rewrite EB_app in Hm by lia. lia.
  - intros b. rewrite Hbl. intros Hreq. destruct (H2 b Hreq) as (k & y & j & Hk & Hj & -> & Hle). exists k, y, j. apply lookup_lt_Some in Hk as Hlt.
    rewrite lookup_app_l, EB_app by lia. split_and!; try done; lia.
  - intros b. by rewrite Hbl.
Qed.

Lemma last_ok_nre L z x xq f : z !! (length z - 1)%nat = Some xq -> 0 <= xq -> lastBlock f = EB L z (length z - 1) + L ->
  lastEpoch f = (if xq =? 0 then 2 * zlen z else 2 * zlen z - 1) -> last_ok L (z ++ [x]) (if xq =? 0 then Rest else Submitting 0) f.
Proof.
  intros Hq Hxq Hb He. apply lookup_lt_Some in Hq as Hlt. pose proof (EB_S L _ _ _ Hq) as HE. replace (S (length z - 1)) with (length z) in HE by lia.
  assert ((length (z ++ [x]) - 1)%nat = length z) as Hlen by (rewrite length_app; simpl; lia). unfold last_ok.
  destruct (Z.eqb_spec xq 0) as [->|Hne]; rewrite Hlen, ?He, ?Hb, EB_app by lia.
  - rewrite HE, nb_0. lia.
  - pose proof (nb_spec xq Hxq). exists xq. rewrite lookup_app_l by lia. split_and!; try done; simpl; lia.
Qed.

Lemma next_size_nonneg z N : 0 <= rest z N -> 0 <= next_size z N.
Proof. unfold next_size. by destruct (_ || _). Qed.

Lemma handleSubmitNRE_ok c p1 p2 r1 r2 r3 s s' z ph : Layout s z ph -> small s z -> handleSubmitNRE c p1 p2 r1 r2 r3 s = Some s' ->
  ph = Rest /\ rc_frame s' = rc_frame s /\ blocks (fork s' 0) = blocks (fork s 0) /\
  lastBlock (fork s 0) = EB (NRELength s) z (length z - 1) /\ lastBlock (fork s' 0) = EB (NRELength s) z (length z - 1) + NRELength s /\
  lastFinalizedEpoch (fork s' 0) = lastFinalizedEpoch (fork s 0) /\ lastFinalizedBlock (fork s' 0) = lastFinalizedBlock (fork s 0) /\
  exists x ph', Layout s' (z ++ [x]) ph'.
Proof.
  intros Hl Hs. unfold handleSubmitNRE. destruct (decodePos p1) as [fk e], (decodePos p2) as [a b]. intros H. guards.
  destruct (lay_fork _ _ _ Hl) as (Hcur & Hfk & Hfst). rewrite Hcur in *. subst fk. destruct (insertNRE _ _ _ _ _ _ _ _) as [f1|] eqn:Hi; [|done]. cbn [mbind option_bind] in H.
  apply (insertNRE_ok s z ph Hl Hs) in Hi as (-> & -> & -> & Hc & Hnx & Hbs & HlE & HlB & Hfk1 & Hfst1 & Hfe & Hfb). split; [done|].
  destruct (lay_z _ _ _ Hl) as [Hz0 Hz]. destruct (lookup_lt z (length z - 1)) as [xq Hq]; [lia|]. set (s1 := set_fork 0 f1 s) in *.
  assert (fork s1 0 = f1) as Hf1 by (unfold s1; rewrite fork_set; by case_decide). destruct Hl as [_ _ Le [Ll Ll'] Lb Lr Lk].
  destruct (prepareORE_ok c s1 z xq) as (s2 & Hp & Hfr & He' & Hff & HlE' & Ho' & Hk'); try rewrite Hf1; try done.
  { by eapply epochs_ok_frame. } { rewrite HlE. lia. } { by eapply links_ok_frame. }
  rewrite Hp in H. cbn [mbind option_bind] in H. apply commit_same in H as ->. rewrite Hf1 in *. injection Hff as Hff1 Hff2 Hff3 Hff4 Hff5 Hff6.
  destruct Hs as (HL & ? & ?). split_and!; [done|congruence|done|congruence..|].
  exists (next_size z (zlen (EROs s))), (if xq =? 0 then Rest else Submitting 0). apply rc_frame_fields in Hfr as (Hfcur & HfL & HfE & _).
  change (currentFork s1) with (currentFork s) in Hfcur. change (NRELength s1) with (NRELength s) in *. change (EROs s1) with (EROs s) in *.
  split; rewrite ?Hfcur, ?HfL, ?HfE; try done.
  - split_and!; try done; congruence.
  - split; [rewrite length_app; lia|]. apply Forall_app. split; [done|]. constructor; [|done]. apply next_size_nonneg. apply Lr.
  - apply last_ok_nre; try done; [by eapply nonneg_lookup|congruence].
  - eapply blocks_ok_nre; try done; try congruence; [lia|]. apply next_size_nonneg. apply Lr.
Qed.

(** ** Submitting a request block *)

Definition new_block (now epochNumber id : Z) (r1 r2 r3 : bytes) (b : PlasmaBlock) : PlasmaBlock :=
  b <| b_epochNumber := epochNumber |> <| statesRoot := r1 |> <| transactionsRoot := r2 |> <| receiptsRoot := r3 |> <| b_timestamp := u64 now |>
    <| b_isRequest := true |> <| b_userActivated := false |> <| requestBlockId := id |>.

Section SubmitORB.
Context (s : RootChain) (z : list Z) (ph : phase) (Hl : Layout s z ph) (Hs : small s z).
Abbreviation L := (NRELength s).
Abbreviation f := (fork s 0).
Abbreviation q := (length z - 1)%nat.

(** The epoch that takes the next block. *)
Lemma submitting_epoch t : ph = Submitting t -> exists x, (0 < q)%nat /\ z !! (q - 1)%nat = Some x /\ 0 <= t < nb x /\ lastBlock f = EB L z (q - 1) + L + t /\
  lastEpoch f = (if t =? 0 then 2 * Z.of_nat q - 1 else 2 * Z.of_nat q) /\ EB L z q = EB L z (q - 1) + L + nb x /\
  core (epoch f (2 * Z.of_nat q)) = mkCore (EB L z (q - 1) + L + 1) (EB L z q) false true true (C z (q - 1)) (Z.max 0 (C z q - 1)) (B z (q - 1)).
Proof.
  intros ->. destruct (lay_last _ _ _ Hl) as (x & Hq & Hx & Ht & HlB & HlE). exists x. pose proof (EB_S L _ _ _ Hx) as HE. replace (S (q - 1)) with q in HE by lia.
  split_and!; try done; try lia. pose proof (lay_ore _ _ _ _ (lay_epochs _ _ _ Hl) (q - 1)) as Hc. unfold ore_at in Hc. rewrite Hx in Hc. simpl prepared in Hc.
  replace (S (q - 1)) with q in Hc by lia. destruct (Z.leb_spec (2 * Z.of_nat q) (2 * zlen z - 2)); [|lia]. destruct (Z.eqb_spec x 0) as [->|]; [rewrite nb_0 in Ht; lia|]. done.
Qed.

(** The end of the last epoch, if a block of it was submitted last. *)
Lemma last_end : match ph with
  | Rest => endBlockNumber (epoch f (lastEpoch f)) = lastBlock f
  | Submitting t => if t =? 0 then endBlockNumber (epoch f (lastEpoch f)) = lastBlock f else lastBlock f < endBlockNumber (epoch f (lastEpoch f)) <= EB L z q
  end.
Proof.
  destruct (lay_z _ _ _ Hl) as [Hz0 Hz]. pose proof (lay_last _ _ _ Hl) as Hlast. pose proof (lay_epochs _ _ _ Hl) as He. pose proof submitting_epoch as Hsub. destruct ph as [|t].
  - destruct Hlast as [-> ->]. destruct q as [|k] eqn:Hk; [pose proof (lay_genesis _ _ _ _ He) as Hc; use_core Hc; by rewrite EB_0|].
    pose proof (lay_ore _ _ _ _ He k) as Hc. unfold ore_at in Hc. destruct (lookup_lt z k) as [x Hx]; [lia|]. rewrite Hx in Hc. simpl prepared in Hc.
    destruct (Z.leb_spec (2 * Z.of_nat (S k)) (2 * zlen z - 1)); [|lia]. use_core Hc. done.
  - destruct (Hsub t eq_refl) as (x & Hq & Hx & Ht & -> & -> & HE & Hc). destruct (Z.eqb_spec t 0) as [->|Ht0]; [|use_core Hc; lia].
    pose proof (lay_nre _ _ _ _ He (q - 1)) as Hn. unfold nre_at in Hn. replace (2 * Z.of_nat (q - 1) + 1) with (2 * Z.of_nat q - 1) in Hn by lia. simpl prepared in Hn.
    destruct (Z.leb_spec (2 * Z.of_nat q - 1) (2 * zlen z - 2)); [|lia]. use_core Hn. lia.
Qed.

(** The epoch of the next block. *)
Lemma target_epoch t : ph = Submitting t ->
  (if lastBlock f + 1 =? u64 (endBlockNumber (epoch f (lastEpoch f)) + 1) then (f <| lastEpoch := u64 (lastEpoch f + 1) |>, u256 (lastEpoch f + 1)) else (f, lastEpoch f)) =
  (f <| lastEpoch := 2 * Z.of_nat q |>, 2 * Z.of_nat q).
Proof.
  intros Hph. destruct (submitting_epoch t Hph) as (x & Hq & Hx & Ht & HlB & HlE & HE & Hc). pose proof last_end as Hend. rewrite Hph in Hend.
  destruct (last_bounds s z ph Hl Hs) as (Hb1 & Hb2 & _). pose proof (EB_bound s z ph Hl Hs q ltac:(lia)). destruct (Z.eqb_spec t 0) as [Ht0|Ht0].
  - rewrite Hend, (u64_small (lastBlock f + 1)), Z.eqb_refl, u64_small, u256_small, HlE by (unfold is_u64; lia). by replace (2 * Z.of_nat q - 1 + 1) with (2 * Z.of_nat q) by lia.
  - rewrite u64_small by (unfold is_u64; lia). destruct (Z.eqb_spec (lastBlock f + 1) (endBlockNumber (epoch f (lastEpoch f)) + 1)); [lia|]. rewrite <-HlE. by destruct f.
Qed.

Lemma insertBlock_ok now r1 r2 r3 f' en bn : insertBlock now r1 r2 r3 true false false f = Some (f', (en, bn)) ->
  exists t, ph = Submitting t /\ en = 2 * Z.of_nat q /\ bn = lastBlock f + 1 /\
    f' = (set_block bn (new_block now en (B z (q - 1) + t) r1 r2 r3) (f <| lastEpoch := en |>)) <| lastBlock := bn |>.
Proof.
  destruct (last_bounds s z ph Hl Hs) as (Hb1 & Hb2 & _). destruct (lay_z _ _ _ Hl) as [Hz0 Hz]. unfold insertBlock. rewrite add_Some by lia. cbn [mbind option_bind]. intros Hi.
  pose proof last_end as Hend. assert (ph = Rest \/ exists t, ph = Submitting t) as [Hph|[t Hph]] by (destruct ph; [by left|right; by eexists]); rewrite Hph in Hend.
  - exfalso. pose proof (lay_last _ _ _ Hl) as Hlast. rewrite Hph in Hlast. destruct Hlast as [HlE HlB].
    rewrite Hend, (u64_small (lastBlock f + 1)), Z.eqb_refl, u256_small, HlE in Hi by (unfold is_u64; lia). guards.
    match goal with H : eqb (e_isRequest _) _ = true |- _ => apply eqb_prop in H; change (e_isRequest (epoch f (2 * Z.of_nat q + 1)) = true) in H; by rewrite (nre_is s z ph Hl) in H end.
  - destruct (submitting_epoch t Hph) as (x & Hq & Hx & Ht & HlB & HlE & HE & Hc). exists t. split; [done|].
    pose proof (EB_bound s z ph Hl Hs q ltac:(lia)). pose proof (EB_bound s z ph Hl Hs (q - 1)%nat ltac:(lia)). pose proof (B_bound s z ph Hl Hs (q - 1)%nat ltac:(lia)).
    destruct Hs as (HL & Hz28 & HN28). assert (nb x <= 2 ^ 28).
    { pose proof (size_bound s z ph Hl ltac:(done) _ _ Hx) as Hsz. pose proof (nb_bounds x ltac:(lia)). lia. }
    rewrite (target_epoch t Hph) in Hi. guards. change (epoch _ _) with (epoch f (2 * Z.of_nat q)) in Hi. use_core Hc. rewrite Ffb, Fstart in Hi. apply (inj Some) in Hi.
    injection Hi as Hf Hen Hbn. rewrite <-Hf, <-Hen, <-Hbn. split_and!; [done|done|].
    rewrite !u64_small by (unfold is_u64; lia). by replace (B z (q - 1) + (lastBlock f + 1) - (EB L z (q - 1) + L + 1)) with (B z (q - 1) + t) by lia.
Qed.
End SubmitORB.

(** The block after the last one. *)
Lemma blocks_ok_orb L z f f' k x j bk : nonneg z -> 1 <= L -> z !! k = Some x -> 0 <= j < nb x -> lastBlock f + 1 = EB L z k + L + 1 + j ->
  blocks_ok L z f -> (forall b, block f' b = if decide (b = lastBlock f + 1) then bk else block f b) -> lastBlock f' = lastBlock f + 1 -> block_at k j z bk -> b_challenging bk = false ->
  blocks_ok L z f'.
Proof.
  intros Hz HL Hk Hj Hlb [H1 H2 H3] Hbl Hlb' Hbk Hch. split; rewrite ?Hlb'.
  - intros k' x' j' Hk' Hj' Hle. rewrite Hbl. case_decide as Heq; [|apply (H1 k' x' j'); [done|done|lia]].
    assert (k' = k) as ->; [|assert (j' = j) as -> by lia; done]. pose proof (EB_S L _ _ _ Hk). pose proof (EB_S L _ _ _ Hk').
    apply lookup_lt_Some in Hk, Hk'. apply (prefix_unique (EB L) z k' k (EB L z k' + L + j') (EB L z k + L + j)); try lia. intros a b Hab. apply EB_mono; [lia|done|done].
  - intros b. rewrite Hbl. case_decide as Heq.
    + intros _. exists k, x, j. split_and!; try done; lia.
    + intros Hreq. destruct (H2 b Hreq) as (k' & x' & j' & ? & ? & ? & ?). exists k', x', j'. split_and!; try done; lia.
  - intros b. rewrite Hbl. by case_decide.
Qed.

Lemma flags_ok_orb f f' bk : flags_ok f -> lastFinalizedBlock f <= lastBlock f -> lastFinalizedBlock f' = lastFinalizedBlock f ->
  (forall b, block f' b = if decide (b = lastBlock f + 1) then bk else block f b) -> flags_ok f'.
Proof. intros Hf Hle Hlf Hbl b. rewrite Hbl, Hlf. case_decide; [lia|]. apply Hf. Qed.

(** One block more; the next epoch is prepared after the last one. *)
Lemma orb_step c s z t f2 s' : Layout s z (Submitting t) -> small s z -> let b := lastBlock (fork s 0) + 1 in
  (forall i, core (epoch f2 i) = core (epoch (fork s 0) i)) -> (forall i, RE_nextEpoch (epoch f2 i) = RE_nextEpoch (epoch (fork s 0) i)) ->
  blocks_ok (NRELength s) z f2 -> lastEpoch f2 = 2 * Z.of_nat (length z - 1) -> lastBlock f2 = b -> forkedBlock f2 = 0 -> firstBlock f2 = 0 ->
  (if b =? endBlockNumber (epoch f2 (2 * Z.of_nat (length z - 1))) then prepareNRE c (set_fork 0 f2 s) else Some (set_fork 0 f2 s)) = Some s' ->
  exists ph', Layout s' z ph' /\ rc_frame s' = rc_frame s /\ ORBs s' = ORBs s /\ fork_frame (fork s' 0) = fork_frame f2.
Proof.
  intros Hl Hs b Hc Hnx Hbo HlE HlB Hfk Hfst. destruct (submitting_epoch s z _ Hl t eq_refl) as (x & Hq & Hx & Ht & HlB0 & _ & HE & Hce).
  rewrite <-Hc in Hce. use_core Hce. rewrite Fend. set (s2 := set_fork 0 f2 s). assert (fork s2 0 = f2) as Hf2 by (unfold s2; rewrite fork_set; by case_decide).
  pose proof (EB_bound s z _ Hl Hs (length z - 1) ltac:(lia)). destruct Hl as [Lf [Hz0 Lz] Le Ll Lb Lr Lk]. destruct Hs as (HL & Hz28 & _).
  assert (epochs_ok (NRELength s) z (Submitting (t + 1)) f2) as He2 by (eapply epochs_ok_frame; [done|]; destruct Le as [E0 E1 E2]; by split).
  destruct (Z.eqb_spec b (EB (NRELength s) z (length z - 1))) as [Hb|Hb].
  - destruct (prepareNRE_ok c s2 z (t + 1)) as (f' & -> & He' & Hff & HlE' & Hnx'); rewrite ?Hf2; change (NRELength s2) with (NRELength s); try done; try lia; [apply Lf|].
    intros Heq. apply (inj Some) in Heq as <-. exists Rest. assert (fork (set_fork 0 f' s2) 0 = f') as Hf' by (rewrite fork_set; by case_decide).
    rewrite Hf' in *. split; [|by rewrite Hf2 in Hff]. rewrite Hf2 in *. injection Hff as ? ? ? ? ? ?. split; rewrite ?Hf'; try done.
    + split_and!; try done; [apply Lf|congruence..].
    + split; [congruence|]. change (NRELength (set_fork 0 f' s2)) with (NRELength s). lia.
    + eapply blocks_ok_frame, Hbo; [|congruence]. intros i. unfold block. by replace (blocks f') with (blocks f2).
    + eapply links_ok_frame, Lk. intros i. by rewrite Hnx', Hnx.
  - intros Heq. apply (inj Some) in Heq as <-. exists (Submitting (t + 1)). split; [|by rewrite Hf2]. split; rewrite ?Hf2; try done.
    + split_and!; try done. apply Lf.
    + exists x. destruct (Z.eqb_spec (t + 1) 0); [lia|]. change (NRELength s2) with (NRELength s). split_and!; try done; try lia.
    + by eapply links_ok_frame.
Qed.

Lemma handleSubmitORB_ok keccak c p r1 r2 r3 s s' z ph : Layout s z ph -> small s z -> handleSubmitORB keccak c p r1 r2 r3 s = Some s' ->
  let b := lastBlock (fork s 0) + 1 in
  exists t ph' orb, ph = Submitting t /\ Layout s' z ph' /\ rc_frame s' = rc_frame s /\ ORBs s' = ORBs s /\ lastBlock (fork s' 0) = b /\
    lastFinalizedEpoch (fork s' 0) = lastFinalizedEpoch (fork s 0) /\ lastFinalizedBlock (fork s' 0) = lastFinalizedBlock (fork s 0) /\
    ORBs s !! Z.to_nat (B z (length z - 2) + t) = Some orb /\
    (development s = false -> _checkTxRoot keccak r2 orb (EROs s) false = Some tt) /\
    forall i, block (fork s' 0) i =
      if decide (i = b) then new_block (now c) (2 * Z.of_nat (length z - 1)) (B z (length z - 2) + t) r1 r2 r3 (block (fork s 0) b) else block (fork s 0) i.
Proof.
  intros Hl Hs. unfold handleSubmitORB. destruct (decodePos p) as [fk e0]. intros H. guards.
  destruct (lay_fork _ _ _ Hl) as (Hcur & Hfk & Hfst). rewrite Hcur in *. subst fk. cbn [Z.eqb orb] in H.
  destruct (insertBlock _ _ _ _ _ _ _ _) as [[f1 [en bn]]|] eqn:Hi; [|done]. cbn [mbind option_bind] in H.
  apply (insertBlock_ok s z ph Hl Hs) in Hi as (t & Hph & -> & -> & Hf1). exists t.
  destruct (submitting_epoch s z ph Hl t Hph) as (x & Hq & Hx & Ht & HlB & HlE & HE & Hc). replace (length z - 1 - 1)%nat with (length z - 2)%nat in * by lia.
  set (bn := lastBlock (fork s 0) + 1) in *. set (nbk := new_block (now c) (2 * Z.of_nat (length z - 1)) (B z (length z - 2) + t) r1 r2 r3) in *.
  assert (forall i, block f1 i = if decide (i = bn) then nbk (block (fork s 0) bn) else block (fork s 0) i) as Hb1 by (intros i; rewrite Hf1; exact (block_set bn nbk (fork s 0) i)).
  assert (lastBlock f1 = bn) as Hlb1 by (by rewrite Hf1). rewrite Hlb1, Hb1, decide_True in H by done. change (requestBlockId (nbk _)) with (B z (length z - 2) + t) in H.
  destruct (ORBs s !! Z.to_nat (B z (length z - 2) + t)) as [orb|] eqn:Horb; [|by destruct (development s)].
  assert (development s = false -> _checkTxRoot keccak r2 orb (EROs s) false = Some tt) as Hroot.
  { intros Hd. rewrite Hd in H. cbn [mbind option_bind] in H. by destruct (_checkTxRoot keccak r2 orb (EROs s) false) as [[]|]. }
  assert (exists s2, (let f2 := set_epoch (2 * Z.of_nat (length z - 1)) (fun e => e <| RE_numEnter := u64 (RE_numEnter e + numEnter orb) |>) f1 in
    if bn =? endBlockNumber (epoch f2 (2 * Z.of_nat (length z - 1))) then prepareNRE c (set_fork 0 f2 s) else Some (set_fork 0 f2 s)) = Some s2 /\ commit c s2 = Some s') as (s2 & Hs2 & Hcm).
  { destruct (if development s then Some () else _) as [[]|]; [|done]. cbn [mbind option_bind] in H. cbv zeta. by destruct (if bn =? _ then _ else _) as [s2|]; [exists s2|]. }
  apply commit_same in Hcm as ->. rewrite Hph in *.
  apply (orb_step c s z t) in Hs2 as (ph' & Hl' & Hfr & Ho & Hff); try done.
  - injection Hff as ? ? ? ? ? Hbs. exists ph', orb. rewrite Hf1 in *. split_and!; try done. intros i. rewrite <-Hb1. unfold block. by rewrite Hbs.
  - intros i. etransitivity; [by apply (core_set_frame (2 * Z.of_nat (length z - 1)) (fun e => e <| RE_numEnter := u64 (RE_numEnter e + numEnter orb) |>) f1 i)|by rewrite Hf1].
  - intros i. etransitivity; [by apply (next_set_frame (2 * Z.of_nat (length z - 1)) (fun e => e <| RE_numEnter := u64 (RE_numEnter e + numEnter orb) |>) f1 i)|by rewrite Hf1].
  - destruct (lay_z _ _ _ Hl) as [_ Hz]. destruct Hs as ([HL _] & _).
    apply (blocks_ok_orb _ z (fork s 0) _ (length z - 2) x t (nbk (block (fork s 0) bn))); try done; [lia|apply Hl| |apply Hl].
    unfold block_at. replace (S (length z - 2)) with (length z - 1)%nat by lia. done.
  - by rewrite Hf1.
  - by rewrite Hf1.
  - by rewrite Hf1.
Qed.
