(* ===== verification/RootChainInv.v ===== *)
(** * The root chain contract: the invariant of its states
    Every call keeps the layout, the numbers of the last final block and of the
    last request that was finalised, the hashes of requests and the roots of
    request blocks. *)

From S2P Require Import Prelude MathUtil Solidity RecordUpdate BinaryMerkle PlasmaTx RootChainData RootChain RootChainLayout RootChainCalls.

Section Invariant.
Variable keccak : bytes -> bytes.

(** ** Its parts *)

(** A request has the hash of its transaction on the child chain. *)
Definition request_inv (contracts : gmap Address Address) (i : nat) (r : Request) : Prop :=
  0 <= r_value r < two128 /\ is_addr (requestor r) /\ length (trieKey r) = 32%nat /\ zlen (trieValue r) <= 1024 /\
  (isTransfer r && negb (isExit r) = false -> at_ contracts (r_to r) <> 0) /\
  exists past child, toChildChainRequest r (at_ contracts (r_to r)) past = Some child /\ TX_hash keccak (toTX keccak child (Z.of_nat i) false) = Some (r_hash r).

Definition requests_inv (s : RootChain) : Prop := forall i r, EROs s !! i = Some r -> request_inv (requestableContracts s) i r.

(** The requests before the next one to finalise are final. *)
Definition flags_inv (s : RootChain) : Prop :=
  0 <= EROIdToFinalize s <= zlen (EROs s) /\ forall i r, EROs s !! i = Some r -> r_finalized r = (Z.of_nat i <? EROIdToFinalize s).

Definition applied (r : Request) : bool := isExit r && negb (r_challenged r).

(** What was finalised: each request once and in order, and exits that nobody
    challenged were applied. *)
Definition trace_inv (s : RootChain) (tr : list finalization) : Prop :=
  zlen tr = EROIdToFinalize s /\
  forall i x, tr !! i = Some x -> exists r, EROs s !! i = Some r /\ x = mkFinalization false (Z.of_nat i) (applied r).

(** Where the next request to finalise is. *)
Definition applied_inv (s : RootChain) (z : list Z) : Prop :=
  let F := EROIdToFinalize s in
  lastAppliedForkNumber s = 0 /\
  ((F = 0 /\ lastAppliedEpochNumber s = 0 /\ lastAppliedBlockNumber s = 0) \/
   exists k x, z !! k = Some x /\ (S k < length z)%nat /\ lastAppliedEpochNumber s = 2 * Z.of_nat (S k) /\ C z k < F <= C z (S k) /\
     lastAppliedBlockNumber s = EB (NRELength s) z k + NRELength s + 1 + (if F =? C z (S k) then nb x else (F - C z k) / 20)).

(** The requests of the [j]-th block of the [k]-th request epoch, and the root of
    their transactions. *)
Definition orb_start (z : list Z) (k : nat) (j : Z) : Z := C z k + 20 * j.
Definition orb_size (z : list Z) (k : nat) (j : Z) : Z := Z.min 20 (C z (S k) - orb_start z k j).
Definition orb_hashes (s : RootChain) (z : list Z) (k : nat) (j : Z) : list bytes :=
  map r_hash (take (Z.to_nat (orb_size z k j)) (drop (Z.to_nat (orb_start z k j)) (EROs s))).

Definition roots_inv (s : RootChain) (z : list Z) : Prop := development s = false ->
  forall k x j, z !! k = Some x -> 0 <= j < nb x -> EB (NRELength s) z k + NRELength s + 1 + j <= lastBlock (fork s 0) ->
  BMT.getRoot keccak (S (length (orb_hashes s z k j))) (orb_hashes s z k j) =
  Done (transactionsRoot (block (fork s 0) (EB (NRELength s) z k + NRELength s + 1 + j))).

Record Inv (n : nat) (s : RootChain) (tr : list finalization) (z : list Z) (ph : phase) : Prop := {
  inv_layout : Layout s z ph;
  inv_length : 1 <= NRELength s < 2 ^ 32;
  inv_count : zlen z <= Z.of_nat n + 1 /\ zlen (EROs s) <= Z.of_nat n;
  inv_final : finals_ok (NRELength s) z (fork s 0) /\ flags_ok (fork s 0);
  inv_requests : requests_inv s;
  inv_flags : flags_inv s;
  inv_trace : trace_inv s tr;
  inv_applied : applied_inv s z;
  inv_roots : roots_inv s z }.

Lemma inv_small n s tr z ph : Inv n s tr z ph -> Z.of_nat n < 2 ^ 28 -> small s z.
Proof. intros [_ HL [Hz HE] _ _ _ _ _ _] Hn. unfold small. lia. Qed.

(** ** Frames *)

(** The hashes of a list of requests determine those of its blocks. *)
Lemma orb_hashes_frame s s' z k j x : nonneg z -> z !! k = Some x -> 0 <= j < nb x -> 0 <= C z k -> C z (S k) <= zlen (EROs s) ->
  (forall i r, EROs s !! i = Some r -> exists r', EROs s' !! i = Some r' /\ r_hash r' = r_hash r) -> orb_hashes s' z k j = orb_hashes s z k j.
Proof.
  intros Hz Hk Hj HC HN Hh. unfold orb_hashes. apply list_eq. intros i. rewrite !list_lookup_fmap.
  assert (0 <= orb_start z k j) as Hs by (unfold orb_start; lia).
  destruct (decide (Z.of_nat i < orb_size z k j)) as [Hi|Hi].
  - rewrite !lookup_take_lt, !lookup_drop by lia. unfold orb_size in Hi. destruct (lookup_lt_is_Some_2 (EROs s) (Z.to_nat (orb_start z k j) + i)) as [r Hr]; [lia|].
    destruct (Hh _ _ Hr) as (r' & Hr' & Heq). rewrite Hr, Hr'. simpl. by rewrite Heq.
  - rewrite !lookup_take_ge by lia. done.
Qed.

(** What a call that only touches requests leaves. *)
Definition storage_frame (s : RootChain) :=
  (forks s, currentFork s, NRELength s, development s, requestableContracts s, firstFilledORENumber s, firstNonEmptyRequestEpoch s, lastNonEmptyRequestEpoch s).

Lemma storage_frame_fields s s' : storage_frame s' = storage_frame s ->
  forks s' = forks s /\ currentFork s' = currentFork s /\ NRELength s' = NRELength s /\ development s' = development s /\
  requestableContracts s' = requestableContracts s /\ firstFilledORENumber s' = firstFilledORENumber s /\
  firstNonEmptyRequestEpoch s' = firstNonEmptyRequestEpoch s /\ lastNonEmptyRequestEpoch s' = lastNonEmptyRequestEpoch s.
Proof. unfold storage_frame. by intros [= -> -> -> -> -> -> -> ->]. Qed.

(** Requests keep their hashes. *)
Definition hashes_kept (s s' : RootChain) : Prop :=
  forall i r, EROs s !! i = Some r -> exists r', EROs s' !! i = Some r' /\ r_hash r' = r_hash r.

Lemma roots_inv_requests s s' z ph : Layout s z ph -> storage_frame s' = storage_frame s -> hashes_kept s s' -> roots_inv s z -> roots_inv s' z.
Proof.
  intros Hl Hfr Hh Hr Hd k x j Hk Hj. apply storage_frame_fields in Hfr as (Hf & _ & HL & Hdev & _). unfold fork. rewrite Hf, HL. intros Hle.
  rewrite Hdev in Hd. destruct (lay_z _ _ _ Hl) as [_ Hz]. apply lookup_lt_Some in Hk as Hlt. pose proof (C_mono z 0 k Hz ltac:(lia)) as Hm. rewrite C_0 in Hm.
  pose proof (C_mono z (S k) (length z) Hz ltac:(lia)). pose proof (lay_rest _ _ _ (lay_requests _ _ _ Hl)) as HR. unfold rest in HR.
  rewrite (orb_hashes_frame s s' z k j x Hz Hk Hj) by (done || lia). by apply (Hr Hd k x j).
Qed.

Lemma Layout_requests s s' z ph : storage_frame s' = storage_frame s -> orbs_ok z (zlen (EROs s')) (ORBs s') -> Layout s z ph -> Layout s' z ph.
Proof.
  intros Hfr Ho [H1 H2 H3 H4 H5 H6 H7]. apply storage_frame_fields in Hfr as (Hf & Hc & HL & _ & _ & E1 & E2 & E3).
  split; unfold fork; rewrite ?Hf, ?Hc, ?HL, ?E1, ?E2, ?E3; done.
Qed.

Lemma Inv_requests n n' s s' tr tr' z ph : (n <= n')%nat -> Inv n s tr z ph -> storage_frame s' = storage_frame s -> orbs_ok z (zlen (EROs s')) (ORBs s') ->
  zlen (EROs s') <= Z.of_nat n' -> hashes_kept s s' -> requests_inv s' -> flags_inv s' -> trace_inv s' tr' -> applied_inv s' z -> Inv n' s' tr' z ph.
Proof.
  intros Hn [Hl HL [Hz HE] [Hf1 Hf2] Hr Hfl Ht Ha Hro] Hfr Ho HE' Hh Hr' Hfl' Ht' Ha'. split; try done.
  - by eapply Layout_requests.
  - apply storage_frame_fields in Hfr as (_ & _ & -> & _). done.
  - lia.
  - apply storage_frame_fields in Hfr as (Hfk & _ & -> & _). unfold fork. by rewrite Hfk.
  - by eapply roots_inv_requests.
Qed.

(** ** Storing a request *)

Lemma storeRequest_ok c to v key value exit_ s z reqs rbs :
  ctx_ok c -> is_addr to -> length key = 32%nat -> nonneg z -> orbs_ok z (zlen (EROs s)) (ORBs s) -> zlen (EROs s) < two63 ->
  _storeRequest keccak c to v key value exit_ s (EROs s) (ORBs s) = Some (reqs, rbs) ->
  exists r, reqs = EROs s ++ [r] /\ orbs_ok z (zlen (EROs s) + 1) rbs /\ request_inv (requestableContracts s) (length (EROs s)) r /\ r_finalized r = false.
Proof.
  intros [Hsender _] Hto Hkey Hz Ho HN. unfold _storeRequest. set (r0 := mkRequest _ _ _ _ _ _ _ _ _ _ _). intros H. guards.
  match goal with H : (_ && _ || _) = true |- _ => rename H into Hmap end.
  destruct (if negb exit_ then _ else _) as [[]|]; [|done]. cbn [mbind option_bind] in H.
  destruct (open_block (ORBs s) (zlen (EROs s))) as [[rbs1 i]|] eqn:Hop; [|done]. cbn [mbind option_bind] in H.
  destruct (rbs1 !! i) as [rb|] eqn:Hi; [|done]. cbn [mbind option_bind] in H.
  destruct (toChildChainRequest _ _ _) as [child|] eqn:Hchild; [|done]. cbn [mbind option_bind] in H.
  destruct (TX_hash _ _) as [hash|] eqn:Hhash; [|done]. cbn [mbind option_bind] in H. apply (inj Some) in H.
  exists (r0 <| r_hash := hash |>). injection H as <- Hrbs. split; [done|]. split; [|split; [|done]].
  - rewrite <-Hrbs. apply (open_block_ok z (EROs s) (ORBs s) rbs1 i rb _ Hz Ho); [lia|exact Hop|exact Hi|..]; destruct (negb exit_); try reflexivity; apply u64_small; unfold is_u64; lia.
  - split; [cbn; unfold u128; by apply Z.mod_pos_bound|]. do 3 (split; [assumption|]). split.
    + cbn. intros Ht. rewrite Ht in Hmap. cbn in Hmap. apply negb_true_iff, Z.eqb_neq in Hmap. done.
    + exists (past c), child. split; [|done]. rewrite <-Hchild. unfold toChildChainRequest. cbn. destruct (negb exit_ && (to =? etherToken s)) eqn:Ht; [done|].
      by rewrite andb_comm, Ht.
Qed.

(** The counters of finalised requests. *)
Definition counters (s : RootChain) := (EROIdToFinalize s, lastAppliedForkNumber s, lastAppliedEpochNumber s, lastAppliedBlockNumber s).

Lemma applied_inv_frame s s' z : counters s' = counters s -> NRELength s' = NRELength s -> applied_inv s z -> applied_inv s' z.
Proof. unfold counters, applied_inv. by intros [= -> -> -> ->] ->. Qed.

Lemma store_inv n s s' tr z ph r : Inv n s tr z ph -> storage_frame s' = storage_frame s -> counters s' = counters s -> EROs s' = EROs s ++ [r] ->
  orbs_ok z (zlen (EROs s) + 1) (ORBs s') -> request_inv (requestableContracts s) (length (EROs s)) r -> r_finalized r = false -> Inv (S n) s' tr z ph.
Proof.
  intros Hi Hfr Hc HE Ho Hr Hf. assert (zlen (EROs s') = zlen (EROs s) + 1) as HN by (rewrite HE, length_app; simpl; lia).
  destruct Hi as [Hl HL [Hz HEn] Hf1 Hr1 [Hfl Hfl'] [Ht Ht'] Ha Hro] eqn:Hi'. clear Hi'.
  assert (EROIdToFinalize s' = EROIdToFinalize s) as HF by (by injection Hc).
  pose proof (storage_frame_fields _ _ Hfr) as (_ & _ & HL' & _ & Hct & _).
  eapply (Inv_requests n (S n) s); try done; rewrite ?HN; try done; try lia.
  - intros i r' Hi'. exists r'. rewrite HE, lookup_app_l by (by eapply lookup_lt_Some). done.
  - intros i r' Hi'. rewrite HE in Hi'. rewrite Hct. apply lookup_snoc_Some in Hi' as [[? Hi']|[-> ->]]; [by apply Hr1|done].
  - split; [rewrite HN, HF; lia|]. intros i r' Hi'. rewrite HE in Hi'. rewrite HF. apply lookup_snoc_Some in Hi' as [[? Hi']|[-> ->]]; [by apply Hfl'|].
    rewrite Hf. symmetry. apply Z.ltb_ge. lia.
  - split; [by rewrite HF|]. intros i x Hx. destruct (Ht' i x Hx) as (r' & Hr' & ->). exists r'. rewrite HE, lookup_app_l by (by eapply lookup_lt_Some). done.
  - by eapply applied_inv_frame.
Qed.

Lemma startExit_inv n c to key v s s' tr z ph : Z.of_nat n < 2 ^ 28 -> ctx_ok c -> is_addr to -> length key = 32%nat -> Inv n s tr z ph ->
  startExit keccak c to key v s = Some s' -> Inv (S n) s' tr z ph.
Proof.
  intros Hn Hc Hto Hkey Hi. unfold startExit. destruct (_storeRequest _ _ _ _ _ _ _ _ _ _) as [[reqs rbs]|] eqn:Hst; [|done]. intros [= <-].
  pose proof (inv_count _ _ _ _ _ Hi) as [_ HE]. destruct (inv_layout _ _ _ _ _ Hi) as [_ [_ Hz] _ _ _ Hr _].
  apply (storeRequest_ok c to 0 key v true s z) in Hst as (r & -> & Ho & Hr' & Hf); try done; [|lia]. by eapply store_inv.
Qed.

Lemma startEnter_inv n c value to key v s s' tr z ph : Z.of_nat n < 2 ^ 28 -> ctx_ok c -> is_addr to -> length key = 32%nat -> Inv n s tr z ph ->
  startEnter keccak c value to key v s = Some s' -> Inv (S n) s' tr z ph.
Proof.
  intros Hn Hc Hto Hkey Hi. unfold startEnter. destruct (_storeRequest _ _ _ _ _ _ _ _ _ _) as [[reqs rbs]|] eqn:Hst; [|done]. intros [= <-].
  pose proof (inv_count _ _ _ _ _ Hi) as [_ HE]. destruct (inv_layout _ _ _ _ _ Hi) as [_ [_ Hz] _ _ _ Hr _].
  apply (storeRequest_ok c to value key v false s z) in Hst as (r & -> & Ho & Hr' & Hf); try done; [|lia]. by eapply store_inv.
Qed.

(** ** Challenging an exit *)

(** A request may change but for its hash and what the hash is of. *)
Definition request_like (r r' : Request) : Prop := r' = r <| r_challenged := r_challenged r' |> <| r_finalized := r_finalized r' |>.

Lemma request_inv_like ct i r r' : request_like r r' -> request_inv ct i r -> request_inv ct i r'.
Proof. unfold request_like. intros ->. destruct r. done. Qed.

Lemma update_inv n s s' tr tr' z ph i r r' : Inv n s tr z ph -> storage_frame s' = storage_frame s -> ORBs s' = ORBs s -> EROs s' = <[i := r']> (EROs s) ->
  EROs s !! i = Some r -> request_like r r' -> flags_inv s' -> trace_inv s' tr' -> applied_inv s' z -> Inv n s' tr' z ph.
Proof.
  intros Hi Hfr Ho HE Hr Hl Hfl Ht Ha. assert (length (EROs s') = length (EROs s)) as HN by (by rewrite HE, length_insert).
  pose proof (inv_count _ _ _ _ _ Hi) as [_ HEn]. pose proof (storage_frame_fields _ _ Hfr) as (_ & _ & _ & _ & Hct & _).
  assert (forall k x, EROs s !! k = Some x -> exists x', EROs s' !! k = Some x' /\ request_like x x') as Hsame.
  { intros k x Hk. rewrite HE. destruct (decide (k = i)) as [->|Hne].
    - exists r'. rewrite list_lookup_insert_eq by (by eapply lookup_lt_Some). split; [done|]. congruence.
    - exists x. rewrite list_lookup_insert_ne by done. split; [done|]. by destruct x. }
  eapply (Inv_requests n n s); try done; rewrite ?HN, ?Ho; try done; try lia.
  - apply (inv_layout _ _ _ _ _ Hi).
  - intros k x Hk. destruct (Hsame k x Hk) as (x' & Hx' & Hlx). exists x'. split; [done|]. by rewrite Hlx.
  - intros k x' Hk'. rewrite Hct. destruct (lookup_lt_is_Some_2 (EROs s) k) as [x Hx]; [apply lookup_lt_Some in Hk'; lia|].
    destruct (Hsame k x Hx) as (x2 & Hx2 & Hlx). assert (x2 = x') as -> by congruence. eapply request_inv_like; [done|]. by apply (inv_requests _ _ _ _ _ Hi).
Qed.

(** A request that is not final is marked. *)
Lemma challenge_inv n s s' tr z ph i r : Inv n s tr z ph -> storage_frame s' = storage_frame s -> counters s' = counters s -> ORBs s' = ORBs s ->
  EROs s !! i = Some r -> r_finalized r = false -> EROs s' = <[i := r <| r_challenged := true |>]> (EROs s) -> Inv n s' tr z ph.
Proof.
  intros Hi Hfr Hc Ho Hr Hf HE. pose proof (storage_frame_fields _ _ Hfr) as (_ & _ & HL & _). assert (EROIdToFinalize s' = EROIdToFinalize s) as HF by (by injection Hc).
  destruct (inv_flags _ _ _ _ _ Hi) as [Hfl Hfl']. destruct (inv_trace _ _ _ _ _ Hi) as [Ht Ht'].
  eapply (update_inv n s s' tr tr z ph i r); try done.
  - split; [by rewrite HF, HE, length_insert|]. intros k x. rewrite HE, HF, list_lookup_insert_Some. intros [(<- & <- & _)|[_ Hx]]; [exact (Hfl' _ _ Hr)|by apply Hfl'].
  - split; [by rewrite HF|]. intros k x Hx. destruct (Ht' k x Hx) as (r' & Hr' & ->). exists r'. split; [|done]. rewrite HE.
    apply lookup_lt_Some in Hx. rewrite list_lookup_insert_ne; [done|]. intros ->. rewrite (Hfl' k r Hr) in Hf. apply Z.ltb_ge in Hf. lia.
  - eapply applied_inv_frame; [done..|]. apply (inv_applied _ _ _ _ _ Hi).
Qed.

Lemma same_inv n s s' tr z ph : Inv n s tr z ph -> storage_frame s' = storage_frame s -> counters s' = counters s -> EROs s' = EROs s -> ORBs s' = ORBs s -> Inv n s' tr z ph.
Proof.
  intros Hi Hfr Hc HE Ho. pose proof (storage_frame_fields _ _ Hfr) as (_ & _ & HL & _ & Hct & _). assert (EROIdToFinalize s' = EROIdToFinalize s) as HF by (by injection Hc).
  destruct Hi as [Hl HLn [Hz HEn] Hf1 Hr1 Hfl Ht Ha Hro] eqn:Hi'. clear Hi'.
  eapply (Inv_requests n n s); try done; unfold hashes_kept, requests_inv, flags_inv, trace_inv; rewrite ?HE, ?Ho, ?Hct, ?HF; try done; try lia.
  - apply Hl.
  - intros i r Hr. by exists r.
  - by eapply applied_inv_frame.
Qed.

Lemma challengeExit_inv n c fk b i receipt proof s s' tr z ph : Inv n s tr z ph -> challengeExit keccak c fk b i receipt proof s = Some s' -> Inv n s' tr z ph.
Proof.
  intros Hi. unfold challengeExit. intros H. guards. set (pb := block _ _) in *. destruct (b_userActivated pb).
  - destruct (URBs s !! _) as [rb|]; [|done]. cbn [mbind option_bind] in H. destruct (_doChallengeExit _ _ _ _ _ _ _ _ _) as [rs|]; [|done]. cbn [mbind option_bind] in H.
    guards. injection H as <-. by eapply same_inv.
  - destruct (ORBs s !! _) as [rb|]; [|done]. cbn [mbind option_bind] in H. destruct (_doChallengeExit _ _ _ _ _ _ _ _ _) as [rs|] eqn:Hd; [|done]. cbn [mbind option_bind] in H.
    guards. injection H as <-. unfold _doChallengeExit in Hd. guards. destruct (EROs s !! _) as [r|] eqn:Hr; [|done]. cbn [mbind option_bind] in Hd. guards.
    destruct (RLP.toReceiptStatus _ _) as [st|]; [|done]. cbn [mbind option_bind] in Hd. guards. destruct (if development s then _ else _) as [[]|]; [|done].
    cbn [mbind option_bind] in Hd. injection Hd as <-. by eapply challenge_inv.
Qed.

Lemma map_inv n s s' tr z ph a b : Inv n s tr z ph -> at_ (requestableContracts s) a = 0 -> s' = s <| requestableContracts := <[a := b]> (requestableContracts s) |> ->
  Inv n s' tr z ph.
Proof.
  intros [Hl HLn [Hz HEn] Hf1 Hr1 Hfl Ht Ha Hro] H0 ->. split; try done.
  - eapply Layout_like, Hl. by split; [apply fork_like_refl|].
  - intros i r Hr. destruct (Hr1 i r Hr) as (? & ? & ? & ? & Hto & past & child & Hchild & Hhash).
    assert (isTransfer r && negb (isExit r) = false -> at_ (<[a := b]> (requestableContracts s)) (r_to r) = at_ (requestableContracts s) (r_to r)) as Hsame.
    { intros Ht'. rewrite at_insert. case_decide as Heq; [|done]. rewrite Heq in Hto. by destruct (Hto Ht'). }
    do 4 (split; [done|]). split; [intros Ht' Heq; apply (Hto Ht'); by rewrite <-(Hsame Ht')|].
    exists past, child. split; [|done]. change (toChildChainRequest r (at_ (<[a := b]> (requestableContracts s)) (r_to r)) past = Some child).
    rewrite <-Hchild. unfold toChildChainRequest. destruct (negb (isExit r) && isTransfer r) eqn:Ht'; [done|]. rewrite Hsame; [done|by rewrite andb_comm].
Qed.

(** ** Finalising requests *)

Lemma block_index a x : 0 <= a < x -> 0 <= a / 20 < nb x /\ 20 * (a / 20) <= a <= 20 * (a / 20) + 19.
Proof. intros Ha. pose proof (nb_spec x ltac:(lia)). pose proof (Z.div_mod a 20 ltac:(lia)). pose proof (Z.mod_pos_bound a 20 ltac:(lia)). lia. Qed.

Section Finalize.
Context (s : RootChain) (z : list Z) (ph : phase) (Hl : Layout s z ph) (Hs : small s z) (Ha : applied_inv s z).
Abbreviation L := (NRELength s).
Abbreviation f := (fork s 0).
Abbreviation F := (EROIdToFinalize s).

Lemma ore_start_block k x : z !! k = Some x -> 0 < x -> (S k < length z)%nat -> startBlockNumber (epoch f (2 * Z.of_nat (S k))) = EB L z k + L + 1 /\
  isEmpty (epoch f (2 * Z.of_nat (S k))) = false /\ e_isRequest (epoch f (2 * Z.of_nat (S k))) = true.
Proof.
  intros Hk Hx Hlt. pose proof (lay_ore _ _ _ _ (lay_epochs _ _ _ Hl) k) as Hc. unfold ore_at in Hc. rewrite Hk in Hc.
  destruct (Z.leb_spec (2 * Z.of_nat (S k)) (prepared z ph)) as [Hp|Hp]; [|destruct ph; simpl in Hp; lia].
  destruct (Z.eqb_spec x 0); [lia|]. use_core Hc. done.
Qed.

Lemma genesis_not_request : b_isRequest (block f 0) = false.
Proof.
  destruct (b_isRequest _) eqn:Hreq; [|done]. destruct (lay_only _ _ _ (lay_blocks _ _ _ Hl) _ Hreq) as (k & x & j & Hk & Hj & Heq & _).
  destruct (lay_z _ _ _ Hl) as [_ Hz]. destruct Hs as ([HL _] & _). apply lookup_lt_Some in Hk. pose proof (EB_mono L z 0 k ltac:(lia) Hz ltac:(lia)) as Hm.
  rewrite EB_0 in Hm. lia.
Qed.

(** The block and the epoch of the next request. *)
Definition position (k : nat) (x e b : Z) : Prop :=
  z !! k = Some x /\ (S k < length z)%nat /\ e = 2 * Z.of_nat (S k) /\ C z k <= F < C z (S k) /\ b = EB L z k + L + 1 + (F - C z k) / 20.

Lemma next_request_block_ok fk f' e b : next_request_block s = Some (fk, f', e, b) -> fk = 0 /\ f' = f /\ exists k x, position k x e b.
Proof.
  destruct (lay_fork _ _ _ Hl) as (Hcur & Hfk & Hfst). destruct (lay_z _ _ _ Hl) as [Hz0 Hz]. destruct Ha as [Hfn Hpos]. unfold next_request_block. rewrite Hfn, Hfk. cbn [Z.eqb negb andb].
  pose proof (lay_links _ _ _ Hl) as [_ Hfirst _ Hnext _]. destruct Hs as ([HL _] & _).
  assert (forall k x, z !! k = Some x -> 0 < x -> (S k < length z)%nat -> C z k = F -> position k x (2 * Z.of_nat (S k)) (startBlockNumber (epoch f (2 * Z.of_nat (S k))))) as Hstart.
  { intros k x Hk Hx Hlt HC. destruct (ore_start_block k x Hk Hx Hlt) as (-> & _). unfold position. rewrite (C_S _ _ _ Hk), HC, Z.sub_diag. change (0 / 20) with 0. split_and!; try done; lia. }
  intros H. guards. destruct Hpos as [(HF & HE & Hb)|(k & x & Hk & Hlt & HE & HF & Hb)]; rewrite HE, Hb in H.
  - rewrite genesis_not_request in H. cbn [negb Z.eqb] in H. guards. injection H as <- <- <- <-. split_and!; try done.
    destruct Hfirst as [[Hf0 _]|(k & x & -> & Hlt & Hk & Hx & HC)]; [rewrite Hf0 in *; lia|]. exists k, x. apply Hstart; [done..|lia].
  - pose proof (C_S _ _ _ Hk) as HC. pose proof (EB_S L _ _ _ Hk) as HEB. destruct (Z.eqb_spec F (C z (S k))) as [Hend|Hend].
    + rewrite (nre_block_pos s z ph Hl Hs (S k)) in H by lia. cbn [negb] in H. destruct (Z.eqb_spec (2 * Z.of_nat (S k)) 0); [lia|]. guards. injection H as <- <- <- <-.
      split_and!; try done. destruct (Hnext k x Hk ltac:(lia) Hlt) as [[Hn0 _]|(k' & x' & -> & _ & Hlt' & Hk' & Hx' & HCk)]; [rewrite Hn0 in *; lia|].
      exists k', x'. apply Hstart; [done..|lia].
    + destruct (block_index (F - C z k) x ltac:(lia)) as [Hj _]. destruct (lay_block _ _ _ (lay_blocks _ _ _ Hl) k x _ Hk Hj) as (Hreq & _ & Hep & _); [lia|].
      rewrite Hreq, Hep in H. cbn [negb] in H. injection H as <- <- <- <-. split_and!; try done. exists k, x. unfold position. split_and!; done || lia.
Qed.

(** After the request, the same block or the next. *)
Lemma next_index a x : 0 <= a < x ->
  (if a =? Z.min (20 * (a / 20) + 19) (x - 1) then a / 20 + 1 else a / 20) = if a + 1 =? x then nb x else (a + 1) / 20.
Proof.
  intros Hax. destruct (block_index a x Hax) as [Hj Hm]. pose proof (nb_spec x ltac:(lia)). pose proof (Z.div_mod (a + 1) 20 ltac:(lia)).
  pose proof (Z.mod_pos_bound (a + 1) 20 ltac:(lia)). destruct (Z.eqb_spec a (Z.min (20 * (a / 20) + 19) (x - 1))), (Z.eqb_spec (a + 1) x); lia.
Qed.

(** The request block of a position. *)
Lemma position_orb k x e b : position k x e b -> exists orb, ORBs s !! Z.to_nat (B z k + (F - C z k) / 20) = Some orb /\
  requestStart orb <= F <= requestEnd orb /\ (F =? requestEnd orb) = (F - C z k =? Z.min (20 * ((F - C z k) / 20) + 19) (x - 1)).
Proof.
  intros (Hk & Hlt & _ & HF & _). pose proof (C_S _ _ _ Hk) as HC. destruct (block_index (F - C z k) x ltac:(lia)) as [Hj Hm].
  destruct (lay_orbs _ _ _ (lay_requests _ _ _ Hl) k x ((F - C z k) / 20)) as (orb & Horb & Hst & Hen); [by rewrite lookup_app_l by lia|done|].
  rewrite B_app in Horb by lia. rewrite C_app in Hst by lia. rewrite !C_app in Hen by lia. exists orb. split; [done|]. rewrite Hst, Hen. split; [lia|].
  apply Bool.eq_iff_eq_true. rewrite !Z.eqb_eq. lia.
Qed.

Lemma advance_next k x b : position k x (2 * Z.of_nat (S k)) b -> b <= lastBlock f ->
  advance 0 f b (F - C z k =? Z.min (20 * ((F - C z k) / 20) + 19) (x - 1)) =
  (0, EB L z k + L + 1 + (if F + 1 =? C z (S k) then nb x else (F + 1 - C z k) / 20)).
Proof.
  intros (Hk & Hlt & _ & HF & ->) Hle. pose proof (C_S _ _ _ Hk) as HC. destruct (lay_fork _ _ _ Hl) as (_ & Hfk & _).
  destruct (last_bounds s z ph Hl Hs) as (_ & Hlb & _). pose proof (EB_bound s z ph Hl Hs k ltac:(lia)). destruct Hs as ([HL _] & _).
  pose proof (next_index (F - C z k) x ltac:(lia)) as Hi. replace (F - C z k + 1) with (F + 1 - C z k) in Hi by lia.
  assert ((F + 1 - C z k =? x) = (F + 1 =? C z (S k))) as Heq by (apply Bool.eq_iff_eq_true; rewrite !Z.eqb_eq; lia). rewrite Heq in Hi. rewrite <-Hi.
  destruct (block_index (F - C z k) x ltac:(lia)) as [Hj _]. unfold advance. rewrite Hfk. cbn [Z.ltb Z.compare andb]. case_match; [|done].
  rewrite u256_small by lia. f_equal. lia.
Qed.

Lemma apply_exit_applied c r i a : apply_exit c (r <| r_finalized := true |>) i = Some a -> a = applied r.
Proof.
  unfold apply_exit, applied. cbn [isExit r_challenged]. change (isExit (r <| r_finalized := true |>)) with (isExit r).
  change (r_challenged (r <| r_finalized := true |>)) with (r_challenged r). destruct (isExit r && negb (r_challenged r)); [|by intros [= <-]].
  destruct (applyRequestInRootChain _ _ _) as [ok|]; [|done]. cbn [mbind option_bind]. intros H. guards. by injection H as <-.
Qed.

Lemma finalizeRequest_step c s' y : F < two63 -> finalizeRequest c s = Some (s', y) ->
  exists r k x b, EROs s !! Z.to_nat F = Some r /\ position k x (2 * Z.of_nat (S k)) b /\ y = mkFinalization false F (applied r) /\ b_finalized (block f b) = true /\
    b_finalizedAt (block f b) + CP_EXIT <= now c /\ b <= lastBlock f /\
    s' = s <| lastAppliedEpochNumber := 2 * Z.of_nat (S k) |> <| lastAppliedForkNumber := 0 |>
           <| lastAppliedBlockNumber := EB L z k + L + 1 + (if F + 1 =? C z (S k) then nb x else (F + 1 - C z k) / 20) |>
           <| EROIdToFinalize := F + 1 |> <| EROs := <[Z.to_nat F := r <| r_finalized := true |>]> (EROs s) |>.
Proof.
  intros HF63 H. unfold finalizeRequest in H. destruct (next_request_block s) as [[[[fk f'] e] b]|] eqn:Hn; [|done]. cbn [mbind option_bind] in H.
  apply next_request_block_ok in Hn as (-> & -> & k & x & Hpos). pose proof Hpos as (Hk & Hlt & -> & HF & Hb). guards.
  match goal with H : b_isRequest _ = true |- _ => rename H into Hreq end.
  pose proof (C_S _ _ _ Hk) as HC. destruct (block_index (F - C z k) x ltac:(lia)) as [Hj Hm]. destruct (lay_only _ _ _ (lay_blocks _ _ _ Hl) _ Hreq) as (_ & _ & _ & _ & _ & _ & Hle).
  destruct (lay_block _ _ _ (lay_blocks _ _ _ Hl) k x _ Hk Hj) as (_ & Hua & _ & Hid); [lia|]. rewrite <-Hb in Hua, Hid. rewrite Hua in H.
  change (EROIdToFinalize (s <| lastAppliedEpochNumber := _ |>)) with F in H. change (EROs (s <| lastAppliedEpochNumber := _ |>)) with (EROs s) in H.
  change (ORBs (s <| lastAppliedEpochNumber := _ |>)) with (ORBs s) in H.
  destruct (EROs s !! Z.to_nat F) as [r|] eqn:Hr; [|done]. cbn [mbind option_bind] in H. rewrite Hid in H.
  destruct (position_orb k x _ b Hpos) as (orb & Horb & _ & Hend). rewrite Horb in H. cbn [mbind option_bind] in H. guards. rewrite Hend in H.
  rewrite (advance_next k x b Hpos Hle) in H. destruct (apply_exit _ _ _) as [a|] eqn:Hap; [|done]. apply apply_exit_applied in Hap as ->.
  rewrite u256_small in H by (pose proof (C_bound s z ph Hl Hs k ltac:(lia)); lia). cbn [mbind option_bind] in H. apply (inj Some), pair_equal_spec in H as [<- <-].
  exists r, k, x, b. split_and!; done.
Qed.
End Finalize.

Lemma finalizeRequest_inv n c s s' tr y z ph : Z.of_nat n < 2 ^ 28 -> Inv n s tr z ph -> finalizeRequest c s = Some (s', y) -> Inv n s' (tr ++ [y]) z ph.
Proof.
  intros Hn Hi H. destruct (inv_flags _ _ _ _ _ Hi) as [HF Hfl]. destruct (inv_trace _ _ _ _ _ Hi) as [Ht Ht'].
  pose proof (inv_count _ _ _ _ _ Hi) as [_ HE]. pose proof (inv_small _ _ _ _ _ Hi Hn) as Hs.
  destruct (finalizeRequest_step s z ph (inv_layout _ _ _ _ _ Hi) Hs (inv_applied _ _ _ _ _ Hi) c s' y ltac:(lia) H)
    as (r & k & x & b & Hr & (Hk & Hlt & _ & HFk & Hb) & -> & _ & _ & _ & Hs'). apply lookup_lt_Some in Hr as Hlen.
  assert (EROs s' = <[Z.to_nat (EROIdToFinalize s) := r <| r_finalized := true |>]> (EROs s) /\ EROIdToFinalize s' = EROIdToFinalize s + 1) as [HE' HF'] by (by rewrite Hs').
  eapply (update_inv n s s' tr _ z ph (Z.to_nat (EROIdToFinalize s)) r); try done; try (by rewrite Hs').
  - split; [rewrite HE', HF', length_insert; lia|]. intros i r'. rewrite HE', HF', list_lookup_insert_Some. intros [(<- & <- & _)|[Hne Hx]].
    + symmetry. apply Z.ltb_lt. lia.
    + rewrite (Hfl _ _ Hx). destruct (Z.ltb_spec (Z.of_nat i) (EROIdToFinalize s)), (Z.ltb_spec (Z.of_nat i) (EROIdToFinalize s + 1)); lia || done.
  - split; [rewrite HF', length_app; simpl; lia|]. intros i y. rewrite HE'. intros Hy. apply lookup_snoc_Some in Hy as [[Hlt' Hy]|[-> <-]].
    + destruct (Ht' i y Hy) as (r' & Hr' & ->). exists r'. rewrite list_lookup_insert_ne by lia. done.
    + exists (r <| r_finalized := true |>). replace (Z.to_nat (EROIdToFinalize s)) with (length tr) in * by lia. rewrite list_lookup_insert_eq by lia. split; [done|].
      by rewrite Ht.
  - split; [by rewrite Hs'|]. right. exists k, x. rewrite HF'. rewrite Hs'. cbn. split_and!; try done; lia.
Qed.

Lemma finalizeRequests_inv n c m s s' tr tr' z ph : Z.of_nat n < 2 ^ 28 -> Inv n s tr z ph -> finalizeRequests c m s = Some (s', tr') -> Inv n s' (tr ++ tr') z ph.
Proof.
  intros Hn. revert s tr tr'. induction m as [|m IH]; intros s tr tr' Hi H; cbn [finalizeRequests] in H.
  - injection H as <- <-. by rewrite app_nil_r.
  - destruct (finalizeRequest c s) as [[s1 y]|] eqn:H1; [|done]. cbn [mbind option_bind] in H. destruct (finalizeRequests c m s1) as [[s2 l]|] eqn:H2; [|done].
    cbn [mbind option_bind] in H. injection H as <- <-. apply (finalizeRequest_inv n c s s1 tr y z ph Hn Hi) in H1.
    apply (IH s1 (tr ++ [y]) l H1) in H2. by rewrite <-app_assoc in H2.
Qed.

(** ** Submissions *)

Lemma request_hashes_map count a rs l : request_hashes count a rs false = Some l -> 0 <= a -> l = map r_hash (take count (drop (Z.to_nat a) rs)) /\ length l = count.
Proof.
  revert a l. induction count as [|count IH]; intros a l H Ha; cbn [request_hashes] in H; [by injection H as <-|].
  destruct (rs !! Z.to_nat a) as [r|] eqn:Hr; [|done]. cbn [mbind option_bind] in H. destruct (request_hashes count (a + 1) rs false) as [l'|] eqn:Hl; [|done].
  cbn [mbind option_bind negb orb] in H. injection H as <-. destruct (IH _ _ Hl ltac:(lia)) as [-> Hlen]. rewrite (drop_S _ _ _ Hr). cbn [take map length].
  replace (Z.to_nat (a + 1)) with (S (Z.to_nat a)) in * by lia. split; [done|]. by rewrite Hlen.
Qed.

Lemma checkTxRoot_root root orb rs a m : 0 <= a -> 0 < m < two64 -> requestStart orb = a -> requestEnd orb = a + m - 1 ->
  _checkTxRoot keccak root orb rs false = Some tt ->
  let l := map r_hash (take (Z.to_nat m) (drop (Z.to_nat a) rs)) in BMT.getRoot keccak (S (length l)) l = Done root.
Proof.
  intros Ha Hm Hs He H l0. unfold _checkTxRoot in H. rewrite Hs, He in H. replace (a + m - 1 - a + 1) with m in H by lia. rewrite u256_small in H by lia. guards.
  destruct (request_hashes _ _ _ _) as [l|] eqn:Hl; [|done]. cbn [mbind option_bind] in H. guards. apply request_hashes_map in Hl as [Hl Hlen]; [|done].
  rewrite Hlen, Nat.sub_diag, app_nil_r in H. fold l0 in Hl. rewrite <-Hl. destruct (BMT.getRoot _ _ _) as [r| |]; [|done..]. apply require_Some in H as [H%bool_decide_eq_true _]. by subst.
Qed.

Lemma set_fork_inv n s f' tr z ph : Inv n s tr z ph -> fork_like (fork s 0) f' -> finals_ok (NRELength s) z f' -> flags_ok f' -> Inv n (set_fork 0 f' s) tr z ph.
Proof.
  intros [Hl HL [Hz HE] [Hf1 Hf2] Hr Hfl Ht Ha Hro] Hlike Hfin Hflg. assert (fork (set_fork 0 f' s) 0 = f') as Hf by (rewrite fork_set; by case_decide).
  split; try done; rewrite ?Hf; try done.
  - eapply Layout_like, Hl. split; [by rewrite Hf|done].
  - intros Hd k x j Hk Hj. rewrite Hf. change (NRELength (set_fork 0 f' s)) with (NRELength s). destruct (like_last _ _ Hlike) as (_ & -> & _). intros Hle.
    etransitivity; [by apply (Hro Hd k x j)|]. by destruct (block_core_fields _ _ (like_block _ _ Hlike (EB (NRELength s) z k + NRELength s + 1 + j))) as (_ & _ & _ & _ & _ & ->).
Qed.

Lemma _finalizeBlock_inv n c s s' ok tr z ph : Z.of_nat n < 2 ^ 28 -> Inv n s tr z ph -> _finalizeBlock c s = Some (s', ok) -> Inv n s' tr z ph.
Proof.
  intros Hn Hi H. destruct (inv_final _ _ _ _ _ Hi) as [Hf Hfl].
  apply (finalizeBlock_step s z ph (inv_layout _ _ _ _ _ Hi) (inv_small _ _ _ _ _ Hi Hn)) in H as [[-> _]|(_ & f' & -> & Hlike & Hf' & Hfl' & _)]; try done.
  by apply set_fork_inv.
Qed.

Lemma finalizeBlocks_inv n c s s' tr z ph : Z.of_nat n < 2 ^ 28 -> Inv n s tr z ph -> finalizeBlocks c s = Some s' -> Inv n s' tr z ph.
Proof.
  intros Hn Hi. unfold finalizeBlocks. destruct (development s); [by intros [= <-]|]. destruct (_finalizeBlock c s) as [[s1 ok]|] eqn:H; [|done].
  cbn [mbind option_bind]. intros [= <-]. by eapply _finalizeBlock_inv.
Qed.

(** What does not read the epochs and blocks. *)
Lemma rest_inv s s' tr z : rc_frame s' = rc_frame s -> (requests_inv s -> requests_inv s') /\ (flags_inv s -> flags_inv s') /\
  (trace_inv s tr -> trace_inv s' tr) /\ (applied_inv s z -> applied_inv s' z).
Proof.
  intros Hfr. apply rc_frame_fields in Hfr as (_ & HL & HE & _ & Hct & HF & H1 & H2 & H3). unfold requests_inv, flags_inv, trace_inv, applied_inv.
  by rewrite HL, HE, Hct, HF, H1, H2, H3.
Qed.

Lemma applied_inv_app s z y : applied_inv s z -> applied_inv s (z ++ y).
Proof.
  intros [Hfk [?|(k & x & Hk & Hlt & HE & HF & Hb)]]; split; try done; [by left|]. right. exists k, x. rewrite lookup_app_l, length_app, !C_app, EB_app by lia.
  split_and!; try done; lia.
Qed.

Lemma orb_hashes_app s s' z y k j : EROs s' = EROs s -> (S k <= length z)%nat -> orb_hashes s' (z ++ y) k j = orb_hashes s z k j.
Proof. intros HE Hk. unfold orb_hashes, orb_size, orb_start. by rewrite HE, !C_app by lia. Qed.

Lemma handleSubmitNRE_inv n c p1 p2 r1 r2 r3 s s' tr z ph : Z.of_nat n < 2 ^ 28 -> Inv n s tr z ph -> handleSubmitNRE c p1 p2 r1 r2 r3 s = Some s' ->
  exists z' ph', Inv (S n) s' tr z' ph'.
Proof.
  intros Hn Hi H. pose proof (inv_small _ _ _ _ _ Hi Hn) as Hs. destruct Hi as [Hl HL [Hz HE] [Hf1 Hf2] Hr Hfl Ht Ha Hro].
  apply (handleSubmitNRE_ok c p1 p2 r1 r2 r3 s s' z ph Hl Hs) in H as (-> & Hfr & Hbs & HlB & HlB' & Hfe & Hfb & x & ph' & Hl'). exists (z ++ [x]), ph'.
  destruct (rest_inv s s' tr z Hfr) as (Hr' & Hfl' & Ht' & Ha'). apply rc_frame_fields in Hfr as (_ & HL' & HE' & Hdev & _).
  split; rewrite ?HL', ?HE'; try done; auto using applied_inv_app.
  - rewrite length_app. simpl. lia.
  - split; [eapply finals_ok_app; [done..|lia|done]|]. intros b. unfold block. rewrite Hbs, Hfb. apply Hf2.
  - rewrite <-HE' in HE. destruct (lay_z _ _ _ Hl') as [_ Hz']. destruct (lay_z _ _ _ Hl) as [Hz0 Hzn]. intros Hd k y j Hk Hj. rewrite HL', HlB'. intros Hle. rewrite Hdev in Hd.
    apply lookup_lt_Some in Hk as Hlt. destruct (decide (k < length z - 1)%nat) as [Hk'|Hk'].
    + rewrite lookup_app_l in Hk by lia. rewrite EB_app in * by lia. rewrite (orb_hashes_app s s') by (done || lia). unfold block. rewrite Hbs.
      apply (Hro Hd k y j Hk Hj). pose proof (EB_S (NRELength s) _ _ _ Hk). pose proof (EB_mono (NRELength s) z (S k) (length z - 1) ltac:(lia) Hzn ltac:(lia)). lia.
    + pose proof (EB_mono (NRELength s) (z ++ [x]) (length z - 1) k ltac:(lia) Hz' ltac:(lia)) as Hm. rewrite (EB_app _ z) in Hm by lia. lia.
Qed.

(** The block of a list of hashes whose root was checked. *)
Lemma orb_root s z ph k x j orb root : Layout s z ph -> small s z -> z !! k = Some x -> 0 <= j < nb x -> ORBs s !! Z.to_nat (B z k + j) = Some orb ->
  _checkTxRoot keccak root orb (EROs s) false = Some tt -> BMT.getRoot keccak (S (length (orb_hashes s z k j))) (orb_hashes s z k j) = Done root.
Proof.
  intros Hl Hs Hk Hj Horb Hroot. apply lookup_lt_Some in Hk as Hlt. pose proof (C_bound s z ph Hl Hs k ltac:(lia)). pose proof (C_bound s z ph Hl Hs (S k) ltac:(lia)).
  destruct (lay_orbs _ _ _ (lay_requests _ _ _ Hl) k x j) as (orb' & Horb' & Hst & Hen); [by rewrite lookup_app_l by lia|done|].
  rewrite B_app in Horb' by lia. rewrite C_app in Hst by lia. rewrite !C_app in Hen by lia. assert (orb' = orb) as -> by congruence.
  pose proof (C_S _ _ _ Hk) as HC. destruct (lay_z _ _ _ Hl) as [_ Hz]. pose proof (nb_spec x (nonneg_lookup _ _ _ Hz Hk)).
  apply (checkTxRoot_root root orb (EROs s) (orb_start z k j) (orb_size z k j)) in Hroot; unfold orb_size, orb_start in *; lia || done.
Qed.

Lemma handleSubmitORB_inv n c p r1 r2 r3 s s' tr z ph : Z.of_nat n < 2 ^ 28 -> Inv n s tr z ph -> handleSubmitORB keccak c p r1 r2 r3 s = Some s' ->
  exists ph', Inv n s' tr z ph'.
Proof.
  intros Hn Hi H. pose proof (inv_small _ _ _ _ _ Hi Hn) as Hs. destruct Hi as [Hl HL [Hz HE] [Hf1 Hf2] Hr Hfl Ht Ha Hro].
  destruct (handleSubmitORB_ok keccak c p r1 r2 r3 s s' z ph Hl Hs H) as (t & ph' & orb & Hph & Hl' & Hfr & Ho & HlB & Hfe & Hfb & Horb & Hroot & Hbl). exists ph'.
  destruct (rest_inv s s' tr z Hfr) as (Hr' & Hfl' & Ht' & Ha'). apply rc_frame_fields in Hfr as (_ & HL' & HE' & Hdev & _).
  destruct (submitting_epoch s z ph Hl t Hph) as (x & Hq & Hx & Hj & HlB0 & _ & HEB & _). replace (length z - 1 - 1)%nat with (length z - 2)%nat in * by lia.
  destruct (final_bounds s z ph Hl Hs Hf1) as ([_ Hfin] & _).
  split; rewrite ?HL', ?HE'; try done; auto.
  - split; [|by eapply flags_ok_orb]. rewrite <-(app_nil_r z). eapply finals_ok_app; [done..|lia|done].
  - intros Hd k y j Hk Hj'. rewrite HL', HlB, Hbl. intros Hle. rewrite Hdev in Hd.
    assert (orb_hashes s' z k j = orb_hashes s z k j) as -> by (unfold orb_hashes; by rewrite HE').
    case_decide as Heq; [|apply (Hro Hd k y j Hk Hj'); lia]. pose proof (EB_S (NRELength s) _ _ _ Hk) as HEk. destruct (lay_z _ _ _ Hl) as [_ Hzn].
    assert (k = (length z - 2)%nat) as ->.
    { apply lookup_lt_Some in Hk as Hlk. apply (prefix_unique (EB (NRELength s)) z k (length z - 2) (EB (NRELength s) z k + NRELength s + j) (lastBlock (fork s 0))); try lia.
      - intros a b Hab. apply EB_mono; [lia|done|done].
      - replace (S (length z - 2)) with (length z - 1)%nat by lia. lia. }
    assert (j = t) as -> by lia. assert (y = x) as -> by congruence. by eapply orb_root, Hroot.
Qed.

(** ** The constructor *)

(** The fork before the first epoch is prepared. *)
Definition genesis c (r1 r2 r3 : bytes) : Fork :=
  set_epoch 2 (fun e => e <| isEmpty := true |> <| e_isRequest := true |>)
    (set_epoch 0 (fun e => e <| e_timestamp := u64 (now c) |> <| e_initialized := true |>)
      (set_block 0 (fun b => b <| statesRoot := r1 |> <| transactionsRoot := r2 |> <| receiptsRoot := r3 |>) zeroFork)).
Definition genesis_fork c (r1 r2 r3 : bytes) : Fork := _doFinalizeNRE c 0 (_doFinalizeBlock c 0 (genesis c r1 r2 r3)).

Lemma genesis_epoch c r1 r2 r3 i : core (epoch (genesis_fork c r1 r2 r3) i) =
  (if decide (i = 0) then mkCore 0 0 false true false 0 0 0 else if decide (i = 2) then mkCore 0 0 true false true 0 0 0 else zeroEpoch) /\
  RE_nextEpoch (epoch (genesis_fork c r1 r2 r3) i) = 0.
Proof.
  unfold genesis_fork. rewrite (like_core _ _ (doFinalizeNRE_like c 0 _)), (like_core _ _ (doFinalizeBlock_like c 0 _)).
  rewrite (like_next _ _ (doFinalizeNRE_like c 0 _)), (like_next _ _ (doFinalizeBlock_like c 0 _)). unfold genesis. rewrite !epoch_set.
  destruct (decide (i = 2)) as [->|]; [done|]. by destruct (decide (i = 0)).
Qed.

Lemma genesis_block c r1 r2 r3 b : let f := genesis_fork c r1 r2 r3 in b_isRequest (block f b) = false /\ b_challenging (block f b) = false.
Proof.
  intros f. destruct (block_core_fields _ _ (like_block _ _ (doFinalizeNRE_like c 0 (_doFinalizeBlock c 0 (genesis c r1 r2 r3))) b)) as (H1 & _ & _ & _ & H2 & _).
  unfold f, genesis_fork. rewrite H1, H2, !doFinalizeBlock_block.
  assert (forall b, b_isRequest (block (genesis c r1 r2 r3) b) = false /\ b_challenging (block (genesis c r1 r2 r3) b) = false) as Hg.
  { intros i. change (block (genesis c r1 r2 r3) i) with (block (set_block 0 (fun b => b <| statesRoot := r1 |> <| transactionsRoot := r2 |> <| receiptsRoot := r3 |>) zeroFork) i).
    rewrite block_set. by case_decide. }
  case_decide; apply Hg.
Qed.

Lemma genesis_epochs L c r1 r2 r3 : epochs_ok L [0] (Submitting 0) (genesis_fork c r1 r2 r3).
Proof.
  split.
  - destruct (genesis_epoch c r1 r2 r3 0) as [-> _]. done.
  - intros k. destruct (genesis_epoch c r1 r2 r3 (2 * Z.of_nat k + 1)) as [-> _]. rewrite !decide_False by lia. unfold nre_at.
    destruct (Z.leb_spec (2 * Z.of_nat k + 1) (prepared [0] (Submitting 0))) as [H|H]; [simpl in H; lia|done].
  - intros k. destruct (genesis_epoch c r1 r2 r3 (2 * Z.of_nat (S k))) as [-> _]. rewrite decide_False by lia. unfold ore_at. destruct k as [|k]; [done|].
    rewrite decide_False by lia. done.
Qed.

(** The layout of one empty request epoch. *)
Lemma one_lookup k x : [0] !! k = Some x -> k = 0%nat /\ x = 0.
Proof. destruct k as [|[|k]]; simpl; naive_solver. Qed.

Lemma genesis_blocks_ok L f : (forall b, b_isRequest (block f b) = false /\ b_challenging (block f b) = false) -> blocks_ok L [0] f.
Proof.
  intros Hb. split.
  - intros k x j Hk Hj. apply one_lookup in Hk as [_ ->]. rewrite nb_0 in Hj. lia.
  - intros b Hreq. destruct (Hb b) as [H _]. congruence.
  - intros b. apply Hb.
Qed.

Lemma genesis_orbs_ok : orbs_ok [0] 0 [].
Proof.
  split; try done. intros k x j Hk Hj. assert (x = 0) as -> by (destruct k as [|[|k]]; [..|done]; vm_compute in Hk; congruence). rewrite nb_0 in Hj. lia.
Qed.

Lemma genesis_links_ok f : (forall i, RE_nextEpoch (epoch f i) = 0) -> links_ok [0] 0 0 0 f.
Proof. intros Hn. split; try (by left); [done| |by intros i _]. intros k x Hk Hx. apply one_lookup in Hk as [_ ->]. lia. Qed.

Lemma constructor_inv c a1 a2 a3 dev len r1 r2 r3 s : 1 <= len < 2 ^ 32 -> constructor c a1 a2 a3 dev len r1 r2 r3 = Some s -> Inv 0 s [] [0] Rest.
Proof.
  intros HL. unfold constructor. destruct (role_add ∅ (sender c)) as [m|]; [|done]. cbn [mbind option_bind]. intros H. guards.
  set (s0 := mkRootChain _ _ _ _ _ _ _ _ _ _ _ _ _ _ _ _ _ _ _ _ _ _ _) in H. set (f0 := genesis_fork c r1 r2 r3) in *. assert (fork s0 0 = f0) as Hf0 by done.
  destruct (prepareNRE_ok c s0 [0] 0) as (f' & Hp & He & Hff & HlE & Hnx); rewrite ?Hf0; try done.
  { simpl. lia. } { apply genesis_epochs. } { change (NRELength s0) with len. change (length [0] - 1)%nat with 0%nat. rewrite EB_0. lia. } { change (NRELength s0) with len. lia. }
  rewrite Hp in H. apply (inj Some) in H as <-. set (s1 := set_fork 0 f' s0). assert (fork s1 0 = f') as Hf' by (unfold s1; rewrite fork_set; by case_decide).
  rewrite Hf0 in *. injection Hff as Hfk Hfst HlB Hfe Hfb Hbs.
  assert (blocks_ok len [0] f') as Hblk by (apply genesis_blocks_ok; intros b; unfold block; rewrite Hbs; apply genesis_block).
  assert (links_ok [0] 0 0 0 f') as Hlk by (apply genesis_links_ok; intros i; rewrite Hnx; apply genesis_epoch).
  assert (Layout s1 [0] Rest) as Hl.
  { split; rewrite ?Hf'; [done|split; [simpl; lia|constructor; [lia|constructor]]|done|done|done|apply genesis_orbs_ok|done]. }
  split; rewrite ?Hf'; [done|done|simpl; lia|..].
  - split; [left; by rewrite Hfe, Hfb|]. intros b Hreq. destruct (lay_only _ _ _ Hblk b Hreq) as (k & x & j & Hk & Hj & _).
    apply one_lookup in Hk as [_ ->]. rewrite nb_0 in Hj. lia.
  - intros i r Hr. done.
  - split; [done|]. intros i r Hr. done.
  - split; [done|]. intros i x Hx. done.
  - split; [done|]. by left.
  - intros _ k x j Hk Hj. apply one_lookup in Hk as [_ ->]. rewrite nb_0 in Hj. lia.
Qed.

(** ** Every call *)

Lemma Inv_mono n s tr z ph : Inv n s tr z ph -> Inv (S n) s tr z ph.
Proof. intros [H1 H2 [H3 H4] H5 H6 H7 H8 H9 H10]. split; try done. lia. Qed.

Lemma quiet_Some o s tr : quiet o = Some (s, tr) -> o = Some s /\ tr = [].
Proof. unfold quiet. destruct o; [|done]. cbn. by intros [= -> ->]. Qed.

(** Calls that the invariant does not see. *)
Lemma other_call_inv n c x s s' tr z ph : Inv n s tr z ph -> exec keccak c x s = Some (s', []) ->
  match x with
  | ChangeOperator _ | AddSubmitter _ | AddMapper _ | RenounceSubmitter | RenounceMapper | SetSeigManager _ | MapRequestableContract _ _
  | PrepareToSubmitURB | SubmitURB _ _ _ _ | ChallengeNullAddress _ | MakeERU _ _ _ => Inv n s' tr z ph
  | _ => True
  end.
Proof.
  intros Hi H. destruct x as [a|a|a| | |a|a b| | | | | | |b| | |to key v| |]; try exact I; cbn [exec] in H; apply quiet_Some in H as [H _].
  - unfold changeOperator in H. guards. injection H as <-. by eapply same_inv.
  - unfold addSubmitter in H. guards. destruct (role_add _ _); [|done]. injection H as <-. by eapply same_inv.
  - unfold addMapper in H. guards. destruct (role_add _ _); [|done]. injection H as <-. by eapply same_inv.
  - unfold renounceSubmitter in H. destruct (role_remove _ _); [|done]. injection H as <-. by eapply same_inv.
  - unfold renounceMapper in H. destruct (role_remove _ _); [|done]. injection H as <-. by eapply same_inv.
  - unfold setSeigManager in H. guards. injection H as <-. by eapply same_inv.
  - unfold mapRequestableContractByOperator in H. destruct (has _ _); [|done]. cbn [mbind option_bind] in H. guards. apply (inj Some) in H. by eapply map_inv.
  - done.
  - done.
  - unfold challengeNullAddress in H. guards. by injection H as <-.
  - unfold makeERU in H. destruct (_storeRequest _ _ _ _ _ _ _ _ _ _) as [[reqs rbs]|]; [|done]. injection H as <-. by eapply same_inv.
Qed.

Lemma exec_inv n c x s s' tr tr' z ph : Z.of_nat n < 2 ^ 28 -> ctx_ok c -> call_ok x -> Inv n s tr z ph -> exec keccak c x s = Some (s', tr') ->
  exists z' ph', Inv (S n) s' (tr ++ tr') z' ph'.
Proof.
  intros Hn Hc Hx Hi H.
  assert ((exists y, x = FinalizeRequest /\ tr' = [y] /\ finalizeRequest c s = Some (s', y)) \/ (exists m, x = FinalizeRequests m) \/ tr' = []) as [(y & -> & -> & Hy)|[[m ->]| ->]].
  { destruct x; try (apply quiet_Some in H as [_ H]; by auto); [|by eauto]. left. cbn [exec] in H. destruct (finalizeRequest c s) as [[s1 y]|]; [|done].
    cbn [mbind option_bind] in H. apply (inj Some), pair_equal_spec in H as [-> <-]. by exists y. }
  - exists z, ph. apply Inv_mono. by eapply finalizeRequest_inv.
  - exists z, ph. apply Inv_mono. by eapply finalizeRequests_inv.
  - rewrite app_nil_r. pose proof (other_call_inv n c x s s' tr z ph Hi H) as Ho.
    destruct x as [a|a|a| | |a|a b| |p1 p2 r1 r2 r3|p r1 r2 r3| | |fk b i receipt proof| |to key v|value to key v| | |m]; try (by exists z, ph; apply Inv_mono).
    + cbn [exec] in H. apply quiet_Some in H as [H _]. unfold submitNRE in H. destruct (has _ _); [|done]. cbn [mbind option_bind] in H. guards.
      destruct (finalizeBlocks c s) as [s1|] eqn:Hf; [|done]. cbn [mbind option_bind] in H. eapply handleSubmitNRE_inv; [done|by eapply finalizeBlocks_inv|done].
    + cbn [exec] in H. apply quiet_Some in H as [H _]. unfold submitORB in H. destruct (has _ _); [|done]. cbn [mbind option_bind] in H. guards.
      destruct (finalizeBlocks c s) as [s1|] eqn:Hf; [|done]. cbn [mbind option_bind] in H.
      destruct (handleSubmitORB_inv n c p r1 r2 r3 s1 s' tr z ph Hn) as [ph' Hi']; [by eapply finalizeBlocks_inv|done|]. exists z, ph'. by apply Inv_mono.
    + cbn [exec] in H. apply quiet_Some in H as [H _]. unfold finalizeBlock in H. destruct (_finalizeBlock c s) as [[s1 ok]|] eqn:Hf; [|done]. cbn [mbind option_bind] in H. guards.
      apply (inj Some) in H as <-. exists z, ph. apply Inv_mono. by eapply _finalizeBlock_inv.
    + cbn [exec] in H. apply quiet_Some in H as [H _]. exists z, ph. apply Inv_mono. by eapply challengeExit_inv.
    + cbn [exec] in H. apply quiet_Some in H as [H _]. destruct Hx as [Hto Hkey]. exists z, ph. by eapply startExit_inv.
    + cbn [exec] in H. apply quiet_Some in H as [H _]. destruct Hx as (Hto & Hkey & _). exists z, ph. by eapply startEnter_inv.
    + cbn [exec] in H. destruct (finalizeRequest c s) as [[s1 y]|]; [|done]. done.
    + cbn [exec] in H. exists z, ph. apply Inv_mono. rewrite <-(app_nil_r tr). by eapply finalizeRequests_inv.
Qed.

Lemma reachable_inv n s tr : reachable keccak n s tr -> Z.of_nat n <= 2 ^ 28 -> exists z ph, Inv n s tr z ph.
Proof.
  induction 1 as [c a1 a2 a3 dev len r1 r2 r3 s Hc HL Hs|n s tr c x s' tr' _ IH Hc Hx He]; intros Hn.
  - exists [0], Rest. by eapply constructor_inv.
  - destruct IH as (z & ph & Hi); [lia|]. eapply exec_inv; try done. lia.
Qed.
End Invariant.
