(* ===== verification/RootChainClaims.v ===== *)
(** * The root chain contract: what its users rely on
    Properties of the states that any sequence of calls reaches: where epochs,
    blocks and requests are, which requests are finalised and how, what the
    root of a request block commits to, and that submissions and finalisation
    never get stuck. *)

From S2P Require Import Prelude MathUtil Solidity RecordUpdate Rlp BinaryMerkle PlasmaTx RootChainData RootChain RootChainLayout RootChainCalls RootChainInv.

Section Claims.
Variable keccak : bytes -> bytes.

(** C6: every state that the constructor and any sequence of less than 2^28 calls
    reaches has the layout of a list of request epoch sizes: epochs alternate,
    their block numbers follow each other without gaps, each request is in one
    request block of at most 20, in order, and each submitted request block has
    the number, the epoch and the requests that the list gives it. *)
Theorem rootchain_layout n s tr : reachable keccak n s tr -> Z.of_nat n < 2 ^ 28 ->
  exists z ph, Layout s z ph /\ finals_ok (NRELength s) z (fork s 0) /\ flags_ok (fork s 0).
Proof. intros Hr Hn. destruct (reachable_inv keccak n s tr Hr ltac:(lia)) as (z & ph & Hi). exists z, ph. split; [apply Hi|apply (inv_final _ _ _ _ _ _ Hi)]. Qed.

(** C4: the enter and exit requests are finalised once each and in the order in
    which they were made; an exit is applied exactly if nobody challenged it,
    and a request that is final cannot be challenged any more. *)
Theorem requests_finalized_in_order n s tr : reachable keccak n s tr -> Z.of_nat n < 2 ^ 28 ->
  zlen tr = EROIdToFinalize s /\ EROIdToFinalize s <= zlen (EROs s) /\
  (forall i x, tr !! i = Some x -> exists r, EROs s !! i = Some r /\ x = mkFinalization false (Z.of_nat i) (isExit r && negb (r_challenged r))) /\
  (forall i r, EROs s !! i = Some r -> r_finalized r = (Z.of_nat i <? EROIdToFinalize s)).
Proof.
  intros Hr Hn. destruct (reachable_inv keccak n s tr Hr ltac:(lia)) as (z & ph & Hi). destruct (inv_flags _ _ _ _ _ _ Hi) as [HF Hfl].
  destruct (inv_trace _ _ _ _ _ _ Hi) as [Ht Ht']. split_and!; [done|lia|done|done].
Qed.

(** ** The next request is finalised *)

(** The block of the next request, if it was submitted. *)
Section Next.
Context (s : RootChain) (z : list Z) (ph : phase) (Hl : Layout s z ph) (Hs : small s z) (Ha : applied_inv s z).
Abbreviation L := (NRELength s).
Abbreviation f := (fork s 0).
Abbreviation F := (EROIdToFinalize s).

(** The request epoch of a request. *)
Lemma epoch_unique k k' x x' : z !! k = Some x -> z !! k' = Some x' -> C z k <= F < C z (S k) -> C z k' <= F < C z (S k') -> k = k'.
Proof.
  intros Hk Hk' HF HF'. destruct (lay_z _ _ _ Hl) as [_ Hz]. apply lookup_lt_Some in Hk, Hk'. apply (prefix_unique C z k k' F F); try done; try lia.
  intros a b Hab. by apply C_mono.
Qed.

Lemma next_request_block_complete k x e b : position s z k x e b -> b <= lastBlock f -> next_request_block s = Some (0, f, e, b).
Proof.
  intros (Hk & Hlt & -> & HF & Hb) Hle. destruct Ha as [Hfn Hpos]. destruct (lay_fork _ _ _ Hl) as (Hcur & Hfk & Hfst). destruct (lay_z _ _ _ Hl) as [Hz0 Hz].
  destruct (last_bounds s z ph Hl Hs) as (_ & Hlb & _). pose proof (lay_links _ _ _ Hl) as [_ Hfirst _ Hnext _]. pose proof (C_S _ _ _ Hk) as HC.
  pose proof (C_mono z (S k) (length z - 1) Hz ltac:(lia)) as HCl. unfold next_request_block. rewrite Hfn, Hfk. cbn [Z.eqb negb andb].
  destruct (ore_start_block s z ph Hl k x Hk ltac:(lia) Hlt) as (Hst & _). destruct Hpos as [(HF0 & -> & ->)|(k0 & x0 & Hk0 & Hlt0 & -> & HFk & ->)].
  - rewrite (proj2 (Z.leb_le _ _)), (genesis_not_request s z ph Hl Hs) by lia. cbn [require negb Z.eqb]. destruct Hfirst as [[_ H0]|(k1 & x1 & -> & Hlt1 & Hk1 & Hx1 & HC1)]; [lia|].
    pose proof (C_S _ _ _ Hk1). assert (k1 = k) as -> by (eapply epoch_unique; try done; lia). destruct (Z.eqb_spec (2 * Z.of_nat (S k)) 0); [lia|]. cbn [negb require].
    rewrite Hst, Hb, HF0, HC1. simpl. by rewrite Z.add_0_r.
  - pose proof (C_S _ _ _ Hk0) as HC0. pose proof (EB_S L _ _ _ Hk0) as HEB0. destruct Hs as ([HL _] & _). destruct (Z.eqb_spec F (C z (S k0))) as [Hend|Hend].
    + assert (S k0 <= k)%nat as Hkk. { destruct (decide (S k0 <= k)%nat); [done|]. pose proof (C_mono z (S k) (S k0) Hz ltac:(lia)). lia. }
      pose proof (EB_mono L z (S k0) k ltac:(lia) Hz ltac:(lia)). destruct (block_index (F - C z k) x ltac:(lia)) as [Hj _].
      rewrite (proj2 (Z.leb_le _ _)), (nre_block_pos s z ph Hl ltac:(done) (S k0)) by lia. cbn [require negb]. destruct (Z.eqb_spec (2 * Z.of_nat (S k0)) 0); [lia|].
      destruct (Hnext k0 x0 Hk0 ltac:(lia) Hlt0) as [[_ H0]|(k1 & x1 & -> & _ & Hlt1 & Hk1 & Hx1 & HC1)]; [lia|]. pose proof (C_S _ _ _ Hk1).
      assert (k1 = k) as -> by (eapply epoch_unique; try done; lia). destruct (Z.eqb_spec (2 * Z.of_nat (S k)) 0); [lia|]. cbn [negb require].
      rewrite Hst, Hb, Hend, HC1, Z.sub_diag. simpl. by rewrite Z.add_0_r.
    + assert (k0 = k) as -> by (eapply epoch_unique; try done; lia). assert (x0 = x) as -> by congruence. rewrite <-Hb, (proj2 (Z.leb_le _ _)) by lia. cbn [require].
      destruct (block_index (F - C z k) x ltac:(lia)) as [Hj _]. destruct (lay_block _ _ _ (lay_blocks _ _ _ Hl) k x _ Hk Hj) as (Hreq & _ & Hep & _); [lia|].
      rewrite <-Hb in Hreq, Hep. by rewrite Hreq, Hep.
Qed.

Lemma last_le : lastBlock f <= EB L z (length z - 1).
Proof.
  assert (ph = Rest \/ exists t, ph = Submitting t) as [Hph|[t Hph]] by (destruct ph; [by left|right; by eexists]).
  - pose proof (lay_last _ _ _ Hl) as H. rewrite Hph in H. destruct H as [_ ->]. lia.
  - destruct (submitting_epoch s z ph Hl t Hph) as (x & _ & _ & ? & ? & _ & ? & _). lia.
Qed.

(** The epoch of a submitted request block and its requests. *)
Lemma submitted_block b orb : b_isRequest (block f b) = true -> ORBs s !! Z.to_nat (requestBlockId (block f b)) = Some orb ->
  exists k x j, z !! k = Some x /\ 0 <= j < nb x /\ b = EB L z k + L + 1 + j /\ b <= lastBlock f /\ b_userActivated (block f b) = false /\
    requestStart orb = C z k + 20 * j /\ requestEnd orb = Z.min (C z k + 20 * j + 19) (C z (S k) - 1).
Proof.
  intros Hreq Horb. destruct (lay_only _ _ _ (lay_blocks _ _ _ Hl) b Hreq) as (k & x & j & Hk & Hj & -> & Hle). apply lookup_lt_Some in Hk as Hlt.
  destruct (lay_block _ _ _ (lay_blocks _ _ _ Hl) k x j Hk Hj Hle) as (_ & Hua & _ & Hid). exists k, x, j. rewrite Hid in Horb.
  destruct (lay_orbs _ _ _ (lay_requests _ _ _ Hl) k x j) as (orb' & Horb' & Hst & Hen); [by rewrite lookup_app_l by lia|done|].
  rewrite B_app in Horb' by lia. rewrite C_app in Hst by lia. rewrite !C_app in Hen by lia. assert (orb' = orb) as -> by congruence. done.
Qed.

(** A submitted request block with the next request. *)
Lemma block_position b orb : b_isRequest (block f b) = true -> ORBs s !! Z.to_nat (requestBlockId (block f b)) = Some orb ->
  requestStart orb <= F <= requestEnd orb ->
  b_userActivated (block f b) = false /\ b <= lastBlock f /\ exists k x, position s z k x (2 * Z.of_nat (S k)) b.
Proof.
  intros Hreq Horb HF. destruct (submitted_block b orb Hreq Horb) as (k & x & j & Hk & Hj & Hb & Hle & Hua & Hst & Hen). split; [done|]. split; [done|]. exists k, x.
  apply lookup_lt_Some in Hk as Hlt. subst b.
  assert (S k < length z)%nat as Hlt'.
  { destruct (decide (S k < length z)%nat); [done|]. pose proof last_le. replace (length z - 1)%nat with k in * by lia. destruct Hs as ([HL _] & _). lia. }
  assert ((F - C z k) / 20 = j) as Hj'. { pose proof (Z.div_mod (F - C z k) 20 ltac:(lia)). pose proof (Z.mod_pos_bound (F - C z k) 20 ltac:(lia)). lia. }
  unfold position. rewrite Hj'. split_and!; try done; lia.
Qed.
End Next.

(** C13: the request that is next is finalised as soon as its block is final and
    the time to challenge is over, if the contracts that an exit calls accept
    it: no other request and no call of anybody else can hold it up. *)
Theorem next_request_finalizes n s tr c b orb r : reachable keccak n s tr -> Z.of_nat n < 2 ^ 28 ->
  let f := fork s 0 in let F := EROIdToFinalize s in
  b_isRequest (block f b) = true -> ORBs s !! Z.to_nat (requestBlockId (block f b)) = Some orb -> requestStart orb <= F <= requestEnd orb ->
  b_finalized (block f b) = true -> b_finalizedAt (block f b) + CP_EXIT <= now c -> EROs s !! Z.to_nat F = Some r ->
  (isExit r && negb (r_challenged r) = true -> is_Some (apply c (r <| r_finalized := true |>) F) /\ accepts c (requestor r) = true) ->
  exists s', finalizeRequest c s = Some (s', mkFinalization false F (isExit r && negb (r_challenged r))).
Proof.
  intros Hr Hn f F Hreq Horb HF Hfin Htime Hero Hok. destruct (reachable_inv keccak n s tr Hr ltac:(lia)) as (z & ph & Hi).
  pose proof (inv_layout _ _ _ _ _ _ Hi) as Hl. pose proof (inv_applied _ _ _ _ _ _ Hi) as Ha. pose proof (inv_small _ _ _ _ _ _ Hi Hn) as Hs.
  destruct (block_position s z ph Hl Hs b orb Hreq Horb HF) as (Hua & Hle & k & x & Hpos). pose proof Hpos as (Hk & Hlt & _ & HFk & _). pose proof (C_S _ _ _ Hk).
  destruct (ore_start_block s z ph Hl k x Hk ltac:(lia) Hlt) as (_ & Hemp & Hereq).
  unfold finalizeRequest. rewrite (next_request_block_complete s z ph Hl Hs Ha k x _ b Hpos Hle). cbn [mbind option_bind].
  rewrite Hemp, Hereq, Hua. fold f. rewrite Hreq, Hfin, (proj2 (Z.leb_le _ _)) by done. cbn [negb require].
  change (EROIdToFinalize (s <| lastAppliedEpochNumber := _ |>)) with F. change (EROs (s <| lastAppliedEpochNumber := _ |>)) with (EROs s).
  change (ORBs (s <| lastAppliedEpochNumber := _ |>)) with (ORBs s). rewrite Hero, Horb. cbn [mbind option_bind]. fold F.
  rewrite !(proj2 (Z.leb_le _ _)) by lia. cbn [andb require]. destruct (advance _ _ _ _) as [fk b']. unfold apply_exit.
  change (isExit (r <| r_finalized := true |>)) with (isExit r). change (r_challenged (r <| r_finalized := true |>)) with (r_challenged r).
  change (requestor (r <| r_finalized := true |>)) with (requestor r). unfold applyRequestInRootChain.
  destruct (isExit r && negb (r_challenged r)); [|by eexists]. destruct (Hok eq_refl) as [[a Hap] ->]. rewrite Hap. by eexists.
Qed.

(** ** What a request block commits to *)

(** The encoding of the transaction that the operator's node makes of a request. *)
Definition node_item (contracts : gmap Address Address) (id : Z) (r : Request) : option bytes :=
  match request_tx keccak (at_ contracts) id r with
  | Done tx => match EncodeToBytes txdata tx with inr b => Some b | inl _ => None end
  | _ => None
  end.

(** An enter of Ether has a value that fits its transaction. *)
Definition value_ok (r : Request) : Prop :=
  isTransfer r = true -> isExit r = false -> length (trieValue r) = 32%nat /\ 0 < SetBytes (trieValue r) < two128.

Lemma request_tx_hash ct i r : Z.of_nat i < two63 -> request_inv keccak ct i r -> value_ok r ->
  exists tx b, request_tx keccak (at_ ct) (Z.of_nat i) r = Done tx /\ EncodeToBytes txdata tx = inr b /\ r_hash r = keccak b.
Proof.
  intros Hi (Hv & Ha & Hk & Ht & _ & past & child & Hchild & Hhash) Hval.
  destruct (request_tx_bytes keccak (at_ ct) (Z.of_nat i) r past) as (child' & tx & b & Hc' & Htx & Hb & Henc); [done|lia|].
  assert (child' = child) as -> by congruence. exists tx, b. split; [done|]. split; [done|].
  unfold TX_hash in Hhash. rewrite Hb in Hhash. cbn [mbind option_bind] in Hhash. by injection Hhash.
Qed.

Lemma node_item_hash ct i r : Z.of_nat i < two63 -> request_inv keccak ct i r -> value_ok r ->
  exists b, node_item ct (Z.of_nat i) r = Some b /\ r_hash r = keccak b.
Proof. intros Hi Hr Hv. destruct (request_tx_hash ct i r Hi Hr Hv) as (tx & b & Htx & Henc & Hh). exists b. unfold node_item. by rewrite Htx, Henc. Qed.

Lemma node_items_hashes ct a rs : (forall i r, rs !! i = Some r -> request_inv keccak ct (a + i) r /\ value_ok r) -> Z.of_nat (a + length rs) < two63 ->
  exists items, imap (fun i r => node_item ct (Z.of_nat (a + i)) r) rs = map Some items /\ map r_hash rs = map keccak items.
Proof.
  revert a. induction rs as [|r rs IH]; intros a Hrs Hlen; [by exists []|]. simpl in Hlen.
  destruct (Hrs 0%nat r eq_refl) as [Hr Hv]. rewrite Nat.add_0_r in Hr. destruct (node_item_hash ct a r ltac:(lia) Hr Hv) as (b & Hb & Hh).
  destruct (IH (S a)) as (items & Hi & Hm); [|lia|].
  { intros i r' Hr'. replace (S a + i)%nat with (a + S i)%nat by lia. by apply Hrs. }
  exists (b :: items). simpl. rewrite Nat.add_0_r, Hb, Hh, Hm, <-Hi. split; [|done]. f_equal. apply imap_ext. intros i x _. simpl. do 2 f_equal. lia.
Qed.

(** C12: when the contract checks roots (it does not in development mode), and
    if every enter of Ether in the block has a value of one word between 1 and
    2^128 - 1, the transactions root of a submitted request block is the root
    that the operator's node derives from the transactions it makes of the
    requests of the block: what the contract accepted is the execution of those
    requests, in order. *)
Theorem request_block_root n s tr b orb : reachable keccak n s tr -> Z.of_nat n < 2 ^ 28 -> development s = false ->
  let pb := block (fork s 0) b in
  b_isRequest pb = true -> ORBs s !! Z.to_nat (requestBlockId pb) = Some orb ->
  let rs := take (Z.to_nat (requestEnd orb - requestStart orb + 1)) (drop (Z.to_nat (requestStart orb)) (EROs s)) in
  Forall value_ok rs ->
  exists items, imap (fun i r => node_item (requestableContracts s) (requestStart orb + Z.of_nat i) r) rs = map Some items /\
    DeriveShaFromBMT keccak items = Done (transactionsRoot pb).
Proof.
  intros Hr Hn Hd pb Hreq Horb rs Hval. destruct (reachable_inv keccak n s tr Hr ltac:(lia)) as (z & ph & Hi). pose proof (inv_layout _ _ _ _ _ _ Hi) as Hl.
  pose proof (inv_small _ _ _ _ _ _ Hi Hn) as Hs.
  destruct (submitted_block s z ph Hl b orb Hreq Horb) as (k & x & j & Hk & Hj & Hb & Hle & _ & Hst & Hen). apply lookup_lt_Some in Hk as Hlt. rewrite Hb in Hle.
  pose proof (C_bound s z ph Hl Hs k ltac:(lia)). pose proof (C_bound s z ph Hl Hs (S k) ltac:(lia)). pose proof (C_S _ _ _ Hk) as HC.
  pose proof (C_mono z (S k) (length z) (proj2 (lay_z _ _ _ Hl)) ltac:(lia)). pose proof (lay_rest _ _ _ (lay_requests _ _ _ Hl)) as HR. unfold rest in HR.
  pose proof (nb_spec x (nonneg_lookup _ _ _ (proj2 (lay_z _ _ _ Hl)) Hk)).
  pose proof (inv_roots _ _ _ _ _ _ Hi Hd k x j Hk Hj Hle) as Hroot. rewrite <-Hb in Hroot. fold pb in Hroot.
  assert (orb_hashes s z k j = map r_hash rs) as Hh.
  { unfold orb_hashes, orb_size, orb_start, rs. rewrite Hst, Hen. do 3 f_equal. lia. }
  rewrite Hh in Hroot.
  destruct (node_items_hashes (requestableContracts s) (Z.to_nat (requestStart orb)) rs) as (items & Hit & Hm).
  { intros i r Hir. split; [|rewrite Forall_lookup in Hval; by eapply Hval]. apply (inv_requests _ _ _ _ _ _ Hi).
    unfold rs in Hir. apply lookup_take_Some in Hir as [Hir _]. by rewrite lookup_drop in Hir. }
  { unfold rs. rewrite length_take, length_drop. destruct Hs as (_ & _ & ?). lia. }
  exists items. split.
  - rewrite <-Hit. apply imap_ext. intros i r _. simpl. f_equal. lia.
  - unfold DeriveShaFromBMT. rewrite <-Hm. rewrite <-getRoot_eq; [done|]. intros Hnil.
    assert (length rs = 0)%nat as Hz by (rewrite <-(length_map r_hash), Hnil; done). unfold rs in Hz. rewrite length_take, length_drop in Hz. lia.
Qed.

(** ** A request that cannot be finalised *)

Definition rejects (c : Ctx) (r : Request) (id : Z) : Prop := apply c (r <| r_finalized := true |>) id = None \/ accepts c (requestor r) = false.

Lemma rejected_not_finalized s z ph c r : Layout s z ph -> small s z -> applied_inv s z -> EROs s !! Z.to_nat (EROIdToFinalize s) = Some r ->
  isExit r && negb (r_challenged r) = true -> rejects c r (EROIdToFinalize s) -> finalizeRequest c s = None.
Proof.
  intros Hl Hs Ha Hr Hex Hrej. destruct (finalizeRequest c s) as [[s' y]|] eqn:H; [exfalso|done]. unfold finalizeRequest in H.
  destruct (next_request_block s) as [[[[fk f'] e] b]|] eqn:Hn; [|done]. cbn [mbind option_bind] in H.
  apply (next_request_block_ok s z ph Hl Hs Ha) in Hn as (-> & -> & k & x & _). guards.
  match goal with H : b_isRequest _ = true |- _ => destruct (lay_only _ _ _ (lay_blocks _ _ _ Hl) _ H) as (k' & x' & j & Hk' & Hj & -> & Hle) end.
  destruct (lay_block _ _ _ (lay_blocks _ _ _ Hl) k' x' j Hk' Hj Hle) as (_ & Hua & _). rewrite Hua in H.
  change (EROIdToFinalize (s <| lastAppliedEpochNumber := _ |>)) with (EROIdToFinalize s) in H. change (EROs (s <| lastAppliedEpochNumber := _ |>)) with (EROs s) in H.
  rewrite Hr in H. cbn [mbind option_bind] in H. destruct (ORBs _ !! _) as [orb|]; [|done]. cbn [mbind option_bind] in H. guards. destruct (advance _ _ _ _) as [fk' b'].
  assert (apply_exit c (r <| r_finalized := true |>) (EROIdToFinalize s) = None) as Hno; [|by rewrite Hno in H].
  unfold apply_exit, applyRequestInRootChain. change (isExit (r <| r_finalized := true |>)) with (isExit r). change (r_challenged (r <| r_finalized := true |>)) with (r_challenged r).
  change (requestor (r <| r_finalized := true |>)) with (requestor r). rewrite Hex. destruct Hrej as [-> | ->]; [done|]. by destruct (apply c _ _).
Qed.

(** C40: an exit that is not challenged and whose requestor does not take a
    transfer, or whose contract reverts, holds up all requests behind it: no
    call finalises anything as long as it is next. *)
Theorem rejected_exit_blocks_queue n s tr c x s' tr' r : reachable keccak n s tr -> Z.of_nat n + 1 < 2 ^ 28 -> ctx_ok c -> call_ok x ->
  EROs s !! Z.to_nat (EROIdToFinalize s) = Some r -> isExit r = true -> r_challenged r = false -> rejects c r (EROIdToFinalize s) ->
  exec keccak c x s = Some (s', tr') -> tr' = [] /\ EROIdToFinalize s' = EROIdToFinalize s.
Proof.
  intros Hr Hn Hc Hx Hero He Hch Hrej H. destruct (reachable_inv keccak n s tr Hr ltac:(lia)) as (z & ph & Hi).
  assert (finalizeRequest c s = None) as Hno.
  { eapply rejected_not_finalized; try done; [apply Hi|eapply inv_small; [done|lia]|apply Hi|]. by rewrite He, Hch. }
  assert (tr' = []) as ->.
  { destruct x as [a|a|a| | |a|a b| |p1 p2 r1 r2 r3|p r1 r2 r3| | |fk b i receipt proof| |to key v|value to key v| | |m]; cbn [exec] in H;
      try (by apply quiet_Some in H as [_ H]); [by rewrite Hno in H|]. destruct m; cbn [finalizeRequests] in H; [by injection H as _ <-|by rewrite Hno in H]. }
  split; [done|]. destruct (reachable_inv keccak (S n) s' (tr ++ [])) as (z' & ph' & Hi'); [by eapply reach_call|lia|].
  destruct (inv_trace _ _ _ _ _ _ Hi) as [Ht _]. destruct (inv_trace _ _ _ _ _ _ Hi') as [Ht' _]. rewrite app_nil_r in Ht'. congruence.
Qed.
End Claims.
