(* ===== verification/RootChainProgress.v ===== *)
(** * The root chain contract: progress
    In every state that calls reach, the operator can submit the next epoch or
    block, and a submitted block becomes final once its time is over. *)

From S2P Require Import Prelude MathUtil Solidity RecordUpdate Rlp BinaryMerkle PlasmaTx RootChainData RootChain RootChainLayout RootChainCalls RootChainInv.

(** ** Positions *)

Lemma decodePos_encode a b : 0 <= a -> 0 <= b < 2 ^ 128 -> decodePos (a * 2 ^ 128 + b) = (a, b).
Proof.
  intros Ha Hb. unfold decodePos. change (2 ^ 128 - 1) with (Z.ones 128). rewrite Z.land_ones by lia. f_equal.
  - rewrite Z.div_add_l by lia. rewrite Z.div_small by lia. lia.
  - rewrite Z.add_comm, Z.mod_add, Z.mod_small by lia. done.
Qed.

Lemma decodePos_small b : 0 <= b < 2 ^ 128 -> decodePos b = (0, b).
Proof. intros Hb. rewrite <-(decodePos_encode 0 b) by lia. done. Qed.

(** ** Roots *)

Lemma getRoot_total keccak l : l <> [] -> exists root, BMT.getRoot keccak (S (length l)) l = Done root.
Proof.
  intros Hl. rewrite getRoot_eq by done. clear Hl. assert (forall fuel l, (length l < fuel)%nat -> exists root, getBinaryMerkleRoot keccak fuel l = Done root) as H; [|by apply H; lia].
  induction fuel as [|fuel IH]; intros l' Hf; [lia|]. destruct l' as [|a [|b l']]; [by eexists..|].
  rewrite root_step by (simpl; lia). apply IH. rewrite nextlevel_length. pose proof (div2_lt (length (a :: b :: l')) ltac:(simpl; lia)). lia.
Qed.

Lemma request_hashes_total count : forall a rs, 0 <= a -> a + Z.of_nat count <= zlen rs -> is_Some (request_hashes count a rs false).
Proof.
  induction count as [|count IH]; intros a rs Ha Hle; cbn [request_hashes]; [done|]. destruct (lookup_lt_is_Some_2 rs (Z.to_nat a)) as [r Hr]; [lia|]. rewrite Hr. cbn [mbind option_bind].
  destruct (IH (a + 1) rs ltac:(lia) ltac:(lia)) as [l Hl]. rewrite Hl. by eexists.
Qed.

(** The check passes with the root of the hashes. *)
Lemma checkTxRoot_accepts keccak orb rs root : 0 <= requestStart orb <= requestEnd orb -> requestEnd orb < zlen rs -> zlen rs < two64 ->
  (let l := map r_hash (take (Z.to_nat (requestEnd orb - requestStart orb + 1)) (drop (Z.to_nat (requestStart orb)) rs)) in
   BMT.getRoot keccak (S (length l)) l = Done root) -> _checkTxRoot keccak root orb rs false = Some tt.
Proof.
  intros Hs He Hr Hroot. set (m := requestEnd orb - requestStart orb + 1) in *. destruct (request_hashes_total (Z.to_nat m) (requestStart orb) rs ltac:(lia) ltac:(lia)) as [l Hl].
  destruct (request_hashes_map (Z.to_nat m) _ _ _ Hl ltac:(lia)) as [Hm Hlen]. cbv zeta in Hroot. rewrite <-Hm in Hroot.
  unfold _checkTxRoot. fold m. rewrite u256_small by lia. rewrite !(proj2 (Z.ltb_lt _ _)) by lia. cbn [require]. rewrite Hl. cbn [mbind option_bind].
  rewrite (proj2 (Z.leb_le _ _)) by lia. cbn [require]. rewrite Hlen, Nat.sub_diag, app_nil_r, Hroot. by rewrite bool_decide_eq_true_2.
Qed.

(** The root of the hashes of the requests of a block. *)
Definition requests_root (keccak : bytes -> bytes) (orb : RequestBlock) (rs : list Request) (root : bytes) : Prop :=
  let l := map r_hash (take (Z.to_nat (requestEnd orb - requestStart orb + 1)) (drop (Z.to_nat (requestStart orb)) rs)) in
  BMT.getRoot keccak (S (length l)) l = Done root.

Lemma requests_root_total keccak orb rs : 0 <= requestStart orb <= requestEnd orb -> requestEnd orb < zlen rs -> exists root, requests_root keccak orb rs root.
Proof.
  intros Hs He. set (l := map r_hash (take (Z.to_nat (requestEnd orb - requestStart orb + 1)) (drop (Z.to_nat (requestStart orb)) rs))).
  apply (getRoot_total keccak l). intros H0. assert (length l = 0)%nat as Hlen by (by rewrite H0). unfold l in Hlen. rewrite length_map, length_take, length_drop in Hlen. lia.
Qed.

(** ** Submissions *)

Definition may_commit (c : Ctx) (s : RootChain) : Prop := seigManager s = 0 \/ onCommit c = Some true.

Lemma commit_total c s : may_commit c s -> commit c s = Some s.
Proof. unfold commit. intros [-> | ->]; [done|]. by destruct (_ =? 0). Qed.

Lemma prepareNRE_total c s : currentFork s = 0 -> exists f', prepareNRE c s = Some (set_fork 0 f' s).
Proof. intros Hcur. unfold prepareNRE. rewrite Hcur. cbn [Z.eqb orb require]. by eexists. Qed.

Section Submit.
Context (keccak : bytes -> bytes) (c : Ctx) (s : RootChain) (z : list Z) (ph : phase) (Hl : Layout s z ph) (Hs : small s z).
Abbreviation L := (NRELength s).
Abbreviation f := (fork s 0).
Abbreviation q := (length z - 1)%nat.

Lemma insertNRE_total now r1 r2 r3 : ph = Rest -> is_Some (insertNRE now (2 * Z.of_nat q + 1) r1 r2 r3 (EB L z q + 1) (EB L z q + L) f).
Proof.
  intros Hph. pose proof (lay_last _ _ _ Hl) as Hlast. rewrite Hph in Hlast. destruct Hlast as [HlE HlB]. destruct (last_bounds s z ph Hl Hs) as (He & Hb & _).
  destruct (lay_z _ _ _ Hl) as [Hz0 _]. pose proof (lay_nre _ _ _ _ (lay_epochs _ _ _ Hl) q) as Hc. unfold nre_at in Hc. rewrite Hph in Hc. simpl prepared in Hc.
  destruct (Z.leb_spec (2 * Z.of_nat q + 1) (2 * zlen z - 1)); [|lia]. use_core Hc.
  unfold insertNRE. rewrite !add_Some by lia. cbn [mbind option_bind]. rewrite HlE, HlB, Z.eqb_refl. cbn [require]. rewrite Z.eqb_refl, Freq, Fuser, Frebase, Fstart, Fend, !Z.eqb_refl.
  cbn [require negb]. by eexists.
Qed.

Lemma handleSubmitNRE_total r1 r2 r3 : ph = Rest -> may_commit c s ->
  is_Some (handleSubmitNRE c (2 * Z.of_nat q + 1) ((EB L z q + 1) * 2 ^ 128 + (EB L z q + L)) r1 r2 r3 s).
Proof.
  intros Hph Hcm. destruct (lay_fork _ _ _ Hl) as (Hcur & Hfk & Hfst). destruct (lay_z _ _ _ Hl) as [Hz0 Hz]. pose proof (EB_bound s z ph Hl Hs q ltac:(lia)).
  unfold handleSubmitNRE. destruct Hs as (HL & Hz28 & _). rewrite decodePos_encode, decodePos_small, Hcur by lia. cbn [Z.eqb require].
  destruct (insertNRE_total (now c) r1 r2 r3 Hph) as [f1 Hf1]. rewrite Hf1. cbn [mbind option_bind].
  apply (insertNRE_ok s z ph Hl Hs) in Hf1 as (_ & _ & _ & Hc & Hnx & _ & HlE & _). destruct (lookup_lt z q) as [xq Hq]; [lia|].
  assert (fork (set_fork 0 f1 s) 0 = f1) as Hf by (rewrite fork_set; by case_decide). pose proof (lay_epochs _ _ _ Hl) as Le. rewrite Hph in Le.
  destruct (prepareORE_ok c (set_fork 0 f1 s) z xq) as (s2 & Hp & Hfr & _); try rewrite Hf; try done.
  { by eapply epochs_ok_frame. } { rewrite HlE. lia. } { apply Hl. } { eapply links_ok_frame; [done|apply Hl]. }
  rewrite Hp. cbn [mbind option_bind]. exists s2. apply commit_total. destruct Hcm as [Hcm|]; [left|by right].
  rewrite <-Hcm. exact (f_equal seigManager Hfr).
Qed.

Lemma insertBlock_total t now r1 r2 r3 : ph = Submitting t -> is_Some (insertBlock now r1 r2 r3 true false false f).
Proof.
  intros Hph. destruct (submitting_epoch s z ph Hl t Hph) as (x & Hq & Hx & Ht & HlB & HlE & HE & Hc). destruct (last_bounds s z ph Hl Hs) as (_ & Hb & _).
  unfold insertBlock. rewrite add_Some by lia. cbn [mbind option_bind]. rewrite (target_epoch s z ph Hl Hs t Hph).
  change (epoch (f <| lastEpoch := _ |>) ?e) with (epoch f e). use_core Hc. rewrite Fstart, Fend, Freq, Fuser. rewrite !(proj2 (Z.leb_le _ _)) by lia. by eexists.
Qed.

(** The request block of the next block. *)
Lemma next_orb_ok t : ph = Submitting t -> exists x rb, (0 < q)%nat /\ z !! (q - 1)%nat = Some x /\ 0 <= t < nb x /\ lastBlock f = EB L z (q - 1) + L + t /\
  ORBs s !! Z.to_nat (B z (q - 1) + t) = Some rb /\ requestStart rb = C z (q - 1) + 20 * t /\ requestEnd rb = Z.min (C z (q - 1) + 20 * t + 19) (C z q - 1) /\
  0 <= requestStart rb <= requestEnd rb /\ requestEnd rb < zlen (EROs s).
Proof.
  intros Hph. destruct (submitting_epoch s z ph Hl t Hph) as (x & Hq & Hx & Ht & HlB & _). destruct (lay_z _ _ _ Hl) as [_ Hz]. pose proof (nb_spec x (nonneg_lookup _ _ _ Hz Hx)).
  destruct (lay_orbs _ _ _ (lay_requests _ _ _ Hl) (q - 1)%nat x t) as (rb & Horb & Hst & Hen); [by rewrite lookup_app_l by lia|done|]. exists x, rb.
  rewrite B_app in Horb by lia. rewrite C_app in Hst by lia. rewrite !C_app in Hen by lia. pose proof (C_S _ _ _ Hx) as HC.
  pose proof (C_bound s z ph Hl Hs (q - 1)%nat ltac:(lia)). pose proof (C_mono z (S (q - 1)) (length z) Hz ltac:(lia)). replace (S (q - 1)) with q in * by lia.
  pose proof (lay_rest _ _ _ (lay_requests _ _ _ Hl)) as HR. unfold rest in HR. split_and!; try done; lia.
Qed.

Lemma handleSubmitORB_accepts t root rb r1 r3 : ph = Submitting t -> may_commit c s -> ORBs s !! Z.to_nat (B z (q - 1) + t) = Some rb ->
  (development s = false -> _checkTxRoot keccak root rb (EROs s) false = Some tt) -> is_Some (handleSubmitORB keccak c (lastBlock f + 1) r1 root r3 s).
Proof.
  intros Hph Hcm Horb Hroot. destruct (lay_fork _ _ _ Hl) as (Hcur & Hfk & Hfst). destruct (last_bounds s z ph Hl Hs) as (_ & Hb & _).
  destruct (insertBlock_total t (now c) r1 root r3 Hph) as [[f1 [en bn]] Hi]. unfold handleSubmitORB.
  rewrite decodePos_small, Hcur, u64_small, !Z.eqb_refl by (unfold is_u64; lia).
  cbn [Z.eqb require orb]. rewrite Hi. cbn [mbind option_bind]. apply (insertBlock_ok s z ph Hl Hs) in Hi as (t' & Hph' & -> & -> & Hf1). assert (t' = t) as -> by congruence.
  assert (lastBlock f1 = lastBlock f + 1 /\ requestBlockId (block f1 (lastBlock f + 1)) = B z (q - 1) + t) as [Hlb1 Hid].
  { split; [by rewrite Hf1|]. rewrite Hf1. etransitivity; [exact (f_equal requestBlockId (block_set (lastBlock f + 1) _ _ (lastBlock f + 1)))|]. by rewrite decide_True. }
  rewrite Hlb1, Hid, Horb. cbn [mbind option_bind]. set (g := set_epoch _ _ f1). clearbody g.
  destruct (prepareNRE_total c (set_fork 0 g s) Hcur) as [g' Hg'].
  destruct (development s); [|rewrite Hroot by done]; cbn [mbind option_bind]; destruct (_ =? endBlockNumber _); rewrite ?Hg'; cbn [mbind option_bind]; eexists; by apply commit_total.
Qed.

(** The next request block is accepted with the root of its requests. *)
Lemma handleSubmitORB_total t : ph = Submitting t -> may_commit c s ->
  exists k orb root, ORBs s !! k = Some orb /\ requests_root keccak orb (EROs s) root /\ forall r1 r3, exists s', handleSubmitORB keccak c (lastBlock f + 1) r1 root r3 s = Some s' /\
    lastBlock (fork s' 0) = lastBlock f + 1 /\ let pb := block (fork s' 0) (lastBlock f + 1) in b_isRequest pb = true /\ requestBlockId pb = Z.of_nat k /\ transactionsRoot pb = root.
Proof.
  intros Hph Hcm. destruct (next_orb_ok t Hph) as (x & rb & Hq & _ & Ht & _ & Horb & _ & _ & Hst & Hen). pose proof Hs as (_ & _ & HN). pose proof (B_bound s z ph Hl Hs (q - 1) ltac:(lia)).
  destruct (requests_root_total keccak rb (EROs s) Hst Hen) as [root Hroot]. exists (Z.to_nat (B z (q - 1) + t)), rb, root. split; [done|]. split; [done|]. intros r1 r3.
  destruct (handleSubmitORB_accepts t root rb r1 r3 Hph Hcm Horb) as [s' Hs']; [intros _; apply checkTxRoot_accepts; done || lia|]. exists s'. split; [done|].
  destruct (handleSubmitORB_ok keccak c _ r1 root r3 s s' z ph Hl Hs Hs') as (t' & ph' & orb & Hph' & _ & _ & _ & HlB & _ & _ & _ & _ & Hbl). split; [done|]. cbv zeta. rewrite Hbl, decide_True by done.
  assert (t' = t) as -> by congruence. split; [done|]. split; [|done]. cbn. replace (length z - 2)%nat with (q - 1)%nat by lia. lia.
Qed.
End Submit.

(** ** Finalising blocks *)

Section Finalise.
Context (c : Ctx) (s : RootChain) (z : list Z) (ph : phase) (Hl : Layout s z ph) (Hs : small s z) (Hf : finals_ok (NRELength s) z (fork s 0)) (Hgas : (2 <= gas c)%nat).
Abbreviation L := (NRELength s).
Abbreviation f := (fork s 0).

Lemma next_nre_total k : (k < length z)%nat ->
  lastFinalizedEpoch f = 2 * Z.of_nat k \/ lastFinalizedEpoch f = 2 * Z.of_nat k - 1 /\ (0 < k)%nat ->
  next_nre (gas c) f (u64 (lastFinalizedEpoch f + 1)) = Some (2 * Z.of_nat k + 1).
Proof.
  intros Hk Hle. destruct Hs as (_ & Hz28 & _). rewrite u64_small by (unfold is_u64; lia). destruct (gas c) as [|[|g]]; [lia..|]. cbn [next_nre].
  destruct Hle as [->|[-> Hk0]]; [by rewrite (nre_is s z ph Hl)|]. destruct k as [|k]; [lia|]. replace (2 * Z.of_nat (S k) - 1 + 1) with (2 * Z.of_nat (S k)) by lia.
  rewrite (ore_is s z ph Hl), u256_small by lia. by rewrite (nre_is s z ph Hl).
Qed.

(** What a step of finalisation looks at. *)
Lemma finalizeBlock_cases : lastFinalizedBlock f < lastBlock f ->
  (b_isRequest (block f (lastFinalizedBlock f + 1)) = true /\
   _finalizeBlock c s = if now c <? b_timestamp (block f (lastFinalizedBlock f + 1)) + CP_COMPUTATION then Some (s, false)
                        else Some (set_fork 0 (_doFinalizeBlock c (lastFinalizedBlock f + 1) f) s, true)) \/
  (exists e, _finalizeBlock c s = (if now c <? NRE_submittedAt (epoch f e) + CP_WITHHOLDING then Some (s, false) else Some (set_fork 0 (_doFinalizeNRE c e f) s, true))).
Proof.
  intros Hlt. destruct (final_bounds s z ph Hl Hs Hf) as (Hb1 & Hb2 & Hb3). destruct (lay_fork _ _ _ Hl) as (Hcur & Hfk & Hfst). unfold _finalizeBlock. rewrite Hcur, Hfk, Hfst.
  cbn [Z.eqb negb]. rewrite u64_small by (unfold is_u64; lia). rewrite Z.max_r by lia. destruct (Z.ltb_spec (lastBlock f) (lastFinalizedBlock f + 1)); [lia|].
  rewrite (lay_unchallenged _ _ _ (lay_blocks _ _ _ Hl)). destruct (next_final s z ph Hl Hs Hf Hlt) as [(k & x & j & Hk & Hj & Hn)|(k & Hk & Hn & Hle & Hle2 & Hp & He)].
  - left. destruct (lay_block _ _ _ (lay_blocks _ _ _ Hl) k x j Hk Hj ltac:(lia)) as (Hreq & _). rewrite <-Hn in Hreq. by rewrite Hreq.
  - right. exists (2 * Z.of_nat k + 1). destruct Hs as ([HL _] & _). rewrite (nre_block_pos s z ph Hl ltac:(done) k) by lia. rewrite (next_nre_total k Hk He). cbn [mbind option_bind].
    pose proof (lay_nre _ _ _ _ (lay_epochs _ _ _ Hl) k) as Hc. unfold nre_at in Hc. destruct (Z.leb_spec (2 * Z.of_nat k + 1) (prepared z ph)); [|lia]. use_core Hc.
    unfold _checkFinalizableNRE. rewrite Finit, Freq, Fchg, Fchd. cbn [negb orb]. destruct (Z.ltb_spec (lastEpoch f) (2 * Z.of_nat k + 1)); [lia|].
    rewrite Z.leb_antisym. by destruct (now c <? _).
Qed.

Lemma finalizeBlock_total : exists g ok, _finalizeBlock c s = Some (s <| forks := g |>, ok).
Proof.
  assert (s <| forks := forks s |> = s) as Hsame by (by destruct s). destruct (decide (lastFinalizedBlock f < lastBlock f)) as [Hlt|Hge].
  - destruct (finalizeBlock_cases Hlt) as [[_ ->]|[e ->]]; (destruct (now c <? _); [exists (forks s); rewrite Hsame; by eexists|by do 2 eexists]).
  - destruct (final_bounds s z ph Hl Hs Hf) as (Hb1 & Hb2 & Hb3). destruct (lay_fork _ _ _ Hl) as (Hcur & Hfk & Hfst). unfold _finalizeBlock. rewrite Hcur, Hfk, Hfst.
    cbn [Z.eqb negb]. rewrite u64_small by (unfold is_u64; lia). rewrite Z.max_r by lia. destruct (Z.ltb_spec (lastBlock f) (lastFinalizedBlock f + 1)); [|lia].
    exists (forks s). rewrite Hsame. by eexists.
Qed.
End Finalise.

Section Claims.
Variable keccak : bytes -> bytes.

(** Finalisation before a submission changes blocks and epochs only. *)
Lemma finalizeBlocks_total n s tr z ph c : Inv keccak n s tr z ph -> Z.of_nat n < 2 ^ 28 -> (2 <= gas c)%nat ->
  exists g, finalizeBlocks c s = Some (s <| forks := g |>) /\ Inv keccak n (s <| forks := g |>) tr z ph.
Proof.
  intros Hi Hn Hgas. destruct (finalizeBlock_total c s z ph (inv_layout _ _ _ _ _ _ Hi) (inv_small _ _ _ _ _ _ Hi Hn) (proj1 (inv_final _ _ _ _ _ _ Hi)) Hgas) as (g & ok & Hfb).
  assert (exists g, finalizeBlocks c s = Some (s <| forks := g |>)) as [g' Hg].
  { unfold finalizeBlocks. destruct (development s); [exists (forks s); by destruct s|]. rewrite Hfb. by exists g. }
  exists g'. split; [done|]. by eapply finalizeBlocks_inv.
Qed.

Lemma submitter_has s c : sender c <> 0 -> sender c ∈ submitters s -> has (submitters s) (sender c) = Some true.
Proof. intros H0 Hsub. unfold has. destruct (Z.eqb_spec (sender c) 0); [done|]. cbn [negb require]. by rewrite bool_decide_eq_true_2. Qed.

(** The blocks so far are those of the layout, so that finalising adds none. *)
Lemma lastBlock_layout s s2 z ph : Layout s z ph -> Layout s2 z ph -> NRELength s2 = NRELength s -> lastBlock (fork s2 0) = lastBlock (fork s 0).
Proof.
  intros Hl Hl2 HL. destruct ph as [|t].
  - destruct (lay_last _ _ _ Hl) as [_ ->], (lay_last _ _ _ Hl2) as [_ ->]. by rewrite HL.
  - destruct (submitting_epoch s z _ Hl t eq_refl) as (_ & _ & _ & _ & -> & _), (submitting_epoch s2 z _ Hl2 t eq_refl) as (_ & _ & _ & _ & -> & _). by rewrite HL.
Qed.

(** C14: the chain of epochs does not get stuck while its seigniorage manager, if
    there is one, accepts commits: in every reachable state, less than 2^28 calls
    after the start, a submitter can submit the next non-request epoch with any
    roots, which appends the blocks of an epoch, or the next request block with the
    root of the requests of a block that the contract made, which appends a block
    that has that root and refers to those requests. *)
Theorem submission_progress n s tr c : reachable keccak n s tr -> Z.of_nat n < 2 ^ 28 ->
  sender c <> 0 -> sender c ∈ submitters s -> may_commit c s -> (2 <= gas c)%nat ->
  (exists pos1 pos2, forall r1 r2 r3, exists s', submitNRE c pos1 pos2 r1 r2 r3 s = Some s' /\ lastBlock (fork s' 0) = lastBlock (fork s 0) + NRELength s) \/
  (exists pos k orb root, ORBs s !! k = Some orb /\ requests_root keccak orb (EROs s) root /\ forall r1 r3, exists s', submitORB keccak c pos r1 root r3 s = Some s' /\
     lastBlock (fork s' 0) = lastBlock (fork s 0) + 1 /\
     let pb := block (fork s' 0) (lastBlock (fork s 0) + 1) in b_isRequest pb = true /\ requestBlockId pb = Z.of_nat k /\ transactionsRoot pb = root).
Proof.
  intros Hr Hn H0 Hsub Hcm Hgas. destruct (reachable_inv keccak n s tr Hr ltac:(lia)) as (z & ph & Hi).
  destruct (finalizeBlocks_total n s tr z ph c Hi Hn Hgas) as (g & Hs2 & Hi2). set (s2 := s <| forks := g |>) in *.
  pose proof (inv_layout _ _ _ _ _ _ Hi2) as Hl2. pose proof (inv_small _ _ _ _ _ _ Hi2 Hn) as Hsm2. pose proof (submitter_has s c H0 Hsub) as Hhas.
  pose proof (lastBlock_layout s s2 z ph (inv_layout _ _ _ _ _ _ Hi) Hl2 eq_refl) as HlB. destruct ph as [|t].
  - left. do 2 eexists. intros r1 r2 r3. destruct (handleSubmitNRE_total c s2 z Rest Hl2 Hsm2 r1 r2 r3 eq_refl Hcm) as [s' Hs']. exists s'. unfold submitNRE. rewrite Hhas. cbn [mbind option_bind require]. rewrite Hs2. cbn [mbind option_bind].
    split; [exact Hs'|]. destruct (handleSubmitNRE_ok c _ _ r1 r2 r3 s2 s' z Rest Hl2 Hsm2 Hs') as (_ & _ & _ & HE & HlB' & _). change (NRELength s2) with (NRELength s) in *. lia.
  - right. destruct (handleSubmitORB_total keccak c s2 z _ Hl2 Hsm2 t eq_refl Hcm) as (k & orb & root & Horb & Hroot & Hsub'). exists (lastBlock (fork s2 0) + 1), k, orb, root. split; [done|]. split; [done|].
    intros r1 r3. destruct (Hsub' r1 r3) as (s' & Hs' & Hrest). exists s'. unfold submitORB. rewrite Hhas. cbn [mbind option_bind require]. rewrite Hs2. cbn [mbind option_bind]. rewrite HlB in Hs', Hrest. rewrite HlB. by split.
Qed.

(** C38: every submitted block becomes final: when blocks wait and the time of
    the last submissions is over, finalizeBlock succeeds and finalises at least
    one block more. *)
Theorem blocks_become_final n s tr c : reachable keccak n s tr -> Z.of_nat n < 2 ^ 28 -> (2 <= gas c)%nat -> let f := fork s 0 in
  lastFinalizedBlock f < lastBlock f ->
  b_timestamp (block f (lastFinalizedBlock f + 1)) + CP_COMPUTATION <= now c -> (forall e, NRE_submittedAt (epoch f e) + CP_WITHHOLDING <= now c) ->
  exists s', finalizeBlock c s = Some s' /\ lastFinalizedBlock f < lastFinalizedBlock (fork s' 0).
Proof.
  intros Hr Hn Hgas f Hlt Hb He. destruct (reachable_inv keccak n s tr Hr ltac:(lia)) as (z & ph & Hi). pose proof (inv_layout _ _ _ _ _ _ Hi) as Hl.
  pose proof (inv_small _ _ _ _ _ _ Hi Hn) as Hs. destruct (inv_final _ _ _ _ _ _ Hi) as [Hf Hfl].
  assert (exists s', _finalizeBlock c s = Some (s', true)) as [s' Hs'].
  { destruct (finalizeBlock_cases c s z ph Hl Hs Hf Hgas Hlt) as [[_ ->]|[e ->]].
    - fold f. destruct (Z.ltb_spec (now c) (b_timestamp (block f (lastFinalizedBlock f + 1)) + CP_COMPUTATION)); [lia|by eexists].
    - specialize (He e). fold f. destruct (Z.ltb_spec (now c) (NRE_submittedAt (epoch f e) + CP_WITHHOLDING)); [lia|by eexists]. }
  exists s'. unfold finalizeBlock. rewrite Hs'. split; [done|].
  destruct (finalizeBlock_step s z ph Hl Hs c s' true Hf Hfl Hs') as [[_ ?]|(_ & f' & -> & _ & _ & _ & Hlt')]; [done|]. rewrite fork_set, decide_True by done. done.
Qed.
End Claims.
