(* ===== verification/RootChainNode.v ===== *)
(** * The operator's node at work (pls/rootchain_manager.go)
    When the contract has prepared a request epoch, the node reads the request
    blocks and requests of the contract, makes the transactions of each block
    (handleEpochPrepared), mines them and submits the block
    (addBlockSubmitTransaction).  The contract accepts what it submits. *)

From S2P Require Import Prelude MathUtil Solidity RecordUpdate Rlp BinaryMerkle PlasmaTx RootChainData RootChain RootChainLayout RootChainCalls RootChainInv RootChainClaims RootChainProgress.

Definition makePos (v1 v2 : Z) : Z := v1 * 2 ^ 128 + v2.

Section Node.
Variable keccak : bytes -> bytes.

(** The transactions of the requests from [requestId] to [requestEnd].  [None]
    is an error: the contract reverts when an index is out of range.  Each
    iteration takes one unit of fuel. *)
Fixpoint orb_body (fuel : nat) (s : RootChain) (requestId requestEnd : Z) : outcome (option (list Rlp.val)) :=
  match fuel with
  | O => OutOfFuel
  | S fuel =>
      if requestId <=? requestEnd then
        match EROs s !! Z.to_nat requestId with
        | None => Done None
        | Some request =>
            let! requestTx := request_tx keccak (at_ (requestableContracts s)) requestId request in
            let! body := orb_body fuel s (u64 (requestId + 1)) requestEnd in
            Done (option_map (cons requestTx) body)
        end
      else Done (Some [])
  end.

(** The bodies of the blocks from [blockNumber] to [endBlockNumber]. *)
Fixpoint epoch_bodies (fuel : nat) (s : RootChain) (blockNumber endBlockNumber requestBlockId : Z) : outcome (option (list (list Rlp.val))) :=
  match fuel with
  | O => OutOfFuel
  | S fuel' =>
      if blockNumber <=? endBlockNumber then
        match ORBs s !! Z.to_nat requestBlockId with
        | None => Done None
        | Some orb =>
            let! body := orb_body fuel s (requestStart orb) (requestEnd orb) in
            match body with
            | None => Done None
            | Some body => let! bodies := epoch_bodies fuel' s (blockNumber + 1) endBlockNumber (requestBlockId + 1) in Done (option_map (cons body) bodies)
            end
        end
      else Done (Some [])
  end.

(** The part of handleEpochPrepared that reads the contract, for the event of an
    epoch of the current fork with these block numbers. *)
Definition prepare_bodies (fuel : nat) (s : RootChain) (epochNumber startBlockNumber endBlockNumber : Z) : outcome (option (list (list Rlp.val))) :=
  let epoch := epoch (fork s (currentFork s)) epochNumber in
  epoch_bodies fuel s startBlockNumber endBlockNumber (RE_firstRequestBlockId epoch).

(** The transactions root of a mined block (types.NewBlock). *)
Definition body_root (body : list Rlp.val) (root : bytes) : Prop :=
  exists items, Forall2 (fun tx item => EncodeToBytes txdata tx = inr item) body items /\ DeriveShaFromBMT keccak items = Done root.
End Node.

Lemma makePos_decodePos v1 v2 : 0 <= v1 -> 0 <= v2 < 2 ^ 128 -> decodePos (makePos v1 v2) = (v1, v2).
Proof. apply decodePos_encode. Qed.

(** ** The bodies the node makes *)

Section Bodies.
Context (keccak : bytes -> bytes) (s : RootChain).

(** Transactions whose encodings have these hashes. *)
Definition has_hashes (body : list Rlp.val) (hashes : list bytes) : Prop :=
  exists items, Forall2 (fun tx item => EncodeToBytes txdata tx = inr item) body items /\ hashes = map keccak items.

Lemma orb_body_ok m : forall fuel a, (m < fuel)%nat -> Z.of_nat (a + m) < two63 -> (a + m <= length (EROs s))%nat ->
  (forall i r, EROs s !! i = Some r -> request_inv keccak (requestableContracts s) i r /\ ((a <= i < a + m)%nat -> value_ok r)) ->
  exists body, orb_body keccak fuel s (Z.of_nat a) (Z.of_nat a + Z.of_nat m - 1) = Done (Some body) /\ has_hashes body (map r_hash (take m (drop a (EROs s)))).
Proof.
  induction m as [|m IH]; intros fuel a Hf H63 Hlen Hr; destruct fuel as [|fuel]; try lia; cbn [orb_body].
  - rewrite (proj2 (Z.leb_gt _ _)) by lia. exists []. split; [done|]. by exists [].
  - rewrite (proj2 (Z.leb_le _ _)), Nat2Z.id by lia. destruct (lookup_lt_is_Some_2 (EROs s) a) as [r Hra]; [lia|]. rewrite Hra.
    destruct (Hr a r Hra) as [Hinv Hv]. destruct (request_tx_hash keccak _ a r ltac:(lia) Hinv (Hv ltac:(lia))) as (tx & b & -> & Henc & Hh). cbn [obind].
    rewrite u64_small by (unfold is_u64; lia). replace (Z.of_nat a + 1) with (Z.of_nat (S a)) by lia. replace (Z.of_nat a + Z.of_nat (S m) - 1) with (Z.of_nat (S a) + Z.of_nat m - 1) by lia.
    destruct (IH fuel (S a)) as (body & -> & items & Hi & Hm); [lia..| |].
    { intros i r' Hr'. destruct (Hr i r' Hr') as [? Hv']. split; [done|]. intros ?. apply Hv'. lia. }
    exists (tx :: body). split; [done|]. exists (b :: items). split; [by constructor|]. rewrite (drop_S _ _ _ Hra). cbn [take map]. by rewrite Hh, Hm.
Qed.

Context (z : list Z) (ph : phase) (k : nat) (x : Z) (Hl : Layout s z ph) (Hs : small s z) (Hk : z !! k = Some x).
Context (Hr : forall i r, EROs s !! i = Some r -> request_inv keccak (requestableContracts s) i r /\ (C z k <= Z.of_nat i < C z (S k) -> value_ok r)).

Lemma orb_bounds j : 0 <= j < nb x -> exists rb, ORBs s !! Z.to_nat (B z k + j) = Some rb /\ requestStart rb = orb_start z k j /\
  requestEnd rb = orb_start z k j + orb_size z k j - 1 /\ 0 <= orb_start z k j /\ C z k <= orb_start z k j /\ 0 < orb_size z k j <= 20 /\
  orb_start z k j + orb_size z k j <= C z (S k) /\ C z (S k) <= zlen (EROs s).
Proof.
  intros Hj. destruct (lay_z _ _ _ Hl) as [_ Hz]. apply lookup_lt_Some in Hk as Hlt. pose proof (nb_spec x (nonneg_lookup _ _ _ Hz Hk)). pose proof (C_S _ _ _ Hk) as HC.
  destruct (lay_orbs _ _ _ (lay_requests _ _ _ Hl) k x j) as (rb & Horb & Hst & Hen); [by rewrite lookup_app_l by lia|done|]. exists rb.
  rewrite B_app in Horb by lia. rewrite C_app in Hst by lia. rewrite !C_app in Hen by lia. pose proof (C_bound s z ph Hl Hs k ltac:(lia)).
  pose proof (C_mono z (S k) (length z) Hz ltac:(lia)). pose proof (lay_rest _ _ _ (lay_requests _ _ _ Hl)) as HR. unfold rest in HR.
  unfold orb_start, orb_size, orb_start in *. split_and!; try done; lia.
Qed.

Lemma epoch_bodies_ok m : forall fuel j b, (m + 21 < fuel)%nat -> 0 <= j -> j + Z.of_nat m = nb x ->
  exists bodies, epoch_bodies keccak fuel s b (b + Z.of_nat m - 1) (B z k + j) = Done (Some bodies) /\ length bodies = m /\
    forall i, (i < m)%nat -> exists body, bodies !! i = Some body /\ has_hashes body (orb_hashes s z k (j + Z.of_nat i)).
Proof.
  induction m as [|m IH]; intros fuel j b Hf Hj Hm; destruct fuel as [|fuel]; try lia; cbn [epoch_bodies].
  - rewrite (proj2 (Z.leb_gt _ _)) by lia. exists []. split; [done|]. split; [done|]. intros i Hi. lia.
  - rewrite (proj2 (Z.leb_le _ _)) by lia. destruct (orb_bounds j ltac:(lia)) as (rb & -> & -> & -> & H0 & H1 & H2 & H3 & H4). destruct Hs as (_ & _ & HN).
    destruct (orb_body_ok (Z.to_nat (orb_size z k j)) (S fuel) (Z.to_nat (orb_start z k j))) as (body & Hb & Hh); [lia..| |].
    { intros i r Hir. destruct (Hr i r Hir) as [Hinv Hv]. split; [done|]. intros ?. apply Hv. lia. }
    rewrite !Z2Nat.id in Hb by lia. rewrite Hb. cbn [obind]. destruct (IH fuel (j + 1) (b + 1)) as (bodies & Hbs & Hlen & Hrest); [lia..|].
    replace (b + 1 + Z.of_nat m - 1) with (b + Z.of_nat (S m) - 1) in Hbs by lia. replace (B z k + (j + 1)) with (B z k + j + 1) in Hbs by lia. rewrite Hbs. cbn [obind option_map].
    exists (body :: bodies). split; [done|]. split; [by simpl; rewrite Hlen|]. intros [|i] Hi.
    + exists body. split; [done|]. rewrite Z.add_0_r. done.
    + destruct (Hrest i ltac:(lia)) as (body' & Hb' & Hh'). exists body'. split; [done|]. by replace (j + Z.of_nat (S i)) with (j + 1 + Z.of_nat i) by lia.
Qed.
End Bodies.

(** The epoch of the next block (lib/Data.sol insertBlock). *)
Definition next_epoch (f : Fork) : Z :=
  if lastBlock f =? endBlockNumber (epoch f (lastEpoch f)) then lastEpoch f + 1 else lastEpoch f.

Lemma next_epoch_request s z ph : Layout s z ph -> e_isRequest (epoch (fork s 0) (next_epoch (fork s 0))) = true ->
  exists t, ph = Submitting t /\ next_epoch (fork s 0) = 2 * Z.of_nat (length z - 1).
Proof.
  intros Hl. pose proof (last_end s z ph Hl) as Hend. unfold next_epoch. destruct ph as [|t].
  - destruct (lay_last _ _ _ Hl) as [HlE _]. rewrite <-Hend, Z.eqb_refl, HlE. intros H. by rewrite (nre_is s z Rest Hl) in H.
  - destruct (submitting_epoch s z _ Hl t eq_refl) as (x & Hq & _ & _ & _ & HlE & _). intros _. exists t. split; [done|]. destruct (Z.eqb_spec t 0) as [->|].
    + rewrite Hend, Z.eqb_refl, HlE. lia.
    + destruct (Z.eqb_spec (lastBlock (fork s 0)) (endBlockNumber (epoch (fork s 0) (lastEpoch (fork s 0))))); [lia|done].
Qed.

Lemma has_hashes_root keccak body hashes : has_hashes keccak body hashes -> hashes <> [] ->
  exists root, body_root keccak body root /\ BMT.getRoot keccak (S (length hashes)) hashes = Done root.
Proof.
  intros (items & Hi & Hh) Hne. destruct (getRoot_total keccak hashes Hne) as [root Hroot]. exists root. split; [|done]. exists items. split; [done|].
  unfold DeriveShaFromBMT. rewrite <-Hh, <-getRoot_eq; done.
Qed.

(** C7: the contract accepts the blocks that the operator's node makes: in every
    reachable state in which a request block is next and a seigniorage manager,
    if there is one, accepts commits, and if every enter of Ether in the epoch
    has a value of one word between 1 and 2^128 - 1, the node makes the blocks
    of the whole epoch from what it reads of the contract, and submitting the
    next of them as a submitter, at the position and with the transactions root
    that the node computes, succeeds. *)
Theorem node_blocks_accepted keccak n s tr c fuel : reachable keccak n s tr -> Z.of_nat n < 2 ^ 28 ->
  sender c <> 0 -> sender c ∈ submitters s -> may_commit c s -> (2 <= gas c)%nat ->
  let f := fork s 0 in let e := epoch f (next_epoch f) in
  e_isRequest e = true -> (forall i r, EROs s !! i = Some r -> RE_requestStart e <= Z.of_nat i <= RE_requestEnd e -> value_ok r) ->
  endBlockNumber e - startBlockNumber e + 23 < Z.of_nat fuel ->
  exists bodies body root, prepare_bodies keccak fuel s (next_epoch f) (startBlockNumber e) (endBlockNumber e) = Done (Some bodies) /\
    zlen bodies = endBlockNumber e - startBlockNumber e + 1 /\ bodies !! Z.to_nat (lastBlock f + 1 - startBlockNumber e) = Some body /\ body_root keccak body root /\
    forall r1 r3, is_Some (submitORB keccak c (makePos (currentFork s) (lastBlock f + 1)) r1 root r3 s).
Proof.
  intros Hr Hn H0 Hsub Hcm Hgas f e Hreq Hval Hfuel. destruct (reachable_inv keccak n s tr Hr ltac:(lia)) as (z & ph & Hi).
  pose proof (inv_layout _ _ _ _ _ _ Hi) as Hl. pose proof (inv_small _ _ _ _ _ _ Hi Hn) as Hs. destruct (lay_fork _ _ _ Hl) as (Hcur & _).
  destruct (next_epoch_request s z ph Hl Hreq) as (t & Hph & Hne). unfold e in *. clear e. fold f in Hne. rewrite Hne in *.
  destruct (submitting_epoch s z ph Hl t Hph) as (x & Hq & Hx & Ht & HlB & _ & HEB & Hc). use_core Hc. set (q := (length z - 1)%nat) in *. fold f in Fstart, Fend, Frs, Fre, Ffb.
  pose proof (C_S _ _ _ Hx) as HCS. pose proof (nonneg_lookup _ _ _ (proj2 (lay_z _ _ _ Hl)) Hx). replace (S (q - 1)) with q in HCS by lia.
  destruct (epoch_bodies_ok keccak s z ph (q - 1) x Hl Hs Hx) with (m := Z.to_nat (nb x)) (fuel := fuel) (j := 0) (b := startBlockNumber (epoch f (2 * Z.of_nat q)))
    as (bodies & Hb & Hlen & Hbodies); [|lia..|].
  { intros i r Hir. split; [by apply (inv_requests _ _ _ _ _ _ Hi)|]. intros HC. apply (Hval i r Hir). rewrite Frs, Fre. replace (S (q - 1)) with q in HC by lia. lia. }
  destruct (Hbodies (Z.to_nat t)) as (body & Hbody & Hh); [lia|]. rewrite Z2Nat.id in Hh by lia.
  destruct (orb_bounds s z ph (q - 1) x Hl Hs Hx t Ht) as (rb & Horb & Hst & Hen & Hst0 & _ & Hsz & HCe & HCN).
  assert (length (orb_hashes s z (q - 1) t) <> 0)%nat as Hne0.
  { unfold orb_hashes. rewrite length_map, length_take, length_drop. lia. }
  destruct (has_hashes_root keccak body (orb_hashes s z (q - 1) t) Hh) as (root & Hroot & Hget); [intros Hnil; by rewrite Hnil in Hne0|]. exists bodies, body, root.
  split; [|split; [|split; [|split]]]; [..|done|].
  - unfold prepare_bodies. rewrite Hcur. fold f. rewrite Ffb. rewrite Z.add_0_r in Hb. rewrite <-Hb. f_equal. lia.
  - lia.
  - rewrite <-Hbody. f_equal. fold f in HlB. lia.
  - intros r1 r3. destruct (finalizeBlocks_total keccak n s tr z ph c Hi Hn Hgas) as (g & Hs2 & Hi2). set (s2 := s <| forks := g |>) in *.
    unfold submitORB. rewrite (submitter_has s c H0 Hsub). cbn [mbind option_bind require]. rewrite Hs2. cbn [mbind option_bind].
    destruct (submitting_epoch s2 z ph (inv_layout _ _ _ _ _ _ Hi2) t Hph) as (_ & _ & _ & _ & HlB2 & _). change (NRELength s2) with (NRELength s) in HlB2. fold q in HlB2.
    rewrite Hcur. unfold f. rewrite HlB, <-HlB2.
    apply (handleSubmitORB_accepts keccak c s2 z ph (inv_layout _ _ _ _ _ _ Hi2) (inv_small _ _ _ _ _ _ Hi2 Hn) t root rb); [done..|]. intros _.
    destruct Hs as (_ & _ & HN). apply checkTxRoot_accepts; [lia|change (EROs s2) with (EROs s); lia..|]. cbv zeta. rewrite Hst, Hen.
    replace (_ - _ + 1) with (orb_size z (q - 1) t) by lia. done.
Qed.
