(* ===== verification/RootChainExample.v ===== *)
(** * The root chain contract: an example
    A run of the contract with an exit and an enter of Ether, from the
    constructor to the finalisation of both, at which the properties of the
    contract are applied. *)

From S2P Require Import Prelude MathUtil Solidity RecordUpdate Rlp BinaryMerkle PlasmaTx RootChainData RootChain RootChainLayout RootChainCalls RootChainInv RootChainClaims RootChainProgress RootChainNode.

Module RootChainExample.
Definition keccak : bytes -> bytes := MerkleExample.toy_keccak.

(** ** Runs *)

Fixpoint run (l : list (Ctx * call)) (s : RootChain) (tr : list finalization) : option (RootChain * list finalization) :=
  match l with
  | [] => Some (s, tr)
  | (c, x) :: l => '(s, tr') ← exec keccak c x s; run l s (tr ++ tr')
  end.

Definition step_ok (p : Ctx * call) : Prop := ctx_ok (fst p) /\ call_ok (snd p).

Lemma run_reachable l : forall n s tr s' tr', reachable keccak n s tr -> Forall step_ok l -> run l s tr = Some (s', tr') -> reachable keccak (n + length l) s' tr'.
Proof.
  induction l as [|[c x] l IH]; intros n s tr s' tr' Hr Hok H; cbn [run] in H.
  - injection H as <- <-. by rewrite Nat.add_0_r.
  - destruct (exec keccak c x s) as [[s1 tr1]|] eqn:He; [|done]. cbn [mbind option_bind] in H. inversion Hok as [|? ? [Hc Hx] Hok']. subst.
    cbn [length]. rewrite Nat.add_succ_r. apply (IH (S n) s1 (tr ++ tr1)); [by eapply reach_call|done|done].
Qed.

(** The operator is the account 1, the requestable contract 7 stands for the
    contract 77 of the child chain, and 5 is the Ether token. *)
Definition at_time (who t : Z) : Ctx := mkCtx who t (fun _ => true) (fun _ _ => Some true) (fun _ => true) None [] 10.

Definition word (x : Z) : bytes := be_bytes 32 x.
Definition calls (root : bytes) : list (Ctx * call) :=
  [ (at_time 1 1000, MapRequestableContract 7 77);
    (at_time 9 1001, StartExit 7 (word 1) (word 2));
    (at_time 9 1002, StartEnter 3 5 (word 0) (word 3));
    (at_time 1 1003, SubmitNRE 1 (1 * 2 ^ 128 + 2) (word 11) (word 12) (word 13));
    (at_time 1 1004, SubmitNRE 3 (3 * 2 ^ 128 + 4) (word 21) (word 22) (word 23));
    (at_time 1 1005, SubmitORB 5 (word 31) root (word 33));
    (at_time 2 1100, FinalizeBlock); (at_time 2 1101, FinalizeBlock); (at_time 2 1102, FinalizeBlock);
    (at_time 2 1200, FinalizeRequest); (at_time 2 1201, FinalizeRequests 1) ].

Definition zeroRC : RootChain := mkRootChain false 0 0 0 0 0 ∅ ∅ [] [] [] [] 0 ∅ ∅ 0 0 0 0 0 ∅ ∅ ∅.
Definition s0 : RootChain := default zeroRC (constructor (at_time 1 999) 3 4 5 false 2 (word 0) (word 0) (word 0)).

Definition root : bytes :=
  match run (take 5 (calls [])) s0 [] with
  | Some (s, _) => match BMT.getRoot keccak 10 (map r_hash (EROs s)) with Done r => r | _ => [] end
  | None => []
  end.

(** The state after [n] of the calls and what they finalised. *)
Definition after (n : nat) : RootChain * list finalization := default (zeroRC, []) (run (take n (calls root)) s0 []).

Lemma calls_ok : Forall step_ok (calls root).
Proof. repeat constructor; cbn; lia. Qed.

Lemma after_reachable n : run (take n (calls root)) s0 [] <> None -> reachable keccak (length (take n (calls root))) (fst (after n)) (snd (after n)).
Proof.
  intros H. apply (run_reachable (take n (calls root)) 0 s0 []).
  - apply (reach_init keccak (at_time 1 999) 3 4 5 false 2 (word 0) (word 0) (word 0)); [repeat constructor; cbn; lia|lia|vm_compute; reflexivity].
  - apply Forall_take, calls_ok.
  - unfold after. destruct (run _ _ _) as [[s tr]|]; done.
Qed.

Definition submitted_state : RootChain := fst (after 6).
Definition final_state : RootChain := fst (after 9).

Lemma submitted_reachable : reachable keccak 6 submitted_state [].
Proof. apply (after_reachable 6). vm_compute. discriminate. Qed.

Lemma final_reachable : reachable keccak 9 final_state [].
Proof. apply (after_reachable 9). vm_compute. discriminate. Qed.

(** ** The properties at these states *)

Lemma rootchain_layout_witness : exists z ph, Layout submitted_state z ph /\ finals_ok (NRELength submitted_state) z (fork submitted_state 0) /\ flags_ok (fork submitted_state 0).
Proof. apply (rootchain_layout keccak 6 submitted_state []); [exact submitted_reachable|lia]. Defined.

Definition last_state : RootChain := fst (after 11).
Definition last_trace : list finalization := snd (after 11).

Lemma requests_finalized_in_order_witness : (zlen last_trace = EROIdToFinalize last_state /\ EROIdToFinalize last_state <= zlen (EROs last_state) /\
  (forall i x, last_trace !! i = Some x -> exists r, EROs last_state !! i = Some r /\ x = mkFinalization false (Z.of_nat i) (isExit r && negb (r_challenged r))) /\
  (forall i r, EROs last_state !! i = Some r -> r_finalized r = (Z.of_nat i <? EROIdToFinalize last_state))) /\ zlen last_trace = 2.
Proof. split; [|reflexivity]. apply (requests_finalized_in_order keccak 11); [apply (after_reachable 11); vm_compute; discriminate|lia]. Defined.

Definition orb0 : RequestBlock := default zeroRequestBlock (head (ORBs final_state)).
Definition ero (n : nat) : Request := default zeroRequest (EROs final_state !! n).

Lemma next_request_finalizes_witness : exists s', finalizeRequest (at_time 2 1200) final_state = Some (s', mkFinalization false 0 true).
Proof.
  apply (next_request_finalizes keccak 9 final_state [] (at_time 2 1200) 5 orb0 (ero 0));
    [exact final_reachable|lia|vm_compute; reflexivity|vm_compute; reflexivity|vm_compute; split; discriminate|vm_compute; reflexivity|vm_compute; discriminate|vm_compute; reflexivity|].
  intros _. split; [by eexists|reflexivity].
Defined.

Definition orb0_requests : list Request := take (Z.to_nat (requestEnd orb0 - requestStart orb0 + 1)) (drop (Z.to_nat (requestStart orb0)) (EROs final_state)).

Lemma ero_values : value_ok (ero 0) /\ value_ok (ero 1).
Proof.
  assert (isExit (ero 0) = true) as H0 by (vm_compute; reflexivity). split; [intros _ H1; congruence|]. intros _ _. split; [vm_compute; reflexivity|].
  assert (SetBytes (trieValue (ero 1)) = 3) as -> by (vm_compute; reflexivity). split; reflexivity.
Qed.

Lemma eros_ok : Forall value_ok [ero 0; ero 1].
Proof. exact (Forall_cons_2 _ _ _ (proj1 ero_values) (Forall_cons_2 _ _ _ (proj2 ero_values) (Forall_nil_2 _))). Qed.

Lemma orb0_requests_ok : Forall value_ok orb0_requests.
Proof. assert (orb0_requests = [ero 0; ero 1]) as -> by (vm_compute; reflexivity). exact eros_ok. Qed.

Lemma request_block_root_witness :
  exists items, imap (fun i r => node_item keccak (requestableContracts final_state) (requestStart orb0 + Z.of_nat i) r) orb0_requests = map Some items /\
    DeriveShaFromBMT keccak items = Done (transactionsRoot (block (fork final_state 0) 5)).
Proof.
  apply (request_block_root keccak 9 final_state [] 5 orb0); [exact final_reachable|lia|vm_compute; reflexivity|vm_compute; reflexivity|vm_compute; reflexivity|].
  exact orb0_requests_ok.
Defined.

(** The requestor of the exit is a contract that takes no transfers. *)
Definition refusing : Ctx := mkCtx 2 1200 (fun _ => true) (fun _ _ => Some true) (fun a => negb (a =? 9)) None [] 10.

Lemma rejected_exit_blocks_queue_witness : exists s', exec keccak refusing (FinalizeRequests 0) final_state = Some (s', []) /\ EROIdToFinalize s' = 0.
Proof.
  exists final_state. split; [reflexivity|].
  apply (rejected_exit_blocks_queue keccak 9 final_state [] refusing (FinalizeRequests 0) final_state [] (ero 0));
    [exact final_reachable|lia|repeat constructor; cbn; lia|exact I|vm_compute; reflexivity|vm_compute; reflexivity|vm_compute; reflexivity|right; vm_compute; reflexivity|reflexivity].
Defined.

Lemma submission_progress_witness :
  (exists pos1 pos2, forall r1 r2 r3, exists s', submitNRE (at_time 1 1300) pos1 pos2 r1 r2 r3 submitted_state = Some s' /\ lastBlock (fork s' 0) = lastBlock (fork submitted_state 0) + NRELength submitted_state) \/
  (exists pos k orb root, ORBs submitted_state !! k = Some orb /\ requests_root keccak orb (EROs submitted_state) root /\ forall r1 r3, exists s', submitORB keccak (at_time 1 1300) pos r1 root r3 submitted_state = Some s' /\
     lastBlock (fork s' 0) = lastBlock (fork submitted_state 0) + 1 /\
     let pb := block (fork s' 0) (lastBlock (fork submitted_state 0) + 1) in b_isRequest pb = true /\ requestBlockId pb = Z.of_nat k /\ transactionsRoot pb = root).
Proof.
  apply (submission_progress keccak 6 submitted_state []); [exact submitted_reachable|lia|discriminate| |left; vm_compute; reflexivity|cbn; lia].
  apply (bool_decide_eq_true_1 (1 ∈ submitters submitted_state)). vm_compute. reflexivity.
Defined.

Lemma blocks_become_final_witness : exists s', finalizeBlock (at_time 2 1100) submitted_state = Some s' /\ lastFinalizedBlock (fork submitted_state 0) < lastFinalizedBlock (fork s' 0).
Proof.
  apply (blocks_become_final keccak 6 submitted_state [] (at_time 2 1100)); [exact submitted_reachable|lia|cbn; lia|vm_compute; reflexivity|vm_compute; discriminate|].
  intros e. assert (map_Forall (fun _ x => NRE_submittedAt x + CP_WITHHOLDING <= 1100) (epochs (fork submitted_state 0))) as H.
  { apply (bool_decide_eq_true_1 _). vm_compute. reflexivity. }
  unfold epoch. destruct (epochs (fork submitted_state 0) !! e) as [x|] eqn:He; [exact (H e x He)|vm_compute; discriminate].
Defined.

(** The request block is next. *)
Definition prepared_state : RootChain := fst (after 5).

Lemma prepared_requests i r : EROs prepared_state !! i = Some r -> value_ok r.
Proof. assert (EROs prepared_state = [ero 0; ero 1]) as -> by (vm_compute; reflexivity). exact (proj1 (Forall_lookup _ _) eros_ok i r). Qed.

Definition prepared_epoch : Epoch := epoch (fork prepared_state 0) (next_epoch (fork prepared_state 0)).

Lemma node_blocks_accepted_witness : exists bodies body root,
  prepare_bodies keccak 30 prepared_state (next_epoch (fork prepared_state 0)) (startBlockNumber prepared_epoch) (endBlockNumber prepared_epoch) = Done (Some bodies) /\
  zlen bodies = endBlockNumber prepared_epoch - startBlockNumber prepared_epoch + 1 /\
  bodies !! Z.to_nat (lastBlock (fork prepared_state 0) + 1 - startBlockNumber prepared_epoch) = Some body /\ body_root keccak body root /\
  forall r1 r3, is_Some (submitORB keccak (at_time 1 1005) (makePos (currentFork prepared_state) (lastBlock (fork prepared_state 0) + 1)) r1 root r3 prepared_state).
Proof.
  apply (node_blocks_accepted keccak 5 prepared_state [] (at_time 1 1005) 30);
    [apply (after_reachable 5); vm_compute; discriminate|lia|discriminate| |left; vm_compute; reflexivity|cbn; lia|vm_compute; reflexivity| |vm_compute; reflexivity].
  - apply (bool_decide_eq_true_1 (1 ∈ submitters prepared_state)). vm_compute. reflexivity.
  - intros i r Hi _. exact (prepared_requests i r Hi).
Defined.

(** An enter of 3 wei by the account 9. *)
Definition enter : Request := mkRequest 1002 false true false false 3 9 5 (word 0) zero32 (word 3).

Lemma request_tx_agrees_witness : exists child tx b, toChildChainRequest enter 77 [] = Some child /\ request_tx keccak (fun _ => 77) 1 enter = Done tx /\
  TX_toBytes (toTX keccak child 1 false) = Some b /\ EncodeToBytes txdata tx = inr b.
Proof.
  apply (request_tx_agrees keccak (fun _ => 77) 1 enter []); [|split; [discriminate|reflexivity]].
  assert (SetBytes (trieValue enter) = 3) as H3 by (vm_compute; reflexivity).
  split; [split; [discriminate|reflexivity]|]. split; [split; [discriminate|reflexivity]|]. split; [vm_compute; reflexivity|]. split; [vm_compute; discriminate|].
  intros _ _. rewrite H3. split; [vm_compute; reflexivity|split; reflexivity].
Defined.
End RootChainExample.
