(* ===== verification/Heap.v ===== *)
(** * container/heap of the Go library
    The operations of the package on a slice with an order [less], as the
    transaction pool (core/tx_list.go, core/types/transaction.go) uses them: Push,
    Pop, Remove, Fix and Init, with the loops that move an element up or down.  They keep the heap ordered,
    lose no element, and never index out of range. *)

From stdpp Require Import sorting.
From S2P Require Import Prelude.

Section Heap.
Context {A : Type} (less : A -> A -> bool).

(** ** The operations *)

Definition less_at (h : list A) (i j : nat) : outcome bool :=
  let! x := or_panic IndexOutOfRange (h !! i) in
  let! y := or_panic IndexOutOfRange (h !! j) in
  Done (less x y).

Definition heap_swap (h : list A) (i j : nat) : outcome (list A) :=
  let! x := or_panic IndexOutOfRange (h !! i) in
  let! y := or_panic IndexOutOfRange (h !! j) in
  Done (<[i := y]> (<[j := x]> h)).

Definition parent (j : nat) : nat := Nat.div2 (j - 1).

Fixpoint heap_up (fuel : nat) (h : list A) (j : nat) : outcome (list A) :=
  match fuel with
  | O => OutOfFuel
  | S fuel =>
      let i := parent j in
      if (i =? j)%nat then Done h
      else
        let! b := less_at h j i in
        if negb b then Done h
        else
          let! h := heap_swap h i j in
          heap_up fuel h i
  end.

(** The position at which the element of [i] ends. *)
Fixpoint heap_down (fuel : nat) (h : list A) (i n : nat) : outcome (list A * nat) :=
  match fuel with
  | O => OutOfFuel
  | S fuel =>
      let j1 := (2 * i + 1)%nat in
      if (n <=? j1)%nat then Done (h, i)
      else
        let j2 := (j1 + 1)%nat in
        let! j := if (j2 <? n)%nat then let! b := less_at h j2 j1 in Done (if b then j2 else j1) else Done j1 in
        let! b := less_at h j i in
        if negb b then Done (h, i)
        else
          let! h := heap_swap h i j in
          heap_down fuel h j n
  end.

(** [h.Pop()] of the heaps of this program: the last element. *)
Definition pop_last (h : list A) : outcome (list A * A) :=
  let! x := or_panic IndexOutOfRange (last h) in
  Done (take (length h - 1) h, x).

Definition heap_Push (h : list A) (x : A) : outcome (list A) :=
  let h := h ++ [x] in
  heap_up (S (length h)) h (length h - 1).

Definition heap_Pop (h : list A) : outcome (list A * A) :=
  if (length h =? 0)%nat then Panic IndexOutOfRange
  else
    let n := (length h - 1)%nat in
    let! h := heap_swap h 0 n in
    let! '(h, _) := heap_down (S (length h)) h 0 n in
    pop_last h.

Definition heap_Remove (h : list A) (i : nat) : outcome (list A * A) :=
  if (length h =? 0)%nat then Panic IndexOutOfRange
  else
    let n := (length h - 1)%nat in
    let! h :=
      if negb (n =? i)%nat then
        let! h := heap_swap h i n in
        let! '(h, k) := heap_down (S (length h)) h i n in
        if (i <? k)%nat then Done h else heap_up (S (length h)) h i
      else Done h in
    pop_last h.

Definition heap_Fix (h : list A) (i : nat) : outcome (list A) :=
  let! '(h, k) := heap_down (S (length h)) h i (length h) in
  if (i <? k)%nat then Done h else heap_up (S (length h)) h i.

Fixpoint Init_loop (i : nat) (h : list A) : outcome (list A) :=
  match i with
  | O => Done h
  | S i => let! '(h, _) := heap_down (S (length h)) h i (length h) in Init_loop i h
  end.

Definition heap_Init (h : list A) : outcome (list A) := Init_loop (Nat.div2 (length h)) h.

(** ** Heap order *)

(** Among the first [n] elements, the edge from [j] to its parent is ordered. *)
Definition edge (h : list A) (i j : nat) : Prop := forall x y, h !! i = Some x -> h !! j = Some y -> less y x = false.

Definition heap (h : list A) : Prop := forall j, (0 < j)%nat -> edge h (parent j) j.

(** [less] is a strict weak order. *)
Hypothesis less_asym : forall x y, less x y = true -> less y x = false.
Hypothesis less_trans : forall x y z, less y x = false -> less z y = false -> less z x = false.

Lemma parent_lt j : (0 < j)%nat -> (parent j < j)%nat.
Proof. intros Hj. unfold parent. rewrite Nat.div2_div. pose proof (Nat.div_mod_eq (j - 1) 2). lia. Qed.

Lemma parent_children i j : (0 < j)%nat -> parent j = i <-> j = (2 * i + 1)%nat \/ j = (2 * i + 2)%nat.
Proof. intros Hj. unfold parent. rewrite Nat.div2_div. pose proof (Nat.div_mod_eq (j - 1) 2). pose proof (Nat.mod_upper_bound (j - 1) 2). lia. Qed.

Lemma less_irrefl x : less x x = false.
Proof. destruct (less x x) eqn:E; [|done]. by rewrite (less_asym x x E) in E. Qed.

Lemma swap_spec h i j : (i < length h)%nat -> (j < length h)%nat -> exists x y, h !! i = Some x /\ h !! j = Some y /\ heap_swap h i j = Done (<[i := y]> (<[j := x]> h)).
Proof.
  intros Hi Hj. destruct (lookup_lt_is_Some_2 h i Hi) as [x Hx]. destruct (lookup_lt_is_Some_2 h j Hj) as [y Hy]. exists x, y. split; [done|]. split; [done|].
  unfold heap_swap. by rewrite Hx, Hy.
Qed.

Lemma swap_lookup (h : list A) i j x y k : h !! i = Some x -> h !! j = Some y ->
  <[i := y]> (<[j := x]> h) !! k = if decide (k = i) then Some y else if decide (k = j) then Some x else h !! k.
Proof.
  intros Hx Hy. apply lookup_lt_Some in Hx, Hy. rewrite list_lookup_insert. rewrite length_insert. destruct (decide (k = i)) as [->|].
  - rewrite decide_True by done. done.
  - rewrite decide_False by naive_solver. rewrite list_lookup_insert. destruct (decide (k = j)) as [->|]; [by rewrite decide_True|by rewrite decide_False by naive_solver].
Qed.

Lemma swap_Permutation (h : list A) i j x y : h !! i = Some x -> h !! j = Some y -> <[i := y]> (<[j := x]> h) ≡ₚ h.
Proof.
  intros Hx Hy. apply Permutation_inj. rewrite !length_insert. split; [done|]. exists (fun k => if decide (k = i) then j else if decide (k = j) then i else k). split.
  - intros a b. repeat case_decide; congruence.
  - intros k. rewrite (swap_lookup h i j x y) by done. repeat case_decide; congruence.
Qed.

Lemma less_at_spec h i j x y : h !! i = Some x -> h !! j = Some y -> less_at h i j = Done (less x y).
Proof. intros Hx Hy. unfold less_at. by rewrite Hx, Hy. Qed.

(** ** Moving up *)

(** Among the first [n] elements, only the edge above [j] may be wrong. *)
Definition rising (h : list A) (j n : nat) : Prop :=
  (forall k, (0 < k < n)%nat -> k <> j -> edge h (parent k) k) /\
  (forall k, (0 < k < n)%nat -> (0 < j)%nat -> parent k = j -> edge h (parent j) k).

(** Among the first [n] elements, only the edges [X] may be wrong. *)
Definition ordered (X : nat -> Prop) (h : list A) (n : nat) : Prop := forall k, (0 < k < n)%nat -> ~ X k -> edge h (parent k) k.
Definition none (k : nat) : Prop := False.

Lemma rising_step h i j n x y : rising h j n -> i = parent j -> (0 < j < n)%nat -> h !! i = Some x -> h !! j = Some y -> less y x = true ->
  rising (<[i := y]> (<[j := x]> h)) i n.
Proof.
  intros [He Hg] -> Hj Hx Hy Hless. pose proof (parent_lt j ltac:(lia)) as Hlt. split.
  - intros k Hk Hne a b. rewrite !(swap_lookup h (parent j) j x y) by done. rewrite (decide_False (P := k = _)) by done.
    destruct (decide (k = j)) as [->|Hkj].
    + rewrite decide_True by done. intros [= <-] [= <-]. by apply less_asym.
    + destruct (decide (parent k = parent j)) as [Hp|Hp]; [|destruct (decide (parent k = j)) as [Hpj|Hpj]].
      * intros [= <-] Hb. apply (less_trans y x b); [by apply less_asym|]. apply (He k Hk Hkj); [by rewrite Hp|done].
      * intros [= <-] Hb. by apply (Hg k Hk ltac:(lia) Hpj).
      * intros Ha Hb. by apply (He k Hk Hkj).
  - intros k Hk Hi Hp a b. pose proof (parent_lt (parent j) Hi). rewrite !(swap_lookup h (parent j) j x y) by done.
    rewrite (decide_False (P := parent (parent j) = _)), (decide_False (P := parent (parent j) = j)) by lia. intros Ha.
    pose proof (He (parent j) ltac:(lia) ltac:(lia) a x Ha Hx) as Hax. pose proof (parent_lt k ltac:(lia)). rewrite (decide_False (P := k = parent j)) by lia.
    destruct (decide (k = j)) as [->|Hkj]; [by intros [= <-]|]. intros Hb. apply (less_trans a x b Hax). apply (He k Hk Hkj); [by rewrite Hp|done].
Qed.

Lemma up_spec n fuel : forall h j, (j < fuel)%nat -> (j < n)%nat -> (n <= length h)%nat -> rising h j n ->
  exists h', heap_up fuel h j = Done h' /\ h' ≡ₚ h /\ ordered none h' n /\ forall k, (j < k)%nat -> h' !! k = h !! k.
Proof.
  induction fuel as [|fuel IH]; intros h j Hf Hj Hn Hr; [lia|]. cbn [heap_up]. destruct (Nat.eqb_spec (parent j) j) as [Hp|Hp].
  - exists h. split_and!; try done. intros k Hk _. destruct (decide (k = j)) as [->|Hkj]; [pose proof (parent_lt j ltac:(lia)); lia|by apply Hr].
  - assert (0 < j)%nat as Hj0 by (destruct j; [done|lia]). pose proof (parent_lt j Hj0). destruct (swap_spec h (parent j) j ltac:(lia) ltac:(lia)) as (x & y & Hx & Hy & Hsw).
    rewrite (less_at_spec h j (parent j) y x Hy Hx). cbn [obind]. destruct (less y x) eqn:Hless; cbn [negb].
    + rewrite Hsw. cbn [obind]. destruct (IH (<[parent j := y]> (<[j := x]> h)) (parent j)) as (h' & Hup & Hperm & Hord & Hout); [lia|lia|rewrite !length_insert; lia|by apply rising_step; [..|lia| | |]|].
      exists h'. split; [done|]. split; [rewrite Hperm; by apply swap_Permutation|]. split; [done|]. intros k Hk. rewrite Hout by lia.
      rewrite (swap_lookup h (parent j) j x y) by done. by rewrite !decide_False by lia.
    + exists h. split_and!; try done. intros k Hk _. destruct (decide (k = j)) as [->|Hkj]; [|by apply Hr]. intros a b Ha Hb. congruence.
Qed.

(** ** Moving down *)

(** Among the first [n] elements, only edges below [i] and the edges [X] may be
    wrong. *)
Definition sinking (X : nat -> Prop) (h : list A) (i n : nat) : Prop :=
  (forall k, (0 < k < n)%nat -> ~ X k -> parent k <> i -> edge h (parent k) k) /\
  (forall k, (0 < k < n)%nat -> (0 < i)%nat -> ~ X i -> parent k = i -> edge h (parent i) k).

Section Down.
Context (X : nat -> Prop) (n i0 : nat) (HX : forall k, X k -> (parent k < i0)%nat).

(** [j] is the least child of [i]. *)
Lemma sinking_step h i j x y : sinking X h i n -> (i0 <= i)%nat -> (0 < j < n)%nat -> parent j = i -> h !! i = Some x -> h !! j = Some y -> less y x = true ->
  (forall k, (0 < k < n)%nat -> parent k = i -> edge h j k) -> sinking X (<[i := y]> (<[j := x]> h)) j n.
Proof.
  intros [He Hg] Hi0 Hj Hp Hx Hy Hless Hmin. assert (i < j)%nat as Hij by (rewrite <-Hp; apply parent_lt; lia). split.
  - intros k Hk HXk Hpk a b. rewrite !(swap_lookup h i j x y) by done. rewrite (decide_False (P := parent k = j)) by done.
    pose proof (parent_lt k ltac:(lia)). destruct (decide (parent k = i)) as [Hki|Hki].
    + intros [= <-]. rewrite (decide_False (P := k = i)) by lia. destruct (decide (k = j)) as [->|]; [intros [= <-]; by apply less_asym|]. intros Hb. by apply (Hmin k Hk Hki).
    + destruct (decide (k = i)) as [->|Hkn].
      * intros Ha [= <-]. apply (Hg j Hj ltac:(lia) HXk Hp); done.
      * destruct (decide (k = j)) as [->|]; [done|]. by apply (He k Hk HXk Hki).
  - intros k Hk Hj0 HXj Hpk a b. rewrite Hp, !(swap_lookup h i j x y) by done. rewrite (decide_True (P := i = i)) by done. intros [= <-].
    pose proof (parent_lt k ltac:(lia)). rewrite !decide_False by lia. intros Hb. apply (He k Hk); [|lia|by rewrite Hpk|done]. intros HXk. apply HX in HXk. lia.
Qed.

Lemma down_spec fuel : forall h i, (n - i < fuel)%nat -> (i0 <= i)%nat -> (i < length h)%nat -> (n <= length h)%nat -> sinking X h i n ->
  exists h' i', heap_down fuel h i n = Done (h', i') /\ h' ≡ₚ h /\ ordered X h' n /\ (forall k, (n <= k)%nat \/ (k < i)%nat -> h' !! k = h !! k) /\
    (i' = i /\ h' = h \/ (i < i')%nat /\ exists k, (0 < k < n)%nat /\ parent k = i /\ h' !! i = h !! k).
Proof.
  induction fuel as [|fuel IH]; intros h i Hf Hi0 Hi Hn Hs; [lia|]. cbn [heap_down].
  assert (forall k, (0 < k < n)%nat -> ~ X k -> parent k <> i -> edge h (parent k) k) as He by apply Hs.
  destruct (Nat.leb_spec n (2 * i + 1)) as [Hle|Hgt].
  { exists h, i. split_and!; try done; [|by left]. intros k Hk HXk. apply He; try done. rewrite parent_children by lia. lia. }
  assert (exists j, (if (2 * i + 1 + 1 <? n)%nat then let! b := less_at h (2 * i + 1 + 1) (2 * i + 1) in Done (if b then (2 * i + 1 + 1)%nat else (2 * i + 1)%nat) else Done (2 * i + 1)%nat) = Done j /\
    (0 < j < n)%nat /\ parent j = i /\ forall k, (0 < k < n)%nat -> parent k = i -> edge h j k) as (j & -> & Hj & Hp & Hmin).
  { assert (forall k, (0 < k < n)%nat -> parent k = i -> k = (2 * i + 1)%nat \/ k = (2 * i + 1 + 1)%nat) as Hch by (intros k Hk Hpk; apply parent_children in Hpk; lia).
    destruct (Nat.ltb_spec (2 * i + 1 + 1) n) as [Hlt|Hge].
    - destruct (lookup_lt_is_Some_2 h (2 * i + 1)) as [a Ha]; [lia|]. destruct (lookup_lt_is_Some_2 h (2 * i + 1 + 1)) as [b Hb]; [lia|].
      rewrite (less_at_spec h _ _ b a Hb Ha). cbn [obind]. eexists. split; [done|]. destruct (less b a) eqn:Hba; (split; [lia|]; split; [apply parent_children; lia|]);
        intros k Hk Hpk c d Hc Hd; destruct (Hch k Hk Hpk) as [->| ->]; simplify_eq; try apply less_irrefl; try done; by apply less_asym.
    - exists (2 * i + 1)%nat. split; [done|]. split; [lia|]. split; [apply parent_children; lia|]. intros k Hk Hpk c d Hc Hd. destruct (Hch k Hk Hpk) as [->| ->]; [|lia].
      simplify_eq. apply less_irrefl. }
  cbn [obind]. assert (i < j)%nat as Hij by (rewrite <-Hp; apply parent_lt; lia). destruct (swap_spec h i j Hi ltac:(lia)) as (x & y & Hx & Hy & Hsw).
  rewrite (less_at_spec h j i y x Hy Hx). cbn [obind]. destruct (less y x) eqn:Hless; cbn [negb].
  - rewrite Hsw. cbn [obind]. destruct (IH (<[i := y]> (<[j := x]> h)) j) as (h' & i' & Hd & Hperm & Hord & Hout & Hmove); rewrite ?length_insert; [lia..|by apply sinking_step|].
    exists h', i'. split; [done|]. split; [rewrite Hperm; by apply swap_Permutation|]. split; [done|]. split.
    + intros k Hk. rewrite Hout by lia. rewrite (swap_lookup h i j x y) by done. rewrite !decide_False by lia. done.
    + right. split; [destruct Hmove as [[-> _]|[? _]]; lia|]. exists j. split; [done|]. split; [done|]. rewrite Hout by lia. rewrite (swap_lookup h i j x y) by done. by rewrite decide_True.
  - exists h, i. split_and!; try done; [|by left]. intros k Hk HXk. destruct (decide (parent k = i)) as [Hpk|Hpk]; [|by apply He].
    intros a b Ha Hb. rewrite Hpk in Ha. assert (a = x) as -> by congruence. apply (less_trans x y b Hless). by apply (Hmin k Hk Hpk).
Qed.
End Down.

(** ** The operations keep heaps *)

Lemma heap_min h x y i : heap h -> h !! 0%nat = Some x -> h !! i = Some y -> less y x = false.
Proof.
  intros Hh Hx. revert y. induction (lt_wf i) as [i _ IH]. intros y Hy. destruct (decide (i = 0)%nat) as [->|Hi].
  - assert (y = x) as -> by congruence. apply less_irrefl.
  - pose proof (parent_lt i ltac:(lia)) as Hlt. destruct (lookup_lt_is_Some_2 h (parent i)) as [z Hz]; [apply lookup_lt_Some in Hy; lia|].
    apply (less_trans x z y); [by apply (IH (parent i))|]. by apply (Hh i ltac:(lia)).
Qed.

Lemma heap_min_elem h x y : heap h -> head h = Some x -> y ∈ h -> less y x = false.
Proof. intros Hh Hx [i Hi]%list_elem_of_lookup. apply (heap_min h x y i); try done. by destruct h. Qed.

Lemma pop_last_spec (h : list A) n : length h = S n -> exists x, h !! n = Some x /\ pop_last h = Done (take n h, x) /\ h ≡ₚ x :: take n h.
Proof.
  intros Hn. destruct (lookup_lt_is_Some_2 h n ltac:(lia)) as [x Hx]. exists x. split; [done|]. unfold pop_last.
  rewrite last_lookup, Hn. cbn [Nat.pred]. rewrite Hx. cbn [or_panic obind]. replace (S n - 1)%nat with n by lia. split; [done|].
  rewrite <-(take_drop_middle h n x Hx) at 1. rewrite drop_ge by lia. by rewrite Permutation_app_comm.
Qed.

Lemma heap_take h n : ordered none h n -> heap (take n h).
Proof.
  intros Ho k Hk x y Hx Hy. apply lookup_take_Some in Hx as [Hx _], Hy as [Hy Hlt]. by apply (Ho k ltac:(lia) (fun H => H)).
Qed.

Lemma ordered_heap h : ordered none h (length h) -> heap h.
Proof. intros Ho k Hk x y Hx Hy. apply lookup_lt_Some in Hy as Hlt. by apply (Ho k ltac:(lia) (fun H => H)). Qed.

Lemma none_empty i0 k : none k -> (parent k < i0)%nat.
Proof. done. Qed.

Lemma Push_spec h x : heap h -> exists h', heap_Push h x = Done h' /\ heap h' /\ h' ≡ₚ x :: h.
Proof.
  intros Hh. unfold heap_Push. assert (length (h ++ [x]) = S (length h)) as Hl by (rewrite length_app; simpl; lia). rewrite Hl. replace (S (length h) - 1)%nat with (length h) by lia.
  destruct (up_spec (S (length h)) (S (S (length h))) (h ++ [x]) (length h)) as (h' & Hup & Hp & Hord & _); [lia..| |].
  - split; intros k Hk; pose proof (parent_lt k ltac:(lia)); [|lia]. intros Hne a b Ha Hb. rewrite lookup_app_l in Ha, Hb by lia. by apply (Hh k ltac:(lia)).
  - exists h'. split; [done|]. split; [apply ordered_heap; by rewrite (Permutation_length Hp), Hl|]. rewrite Hp. by rewrite Permutation_app_comm.
Qed.

Lemma Pop_spec h : heap h -> h <> [] -> exists h' x, heap_Pop h = Done (h', x) /\ heap h' /\ h ≡ₚ x :: h' /\ head h = Some x /\ forall y, y ∈ h' -> less y x = false.
Proof.
  intros Hh Hne. destruct (length h) as [|n] eqn:Hlen; [by destruct h|]. unfold heap_Pop. rewrite Hlen. cbn [Nat.eqb]. replace (S n - 1)%nat with n by lia.
  destruct (swap_spec h 0 n ltac:(lia) ltac:(lia)) as (x & y & Hx & Hy & ->). cbn [obind]. set (h1 := <[0%nat := y]> (<[n := x]> h)). assert (length h1 = S n) as Hl1 by (unfold h1; by rewrite !length_insert).
  destruct (down_spec none n 0 (none_empty 0) (S (length h1)) h1 0) as (h2 & i' & -> & Hp & Hord & Hout & _); [lia..| |].
  { split; [|lia]. intros k Hk _ Hpk a b. unfold h1. rewrite !(swap_lookup h 0 n x y) by done. pose proof (parent_lt k ltac:(lia)). rewrite !decide_False by lia. apply Hh. lia. }
  cbn [obind]. destruct (pop_last_spec h2 n) as (z & Hz & -> & Hpz); [by rewrite Hp|]. assert (z = x) as ->.
  { rewrite Hout in Hz by lia. unfold h1 in Hz. rewrite (swap_lookup h 0 n x y) in Hz by done. repeat case_decide; congruence. }
  assert (h ≡ₚ x :: take n h2) as Hperm by (rewrite <-Hpz, Hp; unfold h1; by rewrite swap_Permutation).
  exists (take n h2), x. split; [done|]. split; [by apply heap_take|]. split; [done|]. split; [by destruct h|]. intros a Ha. apply (heap_min_elem h); [done|by destruct h|].
  rewrite Hperm. by right.
Qed.

(** The move down and, if nothing moved, the move up, when only the edges of [i]
    may be wrong. *)
Lemma restore_spec h n i : (i < n)%nat -> (n <= length h)%nat -> (forall k, (0 < k < n)%nat -> k <> i -> parent k <> i -> edge h (parent k) k) ->
  (forall k, (0 < k < n)%nat -> (0 < i)%nat -> parent k = i -> edge h (parent i) k) ->
  exists h', (let! '(h, k) := heap_down (S (length h)) h i n in if (i <? k)%nat then Done h else heap_up (S (length h)) h i) = Done h' /\ h' ≡ₚ h /\ ordered none h' n /\ forall k, (n <= k)%nat -> h' !! k = h !! k.
Proof.
  intros Hi Hn He Hgrand. destruct (down_spec (fun k => k = i /\ (0 < i)%nat) n i ltac:(intros k [-> ?]; by apply parent_lt) (S (length h)) h i) as (h2 & i' & -> & Hp & Hord & Hout & Hmove); [lia..| |].
  { split; [|by intros; exfalso; auto]. intros k Hk HXk Hpk. apply He; try done. intros ->. apply HXk. split; [done|lia]. }
  cbn [obind]. destruct Hmove as [[-> ->]|(Hmove & c & Hc & Hpc & Hi2)].
  - rewrite Nat.ltb_irrefl. destruct (up_spec n (S (length h)) h i) as (h3 & -> & Hp3 & Hord3 & Hout3); [lia..| |].
    + split; [|done]. intros k Hk Hki. apply Hord; [done|naive_solver].
    + exists h3. split; [done|]. split; [done|]. split; [done|]. intros k Hk. by rewrite Hout3 by lia.
  - rewrite (proj2 (Nat.ltb_lt _ _)) by done. exists h2. split; [done|]. split; [done|]. split; [|intros k Hk; apply Hout; lia]. intros k Hk _.
    destruct (decide (k = i)) as [->|Hki]; [|apply Hord; [done|naive_solver]]. intros a b. pose proof (parent_lt i ltac:(lia)). rewrite Hi2, Hout by lia. by apply Hgrand; [|lia|].
Qed.

Lemma remove_move h i n : heap h -> length h = S n -> (i < n)%nat ->
  exists h1, (let! h := heap_swap h i n in let! '(h, k) := heap_down (S (length h)) h i n in if (i <? k)%nat then Done h else heap_up (S (length h)) h i) = Done h1 /\
    h1 ≡ₚ h /\ ordered none h1 n /\ h1 !! n = h !! i.
Proof.
  intros Hh Hlen Hi. destruct (swap_spec h i n ltac:(lia) ltac:(lia)) as (x & y & Hx & Hy & ->). cbn [obind]. set (h1 := <[i := y]> (<[n := x]> h)). assert (length h1 = S n) as Hl1 by (unfold h1; by rewrite !length_insert).
  assert (forall k, (k < n)%nat -> k <> i -> h1 !! k = h !! k) as H1 by (intros k Hk Hki; unfold h1; rewrite (swap_lookup h i n x y) by done; by rewrite !decide_False by lia).
  destruct (restore_spec h1 n i) as (h2 & -> & Hp & Hord & Hout); [done|lia| | |].
  - intros k Hk Hki Hpk a b. pose proof (parent_lt k ltac:(lia)). rewrite !H1 by lia. apply Hh. lia.
  - intros k Hk Hi0 Hpk a b. pose proof (parent_lt k ltac:(lia)). pose proof (parent_lt i Hi0). rewrite !H1 by lia. intros Ha Hb. apply (less_trans a x b); [by apply (Hh i Hi0)|].
    apply (Hh k ltac:(lia)); [by rewrite Hpk|done].
  - exists h2. split; [done|]. split; [rewrite Hp; by apply swap_Permutation|]. split; [done|]. rewrite Hout by lia. unfold h1. rewrite (swap_lookup h i n x y) by done. rewrite decide_False, decide_True by lia. done.
Qed.

(** Fix restores the order after one element was replaced. *)
Lemma Fix_spec h i x : heap h -> (i < length h)%nat -> exists h', heap_Fix (<[i := x]> h) i = Done h' /\ heap h' /\ h' ≡ₚ <[i := x]> h.
Proof.
  intros Hh Hi. set (h1 := <[i := x]> h). destruct (lookup_lt_is_Some_2 h i Hi) as [old Hold]. assert (length h1 = length h) as Hl by apply length_insert.
  assert (forall k, k <> i -> h1 !! k = h !! k) as H1 by (intros k Hk; unfold h1; by rewrite list_lookup_insert_ne). unfold heap_Fix. destruct (restore_spec h1 (length h1) i) as (h2 & -> & Hp & Hord & _); [lia|lia| | |].
  - intros k Hk Hki Hpk a b. rewrite !H1 by done. apply Hh. lia.
  - intros k Hk Hi0 Hpk a b. pose proof (parent_lt k ltac:(lia)). pose proof (parent_lt i Hi0). rewrite !H1 by lia. intros Ha Hb. apply (less_trans a old b); [by apply (Hh i Hi0)|]. apply (Hh k ltac:(lia)); [by rewrite Hpk|done].
  - exists h2. split; [done|]. split; [apply ordered_heap; by rewrite (Permutation_length Hp)|done].
Qed.

Lemma Remove_spec h i : heap h -> (i < length h)%nat -> exists h' x, heap_Remove h i = Done (h', x) /\ heap h' /\ h ≡ₚ x :: h' /\ h !! i = Some x.
Proof.
  intros Hh Hi. destruct (length h) as [|n] eqn:Hlen; [lia|]. unfold heap_Remove. rewrite Hlen. cbn [Nat.eqb]. replace (S n - 1)%nat with n by lia.
  assert (exists h1, (if negb (n =? i)%nat then let! h := heap_swap h i n in let! '(h, k) := heap_down (S (length h)) h i n in if (i <? k)%nat then Done h else heap_up (S (length h)) h i else Done h) = Done h1 /\
    h1 ≡ₚ h /\ ordered none h1 n /\ h1 !! n = h !! i) as (h1 & -> & Hp & Hord & Hn).
  { destruct (Nat.eqb_spec n i) as [<-|Hni]; cbn [negb]; [|apply remove_move; done || lia]. exists h. split_and!; try done. intros k Hk _. apply Hh. lia. }
  cbn [obind]. destruct (pop_last_spec h1 n) as (x & Hx & -> & Hpx); [by rewrite (Permutation_length Hp)|]. exists (take n h1), x.
  split; [done|]. split; [by apply heap_take|]. split; [by rewrite <-Hpx|congruence].
Qed.

Lemma Init_loop_spec i : forall h, (forall k, (0 < k)%nat -> (i <= parent k)%nat -> edge h (parent k) k) -> (i <= length h)%nat ->
  exists h', Init_loop i h = Done h' /\ heap h' /\ h' ≡ₚ h.
Proof.
  induction i as [|i IH]; intros h Hh Hi; cbn [Init_loop].
  - exists h. split; [done|]. split; [|done]. intros k Hk. apply Hh; lia.
  - destruct (down_spec (fun k => (parent k < i)%nat) (length h) i (fun k H => H) (S (length h)) h i) as (h1 & i' & -> & Hp & Hord & _ & _); [lia..| |].
    { split; intros k Hk; [|intros Hi0 HX Hpk; exfalso; apply HX, parent_lt; done]. intros HX Hpk. apply Hh; lia. }
    cbn [obind]. destruct (IH h1) as (h' & -> & Hheap & Hp'); [|by rewrite (Permutation_length Hp); lia|].
    + intros k Hk Hpk x y Hx Hy. apply lookup_lt_Some in Hy as Hlt. rewrite (Permutation_length Hp) in Hlt. apply (Hord k); try done; lia.
    + exists h'. split; [done|]. split; [done|]. by rewrite Hp'.
Qed.

Lemma Init_spec h : exists h', heap_Init h = Done h' /\ heap h' /\ h' ≡ₚ h.
Proof.
  unfold heap_Init. apply Init_loop_spec; [|rewrite Nat.div2_div; apply Nat.Div0.div_le_upper_bound; lia]. intros k Hk Hle x y Hx Hy. exfalso. apply lookup_lt_Some in Hy.
  unfold parent in Hle. rewrite !Nat.div2_div in Hle. pose proof (Nat.div_mod_eq (k - 1) 2). pose proof (Nat.div_mod_eq (length h) 2). pose proof (Nat.mod_upper_bound (length h) 2). lia.
Qed.
End Heap.
