(* ===== verification/TxList.v ===== *)
(** * core: the lists of the transaction pool (tx_list.go)
    [txSortedMap] keeps the transactions of an account by nonce: a hash map,
    a heap of its nonces and a cache of the sorted transactions.  [txList] is
    one account's list in the pool, with upper bounds of cost and gas, and
    [txPricedList] the heap of all transactions by price.  The order in which Go
    ranges over a map is an argument ([iter]) of the operations that do so. *)

From stdpp Require Import sorting.
From S2P Require Import Prelude Heap.

(** What the lists use of a transaction (core/types/transaction.go); the hash,
    the size and the sender stand for the methods that compute them. *)
Record Transaction := mkTransaction {
  Nonce : Z;
  GasPrice : Z;
  Gas : Z;
  Value : Z;
  Hash : Z;
  Size : Z;
  Sender : option Z
}.

#[export] Instance Transaction_eq_dec : EqDecision Transaction.
Proof. solve_decision. Defined.

Definition Cost (tx : Transaction) : Z := GasPrice tx * Gas tx + Value tx.

Abbreviation txmap := (gmap Z Transaction).
Abbreviation iteration := (txmap -> list (Z * Transaction)).

(** ** txSortedMap *)

Record txSortedMap := mkSortedMap {
  items : txmap;
  index : list Z;
  cache : option (list Transaction)
}.

Module TxSortedMap.

Definition newTxSortedMap : txSortedMap := mkSortedMap ∅ [] None.

Definition Get (m : txSortedMap) (nonce : Z) : option Transaction := items m !! nonce.

Definition Put (m : txSortedMap) (tx : Transaction) : outcome txSortedMap :=
  let nonce := Nonce tx in
  let! index := match items m !! nonce with None => heap_Push Z.ltb (index m) nonce | Some _ => Done (index m) end in
  Done (mkSortedMap (<[nonce := tx]> (items m)) index None).

(** A nonce of the heap without a transaction would put a nil pointer into the
    result, on which the pool panics. *)
Definition item (items : txmap) (nonce : Z) : outcome Transaction := or_panic NilPointer (items !! nonce).

Fixpoint Forward_loop (fuel : nat) (items : txmap) (index : list Z) (threshold : Z) : outcome (txmap * list Z * list Transaction) :=
  match fuel with
  | O => OutOfFuel
  | S fuel =>
      if match index with nonce :: _ => nonce <? threshold | [] => false end then
        let! '(index, nonce) := heap_Pop Z.ltb index in
        let! tx := item items nonce in
        let! '(items, index, removed) := Forward_loop fuel (delete nonce items) index threshold in
        Done (items, index, tx :: removed)
      else Done (items, index, [])
  end.

Definition Forward (m : txSortedMap) (threshold : Z) : outcome (txSortedMap * list Transaction) :=
  let! '(items, index, removed) := Forward_loop (S (length (index m))) (items m) (index m) threshold in
  let! cache :=
    match cache m with
    | Some c => let! c := or_panic IndexOutOfRange (slice c (zlen removed) (zlen c)) in Done (Some c)
    | None => Done None
    end in
  Done (mkSortedMap items index cache, removed).

Definition Filter (iter : iteration) (m : txSortedMap) (f : Transaction -> bool) : outcome (txSortedMap * list Transaction) :=
  let removed := List.filter f (map snd (iter (items m))) in
  let items' := filter (fun '(_, tx) => f tx = false) (items m) in
  if (0 <? length removed)%nat then
    let! index := heap_Init Z.ltb (map fst (iter items')) in
    Done (mkSortedMap items' index None, removed)
  else Done (mkSortedMap items' (index m) (cache m), removed).

(** The transactions at [size - 1] and below, down to [threshold]. *)
Fixpoint Cap_loop (size : nat) (threshold : nat) (items : txmap) (index : list Z) : outcome (txmap * list Transaction) :=
  match size with
  | O => Done (items, [])
  | S size' =>
      if (threshold <? size)%nat then
        let! nonce := or_panic IndexOutOfRange (index !! size') in
        let! tx := item items nonce in
        let! '(items, drops) := Cap_loop size' threshold (delete nonce items) index in
        Done (items, tx :: drops)
      else Done (items, [])
  end.

(** sort.Sort on distinct numbers has one result. *)
Definition sort_nonces (l : list Z) : list Z := merge_sort Z.le l.

Definition Cap (m : txSortedMap) (threshold : nat) : outcome (txSortedMap * list Transaction) :=
  if (size (items m) <=? threshold)%nat then Done (m, [])
  else
    let index := sort_nonces (index m) in
    let! '(items, drops) := Cap_loop (size (items m)) threshold (items m) index in
    let! index := or_panic IndexOutOfRange (slice index 0 (Z.of_nat threshold)) in
    let! index := heap_Init Z.ltb index in
    let! cache :=
      match cache m with
      | Some c => let! c := or_panic IndexOutOfRange (slice c 0 (zlen c - zlen drops)) in Done (Some c)
      | None => Done None
      end in
    Done (mkSortedMap items index cache, drops).

(** The first position of [nonce]. *)
Fixpoint position (nonce : Z) (index : list Z) : option nat :=
  match index with
  | [] => None
  | x :: index => if x =? nonce then Some 0%nat else option_map S (position nonce index)
  end.

Definition Remove (m : txSortedMap) (nonce : Z) : outcome (txSortedMap * bool) :=
  match items m !! nonce with
  | None => Done (m, false)
  | Some _ =>
      let! index :=
        match position nonce (index m) with
        | Some i => let! '(index, _) := heap_Remove Z.ltb (index m) i in Done index
        | None => Done (index m)
        end in
      Done (mkSortedMap (delete nonce (items m)) index None, true)
  end.

Fixpoint Ready_loop (fuel : nat) (items : txmap) (index : list Z) (next : Z) : outcome (txmap * list Z * list Transaction) :=
  match fuel with
  | O => OutOfFuel
  | S fuel =>
      if match index with nonce :: _ => nonce =? next | [] => false end then
        let! tx := item items next in
        let! '(index, _) := heap_Pop Z.ltb index in
        let! '(items, index, ready) := Ready_loop fuel (delete next items) index (u64 (next + 1)) in
        Done (items, index, tx :: ready)
      else Done (items, index, [])
  end.

Definition Ready (m : txSortedMap) (start : Z) : outcome (txSortedMap * list Transaction) :=
  match index m with
  | [] => Done (m, [])
  | first :: _ =>
      if start <? first then Done (m, [])
      else
        let! '(items, index, ready) := Ready_loop (S (length (index m))) (items m) (index m) first in
        Done (mkSortedMap items index None, ready)
  end.

Definition Len (m : txSortedMap) : Z := Z.of_nat (size (items m)).

(** [TxByNonce]; the nonces of a map are distinct. *)
Definition by_nonce (a b : Transaction) : Prop := Nonce a <= Nonce b.
#[export] Instance by_nonce_dec : RelDecision by_nonce := fun a b => decide (Nonce a <= Nonce b).

Definition ensureCache (iter : iteration) (m : txSortedMap) : txSortedMap * list Transaction :=
  match cache m with
  | Some c => (m, c)
  | None => let c := merge_sort by_nonce (map snd (iter (items m))) in (mkSortedMap (items m) (index m) (Some c), c)
  end.

Definition Flatten (iter : iteration) (m : txSortedMap) : txSortedMap * list Transaction := ensureCache iter m.
End TxSortedMap.

(** ** txList *)

Record txList := mkTxList {
  strict : bool;
  txs : txSortedMap;
  costcap : Z;
  gascap : Z
}.

Module TxList.

Definition newTxList (strict : bool) : txList := mkTxList strict TxSortedMap.newTxSortedMap 0 0.

Definition Overlaps (l : txList) (tx : Transaction) : bool :=
  match TxSortedMap.Get (txs l) (Nonce tx) with Some _ => true | None => false end.

(** Whether the transaction was accepted, and the one it replaced. *)
Definition Add (l : txList) (tx : Transaction) (priceBump : Z) : outcome (txList * (bool * option Transaction)) :=
  let old := TxSortedMap.Get (txs l) (Nonce tx) in
  if match old with
     | Some old =>
         let threshold := GasPrice old * Int64 (100 + Int64 priceBump) / 100 in
         (GasPrice tx <=? GasPrice old) || (GasPrice tx <? threshold)
     | None => false
     end
  then Done (l, (false, None))
  else
    let! txs := TxSortedMap.Put (txs l) tx in
    let costcap := if costcap l <? Cost tx then Cost tx else costcap l in
    let gascap := if gascap l <? Gas tx then Gas tx else gascap l in
    Done (mkTxList (strict l) txs costcap gascap, (true, old)).

Definition with_txs (l : txList) (r : outcome (txSortedMap * list Transaction)) : outcome (txList * list Transaction) :=
  let! '(txs, removed) := r in Done (mkTxList (strict l) txs (costcap l) (gascap l), removed).

Definition Forward (l : txList) (threshold : Z) : outcome (txList * list Transaction) := with_txs l (TxSortedMap.Forward (txs l) threshold).
Definition Cap (l : txList) (threshold : nat) : outcome (txList * list Transaction) := with_txs l (TxSortedMap.Cap (txs l) threshold).
Definition Ready (l : txList) (start : Z) : outcome (txList * list Transaction) := with_txs l (TxSortedMap.Ready (txs l) start).
Definition Flatten (iter : iteration) (l : txList) : txList * list Transaction :=
  let '(m, c) := TxSortedMap.Flatten iter (txs l) in (mkTxList (strict l) m (costcap l) (gascap l), c).
Definition Len (l : txList) : Z := TxSortedMap.Len (txs l).
Definition Empty (l : txList) : bool := Len l =? 0.

Definition Filter (iter : iteration) (l : txList) (costLimit gasLimit : Z) : outcome (txList * (list Transaction * list Transaction)) :=
  if (costcap l <=? costLimit) && (gascap l <=? gasLimit) then Done (l, ([], []))
  else
    let! '(m, removed) := TxSortedMap.Filter iter (txs l) (fun tx => (costLimit <? Cost tx) || (gasLimit <? Gas tx)) in
    let! '(m, invalids) :=
      if strict l && (0 <? length removed)%nat then
        let lowest := foldl (fun lowest tx => if Nonce tx <? lowest then Nonce tx else lowest) MaxUint64 removed in
        TxSortedMap.Filter iter m (fun tx => lowest <? Nonce tx)
      else Done (m, []) in
    Done (mkTxList (strict l) m costLimit gasLimit, (removed, invalids)).

Definition Remove (iter : iteration) (l : txList) (tx : Transaction) : outcome (txList * (bool * list Transaction)) :=
  let nonce := Nonce tx in
  let! '(m, removed) := TxSortedMap.Remove (txs l) nonce in
  if negb removed then Done (mkTxList (strict l) m (costcap l) (gascap l), (false, []))
  else
    let! '(m, invalids) := if strict l then TxSortedMap.Filter iter m (fun tx => nonce <? Nonce tx) else Done (m, []) in
    Done (mkTxList (strict l) m (costcap l) (gascap l), (true, invalids)).
End TxList.

(** ** txPricedList *)

(** The pool's map of all transactions ([all], by hash) is shared with the pool
    and is an argument. *)
Record txPricedList := mkPricedList {
  pitems : list Transaction;
  stales : Z
}.

Module TxPricedList.

(** [priceHeap.Less]: cheaper, or as cheap with a higher nonce. *)
Definition Less (a b : Transaction) : bool :=
  if GasPrice a <? GasPrice b then true
  else if GasPrice b <? GasPrice a then false
  else Nonce b <? Nonce a.

Definition newTxPricedList : txPricedList := mkPricedList [] 0.

(** [accountSet.containsTx]. *)
Definition containsTx (local : gset Z) (tx : Transaction) : bool :=
  match Sender tx with Some addr => bool_decide (addr ∈ local) | None => false end.

(** [numSlots] of tx_pool.go. *)
Definition txSlotSize : Z := 32 * 1024.
Definition numSlots (tx : Transaction) : Z := (Size tx + txSlotSize - 1) / txSlotSize.

Definition Put (l : txPricedList) (tx : Transaction) : outcome txPricedList :=
  let! items := heap_Push Less (pitems l) tx in Done (mkPricedList items (stales l)).

Definition Removed (iter : iteration) (all : txmap) (l : txPricedList) (count : Z) : outcome txPricedList :=
  let stales := stales l + count in
  if stales <=? zlen (pitems l) / 4 then Done (mkPricedList (pitems l) stales)
  else
    let! items := heap_Init Less (map snd (iter all)) in
    Done (mkPricedList items 0).

Definition stale (all : txmap) (tx : Transaction) : bool := match all !! Hash tx with None => true | Some _ => false end.

Fixpoint push_all (items save : list Transaction) : outcome (list Transaction) :=
  match save with
  | [] => Done items
  | tx :: save => let! items := heap_Push Less items tx in push_all items save
  end.

(** The rest of the heap, the counter, and the transactions to drop and to save. *)
Fixpoint Cap_loop (fuel : nat) (all : txmap) (local : gset Z) (threshold : Z) (items : list Transaction) (stales : Z)
    : outcome (list Transaction * Z * list Transaction * list Transaction) :=
  match fuel with
  | O => OutOfFuel
  | S fuel =>
      if (0 <? length items)%nat then
        let! '(items, tx) := heap_Pop Less items in
        if stale all tx then Cap_loop fuel all local threshold items (stales - 1)
        else if threshold <=? GasPrice tx then Done (items, stales, [], [tx])
        else
          let! '(items, stales, drop, save) := Cap_loop fuel all local threshold items stales in
          if containsTx local tx then Done (items, stales, drop, tx :: save) else Done (items, stales, tx :: drop, save)
      else Done (items, stales, [], [])
  end.

Definition Cap (all : txmap) (local : gset Z) (l : txPricedList) (threshold : Z) : outcome (txPricedList * list Transaction) :=
  let! '(items, stales, drop, save) := Cap_loop (S (length (pitems l))) all local threshold (pitems l) (stales l) in
  let! items := push_all items save in
  Done (mkPricedList items stales, drop).

Fixpoint discard_stale (fuel : nat) (all : txmap) (items : list Transaction) (stales : Z) : outcome (list Transaction * Z) :=
  match fuel with
  | O => OutOfFuel
  | S fuel =>
      match items with
      | [] => Done (items, stales)
      | head :: _ =>
          if stale all head then
            let! '(items, _) := heap_Pop Less items in
            discard_stale fuel all items (stales - 1)
          else Done (items, stales)
      end
  end.

Definition Underpriced (all : txmap) (local : gset Z) (l : txPricedList) (tx : Transaction) : outcome (txPricedList * bool) :=
  if containsTx local tx then Done (l, false)
  else
    let! '(items, stales) := discard_stale (S (length (pitems l))) all (pitems l) (stales l) in
    match items with
    | [] => Done (mkPricedList items stales, false)
    | cheapest :: _ => Done (mkPricedList items stales, GasPrice tx <=? GasPrice cheapest)
    end.

Fixpoint Discard_loop (fuel : nat) (all : txmap) (local : gset Z) (slots : Z) (items : list Transaction) (stales : Z)
    : outcome (list Transaction * Z * list Transaction * list Transaction) :=
  match fuel with
  | O => OutOfFuel
  | S fuel =>
      if (0 <? length items)%nat && (0 <? slots) then
        let! '(items, tx) := heap_Pop Less items in
        if stale all tx then Discard_loop fuel all local slots items (stales - 1)
        else if containsTx local tx then
          let! '(items, stales, drop, save) := Discard_loop fuel all local slots items stales in
          Done (items, stales, drop, tx :: save)
        else
          let! '(items, stales, drop, save) := Discard_loop fuel all local (slots - numSlots tx) items stales in
          Done (items, stales, tx :: drop, save)
      else Done (items, stales, [], [])
  end.

(** The capacity of the slice of results is [slots]. *)
Definition Discard (all : txmap) (local : gset Z) (l : txPricedList) (slots : Z) : outcome (txPricedList * list Transaction) :=
  if slots <? 0 then Panic MakeSlice
  else
    let! '(items, stales, drop, save) := Discard_loop (S (length (pitems l))) all local slots (pitems l) (stales l) in
    let! items := push_all items save in
    Done (mkPricedList items stales, drop).
End TxPricedList.
