(* ===== verification/TxSorted.v ===== *)
(** * core: the nonce-sorted map is a sorted list (tx_list.go)
    A [txSortedMap] stands for the list of its transactions by nonce.  Every
    operation keeps the heap and the cache in agreement with the hash map and
    does on the list what its comment says; nothing panics, whatever the order
    in which Go ranges over the map. *)

From stdpp Require Import sorting.
From S2P Require Import Prelude Heap TxList.

#[global] Open Scope Z_scope.

(** ** The transactions of a map by nonce *)

Definition keyed (m : txmap) : Prop := forall k tx, m !! k = Some tx -> Nonce tx = k.
Definition nonces (m : txmap) : list Z := merge_sort Z.le (elements (dom m)).
Definition sorted_txs (m : txmap) : list Transaction := omap (fun k => m !! k) (nonces m).

(** Strictly ascending nonces. *)
Definition ascending (l : list Transaction) : Prop := StronglySorted Z.lt (map Nonce l).

(** Orders in which a map may be ranged over. *)
Definition ranges (iter : iteration) : Prop := forall m, iter m ≡ₚ map_to_list m.

Lemma nonces_sorted m : StronglySorted Z.le (nonces m).
Proof. apply StronglySorted_merge_sort; apply _. Qed.

Lemma nonces_perm m : nonces m ≡ₚ elements (dom m).
Proof. apply merge_sort_Permutation. Qed.

Lemma elem_of_nonces m k : k ∈ nonces m <-> is_Some (m !! k).
Proof. rewrite nonces_perm, elem_of_elements. apply elem_of_dom. Qed.

Lemma sorted_lt_le (l : list Z) : StronglySorted Z.lt l -> StronglySorted Z.le l /\ NoDup l.
Proof.
  induction 1 as [|x l Hs [IH1 IH2] Hx]; split; constructor; try done.
  - eapply Forall_impl; [exact Hx|]. lia.
  - intros Hin. rewrite Forall_forall in Hx. specialize (Hx x Hin). lia.
Qed.

Lemma sorted_le_lt (l : list Z) : StronglySorted Z.le l -> NoDup l -> StronglySorted Z.lt l.
Proof.
  induction 1 as [|x l Hs IH Hx]; intros Hn; constructor; inversion Hn; subst; [by apply IH|]. apply Forall_forall. intros y Hy. rewrite Forall_forall in Hx. specialize (Hx y Hy).
  assert (x <> y) by (intros ->; done). lia.
Qed.

Lemma nonces_unique m l : StronglySorted Z.lt l -> (forall k, k ∈ l <-> is_Some (m !! k)) -> l = nonces m.
Proof.
  intros Hs Hin. destruct (sorted_lt_le l Hs) as [Hle Hnd]. apply (StronglySorted_unique Z.le); [done|apply nonces_sorted|]. rewrite nonces_perm. apply NoDup_Permutation; [done|apply NoDup_elements|].
  intros k. by rewrite Hin, elem_of_elements, elem_of_dom.
Qed.

Lemma nonces_lt m : StronglySorted Z.lt (nonces m).
Proof. apply sorted_le_lt; [apply nonces_sorted|]. rewrite nonces_perm. apply NoDup_elements. Qed.

Lemma map_Nonce_omap (m : txmap) l : keyed m -> (forall k, k ∈ l -> is_Some (m !! k)) -> map Nonce (omap (fun k => m !! k) l) = l.
Proof.
  intros Hk. induction l as [|k l IH]; intros Hin; [done|]. destruct (Hin k ltac:(by left)) as [tx Htx]. cbn [omap list_omap]. rewrite Htx. cbn [map].
  rewrite IH by (intros; apply Hin; by right). by rewrite (Hk k tx Htx).
Qed.

Lemma sorted_nonces m : keyed m -> map Nonce (sorted_txs m) = nonces m.
Proof. intros Hk. apply map_Nonce_omap; [done|]. intros k. apply elem_of_nonces. Qed.

Lemma sorted_ascending m : keyed m -> ascending (sorted_txs m).
Proof. intros Hk. unfold ascending. rewrite sorted_nonces by done. apply nonces_lt. Qed.

Lemma elem_of_sorted m tx : keyed m -> tx ∈ sorted_txs m <-> m !! Nonce tx = Some tx.
Proof.
  intros Hk. unfold sorted_txs. rewrite list_elem_of_omap. split.
  - intros (k & _ & Htx). by rewrite (Hk k tx Htx).
  - intros Htx. exists (Nonce tx). split; [|done]. apply elem_of_nonces. by eexists.
Qed.

Lemma sorted_unique m l : keyed m -> ascending l -> (forall tx, tx ∈ l <-> m !! Nonce tx = Some tx) -> l = sorted_txs m.
Proof.
  intros Hk Ha Hin. assert (map Nonce l = nonces m) as Hn.
  { apply nonces_unique; [done|]. intros k. rewrite list_elem_of_fmap. split.
    - intros (tx & -> & Htx). apply Hin in Htx. by eexists.
    - intros [tx Htx]. exists tx. rewrite (Hk k tx Htx). split; [done|]. apply Hin. by rewrite (Hk k tx Htx). }
  unfold sorted_txs. rewrite <-Hn. clear Hn Ha. assert (forall tx, tx ∈ l -> m !! Nonce tx = Some tx) as H by (intros; by apply Hin). clear Hin.
  induction l as [|tx l IH]; [done|]. cbn [map omap list_omap]. rewrite (H tx) by (by left). f_equal. apply IH. intros. apply H. by right.
Qed.

(** ** Filters and single transactions *)

Lemma sorted_filter (l : list Z) (f : Z -> bool) : StronglySorted Z.lt l -> StronglySorted Z.lt (List.filter f l).
Proof.
  induction 1 as [|x l Hs IH Hx]; cbn [List.filter]; [constructor|]. destruct (f x); [|done]. constructor; [done|]. apply Forall_forall. intros y Hy.
  rewrite Forall_forall in Hx. apply Hx. apply list_elem_of_In, filter_In in Hy as [Hy _]. by apply list_elem_of_In.
Qed.

Lemma ascending_filter f l : ascending l -> ascending (List.filter f l).
Proof.
  unfold ascending. induction l as [|tx l IH]; cbn [List.filter map]; [done|]. intros Hs. inversion Hs as [|? ? Hs' Hx]; subst. destruct (f tx); [|by apply IH].
  cbn [map]. constructor; [by apply IH|]. apply Forall_forall. intros y (t & -> & Ht)%list_elem_of_fmap. rewrite Forall_forall in Hx. apply Hx, list_elem_of_fmap. exists t.
  split; [done|]. by apply list_elem_of_In, filter_In in Ht as [Ht%list_elem_of_In _].
Qed.

Lemma elem_of_List_filter {A} (f : A -> bool) (l : list A) x : x ∈ List.filter f l <-> x ∈ l /\ f x = true.
Proof. by rewrite !list_elem_of_In, filter_In. Qed.

Lemma keyed_filter (P : Z * Transaction -> Prop) `{!forall x, Decision (P x)} m : keyed m -> keyed (filter P m).
Proof. intros Hk k tx [Htx _]%map_lookup_filter_Some. by apply Hk. Qed.

Lemma keyed_delete k m : keyed m -> keyed (delete k m).
Proof. intros Hk k' tx [_ Htx]%lookup_delete_Some. by apply Hk. Qed.

Lemma keyed_insert tx m : keyed m -> keyed (<[Nonce tx := tx]> m).
Proof. intros Hk k tx' [[<- <-]|[_ Htx]]%lookup_insert_Some; [done|by apply Hk]. Qed.

(** The transactions of a filtered map. *)
Lemma sorted_txs_filter (f : Transaction -> bool) (P : Z * Transaction -> Prop) `{!forall x, Decision (P x)} m : keyed m -> (forall k tx, m !! k = Some tx -> P (k, tx) <-> f tx = true) ->
  sorted_txs (filter P m) = List.filter f (sorted_txs m).
Proof.
  intros Hk HP. symmetry. apply sorted_unique; [by apply keyed_filter|by apply ascending_filter, sorted_ascending|]. intros tx.
  rewrite elem_of_List_filter, elem_of_sorted, map_lookup_filter_Some by done. split; intros [Htx Hf]; (split; [done|]); by eapply HP.
Qed.

Lemma sorted_txs_delete k m : keyed m -> sorted_txs (delete k m) = List.filter (fun tx => negb (Nonce tx =? k)) (sorted_txs m).
Proof.
  intros Hk. symmetry. apply sorted_unique; [by apply keyed_delete|by apply ascending_filter, sorted_ascending|]. intros tx.
  rewrite elem_of_List_filter, elem_of_sorted, lookup_delete_Some by done. destruct (Z.eqb_spec (Nonce tx) k); naive_solver.
Qed.

Lemma filter_all {A} (f : A -> bool) (l : list A) : (forall x, x ∈ l -> f x = true) -> List.filter f l = l.
Proof. induction l as [|x l IH]; intros Hf; [done|]. cbn [List.filter]. rewrite Hf by (by left). f_equal. apply IH. intros. apply Hf. by right. Qed.

Lemma filter_none {A} (f : A -> bool) (l : list A) : (forall x, x ∈ l -> f x = false) -> List.filter f l = [].
Proof. induction l as [|x l IH]; intros Hf; [done|]. cbn [List.filter]. rewrite Hf by (by left). apply IH. intros. apply Hf. by right. Qed.

(** The first and the last transaction. *)
Lemma ascending_cons tx l : ascending (tx :: l) -> ascending l /\ (forall x, x ∈ l -> Nonce tx < Nonce x) /\ List.filter (fun x => negb (Nonce x =? Nonce tx)) (tx :: l) = l.
Proof.
  unfold ascending. cbn [map]. intros Hs. inversion Hs as [|? ? Hs' Hx]; subst. rewrite Forall_forall in Hx. assert (forall x, x ∈ l -> Nonce tx < Nonce x) as Hlt by (intros x Hin; by apply Hx, list_elem_of_fmap_2).
  split; [done|]. split; [done|]. cbn [List.filter]. rewrite Z.eqb_refl. cbn [negb]. apply filter_all. intros x Hin. specialize (Hlt x Hin). destruct (Z.eqb_spec (Nonce x) (Nonce tx)); [lia|done].
Qed.

Lemma ascending_snoc l tx : ascending (l ++ [tx]) -> ascending l /\ (forall x, x ∈ l -> Nonce x < Nonce tx) /\ List.filter (fun x => negb (Nonce x =? Nonce tx)) (l ++ [tx]) = l.
Proof.
  induction l as [|y l IH]; intros Ha.
  - split; [constructor|]. split; [by intros x ?%not_elem_of_nil|]. cbn. by rewrite Z.eqb_refl.
  - destruct (ascending_cons y (l ++ [tx]) Ha) as (Ha' & Hlt & _). destruct (IH Ha') as (Hl & Hlt' & Hf). assert (Nonce y < Nonce tx) by (apply Hlt, elem_of_app; right; by left).
    split; [|split].
    + unfold ascending. cbn [map]. constructor; [done|]. apply Forall_forall. intros k (x & -> & Hx)%list_elem_of_fmap. apply Hlt, elem_of_app. by left.
    + intros x [->|Hx]%elem_of_cons; [done|by apply Hlt'].
    + cbn [app List.filter]. destruct (Z.eqb_spec (Nonce y) (Nonce tx)); [lia|]. cbn [negb]. by rewrite Hf.
Qed.

(** ** The heap of the nonces *)

Record rep (items : txmap) (index : list Z) : Prop := {
  rep_keyed : keyed items;
  rep_u64 : forall k, is_Some (items !! k) -> is_u64 k;
  rep_heap : heap Z.ltb index;
  rep_index : index ≡ₚ elements (dom items) }.

Record wf (m : txSortedMap) : Prop := {
  wf_rep : rep (items m) (index m);
  wf_cache : forall c, cache m = Some c -> c = sorted_txs (items m) }.

Lemma ltb_asym x y : (x <? y) = true -> (y <? x) = false.
Proof. lia. Qed.

Lemma ltb_trans x y z : (y <? x) = false -> (z <? y) = false -> (z <? x) = false.
Proof. lia. Qed.

Lemma rep_elem items index k : rep items index -> k ∈ index <-> is_Some (items !! k).
Proof. intros Hr. rewrite (rep_index _ _ Hr), elem_of_elements. apply elem_of_dom. Qed.

Lemma rep_length items index : rep items index -> length index = size items.
Proof. intros Hr. rewrite (Permutation_length (rep_index _ _ Hr)), <-size_dom. done. Qed.

Lemma sorted_txs_length items : keyed items -> length (sorted_txs items) = size items.
Proof. intros Hk. rewrite <-(length_map Nonce), sorted_nonces, (Permutation_length (nonces_perm items)), <-size_dom by done. done. Qed.

Lemma rep_min items index k rest : rep items index -> index = k :: rest -> exists tx, items !! k = Some tx /\ sorted_txs items = tx :: sorted_txs (delete k items).
Proof.
  intros Hr Hi. destruct (proj1 (rep_elem _ _ k Hr)) as [tx Htx]; [rewrite Hi; by left|]. exists tx. split; [done|]. pose proof (rep_keyed _ _ Hr) as Hk.
  rewrite (sorted_txs_delete k items Hk). pose proof (sorted_ascending items Hk) as Ha. assert (tx ∈ sorted_txs items) as Hin by (apply elem_of_sorted; [done|by rewrite (Hk k tx Htx)]).
  assert (forall x, x ∈ sorted_txs items -> k <= Nonce x) as Hmin.
  { intros x Hx%elem_of_sorted; [|done]. pose proof (heap_min_elem Z.ltb ltb_asym ltb_trans index k (Nonce x) (rep_heap _ _ Hr)) as H. rewrite Hi in H at 1. specialize (H eq_refl).
    rewrite (rep_elem items index) in H by done. specialize (H ltac:(by eexists)). lia. }
  destruct (sorted_txs items) as [|t l]; [by apply not_elem_of_nil in Hin|]. destruct (ascending_cons t l Ha) as (_ & Hlt & Hf).
  assert (t = tx) as ->. { apply elem_of_cons in Hin as [->|Hin]; [done|]. specialize (Hlt tx Hin). specialize (Hmin t ltac:(by left)). rewrite (Hk k tx Htx) in Hlt. lia. }
  rewrite (Hk k tx Htx) in Hf. by rewrite Hf.
Qed.

Lemma rep_delete items index index' k : rep items index -> heap Z.ltb index' -> index ≡ₚ k :: index' -> rep (delete k items) index'.
Proof.
  intros Hr Hh Hp. pose proof (rep_index _ _ Hr) as Hi. constructor; [by apply keyed_delete, (rep_keyed _ _ Hr)| |done|].
  - intros x [tx [_ Htx]%lookup_delete_Some]. apply (rep_u64 _ _ Hr). by eexists.
  - assert (NoDup (k :: index')) as [Hn Hnd]%NoDup_cons by (rewrite <-Hp, Hi; apply NoDup_elements). apply NoDup_Permutation; [done|apply NoDup_elements|].
    intros x. rewrite elem_of_elements, dom_delete, elem_of_difference, elem_of_singleton, <-elem_of_elements, <-Hi, Hp, elem_of_cons. naive_solver.
Qed.

Lemma rep_pop items index : rep items index -> index <> [] -> exists index' k tx, heap_Pop Z.ltb index = Done (index', k) /\ head index = Some k /\ items !! k = Some tx /\
  rep (delete k items) index' /\ sorted_txs items = tx :: sorted_txs (delete k items) /\ length index = S (length index').
Proof.
  intros Hr Hne. destruct (Pop_spec Z.ltb ltb_asym ltb_trans index (rep_heap _ _ Hr) Hne) as (index' & k & Hpop & Hh & Hp & Hhd & _). destruct index as [|k' rest]; [done|].
  injection Hhd as ->. destruct (rep_min items _ k rest Hr eq_refl) as (tx & Htx & Hs). exists index', k, tx. split_and!; try done; [by eapply rep_delete|by rewrite (Permutation_length Hp)].
Qed.

(** ** The operations on the list of transactions *)

Definition put (tx : Transaction) (l : list Transaction) : list Transaction :=
  List.filter (fun x => Nonce x <? Nonce tx) l ++ tx :: List.filter (fun x => Nonce tx <? Nonce x) l.

(** The transactions with the nonces [next], [next + 1], ..., and the others. *)
Fixpoint consecutive (next : Z) (l : list Transaction) : list Transaction * list Transaction :=
  match l with
  | tx :: l' => if Nonce tx =? next then let '(a, b) := consecutive (u64 (next + 1)) l' in (tx :: a, b) else ([], l)
  | [] => ([], [])
  end.

Definition ready (start : Z) (l : list Transaction) : list Transaction * list Transaction :=
  match l with
  | tx :: _ => if start <? Nonce tx then ([], l) else consecutive (Nonce tx) l
  | [] => ([], [])
  end.

Lemma Forward_loop_ok threshold fuel : forall items index, (length index < fuel)%nat -> rep items index ->
  exists items' index', TxSortedMap.Forward_loop fuel items index threshold = Done (items', index', List.filter (fun x => Nonce x <? threshold) (sorted_txs items)) /\
    rep items' index' /\ sorted_txs items' = List.filter (fun x => threshold <=? Nonce x) (sorted_txs items).
Proof.
  induction fuel as [|fuel IH]; intros items index Hf Hr; [lia|]. cbn [TxSortedMap.Forward_loop]. pose proof (rep_keyed _ _ Hr) as Hk. destruct (decide (index = [])) as [Hi|Hne].
  - assert (sorted_txs items = []) as Hs by (apply length_zero_iff_nil; rewrite sorted_txs_length, <-(rep_length _ _ Hr), Hi by done; done). rewrite Hs. exists items, index. rewrite Hi at 1. done.
  - destruct (rep_pop items index Hr Hne) as (index' & k & tx & Hpop & Hhd & Htx & Hr' & Hs & Hlen). destruct index as [|k' rest]; [done|]. injection Hhd as ->.
    destruct (ascending_cons tx (sorted_txs (delete k items))) as (_ & Hlt & _); [rewrite <-Hs; by apply sorted_ascending|]. rewrite (Hk k tx Htx) in Hlt.
    rewrite Hs. cbn [List.filter]. rewrite (Hk k tx Htx). destruct (Z.ltb_spec k threshold).
    + rewrite Hpop. cbn [obind]. unfold TxSortedMap.item. rewrite Htx. cbn [or_panic obind]. destruct (IH (delete k items) index') as (items' & index'' & -> & Hr'' & Hs''); [lia|done|].
      cbn [obind]. exists items', index''. destruct (Z.leb_spec threshold k); [lia|]. done.
    + exists items, (k :: rest). rewrite filter_none by (intros x Hx; specialize (Hlt x Hx); lia). split; [done|]. split; [done|]. destruct (Z.leb_spec threshold k); [|lia].
      rewrite filter_all by (intros x Hx; specialize (Hlt x Hx); lia). done.
Qed.

Lemma Ready_loop_ok fuel : forall items index next, (length index < fuel)%nat -> rep items index ->
  exists items' index', TxSortedMap.Ready_loop fuel items index next = Done (items', index', (consecutive next (sorted_txs items)).1) /\
    rep items' index' /\ sorted_txs items' = (consecutive next (sorted_txs items)).2.
Proof.
  induction fuel as [|fuel IH]; intros items index next Hf Hr; [lia|]. cbn [TxSortedMap.Ready_loop]. pose proof (rep_keyed _ _ Hr) as Hk. destruct (decide (index = [])) as [Hi|Hne].
  - assert (sorted_txs items = []) as Hs by (apply length_zero_iff_nil; rewrite sorted_txs_length, <-(rep_length _ _ Hr), Hi by done; done). rewrite Hs. exists items, index. rewrite Hi at 1. done.
  - destruct (rep_pop items index Hr Hne) as (index' & k & tx & Hpop & Hhd & Htx & Hr' & Hs & Hlen). destruct index as [|k' rest]; [done|]. injection Hhd as ->.
    rewrite Hs. cbn [consecutive]. rewrite (Hk k tx Htx). destruct (Z.eqb_spec k next) as [<-|Hkn].
    + unfold TxSortedMap.item. rewrite Htx. cbn [or_panic obind]. rewrite Hpop. cbn [obind]. destruct (IH (delete k items) index' (u64 (k + 1))) as (items' & index'' & -> & Hr'' & Hs''); [lia|done|].
      cbn [obind]. exists items', index''. destruct (consecutive (u64 (k + 1)) (sorted_txs (delete k items))) as [a b]. done.
    + exists items, (k :: rest). done.
Qed.

(** ** Each operation does its work on the list *)

Lemma ascending_put tx l : ascending l -> ascending (put tx l).
Proof.
  intros Ha. unfold put. assert (forall l1 l2, ascending l1 -> ascending l2 -> (forall x y, x ∈ l1 -> y ∈ l2 -> Nonce x < Nonce y) -> ascending (l1 ++ l2)) as Happ.
  { induction l1 as [|a l1 IH]; intros l2 H1 H2 H12; [done|]. destruct (ascending_cons a l1 H1) as (H1' & Hlt & _). unfold ascending. cbn [app map].
    constructor; [apply IH; try done; intros; apply H12; [by right|done]|]. apply Forall_forall. intros k (x & -> & [Hx|Hx]%elem_of_app)%list_elem_of_fmap; [by apply Hlt|by apply H12; [left|]]. }
  apply Happ; [by apply ascending_filter| |].
  - unfold ascending. cbn [map]. constructor; [by apply ascending_filter|]. apply Forall_forall. intros k (x & -> & [_ Hx]%elem_of_List_filter)%list_elem_of_fmap. lia.
  - intros x y [_ Hx]%elem_of_List_filter [->|[_ Hy]%elem_of_List_filter]%elem_of_cons; lia.
Qed.

Lemma sorted_put tx items : keyed items -> sorted_txs (<[Nonce tx := tx]> items) = put tx (sorted_txs items).
Proof.
  intros Hk. symmetry. apply sorted_unique; [by apply keyed_insert|by apply ascending_put, sorted_ascending|]. intros x. unfold put.
  rewrite elem_of_app, elem_of_cons, !elem_of_List_filter, elem_of_sorted by done. rewrite lookup_insert_Some. split.
  - intros [[Hx Hlt]|[->|[Hx Hlt]]]; [right; split; [lia|done]|by left|right; split; [lia|done]].
  - intros [[Hn Hx]|[Hn Hx]]; [right; by left|]. destruct (Z.lt_total (Nonce x) (Nonce tx)) as [?|[?|?]]; [left; split; [done|lia]|lia|right; right; split; [done|lia]].
Qed.

Lemma Put_ok m tx : wf m -> is_u64 (Nonce tx) -> exists m', TxSortedMap.Put m tx = Done m' /\ wf m' /\ sorted_txs (items m') = put tx (sorted_txs (items m)).
Proof.
  intros [Hr Hc] Hu. unfold TxSortedMap.Put. destruct Hr as [Hk H64 Hh Hi].
  assert (exists index', match items m !! Nonce tx with None => heap_Push Z.ltb (index m) (Nonce tx) | Some _ => Done (index m) end = Done index' /\ heap Z.ltb index' /\
    index' ≡ₚ elements (dom (<[Nonce tx := tx]> (items m)))) as (index' & -> & Hh' & Hp).
  { destruct (items m !! Nonce tx) as [old|] eqn:Hold.
    - exists (index m). split; [done|]. split; [done|]. rewrite Hi. apply NoDup_Permutation; [apply NoDup_elements..|]. intros k. rewrite !elem_of_elements, dom_insert, elem_of_union, elem_of_singleton.
      split; [by right|]. intros [->|?]; [apply elem_of_dom; by eexists|done].
    - destruct (Push_spec Z.ltb ltb_asym ltb_trans (index m) (Nonce tx) Hh) as (index' & -> & Hh' & Hp). exists index'. split; [done|]. split; [done|]. rewrite Hp, Hi, dom_insert.
      rewrite elements_disj_union, elements_singleton; [done|]. apply disjoint_singleton_l. by apply not_elem_of_dom. }
  cbn [obind]. eexists. split; [done|]. split; [|by apply sorted_put]. constructor; [|done]. constructor; [by apply keyed_insert| |done|done].
  intros k [x Hx]. cbn [items] in Hx. apply lookup_insert_Some in Hx as [[<- _]|[_ Hx]]; [done|]. apply H64. by eexists.
Qed.

Lemma slice_drop {A} (l l1 l2 : list A) : l = l1 ++ l2 -> slice l (zlen l1) (zlen l) = Some l2.
Proof.
  intros ->. pose proof (length_app l1 l2) as Hl. rewrite slice_some by lia. rewrite Nat2Z.id, drop_app_length, take_ge by lia. done.
Qed.

Lemma slice_take {A} (l l1 l2 : list A) : l = l1 ++ l2 -> slice l 0 (zlen l1) = Some l1.
Proof. intros ->. pose proof (length_app l1 l2) as Hl. rewrite slice_some by lia. rewrite Z.sub_0_r, Nat2Z.id. change (drop (Z.to_nat 0) ?l) with l. by rewrite take_app_length. Qed.

Lemma ascending_split threshold l : ascending l -> l = List.filter (fun x => Nonce x <? threshold) l ++ List.filter (fun x => threshold <=? Nonce x) l.
Proof.
  induction l as [|tx l IH]; intros Ha; [done|]. destruct (ascending_cons tx l Ha) as (Ha' & Hlt & _). cbn [List.filter]. destruct (Z.ltb_spec (Nonce tx) threshold).
  - destruct (Z.leb_spec threshold (Nonce tx)); [lia|]. cbn [app]. f_equal. by apply IH.
  - destruct (Z.leb_spec threshold (Nonce tx)); [|lia]. rewrite filter_none by (intros x Hx; specialize (Hlt x Hx); lia). cbn [app]. f_equal. symmetry. apply filter_all. intros x Hx. specialize (Hlt x Hx). lia.
Qed.

Lemma Forward_ok m threshold : wf m -> exists m', TxSortedMap.Forward m threshold = Done (m', List.filter (fun x => Nonce x <? threshold) (sorted_txs (items m))) /\ wf m' /\
  sorted_txs (items m') = List.filter (fun x => threshold <=? Nonce x) (sorted_txs (items m)).
Proof.
  intros [Hr Hc]. unfold TxSortedMap.Forward. destruct (Forward_loop_ok threshold (S (length (index m))) (items m) (index m) ltac:(lia) Hr) as (items' & index' & -> & Hr' & Hs'). cbn [obind].
  destruct (cache m) as [c|]; cbn [obind].
  - rewrite (Hc c eq_refl). rewrite (slice_drop _ _ _ (ascending_split threshold _ (sorted_ascending _ (rep_keyed _ _ Hr)))). cbn [or_panic obind].
    eexists. split; [done|]. split; [|done]. constructor; [done|]. intros ? [= <-]. done.
  - eexists. split; [done|]. split; [|done]. by constructor.
Qed.

Lemma iter_snd iter items : ranges iter -> keyed items -> map snd (iter items) ≡ₚ sorted_txs items.
Proof.
  intros Hi Hk. rewrite (Hi items). apply NoDup_Permutation.
  - apply NoDup_fmap_2_strong; [|apply NoDup_map_to_list]. intros [k1 x1] [k2 x2] H1%elem_of_map_to_list H2%elem_of_map_to_list. simpl. intros ->.
    by rewrite <-(Hk k1 x2 H1), <-(Hk k2 x2 H2).
  - apply (NoDup_fmap_1 Nonce). change (Nonce <$> sorted_txs items) with (map Nonce (sorted_txs items)). rewrite sorted_nonces by done. apply sorted_lt_le, nonces_lt.
  - intros tx. rewrite elem_of_sorted by done. rewrite list_elem_of_fmap. split.
    + intros ([k x] & -> & Hx%elem_of_map_to_list). simpl. by rewrite (Hk k x Hx).
    + intros Hx. exists (Nonce tx, tx). split; [done|]. by apply elem_of_map_to_list.
Qed.

Lemma iter_fst iter items : ranges iter -> map fst (iter items) ≡ₚ elements (dom items).
Proof. intros Hi. rewrite (Hi items). rewrite dom_alt, elements_list_to_set; [done|]. apply NoDup_fst_map_to_list. Qed.

Lemma Permutation_filter {A} (f : A -> bool) l1 l2 : l1 ≡ₚ l2 -> List.filter f l1 ≡ₚ List.filter f l2.
Proof. induction 1; cbn [List.filter]; repeat case_match; try done; [by constructor|by constructor|by etrans]. Qed.

Lemma filter_negb_nil {A} (f : A -> bool) l : List.filter f l = [] -> List.filter (fun x => negb (f x)) l = l.
Proof.
  intros H. apply filter_all. intros x Hx. destruct (f x) eqn:Hf; [|done]. assert (x ∈ List.filter f l) as Hin by (by apply elem_of_List_filter). rewrite H in Hin. by apply not_elem_of_nil in Hin.
Qed.

Lemma Filter_ok iter m f : ranges iter -> wf m -> exists m' removed, TxSortedMap.Filter iter m f = Done (m', removed) /\ wf m' /\
  removed ≡ₚ List.filter f (sorted_txs (items m)) /\ sorted_txs (items m') = List.filter (fun x => negb (f x)) (sorted_txs (items m)).
Proof.
  intros Hit [Hr Hc]. pose proof Hr as [Hk H64 Hh Hi]. unfold TxSortedMap.Filter. set (items' := filter _ (items m)).
  assert (sorted_txs items' = List.filter (fun x => negb (f x)) (sorted_txs (items m))) as Hs.
  { apply sorted_txs_filter; [done|]. intros k tx _. rewrite negb_true_iff. done. }
  pose proof (Permutation_filter f _ _ (iter_snd iter (items m) Hit Hk)) as Hp. destruct (Nat.ltb_spec 0 (length (List.filter f (map snd (iter (items m)))))) as [Hlt|Hz].
  - destruct (Init_spec Z.ltb ltb_asym ltb_trans (map fst (iter items'))) as (index' & -> & Hh' & Hp'). cbn [obind]. do 2 eexists. split; [done|]. split; [|done]. constructor; [|done].
    constructor; [by apply keyed_filter| |done|exact (transitivity Hp' (iter_fst iter items' Hit))]. intros k [tx Htx]. apply map_lookup_filter_Some in Htx as [Htx _]. apply H64. by eexists.
  - assert (List.filter f (sorted_txs (items m)) = []) as Hnil.
    { apply length_zero_iff_nil. rewrite <-(Permutation_length Hp). lia. }
    assert (items' = items m) as Hsame.
    { apply map_filter_id. intros k tx Htx. destruct (f tx) eqn:Hf; [|done]. exfalso. assert (tx ∈ List.filter f (sorted_txs (items m))) as Hin.
      { apply elem_of_List_filter. split; [|done]. apply elem_of_sorted; [done|]. by rewrite (Hk k tx Htx). }
      rewrite Hnil in Hin. by apply not_elem_of_nil in Hin. }
    do 2 eexists. split; [done|]. rewrite Hsame in *. split; [by constructor|]. done.
Qed.

Lemma nonces_last items k l : keyed items -> nonces items = l ++ [k] -> exists tx, items !! k = Some tx /\ sorted_txs items = sorted_txs (delete k items) ++ [tx] /\ nonces (delete k items) = l.
Proof.
  intros Hk Hn. destruct (proj1 (elem_of_nonces items k)) as [tx Htx]; [rewrite Hn; apply elem_of_app; right; by left|]. exists tx. split; [done|].
  pose proof (sorted_nonces items Hk) as Hsn. rewrite Hn in Hsn. apply map_eq_app in Hsn as (l1 & l2 & Hs & Hl1 & Hl2). destruct l2 as [|t [|]]; try done. injection Hl2 as Ht.
  pose proof (sorted_ascending items Hk) as Ha. rewrite Hs in Ha. destruct (ascending_snoc l1 t Ha) as (_ & _ & Hf). assert (t = tx) as ->.
  { assert (t ∈ sorted_txs items) as Hin by (rewrite Hs; apply elem_of_app; right; by left). apply elem_of_sorted in Hin; [|done]. congruence. }
  assert (sorted_txs (delete k items) = l1) as Hd by (rewrite sorted_txs_delete, Hs, <-Ht by done; exact Hf). split; [by rewrite Hd|]. rewrite <-(sorted_nonces (delete k items)), Hd by (by apply keyed_delete). done.
Qed.

Lemma Cap_loop_ok threshold index n : forall items, keyed items -> take n index = nonces items -> n = size items -> (n <= length index)%nat ->
  exists items', TxSortedMap.Cap_loop n threshold items index = Done (items', reverse (drop threshold (sorted_txs items))) /\ keyed items' /\
    sorted_txs items' = take threshold (sorted_txs items) /\ nonces items' = take (n `min` threshold) index /\ items' ⊆ items.
Proof.
  induction n as [|n IH]; intros items Hk Hn Hsz Hle; cbn [TxSortedMap.Cap_loop]; pose proof (sorted_txs_length items Hk) as Hlen.
  - exists items. destruct (sorted_txs items) as [|]; [|simpl in Hlen; lia]. rewrite drop_nil, take_nil. split; [done|]. split; [done|]. split; [done|]. split; [|done]. by rewrite <-Hn.
  - destruct (Nat.ltb_spec threshold (S n)).
    + destruct (lookup_lt_is_Some_2 index n) as [k Hkn]; [lia|]. rewrite Hkn. cbn [or_panic obind]. rewrite (take_S_r _ _ _ Hkn) in Hn. destruct (nonces_last items k (take n index) Hk (eq_sym Hn)) as (tx & Htx & Hs & Hnd).
      unfold TxSortedMap.item. rewrite Htx. cbn [or_panic obind]. assert (length (sorted_txs (delete k items)) = n) as Hl by (rewrite Hs, length_app in Hlen; simpl in Hlen; lia).
      destruct (IH (delete k items)) as (items' & -> & Hk' & Hs' & Hn' & Hsub); [by apply keyed_delete|done|by rewrite <-sorted_txs_length by (by apply keyed_delete)|lia|].
      cbn [obind]. exists items'. rewrite Hs, take_app_le, drop_app_le by lia. rewrite reverse_app, reverse_singleton. split; [done|]. split; [done|]. split; [done|].
      split; [rewrite Hn'; f_equal; lia|]. etransitivity; [exact Hsub|apply delete_subseteq].
    + exists items. rewrite drop_ge, take_ge by lia. split; [done|]. split; [done|]. split; [done|]. split; [|done]. rewrite <-Hn. f_equal. lia.
Qed.

Lemma Cap_ok m threshold : wf m -> exists m', TxSortedMap.Cap m threshold = Done (m', reverse (drop threshold (sorted_txs (items m)))) /\ wf m' /\
  sorted_txs (items m') = take threshold (sorted_txs (items m)).
Proof.
  intros [Hr Hc]. pose proof Hr as [Hk H64 Hh Hi]. unfold TxSortedMap.Cap. pose proof (sorted_txs_length (items m) Hk) as Hlen. destruct (Nat.leb_spec (size (items m)) threshold) as [Hle|Hgt].
  - exists m. rewrite drop_ge, take_ge by lia. done.
  - assert (TxSortedMap.sort_nonces (index m) = nonces (items m)) as Hsort.
    { apply (StronglySorted_unique Z.le); [apply StronglySorted_merge_sort; apply _|apply nonces_sorted|]. unfold TxSortedMap.sort_nonces. by rewrite merge_sort_Permutation, nonces_perm. }
    rewrite Hsort. assert (length (nonces (items m)) = size (items m)) as Hln by (by rewrite <-sorted_nonces, length_map).
    destruct (Cap_loop_ok threshold (nonces (items m)) (size (items m)) (items m) Hk) as (items' & -> & Hk' & Hs' & Hn' & Hsub); [by rewrite take_ge by lia|done|lia|]. cbn [obind].
    assert (length (take threshold (nonces (items m))) = threshold) as Hlt by (rewrite length_take; lia).
    assert (slice (nonces (items m)) 0 (Z.of_nat threshold) = Some (take threshold (nonces (items m)))) as ->.
    { rewrite <-Hlt at 1. apply (slice_take _ _ (drop threshold (nonces (items m)))). symmetry. apply take_drop. }
    cbn [or_panic obind]. destruct (Init_spec Z.ltb ltb_asym ltb_trans (take threshold (nonces (items m)))) as (index' & -> & Hh' & Hp'). cbn [obind].
    assert (rep items' index') as Hr'.
    { constructor; [done| |done|].
      - intros k [tx Htx]. apply H64. exists tx. by eapply lookup_weaken.
      - rewrite Hp', <-nonces_perm, Hn'. by replace (size (items m) `min` threshold)%nat with threshold by lia. }
    destruct (cache m) as [c|]; cbn [obind]; [|eexists; split; [done|]; split; [|done]; by constructor].
    rewrite (Hc c eq_refl). assert (length (take threshold (sorted_txs (items m))) = threshold) as Hlt' by (rewrite length_take; lia).
    assert (slice (sorted_txs (items m)) 0 (zlen (sorted_txs (items m)) - zlen (reverse (drop threshold (sorted_txs (items m))))) = Some (take threshold (sorted_txs (items m)))) as ->.
    { rewrite length_reverse, length_drop. replace (zlen _ - _) with (Z.of_nat threshold) by lia. rewrite <-Hlt' at 1. apply (slice_take _ _ (drop threshold (sorted_txs (items m)))). symmetry. apply take_drop. }
    cbn [or_panic obind]. eexists. split; [done|]. split; [|done]. constructor; [done|]. by intros ? [= <-].
Qed.

Lemma position_spec nonce index : nonce ∈ index -> exists i, TxSortedMap.position nonce index = Some i /\ index !! i = Some nonce.
Proof.
  induction index as [|x index IH]; [by intros ?%not_elem_of_nil|]. intros Hin. cbn [TxSortedMap.position]. destruct (Z.eqb_spec x nonce) as [->|Hne]; [by exists 0%nat|].
  apply elem_of_cons in Hin as [->|Hin]; [done|]. destruct (IH Hin) as (i & -> & Hi). by exists (S i).
Qed.

Lemma Remove_ok m nonce : wf m -> exists m', TxSortedMap.Remove m nonce = Done (m', existsb (fun x => Nonce x =? nonce) (sorted_txs (items m))) /\ wf m' /\
  sorted_txs (items m') = List.filter (fun x => negb (Nonce x =? nonce)) (sorted_txs (items m)).
Proof.
  intros [Hr Hc]. pose proof Hr as [Hk H64 Hh Hi]. unfold TxSortedMap.Remove. destruct (items m !! nonce) as [tx|] eqn:Htx.
  - assert (existsb (fun x => Nonce x =? nonce) (sorted_txs (items m)) = true) as ->.
    { apply existsb_exists. exists tx. rewrite (Hk nonce tx Htx), Z.eqb_refl. split; [|done]. apply list_elem_of_In, elem_of_sorted; [done|]. by rewrite (Hk nonce tx Htx). }
    destruct (position_spec nonce (index m)) as (i & -> & Hpos); [rewrite (rep_elem _ _ nonce Hr); by eexists|].
    destruct (Remove_spec Z.ltb ltb_asym ltb_trans (index m) i Hh) as (index' & x & -> & Hh' & Hp & Hx); [by apply lookup_lt_Some in Hpos|]. cbn [obind]. assert (x = nonce) as -> by congruence.
    eexists. split; [done|]. split; [|by apply sorted_txs_delete]. constructor; [by eapply rep_delete|done].
  - assert (forall x, x ∈ sorted_txs (items m) -> Nonce x <> nonce) as Hno by (intros x Hx%elem_of_sorted <-; [congruence|done]). exists m. split; [|split; [done|]].
    + do 2 f_equal. symmetry. apply not_true_iff_false. intros (x & Hx & Heq)%existsb_exists. apply (Hno x); [by apply list_elem_of_In|lia].
    + symmetry. apply filter_all. intros x Hx. specialize (Hno x Hx). lia.
Qed.

Lemma Ready_ok m start : wf m -> exists m', TxSortedMap.Ready m start = Done (m', (ready start (sorted_txs (items m))).1) /\ wf m' /\ sorted_txs (items m') = (ready start (sorted_txs (items m))).2.
Proof.
  intros Hw. pose proof (wf_rep _ Hw) as Hr. pose proof (rep_keyed _ _ Hr) as Hk. unfold TxSortedMap.Ready, ready. destruct (index m) as [|first rest] eqn:Hidx.
  - assert (sorted_txs (items m) = []) as Hs by (apply length_zero_iff_nil; by rewrite sorted_txs_length, <-(rep_length _ _ Hr)). exists m. by rewrite Hs.
  - destruct (rep_min (items m) _ first rest Hr eq_refl) as (tx & Htx & Hs). pose proof (Hk first tx Htx) as Hn. destruct (start <? first) eqn:Hlt.
    + exists m. rewrite Hs, Hn, Hlt. done.
    + destruct (Ready_loop_ok (S (length (first :: rest))) (items m) (first :: rest) first ltac:(lia) Hr) as (items' & index' & -> & Hr' & Hs'). cbn [obind].
      exists (mkSortedMap items' index' None). rewrite Hs, Hn, Hlt. rewrite Hs in Hs'. split; [done|]. split; [by constructor|done].
Qed.

Lemma Flatten_ok iter m : ranges iter -> wf m -> exists m', TxSortedMap.Flatten iter m = (m', sorted_txs (items m)) /\ wf m' /\ sorted_txs (items m') = sorted_txs (items m).
Proof.
  intros Hit Hw. pose proof Hw as [Hr Hc]. pose proof (rep_keyed _ _ Hr) as Hk. unfold TxSortedMap.Flatten, TxSortedMap.ensureCache.
  destruct (cache m) as [c|] eqn:Hcm; [exists m; by rewrite (Hc c eq_refl)|].
  set (c := merge_sort _ _). assert (c = sorted_txs (items m)) as ->; [|eexists; split; [done|]; split; [|done]; constructor; [done|by intros ? [= <-]]].
  assert (c ≡ₚ sorted_txs (items m)) as Hp by (unfold c; rewrite merge_sort_Permutation; by apply iter_snd). apply sorted_unique; [done| |intros tx; rewrite Hp; by apply elem_of_sorted].
  unfold ascending. apply sorted_le_lt.
  - assert (StronglySorted TxSortedMap.by_nonce c) as Hsc. { unfold c. apply StronglySorted_merge_sort. - intros a b d. unfold TxSortedMap.by_nonce. lia. - intros a b. unfold TxSortedMap.by_nonce. lia. }
    clear -Hsc. induction Hsc as [|x l Hs IH Hx]; cbn [map]; constructor; [done|]. by apply Forall_map.
  - rewrite Hp. rewrite sorted_nonces by done. apply sorted_lt_le, nonces_lt.
Qed.

Lemma new_wf : wf TxSortedMap.newTxSortedMap.
Proof.
  constructor; [|done]. constructor; [done|by intros k [? ?]| |done]. intros j Hj x y Hx. done.
Qed.
