(* ===== verification/TxPool.v ===== *)
(** * core: the lists of the pool are correct (tx_list.go)
    A [txList] behaves as the list of its transactions by nonce, for any
    sequence of operations; its bounds of cost and gas let Filter skip the work
    only when there is none.  A strict list, as the pool keeps of executable
    transactions, has no gaps.  The price heap gives up the cheapest remote
    transactions first. *)

From stdpp Require Import sorting.
From S2P Require Import Prelude Heap TxList TxSorted.

(** ** Lists of one account *)

(** The bounds cover every transaction. *)
Record list_ok (l : txList) : Prop := {
  ok_wf : wf (txs l);
  ok_cost : forall tx, tx ∈ sorted_txs (items (txs l)) -> Cost tx <= costcap l;
  ok_gas : forall tx, tx ∈ sorted_txs (items (txs l)) -> Gas tx <= gascap l }.

Definition flat (l : txList) : list Transaction := sorted_txs (items (txs l)).

Inductive op :=
  | OpAdd (tx : Transaction) (priceBump : Z)
  | OpForward (threshold : Z)
  | OpFilter (iter : iteration) (costLimit gasLimit : Z)
  | OpCap (threshold : nat)
  | OpRemove (iter : iteration) (tx : Transaction)
  | OpReady (start : Z)
  | OpFlatten (iter : iteration)
  | OpOverlaps (tx : Transaction)
  | OpLen.

Inductive res :=
  | RAdd (accepted : bool) (old : option Transaction)
  | RTxs (l : list Transaction)
  | RFilter (removed invalids : list Transaction)
  | RRemove (found : bool) (invalids : list Transaction)
  | RBool (b : bool)
  | RLen (n : Z).

(** Transactions taken out by ranging over a map come in any order. *)
Inductive res_eq : res -> res -> Prop :=
  | eq_same r : res_eq r r
  | eq_filter a b a' b' : a ≡ₚ a' -> b ≡ₚ b' -> res_eq (RFilter a b) (RFilter a' b')
  | eq_remove f a a' : a ≡ₚ a' -> res_eq (RRemove f a) (RRemove f a').

Definition op_ok (o : op) : Prop :=
  match o with
  | OpAdd tx _ => is_u64 (Nonce tx)
  | OpFilter iter _ _ | OpRemove iter _ | OpFlatten iter => ranges iter
  | _ => True
  end.

Definition exec (l : txList) (o : op) : outcome (txList * res) :=
  match o with
  | OpAdd tx priceBump => let! '(l, (accepted, old)) := TxList.Add l tx priceBump in Done (l, RAdd accepted old)
  | OpForward threshold => let! '(l, r) := TxList.Forward l threshold in Done (l, RTxs r)
  | OpFilter iter costLimit gasLimit => let! '(l, (a, b)) := TxList.Filter iter l costLimit gasLimit in Done (l, RFilter a b)
  | OpCap threshold => let! '(l, r) := TxList.Cap l threshold in Done (l, RTxs r)
  | OpRemove iter tx => let! '(l, (f, r)) := TxList.Remove iter l tx in Done (l, RRemove f r)
  | OpReady start => let! '(l, r) := TxList.Ready l start in Done (l, RTxs r)
  | OpFlatten iter => let '(l, r) := TxList.Flatten iter l in Done (l, RTxs r)
  | OpOverlaps tx => Done (l, RBool (TxList.Overlaps l tx))
  | OpLen => Done (l, RLen (TxList.Len l))
  end.

Fixpoint exec_all (l : txList) (os : list op) : outcome (txList * list res) :=
  match os with
  | [] => Done (l, [])
  | o :: os => let! '(l, r) := exec l o in let! '(l, rs) := exec_all l os in Done (l, r :: rs)
  end.

(** The same on the list of transactions by nonce. *)
Definition lookup_nonce (nonce : Z) (l : list Transaction) : option Transaction := List.find (fun x => Nonce x =? nonce) l.

Definition too_cheap (old tx : Transaction) (priceBump : Z) : bool :=
  (GasPrice tx <=? GasPrice old) || (GasPrice tx <? GasPrice old * Int64 (100 + Int64 priceBump) / 100).

Definition above (nonce : Z) (l : list Transaction) : list Transaction := List.filter (fun x => nonce <? Nonce x) l.
Definition upto (nonce : Z) (l : list Transaction) : list Transaction := List.filter (fun x => negb (nonce <? Nonce x)) l.

Definition spec (strict : bool) (l : list Transaction) (o : op) : list Transaction * res :=
  match o with
  | OpAdd tx priceBump =>
      match lookup_nonce (Nonce tx) l with
      | Some old => if too_cheap old tx priceBump then (l, RAdd false None) else (put tx l, RAdd true (Some old))
      | None => (put tx l, RAdd true None)
      end
  | OpForward threshold => (List.filter (fun x => threshold <=? Nonce x) l, RTxs (List.filter (fun x => Nonce x <? threshold) l))
  | OpFilter _ costLimit gasLimit =>
      let bad tx := (costLimit <? Cost tx) || (gasLimit <? Gas tx) in
      let removed := List.filter bad l in
      let rest := List.filter (fun x => negb (bad x)) l in
      match removed with
      | first :: _ => if strict then (upto (Nonce first) rest, RFilter removed (above (Nonce first) rest)) else (rest, RFilter removed [])
      | [] => (l, RFilter [] [])
      end
  | OpCap threshold => (take threshold l, RTxs (reverse (drop threshold l)))
  | OpRemove _ tx =>
      match lookup_nonce (Nonce tx) l with
      | Some _ =>
          let rest := List.filter (fun x => negb (Nonce x =? Nonce tx)) l in
          if strict then (upto (Nonce tx) rest, RRemove true (above (Nonce tx) rest)) else (rest, RRemove true [])
      | None => (l, RRemove false [])
      end
  | OpReady start => ((ready start l).2, RTxs (ready start l).1)
  | OpFlatten _ => (l, RTxs l)
  | OpOverlaps tx => (l, RBool (match lookup_nonce (Nonce tx) l with Some _ => true | None => false end))
  | OpLen => (l, RLen (zlen l))
  end.

Fixpoint spec_all (strict : bool) (l : list Transaction) (os : list op) : list Transaction * list res :=
  match os with
  | [] => (l, [])
  | o :: os => let '(l, r) := spec strict l o in let '(l, rs) := spec_all strict l os in (l, r :: rs)
  end.

Lemma Get_lookup (m : txSortedMap) nonce : wf m -> TxSortedMap.Get m nonce = lookup_nonce nonce (sorted_txs (items m)).
Proof.
  intros [[Hk _ _ _] _]. unfold TxSortedMap.Get, lookup_nonce. destruct (List.find _ _) as [x|] eqn:Hf.
  - apply find_some in Hf as [Hx%list_elem_of_In Hn%Z.eqb_eq]. apply elem_of_sorted in Hx; [|done]. by rewrite <-Hn.
  - destruct (items m !! nonce) as [tx|] eqn:Htx; [exfalso|done]. assert ((Nonce tx =? nonce) = false) as Hne.
    { apply (find_none _ _ Hf), list_elem_of_In, elem_of_sorted; [done|]. by rewrite (Hk nonce tx Htx). }
    rewrite (Hk nonce tx Htx) in Hne. lia.
Qed.

Lemma existsb_lookup nonce l : existsb (fun x => Nonce x =? nonce) l = match lookup_nonce nonce l with Some _ => true | None => false end.
Proof. unfold lookup_nonce. induction l as [|x l IH]; [done|]. cbn [existsb List.find]. destruct (Nonce x =? nonce); [done|]. exact IH. Qed.

Lemma elem_of_put tx l x : x ∈ put tx l -> x = tx \/ x ∈ l.
Proof. unfold put. rewrite elem_of_app, elem_of_cons, !elem_of_List_filter. naive_solver. Qed.

Lemma ok_sub (l : txList) m : list_ok l -> wf m -> (forall tx, tx ∈ sorted_txs (items m) -> tx ∈ sorted_txs (items (txs l))) -> list_ok (mkTxList (strict l) m (costcap l) (gascap l)).
Proof. intros [_ Hc Hg] Hm Hsub. constructor; [done|..]; intros tx Htx; [by apply Hc, Hsub|by apply Hg, Hsub]. Qed.

Lemma Add_ok l tx bump : list_ok l -> is_u64 (Nonce tx) -> exists l' r, exec l (OpAdd tx bump) = Done (l', r) /\ strict l' = strict l /\ list_ok l' /\ spec (strict l) (flat l) (OpAdd tx bump) = (flat l', r).
Proof.
  intros Hl Hu. pose proof Hl as [Hw Hc Hg]. cbn [exec spec]. unfold TxList.Add, flat. rewrite (Get_lookup _ _ Hw). destruct (Put_ok (txs l) tx Hw Hu) as (m' & Hput & Hw' & Hs).
  assert (list_ok (mkTxList (strict l) m' (if costcap l <? Cost tx then Cost tx else costcap l) (if gascap l <? Gas tx then Gas tx else gascap l))) as Hok.
  { constructor; [done|..]; cbn [txs costcap gascap]; rewrite Hs; intros x [->|Hx]%elem_of_put; [destruct (_ <? _) eqn:?; lia| |destruct (_ <? _) eqn:?; lia|].
    - specialize (Hc x Hx). destruct (_ <? _) eqn:?; lia.
    - specialize (Hg x Hx). destruct (_ <? _) eqn:?; lia. }
  unfold too_cheap. destruct (lookup_nonce (Nonce tx) (sorted_txs (items (txs l)))) as [old|].
  - destruct (_ || _); cbn [obind]; [exists l; by eexists|]. rewrite Hput. cbn [obind]. do 2 eexists. split; [done|]. cbn [strict txs]. by rewrite Hs.
  - rewrite Hput. cbn [obind]. do 2 eexists. split; [done|]. cbn [strict txs]. by rewrite Hs.
Qed.

Lemma lowest_bounds l : forall a, let lowest := foldl (fun lowest tx => if Nonce tx <? lowest then Nonce tx else lowest) a l in
  lowest <= a /\ (forall x, x ∈ l -> lowest <= Nonce x) /\ (lowest = a \/ exists x, x ∈ l /\ lowest = Nonce x).
Proof.
  induction l as [|y l IH]; intros a; cbn [foldl].
  - split; [lia|]. split; [by intros x ?%not_elem_of_nil|by left].
  - destruct (IH (if Nonce y <? a then Nonce y else a)) as (H1 & H2 & H3). cbv zeta in *. set (low := foldl _ _ _) in *. clearbody low. destruct (Z.ltb_spec (Nonce y) a).
    + split; [lia|]. split; [intros x [->|Hx]%elem_of_cons; [lia|by apply H2]|]. right. destruct H3 as [->|(x & Hx & ->)]; [exists y; split; [by left|done]|exists x; split; [by right|done]].
    + split; [lia|]. split; [intros x [->|Hx]%elem_of_cons; [lia|by apply H2]|]. destruct H3 as [->|(x & Hx & ->)]; [by left|right; exists x; split; [by right|done]].
Qed.

Lemma lowest_first removed first rest : removed ≡ₚ first :: rest -> ascending (first :: rest) -> is_u64 (Nonce first) ->
  foldl (fun lowest tx => if Nonce tx <? lowest then Nonce tx else lowest) MaxUint64 removed = Nonce first.
Proof.
  intros Hp Ha Hu. destruct (lowest_bounds removed MaxUint64) as (_ & H2 & H3). cbv zeta in *. set (low := foldl _ _ _) in *. clearbody low. destruct (ascending_cons _ _ Ha) as (_ & Hlt & _).
  specialize (H2 first ltac:(rewrite Hp; by left)). unfold is_u64 in Hu. destruct H3 as [->|(x & Hx & ->)]; [lia|]. rewrite Hp in Hx. apply elem_of_cons in Hx as [->|Hx]; [done|].
  specialize (Hlt x Hx). lia.
Qed.

(** Cutting a list above a nonce: what TxSortedMap.Filter does in strict mode. *)
Lemma cut_ok iter m nonce : ranges iter -> wf m -> exists m' invalids, TxSortedMap.Filter iter m (fun tx => nonce <? Nonce tx) = Done (m', invalids) /\ wf m' /\
  invalids ≡ₚ above nonce (sorted_txs (items m)) /\ sorted_txs (items m') = upto nonce (sorted_txs (items m)).
Proof. apply Filter_ok. Qed.

Lemma Filter_list_ok iter l cl gl : list_ok l -> ranges iter -> exists l' r r', exec l (OpFilter iter cl gl) = Done (l', r) /\ strict l' = strict l /\ list_ok l' /\
  spec (strict l) (flat l) (OpFilter iter cl gl) = (flat l', r') /\ res_eq r r'.
Proof.
  intros Hl Hit. pose proof Hl as [Hw Hc Hg]. cbn [exec spec]. unfold TxList.Filter, flat. set (bad := fun tx => (cl <? Cost tx) || (gl <? Gas tx)).
  destruct ((costcap l <=? cl) && (gascap l <=? gl)) eqn:Hcap.
  - assert (List.filter bad (sorted_txs (items (txs l))) = []) as ->.
    { apply filter_none. intros x Hx. specialize (Hc x Hx). specialize (Hg x Hx). unfold bad. lia. }
    exists l, (RFilter [] []), (RFilter [] []). split; [done|]. split; [done|]. split; [done|]. split; [done|constructor].
  - destruct (Filter_ok iter (txs l) bad Hit Hw) as (m & removed & -> & Hwm & Hp & Hs). cbn [obind].
    assert (forall m', wf m' -> (forall tx, tx ∈ sorted_txs (items m') -> tx ∈ sorted_txs (items m)) -> list_ok (mkTxList (strict l) m' cl gl)) as Hok.
    { intros m' Hm' Hsub. constructor; [done|..]; intros tx Htx; apply Hsub in Htx; rewrite Hs in Htx; apply elem_of_List_filter in Htx as [_ Htx]; unfold bad in Htx; cbn [costcap gascap]; lia. }
    destruct (List.filter bad (sorted_txs (items (txs l)))) as [|first rest] eqn:Hrem.
    + apply Permutation_nil_r in Hp as ->. cbn [length Nat.ltb Nat.leb]. rewrite andb_false_r. cbn [obind]. do 3 eexists. split; [done|]. split; [done|]. split; [by apply Hok|].
      cbn [txs]. rewrite Hs, (filter_negb_nil bad _ Hrem). split; [done|constructor].
    + assert (length removed = S (length rest)) as Hlen by (by rewrite Hp). rewrite Hlen. cbn [Nat.ltb Nat.leb]. destruct (strict l) eqn:Hst; cbn [andb].
      * assert (first ∈ sorted_txs (items (txs l))) as Hfirst by (apply (elem_of_List_filter bad); rewrite Hrem; by left).
        rewrite (lowest_first removed first rest Hp); [|rewrite <-Hrem; apply ascending_filter, sorted_ascending, (rep_keyed _ _ (wf_rep _ Hw))|].
        -- destruct (cut_ok iter m (Nonce first) Hit Hwm) as (m' & inv & -> & Hwm' & Hpi & Hs'). cbn [obind]. do 3 eexists. split; [done|]. split; [done|]. cbn [txs strict].
           split; [apply Hok; [done|]; intros tx; rewrite Hs'; by intros [? _]%elem_of_List_filter|]. rewrite Hs', Hs. split; [done|]. constructor; [done|]. by rewrite Hpi, Hs.
        -- apply elem_of_sorted in Hfirst; [|apply (rep_keyed _ _ (wf_rep _ Hw))]. apply (rep_u64 _ _ (wf_rep _ Hw)). by eexists.
      * cbn [obind]. do 3 eexists. split; [done|]. split; [done|]. cbn [txs strict]. split; [by apply Hok|]. rewrite Hs. split; [done|]. by constructor.
Qed.

Lemma Remove_list_ok iter l tx : list_ok l -> ranges iter -> exists l' r r', exec l (OpRemove iter tx) = Done (l', r) /\ strict l' = strict l /\ list_ok l' /\
  spec (strict l) (flat l) (OpRemove iter tx) = (flat l', r') /\ res_eq r r'.
Proof.
  intros Hl Hit. pose proof Hl as [Hw Hc Hg]. cbn [exec spec]. unfold TxList.Remove, flat. destruct (Remove_ok (txs l) (Nonce tx) Hw) as (m & -> & Hwm & Hs). cbn [obind]. rewrite existsb_lookup.
  assert (forall x, x ∈ sorted_txs (items m) -> x ∈ sorted_txs (items (txs l))) as Hsub by (intros x; rewrite Hs; by intros [? _]%elem_of_List_filter).
  destruct (lookup_nonce (Nonce tx) (sorted_txs (items (txs l)))) as [old|] eqn:Hold; cbn [negb].
  - destruct (strict l) eqn:Hst.
    + destruct (cut_ok iter m (Nonce tx) Hit Hwm) as (m' & inv & -> & Hwm' & Hpi & Hs'). cbn [obind]. do 3 eexists. split; [done|]. split; [done|]. cbn [txs strict].
      split; [|rewrite Hs', Hs; split; [done|]; constructor; by rewrite Hpi, Hs]. rewrite <-Hst. apply ok_sub; [done|done|]. intros x. rewrite Hs'. intros [? _]%elem_of_List_filter. by apply Hsub.
    + cbn [obind]. do 3 eexists. split; [done|]. split; [done|]. cbn [txs strict]. rewrite <-Hst at 1. split; [by apply ok_sub|]. rewrite Hs. split; [done|constructor].
  - do 3 eexists. split; [done|]. split; [done|]. split; [by apply ok_sub|]. cbn [txs]. split; [|constructor]. f_equal. rewrite Hs. symmetry. apply filter_all. intros x Hx.
    pose proof (find_none _ _ Hold x) as Hn. rewrite <-list_elem_of_In in Hn. by rewrite Hn.
Qed.

(** ** Any sequence of operations *)

Lemma ready_elem start l tx : tx ∈ (ready start l).2 -> tx ∈ l.
Proof.
  assert (forall l next, tx ∈ (consecutive next l).2 -> tx ∈ l) as H.
  { induction l0 as [|x l0 IH]; intros next; cbn [consecutive]; [done|]. destruct (_ =? _); [|done]. specialize (IH (u64 (next + 1))). destruct (consecutive _ l0) as [a b]. simpl. intros Hin. right. by apply IH. }
  unfold ready. destruct l as [|x l]; [done|]. destruct (start <? Nonce x); [done|]. apply H.
Qed.

Lemma list_step_ok l o : list_ok l -> op_ok o -> exists l' r r', exec l o = Done (l', r) /\ strict l' = strict l /\ list_ok l' /\ spec (strict l) (flat l) o = (flat l', r') /\ res_eq r r'.
Proof.
  intros Hl Ho. pose proof Hl as [Hw Hc Hg]. destruct o as [tx bump|threshold|iter cl gl|threshold|iter tx|start|iter|tx|]; cbn [op_ok] in Ho.
  - destruct (Add_ok l tx bump Hl Ho) as (l' & r & ? & ? & ? & ?). exists l', r, r. split_and!; try done. constructor.
  - destruct (Forward_ok (txs l) threshold Hw) as (m & Hm & Hwm & Hs). cbn [exec spec]. unfold TxList.Forward, TxList.with_txs. rewrite Hm. cbn [obind]. do 3 eexists. split; [done|]. split; [done|].
    split; [apply ok_sub; [done..|]; intros tx; rewrite Hs; by intros [? _]%elem_of_List_filter|]. unfold flat. cbn [txs]. rewrite Hs. split; [done|constructor].
  - by apply Filter_list_ok.
  - destruct (Cap_ok (txs l) threshold Hw) as (m & Hm & Hwm & Hs). cbn [exec spec]. unfold TxList.Cap, TxList.with_txs. rewrite Hm. cbn [obind]. do 3 eexists. split; [done|]. split; [done|].
    split; [apply ok_sub; [done..|]; intros tx; rewrite Hs; intros (? & ? & _)%elem_of_take; by eapply list_elem_of_lookup_2|]. unfold flat. cbn [txs]. rewrite Hs. split; [done|constructor].
  - by apply Remove_list_ok.
  - destruct (Ready_ok (txs l) start Hw) as (m & Hm & Hwm & Hs). cbn [exec spec]. unfold TxList.Ready, TxList.with_txs. rewrite Hm. cbn [obind]. do 3 eexists. split; [done|]. split; [done|].
    split; [apply ok_sub; [done..|]; intros tx; rewrite Hs; apply ready_elem|]. unfold flat. cbn [txs]. rewrite Hs. split; [done|constructor].
  - destruct (Flatten_ok iter (txs l) Ho Hw) as (m & Hm & Hwm & Hs). cbn [exec spec]. unfold TxList.Flatten. rewrite Hm. do 3 eexists. split; [done|]. split; [done|].
    split; [apply ok_sub; [done..|]; intros tx; by rewrite Hs|]. unfold flat. cbn [txs]. rewrite Hs. split; [done|constructor].
  - cbn [exec spec]. unfold TxList.Overlaps, flat. rewrite (Get_lookup _ _ Hw). do 3 eexists. split; [done|]. split; [done|]. split; [done|]. split; [done|constructor].
  - cbn [exec spec]. unfold TxList.Len, TxSortedMap.Len, flat. rewrite <-(sorted_txs_length _ (rep_keyed _ _ (wf_rep _ Hw))). do 3 eexists. split; [done|]. split; [done|]. split; [done|]. split; [done|constructor].
Qed.

Lemma steps_ok os : forall l, list_ok l -> Forall op_ok os ->
  exists l' rs rs', exec_all l os = Done (l', rs) /\ spec_all (strict l) (flat l) os = (flat l', rs') /\ Forall2 res_eq rs rs' /\ strict l' = strict l /\ list_ok l'.
Proof.
  induction os as [|o os IH]; intros l Hl Hos; cbn [exec_all spec_all].
  - exists l, [], []. split; [done|]. split; [done|]. split; [constructor|done].
  - inversion Hos as [|? ? Ho Hos']; subst. destruct (list_step_ok l o Hl Ho) as (l1 & r & r' & -> & Hst & Hl1 & -> & Hr). cbn [obind]. destruct (IH l1 Hl1 Hos') as (l2 & rs & rs' & -> & Hs & Hrs & Hst' & Hl2).
    cbn [obind]. rewrite Hst in Hs. rewrite Hs. do 3 eexists. split; [done|]. split; [done|]. split; [by constructor|]. split; [congruence|done].
Qed.

Lemma new_ok b : list_ok (TxList.newTxList b).
Proof. constructor; [apply new_wf|..]; intros tx Htx; apply elem_of_sorted in Htx; done. Qed.

(** C17: an account's list in the transaction pool, with its heap, its cache of
    sorted transactions and its bounds of cost and gas, behaves as the list of
    its transactions by nonce: any sequence of operations on a new list returns,
    without a panic, what the same operations on such a list return, whatever
    the order in which maps are ranged over. *)
Theorem txList_refines strict os : Forall op_ok os ->
  exists l rs rs', exec_all (TxList.newTxList strict) os = Done (l, rs) /\ spec_all strict [] os = (flat l, rs') /\ Forall2 res_eq rs rs'.
Proof.
  intros Hos. destruct (steps_ok os _ (new_ok strict) Hos) as (l & rs & rs' & H1 & H2 & H3 & _). exists l, rs, rs'. done.
Qed.

(** ** Lists without gaps *)

Fixpoint gapless (l : list Z) : Prop :=
  match l with
  | x :: (y :: _) as l' => y = x + 1 /\ gapless l'
  | _ => True
  end.

Lemma gapless_app l1 l2 : gapless (l1 ++ l2) -> gapless l1 /\ gapless l2.
Proof.
  induction l1 as [|x l1 IH]; [done|]. destruct l1 as [|y l1]; cbn [app gapless] in *.
  - destruct l2; [done|]. by intros [_ ?].
  - intros [-> H]. destruct (IH H). done.
Qed.

Lemma gapless_snoc l x n : gapless l -> last l = Some x -> n = x + 1 -> gapless (l ++ [n]).
Proof.
  induction l as [|y l IH]; [done|]. destruct l as [|z l].
  - intros _ [= ->] ->. done.
  - intros [-> H] Hl Hn. cbn [app gapless]. split; [done|]. apply IH; [done| |done]. by rewrite <-Hl.
Qed.

Lemma sorted_eq l1 l2 : StronglySorted Z.lt l1 -> StronglySorted Z.lt l2 -> (forall k, k ∈ l1 <-> k ∈ l2) -> l1 = l2.
Proof.
  intros H1 H2 Hin. destruct (sorted_lt_le l1 H1) as [? ?]. destruct (sorted_lt_le l2 H2) as [? ?]. apply (StronglySorted_unique Z.le); [done|done|]. by apply NoDup_Permutation.
Qed.

Lemma below_prefix n l : ascending l -> gapless (map Nonce l) -> gapless (map Nonce (List.filter (fun x => Nonce x <? n) l)) /\ gapless (map Nonce (List.filter (fun x => n <=? Nonce x) l)).
Proof. intros Ha Hg. rewrite (ascending_split n l Ha), map_app in Hg. by apply gapless_app. Qed.

Lemma put_gapless tx l : ascending l -> gapless (map Nonce l) ->
  l = [] \/ is_Some (lookup_nonce (Nonce tx) l) \/ (exists x, last l = Some x /\ Nonce tx = Nonce x + 1) -> gapless (map Nonce (put tx l)).
Proof.
  intros Ha Hg [->|[[old Hold]|(x & Hx & Hn)]]; [done| |].
  - apply find_some in Hold as [Hin%list_elem_of_In Heq%Z.eqb_eq]. assert (map Nonce (put tx l) = map Nonce l) as ->; [|done]. apply sorted_eq; [by apply ascending_put|done|].
    intros k. rewrite !list_elem_of_fmap. unfold put. split.
    + intros (y & -> & Hy). rewrite elem_of_app, elem_of_cons, !elem_of_List_filter in Hy. destruct Hy as [[? _]|[->|[? _]]]; [by exists y|by exists old|by exists y].
    + intros (y & -> & Hy). destruct (Z.lt_total (Nonce y) (Nonce tx)) as [?|[?|?]]; [exists y|exists tx|exists y]; (split; [done|]); rewrite elem_of_app, elem_of_cons, !elem_of_List_filter.
      * left. split; [done|lia].
      * right. by left.
      * right. right. split; [done|lia].
  - apply last_Some in Hx as [l' ->]. destruct (ascending_snoc l' x Ha) as (_ & Hlt & _). assert (put tx (l' ++ [x]) = (l' ++ [x]) ++ [tx]) as ->.
    { unfold put. rewrite filter_all, filter_none; [done|..]; intros y; rewrite elem_of_app, list_elem_of_singleton; intros [Hy| ->]; try specialize (Hlt y Hy); lia. }
    rewrite map_app. apply (gapless_snoc _ (Nonce x)); [done| |done]. rewrite map_app. apply last_snoc.
Qed.

Lemma consecutive_app l : forall next, (consecutive next l).1 ++ (consecutive next l).2 = l.
Proof. induction l as [|x l IH]; intros next; cbn [consecutive]; [done|]. destruct (_ =? _); [|done]. specialize (IH (u64 (next + 1))). destruct (consecutive _ l) as [a b]. simpl in *. by rewrite IH. Qed.

Lemma ready_app start l : (ready start l).1 ++ (ready start l).2 = l.
Proof. unfold ready. destruct l as [|x l]; [done|]. destruct (_ <? _); [done|]. apply consecutive_app. Qed.

(** What remains up to the first bad transaction. *)
Lemma first_bad bad l first rest : ascending l -> List.filter bad l = first :: rest ->
  upto (Nonce first) (List.filter (fun x => negb (bad x)) l) = List.filter (fun x => Nonce x <? Nonce first) l.
Proof.
  intros Ha. unfold upto. induction l as [|x l IH]; [done|]. destruct (ascending_cons x l Ha) as (Ha' & Hlt & _). cbn [List.filter]. destruct (bad x) eqn:Hb; cbn [negb].
  - intros [= <- _]. rewrite Z.ltb_irrefl. rewrite !filter_none; [done|..]; intros y; [|intros [Hy _]%elem_of_List_filter]; [intros Hy|]; specialize (Hlt y Hy); lia.
  - intros Hf. assert (first ∈ List.filter bad l) as [Hin _]%elem_of_List_filter by (rewrite Hf; by left). specialize (Hlt first Hin). cbn [List.filter].
    destruct (Z.ltb_spec (Nonce first) (Nonce x)); [lia|]. destruct (Z.ltb_spec (Nonce x) (Nonce first)); [|lia]. cbn [negb]. f_equal. by apply IH.
Qed.

Lemma removed_prefix n l : upto n (List.filter (fun x => negb (Nonce x =? n)) l) = List.filter (fun x => Nonce x <? n) l.
Proof.
  unfold upto. induction l as [|x l IH]; [done|]. cbn [List.filter]. destruct (Z.eqb_spec (Nonce x) n) as [->|]; cbn [negb]; [by rewrite Z.ltb_irrefl|]. cbn [List.filter].
  destruct (Z.ltb_spec n (Nonce x)), (Z.ltb_spec (Nonce x) n); cbn [negb]; try lia; [done|by f_equal].
Qed.

(** The pool adds to a list of executable transactions only what comes next or
    replaces one (promoteTx and add of tx_pool.go). *)
Definition next_add (l : list Transaction) (o : op) : Prop :=
  match o with
  | OpAdd tx _ => l = [] \/ is_Some (lookup_nonce (Nonce tx) l) \/ exists x, last l = Some x /\ Nonce tx = Nonce x + 1
  | _ => True
  end.

Inductive pending : txList -> Prop :=
  | pending_new : pending (TxList.newTxList true)
  | pending_step l o l' r : pending l -> op_ok o -> next_add (flat l) o -> exec l o = Done (l', r) -> pending l'.

Lemma spec_gapless l o l' r : ascending l -> gapless (map Nonce l) -> next_add l o -> spec true l o = (l', r) -> gapless (map Nonce l').
Proof.
  intros Ha Hg Hn. destruct o as [tx bump|threshold|iter cl gl|threshold|iter tx|start|iter|tx|]; cbn [spec next_add] in *.
  - pose proof (put_gapless tx l Ha Hg Hn) as Hp. destruct (lookup_nonce (Nonce tx) l) as [old|]; [destruct (too_cheap _ _ _)|]; by intros [= <- _].
  - intros [= <- _]. by apply below_prefix.
  - destruct (List.filter _ l) as [|first rest] eqn:Hf; intros [= <- _]; [done|]. rewrite (first_bad _ _ _ _ Ha Hf). by apply below_prefix.
  - intros [= <- _]. rewrite <-(take_drop threshold l), map_app in Hg. by apply gapless_app in Hg as [? _].
  - destruct (lookup_nonce _ l); intros [= <- _]; [|done]. rewrite removed_prefix. by apply below_prefix.
  - intros [= <- _]. rewrite <-(ready_app start l), map_app in Hg. by apply gapless_app in Hg as [_ ?].
  - by intros [= <- _].
  - by intros [= <- _].
  - by intros [= <- _].
Qed.

(** C28: the list of an account's executable transactions has no gap: starting
    from an empty strict list, if every transaction that is added comes next or
    replaces one, the nonces are consecutive after any of the operations. *)
Theorem pending_gapless l : pending l -> gapless (map Nonce (flat l)).
Proof.
  intros Hp. enough (list_ok l /\ strict l = true /\ gapless (map Nonce (flat l))) as (_ & _ & ?) by done. induction Hp as [|l o l' r _ (Hl & Hs & Hg) Ho Hn He].
  - split; [apply new_ok|]. done.
  - destruct (list_step_ok l o Hl Ho) as (l1 & r1 & r' & He' & Hs' & Hl' & Hsp & _). assert (l1 = l') as -> by congruence. rewrite Hs in Hsp. split; [done|]. split; [congruence|].
    eapply spec_gapless; [|exact Hg|exact Hn|exact Hsp]. apply sorted_ascending, (rep_keyed _ _ (wf_rep _ (ok_wf _ Hl))).
Qed.

(** ** The price heap *)

Abbreviation Less := TxPricedList.Less.

Lemma Less_asym x y : Less x y = true -> Less y x = false.
Proof. unfold Less. repeat match goal with |- context [?a <? ?b] => destruct (Z.ltb_spec a b) end; done || lia. Qed.

Lemma Less_trans x y z : Less y x = false -> Less z y = false -> Less z x = false.
Proof. unfold Less. repeat match goal with |- context [?a <? ?b] => destruct (Z.ltb_spec a b) end; done || lia. Qed.

(** Every transaction of the pool is in the heap, with entries of transactions
    that left the pool. *)
Record priced_ok (all : txmap) (l : txPricedList) : Prop := {
  priced_heap : heap Less (pitems l);
  priced_all : forall h tx, all !! h = Some tx -> Hash tx = h /\ tx ∈ pitems l;
  priced_same : forall tx tx', tx ∈ pitems l -> all !! Hash tx = Some tx' -> tx' = tx }.

Definition slots_of (l : list Transaction) : Z := foldr (fun tx n => TxPricedList.numSlots tx + n) 0 l.

Lemma slots_app l1 l2 : slots_of (l1 ++ l2) = slots_of l1 + slots_of l2.
Proof. induction l1 as [|x l1 IH]; [done|]. unfold slots_of in *. simpl. lia. Qed.

(** What popping transactions off the heap leaves. *)
Record popped (all : txmap) (local : gset Z) (items items' drop save : list Transaction) : Prop := {
  popped_heap : heap Less items';
  popped_all : exists dead, items ≡ₚ items' ++ drop ++ save ++ dead /\ Forall (fun tx => TxPricedList.stale all tx = true) dead;
  popped_drop : Forall (fun tx => TxPricedList.stale all tx = false /\ TxPricedList.containsTx local tx = false) drop;
  popped_least : forall x y, x ∈ drop -> y ∈ items' \/ y ∈ save /\ TxPricedList.containsTx local y = false -> Less y x = false }.

Section Popped.
Context (all : txmap) (local : gset Z) (items items1 items' drop save : list Transaction) (tx : Transaction).
Context (Hp : items ≡ₚ tx :: items1) (Hmin : forall y, y ∈ items1 -> Less y tx = false) (H : popped all local items1 items' drop save).

Lemma popped_sub y : y ∈ items' \/ y ∈ save -> Less y tx = false.
Proof. intros Hy. apply Hmin. destruct (popped_all _ _ _ _ _ _ H) as (dead & -> & _). rewrite !elem_of_app. tauto. Qed.

Lemma popped_stale : TxPricedList.stale all tx = true -> popped all local items items' drop save.
Proof.
  destruct H as [Hh (dead & Hd & Hs) Hdrop Hl]. intros Hst. constructor; try done. exists (tx :: dead). split; [|by constructor]. rewrite Hp, Hd. solve_Permutation.
Qed.

Lemma popped_save : TxPricedList.containsTx local tx = true -> popped all local items items' drop (tx :: save).
Proof.
  intros Hloc. destruct H as [Hh (dead & Hd & Hs) Hdrop Hl]. constructor; try done; [exists dead; split; [|done]; rewrite Hp, Hd; solve_Permutation|].
  intros x y Hx [Hy|[[->|Hy]%elem_of_cons Hn]]; [apply Hl; auto|congruence|apply Hl; auto].
Qed.

Lemma popped_drop_one : TxPricedList.stale all tx = false -> TxPricedList.containsTx local tx = false -> popped all local items items' (tx :: drop) save.
Proof.
  intros Hst Hloc. pose proof popped_sub as Hsub. destruct H as [Hh (dead & Hd & Hs) Hdrop Hl]. constructor; [done| |by constructor|].
  - exists dead. split; [|done]. rewrite Hp, Hd. solve_Permutation.
  - intros x y [->|Hx]%elem_of_cons Hy; [apply Hsub; tauto|by apply Hl].
Qed.
End Popped.

Lemma pop_heap items : heap Less items -> (0 < length items)%nat -> exists items1 tx, heap_Pop Less items = Done (items1, tx) /\ heap Less items1 /\ items ≡ₚ tx :: items1 /\
  (forall y, y ∈ items1 -> Less y tx = false) /\ length items = S (length items1).
Proof.
  intros Hh Hl. destruct (Pop_spec Less Less_asym Less_trans items Hh) as (items1 & tx & Hpop & Hh1 & Hp & _ & Hmin); [by destruct items; [simpl in Hl; lia|]|].
  exists items1, tx. split_and!; try done. by rewrite Hp.
Qed.

Lemma popped_none all local items : heap Less items -> popped all local items items [] [].
Proof. intros Hh. constructor; [done| |done|by intros x y ?%not_elem_of_nil]. exists []. by rewrite !app_nil_r. Qed.

Lemma Discard_loop_ok all local fuel : forall items slots stales, (length items < fuel)%nat -> heap Less items ->
  exists items' stales' drop save, TxPricedList.Discard_loop fuel all local slots items stales = Done (items', stales', drop, save) /\ popped all local items items' drop save /\
    (slots <= slots_of drop \/ items' = []) /\ (forall d x, drop = d ++ [x] -> slots_of d < slots) /\ Forall (fun tx => TxPricedList.containsTx local tx = true) save.
Proof.
  induction fuel as [|fuel IH]; intros items slots stales Hf Hh; [lia|]. cbn [TxPricedList.Discard_loop]. destruct (Nat.ltb_spec 0 (length items)) as [Hlt|Hz]; cbn [andb].
  - destruct (Z.ltb_spec 0 slots) as [Hsl|Hsl].
    + destruct (pop_heap items Hh Hlt) as (items1 & tx & -> & Hh1 & Hp & Hmin & Hlen). cbn [obind]. destruct (TxPricedList.stale all tx) eqn:Hst.
      * destruct (IH items1 slots (stales - 1)) as (items' & st & drop & save & -> & Hpop & Hslots & Hlast & Hsave); [lia|done|]. do 4 eexists. split; [done|]. split; [by eapply popped_stale|done].
      * destruct (TxPricedList.containsTx local tx) eqn:Hloc.
        -- destruct (IH items1 slots stales) as (items' & st & drop & save & -> & Hpop & Hslots & Hlast & Hsave); [lia|done|]. cbn [obind]. do 4 eexists. split; [done|].
           split; [by eapply popped_save|]. split; [done|]. split; [done|by constructor].
        -- destruct (IH items1 (slots - TxPricedList.numSlots tx) stales) as (items' & st & drop & save & -> & Hpop & Hslots & Hlast & Hsave); [lia|done|]. cbn [obind]. do 4 eexists. split; [done|].
           split; [by eapply popped_drop_one|]. split; [unfold slots_of in *; simpl; destruct Hslots; [left; lia|by right]|]. split; [|done]. intros d x Hd. destruct d as [|y d]; [simpl; lia|].
           injection Hd as <- Hd. specialize (Hlast d x Hd). unfold slots_of in *. simpl. lia.
    + do 4 eexists. split; [done|]. split; [by apply popped_none|]. split; [left; simpl; lia|]. split; [by intros [|] x|done].
  - do 4 eexists. split; [done|]. split; [by apply popped_none|]. split; [right; by destruct items; [|simpl in Hz; lia]|]. split; [by intros [|] x|done].
Qed.

Lemma push_all_ok save : forall items, heap Less items -> exists items', TxPricedList.push_all items save = Done items' /\ heap Less items' /\ items' ≡ₚ save ++ items.
Proof.
  induction save as [|tx save IH]; intros items Hh; cbn [TxPricedList.push_all]; [by exists items|]. destruct (Push_spec Less Less_asym Less_trans items tx Hh) as (items1 & -> & Hh1 & Hp1). cbn [obind].
  destruct (IH items1 Hh1) as (items' & -> & Hh' & Hp'). exists items'. split; [done|]. split; [done|]. rewrite Hp', Hp1. solve_Permutation.
Qed.

(** The pool without the transactions [drop]. *)
Definition without (all : txmap) (drop : list Transaction) : txmap := foldr (fun tx all => delete (Hash tx) all) all drop.

Lemma without_Some all drop h tx : without all drop !! h = Some tx <-> all !! h = Some tx /\ forall x, x ∈ drop -> Hash x <> h.
Proof.
  induction drop as [|y drop IH]; cbn [without foldr]; [|rewrite lookup_delete_Some; fold (without all drop); rewrite IH].
  - split; [|naive_solver]. intros ?. split; [done|]. by intros x ?%not_elem_of_nil.
  - setoid_rewrite elem_of_cons. naive_solver.
Qed.

Lemma stale_false all tx : TxPricedList.stale all tx = false <-> exists y, all !! Hash tx = Some y.
Proof. unfold TxPricedList.stale. destruct (all !! Hash tx) as [y|]; split; try done; [by eexists|by intros [? ?]]. Qed.

(** After the saved transactions are pushed back. *)
Lemma popped_ok all local l items' drop save items2 stales' : priced_ok all l -> popped all local (pitems l) items' drop save -> heap Less items2 -> items2 ≡ₚ save ++ items' ->
  priced_ok (without all drop) (mkPricedList items2 stales') /\ (forall tx, tx ∈ drop -> all !! Hash tx = Some tx).
Proof.
  intros [Hh Hall Hsame] [Hh' (dead & Hd & Hdead) Hdrop Hleast] Hh2 Hp2. split.
  - constructor; [done|..].
    + intros h tx (Htx & Hno)%without_Some. destruct (Hall h tx Htx) as [Hhash Hin]. split; [done|]. cbn [pitems]. rewrite Hp2. rewrite Hd, !elem_of_app in Hin. rewrite elem_of_app.
      destruct Hin as [Hin|[Hin|[Hin|Hin]]]; [by right|exfalso; by apply (Hno tx)|by left|exfalso]. rewrite Forall_forall in Hdead. specialize (Hdead tx Hin).
      unfold TxPricedList.stale in Hdead. rewrite Hhash, Htx in Hdead. done.
    + intros tx tx' Hin (Htx & _)%without_Some. apply (Hsame tx tx'); [|done]. cbn [pitems] in Hin. rewrite Hp2 in Hin. rewrite Hd, !elem_of_app. apply elem_of_app in Hin as [?|?]; tauto.
  - intros tx Hin. rewrite Forall_forall in Hdrop. destruct (Hdrop tx Hin) as [[y Hy]%stale_false _]. rewrite Hy. f_equal. apply (Hsame tx y); [|done]. rewrite Hd, !elem_of_app. tauto.
Qed.

(** C29: when the pool is full, Discard gives up the cheapest remote transactions:
    each one it drops is in the pool and not local, no remote transaction that
    stays is cheaper, they free the slots asked for unless no remote one is left,
    and no more of them than needed; the heap still has every transaction that
    stays.  Asked for a negative number of slots, which the pool never does, it
    panics. *)
Theorem Discard_cheapest all local l slots : priced_ok all l ->
  if slots <? 0 then TxPricedList.Discard all local l slots = Panic MakeSlice else
  exists l' drop, TxPricedList.Discard all local l slots = Done (l', drop) /\ priced_ok (without all drop) l' /\
    (forall tx, tx ∈ drop -> all !! Hash tx = Some tx /\ TxPricedList.containsTx local tx = false) /\
    (forall tx h y, tx ∈ drop -> without all drop !! h = Some y -> TxPricedList.containsTx local y = false -> Less y tx = false) /\
    (slots <= slots_of drop \/ forall h y, without all drop !! h = Some y -> TxPricedList.containsTx local y = true) /\
    (forall d x, drop = d ++ [x] -> slots_of d < slots).
Proof.
  intros Hok. unfold TxPricedList.Discard. destruct (slots <? 0); [done|]. destruct (Discard_loop_ok all local (S (length (pitems l))) (pitems l) slots (stales l)) as (items' & st & drop & save & -> & Hpop & Hslots & Hlast & Hsave);
    [lia|apply (priced_heap _ _ Hok)|]. cbn [obind]. destruct (push_all_ok save items' (popped_heap _ _ _ _ _ _ Hpop)) as (items2 & -> & Hh2 & Hp2). cbn [obind].
  destruct (popped_ok all local l items' drop save items2 st Hok Hpop Hh2 Hp2) as [Hok2 Hdrop]. do 2 eexists. split; [done|]. split; [done|].
  assert (forall h y, without all drop !! h = Some y -> TxPricedList.containsTx local y = false -> y ∈ items') as Hstay.
  { intros h y Hy Hloc. destruct (priced_all _ _ Hok2 h y Hy) as [_ Hin]. cbn [pitems] in Hin. rewrite Hp2, elem_of_app in Hin. destruct Hin as [Hin|Hin]; [|done].
    rewrite Forall_forall in Hsave. specialize (Hsave y Hin). congruence. }
  split; [|split; [|split; [|done]]].
  - intros tx Hin. split; [by apply Hdrop|]. pose proof (popped_drop _ _ _ _ _ _ Hpop) as Hd. rewrite Forall_forall in Hd. by apply Hd.
  - intros tx h y Hin Hy Hloc. apply (popped_least _ _ _ _ _ _ Hpop); [done|left; by eapply Hstay].
  - destruct Hslots as [?|Hnil]; [by left|right]. intros h y Hy. destruct (TxPricedList.containsTx local y) eqn:Hloc; [done|]. specialize (Hstay h y Hy Hloc). rewrite Hnil in Hstay. by apply not_elem_of_nil in Hstay.
Qed.

(** ** The other operations on the heap *)

Lemma Less_price x y : Less y x = false -> GasPrice x <= GasPrice y.
Proof. unfold Less. destruct (Z.ltb_spec (GasPrice y) (GasPrice x)); [done|]. lia. Qed.

Lemma Cap_loop_popped all local threshold fuel : forall items stales, (length items < fuel)%nat -> heap Less items ->
  exists items' stales' drop save, TxPricedList.Cap_loop fuel all local threshold items stales = Done (items', stales', drop, save) /\ popped all local items items' drop save /\
    Forall (fun tx => GasPrice tx < threshold) drop /\ Forall (fun tx => TxPricedList.containsTx local tx = true \/ threshold <= GasPrice tx) (save ++ items').
Proof.
  induction fuel as [|fuel IH]; intros items stales Hf Hh; [lia|]. cbn [TxPricedList.Cap_loop]. destruct (Nat.ltb_spec 0 (length items)) as [Hlt|Hz].
  - destruct (pop_heap items Hh Hlt) as (items1 & tx & -> & Hh1 & Hp & Hmin & Hlen). cbn [obind]. destruct (TxPricedList.stale all tx) eqn:Hst.
    + destruct (IH items1 (stales - 1)) as (items' & st & drop & save & -> & Hpop & Hd & Hs); [lia|done|]. do 4 eexists. split; [done|]. split; [by eapply popped_stale|done].
    + destruct (Z.leb_spec threshold (GasPrice tx)) as [Hle|Hgt].
      * do 4 eexists. split; [done|]. split; [|split; [done|]].
        -- constructor; [done| |done|by intros x y ?%not_elem_of_nil]. exists []. split; [|done]. rewrite Hp. solve_Permutation.
        -- cbn [app]. constructor; [by right|]. apply Forall_forall. intros y Hy. right. pose proof (Less_price _ _ (Hmin y Hy)). lia.
      * destruct (IH items1 stales) as (items' & st & drop & save & -> & Hpop & Hd & Hs); [lia|done|]. cbn [obind]. destruct (TxPricedList.containsTx local tx) eqn:Hloc; do 4 eexists; (split; [done|]).
        -- split; [by eapply popped_save|]. split; [done|]. cbn [app]. constructor; [by left|done].
        -- split; [by eapply popped_drop_one|]. split; [by constructor|done].
  - do 4 eexists. split; [done|]. split; [by apply popped_none|]. split; [done|]. by destruct items; [|simpl in Hz; lia].
Qed.

(** Cap drops exactly the remote transactions below the price. *)
Theorem Cap_below all local l threshold : priced_ok all l ->
  exists l' drop, TxPricedList.Cap all local l threshold = Done (l', drop) /\ priced_ok (without all drop) l' /\
    (forall tx, tx ∈ drop -> all !! Hash tx = Some tx /\ TxPricedList.containsTx local tx = false /\ GasPrice tx < threshold) /\
    (forall h y, without all drop !! h = Some y -> TxPricedList.containsTx local y = true \/ threshold <= GasPrice y).
Proof.
  intros Hok. unfold TxPricedList.Cap. destruct (Cap_loop_popped all local threshold (S (length (pitems l))) (pitems l) (stales l)) as (items' & st & drop & save & -> & Hpop & Hlow & Hsave);
    [lia|apply (priced_heap _ _ Hok)|]. cbn [obind]. destruct (push_all_ok save items' (popped_heap _ _ _ _ _ _ Hpop)) as (items2 & -> & Hh2 & Hp2). cbn [obind].
  destruct (popped_ok all local l items' drop save items2 st Hok Hpop Hh2 Hp2) as [Hok2 Hdrop]. do 2 eexists. split; [done|]. split; [done|]. rewrite Forall_forall in Hlow, Hsave.
  pose proof (popped_drop _ _ _ _ _ _ Hpop) as Hd. rewrite Forall_forall in Hd. split.
  - intros tx Hin. split; [by apply Hdrop|]. split; [by apply Hd|by apply Hlow].
  - intros h y Hy. destruct (priced_all _ _ Hok2 h y Hy) as [_ Hin]. cbn [pitems] in Hin. rewrite Hp2 in Hin. by apply Hsave.
Qed.

Lemma discard_stale_ok all fuel : forall items stales, (length items < fuel)%nat -> heap Less items ->
  exists items' stales' dead, TxPricedList.discard_stale fuel all items stales = Done (items', stales') /\ heap Less items' /\ items ≡ₚ items' ++ dead /\
    Forall (fun tx => TxPricedList.stale all tx = true) dead /\ match items' with tx :: _ => TxPricedList.stale all tx = false | [] => True end.
Proof.
  induction fuel as [|fuel IH]; intros items stales Hf Hh; [lia|]. cbn [TxPricedList.discard_stale]. destruct items as [|tx items0] eqn:Hitems.
  - exists [], stales, []. done.
  - destruct (TxPricedList.stale all tx) eqn:Hst.
    + rewrite <-Hitems in *. destruct (Pop_spec Less Less_asym Less_trans items Hh) as (items1 & tx' & -> & Hh1 & Hp & Hhd & _); [by rewrite Hitems|]. cbn [obind]. rewrite Hitems in Hhd. injection Hhd as <-.
      assert (length items = S (length items1)) by (by rewrite Hp). destruct (IH items1 (stales - 1)) as (items' & st & dead & -> & Hh' & Hp' & Hd & Hm); [lia|done|].
      exists items', st, (tx :: dead). split; [done|]. split; [done|]. split; [rewrite Hp, Hp'; solve_Permutation|]. split; [by constructor|done].
    + exists (tx :: items0), stales, []. rewrite app_nil_r. done.
Qed.

(** A remote transaction is underpriced if no transaction of the pool is cheaper. *)
Theorem Underpriced_exact all local l tx : priced_ok all l ->
  exists l' b, TxPricedList.Underpriced all local l tx = Done (l', b) /\ priced_ok all l' /\
    (b = true <-> TxPricedList.containsTx local tx = false /\ all <> ∅ /\ forall h y, all !! h = Some y -> GasPrice tx <= GasPrice y).
Proof.
  intros Hok. unfold TxPricedList.Underpriced. destruct (TxPricedList.containsTx local tx) eqn:Hloc; [exists l, false; split; [done|]; split; [done|]; split; [done|by intros []]|].
  destruct (discard_stale_ok all (S (length (pitems l))) (pitems l) (stales l)) as (items' & st & dead & -> & Hh & Hp & Hdead & Hhead); [lia|apply (priced_heap _ _ Hok)|]. cbn [obind].
  assert (priced_ok all (mkPricedList items' st)) as Hok'.
  { constructor; [done|..].
    - intros h y Hy. destruct (priced_all _ _ Hok h y Hy) as [Hhash Hin]. split; [done|]. rewrite Hp, elem_of_app in Hin. destruct Hin as [Hin|Hin]; [done|exfalso].
      rewrite Forall_forall in Hdead. specialize (Hdead y Hin). unfold TxPricedList.stale in Hdead. by rewrite Hhash, Hy in Hdead.
    - intros x y Hin. apply (priced_same _ _ Hok). rewrite Hp, elem_of_app. by left. }
  destruct items' as [|cheapest rest]; do 2 eexists; (split; [done|]); (split; [done|]).
  - split; [done|]. intros (_ & Hne & _). exfalso. apply Hne, map_empty. intros h. destruct (all !! h) as [y|] eqn:Hy; [|done]. destruct (priced_all _ _ Hok' h y Hy) as [_ Hin]. by apply not_elem_of_nil in Hin.
  - apply stale_false in Hhead as [y0 Hy0]. assert (y0 = cheapest) as -> by (apply (priced_same _ _ Hok' cheapest y0); [by left|done]). rewrite Z.leb_le. split.
    + intros Hle. split; [done|]. split; [intros He; by rewrite He in Hy0|]. intros h y Hy. destruct (priced_all _ _ Hok' h y Hy) as [_ Hin].
      pose proof (Less_price _ _ (heap_min_elem Less Less_asym Less_trans (cheapest :: rest) cheapest y Hh eq_refl Hin)). lia.
    + intros (_ & _ & H). by eapply H.
Qed.

(** Adding a transaction to the pool, and telling the heap about removed ones. *)
Lemma Put_priced all l tx : priced_ok all l -> (forall x, x ∈ pitems l -> Hash x = Hash tx -> x = tx) ->
  exists l', TxPricedList.Put l tx = Done l' /\ priced_ok (<[Hash tx := tx]> all) l'.
Proof.
  intros [Hh Hall Hsame] Hnew. unfold TxPricedList.Put. destruct (Push_spec Less Less_asym Less_trans (pitems l) tx Hh) as (items' & -> & Hh' & Hp). cbn [obind]. eexists. split; [done|]. constructor; [done|..]; cbn [pitems].
  - intros h y [[<- <-]|[_ Hy]]%lookup_insert_Some; rewrite Hp; [split; [done|by left]|]. destruct (Hall h y Hy) as [? ?]. split; [done|by right].
  - intros x y Hx. rewrite Hp, elem_of_cons in Hx. intros [[Hhash <-]|[Hne Hy]]%lookup_insert_Some; destruct Hx as [->|Hx]; try done; [symmetry; by apply Hnew|by apply Hsame].
Qed.

Lemma Removed_priced iter all all' l count : ranges iter -> priced_ok all l -> all' ⊆ all -> exists l', TxPricedList.Removed iter all' l count = Done l' /\ priced_ok all' l'.
Proof.
  intros Hit [Hh Hall Hsame] Hsub. unfold TxPricedList.Removed. destruct (_ <=? _).
  - eexists. split; [done|]. constructor; [done|..]; cbn [pitems]; [intros h tx Htx; apply (Hall h); by eapply lookup_weaken|intros tx tx' Hin Htx; apply (Hsame tx); [done|by eapply lookup_weaken]].
  - destruct (Init_spec Less Less_asym Less_trans (map snd (iter all'))) as (items' & -> & Hh' & Hp'). cbn [obind]. eexists. split; [done|].
    assert (forall tx, tx ∈ items' <-> exists h, all' !! h = Some tx) as Hin.
    { intros tx. rewrite Hp', list_elem_of_fmap. split.
      - intros ([h x] & -> & Hx). exists h. by apply elem_of_map_to_list; rewrite <-(Hit all').
      - intros [h Hx]. exists (h, tx). split; [done|]. rewrite (Hit all'). by apply elem_of_map_to_list. }
    constructor; [done|..]; cbn [pitems].
    + intros h tx Htx. split; [apply (Hall h); by eapply lookup_weaken|]. apply Hin. by eexists.
    + intros tx tx' [h Htx]%Hin Htx'. destruct (Hall h tx) as [<- _]; [by eapply lookup_weaken|]. congruence.
Qed.

(** ** Concrete lists *)

Module TxPoolExample.
Definition tx (nonce price : Z) : Transaction := mkTransaction nonce price 21000 10 (1000 * nonce + price) 110 (Some 7).
Definition iter : iteration := map_to_list.

Lemma iter_ranges : ranges iter.
Proof. intros m. reflexivity. Qed.

Definition ops : list op :=
  [ OpAdd (tx 5 30) 10; OpAdd (tx 4 20) 10; OpAdd (tx 7 9) 10; OpAdd (tx 5 32) 10; OpAdd (tx 5 40) 10; OpFlatten iter; OpAdd (tx 6 50) 10; OpForward 5; OpFlatten iter;
    OpFilter iter 900000 21000; OpCap 1; OpReady 5; OpLen ].

Lemma ops_ok : Forall op_ok ops.
Proof. repeat constructor; try exact iter_ranges; cbn; lia. Qed.

Lemma txList_refines_witness : exists l rs rs', exec_all (TxList.newTxList true) ops = Done (l, rs) /\ spec_all true [] ops = (flat l, rs') /\ Forall2 res_eq rs rs'.
Proof. exact (txList_refines true ops ops_ok). Defined.

Definition added (l : txList) (t : Transaction) : txList := match exec l (OpAdd t 10) with Done (l, _) => l | _ => l end.
Definition two : txList := added (added (TxList.newTxList true) (tx 4 20)) (tx 5 30).

Lemma two_pending : pending two.
Proof.
  apply (pending_step (added (TxList.newTxList true) (tx 4 20)) (OpAdd (tx 5 30) 10) two (RAdd true None)); [|done| |vm_compute; reflexivity].
  - apply (pending_step (TxList.newTxList true) (OpAdd (tx 4 20) 10) _ (RAdd true None)); [constructor|done|by left|vm_compute; reflexivity].
  - right. right. exists (tx 4 20). split; vm_compute; reflexivity.
Qed.

Lemma pending_gapless_witness : gapless [4; 5] /\ map Nonce (flat two) = [4; 5].
Proof. assert (map Nonce (flat two) = [4; 5]) as H by (vm_compute; reflexivity). rewrite <-H. split; [exact (pending_gapless two two_pending)|reflexivity]. Defined.

Definition pool : txmap := list_to_map (map (fun t => (Hash t, t)) [tx 4 20; tx 5 30; tx 6 10]).
Definition priced : txPricedList := match heap_Init TxPricedList.Less [tx 4 20; tx 5 30; tx 6 10; tx 7 5] with Done h => mkPricedList h 1 | _ => TxPricedList.newTxPricedList end.

Lemma priced_priced : priced_ok pool priced.
Proof.
  constructor.
  - destruct (Init_spec Less Less_asym Less_trans [tx 4 20; tx 5 30; tx 6 10; tx 7 5]) as (h & He & Hh & _). unfold priced. by rewrite He.
  - apply (bool_decide_eq_true_1 (map_Forall (fun h t => Hash t = h /\ t ∈ pitems priced) pool)). vm_compute. reflexivity.
  - assert (Forall (fun t => bool_decide (pool !! Hash t = Some t) || bool_decide (pool !! Hash t = None) = true) (pitems priced)) as H by (repeat constructor).
    intros t t' Hin Ht'. rewrite Forall_forall in H. specialize (H t Hin). apply orb_true_iff in H as [H|H]; apply bool_decide_eq_true_1 in H; congruence.
Qed.

Lemma Discard_cheapest_witness : exists l' drop, TxPricedList.Discard pool ∅ priced 1 = Done (l', drop) /\ priced_ok (without pool drop) l' /\
  (forall t, t ∈ drop -> pool !! Hash t = Some t /\ TxPricedList.containsTx ∅ t = false) /\
  (forall t h y, t ∈ drop -> without pool drop !! h = Some y -> TxPricedList.containsTx ∅ y = false -> Less y t = false) /\
  (1 <= slots_of drop \/ forall h y, without pool drop !! h = Some y -> TxPricedList.containsTx ∅ y = true) /\ (forall d x, drop = d ++ [x] -> slots_of d < 1).
Proof. exact (Discard_cheapest pool ∅ priced 1 priced_priced). Defined.
End TxPoolExample.
