(* ===== verification/TxByPrice.v ===== *)
(** * The order of transactions in a block (core/types/transaction.go)
    [TransactionsByPriceAndNonce], from which the miner takes the transactions of
    a block: the next transaction of each account in a heap by price, and the
    rest of each account by nonce. *)

From S2P Require Import Prelude Heap TxList.

Abbreviation accounts := (gmap Z (list Transaction)).

Record TransactionsByPriceAndNonce := mkByPrice {
  byAccount : accounts;
  heads : list Transaction
}.

(** The error of [types.Sender] is ignored, with the zero address. *)
Definition sender (tx : Transaction) : Z := default 0 (Sender tx).

Module TxByPrice.
Definition Less (a b : Transaction) : bool := GasPrice b <? GasPrice a.

(** The loop over the accounts, in the order in which Go visits them; an entry
    that was deleted before is not visited. *)
Fixpoint take_heads (order : list Z) (txs : accounts) (heads : list Transaction) : outcome (accounts * list Transaction) :=
  match order with
  | [] => Done (txs, heads)
  | from :: order =>
      match txs !! from with
      | None => take_heads order txs heads
      | Some [] => Panic IndexOutOfRange
      | Some (tx :: accTxs) =>
          let acc := sender tx in
          let txs := <[acc := accTxs]> txs in
          let txs := if from =? acc then txs else delete from txs in
          take_heads order txs (heads ++ [tx])
      end
  end.

Definition NewTransactionsByPriceAndNonce (order : list Z) (txs : accounts) : outcome TransactionsByPriceAndNonce :=
  let! '(txs, heads) := take_heads order txs [] in
  let! heads := heap_Init Less heads in
  Done (mkByPrice txs heads).

Definition Peek (t : TransactionsByPriceAndNonce) : option Transaction := head (heads t).

Definition Pop (t : TransactionsByPriceAndNonce) : outcome TransactionsByPriceAndNonce :=
  let! '(heads, _) := heap_Pop Less (heads t) in
  Done (mkByPrice (byAccount t) heads).

Definition Shift (t : TransactionsByPriceAndNonce) : outcome TransactionsByPriceAndNonce :=
  let! tx := or_panic IndexOutOfRange (head (heads t)) in
  let acc := sender tx in
  match byAccount t !! acc with
  | Some (next :: txs) =>
      let! heads := heap_Fix Less (<[0%nat := next]> (heads t)) 0 in
      Done (mkByPrice (<[acc := txs]> (byAccount t)) heads)
  | _ => Pop t
  end.
End TxByPrice.

(** How the miner uses it: it looks at the next transaction, and either shifts to
    the account's next one or gives the account up. *)
Fixpoint take_txs (shifts : list bool) (t : TransactionsByPriceAndNonce) : outcome (list Transaction * TransactionsByPriceAndNonce) :=
  match shifts with
  | [] => Done ([], t)
  | shift :: shifts =>
      match TxByPrice.Peek t with
      | None => Done ([], t)
      | Some tx =>
          let! t := if shift : bool then TxByPrice.Shift t else TxByPrice.Pop t in
          let! '(l, t) := take_txs shifts t in
          Done (tx :: l, t)
      end
  end.

(** ** Queues *)

Definition queue (q : accounts) (a : Z) : list Transaction := default [] (q !! a).

(** What may be taken from a queue per account: each time the dearest of the
    first ones. *)
Inductive picks : accounts -> list bool -> list Transaction -> accounts -> Prop :=
  | picks_stop q : picks q [] [] q
  | picks_end q shifts : (forall a, queue q a = []) -> picks q shifts [] q
  | picks_tx q (shift : bool) shifts tx rest l q' : queue q (sender tx) = tx :: rest -> (forall a y r, queue q a = y :: r -> GasPrice y <= GasPrice tx) ->
      picks (<[sender tx := if shift then rest else []]> q) shifts l q' -> picks q (shift :: shifts) (tx :: l) q'.

Definition of_account (a : Z) (l : list Transaction) : list Transaction := List.filter (fun tx => sender tx =? a) l.

Lemma queue_insert q a l b : queue (<[a := l]> q) b = if decide (b = a) then l else queue q b.
Proof. unfold queue. destruct (decide (b = a)) as [->|]; [by rewrite lookup_insert_eq|by rewrite lookup_insert_ne]. Qed.

Lemma picks_account q shifts l q' a : picks q shifts l q' -> of_account a l `prefix_of` queue q a.
Proof.
  induction 1 as [q|q shifts Hq|q b shifts tx rest l q' Hq Hbest Hp IH]; [apply prefix_nil..|]. rewrite queue_insert in IH. unfold of_account in *. cbn [List.filter]. destruct (Z.eqb_spec (sender tx) a) as [<-|Hne].
  - rewrite decide_True in IH by done. rewrite Hq. apply prefix_cons. destruct b; [done|]. apply prefix_nil_inv in IH as ->. apply prefix_nil.
  - by rewrite decide_False in IH.
Qed.

(** Shifting only, either everything was taken or as much as was asked for. *)
Lemma picks_all q shifts l q' : picks q shifts l q' -> Forall (eq true) shifts -> length l = length shifts \/ forall a, of_account a l = queue q a.
Proof.
  induction 1 as [q|q shifts Hq|q b shifts tx rest l q' Hq Hbest Hp IH]; intros Hs; [by left|right; intros a; by rewrite Hq|]. apply Forall_cons in Hs as [<- Hs]. destruct (IH Hs) as [Hl|Ha]; [left; simpl; lia|right].
  intros a. specialize (Ha a). rewrite queue_insert in Ha. unfold of_account in *. cbn [List.filter]. destruct (Z.eqb_spec (sender tx) a) as [<-|Hne]; [rewrite decide_True in Ha by done; by rewrite Hq, Ha|by rewrite decide_False in Ha].
Qed.

(** ** The heap and the rest of each account make up the queues *)

Record represents (t : TransactionsByPriceAndNonce) (q : accounts) : Prop := {
  r_heap : heap TxByPrice.Less (heads t);
  r_once : NoDup (map sender (heads t));
  r_head : forall tx, tx ∈ heads t -> queue q (sender tx) = tx :: queue (byAccount t) (sender tx);
  r_none : forall a, a ∉ map sender (heads t) -> queue q a = [];
  r_sender : forall a tx, tx ∈ queue (byAccount t) a -> sender tx = a }.

Lemma dearer_asym x y : TxByPrice.Less x y = true -> TxByPrice.Less y x = false.
Proof. unfold TxByPrice.Less. rewrite Z.ltb_lt, Z.ltb_ge. lia. Qed.

Lemma dearer_trans x y z : TxByPrice.Less y x = false -> TxByPrice.Less z y = false -> TxByPrice.Less z x = false.
Proof. unfold TxByPrice.Less. rewrite !Z.ltb_ge. lia. Qed.

Lemma Peek_best t q tx : represents t q -> TxByPrice.Peek t = Some tx -> queue q (sender tx) = tx :: queue (byAccount t) (sender tx) /\ forall a y r, queue q a = y :: r -> GasPrice y <= GasPrice tx.
Proof.
  intros [Hh Ho Hhd Hn _] Hp. unfold TxByPrice.Peek in Hp. split; [apply Hhd; destruct (heads t); [done|injection Hp as ->; by left]|]. intros a y r Hq.
  destruct (decide (a ∈ map sender (heads t))) as [(x & -> & Hx)%list_elem_of_fmap|Hno]; [|by rewrite (Hn a Hno) in Hq]. rewrite (Hhd x Hx) in Hq. injection Hq as -> _.
  pose proof (heap_min_elem _ dearer_asym dearer_trans (heads t) tx y Hh Hp Hx) as H. unfold TxByPrice.Less in H. apply Z.ltb_ge in H. lia.
Qed.

Lemma Pop_ok t q tx : represents t q -> TxByPrice.Peek t = Some tx -> exists t', TxByPrice.Pop t = Done t' /\ represents t' (<[sender tx := []]> q).
Proof.
  intros [Hh Ho Hhd Hn Hs] Hp. unfold TxByPrice.Peek in Hp. destruct (Pop_spec _ dearer_asym dearer_trans (heads t) Hh) as (h' & x & Heq & Hh' & Hperm & Hx & _); [intros Hnil; by rewrite Hnil in Hp|]. assert (x = tx) as -> by congruence.
  unfold TxByPrice.Pop. rewrite Heq. eexists. split; [done|]. rewrite Hperm in Ho. cbn [map] in Ho. apply NoDup_cons in Ho as [Hnin Ho]. constructor; cbn; [done|done| | |done].
  - intros y Hy. rewrite queue_insert, decide_False; [apply Hhd; rewrite Hperm; by right|]. intros He. apply Hnin. rewrite <-He. by apply list_elem_of_fmap_2.
  - intros a Ha. rewrite queue_insert. destruct (decide (a = sender tx)) as [|Hne]; [done|]. apply Hn. rewrite Hperm. cbn [map]. by intros [?|?]%elem_of_cons.
Qed.

Lemma Shift_ok t q tx : represents t q -> TxByPrice.Peek t = Some tx -> exists t', TxByPrice.Shift t = Done t' /\ represents t' (<[sender tx := queue (byAccount t) (sender tx)]> q).
Proof.
  intros HR Hp. unfold TxByPrice.Shift. unfold TxByPrice.Peek in Hp. rewrite Hp. cbn [or_panic obind]. destruct (byAccount t !! sender tx) as [[|next rest]|] eqn:Hacc;
    [unfold queue at 1; rewrite Hacc; by apply Pop_ok| |unfold queue at 1; rewrite Hacc; by apply Pop_ok].
  destruct HR as [Hh Ho Hhd Hn Hs]. assert (queue (byAccount t) (sender tx) = next :: rest) as Hqa by (unfold queue; by rewrite Hacc). pose proof (Hs (sender tx) next) as Hsn. rewrite Hqa in Hsn. specialize (Hsn ltac:(by left)).
  destruct (heads t) as [|x hs] eqn:Hhs; [done|]. injection Hp as ->. destruct (Fix_spec _ dearer_asym dearer_trans (tx :: hs) 0 next Hh ltac:(simpl; lia)) as (h' & -> & Hh' & Hperm). cbn in Hperm. cbn [obind]. eexists. split; [done|].
  cbn [map] in Ho. apply NoDup_cons in Ho as [Hnin Ho]. constructor; cbn.
  - done.
  - rewrite Hperm. cbn [map]. rewrite Hsn. by apply NoDup_cons.
  - intros y Hy. rewrite Hperm in Hy. rewrite !queue_insert. apply elem_of_cons in Hy as [->|Hy]; [rewrite Hsn, !decide_True by done; done|]. assert (sender y <> sender tx) as Hne by (intros He; apply Hnin; rewrite <-He; by apply list_elem_of_fmap_2).
    rewrite !decide_False by done. apply Hhd. by right.
  - intros a Ha. rewrite Hperm in Ha. cbn [map] in Ha. rewrite Hsn in Ha. apply not_elem_of_cons in Ha as [Hne Ha]. rewrite queue_insert, decide_False by done. apply Hn. by apply not_elem_of_cons.
  - intros a y. rewrite queue_insert. destruct (decide (a = sender tx)) as [->|]; [|apply Hs]. intros Hy. apply Hs. rewrite Hqa. by right.
Qed.

Lemma take_txs_picks shifts : forall t q, represents t q -> exists l t' q', take_txs shifts t = Done (l, t') /\ picks q shifts l q'.
Proof.
  induction shifts as [|b shifts IH]; intros t q HR; cbn [take_txs]; [eexists _, _, _; split; [done|constructor]|]. destruct (TxByPrice.Peek t) as [tx|] eqn:Hp.
  - destruct (Peek_best t q tx HR Hp) as [Hq Hbest]. assert (exists t', (if b then TxByPrice.Shift t else TxByPrice.Pop t) = Done t' /\ represents t' (<[sender tx := if b then queue (byAccount t) (sender tx) else []]> q)) as (t' & -> & HR')
      by (destruct b; [by apply Shift_ok|by apply Pop_ok]). cbn [obind]. destruct (IH _ _ HR') as (l & t2 & q' & -> & Hpi). cbn [obind]. eexists _, _, _. split; [done|]. by econstructor.
  - eexists _, _, _. split; [done|]. apply picks_end. intros a. apply (r_none _ _ HR). unfold TxByPrice.Peek in Hp. destruct (heads t); [|done]. apply not_elem_of_nil.
Qed.

(** ** The first heap *)

(** The transactions of each account are its own, and there is one. *)
Definition input_ok (txs : accounts) : Prop := forall a l, txs !! a = Some l -> l <> [] /\ forall tx, tx ∈ l -> sender tx = a.

Lemma take_heads_spec order : forall txs hs, NoDup order -> (forall a, a ∈ order -> exists tx rest, txs !! a = Some (tx :: rest) /\ sender tx = a) ->
  exists txs' hs', TxByPrice.take_heads order txs hs = Done (txs', hs ++ hs') /\ map sender hs' = order /\
    (forall tx, tx ∈ hs' -> queue txs (sender tx) = tx :: queue txs' (sender tx)) /\ forall a, a ∉ order -> queue txs' a = queue txs a.
Proof.
  induction order as [|from order IH]; intros txs hs Hnd Hin; cbn [TxByPrice.take_heads].
  - exists txs, []. rewrite app_nil_r. split_and!; try done. by intros tx ?%not_elem_of_nil.
  - apply NoDup_cons in Hnd as [Hno Hnd]. destruct (Hin from ltac:(by left)) as (tx & rest & Htx & Hs). rewrite Htx, Hs, Z.eqb_refl. destruct (IH (<[from := rest]> txs) (hs ++ [tx]) Hnd) as (txs' & hs' & -> & Hmap & Hhd & Hout).
    { intros a Ha. rewrite lookup_insert_ne by (intros ->; done). apply Hin. by right. }
    exists txs', (tx :: hs'). split; [by rewrite <-app_assoc|]. split; [cbn [map]; by rewrite Hs, Hmap|]. split.
    + intros y [->|Hy]%elem_of_cons; [rewrite Hs, Hout, queue_insert, decide_True by done; unfold queue; by rewrite Htx|]. rewrite <-(Hhd y Hy), queue_insert, decide_False; [done|]. intros He. apply Hno. rewrite <-Hmap, <-He. by apply list_elem_of_fmap_2.
    + intros a [Hne Ha]%not_elem_of_cons. rewrite (Hout a Ha), queue_insert. by rewrite decide_False.
Qed.

Lemma New_represents order txs : input_ok txs -> order ≡ₚ (map_to_list txs).*1 -> exists t, TxByPrice.NewTransactionsByPriceAndNonce order txs = Done t /\ represents t txs.
Proof.
  intros Hok Hord. assert (forall a, a ∈ order <-> is_Some (txs !! a)) as Hdom.
  { intros a. rewrite Hord, list_elem_of_fmap. split; [intros ([x l] & -> & Hin%elem_of_map_to_list); by exists l|intros [l Hl]; exists (a, l); split; [done|by apply elem_of_map_to_list]]. }
  destruct (take_heads_spec order txs []) as (txs' & hs & Heq & Hmap & Hhd & Hout).
  - rewrite Hord. apply NoDup_fst_map_to_list.
  - intros a [l Hl]%Hdom. destruct (Hok a l Hl) as [Hne Hs]. destruct l as [|tx rest]; [done|]. exists tx, rest. split; [done|]. apply Hs. by left.
  - unfold TxByPrice.NewTransactionsByPriceAndNonce. rewrite Heq. cbn [obind app]. destruct (Init_spec _ dearer_asym dearer_trans hs) as (h & -> & Hh & Hp). cbn [obind]. eexists. split; [done|]. constructor; cbn.
    + done.
    + rewrite Hp, Hmap, Hord. apply NoDup_fst_map_to_list.
    + intros tx Htx. rewrite Hp in Htx. by apply Hhd.
    + intros a Ha. rewrite Hp, Hmap in Ha. unfold queue. destruct (txs !! a) eqn:Hl; [|done]. exfalso. apply Ha, Hdom. by rewrite Hl.
    + intros a tx Htx. destruct (decide (a ∈ order)) as [Ha|Ha].
      * rewrite <-Hmap in Ha. apply list_elem_of_fmap in Ha as (y & -> & Hy). specialize (Hhd y Hy). unfold queue at 1 in Hhd. destruct (txs !! sender y) as [l|] eqn:Hl; [|done]. cbn in Hhd. subst l. apply (Hok _ _ Hl). by right.
      * rewrite Hout in Htx by done. unfold queue in Htx. destruct (txs !! a) eqn:Hl; [by destruct Ha; apply Hdom; rewrite Hl|by apply not_elem_of_nil in Htx].
Qed.

(** C30: the miner gets transactions by price and nonce: whatever it shifts or
    gives up, and in whatever order the accounts are visited, each transaction is
    the dearest among the next ones of all accounts, those of one account come by
    nonce without a gap, and if none is given up all of them come. *)
Theorem price_nonce_order order txs shifts : input_ok txs -> order ≡ₚ (map_to_list txs).*1 ->
  exists t l t' q, TxByPrice.NewTransactionsByPriceAndNonce order txs = Done t /\ take_txs shifts t = Done (l, t') /\ picks txs shifts l q /\
    (forall a, of_account a l `prefix_of` queue txs a) /\ (Forall (eq true) shifts -> length l = length shifts \/ forall a, of_account a l = queue txs a).
Proof.
  intros Hok Hord. destruct (New_represents order txs Hok Hord) as (t & Ht & HR). destruct (take_txs_picks shifts t txs HR) as (l & t' & q & Hl & Hp).
  exists t, l, t', q. split_and!; [done|done|done|intros a; by eapply picks_account|by eapply picks_all].
Qed.

Module TxByPriceExample.
Definition tx (from nonce price : Z) : Transaction := mkTransaction nonce price 21000 0 (from * 100 + nonce) 100 (Some from).
Definition pending : accounts := <[1 := [tx 1 0 5; tx 1 1 90]]> (<[2 := [tx 2 4 50; tx 2 5 1]]> (<[3 := [tx 3 7 20]]> ∅)).

Lemma price_nonce_order_witness : exists t l t' q, TxByPrice.NewTransactionsByPriceAndNonce [3; 1; 2] pending = Done t /\ take_txs [true; false; true; true] t = Done (l, t') /\ picks pending [true; false; true; true] l q /\
    (forall a, of_account a l `prefix_of` queue pending a) /\ (Forall (eq true) [true; false; true; true] -> length l = length [true; false; true; true] \/ forall a, of_account a l = queue pending a).
Proof.
  apply (price_nonce_order [3; 1; 2] pending [true; false; true; true]).
  - intros a l Hl. unfold pending in Hl. apply lookup_insert_Some in Hl as [[<- <-]|[_ Hl]]; [|apply lookup_insert_Some in Hl as [[<- <-]|[_ Hl]]; [|apply lookup_insert_Some in Hl as [[<- <-]|[_ Hl]]; [|by rewrite lookup_empty in Hl]]];
      (split; [discriminate|]); intros y Hy; apply list_elem_of_In in Hy; cbn [In] in Hy; destruct Hy as [<-|Hy]; try reflexivity; try destruct Hy as [<-|Hy]; try reflexivity; destruct Hy.
  - apply (bool_decide_eq_true_1 ([3; 1; 2] ≡ₚ (map_to_list pending).*1)). vm_compute. reflexivity.
Defined.
End TxByPriceExample.
