(* ===== verification/Clique.v ===== *)
(** * consensus/clique: voting on the signers (snapshot.go, clique.go)
    Proof of authority: the signers of a header must be authorised and must not
    have signed one of the last headers, and headers carry votes on who is
    authorised.  A [Snapshot] is the state of the vote after a header.  The
    recovery of a header's signer from its signature and the hash of a header
    are the parameters [ecrecover] and [header_hash]. *)

From stdpp Require Import sorting.
From S2P Require Import Prelude.

Abbreviation Address := Z.

Record Vote := mkVote {
  Signer : Address;
  Block : Z;
  vAddress : Address;
  Authorize : bool
}.

Record Tally := mkTally {
  tAuthorize : bool;
  nVotes : Z
}.

Record Snapshot := mkSnapshot {
  Number : Z;
  sHash : Z;
  Signers : gset Address;
  Recents : gmap Z Address;
  Votes : list Vote;
  Tallies : gmap Address Tally
}.

(** What the engine reads and writes of a header; [hNonce] is its 8 bytes.  The
    pointers of a header that was decoded or made by the node are set. *)
Record Header := mkHeader {
  ParentHash : Z;
  UncleHash : Z;
  Coinbase : Address;
  Difficulty : Z;
  hNumber : Z;
  Time : Z;
  Extra : bytes;
  MixDigest : Z;
  hNonce : Z
}.

Inductive cliqueErr :=
  | errInvalidVotingChain
  | errSignature (** of ecrecover *)
  | errUnauthorizedSigner
  | errRecentlySigned
  | errInvalidVote
  | errUnknownBlock
  | errWrongDifficulty
  | ErrFutureBlock
  | errInvalidCheckpointBeneficiary
  | errInvalidCheckpointVote
  | errMissingVanity
  | errMissingSignature
  | errExtraSigners
  | errInvalidCheckpointSigners
  | errInvalidMixDigest
  | errInvalidUncleHash
  | errForkHash (** of VerifyForkHashes *)
  | ErrUnknownAncestor
  | ErrInvalidTimestamp
  | errMismatchingCheckpointSigners.

Definition nonceAuthVote : Z := MaxUint64.
Definition nonceDropVote : Z := 0.
Definition diffInTurn : Z := 0.
Definition diffNoTurn : Z := 0.

Definition newSnapshot (number hash : Z) (signers : list Address) : Snapshot := mkSnapshot number hash (list_to_set signers) ∅ [] ∅.

Definition validVote (s : Snapshot) (address : Address) (authorize : bool) : bool :=
  let signer := bool_decide (address ∈ Signers s) in
  (signer && negb authorize) || (negb signer && authorize).

Definition with_tally (s : Snapshot) (t : gmap Address Tally) : Snapshot := mkSnapshot (Number s) (sHash s) (Signers s) (Recents s) (Votes s) t.
Definition with_votes (s : Snapshot) (v : list Vote) : Snapshot := mkSnapshot (Number s) (sHash s) (Signers s) (Recents s) v (Tallies s).
Definition with_recents (s : Snapshot) (r : gmap Z Address) : Snapshot := mkSnapshot (Number s) (sHash s) (Signers s) r (Votes s) (Tallies s).
Definition with_signers (s : Snapshot) (a : gset Address) : Snapshot := mkSnapshot (Number s) (sHash s) a (Recents s) (Votes s) (Tallies s).

Definition cast (s : Snapshot) (address : Address) (authorize : bool) : Snapshot * bool :=
  if negb (validVote s address authorize) then (s, false)
  else
    match Tallies s !! address with
    | Some old => (with_tally s (<[address := mkTally (tAuthorize old) (nVotes old + 1)]> (Tallies s)), true)
    | None => (with_tally s (<[address := mkTally authorize 1]> (Tallies s)), true)
    end.

Definition uncast (s : Snapshot) (address : Address) (authorize : bool) : Snapshot * bool :=
  match Tallies s !! address with
  | None => (s, false)
  | Some tally =>
      if negb (eqb (tAuthorize tally) authorize) then (s, false)
      else if 1 <? nVotes tally then (with_tally s (<[address := mkTally (tAuthorize tally) (nVotes tally - 1)]> (Tallies s)), true)
      else (with_tally s (delete address (Tallies s)), true)
  end.

(** [uint64(len(snap.Signers)/2 + 1)]. *)
Definition limit (s : Snapshot) : Z := Z.of_nat (size (Signers s)) / 2 + 1.

Definition forget_recent (number : Z) (s : Snapshot) : Snapshot :=
  if limit s <=? number then with_recents s (delete (number - limit s) (Recents s)) else s.

(** The loop that looks for the vote of [signer] on [address] and takes it back. *)
Fixpoint discard_vote (signer address : Address) (before votes : list Vote) (s : Snapshot) : Snapshot :=
  match votes with
  | [] => s
  | vote :: votes =>
      if (Signer vote =? signer) && (vAddress vote =? address)
      then with_votes (fst (uncast s (vAddress vote) (Authorize vote))) (before ++ votes)
      else discard_vote signer address (before ++ [vote]) votes s
  end.

(** The loop that takes back the votes that [signer] cast. *)
Fixpoint discard_by (signer : Address) (before votes : list Vote) (s : Snapshot) : Snapshot :=
  match votes with
  | [] => with_votes s before
  | vote :: votes =>
      if Signer vote =? signer then discard_by signer before votes (fst (uncast s (vAddress vote) (Authorize vote)))
      else discard_by signer (before ++ [vote]) votes s
  end.

(** The votes on an account whose status changed, without its tally. *)
Definition discard_about (address : Address) (s : Snapshot) : Snapshot :=
  with_tally (with_votes s (List.filter (fun vote => negb (vAddress vote =? address)) (Votes s))) (delete address (Tallies s)).

(** A vote that has passed. *)
Definition enact (number : Z) (address : Address) (s : Snapshot) : Snapshot :=
  let tally := default (mkTally false 0) (Tallies s !! address) in
  if Z.of_nat (size (Signers s)) / 2 <? nVotes tally then
    let s :=
      if tAuthorize tally then with_signers s (Signers s ∪ {[address]})
      else
        let s := forget_recent number (with_signers s (Signers s ∖ {[address]})) in
        discard_by address [] (Votes s) s in
    discard_about address s
  else s.

Section Clique.
Variable header_hash : Header -> Z.
Variable ecrecover : Header -> option Address.
Variable Epoch : Z.

(** One iteration of apply. *)
Definition apply_header (snap : Snapshot) (header : Header) : outcome (cliqueErr + Snapshot) :=
  let number := u64 (hNumber header) in
  if Epoch =? 0 then Panic DivideByZero
  else
    let snap := if number mod Epoch =? 0 then with_tally (with_votes snap []) ∅ else snap in
    let snap := forget_recent number snap in
    match ecrecover header with
    | None => Done (inl errSignature)
    | Some signer =>
        if negb (bool_decide (signer ∈ Signers snap)) then Done (inl errUnauthorizedSigner)
        else if existsb (fun '(_, recent) => recent =? signer) (map_to_list (Recents snap)) then Done (inl errRecentlySigned)
        else
          let snap := with_recents snap (<[number := signer]> (Recents snap)) in
          let snap := discard_vote signer (Coinbase header) [] (Votes snap) snap in
          let vote authorize :=
            let '(snap, counted) := cast snap (Coinbase header) authorize in
            let snap := if counted : bool then with_votes snap (Votes snap ++ [mkVote signer number (Coinbase header) authorize]) else snap in
            Done (inr (enact number (Coinbase header) snap)) in
          if hNonce header =? nonceAuthVote then vote true
          else if hNonce header =? nonceDropVote then vote false
          else Done (inl errInvalidVote)
    end.

Fixpoint apply_headers (snap : Snapshot) (headers : list Header) : outcome (cliqueErr + Snapshot) :=
  match headers with
  | [] => Done (inr snap)
  | header :: headers =>
      let! r := apply_header snap header in
      match r with inl e => Done (inl e) | inr snap => apply_headers snap headers end
  end.

(** Each header has the number after the one before it. *)
Fixpoint contiguous (number : Z) (headers : list Header) : bool :=
  match headers with
  | [] => true
  | header :: headers => (u64 (hNumber header) =? u64 (number + 1)) && contiguous (u64 (hNumber header)) headers
  end.

Definition apply (s : Snapshot) (headers : list Header) : outcome (cliqueErr + Snapshot) :=
  match last headers with
  | None => Done (inr s)
  | Some lastHeader =>
      if negb (contiguous (Number s) headers) then Done (inl errInvalidVotingChain)
      else
        let! r := apply_headers s headers in
        match r with
        | inl e => Done (inl e)
        | inr snap => Done (inr (mkSnapshot (u64 (Number snap + zlen headers)) (header_hash lastHeader) (Signers snap) (Recents snap) (Votes snap) (Tallies snap)))
        end
  end.

(** ** Turns and seals *)

Definition signers (s : Snapshot) : list Address := merge_sort Z.le (elements (Signers s)).

Fixpoint offset_of (signer : Address) (l : list Address) : nat :=
  match l with
  | [] => 0
  | x :: l => if x =? signer then 0 else S (offset_of signer l)
  end.

Definition inturn (s : Snapshot) (number : Z) (signer : Address) : outcome bool :=
  let l := signers s in
  let offset := offset_of signer l in
  if zlen l =? 0 then Panic DivideByZero else Done (number mod zlen l =? Z.of_nat offset).

Definition CalcDifficulty (snap : Snapshot) (signer : Address) : outcome Z :=
  let! b := inturn snap (u64 (Number snap + 1)) signer in
  Done (if b then diffInTurn else diffNoTurn).

(** The check of a header's seal against the snapshot of its parent; the flag
    that tests set to skip the difficulty is off. *)
Definition verifySeal (snap : Snapshot) (header : Header) : outcome (cliqueErr + unit) :=
  let number := u64 (hNumber header) in
  if number =? 0 then Done (inl errUnknownBlock)
  else
    match ecrecover header with
    | None => Done (inl errSignature)
    | Some signer =>
        if negb (bool_decide (signer ∈ Signers snap)) then Done (inl errUnauthorizedSigner)
        else if existsb (fun '(seen, recent) => (recent =? signer) && (u64 (number - limit snap) <? seen)) (map_to_list (Recents snap)) then Done (inl errRecentlySigned)
        else
          let! b := inturn snap number signer in
          if b && negb (Difficulty header =? diffInTurn) then Done (inl errWrongDifficulty)
          else if negb b && negb (Difficulty header =? diffNoTurn) then Done (inl errWrongDifficulty)
          else Done (inr tt)
    end.
End Clique.
