(* ===== verification/CliqueSafe.v ===== *)
(** * consensus/clique: the vote is counted right and signers take turns
    In every snapshot that headers lead to, the tallies are the counts of the
    votes, each by a different authorised signer; a signer is added or removed
    only by more than half of the signers; no signer signs two headers that are
    closer than half the number of signers; and the check of a header's seal
    agrees with what the next snapshot requires, but for the first headers. *)

From stdpp Require Import sorting.
From S2P Require Import Prelude Clique.

(** ** Counting votes *)

Definition on (a : Address) (vs : list Vote) : list Vote := List.filter (fun v => vAddress v =? a) vs.
Definition is_signer (sg : gset Address) (a : Address) : bool := bool_decide (a ∈ sg).

(** The tally that votes on [a] should have. *)
Definition expected (sg : gset Address) (vs : list Vote) (a : Address) : option Tally :=
  match on a vs with [] => None | l => Some (mkTally (negb (is_signer sg a)) (zlen l)) end.

(** The votes on the accounts of [D] are counted, and each may change something. *)
Record counted (D : Address -> Prop) (sg : gset Address) (vs : list Vote) (t : gmap Address Tally) : Prop := {
  c_tally : forall a, D a -> t !! a = expected sg vs a;
  c_auth : forall v, v ∈ vs -> D (vAddress v) -> Authorize v = negb (is_signer sg (vAddress v)) }.

Definition pair_of (v : Vote) : Address * Address := (Signer v, vAddress v).

Definition everyone (a : Address) : Prop := True.

Record votes_ok (s : Snapshot) : Prop := {
  v_counted : counted everyone (Signers s) (Votes s) (Tallies s);
  v_once : NoDup (map pair_of (Votes s));
  v_signer : forall v, v ∈ Votes s -> Signer v ∈ Signers s }.

Lemma on_app a l1 l2 : on a (l1 ++ l2) = on a l1 ++ on a l2.
Proof. apply List.filter_app. Qed.

Lemma on_cons a v l : on a (v :: l) = if vAddress v =? a then v :: on a l else on a l.
Proof. done. Qed.

Lemma elem_of_on a vs v : v ∈ on a vs <-> v ∈ vs /\ vAddress v = a.
Proof. unfold on. rewrite !list_elem_of_In, filter_In, Z.eqb_eq. done. Qed.

Lemma expected_cons sg before v after a : expected sg (before ++ v :: after) a =
  if vAddress v =? a then Some (mkTally (negb (is_signer sg a)) (1 + zlen (on a (before ++ after)))) else expected sg (before ++ after) a.
Proof.
  unfold expected. rewrite !on_app, on_cons. destruct (vAddress v =? a); [|done]. destruct (on a before) as [|x l]; cbn [app]; [do 2 f_equal; simpl; lia|]. do 2 f_equal. simpl. rewrite !length_app. simpl. lia.
Qed.

Lemma uncast_counted D sg before v after s : counted D sg (before ++ v :: after) (Tallies s) ->
  counted D sg (before ++ after) (Tallies (fst (uncast s (vAddress v) (Authorize v)))).
Proof.
  intros [Ht Ha]. constructor; [|intros x Hx; apply Ha; set_solver]. intros a Da. specialize (Ht a Da) as Hta. rewrite expected_cons in Hta. unfold uncast. destruct (Z.eqb_spec (vAddress v) a) as [<-|Hne].
  - rewrite Hta. cbn [tAuthorize nVotes]. rewrite (Ha v) by (done || (apply elem_of_app; right; by left)). rewrite Bool.eqb_reflx. cbn [negb]. unfold expected. destruct (on (vAddress v) (before ++ after)) as [|x l] eqn:Hon.
    + cbn. apply lookup_delete_eq.
    + destruct (Z.ltb_spec 1 (1 + zlen (x :: l))) as [_|H]; [|simpl in H; lia]. cbn [fst with_tally Tallies]. rewrite lookup_insert_eq. do 2 f_equal. lia.
  - destruct (Tallies s !! vAddress v) as [t|]; [|done]. destruct (negb _); [done|]. destruct (1 <? _); cbn [fst with_tally Tallies]; [by rewrite lookup_insert_ne|by rewrite lookup_delete_ne].
Qed.

(** Uncasting touches the tallies only. *)
Lemma uncast_rest s a b : exists t, fst (uncast s a b) = with_tally s t.
Proof.
  unfold uncast. destruct (Tallies s !! a) as [t|]; [|exists (Tallies s); by destruct s]. destruct (negb _); [exists (Tallies s); by destruct s|]. destruct (1 <? _); by eexists.
Qed.

Lemma discard_vote_spec signer address votes : forall before s, Votes s = before ++ votes -> counted everyone (Signers s) (Votes s) (Tallies s) -> NoDup (map pair_of (Votes s)) ->
  (forall v, v ∈ before -> pair_of v <> (signer, address)) ->
  exists vs t, discard_vote signer address before votes s = with_votes (with_tally s t) vs /\ counted everyone (Signers s) vs t /\ NoDup (map pair_of vs) /\
    (forall v, v ∈ vs -> v ∈ Votes s /\ pair_of v <> (signer, address)).
Proof.
  induction votes as [|v votes IH]; intros before s Hv Hc Hn Hb; cbn [discard_vote].
  - exists (Votes s), (Tallies s). split; [by destruct s|]. split; [done|]. split; [done|]. intros v Hin. split; [done|]. apply Hb. by rewrite Hv, app_nil_r in Hin.
  - destruct ((Signer v =? signer) && (vAddress v =? address)) eqn:Heq.
    + apply andb_true_iff in Heq as [Hs%Z.eqb_eq Ha%Z.eqb_eq]. destruct (uncast_rest s (vAddress v) (Authorize v)) as [t Ht]. exists (before ++ votes), t. rewrite Ht. split; [done|].
      rewrite Hv in Hc. apply uncast_counted in Hc. rewrite Ht in Hc. split; [done|]. rewrite Hv, map_app in Hn. cbn [map] in Hn. rewrite map_app.
      apply NoDup_app in Hn as (Hn1 & Hn2 & Hn3). apply NoDup_cons in Hn3 as [Hn3 Hn4]. split; [apply NoDup_app; split_and!; [done| |done]; intros x Hx Hx'; apply (Hn2 x Hx); by right|].
      intros x Hx. split; [rewrite Hv; set_solver|]. apply elem_of_app in Hx as [Hx|Hx]; [by apply Hb|]. intros Hp. apply Hn3. apply list_elem_of_fmap. exists x. split; [|done]. unfold pair_of in *. congruence.
    + apply (IH (before ++ [v]) s); [by rewrite <-app_assoc|done|done|]. intros x [Hx|Hx]%elem_of_app; [by apply Hb|]. apply list_elem_of_singleton in Hx as ->. unfold pair_of. intros [= Hs Ha]. rewrite Hs, Ha, !Z.eqb_refl in Heq. done.
Qed.

Lemma discard_by_spec D sg a votes : forall before s, counted D sg (before ++ votes) (Tallies s) ->
  exists t, discard_by a before votes s = with_votes (with_tally s t) (before ++ List.filter (fun v => negb (Signer v =? a)) votes) /\
    counted D sg (before ++ List.filter (fun v => negb (Signer v =? a)) votes) t.
Proof.
  induction votes as [|v votes IH]; intros before s Hc; cbn [discard_by List.filter].
  - exists (Tallies s). rewrite !app_nil_r in *. split; [by destruct s|done].
  - destruct (Signer v =? a); cbn [negb].
    + destruct (uncast_rest s (vAddress v) (Authorize v)) as [t Ht]. apply uncast_counted in Hc. rewrite Ht in *. destruct (IH before (with_tally s t) Hc) as (t' & -> & Hc'). exists t'. split; [done|done].
    + replace (before ++ v :: votes) with ((before ++ [v]) ++ votes) in Hc by (by rewrite <-app_assoc). destruct (IH (before ++ [v]) s Hc) as (t & -> & Hc'). exists t. rewrite <-app_assoc in *. done.
Qed.

Lemma validVote_true s a b : validVote s a b = true <-> b = negb (is_signer (Signers s) a).
Proof. unfold validVote, is_signer. destruct (bool_decide _), b; done. Qed.

Lemma cast_spec s a b : counted everyone (Signers s) (Votes s) (Tallies s) ->
  cast s a b = (s, false) \/
  (b = negb (is_signer (Signers s) a) /\ exists t, cast s a b = (with_tally s t, true) /\ forall signer n, counted everyone (Signers s) (Votes s ++ [mkVote signer n a b]) t).
Proof.
  intros [Ht Ha]. unfold cast. destruct (validVote s a b) eqn:Hv; cbn [negb]; [right|by left]. apply validVote_true in Hv. split; [done|].
  assert (forall t, t !! a = Some (mkTally b (1 + zlen (on a (Votes s)))) -> (forall x, x <> a -> t !! x = Tallies s !! x) -> forall signer n, counted everyone (Signers s) (Votes s ++ [mkVote signer n a b]) t) as Hmk.
  { intros t Hta Hto signer n. constructor.
    - intros x _. rewrite expected_cons, app_nil_r. cbn [vAddress]. destruct (Z.eqb_spec a x) as [<-|Hne]; [by rewrite Hta, Hv|]. rewrite Hto by done. by apply Ht.
    - intros v [Hin|Hin]%elem_of_app Hd; [by apply Ha|]. apply list_elem_of_singleton in Hin as ->. cbn [Authorize vAddress]. done. }
  specialize (Ht a I) as Hta. unfold expected in Hta. destruct (on a (Votes s)) as [|x l] eqn:Hon; rewrite Hta.
  - eexists. split; [done|]. apply Hmk; [by rewrite lookup_insert_eq|]. intros y Hy. by rewrite lookup_insert_ne.
  - eexists. split; [done|]. cbn [tAuthorize nVotes]. apply Hmk; [rewrite lookup_insert_eq; do 2 f_equal; [done|lia]|]. intros y Hy. by rewrite lookup_insert_ne.
Qed.

(** ** Votes that pass *)

Definition changed (sg : gset Address) (a : Address) : gset Address := if is_signer sg a then sg ∖ {[a]} else sg ∪ {[a]}.

Lemma is_signer_changed sg a b : b <> a -> is_signer (changed sg a) b = is_signer sg b.
Proof. intros Hne. unfold changed, is_signer. destruct (bool_decide (a ∈ sg)); apply bool_decide_ext; set_solver. Qed.

(** Votes on other accounts are counted as before. *)
Lemma counted_changed sg a vs t : counted everyone sg vs t -> counted (fun b => b <> a) (changed sg a) vs t.
Proof.
  intros [Ht Ha]. constructor.
  - intros b Hb. rewrite (Ht b I). unfold expected. by rewrite is_signer_changed.
  - intros v Hin Hb. rewrite (Ha v Hin I). by rewrite is_signer_changed.
Qed.

Lemma on_about a b vs : on b (List.filter (fun v => negb (vAddress v =? a)) vs) = if b =? a then [] else on b vs.
Proof.
  induction vs as [|v vs IH]; cbn [List.filter]; [by destruct (b =? a)|]. destruct (Z.eqb_spec (vAddress v) a) as [Hv|Hv]; cbn [negb].
  - rewrite IH, on_cons, Hv. destruct (Z.eqb_spec b a) as [->|]; [done|]. by rewrite (proj2 (Z.eqb_neq a b)) by done.
  - rewrite !on_cons, IH. destruct (Z.eqb_spec b a) as [->|]; [by rewrite (proj2 (Z.eqb_neq (vAddress v) a))|done].
Qed.

Lemma discard_about_counted sg a vs t : counted (fun b => b <> a) sg vs t ->
  counted everyone sg (List.filter (fun v => negb (vAddress v =? a)) vs) (delete a t).
Proof.
  intros [Ht Ha]. constructor.
  - intros b _. unfold expected. rewrite on_about. destruct (Z.eqb_spec b a) as [->|Hne]; [apply lookup_delete_eq|]. rewrite lookup_delete_ne by done. by apply Ht.
  - intros v Hin _. rewrite list_elem_of_In, filter_In in Hin. destruct Hin as [Hin%list_elem_of_In Hne]. apply Ha; [done|]. destruct (Z.eqb_spec (vAddress v) a); done.
Qed.

Lemma NoDup_filter_map {A B} (f : A -> B) (p : A -> bool) l : NoDup (map f l) -> NoDup (map f (List.filter p l)).
Proof.
  induction l as [|x l IH]; cbn [List.filter map]; [done|]. intros [Hx Hn]%NoDup_cons. destruct (p x); [|by apply IH]. cbn [map]. apply NoDup_cons. split; [|by apply IH].
  intros (y & Hxy & Hy)%list_elem_of_fmap. apply Hx, list_elem_of_fmap. exists y. split; [done|]. by apply list_elem_of_In, filter_In in Hy as [Hy%list_elem_of_In _].
Qed.

Lemma forget_rest number s : exists r, forget_recent number s = with_recents s r /\ (r = Recents s \/ limit s <= number /\ r = delete (number - limit s) (Recents s)).
Proof. unfold forget_recent. destruct (Z.leb_spec (limit s) number); [eexists; split; [done|by right]|]. exists (Recents s). split; [by destruct s|by left]. Qed.

(** What a vote changes: nothing, or the status of the account on which more than
    half of the signers agree. *)
Definition passed (number : Z) (a : Address) (s s' : Snapshot) : Prop :=
  Z.of_nat (size (Signers s)) / 2 < zlen (on a (Votes s)) /\ Signers s' = changed (Signers s) a /\
  Recents s' = if is_signer (Signers s) a then Recents (forget_recent number (with_signers s (changed (Signers s) a))) else Recents s.

Lemma enact_ok number a s : votes_ok s -> votes_ok (enact number a s) /\ (forall v, v ∈ Votes (enact number a s) -> v ∈ Votes s) /\ Number (enact number a s) = Number s /\
  (Signers (enact number a s) = Signers s /\ Recents (enact number a s) = Recents s \/ passed number a s (enact number a s)).
Proof.
  intros Hok. pose proof Hok as [Hc Ho Hs]. unfold enact. specialize (c_tally _ _ _ _ Hc a I) as Hta.
  destruct (Z.ltb_spec (Z.of_nat (size (Signers s)) / 2) (nVotes (default (mkTally false 0) (Tallies s !! a)))) as [Hlt|]; [|by split; [|split; [|split; [|left]]]].
  rewrite Hta in *. unfold expected in Hlt, Hta. unfold expected. destruct (on a (Votes s)) as [|x l] eqn:Hon; [cbn in Hlt; pose proof (Z.div_pos (Z.of_nat (size (Signers s))) 2); lia|].
  cbn [default tAuthorize nVotes] in *. unfold passed. rewrite Hon. apply (counted_changed _ a) in Hc as Hca. unfold changed in *. destruct (is_signer (Signers s) a) eqn:Hsig; cbn [negb].
  - destruct (forget_rest number (with_signers s (Signers s ∖ {[a]}))) as (r & Hf & _). rewrite !Hf.
    destruct (discard_by_spec _ _ a (Votes s) [] (with_recents (with_signers s (Signers s ∖ {[a]})) r) Hca) as (t & Hd & Hct). cbn [Votes with_recents with_signers app] in *. rewrite Hd.
    split; [|split; [|split; [done|by right]]].
    + constructor; cbn; [by apply discard_about_counted|by do 2 apply NoDup_filter_map|]. intros v Hin. rewrite list_elem_of_In, !filter_In in Hin. destruct Hin as [[Hin%list_elem_of_In Hne] _].
      apply elem_of_difference. split; [by apply Hs|]. rewrite elem_of_singleton. destruct (Z.eqb_spec (Signer v) a); done.
    + cbn. intros v Hin. rewrite list_elem_of_In, !filter_In in Hin. destruct Hin as [[Hin%list_elem_of_In _] _]. done.
  - split; [|split; [|split; [done|by right]]].
    + constructor; cbn; [by apply discard_about_counted|by apply NoDup_filter_map|]. intros v Hin. rewrite list_elem_of_In, filter_In in Hin. destruct Hin as [Hin%list_elem_of_In _]. apply elem_of_union. left. by apply Hs.
    + cbn. intros v Hin. rewrite list_elem_of_In, filter_In in Hin. by destruct Hin as [Hin%list_elem_of_In _].
Qed.

(** ** One header *)

Section Chain.
Context (header_hash : Header -> Z) (ecrecover : Header -> option Address) (Epoch : Z).

(** A vote that a header carries. *)
Definition carries (h : Header) (v : Vote) : Prop :=
  ecrecover h = Some (Signer v) /\ u64 (hNumber h) = Block v /\ Coinbase h = vAddress v /\ hNonce h = if Authorize v then nonceAuthVote else nonceDropVote.

Lemma existsb_recents (r : gmap Z Address) a : existsb (fun '(_, recent) => recent =? a) (map_to_list r) = false <-> forall n, r !! n <> Some a.
Proof.
  rewrite <-not_true_iff_false, existsb_exists. split.
  - intros H n Hn. apply H. exists (n, a). split; [|by rewrite Z.eqb_refl]. by apply list_elem_of_In, elem_of_map_to_list.
  - intros H ([n x] & Hin%list_elem_of_In%elem_of_map_to_list & ->%Z.eqb_eq). by apply (H n).
Qed.

(** The snapshot before the votes are counted. *)
Record sealed (h : Header) (s s1 : Snapshot) (signer : Address) : Prop := {
  sl_signer : ecrecover h = Some signer;
  sl_member : signer ∈ Signers s;
  sl_recent : forall n, Recents (forget_recent (u64 (hNumber h)) s) !! n <> Some signer;
  sl_votes : votes_ok s1;
  sl_signers : Signers s1 = Signers s;
  sl_recents : Recents s1 = <[u64 (hNumber h) := signer]> (Recents (forget_recent (u64 (hNumber h)) s));
  sl_number : Number s1 = Number s;
  sl_new : forall v, v ∈ Votes s1 -> v ∈ Votes s \/ carries h v }.

Lemma apply_header_ok h s s' : votes_ok s -> apply_header ecrecover Epoch s h = Done (inr s') ->
  exists s1 signer, sealed h s s1 signer /\ s' = enact (u64 (hNumber h)) (Coinbase h) s1.
Proof.
  intros Hok. unfold apply_header. destruct (Epoch =? 0); [done|]. set (n := u64 (hNumber h)). set (s0 := if n mod Epoch =? 0 then _ else s).
  assert (votes_ok s0 /\ Signers s0 = Signers s /\ Recents s0 = Recents s /\ Number s0 = Number s /\ forall v, v ∈ Votes s0 -> v ∈ Votes s) as (Hok0 & Hsg0 & Hr0 & Hn0 & Hv0).
  { unfold s0. destruct (n mod Epoch =? 0); [|done]. split; [|by split_and!; try done; intros v ?%not_elem_of_nil]. constructor; [|constructor|by intros v ?%not_elem_of_nil]. constructor; [done|by intros v ?%not_elem_of_nil]. }
  clearbody s0. assert (Recents (forget_recent n s0) = Recents (forget_recent n s)) as Hrf by (unfold forget_recent, limit; rewrite Hsg0, Hr0; by destruct (_ <=? _)).
  destruct (forget_rest n s0) as (r & Hf & _). rewrite Hf in *. cbn [Recents with_recents] in Hrf. destruct (ecrecover h) as [signer|] eqn:Hec; [|done]. cbn [Signers with_recents Recents].
  destruct (bool_decide (signer ∈ Signers s0)) eqn:Hmem; [|done]. apply bool_decide_eq_true_1 in Hmem. cbn [negb]. destruct (existsb _ _) eqn:Hrec; [done|]. pose proof (proj1 (existsb_recents r signer) Hrec) as Hno.
  set (s2 := with_recents _ _). destruct (discard_vote_spec signer (Coinbase h) (Votes s2) [] s2) as (vs & t & -> & Hc & Hnd & Hvs); [done|apply Hok0|apply Hok0|by intros v ?%not_elem_of_nil|].
  change (Votes s2) with (Votes s0) in Hvs. set (s3 := with_votes (with_tally s2 t) vs).
  assert (forall b s', hNonce h = (if b : bool then nonceAuthVote else nonceDropVote) -> (let '(snap, c) := cast s3 (Coinbase h) b in
    let snap := if c : bool then with_votes snap (Votes snap ++ [mkVote signer n (Coinbase h) b]) else snap in Done (inr (enact n (Coinbase h) snap))) = @Done (cliqueErr + Snapshot) (inr s') ->
    exists s1 signer, sealed h s s1 signer /\ s' = enact n (Coinbase h) s1) as Hvote.
  { intros b s'' Hb. assert (forall s1, Signers s1 = Signers s0 -> Recents s1 = <[n := signer]> r -> Number s1 = Number s0 -> votes_ok s1 -> (forall v, v ∈ Votes s1 -> v ∈ Votes s0 \/ carries h v) -> sealed h s s1 signer) as Hmk.
    { intros s1 H1 H2 H3 H4 H5. constructor; try done; [by rewrite <-Hsg0|by fold n; rewrite <-Hrf|congruence|fold n; by rewrite <-Hrf|congruence|]. intros v Hin. destruct (H5 v Hin) as [?|?]; [left; by apply Hv0|by right]. }
    destruct (cast_spec s3 (Coinbase h) b Hc) as [->|(Hb' & t' & -> & Hc')]; intros [= <-].
    - eexists _, signer. split; [|done]. apply Hmk; try done; [|intros v Hin; left; by apply Hvs]. constructor; [done|done|]. intros v Hin. apply Hok0. by apply Hvs.
    - eexists _, signer. split; [|done]. apply Hmk; try done.
      + constructor; [apply Hc'| |].
        * cbn. rewrite map_app. apply NoDup_app. split; [done|]. split; [|apply NoDup_singleton]. intros x (v & -> & Hv)%list_elem_of_fmap Hx%list_elem_of_singleton. by apply (Hvs v Hv).
        * cbn. intros v [Hin|Hin]%elem_of_app; [apply Hok0; by apply Hvs|]. apply list_elem_of_singleton in Hin as ->. done.
      + cbn. intros v [Hin|Hin]%elem_of_app; [left; by apply Hvs|]. apply list_elem_of_singleton in Hin as ->. right. done. }
  destruct (Z.eqb_spec (hNonce h) nonceAuthVote) as [Hau|]; [by apply Hvote|]. destruct (Z.eqb_spec (hNonce h) nonceDropVote) as [Hdr|]; [by apply Hvote|done].
Qed.

(** ** Chains of headers *)

(** The signer of the header with number [n], the first one being 1. *)
Definition signer_at (hs : list Header) (n : Z) : option Address := hs !! Z.to_nat (n - 1) ≫= ecrecover.

Record inv (hs : list Header) (s : Snapshot) : Prop := {
  i_votes : votes_ok s;
  i_cast : forall v, v ∈ Votes s -> exists h, h ∈ hs /\ carries h v;
  i_sound : forall n a, Recents s !! n = Some a -> 0 < n <= zlen hs /\ zlen hs - limit s < n /\ signer_at hs n = Some a;
  i_complete : forall n, 0 < n <= zlen hs -> zlen hs + 1 - limit s < n -> Recents s !! n = signer_at hs n }.

Lemma limit_pos s : 1 <= limit s.
Proof. unfold limit. pose proof (Z.div_pos (Z.of_nat (size (Signers s))) 2). lia. Qed.

Lemma size_changed (sg : gset Address) a : Z.of_nat (size (changed sg a)) = if is_signer sg a then Z.of_nat (size sg) - 1 else Z.of_nat (size sg) + 1.
Proof.
  unfold changed, is_signer. destruct (bool_decide_reflect (a ∈ sg)) as [Hin|Hno].
  - rewrite size_difference by set_solver. rewrite size_singleton. assert (size ({[a]} : gset Address) <= size sg)%nat as Hle by (apply subseteq_size; set_solver). rewrite size_singleton in Hle. lia.
  - rewrite size_union by set_solver. rewrite size_singleton. lia.
Qed.

Lemma limit_changed s s' a : Signers s' = changed (Signers s) a -> if is_signer (Signers s) a then limit s - 1 <= limit s' <= limit s else limit s <= limit s' <= limit s + 1.
Proof.
  intros Hs. unfold limit. rewrite Hs, size_changed. set (n := Z.of_nat (size (Signers s))). pose proof (Z.div_mod n 2). pose proof (Z.mod_pos_bound n 2). destruct (is_signer _ _).
  - pose proof (Z.div_mod (n - 1) 2). pose proof (Z.mod_pos_bound (n - 1) 2). lia.
  - pose proof (Z.div_mod (n + 1) 2). pose proof (Z.mod_pos_bound (n + 1) 2). lia.
Qed.

Lemma signer_at_app hs h n : 0 < n <= zlen hs + 1 -> signer_at (hs ++ [h]) n = if n =? zlen hs + 1 then ecrecover h else signer_at hs n.
Proof.
  intros Hn. unfold signer_at. destruct (Z.eqb_spec n (zlen hs + 1)) as [->|Hne].
  - replace (Z.to_nat (zlen hs + 1 - 1)) with (length hs) by lia. by rewrite lookup_app_r, Nat.sub_diag by lia.
  - by rewrite lookup_app_l by lia.
Qed.

Lemma forget_lookup m s n : Recents (forget_recent m s) !! n = if (n =? m - limit s) && (limit s <=? m) then None else Recents s !! n.
Proof.
  unfold forget_recent. destruct (limit s <=? m); cbn [Recents with_recents]; rewrite ?andb_false_r, ?andb_true_r; [|done].
  destruct (Z.eqb_spec n (m - limit s)) as [->|]; [apply lookup_delete_eq|by rewrite lookup_delete_ne].
Qed.

(** The recent signers after a header, before votes are counted. *)
Lemma sealed_recents hs h s s1 signer : inv hs s -> sealed h s s1 signer -> u64 (hNumber h) = zlen hs + 1 ->
  (forall n a, Recents s1 !! n = Some a -> 0 < n <= zlen hs + 1 /\ zlen hs + 1 - limit s < n /\ signer_at (hs ++ [h]) n = Some a) /\
  (forall n, 0 < n <= zlen hs + 1 -> zlen hs + 1 - limit s < n -> Recents s1 !! n = signer_at (hs ++ [h]) n).
Proof.
  intros Hi Hsl Hm. pose proof (limit_pos s). rewrite (sl_recents _ _ _ _ Hsl), Hm. set (m := zlen hs + 1) in *.
  split.
  - intros n a. destruct (decide (n = m)) as [->|Hne].
    + rewrite lookup_insert_eq. intros [= <-]. split; [lia|]. split; [lia|]. rewrite signer_at_app by lia. unfold m. rewrite Z.eqb_refl. apply (sl_signer _ _ _ _ Hsl).
    + rewrite lookup_insert_ne by done. rewrite forget_lookup. destruct ((n =? m - limit s) && (limit s <=? m)) eqn:Hd; [done|]. intros Hr. destruct (i_sound _ _ Hi n a Hr) as (H1 & H2 & H3).
      split; [lia|]. split; [lia|]. rewrite signer_at_app by lia. destruct (Z.eqb_spec n (zlen hs + 1)); [lia|done].
  - intros n Hn Hlt. rewrite signer_at_app by lia. destruct (Z.eqb_spec n (zlen hs + 1)) as [->|Hne].
    + unfold m. rewrite lookup_insert_eq. symmetry. apply (sl_signer _ _ _ _ Hsl).
    + rewrite lookup_insert_ne by lia. rewrite forget_lookup. destruct (Z.eqb_spec n (m - limit s)); [lia|]. cbn [andb]. apply (i_complete _ _ Hi); lia.
Qed.

Lemma inv_step hs h s s' : inv hs s -> u64 (hNumber h) = zlen hs + 1 -> apply_header ecrecover Epoch s h = Done (inr s') -> inv (hs ++ [h]) s'.
Proof.
  intros Hi Hm Ha. destruct (apply_header_ok h s s' (i_votes _ _ Hi) Ha) as (s1 & signer & Hsl & ->). destruct (sealed_recents hs h s s1 signer Hi Hsl Hm) as [Hsound Hcomp].
  destruct (enact_ok (u64 (hNumber h)) (Coinbase h) s1 (sl_votes _ _ _ _ Hsl)) as (Hv & Hsub & _ & Hcase). assert (limit s1 = limit s) as HL by (unfold limit; by rewrite (sl_signers _ _ _ _ Hsl)).
  assert (zlen (hs ++ [h]) = zlen hs + 1) as Hlen by (rewrite length_app; simpl; lia). set (s' := enact _ _ s1) in *. rewrite Hm in *. constructor; [done| |rewrite Hlen..].
  - intros v Hin. apply Hsub in Hin. destruct (sl_new _ _ _ _ Hsl v Hin) as [Hold|Hnew]; [|exists h; split; [apply elem_of_app; right; by left|done]].
    destruct (i_cast _ _ Hi v Hold) as (h' & Hh' & Hc'). exists h'. split; [apply elem_of_app; by left|done].
  - intros n a Hr. destruct Hcase as [[Hsg Hrc]|(_ & Hsg & Hrc)]; rewrite Hrc in Hr.
    + destruct (Hsound n a Hr) as (H1 & H2 & H3). assert (limit s' = limit s1) by (unfold limit; by rewrite Hsg). split_and!; try done; lia.
    + pose proof (limit_changed s1 s' _ Hsg) as Hlc. destruct (is_signer (Signers s1) (Coinbase h)); [|destruct (Hsound n a Hr) as (H1 & H2 & H3); split_and!; try done; lia].
      rewrite forget_lookup in Hr. replace (limit (with_signers _ _)) with (limit s') in Hr by (unfold limit; by rewrite Hsg). destruct (_ && _) eqn:Hd; [done|].
      destruct (Hsound n a Hr) as (H1 & H2 & H3). split_and!; try done; lia.
  - intros n Hn Hlt. destruct Hcase as [[Hsg Hrc]|(_ & Hsg & Hrc)]; rewrite Hrc.
    + assert (limit s' = limit s1) by (unfold limit; by rewrite Hsg). apply Hcomp; lia.
    + pose proof (limit_changed s1 s' _ Hsg) as Hlc. destruct (is_signer (Signers s1) (Coinbase h)); [|apply Hcomp; lia].
      rewrite forget_lookup. replace (limit (with_signers _ _)) with (limit s') by (unfold limit; by rewrite Hsg). destruct (Z.eqb_spec n (zlen hs + 1 - limit s')); [lia|]. cbn [andb]. apply Hcomp; lia.
Qed.

Lemma inv_genesis hash sgs : inv [] (newSnapshot 0 hash sgs).
Proof.
  constructor; cbn; [|by intros v ?%not_elem_of_nil|done|intros n ?; lia]. constructor; cbn; [|constructor|by intros v ?%not_elem_of_nil]. constructor; [done|by intros v ?%not_elem_of_nil].
Qed.

Lemma apply_headers_app s hs1 hs2 : apply_headers ecrecover Epoch s (hs1 ++ hs2) =
  let! r := apply_headers ecrecover Epoch s hs1 in match r with inl e => Done (inl e) | inr s => apply_headers ecrecover Epoch s hs2 end.
Proof.
  revert s. induction hs1 as [|h hs1 IH]; intros s; cbn [app apply_headers]; [done|]. destruct (apply_header ecrecover Epoch s h) as [[e|s1]| |]; cbn [obind]; [done|apply IH|done|done].
Qed.

Lemma apply_header_number h s s' : votes_ok s -> apply_header ecrecover Epoch s h = Done (inr s') -> Number s' = Number s.
Proof.
  intros Hv Ha. destruct (apply_header_ok h s s' Hv Ha) as (s1 & signer & Hsl & ->). destruct (enact_ok (u64 (hNumber h)) (Coinbase h) s1 (sl_votes _ _ _ _ Hsl)) as (_ & _ & -> & _). apply (sl_number _ _ _ _ Hsl).
Qed.

Lemma apply_headers_inv hs2 : forall hs1 s s', inv hs1 s -> contiguous (zlen hs1) hs2 = true -> zlen hs1 + zlen hs2 < two64 -> apply_headers ecrecover Epoch s hs2 = Done (inr s') -> inv (hs1 ++ hs2) s' /\ Number s' = Number s.
Proof.
  induction hs2 as [|h hs2 IH]; intros hs1 s s' Hi Hc Hn Ha; cbn [apply_headers contiguous] in *; [injection Ha as <-; by rewrite app_nil_r|]. simpl length in Hn.
  apply andb_true_iff in Hc as [Hm%Z.eqb_eq Hc]. rewrite (u64_small (zlen hs1 + 1)) in Hm by (unfold is_u64; lia). destruct (apply_header ecrecover Epoch s h) as [[e|s1]| |] eqn:Hh; try done. cbn [obind] in Ha.
  replace (hs1 ++ h :: hs2) with ((hs1 ++ [h]) ++ hs2) by (by rewrite <-app_assoc). assert (zlen (hs1 ++ [h]) = zlen hs1 + 1) as Hl by (rewrite length_app; simpl; lia).
  rewrite <-(apply_header_number _ _ _ (i_votes _ _ Hi) Hh). apply (IH (hs1 ++ [h]) s1); [by eapply inv_step|by rewrite Hl, <-Hm|lia|done].
Qed.

Lemma apply_Done s hs s' : apply header_hash ecrecover Epoch s hs = Done (inr s') -> exists s1, apply_headers ecrecover Epoch s hs = Done (inr s1) /\ contiguous (Number s) hs = true /\
  Signers s' = Signers s1 /\ Recents s' = Recents s1 /\ Votes s' = Votes s1 /\ Tallies s' = Tallies s1 /\ (hs = [] /\ s' = s \/ Number s' = u64 (Number s1 + zlen hs)).
Proof.
  unfold apply. destruct (last hs) as [l|] eqn:Hl.
  - destruct (contiguous (Number s) hs); [|done]. cbn [negb]. destruct (apply_headers ecrecover Epoch s hs) as [[e|s1]| |]; try done. cbn [obind]. intros [= <-]. exists s1. split_and!; try done. by right.
  - apply last_None in Hl as ->. intros [= <-]. exists s. split_and!; try done. by left.
Qed.

(** Applying headers reads the state, not the number or hash of the snapshot. *)
Lemma inv_ext hs s s' : Signers s' = Signers s -> Recents s' = Recents s -> Votes s' = Votes s -> Tallies s' = Tallies s -> inv hs s -> inv hs s'.
Proof.
  intros Hsg Hr Hv Ht [[Hc Ho Hs] H2 H3 H4]. assert (limit s' = limit s) as HL by (unfold limit; by rewrite Hsg).
  constructor; [constructor|..]; rewrite ?Hsg, ?Hr, ?Hv, ?Ht, ?HL; done.
Qed.

Lemma apply_inv hash sgs hs s : apply header_hash ecrecover Epoch (newSnapshot 0 hash sgs) hs = Done (inr s) -> zlen hs < two64 -> inv hs s /\ Number s = zlen hs.
Proof.
  intros Ha Hn. destruct (apply_Done _ _ _ Ha) as (s1 & Hh & Hc & H1 & H2 & H3 & H4 & H5). destruct (apply_headers_inv hs [] (newSnapshot 0 hash sgs) s1) as [Hi Hz]; [apply inv_genesis|done|simpl; lia|done|].
  split; [by apply (inv_ext hs s1)|]. destruct H5 as [[-> ->]| ->]; [done|]. rewrite Hz. apply u64_small. unfold is_u64. cbn. lia.
Qed.

Lemma contiguous_app n hs1 h hs2 : 0 <= n -> n + zlen hs1 < MaxUint64 -> contiguous n (hs1 ++ h :: hs2) = true -> contiguous n hs1 = true /\ u64 (hNumber h) = n + zlen hs1 + 1.
Proof.
  revert n. induction hs1 as [|g hs1 IH]; intros n Hn Hb; cbn [app contiguous]; intros [Heq%Z.eqb_eq H]%andb_true_iff; rewrite (u64_small (n + 1)) in Heq by (unfold is_u64; lia).
  - split; [done|]. simpl. lia.
  - simpl length in Hb. rewrite Heq in *. destruct (IH (n + 1)) as [H1 H2]; [lia..|done|]. split; [|simpl length; lia]. apply andb_true_iff. rewrite H1. split; [|done]. apply Z.eqb_eq. symmetry. apply u64_small. unfold is_u64; lia.
Qed.

(** The state in which the header after [hs1] was accepted. *)
Lemma apply_split hash sgs hs1 h hs2 s : apply header_hash ecrecover Epoch (newSnapshot 0 hash sgs) (hs1 ++ h :: hs2) = Done (inr s) -> zlen (hs1 ++ h :: hs2) < two64 ->
  exists s1 s1' s2, apply header_hash ecrecover Epoch (newSnapshot 0 hash sgs) hs1 = Done (inr s1) /\ Signers s1 = Signers s1' /\ inv hs1 s1' /\ u64 (hNumber h) = zlen hs1 + 1 /\ apply_header ecrecover Epoch s1' h = Done (inr s2) /\ (hs2 = [] -> Signers s = Signers s2).
Proof.
  intros Ha Hn. destruct (apply_Done _ _ _ Ha) as (s2 & Hh & Hc & Hsg & _). rewrite length_app in Hn. simpl length in Hn. apply contiguous_app in Hc as [Hc Hm]; [|done|cbn; lia].
  rewrite apply_headers_app in Hh. destruct (apply_headers ecrecover Epoch (newSnapshot 0 hash sgs) hs1) as [[e|s1]| |] eqn:H1; try done. cbn [obind apply_headers] in Hh.
  destruct (apply_header ecrecover Epoch s1 h) as [[e|s3]| |] eqn:H3; try done. assert (hs2 = [] -> Signers s = Signers s3) as Hlast by (intros ->; injection Hh as <-; done). assert (inv hs1 s1) as Hi by (apply (apply_headers_inv hs1 [] (newSnapshot 0 hash sgs)); [apply inv_genesis|done|simpl; lia|done]).
  unfold apply. rewrite Hc, H1. cbn [negb obind]. destruct (last hs1) eqn:Hl; [by eexists _, s1, s3|]. apply last_None in Hl as ->. injection H1 as <-. by eexists _, _, s3.
Qed.
End Chain.

(** The signers who vote on an account, each counted once. *)
Definition voters (a : Address) (s : Snapshot) : gset Address := list_to_set (map Signer (on a (Votes s))).

Lemma voters_size a s : votes_ok s -> size (voters a s) = length (on a (Votes s)).
Proof.
  intros [_ Ho _]. unfold voters. rewrite size_list_to_set, length_map; [done|]. revert Ho. unfold on. induction (Votes s) as [|v vs IH]; cbn [List.filter map]; [constructor|].
  rewrite NoDup_cons. intros [Hno Ho]. destruct (Z.eqb_spec (vAddress v) a) as [Hv|]; [|by apply IH]. cbn [map]. constructor; [|by apply IH].
  intros (w & Hw & Hin)%list_elem_of_fmap. apply Hno. apply list_elem_of_In, filter_In in Hin as [Hin Hwa%Z.eqb_eq]. apply list_elem_of_fmap. exists w. split; [|by apply list_elem_of_In]. unfold pair_of. congruence.
Qed.

Lemma elem_of_voters x a s : x ∈ voters a s -> exists v, v ∈ Votes s /\ Signer v = x /\ vAddress v = a.
Proof. unfold voters. rewrite elem_of_list_to_set. intros (v & -> & Hin)%list_elem_of_fmap. apply list_elem_of_In, filter_In in Hin as [Hin Ha%Z.eqb_eq]. exists v. split; [by apply list_elem_of_In|done]. Qed.

Section Claims.
Context (header_hash : Header -> Z) (ecrecover : Header -> option Address) (Epoch : Z).

(** C22: signers take turns: in every chain of headers that is accepted, the
    signer of a header signed none of the headers before it that are closer than
    half the number of signers at that time. *)
Theorem clique_spacing hash sgs hs s i j a : apply header_hash ecrecover Epoch (newSnapshot 0 hash sgs) hs = Done (inr s) -> zlen hs < two64 -> 0 < i < j ->
  signer_at ecrecover hs i = Some a -> signer_at ecrecover hs j = Some a ->
  exists s', apply header_hash ecrecover Epoch (newSnapshot 0 hash sgs) (take (Z.to_nat (j - 1)) hs) = Done (inr s') /\ limit s' <= j - i.
Proof.
  intros Ha Hn Hij Hi Hj. unfold signer_at in Hj. destruct (hs !! Z.to_nat (j - 1)) as [h|] eqn:Hh; [|done]. cbn [mbind option_bind] in Hj. set (hs1 := take (Z.to_nat (j - 1)) hs).
  assert (hs = hs1 ++ h :: drop (S (Z.to_nat (j - 1))) hs) as Hsplit by (symmetry; by apply take_drop_middle). apply lookup_lt_Some in Hh as Hlt.
  assert (zlen hs1 = j - 1) as Hlen by (unfold hs1; rewrite length_take; lia). rewrite Hsplit in Ha, Hn. destruct (apply_split _ _ _ _ _ _ _ _ _ Ha Hn) as (s1 & s1' & s2 & Hs1 & Hsg & Hinv & Hm & Hs2 & _).
  exists s1. split; [done|]. assert (limit s1 = limit s1') as -> by (unfold limit; by rewrite Hsg). destruct (apply_header_ok _ _ _ _ _ (i_votes _ _ _ Hinv) Hs2) as (s3 & signer & Hsl & _).
  destruct (Z_le_gt_dec (limit s1') (j - i)) as [|Hgt]; [done|]. destruct (sl_recent _ _ _ _ _ Hsl i). rewrite forget_lookup, Hm. destruct (Z.eqb_spec i (zlen hs1 + 1 - limit s1')); [lia|]. cbn [andb].
  rewrite (i_complete _ _ _ Hinv) by lia. pose proof (sl_signer _ _ _ _ _ Hsl) as Hec. rewrite <-Hec, Hj, <-Hi. unfold signer_at, hs1. by rewrite lookup_take_lt by lia.
Qed.

(** C23: no signer is added or removed without a majority: when a header changes
    the signers, it adds or removes its coinbase alone, and more than half of the
    signers before it asked for that change, each in a header of the chain that
    they signed. *)
Theorem clique_majority hash sgs hs h s s' : apply header_hash ecrecover Epoch (newSnapshot 0 hash sgs) hs = Done (inr s) -> apply header_hash ecrecover Epoch (newSnapshot 0 hash sgs) (hs ++ [h]) = Done (inr s') -> zlen hs + 1 < two64 ->
  Signers s' <> Signers s ->
  let a := Coinbase h in
  Signers s' = (if bool_decide (a ∈ Signers s) then Signers s ∖ {[a]} else Signers s ∪ {[a]}) /\
  exists V : gset Address, V ⊆ Signers s /\ Z.of_nat (size (Signers s)) < 2 * Z.of_nat (size V) /\
    forall x, x ∈ V -> exists g, g ∈ hs ++ [h] /\ ecrecover g = Some x /\ Coinbase g = a /\ hNonce g = if bool_decide (a ∈ Signers s) then nonceDropVote else nonceAuthVote.
Proof.
  intros Ha Ha' Hn Hne. destruct (apply_split _ _ _ _ _ _ _ _ _ Ha' ltac:(rewrite length_app; simpl; lia)) as (s1 & s1' & s2 & Hs1 & Hsg & Hinv & Hm & Hs2 & Hsg'). rewrite Ha in Hs1. injection Hs1 as <-.
  specialize (Hsg' eq_refl).
  destruct (apply_header_ok _ _ _ _ _ (i_votes _ _ _ Hinv) Hs2) as (s3 & signer & Hsl & ->). pose proof (sl_votes _ _ _ _ _ Hsl) as Hv3. pose proof (sl_signers _ _ _ _ _ Hsl) as Hs3.
  destruct (enact_ok (u64 (hNumber h)) (Coinbase h) s3 Hv3) as (_ & _ & _ & [[Hsame _]|(Hlt & Hch & _)]); [congruence|]. cbn zeta. rewrite Hsg', Hch, Hs3, <-Hsg. split; [done|].
  exists (voters (Coinbase h) s3). rewrite (voters_size _ _ Hv3). rewrite Hs3, <-Hsg in Hlt. split; [|split].
  - intros x (v & Hin & <- & _)%elem_of_voters. rewrite Hsg, <-Hs3. by apply Hv3.
  - pose proof (Z.div_mod (Z.of_nat (size (Signers s))) 2). pose proof (Z.mod_pos_bound (Z.of_nat (size (Signers s))) 2). lia.
  - intros x (v & Hin & <- & Hva)%elem_of_voters. assert (exists g, g ∈ hs ++ [h] /\ carries ecrecover g v) as (g & Hg & H1 & _ & H3 & H4).
    { destruct (sl_new _ _ _ _ _ Hsl v Hin) as [(g & Hg & Hc)%(i_cast _ _ _ Hinv)|Hc]; [exists g|exists h]; (split; [|done]); apply elem_of_app; [by left|right; by left]. }
    exists g. split; [done|]. split; [done|]. split; [congruence|]. rewrite H4, (c_auth _ _ _ _ (v_counted _ Hv3) v Hin I), Hva, Hs3, <-Hsg. unfold is_signer. by destruct (bool_decide _).
Qed.
End Claims.
