(* ===== verification/CliqueSeal.v ===== *)
(** * Seals and turns (consensus/clique)
    The check of a header's seal against the snapshot of its parent, compared
    with the check made when the header is applied, and whose turn it is. *)

From stdpp Require Import sorting.
From S2P Require Import Prelude Clique CliqueSafe.

Section Seal.
Context (header_hash : Header -> Z) (ecrecover : Header -> option Address) (Epoch : Z).

(** What each check asks of the header. *)
Lemma apply_header_succeeds s h : votes_ok s -> Epoch <> 0 -> hNonce h = nonceAuthVote \/ hNonce h = nonceDropVote ->
  (exists s', apply_header ecrecover Epoch s h = Done (inr s')) <-> exists a, ecrecover h = Some a /\ a ∈ Signers s /\ forall n, Recents (forget_recent (u64 (hNumber h)) s) !! n <> Some a.
Proof.
  intros Hok He Hnonce. split.
  - intros [s' Ha]. destruct (apply_header_ok _ _ _ _ _ Hok Ha) as (s1 & a & Hsl & _). exists a. split; [apply Hsl|]. split; apply Hsl.
  - intros (a & Hec & Hin & Hr). unfold apply_header. rewrite (proj2 (Z.eqb_neq _ _) He), Hec. set (n := u64 (hNumber h)) in *. set (s0 := if n mod Epoch =? 0 then _ else s).
    assert (Signers s0 = Signers s /\ Recents s0 = Recents s) as [Hs0 Hr0] by (unfold s0; by destruct (n mod Epoch =? 0)). clearbody s0.
    assert (Signers (forget_recent n s0) = Signers s /\ Recents (forget_recent n s0) = Recents (forget_recent n s)) as [-> ->] by (unfold forget_recent, limit; rewrite Hs0, Hr0; by destruct (_ <=? n)).
    rewrite (bool_decide_eq_true_2 _ Hin), (proj2 (existsb_recents _ _) Hr). cbn [negb]. set (s2 := discard_vote _ _ _ _ _).
    destruct Hnonce as [->| ->]; [rewrite Z.eqb_refl|change (nonceDropVote =? nonceAuthVote) with false; rewrite Z.eqb_refl]; destruct (cast s2 (Coinbase h) _) as [s3 [|]]; by eexists.
Qed.

Lemma inturn_total s n a : a ∈ Signers s -> exists b, inturn s n a = Done b.
Proof.
  intros Hin. unfold inturn. destruct (Z.eqb_spec (zlen (signers s)) 0) as [Hz|]; [|by eexists]. exfalso. assert (a ∈ signers s) as H by (unfold signers; rewrite merge_sort_Permutation; by apply elem_of_elements).
  destruct (signers s); [by apply not_elem_of_nil in H|simpl in Hz; lia].
Qed.

Lemma verifySeal_succeeds s h : u64 (hNumber h) <> 0 -> Difficulty h = 0 ->
  verifySeal ecrecover s h = Done (inr tt) <-> exists a, ecrecover h = Some a /\ a ∈ Signers s /\ forall n, Recents s !! n = Some a -> n <= u64 (u64 (hNumber h) - limit s).
Proof.
  intros Hn Hd. unfold verifySeal. rewrite (proj2 (Z.eqb_neq _ _) Hn). destruct (ecrecover h) as [a|]; [|by split; [|intros (a & ? & _)]].
  destruct (bool_decide_reflect (a ∈ Signers s)) as [Hin|Hno]; cbn [negb]; [|split; [done|by intros (b & [= <-] & ? & _)]]. set (m := u64 (_ - _)).
  destruct (existsb _ _) eqn:Hex.
  - split; [done|]. intros (b & [= <-] & _ & Hr). apply existsb_exists in Hex as ([n x] & Hnx%list_elem_of_In%elem_of_map_to_list & [->%Z.eqb_eq Hlt%Z.ltb_lt]%andb_true_iff). specialize (Hr n Hnx). lia.
  - split; [intros _|].
    + exists a. split; [done|]. split; [done|]. intros n Hna. destruct (Z_le_gt_dec n m) as [|Hgt]; [done|]. exfalso. apply not_true_iff_false in Hex. apply Hex, existsb_exists. exists (n, a).
      split; [by apply list_elem_of_In, elem_of_map_to_list|]. rewrite Z.eqb_refl. apply Z.ltb_lt. lia.
    + intros _. destruct (inturn_total s (u64 (hNumber h)) a Hin) as [b ->]. rewrite Hd. by destruct b.
Qed.

(** From the block numbered by the number of signers that must take turns,
    the seal check and the vote count agree: a header with a valid vote and
    difficulty passes verifySeal exactly when the snapshot can apply it. *)
Theorem verifySeal_agrees hash sgs hs s h : apply header_hash ecrecover Epoch (newSnapshot 0 hash sgs) hs = Done (inr s) -> zlen hs + 1 < two64 -> u64 (hNumber h) = zlen hs + 1 -> limit s <= zlen hs + 1 ->
  Epoch <> 0 -> hNonce h = nonceAuthVote \/ hNonce h = nonceDropVote -> Difficulty h = 0 ->
  verifySeal ecrecover s h = Done (inr tt) <-> exists s', apply header_hash ecrecover Epoch s [h] = Done (inr s').
Proof.
  intros Ha Hn Hm Hl He Hnonce Hd. destruct (apply_inv _ _ _ _ _ _ _ Ha ltac:(lia)) as [Hinv Hnum]. pose proof (limit_pos s). rewrite verifySeal_succeeds by lia. rewrite Hm, (u64_small (_ - _)) by (unfold is_u64; lia).
  transitivity (exists s', apply_header ecrecover Epoch s h = Done (inr s')).
  - rewrite (apply_header_succeeds _ _ (i_votes _ _ _ Hinv) He Hnonce). rewrite Hm. split; intros (a & Hec & Hin & Hr); exists a; (split; [done|]); (split; [done|]).
    + intros n Hf. rewrite forget_lookup in Hf. destruct (Z.eqb_spec n (zlen hs + 1 - limit s)) as [|Hne]; cbn [andb] in Hf; [by rewrite (proj2 (Z.leb_le _ _) Hl) in Hf|].
      specialize (Hr n Hf). destruct (i_sound _ _ _ Hinv n a Hf). lia.
    + intros n Hf. destruct (Z_le_gt_dec n (zlen hs + 1 - limit s)); [done|]. destruct (Hr n). rewrite forget_lookup. destruct (Z.eqb_spec n (zlen hs + 1 - limit s)); [lia|done].
  - unfold apply. cbn [last contiguous apply_headers]. rewrite Hnum, Hm, (u64_small (zlen hs + 1)), Z.eqb_refl by (unfold is_u64; lia). cbn [negb andb].
    destruct (apply_header ecrecover Epoch s h) as [[e|s1]| |]; cbn [obind]; split; intros [s' Hs']; try done; by eexists.
Qed.
End Seal.

Lemma offset_of_lookup (l : list Address) : NoDup l -> forall a i, l !! i = Some a -> offset_of a l = i.
Proof.
  induction 1 as [|x l Hx Hnd IH]; intros a i Hi; [done|]. cbn [offset_of]. destruct i as [|i]; cbn in Hi; [injection Hi as ->; by rewrite Z.eqb_refl|].
  rewrite (proj2 (Z.eqb_neq x a)); [by rewrite (IH _ _ Hi)|]. intros ->. apply Hx. by eapply list_elem_of_lookup_2.
Qed.

(** It is one signer's turn at every height. *)
Lemma inturn_unique s n : Signers s <> ∅ -> 0 <= n -> exists a, a ∈ Signers s /\ forall b, b ∈ Signers s -> inturn s n b = Done (bool_decide (b = a)).
Proof.
  intros Hne Hn. assert (NoDup (signers s)) as Hnd by (unfold signers; rewrite merge_sort_Permutation; apply NoDup_elements).
  assert (forall b, b ∈ signers s <-> b ∈ Signers s) as Hel by (intros b; unfold signers; by rewrite merge_sort_Permutation, elem_of_elements).
  assert (0 < zlen (signers s)) as Hpos. { destruct (set_choose_L _ Hne) as [x Hx%Hel]. destruct (signers s); [by apply not_elem_of_nil in Hx|simpl; lia]. }
  pose proof (Z.mod_pos_bound n _ Hpos). destruct (lookup_lt_is_Some_2 (signers s) (Z.to_nat (n mod zlen (signers s)))) as [a Ha]; [lia|].
  exists a. split; [apply Hel; by eapply list_elem_of_lookup_2|]. intros b Hb%Hel. apply list_elem_of_lookup in Hb as [i Hi]. unfold inturn. rewrite (proj2 (Z.eqb_neq _ _)) by lia. f_equal. rewrite (offset_of_lookup _ Hnd _ _ Hi).
  destruct (bool_decide_reflect (b = a)) as [->|Hba]; [rewrite (NoDup_lookup _ _ _ _ Hnd Hi Ha); apply Z.eqb_eq; lia|]. apply Z.eqb_neq. intros Heq. apply Hba. rewrite Heq, Nat2Z.id in Ha. congruence.
Qed.

(** ** Snapshots built in steps *)

(** Another number and hash; counting votes reads neither. *)
Definition stamp (n x : Z) (s : Snapshot) : Snapshot := mkSnapshot n x (Signers s) (Recents s) (Votes s) (Tallies s).

Lemma stamp_uncast n x s a b : uncast (stamp n x s) a b = (stamp n x (fst (uncast s a b)), snd (uncast s a b)).
Proof. unfold uncast. cbn [Tallies stamp]. destruct (Tallies s !! a); [|done]. destruct (negb _); [done|]. by destruct (1 <? _). Qed.

Lemma stamp_cast n x s a b : cast (stamp n x s) a b = (stamp n x (fst (cast s a b)), snd (cast s a b)).
Proof. unfold cast, validVote. cbn [Tallies stamp Signers]. destruct (negb _); [done|]. by destruct (Tallies s !! a). Qed.

Lemma stamp_discard_vote n x g a votes : forall before s, discard_vote g a before votes (stamp n x s) = stamp n x (discard_vote g a before votes s).
Proof. induction votes as [|v votes IH]; intros before s; cbn [discard_vote]; [done|]. destruct (_ && _); [by rewrite stamp_uncast|apply IH]. Qed.

Lemma stamp_discard_by n x g votes : forall before s, discard_by g before votes (stamp n x s) = stamp n x (discard_by g before votes s).
Proof. induction votes as [|v votes IH]; intros before s; cbn [discard_by]; [done|]. destruct (_ =? _); [rewrite stamp_uncast|]; apply IH. Qed.

Lemma stamp_forget n x m s : forget_recent m (stamp n x s) = stamp n x (forget_recent m s).
Proof. unfold forget_recent, limit. cbn [Signers stamp]. by destruct (_ <=? m). Qed.

Lemma stamp_enact n x m a s : enact m a (stamp n x s) = stamp n x (enact m a s).
Proof.
  unfold enact. cbn [Tallies Signers stamp]. destruct (_ <? _); [|done]. destruct (tAuthorize _); [done|].
  change (with_signers (stamp n x s) (Signers s ∖ {[a]})) with (stamp n x (with_signers s (Signers s ∖ {[a]}))). by rewrite stamp_forget, stamp_discard_by.
Qed.

Lemma votes_at_checkpoint n x (b : bool) s : (if b then with_tally (with_votes (stamp n x s) []) ∅ else stamp n x s) = stamp n x (if b then with_tally (with_votes s []) ∅ else s).
Proof. by destruct b. Qed.

Definition stamped (n x : Z) (r : outcome (cliqueErr + Snapshot)) : outcome (cliqueErr + Snapshot) :=
  let! r := r in Done (match r with inl e => inl e | inr s => inr (stamp n x s) end).

Section Steps.
Context (header_hash : Header -> Z) (ecrecover : Header -> option Address) (Epoch : Z).

Lemma stamp_apply_header n x s h : apply_header ecrecover Epoch (stamp n x s) h = stamped n x (apply_header ecrecover Epoch s h).
Proof.
  unfold apply_header. destruct (Epoch =? 0); [done|]. rewrite votes_at_checkpoint, stamp_forget. set (s1 := forget_recent _ _). destruct (ecrecover h) as [g|]; [|done].
  change (Signers (stamp n x s1)) with (Signers s1). change (Recents (stamp n x s1)) with (Recents s1). destruct (negb _); [done|]. destruct (existsb _ _); [done|].
  set (r := <[_ := g]> (Recents s1)). change (with_recents (stamp n x s1) r) with (stamp n x (with_recents s1 r)). change (Votes (stamp n x (with_recents s1 r))) with (Votes (with_recents s1 r)). rewrite stamp_discard_vote.
  set (s2 := discard_vote _ _ _ _ _). rewrite !stamp_cast. destruct (_ =? nonceAuthVote); [|destruct (_ =? nonceDropVote); [|done]]; destruct (cast s2 (Coinbase h) _) as [s3 []]; cbn [fst snd stamped obind]; by rewrite <-stamp_enact.
Qed.

Lemma stamp_apply_headers n x hs : forall s, apply_headers ecrecover Epoch (stamp n x s) hs = stamped n x (apply_headers ecrecover Epoch s hs).
Proof.
  induction hs as [|h hs IH]; intros s; cbn [apply_headers]; [done|]. rewrite stamp_apply_header. destruct (apply_header ecrecover Epoch s h) as [[e|s1]| |]; cbn [stamped obind]; [done|apply IH|done|done].
Qed.

Lemma apply_headers_number s hs s1 : apply_headers ecrecover Epoch s hs = Done (inr s1) -> Number s1 = Number s.
Proof. intros Ha. pose proof (stamp_apply_headers (Number s) (sHash s) hs s) as H. replace (stamp _ _ s) with s in H by (by destruct s). rewrite Ha in H. cbn in H. injection H as H. by rewrite H. Qed.

Lemma u64_add_l a b : u64 (u64 a + b) = u64 (a + b).
Proof. unfold u64. apply Zplus_mod_idemp_l. Qed.

Lemma contiguous_batches n hs1 hs2 : contiguous n hs1 = true -> contiguous n (hs1 ++ hs2) = contiguous (u64 (n + zlen hs1)) hs2.
Proof.
  revert n. induction hs1 as [|h hs1 IH]; intros n; cbn [app contiguous].
  - intros _. rewrite Z.add_0_r. destruct hs2; [done|]. cbn [contiguous]. do 2 f_equal. by rewrite u64_add_l.
  - intros [Heq H]%andb_true_iff. rewrite Heq, (IH _ H). cbn [andb]. apply Z.eqb_eq in Heq. rewrite Heq. f_equal. rewrite u64_add_l. f_equal. simpl length. lia.
Qed.

(** The snapshot can be built in steps: after the first headers were
    accepted, applying the rest to the resulting snapshot, as the engine does from
    a stored or cached one, gives what applying all of them at once gives,
    refusals included. *)
Theorem apply_batches s hs1 hs2 s1 : apply header_hash ecrecover Epoch s hs1 = Done (inr s1) -> apply header_hash ecrecover Epoch s (hs1 ++ hs2) = apply header_hash ecrecover Epoch s1 hs2.
Proof.
  unfold apply. destruct (last hs1) as [l|] eqn:Hl; [|apply last_None in Hl as ->; by intros [= ->]]. destruct (contiguous (Number s) hs1) eqn:Hc; [|done]. cbn [negb].
  destruct (apply_headers ecrecover Epoch s hs1) as [[e|s2]| |] eqn:Ha; try done. cbn [obind]. intros [= <-]. rewrite last_app. change (Number (mkSnapshot ?n _ _ _ _ _)) with n.
  rewrite (contiguous_batches _ _ _ Hc), (apply_headers_number _ _ _ Ha). rewrite apply_headers_app, Ha. cbn [obind]. destruct (last hs2) as [l2|] eqn:Hl2.
  - destruct (contiguous _ hs2); [|done]. cbn [negb]. fold (stamp (u64 (Number s + zlen hs1)) (header_hash l) s2). rewrite stamp_apply_headers. destruct (apply_headers ecrecover Epoch s2 hs2) as [[e|s3]| |] eqn:Ha2; try done. cbn [obind stamped].
    rewrite (apply_headers_number _ _ _ Ha2), (apply_headers_number _ _ _ Ha). cbn. do 3 f_equal. rewrite u64_add_l, length_app. f_equal. lia.
  - apply last_None in Hl2 as ->. rewrite Hl. cbn. by rewrite app_nil_r, (apply_headers_number _ _ _ Ha).
Qed.
End Steps.

(** ** Examples *)
Module CliqueExample.
(** A header names its signer in place of its mix digest. *)
Definition by_digest (h : Header) : option Address := Some (MixDigest h).
Definition hash_of (h : Header) : Z := hNumber h.
Definition header (number signer coinbase nonce : Z) : Header := mkHeader (number - 1) 0 coinbase 0 number 0 [] signer nonce.

(** Among the first blocks the seal check misses a signer who signs again
    too early, since it subtracts the limit from a smaller number: the header
    passes verifySeal and no snapshot can be built on it. *)
Theorem verifySeal_early : exists s, apply hash_of by_digest 30000 (newSnapshot 0 7 [1; 2; 3; 4; 5]) [header 1 1 0 0] = Done (inr s) /\
  verifySeal by_digest s (header 2 1 0 0) = Done (inr tt) /\ apply hash_of by_digest 30000 s [header 2 1 0 0] = Done (inl errRecentlySigned).
Proof. eexists. split; [vm_compute; reflexivity|]. split; vm_compute; reflexivity. Qed.

(** Three signers: 1 and 2 add 4, then all but 3 drop 3. *)
Definition chain : list Header := [header 1 1 4 MaxUint64; header 2 2 4 MaxUint64; header 3 3 0 0; header 4 1 3 0; header 5 2 3 0; header 6 4 3 0].

Lemma clique_spacing_witness : exists s', apply hash_of by_digest 30000 (newSnapshot 0 7 [1; 2; 3]) (take 3 chain) = Done (inr s') /\ limit s' <= 4 - 1.
Proof. eapply (clique_spacing hash_of by_digest 30000 7 [1; 2; 3] chain _ 1 4 1); [vm_compute; reflexivity|vm_compute; reflexivity|lia|reflexivity|reflexivity]. Defined.

Definition start : Snapshot := newSnapshot 0 7 [1; 2; 3].
Definition after (n : nat) : Snapshot := match apply hash_of by_digest 30000 start (take n chain) with Done (inr s) => s | _ => start end.

Lemma clique_majority_witness : Signers (after 2) = Signers (after 1) ∪ {[4]} /\ exists V : gset Address, V ⊆ Signers (after 1) /\ Z.of_nat (size (Signers (after 1))) < 2 * Z.of_nat (size V) /\
  forall x, x ∈ V -> exists g, g ∈ take 2 chain /\ by_digest g = Some x /\ Coinbase g = 4 /\ hNonce g = nonceAuthVote.
Proof. apply (clique_majority hash_of by_digest 30000 7 [1; 2; 3] (take 1 chain) (header 2 2 4 MaxUint64) (after 1) (after 2)); [vm_compute; reflexivity|vm_compute; reflexivity|vm_compute; reflexivity|]. intros H. apply (bool_decide_eq_false_1 (Signers (after 2) = Signers (after 1))); [vm_compute; reflexivity|exact H]. Defined.

Lemma verifySeal_agrees_witness : verifySeal by_digest (after 4) (header 5 2 3 0) = Done (inr tt) <-> exists s', apply hash_of by_digest 30000 (after 4) [header 5 2 3 0] = Done (inr s').
Proof. apply (verifySeal_agrees hash_of by_digest 30000 7 [1; 2; 3] (take 4 chain) (after 4) (header 5 2 3 0)); [vm_compute; reflexivity|vm_compute; reflexivity|vm_compute; reflexivity|vm_compute; discriminate|lia|right; reflexivity|reflexivity]. Defined.

Lemma apply_batches_witness : apply hash_of by_digest 30000 start (take 3 chain ++ drop 3 chain) = apply hash_of by_digest 30000 (after 3) (drop 3 chain).
Proof. apply (apply_batches hash_of by_digest 30000 start (take 3 chain) (drop 3 chain) (after 3)). vm_compute. reflexivity. Defined.
End CliqueExample.
