(* ===== verification/CliqueEngine.v ===== *)
(** * consensus/clique: the engine (clique.go)
    Snapshots found in the caches or rebuilt from headers, the verification of
    headers, and the headers that a signer prepares and seals.  The cache of
    recent snapshots is a third-party ARC cache, the class [SnapshotCache]; the
    database of snapshots is a map, and the chain is read through
    [ChainReader]. *)

From stdpp Require Import sorting.
From S2P Require Import Prelude MathUtil Clique.

(** An ARC cache may drop any entry at any time; it returns only what was added
    for the key. *)
Class SnapshotCache (C : Type) := {
  c_get : C -> Z -> option Snapshot * C;
  c_add : C -> Z -> Snapshot -> C;
  c_holds : C -> Z -> Snapshot -> Prop;
  get_holds : forall c k v c', c_get c k = (Some v, c') -> c_holds c k v;
  get_keeps : forall c k r c' k' v, c_get c k = (r, c') -> c_holds c' k' v -> c_holds c k' v;
  add_holds : forall c k v k' v', c_holds (c_add c k v) k' v' -> k' = k /\ v' = v \/ c_holds c k' v' }.

Record ChainReader := mkChain {
  GetHeader : Z -> Z -> option Header;
  GetHeaderByNumber : Z -> option Header;
  EIP150Block : option Z;
  EIP150Hash : Z
}.

Record CliqueConfig := mkConfig {
  cPeriod : Z;
  cEpoch : Z
}.

Record Engine (C : Type) := mkEngine {
  config : CliqueConfig;
  db : gmap Z Snapshot;
  recents : C;
  proposals : gmap Address bool;
  signer : Address
}.
Arguments mkEngine {C}.
Arguments config {C}.
Arguments db {C}.
Arguments recents {C}.
Arguments proposals {C}.
Arguments signer {C}.

Definition epochLength : Z := 30000.
Definition extraVanity : Z := 32.
Definition extraSeal : Z := 65.
Definition checkpointInterval : Z := 1024.
Definition ImmutabilityThreshold : Z := 90000.

(** misc.VerifyForkHashes, called for headers that are no uncles. *)
Definition VerifyForkHashes (header_hash : Header -> Z) (chain : ChainReader) (header : Header) : bool :=
  match EIP150Block chain with
  | Some block => negb ((block =? hNumber header) && negb (EIP150Hash chain =? 0) && negb (EIP150Hash chain =? header_hash header))
  | None => true
  end.

Section Engine.
Context {C : Type} `{SnapshotCache C}.
Variable header_hash : Header -> Z.
Variable ecrecover : Header -> option Address.
Variable uncleHash : Z.
Variable chain : ChainReader.

Definition Clique_New (conf : CliqueConfig) (database : gmap Z Snapshot) (cache : C) : Engine C :=
  mkEngine (mkConfig (cPeriod conf) (if cEpoch conf =? 0 then epochLength else cEpoch conf)) database cache ∅ 0.

Definition Clique_Authorize (c : Engine C) (a : Address) : Engine C := mkEngine (config c) (db c) (recents c) (proposals c) a.
Definition Propose (c : Engine C) (a : Address) (auth : bool) : Engine C := mkEngine (config c) (db c) (recents c) (<[a := auth]> (proposals c)) (signer c).
Definition Discard (c : Engine C) (a : Address) : Engine C := mkEngine (config c) (db c) (recents c) (delete a (proposals c)) (signer c).

Definition set_cache (c : Engine C) (cache : C) : Engine C := mkEngine (config c) (db c) cache (proposals c) (signer c).
Definition store (c : Engine C) (s : Snapshot) : Engine C := mkEngine (config c) (<[sHash s := s]> (db c)) (recents c) (proposals c) (signer c).

(** ** Snapshots *)

(** The signers that the extra data of a checkpoint lists. *)
Definition checkpoint_signers (extra : bytes) : outcome (list Address) :=
  let n := Z.quot (zlen extra - extraVanity - extraSeal) 20 in
  if n <? 0 then Panic IndexOutOfRange
  else Done (map (fun i => SetBytes (take AddressLength (drop (Z.to_nat extraVanity + i * AddressLength) extra))) (seq 0 (Z.to_nat n))).

(** The loop that looks for a snapshot; the parents come last one first, and
    the headers it gathers newest first. *)
Fixpoint gather (fuel : nat) (c : Engine C) (number hash : Z) (parents headers : list Header) : outcome (Engine C * (cliqueErr + Snapshot * list Header)) :=
  match fuel with
  | O => OutOfFuel
  | S fuel =>
      let '(found, cache) := c_get (recents c) hash in
      let c := set_cache c cache in
      match found with
      | Some s => Done (c, inr (s, headers))
      | None =>
          match if number mod checkpointInterval =? 0 then db c !! hash else None with
          | Some s => Done (c, inr (s, headers))
          | None =>
              let! trusted :=
                if number =? 0 then Done true
                else if cEpoch (config c) =? 0 then Panic DivideByZero
                else Done ((number mod cEpoch (config c) =? 0) &&
                  ((ImmutabilityThreshold <? zlen headers) || match GetHeaderByNumber chain (u64 (number - 1)) with None => true | Some _ => false end)) in
              match if trusted : bool then GetHeaderByNumber chain number else None with
              | Some checkpoint =>
                  let! signers := checkpoint_signers (Extra checkpoint) in
                  let snap := newSnapshot number (header_hash checkpoint) signers in
                  Done (store c snap, inr (snap, headers))
              | None =>
                  match parents with
                  | header :: parents =>
                      if negb (header_hash header =? hash) || negb (u64 (hNumber header) =? number) then Done (c, inl ErrUnknownAncestor)
                      else gather fuel c (u64 (number - 1)) (ParentHash header) parents (headers ++ [header])
                  | [] =>
                      match GetHeader chain hash number with
                      | None => Done (c, inl ErrUnknownAncestor)
                      | Some header => gather fuel c (u64 (number - 1)) (ParentHash header) [] (headers ++ [header])
                      end
                  end
              end
          end
      end
  end.

Definition snapshot (fuel : nat) (c : Engine C) (number hash : Z) (parents : list Header) : outcome (Engine C * (cliqueErr + Snapshot)) :=
  let! '(c, r) := gather fuel c number hash (rev parents) [] in
  match r with
  | inl e => Done (c, inl e)
  | inr (snap, headers) =>
      let! r := apply header_hash ecrecover (cEpoch (config c)) snap (rev headers) in
      match r with
      | inl e => Done (c, inl e)
      | inr snap =>
          let c := set_cache c (c_add (recents c) (sHash snap) snap) in
          let c := if (Number snap mod checkpointInterval =? 0) && (0 <? zlen headers) then store c snap else c in
          Done (c, inr snap)
      end
  end.

(** ** Verification *)

(** The signers as a checkpoint lists them. *)
Definition signers_bytes (snap : Snapshot) : bytes := concat (map (be_bytes AddressLength) (signers snap)).

Definition verify_seal (fuel : nat) (c : Engine C) (header : Header) (parents : list Header) : outcome (Engine C * (cliqueErr + unit)) :=
  let number := u64 (hNumber header) in
  if number =? 0 then Done (c, inl errUnknownBlock)
  else
    let! '(c, r) := snapshot fuel c (u64 (number - 1)) (ParentHash header) parents in
    match r with
    | inl e => Done (c, inl e)
    | inr snap => let! r := verifySeal ecrecover snap header in Done (c, r)
    end.

Definition verifyCascadingFields (fuel : nat) (c : Engine C) (header : Header) (parents : list Header) : outcome (Engine C * (cliqueErr + unit)) :=
  let number := u64 (hNumber header) in
  if number =? 0 then Done (c, inr tt)
  else
    match match last parents with Some parent => Some parent | None => GetHeader chain (ParentHash header) (u64 (number - 1)) end with
    | None => Done (c, inl ErrUnknownAncestor)
    | Some parent =>
        if negb (u64 (hNumber parent) =? u64 (number - 1)) || negb (header_hash parent =? ParentHash header) then Done (c, inl ErrUnknownAncestor)
        else if Time header <? u64 (Time parent + cPeriod (config c)) then Done (c, inl ErrInvalidTimestamp)
        else
          let! '(c, r) := snapshot fuel c (u64 (number - 1)) (ParentHash header) parents in
          match r with
          | inl e => Done (c, inl e)
          | inr snap =>
              if cEpoch (config c) =? 0 then Panic DivideByZero
              else
                let! listed :=
                  if number mod cEpoch (config c) =? 0 then
                    let! l := or_panic IndexOutOfRange (slice (Extra header) extraVanity (zlen (Extra header) - extraSeal)) in
                    Done (bool_decide (l = signers_bytes snap))
                  else Done true in
                if negb listed then Done (c, inl errMismatchingCheckpointSigners)
                else verify_seal fuel c header parents
          end
    end.

Definition verifyHeader (fuel : nat) (now : Z) (c : Engine C) (header : Header) (parents : list Header) : outcome (Engine C * (cliqueErr + unit)) :=
  let number := u64 (hNumber header) in
  if now <? Time header then Done (c, inl ErrFutureBlock)
  else if cEpoch (config c) =? 0 then Panic DivideByZero
  else
    let checkpoint := number mod cEpoch (config c) =? 0 in
    if checkpoint && negb (Coinbase header =? 0) then Done (c, inl errInvalidCheckpointBeneficiary)
    else if negb (hNonce header =? nonceAuthVote) && negb (hNonce header =? nonceDropVote) then Done (c, inl errInvalidVote)
    else if checkpoint && negb (hNonce header =? nonceDropVote) then Done (c, inl errInvalidCheckpointVote)
    else if zlen (Extra header) <? extraVanity then Done (c, inl errMissingVanity)
    else if zlen (Extra header) <? extraVanity + extraSeal then Done (c, inl errMissingSignature)
    else
      let signersBytes := zlen (Extra header) - extraVanity - extraSeal in
      if negb checkpoint && negb (signersBytes =? 0) then Done (c, inl errExtraSigners)
      else if checkpoint && negb (signersBytes mod 20 =? 0) then Done (c, inl errInvalidCheckpointSigners)
      else if negb (MixDigest header =? 0) then Done (c, inl errInvalidMixDigest)
      else if negb (UncleHash header =? uncleHash) then Done (c, inl errInvalidUncleHash)
      else if negb (VerifyForkHashes header_hash chain header) then Done (c, inl errForkHash)
      else verifyCascadingFields fuel c header parents.

(** The results of VerifyHeaders, when nobody aborts it. *)
Fixpoint verify_each (fuel : nat) (now : Z) (c : Engine C) (parents headers : list Header) : outcome (Engine C * list (cliqueErr + unit)) :=
  match headers with
  | [] => Done (c, [])
  | header :: headers =>
      let! '(c, r) := verifyHeader fuel now c header parents in
      let! '(c, rs) := verify_each fuel now c (parents ++ [header]) headers in
      Done (c, r :: rs)
  end.

Definition VerifyHeaders (fuel : nat) (now : Z) (c : Engine C) (headers : list Header) : outcome (Engine C * list (cliqueErr + unit)) := verify_each fuel now c [] headers.

(** ** Sealing *)

Definition set_vote (header : Header) (coinbase nonce : Z) : Header :=
  mkHeader (ParentHash header) (UncleHash header) coinbase (Difficulty header) (hNumber header) (Time header) (Extra header) (MixDigest header) nonce.

(** The vote of a header: one of the proposals that make sense; [iter] is the
    order in which Go ranges over them and [rand] the random choice. *)
Definition choose_vote (iter : gmap Address bool -> list (Address * bool)) (rand : nat) (c : Engine C) (snap : Snapshot) (header : Header) : outcome Header :=
  let addresses := map fst (List.filter (fun '(address, authorize) => validVote snap address authorize) (iter (proposals c))) in
  match addresses with
  | [] => Done header
  | _ =>
      let! a := or_panic IndexOutOfRange (addresses !! rand) in
      Done (set_vote header a (if default false (proposals c !! a) then nonceAuthVote else nonceDropVote))
  end.

(** The clock is read once. *)
Definition Prepare (iter : gmap Address bool -> list (Address * bool)) (rand : nat) (fuel : nat) (now : Z) (c : Engine C) (header : Header) : outcome (Engine C * (cliqueErr + Header)) :=
  let header := set_vote header 0 0 in
  let number := u64 (hNumber header) in
  let! '(c, r) := snapshot fuel c (u64 (number - 1)) (ParentHash header) [] in
  match r with
  | inl e => Done (c, inl e)
  | inr snap =>
      if cEpoch (config c) =? 0 then Panic DivideByZero
      else
        let checkpoint := number mod cEpoch (config c) =? 0 in
        let! header := if negb checkpoint then choose_vote iter rand c snap header else Done header in
        let! difficulty := CalcDifficulty snap (signer c) in
        let extra := take (Z.to_nat extraVanity) (RightPadBytes (Extra header) extraVanity) in
        let extra := (if checkpoint then extra ++ signers_bytes snap else extra) ++ replicate (Z.to_nat extraSeal) Byte.x00 in
        match GetHeader chain (ParentHash header) (u64 (number - 1)) with
        | None => Done (c, inl ErrUnknownAncestor)
        | Some parent =>
            let time := u64 (Time parent + cPeriod (config c)) in
            let time := if time <? now then now else time in
            Done (c, inr (mkHeader (ParentHash header) (UncleHash header) (Coinbase header) difficulty (hNumber header) time extra 0 (hNonce header)))
        end
  end.

(** The header fields of Finalize; the state root is of no concern here. *)
Definition Finalize (header : Header) : Header :=
  mkHeader (ParentHash header) uncleHash (Coinbase header) (Difficulty header) (hNumber header) (Time header) (Extra header) (MixDigest header) (hNonce header).

Definition set_seal (header : Header) (sighash : bytes) : Header :=
  mkHeader (ParentHash header) (UncleHash header) (Coinbase header) (Difficulty header) (hNumber header) (Time header)
    (blit (length (Extra header) - Z.to_nat extraSeal) sighash (Extra header)) (MixDigest header) (hNonce header).

(** Seal, with the header it hands over after the delay, if any; [signFn] signs
    the header without its seal. *)
Definition Seal (signFn : Address -> Header -> cliqueErr + bytes) (fuel : nat) (c : Engine C) (header : Header) (transactions : Z) : outcome (Engine C * (cliqueErr + option Header)) :=
  let number := u64 (hNumber header) in
  if number =? 0 then Done (c, inl errUnknownBlock)
  else if (cPeriod (config c) =? 0) && (transactions =? 0) then Done (c, inr None)
  else
    let! '(c, r) := snapshot fuel c (u64 (number - 1)) (ParentHash header) [] in
    match r with
    | inl e => Done (c, inl e)
    | inr snap =>
        if negb (bool_decide (signer c ∈ Signers snap)) then Done (c, inl errUnauthorizedSigner)
        else if existsb (fun '(seen, recent) => (recent =? signer c) && ((number <? limit snap) || (u64 (number - limit snap) <? seen))) (map_to_list (Recents snap))
        then Done (c, inr None)
        else
          match signFn (signer c) header with
          | inl e => Done (c, inl e)
          | inr sighash =>
              if zlen (Extra header) <? extraSeal then Panic IndexOutOfRange
              else Done (c, inr (Some (set_seal header sighash)))
          end
    end.
End Engine.
