(* ===== verification/CliqueNode.v ===== *)
(** * The engine on a chain of headers (consensus/clique/clique.go)
    Cached snapshots are the ones that replaying the chain from the genesis block
    gives, and the headers that an engine prepares and seals are accepted by every
    engine on the same chain. *)

From stdpp Require Import sorting.
From S2P Require Import Prelude MathUtil Clique CliqueSafe CliqueSeal CliqueEngine.

Section Node.
Context {C : Type} `{SnapshotCache C}.
Context (header_hash : Header -> Z) (ecrecover : Header -> option Address) (uncleHash : Z) (chain : ChainReader) (conf : CliqueConfig).
Context (known : Header -> Prop) (g : Header) (sgs : list Address).

Abbreviation gather := (gather header_hash chain).
Abbreviation snapshot := (snapshot header_hash ecrecover chain).
Abbreviation verifyHeader := (verifyHeader header_hash ecrecover uncleHash chain).
Abbreviation Prepare := (Prepare header_hash ecrecover chain).
Abbreviation Seal := (Seal header_hash ecrecover chain).

(** The headers that the node has seen do not collide, and its database returns
    what was asked for. *)
Record chain_ok : Prop := {
  hash_inj : forall h h', known h -> known h' -> header_hash h = header_hash h' -> h = h';
  get_known : forall k n h, GetHeader chain k n = Some h -> known h /\ header_hash h = k /\ u64 (hNumber h) = n;
  has_genesis : GetHeaderByNumber chain 0 = Some g;
  genesis_known : known g;
  genesis_number : u64 (hNumber g) = 0;
  genesis_signers : checkpoint_signers (Extra g) = Done sgs }.

(** The headers after the genesis block up to the one with a given hash. *)
Inductive lineage : Z -> list Header -> Prop :=
  | l_genesis : lineage (header_hash g) []
  | l_header h hs : lineage (ParentHash h) hs -> known h -> u64 (hNumber h) = zlen hs + 1 -> lineage (header_hash h) (hs ++ [h]).

Definition replay (hs : list Header) : outcome (cliqueErr + Snapshot) := apply header_hash ecrecover (cEpoch conf) (newSnapshot 0 (header_hash g) sgs) hs.

(** Every snapshot at hand is the one that a replay gives. *)
Record sound (c : Engine C) : Prop := {
  s_config : config c = conf;
  s_cache : forall k s, c_holds (recents c) k s -> forall hs, lineage k hs -> replay hs = Done (inr s);
  s_db : forall k s, db c !! k = Some s -> forall hs, lineage k hs -> replay hs = Done (inr s) }.

Definition stored (hs : list Header) : Prop := forall i h, hs !! i = Some h -> GetHeader chain (header_hash h) (Z.of_nat i + 1) = Some h.

(** What the node needs to rebuild the snapshot after [hs]: the headers, which
    it has in its database but for the batch [ps], and none of them so old that it
    trusts a checkpoint in their place. *)
Record served (fuel : nat) (hs0 ps : list Header) : Prop := {
  sv_stored : stored hs0;
  sv_number : forall n, 0 <= n < zlen (hs0 ++ ps) -> GetHeaderByNumber chain n <> None;
  sv_recent : zlen (hs0 ++ ps) <= ImmutabilityThreshold;
  sv_fuel : (length (hs0 ++ ps) < fuel)%nat }.

Context (Hok : chain_ok) (Hep : cEpoch conf <> 0).

Lemma lineage_inv k hs : lineage k hs -> hs = [] /\ k = header_hash g \/ exists h hs1, hs = hs1 ++ [h] /\ k = header_hash h /\ lineage (ParentHash h) hs1 /\ known h /\ u64 (hNumber h) = zlen hs1 + 1.
Proof. intros []; [by left|right]. by eexists _, _. Qed.

Lemma lineage_unique k hs : lineage k hs -> forall hs', lineage k hs' -> hs' = hs.
Proof.
  induction 1 as [|h hs Hl IH Hk Hn]; intros hs' Hl'; destruct (lineage_inv _ _ Hl') as [[-> Heq]|(h' & hs1 & -> & Heq & Hl1 & Hk1 & Hn1)].
  - done.
  - pose proof (hash_inj Hok _ _ (genesis_known Hok) Hk1 Heq). subst h'. rewrite (genesis_number Hok) in Hn1. lia.
  - pose proof (hash_inj Hok _ _ Hk (genesis_known Hok) Heq). subst h. rewrite (genesis_number Hok) in Hn. lia.
  - pose proof (hash_inj Hok _ _ Hk Hk1 Heq). subst h'. by rewrite (IH _ Hl1).
Qed.

Lemma replay_hash k hs s : lineage k hs -> replay hs = Done (inr s) -> sHash s = k.
Proof.
  intros Hl Hr. destruct (lineage_inv _ _ Hl) as [[-> ->]|(h & hs1 & -> & -> & _)]; [by injection Hr as <-|]. revert Hr. unfold replay, apply. rewrite last_snoc.
  destruct (negb _); [done|]. destruct (apply_headers _ _ _ _) as [[e|s1]| |]; try done. by intros [= <-].
Qed.

Lemma sound_get c k found cache : sound c -> c_get (recents c) k = (found, cache) -> sound (set_cache c cache).
Proof. intros [H1 H2 H3] Hg. constructor; [done| |done]. cbn. intros k' s Hh. apply H2. by eapply get_keeps. Qed.

Lemma sound_store c k hs s : sound c -> lineage k hs -> replay hs = Done (inr s) -> sound (store c s).
Proof.
  intros [H1 H2 H3] Hl Hr. constructor; [done|done|]. cbn. rewrite (replay_hash _ _ _ Hl Hr). intros k' s' [[<- <-]|[_ Hd]]%lookup_insert_Some; [|by apply H3].
  intros hs' Hl'. by rewrite (lineage_unique _ _ Hl _ Hl').
Qed.

Lemma sound_add c k hs s : sound c -> lineage k hs -> replay hs = Done (inr s) -> sound (set_cache c (c_add (recents c) (sHash s) s)).
Proof.
  intros [H1 H2 H3] Hl Hr. constructor; [done| |done]. cbn. rewrite (replay_hash _ _ _ Hl Hr). intros k' s' [[-> ->]|Hh]%add_holds; [|by apply H2].
  intros hs' Hl'. by rewrite (lineage_unique _ _ Hl _ Hl').
Qed.

(** The engine after a snapshot was looked up: other caches. *)
Definition follows (c c' : Engine C) : Prop := sound c' /\ signer c' = signer c /\ proposals c' = proposals c.

(** A snapshot at hand for the hash asked for. *)
Lemma gather_found c k found cache number : sound c -> c_get (recents c) k = (found, cache) ->
  let r := match found with Some s => Some s | None => if number mod checkpointInterval =? 0 then db (set_cache c cache) !! k else None end in
  follows c (set_cache c cache) /\ forall s hs, r = Some s -> lineage k hs -> replay hs = Done (inr s).
Proof.
  intros Hs Hg. split; [split; [by eapply sound_get|done]|]. intros s hs Hr. destruct found as [s'|]; [injection Hr as ->; apply (s_cache _ Hs); by eapply get_holds|].
  destruct (number mod checkpointInterval =? 0); [|done]. by apply (s_db _ Hs).
Qed.

Lemma found_now c c' s hs headers : follows c c' -> replay hs = Done (inr s) ->
  exists c'' s' hs1 more, Done (c', @inr cliqueErr _ (s, headers)) = Done (c'', inr (s', headers ++ more)) /\ follows c c'' /\ hs = hs1 ++ rev more /\ replay hs1 = Done (inr s').
Proof. intros Hf Hr. exists c', s, hs, []. split; [by rewrite app_nil_r|]. split; [done|]. split; [symmetry; apply app_nil_r|done]. Qed.

(** The loop finds a snapshot from which the headers lead on. *)
Lemma gather_spec hs : forall hs0 ps k fuel c headers, hs = hs0 ++ ps -> sound c -> lineage k hs -> stored hs0 -> (forall n, 0 <= n < zlen hs -> GetHeaderByNumber chain n <> None) ->
  zlen headers + zlen hs <= ImmutabilityThreshold -> (length hs < fuel)%nat ->
  exists c' s hs1 more, gather fuel c (zlen hs) k (rev ps) headers = Done (c', inr (s, headers ++ more)) /\ follows c c' /\ hs = hs1 ++ rev more /\ replay hs1 = Done (inr s).
Proof.
  induction hs as [|h hs IH] using rev_ind; intros hs0 ps k [|fuel] c headers Heq Hs Hl Hst Hn Hth Hf; try lia; cbn [CliqueEngine.gather];
    destruct (c_get (recents c) k) as [found cache] eqn:Hg; match goal with |- context [zlen ?l mod _] => destruct (gather_found c k found cache (zlen l) Hs Hg) as [Hfo Hat] end;
    cbn zeta in Hat; (destruct found as [s|]; [|destruct (if _ : bool then db _ !! k else None) as [s|]]);
    try (by apply found_now; [|apply Hat]); clear Hat.
  - destruct (lineage_inv _ _ Hl) as [[_ ->]|(h & hs1 & Hnil & _)]; [|by destruct hs1]. cbn [length]. change (Z.of_nat 0) with 0. rewrite Z.eqb_refl. cbn [obind]. rewrite (has_genesis Hok), (genesis_signers Hok). cbn [obind].
    eexists _, _, [], []. rewrite app_nil_r. split; [done|]. split; [|done]. destruct Hfo as (H1 & H2 & H3). split; [|done]. by apply (sound_store _ _ [] _ H1 l_genesis).
  - destruct (lineage_inv _ _ Hl) as [[Hnil _]|(h' & hs1 & [<- <-]%app_inj_tail & -> & Hlp & Hkn & Hnum)]; [by destruct hs|]. destruct Hfo as (Hs' & Hsg & Hpr).
    assert (zlen (hs ++ [h]) = zlen hs + 1) as Hlen by (rewrite length_app; simpl; lia). rewrite Hlen in *. pose proof (u64_range (hNumber h)) as Hr. rewrite Hnum in Hr. unfold is_u64 in Hr.
    replace (zlen hs + 1 - 1) with (zlen hs) by lia. rewrite (u64_small (zlen hs)) by (unfold is_u64; lia). rewrite (proj2 (Z.eqb_neq (zlen hs + 1) 0)) by lia.
    rewrite (s_config _ Hs'), (proj2 (Z.eqb_neq (cEpoch conf) 0) Hep). cbn [obind]. destruct (GetHeaderByNumber chain (zlen hs)) eqn:Hav; [|by destruct (Hn (zlen hs)); [lia|]].
    rewrite (proj2 (Z.ltb_ge ImmutabilityThreshold (zlen headers))) by lia. rewrite andb_false_r. assert (forall hs0' ps', hs = hs0' ++ ps' -> stored hs0' ->
      exists c' s hs1 more, gather fuel (set_cache c cache) (zlen hs) (ParentHash h) (rev ps') (headers ++ [h]) = Done (c', inr (s, headers ++ more)) /\ follows c c' /\ hs ++ [h] = hs1 ++ rev more /\ replay hs1 = Done (inr s)) as Hrec.
    { intros hs0' ps' Heq' Hst'. destruct (IH hs0' ps' (ParentHash h) fuel (set_cache c cache) (headers ++ [h])) as (c' & s & hs1 & more & Hga & (H1 & H2 & H3) & Hsp & Hre); [done..|by intros n Hn'; apply Hn; lia|rewrite length_app; simpl; lia|rewrite length_app in Hf; simpl in Hf; lia|].
      exists c', s, hs1, (h :: more). rewrite <-app_assoc in Hga. split; [done|]. split; [split; [done|]; cbn in H2, H3; by rewrite H2, H3|]. split; [|done]. rewrite Hsp. cbn [rev]. by rewrite app_assoc. }
    destruct ps as [|p ps _] using rev_ind.
    + rewrite app_nil_r in Heq. subst hs0. cbn [rev]. rewrite (Hst (length hs) h) by (by rewrite lookup_app_r, Nat.sub_diag). apply (Hrec hs []); [by rewrite app_nil_r|]. intros i x Hx. apply Hst. by apply lookup_app_l_Some.
    + rewrite app_assoc in Heq. apply app_inj_tail in Heq as [Heq <-]. rewrite rev_app_distr. cbn [rev app]. rewrite Hnum, !Z.eqb_refl. cbn [negb orb]. by apply (Hrec hs0 ps).
Qed.

Lemma snapshot_replay fuel c k hs0 ps : sound c -> lineage k (hs0 ++ ps) -> served fuel hs0 ps ->
  exists c', snapshot fuel c (zlen (hs0 ++ ps)) k ps = (let! r := replay (hs0 ++ ps) in Done (c', r)) /\ follows c c'.
Proof.
  intros Hs Hl [Hst Hn Hth Hf]. unfold CliqueEngine.snapshot. destruct (gather_spec _ hs0 ps k fuel c [] eq_refl Hs Hl Hst Hn) as (c' & s & hs1 & more & -> & (Hs' & Hsg & Hpr) & Hsp & Hre); [simpl; lia|done|].
  cbn [obind app]. rewrite (s_config _ Hs'). assert (replay (hs0 ++ ps) = apply header_hash ecrecover (cEpoch conf) s (rev more)) as Hall by (rewrite Hsp; by apply apply_batches). rewrite <-Hall.
  destruct (replay (hs0 ++ ps)) as [[e|s1]| |] eqn:Hr; cbn [obind]; try (by exists c'). eexists. split; [done|]. assert (sound (set_cache c' (c_add (recents c') (sHash s1) s1))) as Hs1 by (by eapply sound_add).
  destruct (_ && _); [split; [by eapply sound_store|done]|done].
Qed.

(** C27: the snapshots that the engine keeps in memory and on disk change
    nothing: whichever snapshots of a replay they hold, looking up the snapshot
    of a block gives the result of replaying all headers from the genesis block,
    refusals included, and keeps them sound.  The chain has at most
    ImmutabilityThreshold headers, beyond which the engine may trust a
    checkpoint, without hash collisions; the last of them may come from a batch
    that is not stored yet. *)
Theorem snapshot_cached fuel c k hs0 ps : sound c -> lineage k (hs0 ++ ps) -> served fuel hs0 ps ->
  exists c', snapshot fuel c (zlen (hs0 ++ ps)) k ps = (let! r := replay (hs0 ++ ps) in Done (c', r)) /\ follows c c'.
Proof. apply snapshot_replay. Qed.

(** ** Headers that the engine makes *)

Lemma blit_length_max {A} off (src dst : list A) : (off <= length dst)%nat -> length (blit off src dst) = length dst.
Proof. intros Hle. unfold blit. rewrite !length_app, !length_take, length_drop. lia. Qed.

Lemma length_signers_bytes s : zlen (signers_bytes s) mod 20 = 0.
Proof.
  unfold signers_bytes. induction (signers s) as [|a l IH]; [done|]. cbn [map concat]. rewrite length_app, length_be_bytes. replace (Z.of_nat (AddressLength + length (concat (map (be_bytes AddressLength) l)))) with (zlen (concat (map (be_bytes AddressLength) l)) + 1 * 20) by (unfold AddressLength; lia).
  by rewrite Z_mod_plus_full.
Qed.

(** The extra data of a sealed header. *)
Lemma sealed_extra (e m sig : bytes) : length e = 32%nat ->
  let x := blit (length ((e ++ m) ++ replicate (Z.to_nat extraSeal) Byte.x00) - Z.to_nat extraSeal) sig ((e ++ m) ++ replicate (Z.to_nat extraSeal) Byte.x00) in
  zlen x = extraVanity + zlen m + extraSeal /\ slice x extraVanity (zlen x - extraSeal) = Some m.
Proof.
  intros He. cbn zeta. rewrite (length_app (e ++ m)), length_replicate. replace (length (e ++ m) + Z.to_nat extraSeal - Z.to_nat extraSeal)%nat with (length (e ++ m)) by lia. set (x := blit _ _ _).
  assert (zlen x = extraVanity + zlen m + extraSeal) as Hx by (unfold x; rewrite blit_length_max; rewrite !length_app, length_replicate; unfold extraVanity, extraSeal; lia). split; [done|].
  rewrite slice_some by (unfold extraVanity, extraSeal in *; lia). f_equal. rewrite Hx. unfold x, blit. rewrite take_app_length. rewrite <-app_assoc, drop_app_ge by (rewrite He; unfold extraVanity; lia).
  rewrite He. replace (Z.to_nat extraVanity - 32)%nat with 0%nat by (unfold extraVanity; lia). rewrite drop_0, take_app_le by (unfold extraVanity, extraSeal; lia). apply take_ge. unfold extraVanity, extraSeal. lia.
Qed.

(** The chain to which a header is added. *)
Record extends (fuel : nat) (hs : list Header) (h : Header) : Prop := {
  e_lineage : lineage (ParentHash h) hs;
  e_number : u64 (hNumber h) = zlen hs + 1;
  e_served : served fuel hs [] }.

Lemma snapshot_parent fuel c hs h : sound c -> extends fuel hs h -> exists c', snapshot fuel c (u64 (u64 (hNumber h) - 1)) (ParentHash h) [] = (let! r := replay hs in Done (c', r)) /\ follows c c'.
Proof.
  intros Hs [Hl Hn Hsv]. pose proof (u64_range (hNumber h)) as Hr. rewrite Hn in *. replace (zlen hs + 1 - 1) with (zlen hs) by lia. rewrite u64_small by (unfold is_u64 in *; lia).
  destruct (snapshot_replay fuel c (ParentHash h) hs [] Hs) as (c' & Hc' & Hf); [by rewrite app_nil_r|done|]. rewrite app_nil_r in Hc'. by exists c'.
Qed.

(** What Prepare fills in. *)
Record prepared (s : Snapshot) (parent h0 h : Header) : Prop := {
  p_parent : ParentHash h = ParentHash h0;
  p_number : hNumber h = hNumber h0;
  p_difficulty : Difficulty h = 0;
  p_mix : MixDigest h = 0;
  p_time : u64 (Time parent + cPeriod conf) <= Time h;
  p_vote : hNonce h = nonceAuthVote \/ hNonce h = nonceDropVote;
  p_checkpoint : u64 (hNumber h0) mod cEpoch conf = 0 -> Coinbase h = 0 /\ hNonce h = nonceDropVote;
  p_extra : exists e, length e = 32%nat /\ Extra h = (e ++ if u64 (hNumber h0) mod cEpoch conf =? 0 then signers_bytes s else []) ++ replicate (Z.to_nat extraSeal) Byte.x00 }.

Lemma choose_vote_spec iter rand (c : Engine C) s h h' : choose_vote iter rand c s h = Done h' -> hNonce h = nonceDropVote ->
  exists a n, h' = set_vote h a n /\ (n = nonceAuthVote \/ n = nonceDropVote).
Proof.
  unfold choose_vote. intros Hv Hn. destruct (map fst _) as [|a l]; [injection Hv as <-; exists (Coinbase h), (hNonce h); split; [by destruct h|by right]|].
  destruct ((a :: l) !! rand) as [b|]; [|done]. injection Hv as <-. eexists _, _. split; [done|]. destruct (default _ _); [by left|by right].
Qed.

Lemma CalcDifficulty_zero s a d : CalcDifficulty s a = Done d -> d = 0.
Proof. unfold CalcDifficulty. destruct (inturn _ _ _) as [b| |]; try done. intros [= <-]. by destruct b. Qed.

Lemma Prepare_makes iter rand fuel now c h0 c1 h hs : sound c -> extends fuel hs h0 -> Prepare iter rand fuel now c h0 = Done (c1, inr h) ->
  exists s parent, replay hs = Done (inr s) /\ GetHeader chain (ParentHash h0) (zlen hs) = Some parent /\ prepared s parent h0 h.
Proof.
  intros Hs Hx. unfold CliqueEngine.Prepare. set (h0' := set_vote h0 0 0). assert (extends fuel hs h0') as Hx' by (by destruct Hx). destruct (snapshot_parent fuel c hs h0' Hs Hx') as (c' & -> & (Hs' & Hsg & Hpr)).
  destruct (replay hs) as [[e|s]| |] eqn:Hr; cbn [obind]; try done. rewrite (s_config _ Hs'), (proj2 (Z.eqb_neq _ _) Hep). change (hNumber h0') with (hNumber h0). set (cp := u64 (hNumber h0) mod cEpoch conf =? 0).
  intros [h1 [Hv Hd]]%bind_Done. assert (exists a n, h1 = set_vote h0' a n /\ (n = nonceAuthVote \/ n = nonceDropVote) /\ (cp = true -> a = 0 /\ n = nonceDropVote)) as (a & n & -> & Hvn & Hcp).
  { destruct cp; cbn [negb] in Hv; [injection Hv as <-; eexists 0, 0; split; [done|by split; [right|]]|]. destruct (choose_vote_spec _ _ _ _ _ _ Hv eq_refl) as (a & n & ? & ?). by exists a, n. }
  apply bind_Done in Hd as [d [->%CalcDifficulty_zero Hd]]. cbn [ParentHash set_vote h0'] in Hd. pose proof (e_number _ _ _ Hx) as Hn. pose proof (u64_range (hNumber h0)) as Hrg. unfold is_u64 in Hrg.
  replace (u64 (u64 (hNumber h0) - 1)) with (zlen hs) in Hd by (rewrite Hn; rewrite u64_small by (unfold is_u64; lia); lia).
  destruct (GetHeader chain (ParentHash h0) (zlen hs)) as [parent|] eqn:Hp; [|done]. injection Hd as <- <-. exists s, parent. split; [done|]. split; [done|]. constructor; try done; cbn.
  - destruct (Z.ltb_spec (u64 (Time parent + cPeriod conf)) now); lia.
  - intros Hz. apply Hcp. by apply Z.eqb_eq.
  - eexists. split; [|fold cp; by destruct cp; [|rewrite app_nil_r]]. rewrite length_take. pose proof (RightPadBytes_length (Extra h0) extraVanity). unfold extraVanity in *. lia.
Qed.

Lemma Seal_signs signFn fuel c h txs c1 h' hs : sound c -> extends fuel hs h -> Seal signFn fuel c h txs = Done (c1, inr (Some h')) ->
  exists s sig, replay hs = Done (inr s) /\ signer c ∈ Signers s /\ signFn (signer c) h = inr sig /\ extraSeal <= zlen (Extra h) /\ h' = set_seal h sig /\
    forall n, Recents s !! n = Some (signer c) -> limit s <= zlen hs + 1 /\ n <= zlen hs + 1 - limit s.
Proof.
  intros Hs Hx. unfold CliqueEngine.Seal. destruct (_ =? 0); [done|]. destruct (_ && (txs =? 0)); [done|]. destruct (snapshot_parent fuel c hs h Hs Hx) as (c' & -> & (Hs' & Hsg & Hpr)).
  destruct (replay hs) as [[e|s]| |] eqn:Hr; cbn [obind]; try done. rewrite Hsg. destruct (bool_decide_reflect (signer c ∈ Signers s)) as [Hin|]; [|done]. cbn [negb].
  destruct (existsb _ _) eqn:Hex; [done|]. destruct (signFn (signer c) h) as [e|sig]; [done|]. destruct (Z.ltb_spec (zlen (Extra h)) extraSeal); [done|]. intros [= _ <-]. exists s, sig. split_and!; try done.
  intros n Hn. destruct (Z_le_gt_dec (limit s) (zlen hs + 1)) as [Hle|Hgt]; [destruct (Z_le_gt_dec n (zlen hs + 1 - limit s)) as [|Hgt]; [done|]|]; exfalso; apply not_true_iff_false in Hex; apply Hex, existsb_exists;
    exists (n, signer c); (split; [by apply list_elem_of_In, elem_of_map_to_list|]); rewrite Z.eqb_refl, (e_number _ _ _ Hx); cbn [andb]; apply orb_true_iff; [right|left; apply Z.ltb_lt; lia].
  pose proof (u64_range (hNumber h)) as Hrg. rewrite (e_number _ _ _ Hx) in Hrg. unfold is_u64 in Hrg. pose proof (limit_pos s). rewrite u64_small by (unfold is_u64; lia). apply Z.ltb_lt. lia.
Qed.

(** A header that its signer may seal can be applied. *)
Lemma sealed_applies hs s h : zlen hs + 1 < two64 -> replay hs = Done (inr s) -> u64 (hNumber h) = zlen hs + 1 -> hNonce h = nonceAuthVote \/ hNonce h = nonceDropVote ->
  (exists a, ecrecover h = Some a /\ a ∈ Signers s /\ forall n, Recents s !! n = Some a -> limit s <= zlen hs + 1 /\ n <= zlen hs + 1 - limit s) -> exists s', replay (hs ++ [h]) = Done (inr s').
Proof.
  intros Hlt Hr Hn Hv (a & Hec & Hin & Hrec). destruct (apply_inv _ _ _ _ _ _ _ Hr ltac:(lia)) as [Hinv Hnum]. unfold replay in *. rewrite (apply_batches _ _ _ _ _ _ _ Hr).
  destruct (proj2 (apply_header_succeeds ecrecover _ s h (i_votes _ _ _ Hinv) Hep Hv)) as [s' Hs'].
  - exists a. split; [done|]. split; [done|]. intros n. rewrite forget_lookup, Hn. intros Hf. destruct (Z.eqb_spec n (zlen hs + 1 - limit s)) as [Heq|Hne]; cbn [andb] in Hf.
    + destruct (Z.leb_spec (limit s) (zlen hs + 1)); [done|]. destruct (Hrec n Hf). lia.
    + destruct (Hrec n Hf). destruct (i_sound _ _ _ Hinv n a Hf) as (? & ? & _). lia.
  - unfold apply. cbn [last contiguous apply_headers]. rewrite Hnum, Hn, (u64_small (zlen hs + 1)), Z.eqb_refl, Hs' by (unfold is_u64; lia). by eexists.
Qed.

(** The checks on the header alone. *)
Lemma sealed_fields s parent h0 h1 sig fuel now c : prepared s parent h0 h1 -> sound c -> Time h1 <= now -> EIP150Hash chain = 0 \/ EIP150Block chain <> Some (hNumber h0) ->
  let h2 := set_seal (Finalize uncleHash h1) sig in
  verifyHeader fuel now c h2 [] = verifyCascadingFields header_hash ecrecover chain fuel c h2 [] /\
  (u64 (hNumber h0) mod cEpoch conf = 0 -> slice (Extra h2) extraVanity (zlen (Extra h2) - extraSeal) = Some (signers_bytes s)).
Proof.
  intros [Hp Hn Hd Hm Ht Hv Hcp (e & He & Hex)] Hs Hnow Hfork h2. set (m := if _ =? 0 then signers_bytes s else []) in Hex. destruct (sealed_extra e m sig He) as [Hlen Hsl]. rewrite <-Hex in Hlen, Hsl. fold (Extra h2) in Hlen, Hsl.
  change (Extra h2) with (blit (length (Extra h1) - Z.to_nat extraSeal) sig (Extra h1)). set (x := blit _ _ _) in *. split; [|intros Hz; rewrite Hsl; unfold m; by rewrite Hz].
  unfold CliqueEngine.verifyHeader. change (Time h2) with (Time h1). change (Coinbase h2) with (Coinbase h1). change (hNonce h2) with (hNonce h1). change (Extra h2) with x. change (MixDigest h2) with (MixDigest h1). change (UncleHash h2) with uncleHash. change (hNumber h2) with (hNumber h1).
  rewrite (proj2 (Z.ltb_ge _ _) Hnow), (s_config _ Hs), (proj2 (Z.eqb_neq _ _) Hep), Hn. assert (VerifyForkHashes header_hash chain h2 = true) as ->.
  { unfold VerifyForkHashes. change (hNumber h2) with (hNumber h1). rewrite Hn. destruct (EIP150Block chain) as [b|]; [|done]. destruct Hfork as [-> |Hb]; [by rewrite andb_false_r|]. by rewrite (proj2 (Z.eqb_neq b _)) by congruence. }
  rewrite !(proj2 (Z.ltb_ge _ _)) by (unfold extraVanity, extraSeal in *; lia). replace (zlen x - extraVanity - extraSeal) with (zlen m) by lia. rewrite Hm, !Z.eqb_refl.
  assert (negb (hNonce h1 =? nonceAuthVote) && negb (hNonce h1 =? nonceDropVote) = false) as -> by (destruct Hv as [-> | ->]; [done|by rewrite Z.eqb_refl, andb_false_r]). unfold m.
  destruct (Z.eqb_spec (u64 (hNumber h0) mod cEpoch conf) 0) as [Hz|]; [destruct (Hcp Hz) as [-> ->]; by rewrite !length_signers_bytes|done].
Qed.

(** The checks on the chain. *)
Lemma sealed_cascades fuel c hs h s parent : sound c -> extends fuel hs h -> zlen hs + 1 < two64 -> replay hs = Done (inr s) -> GetHeader chain (ParentHash h) (zlen hs) = Some parent -> u64 (Time parent + cPeriod conf) <= Time h ->
  (u64 (hNumber h) mod cEpoch conf = 0 -> slice (Extra h) extraVanity (zlen (Extra h) - extraSeal) = Some (signers_bytes s)) -> verifySeal ecrecover s h = Done (inr tt) ->
  exists c', verifyCascadingFields header_hash ecrecover chain fuel c h [] = Done (c', inr tt).
Proof.
  intros Hs Hx Hlt Hr Hpar Ht Hl Hv. pose proof (e_number _ _ _ Hx) as Hn. unfold verifyCascadingFields, verify_seal. destruct (snapshot_parent fuel c hs h Hs Hx) as (c1 & Hc1 & (Hs1 & _)). destruct (snapshot_parent fuel c1 hs h Hs1 Hx) as (c2 & Hc2 & _).
  rewrite Hn in *. replace (u64 (zlen hs + 1 - 1)) with (zlen hs) in * by (rewrite u64_small by (unfold is_u64; lia); lia). rewrite (proj2 (Z.eqb_neq (zlen hs + 1) 0)) by lia. cbn [last]. rewrite Hpar.
  destruct (get_known Hok _ _ _ Hpar) as (_ & -> & ->). rewrite !Z.eqb_refl. cbn [negb orb]. rewrite (s_config _ Hs), (proj2 (Z.ltb_ge _ _) Ht), Hc1, Hr. cbn [obind]. rewrite (s_config _ Hs1), (proj2 (Z.eqb_neq _ _) Hep).
  destruct (Z.eqb_spec ((zlen hs + 1) mod cEpoch conf) 0) as [Hz|]; [rewrite (Hl Hz); cbn [or_panic obind]; rewrite bool_decide_eq_true_2 by done|]; cbn [obind negb]; rewrite Hc2, Hr; cbn [obind]; rewrite Hv; by eexists.
Qed.

(** C21: the headers that the engine makes are accepted.  On a chain of at most
    ImmutabilityThreshold headers without hash collisions, when an engine
    prepares and seals a header with a signature that is recovered to its
    signer, every engine that has the chain and whose clock has reached the
    header verifies it, whichever snapshots of a replay their caches hold, and
    the chain with the header can be replayed.  The exception is the EIP 150
    block of a chain that prescribes its hash. *)
Theorem sealed_header_accepted iter rand fuel now now' c c1 c2 c3 c' signFn txs h0 h1 h2 hs : sound c -> sound c2 -> sound c' -> extends fuel hs h0 ->
  Prepare iter rand fuel now c h0 = Done (c1, inr h1) -> Seal signFn fuel c2 (Finalize uncleHash h1) txs = Done (c3, inr (Some h2)) ->
  (forall h sig, extraSeal <= zlen (Extra h) -> signFn (signer c2) h = inr sig -> ecrecover (set_seal h sig) = Some (signer c2)) ->
  EIP150Hash chain = 0 \/ EIP150Block chain <> Some (hNumber h0) -> Time h2 <= now' ->
  (exists c'', verifyHeader fuel now' c' h2 [] = Done (c'', inr tt)) /\ exists s', replay (hs ++ [h2]) = Done (inr s').
Proof.
  intros Hs Hs2 Hs' Hx Hpr Hse Hsig Hfork Hnow. destruct (Prepare_makes _ _ _ _ _ _ _ _ _ Hs Hx Hpr) as (s & parent & Hr & Hpar & Hp). pose proof (e_number _ _ _ Hx) as Hn. pose proof (sv_recent _ _ _ (e_served _ _ _ Hx)) as Hsmall. rewrite app_nil_r in Hsmall. unfold ImmutabilityThreshold in Hsmall.
  assert (extends fuel hs (Finalize uncleHash h1)) as Hx1 by (destruct Hx, Hp; constructor; cbn; congruence). destruct (Seal_signs _ _ _ _ _ _ _ _ Hs2 Hx1 Hse) as (s1 & sig & Hr1 & Hin & Hsf & Hlen & -> & Hrec). rewrite Hr in Hr1. injection Hr1 as <-.
  set (h2 := set_seal _ sig) in *. destruct (sealed_fields s parent h0 h1 sig fuel now' c' Hp Hs' Hnow Hfork) as [Hvf Hlist]. fold h2 in Hvf, Hlist. assert (u64 (hNumber h2) = zlen hs + 1) as Hn2 by (change (hNumber h2) with (hNumber h1); by rewrite (p_number _ _ _ _ Hp)).
  split; [|apply (sealed_applies hs s h2); [lia|done|done|apply (p_vote _ _ _ _ Hp)|by exists (signer c2); split; [apply Hsig|split]]].
  assert (extends fuel hs h2) as Hx2 by (by destruct Hx1). assert (verifySeal ecrecover s h2 = Done (inr tt)) as Hvs.
  { apply verifySeal_succeeds; [lia|apply (p_difficulty _ _ _ _ Hp)|]. exists (signer c2). split; [by apply Hsig|]. split; [done|]. intros n Hrn. destruct (Hrec n Hrn) as [H1 H2]. rewrite Hn2. pose proof (limit_pos s). rewrite u64_small by (unfold is_u64; lia). done. }
  rewrite Hvf. apply (sealed_cascades fuel c' hs h2 s parent); [done|done|lia|done| |apply (p_time _ _ _ _ Hp)|rewrite Hn2, <-Hn; apply Hlist|done]. change (ParentHash h2) with (ParentHash h1). by rewrite (p_parent _ _ _ _ Hp).
Qed.
End Node.

(** ** Examples *)
Module CliqueNodeExample.
(** A cache that keeps everything. *)
#[export] Instance map_cache : SnapshotCache (gmap Z Snapshot).
Proof.
  refine {| c_get c k := (c !! k, c); c_add c k v := <[k := v]> c; c_holds c k v := c !! k = Some v |}.
  - by intros c k v c' [= -> <-].
  - by intros c k r c' k' v [= <- <-].
  - intros c k v k' v' [[-> ->]|[_ Hl]]%lookup_insert_Some; [by left|by right].
Defined.

(** The seal of a header is the address of its signer. *)
Definition ecrecover (h : Header) : option Address := Some (SetBytes (drop (length (Extra h) - 65) (Extra h))).
Definition signFn (a : Address) (h : Header) : cliqueErr + bytes := inr (be_bytes 65 a).
Definition header_hash (h : Header) : Z := 100 + hNumber h.
Definition uncleHash : Z := 9.

Definition genesis : Header := mkHeader 0 9 0 0 0 1000 (replicate 32 Byte.x00 ++ concat (map (be_bytes 20) [1; 2; 3]) ++ replicate 65 Byte.x00) 0 0.
Definition first : Header := mkHeader 100 9 0 0 1 1015 (replicate 32 Byte.x00 ++ be_bytes 65 1) 0 0.
Definition second : Header := mkHeader 101 9 0 0 2 1030 (replicate 32 Byte.x00 ++ be_bytes 65 2) 0 0.
Definition known (h : Header) : Prop := h ∈ [genesis; first; second].

Definition chain : ChainReader :=
  mkChain (fun k n => List.find (fun h => (header_hash h =? k) && (u64 (hNumber h) =? n)) [genesis; first]) (fun n => List.find (fun h => hNumber h =? n) [genesis; first]) None 0.
Definition conf : CliqueConfig := mkConfig 15 2.
Definition engine : Engine (gmap Z Snapshot) := Clique_Authorize (Clique_New conf ∅ ∅) 2.

Lemma chain_is_ok : chain_ok header_hash chain known genesis [1; 2; 3].
Proof.
  constructor.
  - unfold known. intros h h' Hh%list_elem_of_In Hh'%list_elem_of_In. destruct Hh as [<-|[<-|[<-|[]]]], Hh' as [<-|[<-|[<-|[]]]]; intros Heq; first [reflexivity|vm_compute in Heq; discriminate Heq].
  - intros k n h [Hin Hk]%find_some. apply andb_true_iff in Hk as [Hk%Z.eqb_eq Hn%Z.eqb_eq]. split_and!; [|done|done]. unfold known. destruct Hin as [<-|[<-|[]]]; [by left|by right; left].
  - reflexivity.
  - by left.
  - reflexivity.
  - vm_compute. reflexivity.
Qed.

Lemma engine_sound : sound header_hash ecrecover conf known genesis [1; 2; 3] engine.
Proof. constructor; [reflexivity|intros k s; cbn; by rewrite lookup_empty|intros k s; cbn; by rewrite lookup_empty]. Qed.

Lemma lineage_first : lineage header_hash known genesis 101 [first].
Proof. apply (l_header header_hash known genesis first []); [exact (l_genesis header_hash known genesis)|by right; left|reflexivity]. Qed.

Lemma served_first fuel : (2 < fuel)%nat -> forall ps, (length ps <= 1)%nat -> served header_hash chain fuel [first] ps.
Proof.
  intros Hf ps Hp. constructor; rewrite ?length_app; cbn [length].
  - intros [|i] h Hh; [injection Hh as <-; reflexivity|done].
  - intros n Hn. assert (n = 0 \/ n = 1) as [-> | ->] by lia; vm_compute; discriminate.
  - unfold ImmutabilityThreshold. lia.
  - lia.
Qed.

Lemma snapshot_cached_witness : exists c', snapshot header_hash ecrecover chain 5 engine 2 102 [second] = (let! r := replay header_hash ecrecover conf genesis [1; 2; 3] [first; second] in Done (c', r)) /\
  follows header_hash ecrecover conf known genesis [1; 2; 3] engine c'.
Proof.
  apply (snapshot_cached header_hash ecrecover chain conf known genesis [1; 2; 3] chain_is_ok ltac:(discriminate) 5 engine 102 [first] [second]); [apply engine_sound| |apply served_first; simpl; lia].
  apply (l_header header_hash known genesis second [first]); [exact lineage_first|by right; right; left|reflexivity].
Defined.

(** The header that signer 2 makes after [first], at a checkpoint. *)
Definition draft : Header := mkHeader 101 0 0 0 2 0 [] 0 0.
Definition prepared_header : Header := match Prepare header_hash ecrecover chain map_to_list 0 5 1020 engine draft with Done (_, inr h) => h | _ => draft end.
Definition prepared_engine : Engine (gmap Z Snapshot) := match Prepare header_hash ecrecover chain map_to_list 0 5 1020 engine draft with Done (c, _) => c | _ => engine end.
Definition sealed_header : Header := match Seal header_hash ecrecover chain signFn 5 engine (Finalize uncleHash prepared_header) 0 with Done (_, inr (Some h)) => h | _ => draft end.
Definition sealed_engine : Engine (gmap Z Snapshot) := match Seal header_hash ecrecover chain signFn 5 engine (Finalize uncleHash prepared_header) 0 with Done (c, _) => c | _ => engine end.

Lemma seal_recovers h sig : extraSeal <= zlen (Extra h) -> signFn 2 h = inr sig -> ecrecover (set_seal h sig) = Some 2.
Proof.
  intros Hlen Hs. assert (sig = be_bytes 65 2) as -> by (unfold signFn in Hs; congruence). unfold ecrecover. cbn [Extra set_seal]. rewrite blit_length_max by lia. unfold blit. f_equal. unfold extraSeal in *. change (Z.to_nat 65) with 65%nat. rewrite drop_app_ge by (rewrite length_take; lia).
  rewrite length_take_le, Nat.sub_diag, drop_0 by lia. rewrite take_ge by (rewrite length_be_bytes; lia). rewrite (drop_ge (Extra h)), app_nil_r by (rewrite length_be_bytes; lia). reflexivity.
Qed.

Lemma sealed_header_accepted_witness : (exists c'', verifyHeader header_hash ecrecover uncleHash chain 5 2000 engine sealed_header [] = Done (c'', inr tt)) /\
  exists s', replay header_hash ecrecover conf genesis [1; 2; 3] [first; sealed_header] = Done (inr s').
Proof.
  apply (sealed_header_accepted header_hash ecrecover uncleHash chain conf known genesis [1; 2; 3] chain_is_ok ltac:(discriminate) map_to_list 0 5 1020 2000 engine prepared_engine engine sealed_engine engine signFn 0 draft prepared_header sealed_header [first]).
  - apply engine_sound.
  - apply engine_sound.
  - apply engine_sound.
  - constructor; [exact lineage_first|reflexivity|apply served_first; simpl; lia].
  - vm_compute. reflexivity.
  - vm_compute. reflexivity.
  - apply seal_recovers.
  - left. reflexivity.
  - vm_compute. discriminate.
Defined.
End CliqueNodeExample.
